(* ===== verification/_CoqProject ===== *)
-Q . S2P
Prelude.v
Sdk.v
SdkModel.v
LegacyDec.v
FibreParams.v
FibreKeys.v
FibrePromise.v
FibreKeeper.v
FibreLedger.v
FibreMsgServer.v
FibreInvariant.v
FibreBeginBlock.v
FibreTrace.v
FibreExample.v
FibreProperties.v
FibreEncoding.v
EscrowLedger.v
FibreGenesis.v
FibreCache.v
FibreBlobId.v
ValidatorSet.v
ShardAssignment.v
Signal.v
Mint.v
GoSquare.v
PayForBlob.v
Messages.v
DataAvailability.v
Minfee.v
Ante.v
AnteProofs.v
Proposal.v
ProposalProofs.v
AnteAgreement.v
CheckTx.v
BlockValidity.v
SquareModel.v
ChainModel.v
BlobProperties.v
AnteProperties.v
BlockSettlement.v
ProposalProperties.v
Disk.v
ShardCodec.v
Timestamp.v
ShardStore.v
ShardStoreKeys.v
ShardStoreProofs.v
ShardStorePrune.v
ShardStoreTrace.v
DiskModel.v
Merkle.v
MerkleProofs.v
Rlc.v
RlcProofs.v
Rsema1d.v
Rsema1dProofs.v
Rsema1dEncode.v
Rsema1dCollect.v
Rsema1dModel.v
Rsema1dProperties.v
Occupancy.v
ProtocolParams.v
RowPool.v
RowPoolProofs.v
Blob.v
BlobProofs.v
BlobLifetime.v
Download.v
DownloadProofs.v
DownloadProperties.v
StoreProperties.v
FibreServer.v
FibreServerProofs.v
FibreServerNode.v
FibreServerProperties.v
ZkIsm.v
ZkIsmProperties.v
Forwarding.v
Valaddr.v
