(* ===== verification/Prelude.v ===== *)
(** * Verification of celestia-app

    celestia-app is a Cosmos SDK chain that sells block space for data. The
    development models the parts that carry the program's own accounting and
    protocol rules:

    - block production ([src/app]): admission to the mempool, the filtering of
      transactions into a proposal, the validation of proposals and the
      execution of pay-for-fibre messages inside them;
    - the ante handlers ([src/app/ante], [src/x/blob/ante], [src/x/fibre/ante]),
      which decide whether a transaction may run and what it pays;
    - the blob and minfee modules ([src/x/blob], [src/x/minfee]) and the data
      availability header ([src/pkg/da]);
    - the fibre module ([src/x/fibre]), which keeps an escrow account per signer
      and settles payment promises for off-chain blobs;
    - the fibre client and validator library ([src/fibre]): payment promises,
      collection of validator signatures, assignment of shards to validators,
      the client's escrow ledger, blobs with their rows, buffers and
      identifiers, and the validator's server with its shard store and its
      storage budget;
    - the erasure code with its commitments ([src/pkg/rsema1d]);
    - the signal module ([src/x/signal]), which schedules upgrades by voting
      power, and the mint module ([src/x/mint]), which mints the block
      provision;
    - the bridging modules ([src/x/zkism], [src/x/forwarding]), which trust the
      state of other chains by zero-knowledge proofs and forward tokens to them,
      and the registry of fibre hosts ([src/x/valaddr]).

    ** How the parts interact

    A transaction enters through [CheckTx], which validates a blob transaction
    against its blobs, parses a pay-for-fibre transaction and runs the ante
    handlers. [PrepareProposalHandler] runs the same ante handlers over the
    candidates in [Fill], executes pay-for-fibre messages through the fibre
    module and lays the survivors out in a square; [ProcessProposalHandler]
    repeats the work on a fresh branch of the state and compares the square and
    the data root. Two node-local caches skip work that [CheckTx] already did.

    A fibre client lays a blob out in rows ([NewBlob]) and encodes them
    ([Encode]), admits the upload against its local ledger, signs a promise
    and sends shards to the validators that [Assign] selects. Each validator
    checks the promise and the rows ([UploadShard], [Verify]), reserves the
    price of the promise in its local cache, reserves space ([reserve]), stores
    the shard ([Put]) until its prune time and signs. Whoever downloads the blob verifies the rows against
    the commitment and reconstructs the data ([Add], [Reconstruct]). The
    signatures come back in a [PayForFibre] message, whose handler checks them against the validator set of the promise's height
    and debits the escrow account; a promise that nobody settles is settled by
    [PaymentPromiseTimeout]. [BeginBlocker] advances the freshness floor, pays
    due withdrawals and prunes the record of processed payments.

    ** Files

    - [Prelude]: the result of a Go call (value, error or panic) with its bind
      notation and inversion tactics, machine integers with explicit
      wrap-around, big-endian encodings, byte order, key-value stores with
      sorted iteration and sums over maps; the rewrite database [go_len], the
      hint database [go] and the tactics [inv_ok], [inv_case], [fits] and [len].
    - [Sdk]: classes for the packages outside the repository (time format,
      coins, bank, addresses, cryptography, typed events), each with a class of
      the documented laws the theorems use. [SdkModel] gives executable
      instances and proves the laws, so every hypothesis has a model.
      [LegacyDec] does the same for the SDK's fixed-point decimals.
    - [FibreParams], [FibreKeys], [FibrePromise], [FibreKeeper],
      [FibreMsgServer]: [x/fibre/types/{params,gas,keys,msgs,events}.go],
      [fibre/payment_promise.go] and [x/fibre/keeper/{keeper,msg_server,abci}.go],
      one definition per function, under the function's name. The store is a
      record with one byte-keyed map per key family, holding decoded values.
    - [FibreLedger], [FibreInvariant], [FibreBeginBlock], [FibreTrace]: the
      invariant of the module (accounts, withdrawals, indexes, payments, floor
      and solvency), its preservation by each handler and by begin-block
      processing, and the executions of the chain as a step relation.
      [FibreExample] is a concrete execution of seven steps.
    - [FibreProperties]: the claims about the module. [FibreEncoding]: the
      identity of promises, their protobuf round trip and the price formula.
    - [FibreGenesis]: import, export and validation of the genesis state.
    - [FibreCache]: the validator-local reservation cache and the queries.
    - [FibreBlobId]: commitments and blob ids.
    - [EscrowLedger]: the client's ledger as threads that interleave at the
      critical sections, flag accesses and remote calls of the code.
    - [ValidatorSet], [ShardAssignment]: [fibre/validator] and the signature
      check of the message server.
    - [Signal]: [x/signal/keeper.go]. [Mint]: [x/mint].
    - [GoSquare]: the interfaces of go-square and rsmt2d (namespaces, blobs,
      square builder, extension), with their laws; [SquareModel] instantiates
      them.
    - [PayForBlob]: [x/blob]. [Messages]: the messages of a transaction, the
      decoders of [app/encoding], blob transaction validation and the
      classification of pay-for-fibre transactions. [DataAvailability]:
      [pkg/da/data_availability_header.go]. [Minfee]: [x/minfee] and the fee
      check of [app/ante/fee.go].
    - [Ante]: the decorators and [NewAnteHandler]; [AnteProofs] and
      [AnteAgreement] show what an accepting run means and that two runs from
      the same history decide alike.
    - [Proposal]: [app/{filtered_square_builder,prepare_proposal,
      process_proposal,pff_execution}.go]; [ProposalProofs] relates the two
      handlers by a simulation and bounds the size of a filled block, [BlockValidity] states what a valid block is.
      [CheckTx]: [app/check_tx.go] and the caches.
    - [ChainModel]: a concrete chain for the witnesses. [BlobProperties],
      [AnteProperties], [BlockSettlement], [ProposalProperties]: the
      claims about these parts.

    - [Disk]: the interfaces of pebble and of its file system, with faults and
      their laws; [DiskModel] is a disk in memory. [ShardCodec], [Timestamp],
      [ShardStore]: [fibre/{store,store_codec}.go]; [ShardStoreKeys],
      [ShardStoreProofs], [ShardStorePrune], [ShardStoreTrace]: keys, the
      specification of every call and of sequences of calls with restarts;
      [StoreProperties]: the claims.
    - [Occupancy]: [fibre/occupancy.go] as interleaved atomic steps.
    - [Merkle], [Rlc], [Rsema1d]: [pkg/rsema1d] with its [merkle], [rlc] and
      [field] packages; [MerkleProofs], [RlcProofs],
      [Rsema1dProofs], [Rsema1dEncode], [Rsema1dCollect] their lemmas
      ([Rsema1dCollect] the concurrent collection of rows and that verification
      never panics), [Rsema1dModel] two concrete codes and [Rsema1dProperties]
      the claims.
    - [ProtocolParams]: [fibre/protocol_params.go]. [RowPool], [RowPoolProofs]:
      [fibre/internal/row/pool.go]. [Blob]: [fibre/blob.go] and
      [fibre/internal/row/assembler.go]; [BlobProofs]: the layout and
      encoding of a blob; [BlobLifetime]: its reference count.
    - [Download]: [fibre/{download,client_download}.go] as one dispatcher and a
      worker per validator that interleave; [DownloadProofs]: its invariant, a
      measure that every step lowers and what is returned for the id of an
      encoded blob; [DownloadProperties]: the claims.
    - [FibreServer]: [fibre/server{,_upload,_download,_prune}.go], the handlers
      whole and uploads as goroutines that interleave; [FibreServerProofs]: what
      a verified upload satisfies; [FibreServerNode]: what each call of
      the store adds and may lose, and the life of a server, with restarts and
      crashes, and its invariant;
      [FibreServerProperties]: the claims, with the simulation of a server by
      [Occupancy].
    - [ZkIsm]: [x/zkism], the handlers, the verifier, the codec of public
      values, genesis and queries; [ZkIsmProperties]: the invariant of its store,
      its executions and the claims. [Forwarding]: [x/forwarding]. [Valaddr]:
      [x/valaddr], with the map that it refines.

    ** What the theorems show

    - Proposals: a proposal is accepted exactly when it is a valid block, which
      [BlockValidity] describes by what its transactions decode to and pay for
      and not by the functions of the code; a prepared proposal is accepted by
      every validator whose caches its own handlers filled, when no dropped
      transaction left writes that matter (and a run shows that such writes can
      leak); the filtered transactions fit the byte limit; an accepted block
      settles no promise twice and none that was ever settled before; both
      caches are transparent up to a collision with a transaction that the node
      checked.
    - Ante handlers: an accepted transaction nests no payment messages, leaves
      hard-coded parameters alone and pays the minimum fee; the gas check admits
      exactly the transactions that pay for their blobs.
    - Blobs: validation accepts exactly the well-formed blob transactions, never
      panics and accepts every created payment; the square size stays a valid
      power of two; the hash of a header commits to its roots.
    - Settlement: no promise is settled twice in any execution, whatever the
      parameter changes and however much of the record is pruned; both paths
      have the stated effects and exclude each other; a valid promise can be
      settled and an expired one keeps a window for its timeout.
    - Accounting: the module account covers all escrow balances, each account is
      its available part plus its pending withdrawals, and the two indexes of
      withdrawals agree; deposits, requests and payouts move exactly the stated
      amounts; begin-block processing cannot fail.
    - Client and validators: with [AutoFund], a client's dispatched promises stay
      covered by its escrow in every interleaving, up to what withdrawals and
      promises of others take from the account (and runs show that a startup
      grace period and a client without [AutoFund] break this), deposits are
      single-flighted; a validator's reservations
      stay within the balance.
    - Quorum and shards: an accepted list of signatures holds valid ones of
      validators with the required voting power (what follows them is not
      examined); shards are distinct, a live third holds enough different rows
      for reconstruction while the assignment does not wrap around, and a
      validator accepts exactly its rows.
    - Erasure code: the batch verifier accepts exactly the batches whose rows
      open to the commitment; a commitment binds the rows; encoded rows verify;
      rows collected concurrently are distinct and verified, good rows are
      never refused, and reconstruction returns the committed data, in each
      case up to an exhibited collision of SHA-256.
    - Downloads: every download ends, without a panic and with all its
      goroutines; what it returns is the data of the blob; and it returns it
      when enough rows are served, whatever the other validators answer.
    - Server: a signature is given only for a valid promise whose rows are
      assigned, open to the commitment and are on disk with their prune time; an
      acknowledged upload is kept until a prune time of its promise has passed,
      through races, faults and orderly restarts, and a crash, which takes the
      database back to an earlier commit because the store commits without a
      sync, loses only what was acknowledged after that commit; what is served
      opens to the commitment, after crashes too; uploads never block each other
      for good, and without crashes a server refines the occupancy counter, so
      the bytes on disk stay within the budget. Calls of the store are atomic
      steps there: two calls that overlap inside pebble or the file system are
      not modelled, and neither is a failure of the machine that loses files.
    - Storage: a stored shard is read back and kept until the earliest prune
      time in its index whatever fails; pruning removes exactly what is due; the stored bytes stay
      within the budget; row buffers have one holder and the storage of a blob
      is released exactly once.
    - Bridging: a trusted state of an interchain security module is reached by
      proved transitions only, messages are delivered at most as often as proofs
      authorized them, one proof is accepted per state root, and the state
      survives an export while no module has more than a hundred pending
      messages (a run shows that more are lost); a forwarding address commits to
      one destination, loses what is sent there and nothing else, and the relayer
      pays at most the quoted fee.
    - Hosts: exactly the strings that split into a non-empty host and a port are
      accepted (a host with a path among them), and the registry of hosts behaves
      as a map from which validators are removed that are jailed, not bonded and
      seven days past their unbonding.
    - Upgrades need and get five sixths of the voting power; minting follows the
      inflation schedule and credits the fee collector with the provision.

    ** Modelling choices

    Errors are the sentinel or message text, without formatting. [math.Int]
    values are [Z]; the 256-bit limit appears in the laws of coin arithmetic.
    Integers of machine width are [Z] with the wrap-around written out. Time is
    nanoseconds since Go's zero time. Values in a store are decoded (the
    protobuf codec is not part of the repository), except in [Signal], where the
    byte format matters. [sdk.NewCoin] is modelled with its sign check and
    without its check of the denomination's syntax. Typed events are recorded;
    the untyped events of [Signal] and [Mint], logs and telemetry are not. Gas
    is metered where a decorator or handler of the repository consumes it; the
    decorators of the SDK, of the circuit breaker and of IBC are parameters with
    the laws their documentation states, and a transaction that a handler
    rejects keeps the writes made before the rejection, as the code does.
    Agreement of two runs is stated for transactions whose promises were
    verified in the same history and whose hashes do not collide with those that
    occur in it. Account strings of the executions have one length
    ([signer_len]), as Bech32 strings of one prefix and address size have; block
    times lie in the range the time format can render ([block_time_ok]); raw
    transactions are shorter than 2^60 bytes. Every loop of the modelled code
    is structural on the list it ranges over, and the client's polling loop is
    cut into steps of a thread. Only the uninterrupted runs of a reservation and
    of an upload take fuel, 3 and 9 steps; [reserve_run] and
    [upload_steps_are_handler] show that these are enough.

    ** Not modelled

    The consensus engine, the SDK, go-square, rsmt2d, pebble, the Reed-Solomon
    codec, Hyperlane and gnark are third-party code and appear as parameters. Of this
    repository, the set-up and shutdown of the fibre server, the upload fan-out
    of the fibre client, share and transaction proofs ([pkg/proof],
    [pkg/inclusion], [pkg/wrapper]), the wiring of the application, the
    transaction client and the multiplexer are not modelled: they delegate to
    third-party packages, to the network or to the operating system. Command
    lines, tools and tests are outside the scope. *)

From Stdlib Require Export ZArith Lia.
From stdpp Require Export base option list gmap sorting strings.

#[local] Open Scope Z_scope.

(** ** Go values *)

(** A Go [[]byte] or [string]: the sequence of its bytes. *)
Abbreviation bytes := (list Z) (only parsing).

Definition byte_ok (b : Z) : Prop := 0 <= b < 256.

(** Errors are identified by the sentinel or message the code returns. *)
Abbreviation error := string (only parsing).

(** The outcome of a Go call: a value, a returned error, or a panic. *)
Inductive result (A : Type) : Type :=
| Ok (a : A)
| Err (e : error)
| Panic (why : error).

Arguments Ok {A} _.
Arguments Err {A} _.
Arguments Panic {A} _.

#[global] Instance result_ret : MRet result := @Ok.

#[global] Instance result_bind : MBind result := λ A B f r,
  match r with
  | Ok a => f a
  | Err e => Err e
  | Panic p => Panic p
  end.

(** [if !b { return err }]. *)
Definition ensure (b : bool) (e : error) : result unit := if b then Ok tt else Err e.

Definition of_option {A} (e : error) (o : option A) : result A :=
  match o with Some a => Ok a | None => Err e end.

Definition is_ok {A} (r : result A) : bool := match r with Ok _ => true | _ => false end.

(** Run every step of a loop whose body may return early with an error. *)
Fixpoint fold_res {A S} (f : S → A → result S) (l : list A) (s : S) : result S :=
  match l with
  | [] => Ok s
  | a :: l' => s' ← f s a; fold_res f l' s'
  end.

(** [for _, x := range l { if err := f(x); err != nil { return err } }], and
    the form with the index of [x]. *)
Definition each {A} (f : A → result unit) (l : list A) : result unit :=
  fold_res (λ _, f) l tt.

Fixpoint each_i {A} (f : nat → A → result unit) (i : nat) (l : list A) : result unit :=
  match l with
  | [] => Ok tt
  | a :: l' => _ ← f i a; each_i f (S i) l'
  end.

(** [s[i]]. *)
Definition index {A} (s : list A) (i : nat) : result A :=
  match s !! i with Some a => Ok a | None => Panic "index out of range" end.

Lemma bind_Ok {A B} (m : result A) (f : A → result B) b :
  m ≫= f = Ok b ↔ ∃ a, m = Ok a ∧ f a = Ok b.
Proof.
  split.
  - destruct m; cbn; try discriminate. eauto.
  - intros (a & -> & H). exact H.
Qed.

Lemma ensure_Ok b e u : ensure b e = Ok u ↔ b = true.
Proof. unfold ensure. destruct b, u; split; congruence. Qed.

Lemma of_option_Ok {A} e (o : option A) a : of_option e o = Ok a ↔ o = Some a.
Proof. destruct o; cbn; split; congruence. Qed.

Lemma Ok_inj {A} (a b : A) : Ok a = Ok b → a = b.
Proof. by intros [=]. Qed.

Lemma index_Ok {A} (s : list A) i a : index s i = Ok a ↔ s !! i = Some a.
Proof. unfold index. destruct (s !! i); split; congruence. Qed.

Lemma each_Ok {A} (f : A → result unit) l : each f l = Ok tt ↔ Forall (λ a, f a = Ok tt) l.
Proof.
  unfold each. induction l as [|a l IH]; cbn; [split; [constructor|done]|].
  rewrite bind_Ok, Forall_cons, <- IH. split.
  - intros ([] & Ha & Hl). auto.
  - intros [Ha Hl]. eauto.
Qed.

Lemma each_i_Ok {A} (f : nat → A → result unit) i l :
  each_i f i l = Ok tt ↔ ∀ j a, l !! j = Some a → f (i + j)%nat a = Ok tt.
Proof.
  revert i. induction l as [|a l IH]; intros i; cbn; [split; [by intros _ [|]|done]|].
  rewrite bind_Ok. setoid_rewrite IH. split.
  - intros ([] & Ha & Hl) [|j] b; cbn; [intros [= <-]; by rewrite Nat.add_0_r|].
    intros Hb. rewrite Nat.add_succ_r. by apply (Hl j).
  - intros Hl. exists tt. split; [rewrite <- (Nat.add_0_r i); by apply Hl|].
    intros j b Hb. rewrite Nat.add_succ_comm. by apply Hl.
Qed.

(** Decompose a successful computation into its successful steps. *)
Ltac inv_ok_step :=
  match goal with
  | H : mbind _ _ = Ok _ |- _ =>
      let x := fresh "r" in let Hx := fresh "Hr" in
      apply bind_Ok in H as (x & Hx & H)
  | H : ensure _ _ = Ok _ |- _ => apply ensure_Ok in H
  | H : of_option _ _ = Ok _ |- _ => apply of_option_Ok in H
  | H : index _ _ = Ok _ |- _ => apply index_Ok in H
  | H : Ok _ = Ok _ |- _ => apply Ok_inj in H
  | H : mret _ = Ok _ |- _ => apply Ok_inj in H
  | H : Err _ = Ok _ |- _ => discriminate H
  | H : Panic _ = Ok _ |- _ => discriminate H
  end.

Ltac inv_ok := repeat inv_ok_step.

(** Case analysis on the boolean or match that blocks a successful run. *)
Ltac inv_case :=
  match goal with
  | H : (if ?b then _ else _) = Ok _ |- _ => destruct b eqn:?
  | H : match ?x with _ => _ end = Ok _ |- _ => destruct x eqn:?
  end; inv_ok.

(** ** Absence of panics *)

Definition no_panic {A} (r : result A) : Prop := ∀ p, r ≠ Panic p.

Lemma no_panic_Ok {A} (a : A) : no_panic (Ok a).
Proof. done. Qed.

Lemma no_panic_Err {A} e : no_panic (@Err A e).
Proof. done. Qed.

Lemma no_panic_bind {A B} (m : result A) (f : A → result B) :
  no_panic m → (∀ a, m = Ok a → no_panic (f a)) → no_panic (m ≫= f).
Proof. intros Hm Hf. destruct m as [a|e|p]; cbn; [by apply Hf|done|by destruct (Hm p)]. Qed.

Lemma no_panic_ensure b e : no_panic (ensure b e).
Proof. unfold ensure. by destruct b. Qed.

Lemma no_panic_of_option {A} e (o : option A) : no_panic (of_option e o).
Proof. by destruct o. Qed.

Lemma no_panic_fold_res {A S} (f : S → A → result S) l s :
  (∀ s a, a ∈ l → no_panic (f s a)) → no_panic (fold_res f l s).
Proof.
  revert s. induction l as [|a l IH]; intros s Hf; cbn; [done|].
  apply no_panic_bind; [apply Hf; by left|]. intros s' _. apply IH. intros s'' b Hb. apply Hf. by right.
Qed.

Lemma no_panic_each {A} (f : A → result unit) l :
  (∀ a, a ∈ l → no_panic (f a)) → no_panic (each f l).
Proof. intros Hf. apply no_panic_fold_res. auto. Qed.

Lemma no_panic_each_i {A} (f : nat → A → result unit) i l :
  (∀ j a, l !! j = Some a → no_panic (f (i + j)%nat a)) → no_panic (each_i f i l).
Proof.
  revert i. induction l as [|a l IH]; intros i Hf; cbn; [done|].
  apply no_panic_bind; [rewrite <- (Nat.add_0_r i); by apply Hf|]. intros _ _.
  apply IH. intros j b Hb. rewrite Nat.add_succ_comm. by apply Hf.
Qed.

Lemma no_panic_index {A} (s : list A) i : (i < length s)%nat → no_panic (index s i).
Proof. intros Hi. unfold index. by destruct (lookup_lt_is_Some_2 s i Hi) as [a ->]. Qed.

(** Decompose a computation into steps that do not panic. *)
Create HintDb panics.
#[export] Hint Resolve no_panic_Ok no_panic_Err no_panic_bind no_panic_ensure no_panic_of_option : panics.

Ltac no_panic :=
  repeat first
    [ apply no_panic_Ok | apply no_panic_Err | apply no_panic_ensure | apply no_panic_of_option
    | apply no_panic_bind; [|intros ? ?] ];
  auto with panics.

(** ** Machine integers *)

Definition two64 : Z := 2 ^ 64.
Definition two63 : Z := 2 ^ 63.
Definition two32 : Z := 2 ^ 32.

(** Unsigned 64-bit and 32-bit wrap-around, and conversion to int64. *)
Definition wrap_u64 (z : Z) : Z := z mod two64.
Definition wrap_u32 (z : Z) : Z := z mod two32.
Definition wrap_i64 (z : Z) : Z := (z + two63) mod two64 - two63.

Definition u64 (z : Z) : Prop := 0 <= z < two64.
Definition u32 (z : Z) : Prop := 0 <= z < two32.
Definition i64 (z : Z) : Prop := - two63 <= z < two63.

(** A value lies in the range of its machine type. *)
Ltac fits := unfold i64, u64, u32, two63, two64, two32 in *; lia.

Lemma wrap_u64_id z : u64 z → wrap_u64 z = z.
Proof. unfold u64, wrap_u64. intros. by apply Z.mod_small. Qed.

Lemma wrap_i64_id z : i64 z → wrap_i64 z = z.
Proof.
  unfold i64, wrap_i64, two63, two64. intros H.
  rewrite Z.mod_small by lia. lia.
Qed.

Lemma wrap_u64_range z : u64 (wrap_u64 z).
Proof. unfold u64, wrap_u64. by apply Z.mod_pos_bound. Qed.

Lemma wrap_i64_range z : i64 (wrap_i64 z).
Proof.
  unfold i64, wrap_i64, two63, two64.
  pose proof (Z.mod_pos_bound (z + 2 ^ 63) (2 ^ 64)). lia.
Qed.

(** ** Big-endian encodings *)

(** The [n] big-endian bytes of [z] ([binary.BigEndian.AppendUint32/64]). *)
Fixpoint be_bytes (n : nat) (z : Z) : bytes :=
  match n with
  | O => []
  | S n' => be_bytes n' (z / 256) ++ [z mod 256]
  end.

(** [binary.BigEndian.Uint32/64] on a slice of any length. *)
Definition be_decode (bs : bytes) : Z := fold_left (λ acc b, acc * 256 + b) bs 0.

Lemma length_be_bytes n z : length (be_bytes n z) = n.
Proof.
  revert z; induction n as [|n IH]; intros z; [done|].
  cbn [be_bytes]. rewrite length_app, IH. cbn [length]. lia.
Qed.

Lemma be_decode_bytes n z :
  0 <= z < 256 ^ Z.of_nat n → be_decode (be_bytes n z) = z.
Proof.
  unfold be_decode.
  revert z; induction n as [|n IH]; intros z Hz.
  - cbn. change (256 ^ Z.of_nat 0) with 1 in Hz. lia.
  - cbn [be_bytes]. rewrite fold_left_app, IH; cbn [fold_left].
    + pose proof (Z.div_mod z 256). lia.
    + rewrite Nat2Z.inj_succ, Z.pow_succ_r in Hz by lia.
      split; [apply Z.div_pos; lia | apply Z.div_lt_upper_bound; lia].
Qed.

Lemma be_bytes_inj n z1 z2 :
  0 <= z1 < 256 ^ Z.of_nat n → 0 <= z2 < 256 ^ Z.of_nat n →
  be_bytes n z1 = be_bytes n z2 → z1 = z2.
Proof.
  intros H1 H2 Heq.
  rewrite <- (be_decode_bytes n z1), <- (be_decode_bytes n z2) by done.
  by rewrite Heq.
Qed.

Lemma be_bytes_inj_u32 z1 z2 : u32 z1 → u32 z2 → be_bytes 4 z1 = be_bytes 4 z2 → z1 = z2.
Proof. unfold u32, two32. intros H1 H2. apply be_bytes_inj; lia. Qed.

Lemma be_bytes_inj_u64 z1 z2 : u64 z1 → u64 z2 → be_bytes 8 z1 = be_bytes 8 z2 → z1 = z2.
Proof. unfold u64, two64. intros H1 H2. apply be_bytes_inj; lia. Qed.

Lemma be_bytes_ok n z : Forall byte_ok (be_bytes n z).
Proof.
  revert z; induction n as [|n IH]; intros z; cbn [be_bytes]; [constructor|].
  apply Forall_app; split; [apply IH|].
  constructor; [|constructor]. apply Z.mod_pos_bound. lia.
Qed.

#[global] Arguments be_bytes : simpl never.

(** Lengths of encodings: [len] computes the length of a concatenation of
    fixed-width fields. *)
Create Rewrite HintDb go_len.
#[export] Hint Rewrite @length_app @length_cons @length_nil length_be_bytes : go_len.
Ltac len := autorewrite with go_len; try done; try lia.

(** Ranges of encoded fields and identities of wrap-around, for [eauto with go]. *)
Create HintDb go.
#[export] Hint Resolve be_bytes_ok wrap_i64_range wrap_u64_range wrap_u64_id wrap_i64_id : go.

(** ** Byte-string order *)

(** [bytes.Compare]: lexicographic comparison, a proper prefix comes first. *)
Fixpoint bytes_cmp (a b : bytes) : comparison :=
  match a, b with
  | [], [] => Eq
  | [], _ :: _ => Lt
  | _ :: _, [] => Gt
  | x :: a', y :: b' =>
      match x ?= y with
      | Eq => bytes_cmp a' b'
      | c => c
      end
  end.

Definition bytes_lt (a b : bytes) : Prop := bytes_cmp a b = Lt.
Definition bytes_le (a b : bytes) : Prop := bytes_cmp a b ≠ Gt.

#[global] Instance bytes_lt_dec : RelDecision bytes_lt.
Proof. unfold bytes_lt. intros a b. solve_decision. Defined.
#[global] Instance bytes_le_dec : RelDecision bytes_le.
Proof. unfold bytes_le. intros a b. solve_decision. Defined.

Lemma bytes_cmp_eq a b : bytes_cmp a b = Eq ↔ a = b.
Proof.
  revert b; induction a as [|x a IH]; intros [|y b]; cbn; try (split; congruence).
  destruct (Z.compare_spec x y) as [->| |]; [rewrite IH| |];
    split; try congruence; intros Hc; injection Hc; lia.
Qed.

Lemma bytes_cmp_antisym a b : bytes_cmp b a = CompOpp (bytes_cmp a b).
Proof.
  revert b; induction a as [|x a IH]; intros [|y b]; cbn; try done.
  rewrite (Z.compare_antisym x y). destruct (x ?= y); cbn; auto.
Qed.

Lemma bytes_lt_trans a b c : bytes_lt a b → bytes_lt b c → bytes_lt a c.
Proof.
  unfold bytes_lt. revert b c; induction a as [|x a IH]; intros [|y b] [|z c]; cbn; try done.
  destruct (Z.compare_spec x y), (Z.compare_spec y z), (Z.compare_spec x z);
    subst; try done; try lia; eauto.
Qed.

Lemma bytes_le_lteq a b : bytes_le a b ↔ bytes_lt a b ∨ a = b.
Proof.
  unfold bytes_le, bytes_lt. rewrite <- bytes_cmp_eq.
  destruct (bytes_cmp a b); intuition congruence.
Qed.

Lemma bytes_lt_irrefl a : ¬ bytes_lt a a.
Proof. unfold bytes_lt. intros H. assert (bytes_cmp a a = Eq) by by apply bytes_cmp_eq. congruence. Qed.

Lemma bytes_lt_asym a b : bytes_lt a b → ¬ bytes_lt b a.
Proof. intros H1 H2. eapply bytes_lt_irrefl, bytes_lt_trans; eauto. Qed.

#[global] Instance bytes_le_trans : Transitive bytes_le.
Proof.
  intros a b c. rewrite !bytes_le_lteq.
  intros [?| ->] [?| ->]; eauto using bytes_lt_trans.
Qed.

#[global] Instance bytes_le_total : Total bytes_le.
Proof.
  intros a b. unfold bytes_le. rewrite (bytes_cmp_antisym a b).
  destruct (bytes_cmp a b); cbn; auto; by left.
Qed.

Lemma bytes_le_not_lt a b : bytes_le a b ↔ ¬ bytes_lt b a.
Proof.
  unfold bytes_le, bytes_lt. rewrite (bytes_cmp_antisym a b).
  destruct (bytes_cmp a b); cbn; naive_solver.
Qed.

(** Comparing after a common prefix, and at a difference of equal-length heads. *)
Lemma bytes_cmp_app p a b : bytes_cmp (p ++ a) (p ++ b) = bytes_cmp a b.
Proof. induction p as [|x p IH]; cbn; [done|]. by rewrite Z.compare_refl. Qed.

Lemma bytes_lt_head a b a' b' :
  length a = length b → bytes_lt a b → bytes_lt (a ++ a') (b ++ b').
Proof.
  unfold bytes_lt. revert b; induction a as [|x a IH]; intros [|y b]; cbn; try done.
  intros [= Hlen]. destruct (Z.compare_spec x y); eauto.
Qed.

Lemma bytes_lt_prefix_r p k : p `prefix_of` k → ¬ bytes_lt k p.
Proof.
  intros [s ->]. unfold bytes_lt.
  rewrite <- (app_nil_r p) at 2. rewrite bytes_cmp_app. by destruct s.
Qed.

(** ** Ordered key-value stores

    A [KVStore] holds byte keys; an iterator visits a range of them in
    ascending byte order, over the contents the store had when the iterator
    was created. *)

Section Iterators.
Context {A : Type}.
Implicit Types (m : gmap bytes A) (kv : bytes * A).

Definition entry_le (x y : bytes * A) : Prop := bytes_le x.1 y.1.

#[global] Instance entry_le_dec : RelDecision entry_le.
Proof. unfold entry_le. intros x y. apply _. Defined.
#[global] Instance entry_le_trans : Transitive entry_le.
Proof. unfold entry_le. intros x y z. by etrans. Qed.
#[global] Instance entry_le_total : Total entry_le.
Proof. unfold entry_le. intros x y. apply bytes_le_total. Qed.

(** All entries of a store in iteration order. *)
Definition sorted_entries m : list (bytes * A) := merge_sort entry_le (map_to_list m).

(** [storetypes.KVStorePrefixIterator(store, p)]. *)
Definition prefix_iter (p : bytes) m : list (bytes * A) :=
  filter (λ kv, p `prefix_of` kv.1) (sorted_entries m).

(** [store.Iterator(start, storetypes.PrefixEndBytes(p))]: the keys from
    [start] up to the last key that has the prefix [p]. *)
Definition range_iter (start p : bytes) m : list (bytes * A) :=
  filter (λ kv, bytes_le start kv.1 ∧ (bytes_lt kv.1 p ∨ p `prefix_of` kv.1)) (sorted_entries m).

Lemma elem_of_sorted_entries m k a : (k, a) ∈ sorted_entries m ↔ m !! k = Some a.
Proof.
  unfold sorted_entries. rewrite (merge_sort_Permutation entry_le).
  apply elem_of_map_to_list.
Qed.

Lemma NoDup_fst_sorted_entries m : NoDup (sorted_entries m).*1.
Proof.
  unfold sorted_entries. rewrite (merge_sort_Permutation entry_le).
  apply NoDup_fst_map_to_list.
Qed.

Lemma Sorted_entries m : StronglySorted entry_le (sorted_entries m).
Proof. apply StronglySorted_merge_sort; apply _. Qed.

Lemma elem_of_prefix_iter p m k a :
  (k, a) ∈ prefix_iter p m ↔ m !! k = Some a ∧ p `prefix_of` k.
Proof.
  unfold prefix_iter. rewrite list_elem_of_filter, elem_of_sorted_entries. cbn. tauto.
Qed.

Lemma elem_of_range_iter start p m k a :
  (k, a) ∈ range_iter start p m ↔
  m !! k = Some a ∧ bytes_le start k ∧ (bytes_lt k p ∨ p `prefix_of` k).
Proof.
  unfold range_iter. rewrite list_elem_of_filter, elem_of_sorted_entries. cbn. tauto.
Qed.

Lemma NoDup_fst_filter (P : bytes * A → Prop) `{!∀ x, Decision (P x)} (l : list (bytes * A)) :
  NoDup l.*1 → NoDup (filter P l).*1.
Proof.
  induction l as [|[k a] l IH]; cbn; [done|].
  rewrite NoDup_cons. intros [Hk Hl].
  case_decide; cbn; [|by apply IH].
  rewrite NoDup_cons. split; [|by apply IH].
  intros Hin. apply Hk. apply list_elem_of_fmap in Hin as ([k' a'] & -> & Hin).
  apply list_elem_of_filter in Hin as [_ Hin]. apply list_elem_of_fmap. by eexists (_, _).
Qed.

Lemma NoDup_fst_prefix_iter p m : NoDup (prefix_iter p m).*1.
Proof. apply NoDup_fst_filter, NoDup_fst_sorted_entries. Qed.

Lemma NoDup_fst_range_iter s p m : NoDup (range_iter s p m).*1.
Proof. apply NoDup_fst_filter, NoDup_fst_sorted_entries. Qed.

Lemma StronglySorted_filter_list {B} (R : relation B) (P : B → Prop) `{!∀ x, Decision (P x)} l :
  StronglySorted R l → StronglySorted R (filter P l).
Proof.
  induction 1 as [|x l Hl IH HF]; cbn; [constructor|].
  case_decide; [|done]. constructor; [done|].
  apply Forall_forall. intros y Hy.
  apply list_elem_of_filter in Hy as [_ Hy].
  by eapply Forall_forall in HF.
Qed.

Lemma Sorted_prefix_iter p m : StronglySorted entry_le (prefix_iter p m).
Proof. apply StronglySorted_filter_list, Sorted_entries. Qed.

Lemma NoDup_of_fst (l : list (bytes * A)) : NoDup l.*1 → NoDup l.
Proof. apply NoDup_fmap_1. Qed.

(** A prefix scan is the only sorted list of the matching entries. *)
Lemma prefix_iter_unique p m l :
  StronglySorted entry_le l → NoDup l.*1 →
  (∀ k a, (k, a) ∈ l ↔ m !! k = Some a ∧ p `prefix_of` k) →
  l = prefix_iter p m.
Proof.
  intros Hs Hn Hl.
  apply (StronglySorted_unique_strong entry_le); [|done|apply Sorted_prefix_iter|].
  - intros [k1 a1] [k2 a2] H1 H2 Hle1 Hle2. unfold entry_le in *; cbn in *.
    assert (k1 = k2) as ->.
    { apply bytes_le_lteq in Hle1 as [Hlt|]; [|done].
      apply bytes_le_not_lt in Hle2. contradiction. }
    apply Hl in H1 as [H1 _]. apply elem_of_prefix_iter in H2 as [H2 _]. congruence.
  - apply NoDup_Permutation; [by apply NoDup_of_fst|apply NoDup_of_fst, NoDup_fst_prefix_iter|].
    intros [k a]. by rewrite Hl, elem_of_prefix_iter.
Qed.

(** Sortedness of entries is sortedness of their keys, and passes to suffixes. *)
Lemma Sorted_entries_keys (l : list (bytes * A)) :
  StronglySorted entry_le l ↔ StronglySorted bytes_le l.*1.
Proof.
  induction l as [|x l IH]; cbn; [split; constructor|].
  split; intros Hs; apply StronglySorted_inv in Hs as [Hs HF]; constructor; try by apply IH.
  - apply Forall_fmap. exact HF.
  - rewrite Forall_fmap in HF. exact HF.
Qed.

Lemma StronglySorted_suffix {B} (R : relation B) (l1 l2 : list B) :
  l1 `suffix_of` l2 → StronglySorted R l2 → StronglySorted R l1.
Proof.
  intros [l0 ->]. induction l0 as [|x l0 IH]; cbn; [done|].
  intros Hs. apply StronglySorted_inv in Hs as [Hs _]. auto.
Qed.
End Iterators.

(** ** Sums over finite maps *)

Section Msum.
Context {K : Type} `{Countable K} {V : Type}.
Implicit Types (m : gmap K V) (f : V → Z).

(** The total of [f] over the values of a map. *)
Definition msum f m : Z := map_fold (λ _ v acc, f v + acc) 0 m.

Lemma msum_empty f : msum f ∅ = 0.
Proof. apply map_fold_empty. Qed.

Lemma msum_insert f m k v : m !! k = None → msum f (<[k:=v]> m) = f v + msum f m.
Proof. intros Hk. unfold msum. rewrite map_fold_insert_L; [done| |done]. intros; lia. Qed.

Lemma msum_delete f m k v : m !! k = Some v → msum f (delete k m) = msum f m - f v.
Proof.
  intros Hk. rewrite <- (insert_delete_id m k v) at 2 by done.
  rewrite msum_insert by apply lookup_delete_eq. lia.
Qed.

Lemma msum_update f m k v v' :
  m !! k = Some v → msum f (<[k:=v']> m) = msum f m - f v + f v'.
Proof.
  intros Hk. rewrite <- (insert_delete_eq m).
  rewrite msum_insert by apply lookup_delete_eq. rewrite (msum_delete f m k v Hk). lia.
Qed.

(** Overwriting or adding, in one equation. *)
Lemma msum_insert_default f m k v :
  msum f (<[k:=v]> m) = msum f m - default 0 (f <$> m !! k) + f v.
Proof.
  destruct (m !! k) as [w|] eqn:E; cbn.
  - by apply msum_update.
  - rewrite msum_insert by done. lia.
Qed.

Lemma msum_ext f g m : (∀ k v, m !! k = Some v → f v = g v) → msum f m = msum g m.
Proof.
  induction m as [|k v m Hk IH] using map_ind; intros Hfg; [by rewrite !msum_empty|].
  rewrite !msum_insert by done. rewrite (Hfg k v) by apply lookup_insert_eq.
  rewrite IH; [done|]. intros k' v' Hk'. apply (Hfg k'). rewrite lookup_insert_ne; congruence.
Qed.

Lemma msum_nonneg f m : (∀ k v, m !! k = Some v → 0 <= f v) → 0 <= msum f m.
Proof.
  induction m as [|k v m Hk IH] using map_ind; intros Hf; [by rewrite msum_empty|].
  rewrite msum_insert by done.
  pose proof (Hf k v (lookup_insert_eq _ _ _)).
  assert (0 <= msum f m); [|lia].
  apply IH. intros k' v' Hk'. apply (Hf k'). rewrite lookup_insert_ne; congruence.
Qed.

Lemma msum_elem_le f m k v :
  (∀ k v, m !! k = Some v → 0 <= f v) → m !! k = Some v → f v <= msum f m.
Proof.
  intros Hf Hk. rewrite <- (insert_delete_id m k v) by done.
  rewrite msum_insert by apply lookup_delete_eq.
  assert (0 <= msum f (delete k m)); [|lia].
  apply msum_nonneg. intros k' v' Hk'. apply lookup_delete_Some in Hk' as [_ Hk']. eauto.
Qed.
End Msum.

(** Sum of a list of integers. *)
Definition zsum (l : list Z) : Z := foldr Z.add 0 l.

Lemma zsum_cons z l : zsum (z :: l) = z + zsum l.
Proof. done. Qed.

Lemma zsum_app l1 l2 : zsum (l1 ++ l2) = zsum l1 + zsum l2.
Proof. unfold zsum. induction l1; cbn; lia. Qed.

Lemma zsum_nonneg l : Forall (λ z, 0 <= z) l → 0 <= zsum l.
Proof. unfold zsum. induction 1; cbn; lia. Qed.

Lemma zsum_map_insert {A} (f : A → Z) (l : list A) i x y : l !! i = Some x → zsum (map f (<[i := y]> l)) = zsum (map f l) - f x + f y.
Proof.
  intros Hi. rewrite <- (take_drop_middle _ _ _ Hi) at 2. rewrite insert_take_drop by by eapply lookup_lt_Some.
  rewrite !map_app, !zsum_app. cbn [map]. rewrite !zsum_cons. lia.
Qed.

Lemma zsum_map_snoc {A} (f : A → Z) (l : list A) x : zsum (map f (l ++ [x])) = zsum (map f l) + f x.
Proof. rewrite map_app, zsum_app. cbn [map]. rewrite zsum_cons. cbn. lia. Qed.

Lemma zsum_Permutation l1 l2 : l1 ≡ₚ l2 → zsum l1 = zsum l2.
Proof. unfold zsum. induction 1; cbn; lia. Qed.

Lemma msum_sorted_entries {V} (f : V → Z) (m : gmap bytes V) :
  msum f m = zsum (map f (sorted_entries m).*2).
Proof.
  transitivity (zsum (map f (map_to_list m).*2)).
  - unfold msum. rewrite map_fold_foldr. induction (map_to_list m) as [|[k v] l IH]; cbn; [done|].
    by rewrite IH.
  - apply zsum_Permutation, Permutation_map. unfold sorted_entries.
    by rewrite (merge_sort_Permutation entry_le).
Qed.

(** Entries outside a filter contribute nothing when [f] vanishes on them. *)
Lemma zsum_filter {K V} (f g : V → Z) (P : K * V → Prop) `{!∀ x, Decision (P x)} (l : list (K * V)) :
  (∀ x, x ∈ l → P x → g x.2 = f x.2) → (∀ x, x ∈ l → ¬ P x → f x.2 = 0) →
  zsum (map g (filter P l).*2) = zsum (map f l.*2).
Proof.
  induction l as [|x l IH]; intros H1 H2; [done|].
  rewrite filter_cons. case_decide; cbn [fmap list_fmap map].
  - cbn. rewrite <- (H1 x) by (by left || done).
    f_equal. apply IH; intros y Hy; [apply H1|apply H2]; by right.
  - cbn. rewrite (H2 x) by (by left || done).
    apply IH; intros y Hy; [apply H1|apply H2]; by right.
Qed.
