(* ===== verification/Sdk.v ===== *)
(** * Interfaces of the packages the modules are built on

    The Cosmos SDK, CometBFT, go-square and the cryptographic packages are not
    part of this repository: every definition that calls them takes the
    operations below as parameters, and every theorem that depends on how they
    behave takes the laws stated beside them. *)

From S2P Require Import Prelude.
#[local] Open Scope Z_scope.

(** ** The block context ([sdk.Context])

    Times are nanoseconds since Go's zero time (0001-01-01T00:00:00Z), so the
    zero [time.Time] is [0] and [IsZero] is a comparison with [0]. *)

Record Context := mkContext {
  ctx_ChainID : string;
  ctx_BlockTime : Z;
  ctx_BlockHeight : Z;
}.

Definition zero_time : Z := 0.

(** [t.After(u)], [t.Before(u)] and [t.Equal(u)]. *)
Definition time_After (t u : Z) : bool := u <? t.
Definition time_Before (t u : Z) : bool := t <? u.
Definition time_Equal (t u : Z) : bool := t =? u.
Definition time_IsZero (t : Z) : bool := t =? zero_time.

(** Durations in nanoseconds. *)
Definition Nanosecond : Z := 1.
Definition Second : Z := 1000000000.
Definition Minute : Z := 60 * Second.
Definition Hour : Z := 60 * Minute.

(** The instants [sdk.FormatTimeBytes] renders in its fixed-width layout: the
    years 1 to 9999, which are also those a protobuf timestamp can carry. *)
Definition time_limit : Z := 3652059 * 24 * Hour.
Definition time_ok (t : Z) : Prop := 0 <= t < time_limit.

(** [sdk.FormatTimeBytes] and [sdk.ParseTimeBytes]. *)
Class TimeFormat := {
  FormatTimeBytes : Z → bytes;
  ParseTimeBytes : bytes → option Z;
}.

(** The documented layout is sortable and has a fixed width of 29 bytes. *)
Class TimeFormatLaws `{TimeFormat} := {
  FormatTimeBytes_length t : time_ok t → length (FormatTimeBytes t) = 29%nat;
  FormatTimeBytes_parse t : time_ok t → ParseTimeBytes (FormatTimeBytes t) = Some t;
  FormatTimeBytes_mono t u : time_ok t → time_ok u → t < u →
    bytes_lt (FormatTimeBytes t) (FormatTimeBytes u);
}.

Section TimeFormatFacts.
Context `{TF : TimeFormat} `{TFL : !TimeFormatLaws}.

Lemma FormatTimeBytes_inj t u :
  time_ok t → time_ok u → FormatTimeBytes t = FormatTimeBytes u → t = u.
Proof.
  intros Ht Hu Heq. apply FormatTimeBytes_parse in Ht. apply FormatTimeBytes_parse in Hu.
  congruence.
Qed.

Lemma FormatTimeBytes_lt_iff t u : time_ok t → time_ok u →
  bytes_lt (FormatTimeBytes t) (FormatTimeBytes u) ↔ t < u.
Proof.
  intros Ht Hu. split; [|by apply FormatTimeBytes_mono].
  intros Hlt. destruct (Z.lt_trichotomy t u) as [|[->|Hut]]; [done| |].
  - by apply bytes_lt_irrefl in Hlt.
  - exfalso. eapply bytes_lt_asym; [exact Hlt|]. by apply FormatTimeBytes_mono.
Qed.
End TimeFormatFacts.

(** ** Coins ([sdk.Coin]) *)

Record Coin := mkCoin { Denom : string; Amount : Z }.

#[global] Instance Coin_eq_dec : EqDecision Coin.
Proof. solve_decision. Defined.

(** [math.Int] panics outside 256 bits. *)
Definition int_limit : Z := 2 ^ 256.

Class CoinOps := {
  coin_Add : Coin → Coin → result Coin;
  coin_Sub : Coin → Coin → result Coin;
  coin_IsLT : Coin → Coin → result bool;
  coin_IsGTE : Coin → Coin → result bool;
  coin_IsPositive : Coin → bool;
  coin_IsValid : Coin → bool;
}.

(** Arithmetic and comparison panic on different denominations; [Sub] panics
    on a negative result and [Add] on an overflow of 256 bits. *)
Class CoinLaws `{CoinOps} := {
  coin_Add_inv a b c : coin_Add a b = Ok c →
    Denom a = Denom b ∧ c = mkCoin (Denom a) (Amount a + Amount b);
  coin_Add_total a b : Denom a = Denom b → Z.abs (Amount a + Amount b) < int_limit →
    coin_Add a b = Ok (mkCoin (Denom a) (Amount a + Amount b));
  coin_Sub_inv a b c : coin_Sub a b = Ok c →
    Denom a = Denom b ∧ Amount b <= Amount a ∧ c = mkCoin (Denom a) (Amount a - Amount b);
  coin_Sub_total a b : Denom a = Denom b → 0 <= Amount b <= Amount a →
    coin_Sub a b = Ok (mkCoin (Denom a) (Amount a - Amount b));
  coin_IsLT_inv a b r : coin_IsLT a b = Ok r →
    Denom a = Denom b ∧ r = (Amount a <? Amount b);
  coin_IsLT_total a b : Denom a = Denom b → coin_IsLT a b = Ok (Amount a <? Amount b);
  coin_IsGTE_inv a b r : coin_IsGTE a b = Ok r →
    Denom a = Denom b ∧ r = (Amount b <=? Amount a);
  coin_IsGTE_total a b : Denom a = Denom b → coin_IsGTE a b = Ok (Amount b <=? Amount a);
  coin_IsPositive_spec a : coin_IsPositive a = (0 <? Amount a);
  coin_IsValid_nonneg a : coin_IsValid a = true → 0 <= Amount a;
}.

(** ** Accounts and the bank keeper *)

(** Bech32 account strings and the addresses they encode. *)
Class AddressCodec := {
  AccAddressFromBech32 : bytes → option bytes;
  AccAddress_String : bytes → bytes;
}.

(** The bank keeper's transfers, each with [sdk.NewCoins] applied to one coin.
    A transfer that fails leaves the bank's state as it was. *)
Class BankKeeper := {
  bank : Type;
  GetBalance : bank → bytes → string → Z;
  GetModuleAddress : string → bytes;
  SendCoinsFromAccountToModule : bank → bytes → string → Coin → result bank;
  SendCoinsFromModuleToAccount : bank → string → bytes → Coin → result bank;
  SendCoinsFromModuleToModule : bank → string → string → Coin → result bank;
}.

(** [c] moved from one account to another and nothing else changed. *)
Definition transferred `{BankKeeper} (bk : bank) (from to : bytes) (c : Coin) (bk' : bank) : Prop :=
  ∀ a d, GetBalance bk' a d =
    GetBalance bk a d
    + (if bool_decide (a = to ∧ d = Denom c) then Amount c else 0)
    - (if bool_decide (a = from ∧ d = Denom c) then Amount c else 0).

Class BankLaws `{BankKeeper} := {
  send_account_to_module bk a m c bk' :
    SendCoinsFromAccountToModule bk a m c = Ok bk' →
    transferred bk a (GetModuleAddress m) c bk';
  send_module_to_account bk m a c bk' :
    SendCoinsFromModuleToAccount bk m a c = Ok bk' →
    transferred bk (GetModuleAddress m) a c bk';
  send_module_to_module bk m n c bk' :
    SendCoinsFromModuleToModule bk m n c = Ok bk' →
    transferred bk (GetModuleAddress m) (GetModuleAddress n) c bk';
}.

(** ** Cryptography, namespaces and signing

    [NewNamespaceFromBytes] is the check [share.NewNamespaceFromBytes]
    performs; a namespace is represented by its bytes. *)
Class Crypto := {
  sha256 : bytes → bytes;
  (** [secp256k1.PubKey.Address], which panics on a malformed key, and
      [VerifySignature]: key, message, signature. *)
  PubKey_Address : bytes → result bytes;
  VerifySignature : bytes → bytes → bytes → bool;
  (** [ed25519.Verify] of the standard library: key, message, signature. *)
  ed25519_Verify : bytes → bytes → bytes → bool;
  (** [core.RawBytesMessageSignBytes] of CometBFT: chain id, prefix, payload. *)
  RawBytesMessageSignBytes : string → string → bytes → result bytes;
  NewNamespaceFromBytes : bytes → result unit;
  Namespace_ValidateForBlob : bytes → result unit;
}.

(** Sizes of [share.Namespace] and [secp256k1.PubKey]. *)
Definition NamespaceSize : nat := 29.
Definition secp256k1_PubKeySize : nat := 33.

Class CryptoLaws `{Crypto} := {
  NewNamespaceFromBytes_length b : NewNamespaceFromBytes b = Ok tt → length b = NamespaceSize;
  (** The canonical sign bytes determine the payload they wrap. *)
  RawBytesMessageSignBytes_inj c1 c2 p b1 b2 s :
    RawBytesMessageSignBytes c1 p b1 = Ok s → RawBytesMessageSignBytes c2 p b2 = Ok s →
    c1 = c2 ∧ b1 = b2;
}.

(** ** Typed events

    [EmitTypedEvent] of a context's event manager returns the error of
    encoding the event, if any. *)
Class TypedEvents (E : Type) := { TypedEventError : E → option error }.
