(* ===== verification/SdkModel.v ===== *)
(** * A concrete environment

    Simple executable instances of the interfaces of [Sdk], with proofs of
    their laws. They show that the laws are satisfiable and are the
    environment in which the concrete runs of the development are evaluated. *)

From S2P Require Import Prelude Sdk.
From Stdlib Require Import Ascii.
#[local] Open Scope Z_scope.

Module SdkModel.

(** ** Time: 29 big-endian bytes *)

Lemma be_bytes_S n z : be_bytes (S n) z = be_bytes n (z / 256) ++ [z mod 256].
Proof. reflexivity. Qed.

Lemma be_bytes_mono n : ∀ z1 z2, 0 <= z1 < z2 → z2 < 256 ^ Z.of_nat n →
  bytes_lt (be_bytes n z1) (be_bytes n z2).
Proof.
  induction n as [|n IH]; intros z1 z2 Hlt Hmax.
  { change (256 ^ Z.of_nat 0) with 1 in Hmax. lia. }
  rewrite Nat2Z.inj_succ, Z.pow_succ_r in Hmax by lia. rewrite !be_bytes_S.
  pose proof (Z.div_le_mono z1 z2 256 ltac:(lia) ltac:(lia)).
  destruct (decide (z1 / 256 = z2 / 256)) as [Heq|Hne].
  - rewrite Heq. unfold bytes_lt. rewrite bytes_cmp_app. cbn.
    pose proof (Z.div_mod z1 256 ltac:(lia)). pose proof (Z.div_mod z2 256 ltac:(lia)).
    destruct (Z.compare_spec (z1 mod 256) (z2 mod 256)); [lia|done|lia].
  - apply bytes_lt_head; [by rewrite !length_be_bytes|]. apply IH.
    + split; [apply Z.div_pos; lia|lia].
    + apply Z.div_lt_upper_bound; lia.
Qed.

Lemma time_ok_be t : time_ok t → 0 <= t < 256 ^ Z.of_nat 29.
Proof.
  unfold time_ok, time_limit, Hour, Minute, Second. intros.
  change (Z.of_nat 29) with 29. assert (2 ^ 64 < 256 ^ 29) by reflexivity.
  assert (3652059 * 24 * (60 * (60 * 1000000000)) < 2 ^ 70) by reflexivity.
  assert (2 ^ 70 < 256 ^ 29) by reflexivity. lia.
Qed.

#[export] Instance time_format : TimeFormat := {
  FormatTimeBytes t := be_bytes 29 t;
  ParseTimeBytes b := if (length b =? 29)%nat then Some (be_decode b) else None;
}.

#[export] Instance time_format_laws : TimeFormatLaws.
Proof.
  constructor; cbn [FormatTimeBytes ParseTimeBytes time_format].
  - intros t _. apply length_be_bytes.
  - intros t Ht. rewrite length_be_bytes. cbn. by rewrite be_decode_bytes by by apply time_ok_be.
  - intros t u [Ht _] Hu Hlt. apply be_bytes_mono; [lia|]. by apply time_ok_be.
Qed.

(** ** Coins *)

#[export] Instance coin_ops : CoinOps := {
  coin_Add a b :=
    if String.eqb (Denom a) (Denom b)
    then if Z.abs (Amount a + Amount b) <? int_limit
         then Ok (mkCoin (Denom a) (Amount a + Amount b)) else Panic "overflow"
    else Panic "invalid coin denominations";
  coin_Sub a b :=
    if String.eqb (Denom a) (Denom b)
    then if Amount b <=? Amount a
         then Ok (mkCoin (Denom a) (Amount a - Amount b)) else Panic "negative coin amount"
    else Panic "invalid coin denominations";
  coin_IsLT a b :=
    if String.eqb (Denom a) (Denom b) then Ok (Amount a <? Amount b)
    else Panic "invalid coin denominations";
  coin_IsGTE a b :=
    if String.eqb (Denom a) (Denom b) then Ok (Amount b <=? Amount a)
    else Panic "invalid coin denominations";
  coin_IsPositive a := 0 <? Amount a;
  coin_IsValid a := negb (String.eqb (Denom a) "") && (0 <=? Amount a);
}.

#[export] Instance coin_laws : CoinLaws.
Proof.
  constructor; cbn.
  - intros a b c. destruct (String.eqb_spec (Denom a) (Denom b)); [|done].
    case_match; [|done]. by intros [=].
  - intros a b Hd Hl. by rewrite (proj2 (String.eqb_eq _ _) Hd), (proj2 (Z.ltb_lt _ _) Hl).
  - intros a b c. destruct (String.eqb_spec (Denom a) (Denom b)); [|done].
    destruct (Z.leb_spec (Amount b) (Amount a)); [|done]. by intros [=].
  - intros a b Hd Hl. by rewrite (proj2 (String.eqb_eq _ _) Hd), (proj2 (Z.leb_le _ _)) by lia.
  - intros a b r. destruct (String.eqb_spec (Denom a) (Denom b)); [|done]. by intros [=].
  - intros a b Hd. by rewrite (proj2 (String.eqb_eq _ _) Hd).
  - intros a b r. destruct (String.eqb_spec (Denom a) (Denom b)); [|done]. by intros [=].
  - intros a b Hd. by rewrite (proj2 (String.eqb_eq _ _) Hd).
  - done.
  - intros a [_ Ha]%andb_prop. by apply Z.leb_le.
Qed.

(** ** Accounts and bank *)

Fixpoint string_bytes (s : string) : bytes :=
  match s with
  | EmptyString => []
  | String.String c s' => Z.of_nat (nat_of_ascii c) :: string_bytes s'
  end.

Lemma string_bytes_inj s1 s2 : string_bytes s1 = string_bytes s2 → s1 = s2.
Proof.
  revert s2. induction s1 as [|c1 s1 IH]; intros [|c2 s2]; cbn; try done.
  intros [= Hc Hs]. f_equal; [|by apply IH].
  apply Nat2Z.inj in Hc. rewrite <- (ascii_nat_embedding c1), <- (ascii_nat_embedding c2). congruence.
Qed.

(** Account strings are the addresses themselves; the empty string is no account. *)
#[export] Instance address_codec : AddressCodec := {
  AccAddressFromBech32 s := match s with [] => None | _ => Some s end;
  AccAddress_String a := a;
}.

Abbreviation ledger := (gmap (bytes * string) Z) (only parsing).

Definition get_balance (bk : ledger) (a : bytes) (d : string) : Z := default 0 (bk !! (a, d)).

Definition move (bk : ledger) (from to : bytes) (c : Coin) : result ledger :=
  if (0 <=? Amount c) && (Amount c <=? get_balance bk from (Denom c)) then
    let bk1 := <[(from, Denom c) := get_balance bk from (Denom c) - Amount c]> bk in
    Ok (<[(to, Denom c) := get_balance bk1 to (Denom c) + Amount c]> bk1)
  else Err "insufficient funds".

#[export] Instance bank_keeper : BankKeeper := {
  bank := ledger;
  GetBalance := get_balance;
  GetModuleAddress := string_bytes;
  SendCoinsFromAccountToModule bk a m c := move bk a (string_bytes m) c;
  SendCoinsFromModuleToAccount bk m a c := move bk (string_bytes m) a c;
  SendCoinsFromModuleToModule bk m n c := move bk (string_bytes m) (string_bytes n) c;
}.

Lemma get_balance_insert bk a d z b e :
  get_balance (<[(a, d) := z]> bk) b e = if bool_decide (b = a ∧ e = d) then z else get_balance bk b e.
Proof.
  unfold get_balance. case_bool_decide as H.
  - destruct H as [-> ->]. by rewrite lookup_insert_eq.
  - rewrite lookup_insert_ne; [done|]. intros [= -> ->]. tauto.
Qed.

Lemma move_transferred bk from to c bk' : move bk from to c = Ok bk' → transferred bk from to c bk'.
Proof.
  unfold move. case_match; [|done]. intros Hbk%Ok_inj. subst bk'. intros a d. cbn [GetBalance bank_keeper].
  rewrite !get_balance_insert. repeat case_bool_decide; destruct_and?; subst; try tauto; try lia.
Qed.

#[export] Instance bank_laws : BankLaws.
Proof. constructor; intros *; apply move_transferred. Qed.

(** ** Cryptography

    The hash is the identity (injective, as collision resistance makes a hash
    behave) and every signature that starts with the key's first byte verifies. *)

Definition frame (s : string) (b : bytes) : bytes := Z.of_nat (length (string_bytes s)) :: string_bytes s ++ b.

Lemma frame_inj s1 b1 s2 b2 : frame s1 b1 = frame s2 b2 → s1 = s2 ∧ b1 = b2.
Proof.
  intros [= Hl H]. apply app_inj_1 in H as [Hs ->]; [|lia]. by apply string_bytes_inj in Hs.
Qed.

#[export] Instance crypto : Crypto := {
  sha256 b := b;
  PubKey_Address k := Ok k;
  VerifySignature k m s := bool_decide (head s = head k);
  ed25519_Verify k m s := bool_decide (head s = head k);
  RawBytesMessageSignBytes c p b := Ok (frame c b);
  NewNamespaceFromBytes b := ensure (length b =? 29)%nat "invalid namespace";
  Namespace_ValidateForBlob b := Ok tt;
}.

#[export] Instance crypto_laws : CryptoLaws.
Proof.
  constructor; cbn.
  - intros b H%ensure_Ok. by apply Nat.eqb_eq.
  - intros c1 c2 p b1 b2 s H1%Ok_inj H2%Ok_inj. apply frame_inj. etrans; [exact H1|symmetry; exact H2].
Qed.

#[export] Instance typed_events E : TypedEvents E := { TypedEventError _ := None }.
End SdkModel.
