(* ===== verification/LegacyDec.v ===== *)
(** * Fixed-point decimals ([math.LegacyDec])

    A decimal with 18 fractional digits, represented by the integer number of
    its smallest units. The arithmetic is that of the SDK's math package and is
    a parameter; the laws are its documented rounding. *)

From S2P Require Import Prelude Sdk.
#[local] Open Scope Z_scope.

Definition dec := Z.

(** 10^18 units make one. *)
Definition precision : Z := 1000000000000000000.

Class DecOps := {
  dec_Quo : dec → dec → result dec;
  dec_Mul : dec → dec → dec;
  dec_Power : dec → Z → dec;
  dec_Ceil : dec → dec;
  dec_TruncateInt : dec → Z;
}.

(** [LegacyNewDec], [LegacyNewDecWithPrec], [MulInt] and the comparisons are
    exact. *)
Definition dec_NewDec (n : Z) : dec := n * precision.
Definition dec_NewDecWithPrec (n prec : Z) : dec := n * 10 ^ (18 - prec).
Definition dec_MulInt (d : dec) (n : Z) : dec := d * n.
Definition dec_OneDec : dec := precision.
Definition dec_Sub (a b : dec) : dec := a - b.

(** Quotients and products are rounded to the nearest unit; a ceiling is the
    next whole number and truncation drops the fraction. *)
Class DecLaws `{DecOps} := {
  dec_Quo_round a b : 0 <= a → 0 < b → ∃ q, dec_Quo a b = Ok q ∧ 0 <= q ∧ 2 * Z.abs (q * b - a * precision) <= b;
  dec_Mul_round a b : 0 <= a → 0 <= b →
    0 <= dec_Mul a b ∧ 2 * Z.abs (dec_Mul a b * precision - a * b) <= precision;
  dec_Power_zero a : dec_Power a 0 = dec_OneDec;
  dec_Power_unit a n : 0 <= a <= dec_OneDec → 0 <= n → 0 <= dec_Power a n <= dec_OneDec;
  dec_Ceil_spec a : ∃ n, dec_Ceil a = n * precision ∧ (n - 1) * precision < a <= n * precision;
  dec_TruncateInt_spec a : 0 <= a → dec_TruncateInt a = a / precision;
}.

(** A concrete arithmetic: round half up, powers by repeated multiplication. *)
Module DecModel.
#[export] Instance dec_ops : DecOps := {
  dec_Quo a b := if b =? 0 then Panic "division by zero" else Ok ((2 * a * precision + b) / (2 * b));
  dec_Mul a b := (2 * a * b + precision) / (2 * precision);
  dec_Power a n := Nat.iter (Z.to_nat n) (λ d, (2 * d * a + precision) / (2 * precision)) dec_OneDec;
  dec_Ceil a := - ((- a) / precision) * precision;
  dec_TruncateInt a := Z.quot a precision;
}.

Lemma round_half a b : 0 <= a → 0 < b →
  0 <= (2 * a + b) / (2 * b) ∧ 2 * Z.abs ((2 * a + b) / (2 * b) * b - a) <= b.
Proof.
  intros Ha Hb. pose proof (Z.div_mod (2 * a + b) (2 * b) ltac:(lia)) as H.
  pose proof (Z.mod_pos_bound (2 * a + b) (2 * b) ltac:(lia)).
  split; [apply Z.div_pos; lia|]. set (q := (2 * a + b) / (2 * b)) in *. lia.
Qed.

#[export] Instance dec_laws : DecLaws.
Proof.
  constructor; cbn [dec_Quo dec_Mul dec_Power dec_Ceil dec_TruncateInt dec_ops].
  - intros a b Ha Hb. destruct (Z.eqb_spec b 0); [lia|]. eexists. split; [reflexivity|].
    replace (2 * a * precision) with (2 * (a * precision)) by lia. apply round_half; [|done].
    unfold precision. lia.
  - intros a b Ha Hb. replace (2 * a * b) with (2 * (a * b)) by lia. apply round_half; [nia|done].
  - done.
  - intros a n Ha Hn. induction (Z.to_nat n) as [|k IH]; [cbn; unfold dec_OneDec, precision; lia|]. 
    unfold Nat.iter in *. cbn [nat_rect].
    set (d := nat_rect _ _ _ k) in *. unfold dec_OneDec in *.
    replace (2 * d * a) with (2 * (d * a)) by lia. destruct (round_half (d * a) precision) as [H0 _]; [nia|done|].
    split; [done|]. assert (0 < precision) as Hp by done.
    assert ((2 * (d * a) + precision) / (2 * precision) < precision + 1); [|lia].
    apply Z.div_lt_upper_bound; [lia|]. nia.
  - intros a. exists (- ((- a) / precision)). split; [done|].
    assert (0 < precision) as Hp by done.
    pose proof (Z.div_mod (- a) precision ltac:(lia)). pose proof (Z.mod_pos_bound (- a) precision Hp). lia.
  - intros a Ha. apply Z.quot_div_nonneg; [done|]. done.
Qed.
End DecModel.
