(* ===== verification/FibreParams.v ===== *)
(** * x/fibre: parameters and the gas formula

    [x/fibre/types/params.go], [x/fibre/types/gas.go] and the constants of
    [pkg/appconsts/fibre_gas_consts.go]. *)

From S2P Require Import Prelude Sdk.
#[local] Open Scope Z_scope.

(** ** Defaults and bounds *)

Definition DefaultWithdrawalDelay : Z := 24 * Hour.
Definition DefaultPaymentPromiseTimeout : Z := 1 * Hour.
Definition DefaultPaymentPromiseHeightWindow : Z := 1000.
Definition DefaultShardRetention : Z := 4 * Hour.
Definition DefaultFullStakeStorageBudget : Z := Z.shiftl 2 40.

Definition MaxPromiseClockSkew : Z := 10 * Minute.
Definition MinTimeoutSettlementWindow : Z := 10 * Minute.
Definition MaxPaymentPromiseTimeout : Z := 12 * Hour.
Definition MinPaymentPromiseTimeout : Z := 10 * Minute.
Definition MinWithdrawalDelay : Z := MaxPaymentPromiseTimeout + MinTimeoutSettlementWindow.
Definition MaxWithdrawalDelay : Z := 7 * 24 * Hour.
Definition MinShardRetention : Z := 10 * Minute.
Definition MaxShardRetention : Z := 7 * 24 * Hour.

Record Params := mkParams {
  WithdrawalDelay : Z;
  PaymentPromiseTimeout : Z;
  PaymentPromiseHeightWindow : Z;
  ShardRetention : Z;
  FullStakeStorageBudget : Z;
}.

Definition NewParams (withdrawalDelay paymentPromiseTimeout paymentPromiseHeightWindow
                      shardRetention storageBudget : Z) : Params :=
  {| WithdrawalDelay := withdrawalDelay;
     PaymentPromiseTimeout := paymentPromiseTimeout;
     PaymentPromiseHeightWindow := paymentPromiseHeightWindow;
     ShardRetention := shardRetention;
     FullStakeStorageBudget := storageBudget |}.

Definition DefaultParams : Params :=
  NewParams DefaultWithdrawalDelay DefaultPaymentPromiseTimeout
    DefaultPaymentPromiseHeightWindow DefaultShardRetention DefaultFullStakeStorageBudget.

Definition PaymentPromiseRetentionWindow (p : Params) : Z :=
  WithdrawalDelay p + MaxPromiseClockSkew.

(** ** Validation

    The validators are registered with the legacy parameter store and take a
    value of any type. *)

Inductive any :=
| AnyDuration (d : option Z)   (* a [*time.Duration], possibly nil *)
| AnyUint64 (n : Z)
| AnyUint32 (n : Z)
| AnyOther.

Definition validateDuration (lo hi : Z) (what : error) (v : any) : result unit :=
  match v with
  | AnyDuration None => Err (what +:+ " cannot be nil")
  | AnyDuration (Some d) =>
      if d <? lo then Err (what +:+ " too small")
      else if hi <? d then Err (what +:+ " too large")
      else Ok tt
  | _ => Err "invalid parameter type"
  end.

Definition validateWithdrawalDelay : any → result unit :=
  validateDuration MinWithdrawalDelay MaxWithdrawalDelay "withdrawal delay".

Definition validatePaymentPromiseTimeout : any → result unit :=
  validateDuration MinPaymentPromiseTimeout MaxPaymentPromiseTimeout "payment promise timeout".

Definition validatePaymentPromiseHeightWindow (v : any) : result unit :=
  match v with
  | AnyUint64 n => if n =? 0 then Err "payment promise height window cannot be 0" else Ok tt
  | _ => Err "invalid parameter type"
  end.

Definition validateShardRetention : any → result unit :=
  validateDuration MinShardRetention MaxShardRetention "shard retention".

Definition validateFullStakeStorageBudget (v : any) : result unit :=
  match v with
  | AnyUint64 n => if n =? 0 then Err "full stake storage budget must be positive" else Ok tt
  | _ => Err "invalid parameter type"
  end.

Definition Params_Validate (p : Params) : result unit :=
  _ ← validateWithdrawalDelay (AnyDuration (Some (WithdrawalDelay p)));
  _ ← validatePaymentPromiseTimeout (AnyDuration (Some (PaymentPromiseTimeout p)));
  _ ← validatePaymentPromiseHeightWindow (AnyUint64 (PaymentPromiseHeightWindow p));
  _ ← validateShardRetention (AnyDuration (Some (ShardRetention p)));
  _ ← validateFullStakeStorageBudget (AnyUint64 (FullStakeStorageBudget p));
  Ok tt.

(** The key, the value and the validator of each parameter. *)
Definition ParamSetPairs (p : Params) : list (string * any * (any → result unit)) :=
  [ ("WithdrawalDelay", AnyDuration (Some (WithdrawalDelay p)), validateWithdrawalDelay);
    ("PaymentPromiseTimeout", AnyDuration (Some (PaymentPromiseTimeout p)), validatePaymentPromiseTimeout);
    ("PaymentPromiseHeightWindow", AnyUint64 (PaymentPromiseHeightWindow p), validatePaymentPromiseHeightWindow);
    ("ShardRetention", AnyDuration (Some (ShardRetention p)), validateShardRetention);
    ("FullStakeStorageBudget", AnyUint64 (FullStakeStorageBudget p), validateFullStakeStorageBudget) ].

(** ** Gas *)

Definition PFBFibreGasFixedCost : Z := 650000.
Definition PFBFibreGasPerChunk : Z := 45000.
Definition PFBFibreChunkSize : Z := 262144.
Definition PFFibreTxGasFixedCost : Z := 1378.
Definition PFFibreGasPerValidatorSignature : Z := 1000.

(** [appconsts.BondDenom]. *)
Definition BondDenom : string := "utia".

Definition EstimateGasForPayForFibre (blobSize : Z) : Z :=
  if blobSize =? 0 then PFBFibreGasFixedCost
  else
    let chunks := wrap_u64 (wrap_u64 (blobSize + PFBFibreChunkSize) - 1) / PFBFibreChunkSize in
    wrap_u64 (PFBFibreGasFixedCost + wrap_u64 (PFBFibreGasPerChunk * chunks)).

Definition EstimateGasForPayForFibreSignatureVerification (validatorSignatureCount : Z) : Z :=
  wrap_u64 (PFFibreTxGasFixedCost + wrap_u64 (validatorSignatureCount * PFFibreGasPerValidatorSignature)).

Definition PaymentAmount (blobSize : Z) : Coin :=
  mkCoin BondDenom (EstimateGasForPayForFibre blobSize).

(** ** Lemmas *)

Definition params_ok (p : Params) : Prop :=
  MinWithdrawalDelay <= WithdrawalDelay p <= MaxWithdrawalDelay ∧
  MinPaymentPromiseTimeout <= PaymentPromiseTimeout p <= MaxPaymentPromiseTimeout ∧
  PaymentPromiseHeightWindow p ≠ 0 ∧
  MinShardRetention <= ShardRetention p <= MaxShardRetention ∧
  FullStakeStorageBudget p ≠ 0.

Lemma validateDuration_Ok lo hi what d u :
  validateDuration lo hi what (AnyDuration (Some d)) = Ok u ↔ lo <= d <= hi.
Proof.
  destruct u. cbn. destruct (Z.ltb_spec d lo); [split; [discriminate|lia]|].
  destruct (Z.ltb_spec hi d); split; try discriminate; try lia; done.
Qed.

Lemma Params_Validate_Ok p : Params_Validate p = Ok tt ↔ params_ok p.
Proof.
  unfold Params_Validate, params_ok. split.
  - intros H. inv_ok. repeat match goal with
    | Hv : validateWithdrawalDelay _ = _ |- _ => apply validateDuration_Ok in Hv
    | Hv : validatePaymentPromiseTimeout _ = _ |- _ => apply validateDuration_Ok in Hv
    | Hv : validateShardRetention _ = _ |- _ => apply validateDuration_Ok in Hv
    | Hv : validatePaymentPromiseHeightWindow _ = _ |- _ => cbn in Hv
    | Hv : validateFullStakeStorageBudget _ = _ |- _ => cbn in Hv
    end. repeat inv_case. lia.
  - intros (H1 & H2 & H3 & H4 & H5).
    rewrite <- (validateDuration_Ok _ _ "withdrawal delay" _ tt) in H1.
    rewrite <- (validateDuration_Ok _ _ "payment promise timeout" _ tt) in H2.
    rewrite <- (validateDuration_Ok _ _ "shard retention" _ tt) in H4.
    unfold validateWithdrawalDelay, validatePaymentPromiseTimeout, validateShardRetention.
    rewrite H1. cbn [mbind result_bind]. rewrite H2. cbn.
    destruct (Z.eqb_spec (PaymentPromiseHeightWindow p) 0); [done|]. cbn.
    destruct (Z.eqb_spec (FullStakeStorageBudget p) 0); [done|].
    unfold validateDuration in H4. rewrite H4. done.
Qed.

Lemma DefaultParams_ok : params_ok DefaultParams.
Proof. apply Params_Validate_Ok. reflexivity. Qed.

(** Number of 256 KiB chunks, rounded up. *)
Definition chunk_count (blobSize : Z) : Z := (blobSize + PFBFibreChunkSize - 1) / PFBFibreChunkSize.

Lemma chunk_count_bounds n : u32 n → 0 <= chunk_count n <= 16384.
Proof.
  unfold u32, two32, chunk_count, PFBFibreChunkSize. intros Hn. split.
  - apply Z.div_pos; lia.
  - apply Z.lt_succ_r, Z.div_lt_upper_bound; lia.
Qed.

(** On a uint32 blob size no intermediate value of the formula wraps. *)
Lemma EstimateGas_exact n : u32 n →
  EstimateGasForPayForFibre n = PFBFibreGasFixedCost + PFBFibreGasPerChunk * chunk_count n.
Proof.
  intros Hn. pose proof (chunk_count_bounds n Hn) as Hc.
  unfold EstimateGasForPayForFibre. destruct (Z.eqb_spec n 0) as [->|Hz].
  - reflexivity.
  - unfold chunk_count, PFBFibreChunkSize, PFBFibreGasFixedCost, PFBFibreGasPerChunk, u32, two32 in *.
    rewrite (wrap_u64_id (n + _)), (wrap_u64_id (_ - 1)) by fits.
    rewrite (wrap_u64_id (45000 * _)) by fits.
    rewrite wrap_u64_id by fits. done.
Qed.

Lemma PaymentAmount_pos n : u32 n → 0 < Amount (PaymentAmount n).
Proof.
  intros Hn. cbn. rewrite EstimateGas_exact by done.
  pose proof (chunk_count_bounds n Hn). unfold PFBFibreGasFixedCost, PFBFibreGasPerChunk. lia.
Qed.
