(* ===== verification/FibreKeys.v ===== *)
(** * x/fibre: store keys

    [x/fibre/types/keys.go] and the key parsers of [x/fibre/keeper/keeper.go].
    The module's store is one ordered byte map; the key families below have
    distinct first bytes, so the model keeps one map per family, each still
    indexed by the full byte key. *)

From S2P Require Import Prelude Sdk.
#[local] Open Scope Z_scope.

Definition ModuleName : string := "fibre".

(** The bytes of [ParamsKey = "params"]. *)
Definition ParamsKey : bytes := [112; 97; 114; 97; 109; 115].

Definition EscrowAccountKeyPrefix : bytes := [2].
Definition WithdrawalsBySignerKeyPrefix : bytes := [3].
Definition WithdrawalsByAvailableKeyPrefix : bytes := [4].
Definition ProcessedPaymentsByHashKeyPrefix : bytes := [5].
Definition ProcessedPaymentsByTimeKeyPrefix : bytes := [6].
Definition PromiseFreshnessFloorKey : bytes := [7].

(** The separator ["/"]. *)
Definition slash : Z := 47.

Section Keys.
Context `{TF : TimeFormat}.

Definition EscrowAccountKey (signer : bytes) : bytes := EscrowAccountKeyPrefix ++ signer.

Definition WithdrawalsBySignerPrefix (signer : bytes) : bytes :=
  WithdrawalsBySignerKeyPrefix ++ signer.

Definition WithdrawalsBySignerKey (signer : bytes) (requestedTimestamp : Z) : bytes :=
  (WithdrawalsBySignerPrefix signer ++ [slash]) ++ FormatTimeBytes requestedTimestamp.

Definition WithdrawalsByAvailableKey (availableAt requestedAt : Z) (signer : bytes) : bytes :=
  WithdrawalsByAvailableKeyPrefix ++ FormatTimeBytes availableAt ++ [slash]
  ++ FormatTimeBytes requestedAt ++ [slash] ++ signer.

Definition WithdrawalsByAvailablePrefix (availableAt : Z) : bytes :=
  WithdrawalsByAvailableKeyPrefix ++ FormatTimeBytes availableAt.

Definition ProcessedPaymentsByHashKey (paymentPromiseHash : bytes) : bytes :=
  ProcessedPaymentsByHashKeyPrefix ++ paymentPromiseHash.

Definition ProcessedPaymentsByTimeKey (processedAt : Z) (paymentPromiseHash : bytes) : bytes :=
  ProcessedPaymentsByTimeKeyPrefix ++ FormatTimeBytes processedAt ++ [slash] ++ paymentPromiseHash.

Definition ProcessedPaymentsByTimePrefix (processedAt : Z) : bytes :=
  ProcessedPaymentsByTimeKeyPrefix ++ FormatTimeBytes processedAt.

(** [if len(key) > 0 && key[0] == '/' { key = key[1:] }]. *)
Definition skip_separator (key : bytes) : bytes :=
  match key with
  | c :: rest => if c =? slash then rest else key
  | [] => key
  end.

Definition ParseWithdrawalsByAvailableKey (key : bytes) : result (Z * Z * bytes) :=
  let key := drop (length WithdrawalsByAvailableKeyPrefix) key in
  _ ← ensure (29 <=? Z.of_nat (length key)) "key too short for available timestamp";
  available ← of_option "failed to parse available timestamp" (ParseTimeBytes (take 29 key));
  let key := skip_separator (drop 29 key) in
  _ ← ensure (29 <=? Z.of_nat (length key)) "key too short for requested timestamp";
  requested ← of_option "failed to parse requested timestamp" (ParseTimeBytes (take 29 key));
  let key := skip_separator (drop 29 key) in
  Ok (available, requested, key).

(** The slice [key[:29]] panics on a shorter key. *)
Definition ParseProcessedPaymentsByTimeKey (key : bytes) : result (Z * bytes) :=
  let key := drop (length ProcessedPaymentsByTimeKeyPrefix) key in
  if Z.of_nat (length key) <? 29 then Panic "slice bounds out of range"
  else
    processedAt ← of_option "failed to parse timestamp" (ParseTimeBytes (take 29 key));
    let key := skip_separator (drop 29 key) in
    Ok (processedAt, key).
End Keys.

(** ** Lemmas *)

Section KeyFacts.
Context `{TF : TimeFormat} `{TFL : !TimeFormatLaws}.

Lemma EscrowAccountKey_inj s1 s2 : EscrowAccountKey s1 = EscrowAccountKey s2 → s1 = s2.
Proof. by intros [= ->]. Qed.

Lemma WithdrawalsBySignerKey_inj s1 t1 s2 t2 :
  time_ok t1 → time_ok t2 →
  WithdrawalsBySignerKey s1 t1 = WithdrawalsBySignerKey s2 t2 → s1 = s2 ∧ t1 = t2.
Proof.
  unfold WithdrawalsBySignerKey, WithdrawalsBySignerPrefix. intros H1 H2 Heq.
  apply app_inj_2 in Heq as [Hs Ht]; [|by rewrite !FormatTimeBytes_length].
  apply app_inj_2 in Hs as [Hs _]; [|done].
  apply FormatTimeBytes_inj in Ht; [|done..]. by injection Hs as ->.
Qed.

Lemma WithdrawalsByAvailableKey_inj a1 r1 s1 a2 r2 s2 :
  time_ok a1 → time_ok r1 → time_ok a2 → time_ok r2 →
  WithdrawalsByAvailableKey a1 r1 s1 = WithdrawalsByAvailableKey a2 r2 s2 →
  a1 = a2 ∧ r1 = r2 ∧ s1 = s2.
Proof.
  unfold WithdrawalsByAvailableKey. intros Ha1 Hr1 Ha2 Hr2 Heq.
  apply app_inj_1 in Heq as [_ Heq]; [|done].
  apply app_inj_1 in Heq as [Ha Heq]; [|by rewrite !FormatTimeBytes_length].
  apply app_inj_1 in Heq as [_ Heq]; [|done].
  apply app_inj_1 in Heq as [Hr Heq]; [|by rewrite !FormatTimeBytes_length].
  apply app_inj_1 in Heq as [_ Hs]; [|done].
  apply FormatTimeBytes_inj in Ha; [|done..]. by apply FormatTimeBytes_inj in Hr.
Qed.

Lemma ProcessedPaymentsByTimeKey_inj t1 h1 t2 h2 :
  time_ok t1 → time_ok t2 →
  ProcessedPaymentsByTimeKey t1 h1 = ProcessedPaymentsByTimeKey t2 h2 → t1 = t2 ∧ h1 = h2.
Proof.
  unfold ProcessedPaymentsByTimeKey. intros H1 H2 Heq.
  apply app_inj_1 in Heq as [_ Heq]; [|done].
  apply app_inj_1 in Heq as [Ht Heq]; [|by rewrite !FormatTimeBytes_length].
  apply app_inj_1 in Heq as [_ Hh]; [|done].
  apply FormatTimeBytes_inj in Ht; [|done..]. done.
Qed.

Lemma take_format t rest : time_ok t → take 29 (FormatTimeBytes t ++ rest) = FormatTimeBytes t.
Proof. intros Ht. apply take_app_length'. by rewrite FormatTimeBytes_length. Qed.

Lemma drop_format t rest : time_ok t → drop 29 (FormatTimeBytes t ++ rest) = rest.
Proof. intros Ht. apply drop_app_length'. by rewrite FormatTimeBytes_length. Qed.

Lemma ensure_format_length t rest e : time_ok t →
  ensure (29 <=? Z.of_nat (length (FormatTimeBytes t ++ rest))) e = Ok tt.
Proof.
  intros Ht. rewrite ensure_Ok, length_app, FormatTimeBytes_length by done. apply Z.leb_le. lia.
Qed.

Lemma Parse_WithdrawalsByAvailableKey a r s : time_ok a → time_ok r →
  ParseWithdrawalsByAvailableKey (WithdrawalsByAvailableKey a r s) = Ok (a, r, s).
Proof.
  intros Ha Hr. unfold ParseWithdrawalsByAvailableKey, WithdrawalsByAvailableKey.
  cbn [WithdrawalsByAvailableKeyPrefix length app drop]. rewrite !drop_0.
  rewrite ensure_format_length, take_format, drop_format, FormatTimeBytes_parse by done.
  cbn [mbind result_bind of_option skip_separator]. cbn [Z.eqb app slash Pos.eqb].
  rewrite ensure_format_length, take_format, drop_format, FormatTimeBytes_parse by done.
  reflexivity.
Qed.

Lemma Parse_ProcessedPaymentsByTimeKey t h : time_ok t →
  ParseProcessedPaymentsByTimeKey (ProcessedPaymentsByTimeKey t h) = Ok (t, h).
Proof.
  intros Ht. unfold ParseProcessedPaymentsByTimeKey, ProcessedPaymentsByTimeKey.
  cbn [ProcessedPaymentsByTimeKeyPrefix length app drop]. rewrite !drop_0.
  rewrite length_app, FormatTimeBytes_length by done.
  destruct (Z.ltb_spec (Z.of_nat (29 + length (slash :: h))) 29); [lia|].
  rewrite take_format, drop_format, FormatTimeBytes_parse by done. reflexivity.
Qed.

(** A key of the available index lies in the scanned range exactly when it is
    due, and a key of the payment index when it is older than the cutoff. *)
Lemma format_range t u rest : time_ok t → time_ok u →
  (bytes_lt (FormatTimeBytes t ++ rest) (FormatTimeBytes u)
   ∨ FormatTimeBytes u `prefix_of` (FormatTimeBytes t ++ rest)) ↔ t <= u.
Proof.
  intros Ht Hu. split.
  - intros [Hlt|[k Hk]].
    + apply Z.nlt_ge. intros Hut.
      apply (bytes_lt_asym _ _ Hlt). rewrite <- (app_nil_r (FormatTimeBytes u)).
      apply bytes_lt_head; [by rewrite !FormatTimeBytes_length|]. by apply FormatTimeBytes_mono.
    + apply app_inj_1 in Hk as [Hk _]; [|by rewrite !FormatTimeBytes_length].
      apply FormatTimeBytes_inj in Hk; [lia|done..].
  - intros Htu. destruct (decide (t = u)) as [->|Hne].
    + right. by apply prefix_app_r.
    + left. rewrite <- (app_nil_r (FormatTimeBytes u)).
      apply bytes_lt_head; [by rewrite !FormatTimeBytes_length|].
      apply FormatTimeBytes_mono; [done..|lia].
Qed.

Lemma WithdrawalsByAvailable_range a r s now : time_ok a → time_ok now →
  let k := WithdrawalsByAvailableKey a r s in
  (bytes_le WithdrawalsByAvailableKeyPrefix k ∧
   (bytes_lt k (WithdrawalsByAvailablePrefix now)
    ∨ WithdrawalsByAvailablePrefix now `prefix_of` k)) ↔ a <= now.
Proof.
  intros Ha Hn k. subst k. unfold WithdrawalsByAvailableKey, WithdrawalsByAvailablePrefix.
  unfold bytes_lt. rewrite bytes_cmp_app.
  rewrite <- (format_range a now ([slash] ++ FormatTimeBytes r ++ [slash] ++ s)) by done.
  unfold bytes_lt, bytes_le. cbn [WithdrawalsByAvailableKeyPrefix app].
  split.
  - intros [_ [H|[l [= H]]]]; [by left|right]. by exists l.
  - intros [H|[l H]]; (split; [cbn; by destruct (FormatTimeBytes a)|]); [by left|right].
    exists l. cbn. by f_equal.
Qed.

Lemma ProcessedPaymentsByTime_range t h cutoff : time_ok t → time_ok cutoff →
  let k := ProcessedPaymentsByTimeKey t h in
  (bytes_le ProcessedPaymentsByTimeKeyPrefix k ∧
   (bytes_lt k (ProcessedPaymentsByTimePrefix cutoff)
    ∨ ProcessedPaymentsByTimePrefix cutoff `prefix_of` k)) ↔ t <= cutoff.
Proof.
  intros Ha Hn k. subst k. unfold ProcessedPaymentsByTimeKey, ProcessedPaymentsByTimePrefix.
  unfold bytes_lt. rewrite bytes_cmp_app.
  rewrite <- (format_range t cutoff ([slash] ++ h)) by done.
  unfold bytes_lt, bytes_le. cbn [ProcessedPaymentsByTimeKeyPrefix app].
  split.
  - intros [_ [H|[l [= H]]]]; [by left|right]. by exists l.
  - intros [H|[l H]]; (split; [cbn; by destruct (FormatTimeBytes t)|]); [by left|right].
    exists l. cbn. by f_equal.
Qed.

(** Signers of one length do not overlap in the by-signer index. *)
Lemma WithdrawalsBySignerPrefix_exact s1 s2 t : length s1 = length s2 →
  WithdrawalsBySignerPrefix s1 `prefix_of` WithdrawalsBySignerKey s2 t ↔ s1 = s2.
Proof.
  intros Hlen. unfold WithdrawalsBySignerKey, WithdrawalsBySignerPrefix.
  split.
  - intros [k Hk]. rewrite <- !(assoc_L (++)) in Hk.
    injection Hk as Hk. by apply app_inj_1 in Hk as [-> _].
  - intros ->. rewrite <- !(assoc_L (++)). apply prefix_app, prefix_app_r. done.
Qed.

(** Within a signer, byte order of the keys is the order of the requests. *)
Lemma WithdrawalsBySignerKey_order s t u : time_ok t → time_ok u →
  bytes_le (WithdrawalsBySignerKey s t) (WithdrawalsBySignerKey s u) ↔ t <= u.
Proof.
  intros Ht Hu. rewrite bytes_le_not_lt. unfold WithdrawalsBySignerKey, bytes_lt.
  rewrite bytes_cmp_app. fold (bytes_lt (FormatTimeBytes u) (FormatTimeBytes t)).
  rewrite FormatTimeBytes_lt_iff by done. lia.
Qed.
End KeyFacts.
