(* ===== verification/FibrePromise.v ===== *)
(** * Payment promises

    [fibre/payment_promise.go] (conversion, stateless validation, sign bytes
    and hash) and the stateless message checks of [x/fibre/types/msgs.go]. *)

From S2P Require Import Prelude Sdk FibreParams.
#[local] Open Scope Z_scope.

(** ** Data *)

(** The protobuf message [types.PaymentPromise]. *)
Record PromiseProto := mkPromiseProto {
  pb_ChainId : string;
  pb_Height : Z;
  pb_Namespace : bytes;
  pb_BlobSize : Z;
  pb_BlobVersion : Z;
  pb_Commitment : bytes;
  pb_CreationTimestamp : Z;
  pb_SignerPublicKey : bytes;
  pb_Signature : bytes;
}.

#[global] Instance PromiseProto_eq_dec : EqDecision PromiseProto.
Proof. solve_decision. Defined.

(** The ranges of the integer fields of the wire format. *)
Definition proto_ok (p : PromiseProto) : Prop :=
  i64 (pb_Height p) ∧ u32 (pb_BlobSize p) ∧ u32 (pb_BlobVersion p) ∧
  time_ok (pb_CreationTimestamp p).

(** The client type [fibre.PaymentPromise]; the cached sign bytes and hash are
    functions of the other fields and are not stored here. *)
Record PaymentPromise := mkPaymentPromise {
  SignerKey : option bytes;
  ChainID : string;
  Namespace : bytes;
  UploadSize : Z;
  BlobVersion : Z;
  Commitment : bytes;
  CreationTimestamp : Z;
  Signature : bytes;
  Height : Z;
}.

Record MsgPayForFibre := mkMsgPayForFibre {
  pff_Signer : bytes;
  pff_PaymentPromise : PromiseProto;
  pff_ValidatorSignatures : list bytes;
}.

Record MsgPaymentPromiseTimeout := mkMsgPaymentPromiseTimeout {
  ppt_Signer : bytes;
  ppt_PaymentPromise : PromiseProto;
}.

Record MsgDepositToEscrow := mkMsgDepositToEscrow { dep_Signer : bytes; dep_Amount : Coin }.
Record MsgRequestWithdrawal := mkMsgRequestWithdrawal { wdr_Signer : bytes; wdr_Amount : Coin }.
Record MsgUpdateFibreParams := mkMsgUpdateFibreParams { upd_Authority : bytes; upd_Params : Params }.

(** ** Constants *)

Definition CommitmentSize : nat := 32.
Definition maxChainIDSize : nat := 20.
Definition signatureSize : nat := 64.
Definition signBytesPrefix : string := "fibre/pp:v0".
Definition signBytesFixedSize : nat := secp256k1_PubKeySize + NamespaceSize + 4 + 32 + 4 + 8 + 15.
Definition MaxPaymentPromiseSize : nat := signBytesFixedSize + signatureSize + maxChainIDSize.
Definition BlobVersionZero : Z := 0.

(** [time.Time.MarshalBinary] of a UTC time: a version byte, the seconds since
    year 1, the nanoseconds and the offset -1. *)
Definition time_MarshalBinary_UTC (t : Z) : bytes :=
  [1] ++ be_bytes 8 (t / Second) ++ be_bytes 4 (t mod Second) ++ [255; 255].

Section Promise.
Context `{CR : Crypto}.

(** ** Conversion *)

Definition FromProto (pbMsg : option PromiseProto) : result PaymentPromise :=
  match pbMsg with
  | None => Err "nil proto payment promise"
  | Some pb =>
      _ ← NewNamespaceFromBytes (pb_Namespace pb);
      _ ← ensure (length (pb_Commitment pb) =? CommitmentSize)%nat "commitment must be 32 bytes";
      Ok {| ChainID := pb_ChainId pb;
            Height := wrap_u64 (pb_Height pb);
            Namespace := pb_Namespace pb;
            UploadSize := pb_BlobSize pb;
            BlobVersion := pb_BlobVersion pb;
            Commitment := pb_Commitment pb;
            CreationTimestamp := pb_CreationTimestamp pb;
            SignerKey := Some (pb_SignerPublicKey pb);
            Signature := pb_Signature pb |}
  end.

Definition ToProto (p : PaymentPromise) : result PromiseProto :=
  match SignerKey p with
  | None => Err "signer key must not be nil"
  | Some key =>
      Ok {| pb_ChainId := ChainID p;
            pb_Height := wrap_i64 (Height p);
            pb_Namespace := Namespace p;
            pb_BlobSize := UploadSize p;
            pb_BlobVersion := BlobVersion p;
            pb_Commitment := Commitment p;
            pb_CreationTimestamp := CreationTimestamp p;
            pb_SignerPublicKey := key;
            pb_Signature := Signature p |}
  end.

(** ** Sign bytes and hash *)

Definition strippedSignBytes (p : PaymentPromise) : result bytes :=
  match SignerKey p with
  | None => Err "signer key must not be nil"
  | Some key =>
      let timestampBytes := time_MarshalBinary_UTC (CreationTimestamp p) in
      Ok (key ++ Namespace p ++ be_bytes 4 (UploadSize p) ++ Commitment p
          ++ be_bytes 4 (BlobVersion p) ++ be_bytes 8 (Height p) ++ timestampBytes)
  end.

Definition SignBytes (p : PaymentPromise) : result bytes :=
  stripped ← strippedSignBytes p;
  RawBytesMessageSignBytes (ChainID p) signBytesPrefix stripped.

Definition Hash (p : PaymentPromise) : result bytes :=
  _ ← ensure (negb (length (Signature p) =? 0)%nat) "signature must be set before computing hash";
  signBytes ← SignBytes p;
  Ok (sha256 (signBytes ++ Signature p)).

(** ** Stateless validation *)

Definition Validate (p : PaymentPromise) : result unit :=
  match SignerKey p with
  | None => Err "signer key must be 33 bytes, got 0"
  | Some key =>
      _ ← ensure (length key =? secp256k1_PubKeySize)%nat "signer key must be 33 bytes";
      _ ← ensure (negb (String.eqb (ChainID p) "")) "chain id must not be empty";
      _ ← ensure (String.length (ChainID p) <=? maxChainIDSize)%nat "chain id exceeds maximum";
      _ ← ensure (negb (UploadSize p =? 0)) "upload size must be positive";
      _ ← ensure (negb (time_IsZero (CreationTimestamp p))) "creation timestamp must not be zero";
      _ ← ensure (length (Signature p) =? 64)%nat "signature must be 64 bytes";
      _ ← ensure (negb (Height p =? 0)) "height must be positive";
      signBytes ← SignBytes p;
      ensure (VerifySignature key signBytes (Signature p)) "signature verification failed"
  end.

(** ** ValidateBasic of the messages *)

Definition validateBlobVersion (blobVersion : Z) : result unit :=
  ensure (blobVersion =? BlobVersionZero) "unsupported blob version".

Definition PaymentPromise_ValidateBasic (msg : PromiseProto) : result unit :=
  _ ← ensure (negb (String.eqb (pb_ChainId msg) "")) "chain ID cannot be empty";
  _ ← ensure (negb (length (pb_Namespace msg) =? 0)%nat) "namespace cannot be empty";
  _ ← ensure (length (pb_Namespace msg) =? NamespaceSize)%nat "namespace must be 29 bytes";
  _ ← NewNamespaceFromBytes (pb_Namespace msg);
  _ ← Namespace_ValidateForBlob (pb_Namespace msg);
  _ ← ensure (negb (pb_BlobSize msg =? 0)) "blob size must be positive";
  _ ← ensure (length (pb_Commitment msg) =? 32)%nat "commitment must be 32 bytes";
  _ ← validateBlobVersion (pb_BlobVersion msg);
  _ ← ensure (0 <? pb_Height msg) "height must be positive";
  _ ← ensure (negb (time_IsZero (pb_CreationTimestamp msg))) "creation timestamp cannot be zero";
  _ ← ensure (length (pb_SignerPublicKey msg) =? secp256k1_PubKeySize)%nat "signer public key must be 33 bytes";
  ensure (negb (length (pb_Signature msg) =? 0)%nat) "signature cannot be empty".

Section Messages.
Context `{AC : AddressCodec} `{CO : CoinOps}.

Definition valid_bech32 (s : bytes) : result unit :=
  match AccAddressFromBech32 s with Some _ => Ok tt | None => Err "ErrInvalidAddress" end.

Definition MsgDepositToEscrow_ValidateBasic (msg : MsgDepositToEscrow) : result unit :=
  _ ← valid_bech32 (dep_Signer msg);
  _ ← ensure (coin_IsValid (dep_Amount msg)) "ErrInvalidCoins";
  ensure (coin_IsPositive (dep_Amount msg)) "amount must be positive".

Definition MsgRequestWithdrawal_ValidateBasic (msg : MsgRequestWithdrawal) : result unit :=
  _ ← valid_bech32 (wdr_Signer msg);
  _ ← ensure (coin_IsValid (wdr_Amount msg)) "ErrInvalidCoins";
  ensure (coin_IsPositive (wdr_Amount msg)) "amount must be positive".

Definition MsgPayForFibre_ValidateBasic (msg : MsgPayForFibre) : result unit :=
  _ ← valid_bech32 (pff_Signer msg);
  _ ← PaymentPromise_ValidateBasic (pff_PaymentPromise msg);
  ensure (negb (length (pff_ValidatorSignatures msg) =? 0)%nat) "must have at least one validator signature".

Definition MsgPaymentPromiseTimeout_ValidateBasic (msg : MsgPaymentPromiseTimeout) : result unit :=
  _ ← valid_bech32 (ppt_Signer msg);
  PaymentPromise_ValidateBasic (ppt_PaymentPromise msg).

Definition MsgUpdateFibreParams_ValidateBasic (msg : MsgUpdateFibreParams) : result unit :=
  _ ← valid_bech32 (upd_Authority msg);
  Params_Validate (upd_Params msg).
End Messages.

(** ** Facts *)

Context `{CL : !CryptoLaws}.

Lemma FromProto_Ok pb p : FromProto (Some pb) = Ok p →
  NewNamespaceFromBytes (pb_Namespace pb) = Ok tt ∧
  length (pb_Commitment pb) = CommitmentSize ∧
  p = {| ChainID := pb_ChainId pb; Height := wrap_u64 (pb_Height pb);
         Namespace := pb_Namespace pb; UploadSize := pb_BlobSize pb;
         BlobVersion := pb_BlobVersion pb; Commitment := pb_Commitment pb;
         CreationTimestamp := pb_CreationTimestamp pb;
         SignerKey := Some (pb_SignerPublicKey pb); Signature := pb_Signature pb |}.
Proof.
  unfold FromProto. intros H. inv_ok. destruct r.
  apply Nat.eqb_eq in Hr0. by subst.
Qed.

Lemma wrap_i64_u64 h : i64 h → wrap_i64 (wrap_u64 h) = h.
Proof.
  unfold i64, wrap_i64, wrap_u64. intros Hh.
  rewrite Zplus_mod_idemp_l. rewrite Z.mod_small by (unfold two63, two64 in *; lia). lia.
Qed.

(** A promise whose fields have the sizes the checks enforce. *)
Record sized (p : PaymentPromise) (key : bytes) : Prop := {
  sized_key : SignerKey p = Some key;
  sized_key_len : length key = secp256k1_PubKeySize;
  sized_ns : length (Namespace p) = NamespaceSize;
  sized_commitment : length (Commitment p) = CommitmentSize;
  sized_upload : u32 (UploadSize p);
  sized_version : u32 (BlobVersion p);
  sized_height : u64 (Height p);
  sized_time : time_ok (CreationTimestamp p);
}.

Lemma length_time_MarshalBinary t : length (time_MarshalBinary_UTC t) = 15%nat.
Proof. unfold time_MarshalBinary_UTC. len. Qed.

Lemma time_MarshalBinary_inj t u : time_ok t → time_ok u →
  time_MarshalBinary_UTC t = time_MarshalBinary_UTC u → t = u.
Proof.
  unfold time_MarshalBinary_UTC, time_ok, time_limit, Hour, Minute, Second.
  intros Ht Hu Heq.
  apply app_inj_1 in Heq as [_ Heq]; [|done].
  apply app_inj_1 in Heq as [Hs Heq]; [|by len].
  apply app_inj_1 in Heq as [Hn _]; [|by len].
  apply be_bytes_inj in Hs; [|split; [apply Z.div_pos; lia|apply Z.div_lt_upper_bound; lia]..].
  pose proof (Z.mod_pos_bound t 1000000000). pose proof (Z.mod_pos_bound u 1000000000).
  apply be_bytes_inj in Hn; [|lia..].
  rewrite (Z.div_mod t 1000000000), (Z.div_mod u 1000000000) by lia. lia.
Qed.

Lemma strippedSignBytes_length p key b :
  sized p key → strippedSignBytes p = Ok b → length b = signBytesFixedSize.
Proof.
  intros [Hk Hkl Hns Hc _ _ _ _] H. unfold strippedSignBytes in H. rewrite Hk in H. inv_ok. subst b.
  autorewrite with go_len. rewrite length_time_MarshalBinary, Hkl, Hns, Hc. reflexivity.
Qed.

Lemma strippedSignBytes_inj p q kp kq b :
  sized p kp → sized q kq →
  strippedSignBytes p = Ok b → strippedSignBytes q = Ok b →
  SignerKey p = SignerKey q ∧ Namespace p = Namespace q ∧ UploadSize p = UploadSize q ∧
  Commitment p = Commitment q ∧ BlobVersion p = BlobVersion q ∧ Height p = Height q ∧
  CreationTimestamp p = CreationTimestamp q.
Proof.
  intros [Hk Hkl Hns Hc Hu Hv Hh Ht] [Hk' Hkl' Hns' Hc' Hu' Hv' Hh' Ht'] Hp Hq.
  unfold strippedSignBytes in Hp, Hq. rewrite Hk in Hp. rewrite Hk' in Hq. inv_ok. subst b.
  apply app_inj_1 in Hq as [-> Hq]; [|congruence].
  apply app_inj_1 in Hq as [-> Hq]; [|congruence].
  apply app_inj_1 in Hq as [Hsz Hq]; [|by len].
  apply app_inj_1 in Hq as [-> Hq]; [|congruence].
  apply app_inj_1 in Hq as [Hver Hq]; [|by len].
  apply app_inj_1 in Hq as [Hht Hq]; [|by len].
  apply time_MarshalBinary_inj in Hq; [|done..].
  apply be_bytes_inj_u32 in Hsz; [|assumption..]. apply be_bytes_inj_u32 in Hver; [|assumption..].
  apply be_bytes_inj_u64 in Hht; [|assumption..]. rewrite Hk, Hk'. auto 10.
Qed.

(** What a promise that passed [FromProto] and [Validate] looks like. *)
Lemma Validate_sized pb p : proto_ok pb →
  FromProto (Some pb) = Ok p → Validate p = Ok tt → sized p (pb_SignerPublicKey pb).
Proof.
  intros (Hh & Hs & Hv & Ht) Hf HV. apply FromProto_Ok in Hf as (Hns & Hc & ->).
  unfold Validate in HV. cbn in HV. inv_ok.
  constructor; cbn; try done.
  - by apply Nat.eqb_eq.
  - by apply NewNamespaceFromBytes_length.
  - auto with go.
Qed.
End Promise.
