(* ===== verification/FibreKeeper.v ===== *)
(** * x/fibre: the keeper

    [x/fibre/keeper/keeper.go]: the module's store, its accessors, the
    stateful validation of payment promises and the reduction of pending
    withdrawals. *)

From S2P Require Import Prelude Sdk FibreParams FibreKeys FibrePromise.
#[local] Open Scope Z_scope.

(** ** Stored data *)

Record EscrowAccount := mkEscrowAccount {
  ea_Signer : bytes;
  ea_Balance : Coin;
  ea_AvailableBalance : Coin;
}.

Record Withdrawal := mkWithdrawal {
  wd_Signer : bytes;
  wd_Amount : Coin;
  wd_RequestedTimestamp : Z;
  wd_AvailableTimestamp : Z;
}.

Record ProcessedPayment := mkProcessedPayment {
  pay_PaymentPromiseHash : bytes;
  pay_ProcessedAt : Z;
}.

#[global] Instance EscrowAccount_eq_dec : EqDecision EscrowAccount.
Proof. solve_decision. Defined.
#[global] Instance Withdrawal_eq_dec : EqDecision Withdrawal.
Proof. solve_decision. Defined.
#[global] Instance ProcessedPayment_eq_dec : EqDecision ProcessedPayment.
Proof. solve_decision. Defined.

(** The module's KVStore, one map per key family; values are decoded. *)
Record Store := mkStore {
  kv_params : option Params;
  kv_escrow : gmap bytes EscrowAccount;
  kv_wd_signer : gmap bytes Withdrawal;
  kv_wd_avail : gmap bytes Withdrawal;
  kv_pay_hash : gmap bytes ProcessedPayment;
  kv_pay_time : gmap bytes ProcessedPayment;
  kv_floor : option bytes;
}.

Definition empty_store : Store := mkStore None ∅ ∅ ∅ ∅ ∅ None.

Section Keeper.
Context `{TF : TimeFormat} `{CO : CoinOps} `{AC : AddressCodec} `{CR : Crypto}.

(** ** Accessors *)

Definition GetParams (st : Store) : Params := default DefaultParams (kv_params st).

Definition SetParams (st : Store) (params : Params) : Store :=
  mkStore (Some params) (kv_escrow st) (kv_wd_signer st) (kv_wd_avail st)
    (kv_pay_hash st) (kv_pay_time st) (kv_floor st).

Definition GetPromiseFreshnessFloor (st : Store) : result Z :=
  match kv_floor st with
  | None => Ok zero_time
  | Some bz =>
      if (length bz =? 0)%nat then Ok zero_time
      else of_option "failed to parse promise freshness floor" (ParseTimeBytes bz)
  end.

Definition SetPromiseFreshnessFloor (st : Store) (floor : Z) : Store :=
  mkStore (kv_params st) (kv_escrow st) (kv_wd_signer st) (kv_wd_avail st)
    (kv_pay_hash st) (kv_pay_time st) (Some (FormatTimeBytes floor)).

Definition GetEscrowAccount (st : Store) (signer : bytes) : option EscrowAccount :=
  kv_escrow st !! EscrowAccountKey signer.

Definition SetEscrowAccount (st : Store) (account : EscrowAccount) : Store :=
  mkStore (kv_params st) (<[EscrowAccountKey (ea_Signer account) := account]> (kv_escrow st))
    (kv_wd_signer st) (kv_wd_avail st) (kv_pay_hash st) (kv_pay_time st) (kv_floor st).

Definition DeleteEscrowAccount (st : Store) (signer : bytes) : Store :=
  mkStore (kv_params st) (delete (EscrowAccountKey signer) (kv_escrow st))
    (kv_wd_signer st) (kv_wd_avail st) (kv_pay_hash st) (kv_pay_time st) (kv_floor st).

(** The two index keys of a withdrawal. *)
Definition wd_primary_key (w : Withdrawal) : bytes :=
  WithdrawalsBySignerKey (wd_Signer w) (wd_RequestedTimestamp w).
Definition wd_secondary_key (w : Withdrawal) : bytes :=
  WithdrawalsByAvailableKey (wd_AvailableTimestamp w) (wd_RequestedTimestamp w) (wd_Signer w).

Definition GetWithdrawal (st : Store) (signer : bytes) (requestedTimestamp : Z) : option Withdrawal :=
  kv_wd_signer st !! WithdrawalsBySignerKey signer requestedTimestamp.

Definition SetWithdrawal (st : Store) (withdrawal : Withdrawal) : Store :=
  mkStore (kv_params st) (kv_escrow st)
    (<[wd_primary_key withdrawal := withdrawal]> (kv_wd_signer st))
    (<[wd_secondary_key withdrawal := withdrawal]> (kv_wd_avail st))
    (kv_pay_hash st) (kv_pay_time st) (kv_floor st).

Definition DeleteWithdrawal (st : Store) (withdrawal : Withdrawal) : Store :=
  mkStore (kv_params st) (kv_escrow st)
    (delete (wd_primary_key withdrawal) (kv_wd_signer st))
    (delete (wd_secondary_key withdrawal) (kv_wd_avail st))
    (kv_pay_hash st) (kv_pay_time st) (kv_floor st).

Definition GetWithdrawalsBySigner (st : Store) (signer : bytes) : list Withdrawal :=
  (prefix_iter (WithdrawalsBySignerPrefix signer) (kv_wd_signer st)).*2.

Definition GetWithdrawalsByAvailableIterator (st : Store) (upToTime : Z) : list (bytes * Withdrawal) :=
  range_iter WithdrawalsByAvailableKeyPrefix (WithdrawalsByAvailablePrefix upToTime) (kv_wd_avail st).

Definition pay_primary_key (p : ProcessedPayment) : bytes :=
  ProcessedPaymentsByHashKey (pay_PaymentPromiseHash p).
Definition pay_secondary_key (p : ProcessedPayment) : bytes :=
  ProcessedPaymentsByTimeKey (pay_ProcessedAt p) (pay_PaymentPromiseHash p).

Definition GetProcessedPayment (st : Store) (promiseHash : bytes) : option ProcessedPayment :=
  kv_pay_hash st !! ProcessedPaymentsByHashKey promiseHash.

Definition SetProcessedPayment (st : Store) (payment : ProcessedPayment) : Store :=
  mkStore (kv_params st) (kv_escrow st) (kv_wd_signer st) (kv_wd_avail st)
    (<[pay_primary_key payment := payment]> (kv_pay_hash st))
    (<[pay_secondary_key payment := payment]> (kv_pay_time st)) (kv_floor st).

Definition DeleteProcessedPayment (st : Store) (payment : ProcessedPayment) : Store :=
  mkStore (kv_params st) (kv_escrow st) (kv_wd_signer st) (kv_wd_avail st)
    (delete (pay_primary_key payment) (kv_pay_hash st))
    (delete (pay_secondary_key payment) (kv_pay_time st)) (kv_floor st).

Definition GetProcessedPaymentsByTimeIterator (st : Store) (upToTime : Z) : list (bytes * ProcessedPayment) :=
  range_iter ProcessedPaymentsByTimeKeyPrefix (ProcessedPaymentsByTimePrefix upToTime) (kv_pay_time st).

(** ** Promises *)

Definition promiseHash (promise : PromiseProto) : result bytes :=
  pp ← FromProto (Some promise); Hash pp.

Definition IsPaymentProcessedByHash (st : Store) (hash : bytes) : bool :=
  bool_decide (is_Some (kv_pay_hash st !! ProcessedPaymentsByHashKey hash)).

Definition IsPaymentPromiseProcessed (st : Store) (promise : PromiseProto) : bool :=
  match promiseHash promise with
  | Ok hash => IsPaymentProcessedByHash st hash
  | _ => false
  end.

Definition ValidatePaymentPromiseStateless (promise : PromiseProto) : result unit :=
  pp ← FromProto (Some promise); Validate pp.

(** The bech32 string of the promise signer's account. *)
Definition promise_signer (promise : PromiseProto) : result bytes :=
  addr ← PubKey_Address (pb_SignerPublicKey promise); Ok (AccAddress_String addr).

(** The later of [current_time - withdrawal_delay] and the freshness floor. *)
Definition freshness_cutoff (currentTime : Z) (params : Params) (floor : Z) : Z :=
  let minAllowedTime := currentTime - WithdrawalDelay params in
  if time_After floor minAllowedTime then floor else minAllowedTime.

Definition validatePaymentPromiseStatefulInternal (ctx : Context) (st : Store)
    (promise : PromiseProto) (isTimeout : bool) : result Z :=
  _ ← ensure (String.eqb (pb_ChainId promise) (ctx_ChainID ctx)) "chain_id does not match executing chain";
  let params := GetParams st in
  let currentTime := ctx_BlockTime ctx in
  let creationTime := pb_CreationTimestamp promise in
  floor ← GetPromiseFreshnessFloor st;
  _ ← ensure (time_After creationTime (freshness_cutoff currentTime params floor)) "creation_timestamp is too old";
  let maxAllowedTime := currentTime + MaxPromiseClockSkew in
  _ ← ensure (negb (time_After creationTime maxAllowedTime)) "creation_timestamp is in the future";
  let expirationTime := creationTime + PaymentPromiseTimeout params in
  _ ← ensure (isTimeout || negb (time_After currentTime expirationTime || time_Equal currentTime expirationTime))
        "payment promise expired";
  let currentHeight := ctx_BlockHeight ctx in
  let promiseHeight := pb_Height promise in
  _ ← ensure (isTimeout ||
              negb (wrap_i64 (PaymentPromiseHeightWindow params) <? wrap_i64 (currentHeight - promiseHeight)))
        "payment promise height is too far in the past";
  _ ← ensure (isTimeout || negb (wrap_i64 (currentHeight + 1) <? promiseHeight))
        "payment promise height is too far in the future";
  _ ← ensure (negb (IsPaymentPromiseProcessed st promise)) "payment promise has already been processed";
  signerAddrStr ← promise_signer promise;
  escrowAccount ← of_option "escrow account not found" (GetEscrowAccount st signerAddrStr);
  let requiredAmount := mkCoin BondDenom (EstimateGasForPayForFibre (pb_BlobSize promise)) in
  hasSufficientBalance ← coin_IsGTE (ea_Balance escrowAccount) requiredAmount;
  _ ← ensure hasSufficientBalance "insufficient balance in escrow account";
  Ok expirationTime.

Definition ValidatePaymentPromiseStateful (ctx : Context) (st : Store) (promise : PromiseProto) : result Z :=
  validatePaymentPromiseStatefulInternal ctx st promise false.

Definition ValidatePaymentPromiseStatefulForTimeout (ctx : Context) (st : Store) (promise : PromiseProto) : result Z :=
  validatePaymentPromiseStatefulInternal ctx st promise true.

Definition ValidatePaymentPromiseInternal (ctx : Context) (st : Store) (promise : PromiseProto) : result unit :=
  _ ← ValidatePaymentPromiseStateless promise;
  _ ← ValidatePaymentPromiseStateful ctx st promise;
  Ok tt.

(** ** Reducing pending withdrawals *)

Definition with_amount (w : Withdrawal) (amount : Coin) : Withdrawal :=
  mkWithdrawal (wd_Signer w) amount (wd_RequestedTimestamp w) (wd_AvailableTimestamp w).

Fixpoint reduce_loop (l : list (bytes * Withdrawal)) (st : Store) (remaining : Coin)
    : result (Store * Coin) :=
  match l with
  | [] => Ok (st, remaining)
  | (_, withdrawal) :: l' =>
      if coin_IsPositive remaining then
        gte ← coin_IsGTE remaining (wd_Amount withdrawal);
        if (gte : bool) then
          remaining' ← coin_Sub remaining (wd_Amount withdrawal);
          reduce_loop l' (DeleteWithdrawal st withdrawal) remaining'
        else
          amount ← coin_Sub (wd_Amount withdrawal) remaining;
          reduce_loop l' (SetWithdrawal st (with_amount withdrawal amount))
            (mkCoin (Denom remaining) 0)
      else Ok (st, remaining)
  end.

Definition ReduceWithdrawalsForPayment (st : Store) (signer : bytes) (remaining : Coin) : result Store :=
  '(st', remaining') ←
    reduce_loop (prefix_iter (WithdrawalsBySignerPrefix signer) (kv_wd_signer st)) st remaining;
  _ ← ensure (negb (coin_IsPositive remaining')) "pending withdrawals do not cover the shortfall";
  Ok st'.
End Keeper.
