(* ===== verification/FibreLedger.v ===== *)
(** * x/fibre: the escrow ledger invariant

    What the escrow accounts and the two withdrawal indexes have to satisfy
    together, and how the store operations of [FibreKeeper] change it. *)

From S2P Require Import Prelude Sdk FibreParams FibreKeys FibrePromise FibreKeeper.
#[local] Open Scope Z_scope.

Section Ledger.
Context `{TF : TimeFormat} `{TFL : !TimeFormatLaws}.

(** Account strings have one length (bech32 of 20-byte addresses), so that the
    by-signer prefix of one account does not cover another account's keys. *)
Context (signer_len : nat).

Implicit Types (esc : gmap bytes EscrowAccount) (wds wda : gmap bytes Withdrawal).

Definition wd_ok (w : Withdrawal) : Prop :=
  time_ok (wd_RequestedTimestamp w) ∧ time_ok (wd_AvailableTimestamp w) ∧ 0 < Amount (wd_Amount w).

(** The amount of [w] if it belongs to the signer [s]. *)
Definition amount_of (s : bytes) (w : Withdrawal) : Z :=
  if decide (wd_Signer w = s) then Amount (wd_Amount w) else 0.

(** The funds of [s] locked in pending withdrawals. *)
Definition locked (wds : gmap bytes Withdrawal) (s : bytes) : Z := msum (amount_of s) wds.

(** The ledger is consistent, except that the account of [s] owes [d]: its
    total balance is [d] less than its available balance plus its locked funds. *)
Record ledger_inv (s : bytes) (d : Z) esc wds wda : Prop := {
  li_escrow : ∀ k a, esc !! k = Some a →
    k = EscrowAccountKey (ea_Signer a) ∧ length (ea_Signer a) = signer_len ∧
    Denom (ea_AvailableBalance a) = Denom (ea_Balance a) ∧
    0 <= Amount (ea_AvailableBalance a) ∧
    Amount (ea_Balance a) + (if decide (ea_Signer a = s) then d else 0)
      = Amount (ea_AvailableBalance a) + locked wds (ea_Signer a);
  li_wd : ∀ k w, wds !! k = Some w → k = wd_primary_key w ∧ wd_ok w;
  li_wd_escrow : ∀ k w, wds !! k = Some w →
    ∃ a, esc !! EscrowAccountKey (wd_Signer w) = Some a ∧ Denom (wd_Amount w) = Denom (ea_Balance a);
  li_avail : ∀ k w, wda !! k = Some w → k = wd_secondary_key w ∧ wds !! wd_primary_key w = Some w;
  li_index : ∀ k w, wds !! k = Some w → wda !! wd_secondary_key w = Some w;
}.

Lemma ledger_inv_zero s s' esc wds wda : ledger_inv s 0 esc wds wda → ledger_inv s' 0 esc wds wda.
Proof.
  intros [He Hw Hwe Ha Hi]. constructor; try done.
  intros k a Hk. apply He in Hk as (-> & ? & ? & ? & Heq). repeat (split; [done|]).
  repeat case_decide; lia.
Qed.

Lemma wd_primary_key_inj w w' : wd_ok w → wd_ok w' → wd_primary_key w = wd_primary_key w' →
  wd_Signer w = wd_Signer w' ∧ wd_RequestedTimestamp w = wd_RequestedTimestamp w'.
Proof. intros (?&?&?) (?&?&?). unfold wd_primary_key. by apply WithdrawalsBySignerKey_inj. Qed.

Lemma wd_secondary_primary w w' : wd_ok w → wd_ok w' →
  wd_secondary_key w = wd_secondary_key w' → wd_primary_key w = wd_primary_key w'.
Proof.
  intros (?&?&?) (?&?&?). unfold wd_secondary_key. intros Heq.
  apply WithdrawalsByAvailableKey_inj in Heq as (Ha & Hr & Hs); [|done..].
  unfold wd_primary_key. by rewrite Hr, Hs.
Qed.

Lemma locked_insert_new wds k w t : wds !! k = None →
  locked (<[k:=w]> wds) t = amount_of t w + locked wds t.
Proof. intros Hk. by apply msum_insert. Qed.

Lemma locked_delete wds k w t : wds !! k = Some w →
  locked (delete k wds) t = locked wds t - amount_of t w.
Proof. intros Hk. by apply msum_delete. Qed.

Lemma locked_update wds k w w' t : wds !! k = Some w →
  locked (<[k:=w']> wds) t = locked wds t - amount_of t w + amount_of t w'.
Proof. intros Hk. by apply msum_update. Qed.

Lemma locked_nonneg wds t : (∀ k w, wds !! k = Some w → wd_ok w) → 0 <= locked wds t.
Proof.
  intros Hw. apply msum_nonneg. intros k w Hk. apply Hw in Hk as (?&?&?).
  unfold amount_of. case_decide; lia.
Qed.

Lemma locked_ge wds k w : (∀ k w, wds !! k = Some w → wd_ok w) → wds !! k = Some w →
  Amount (wd_Amount w) <= locked wds (wd_Signer w).
Proof.
  intros Hw Hk. unfold locked.
  assert (Amount (wd_Amount w) = amount_of (wd_Signer w) w) as ->.
  { unfold amount_of. by rewrite decide_True. }
  apply (msum_elem_le _ _ k); [|done]. intros k' w' Hk'. apply Hw in Hk' as (?&?&?).
  unfold amount_of. case_decide; lia.
Qed.

Lemma locked_none wds s : (∀ k w, wds !! k = Some w → wd_Signer w ≠ s) → locked wds s = 0.
Proof.
  intros Hw. unfold locked. rewrite (msum_ext _ (λ _, 0)).
  - unfold msum. apply (map_fold_weak_ind (λ r _, r = 0)); [done|]. intros; lia.
  - intros k w Hk. unfold amount_of. rewrite decide_False; [done|]. by eapply Hw.
Qed.

(** ** Adding, removing and resizing a withdrawal *)

Lemma ledger_add_withdrawal s d esc wds wda w a :
  ledger_inv s d esc wds wda → wd_ok w → wd_Signer w = s →
  wds !! wd_primary_key w = None →
  esc !! EscrowAccountKey s = Some a → Denom (wd_Amount w) = Denom (ea_Balance a) →
  ledger_inv s (d + Amount (wd_Amount w)) esc
    (<[wd_primary_key w := w]> wds) (<[wd_secondary_key w := w]> wda).
Proof.
  intros [He Hw Hwe Ha Hi] Hok Hs Hnew Hesc Hden. constructor.
  - intros k b Hk. apply He in Hk as (-> & ? & ? & ? & Heq). repeat (split; [done|]).
    rewrite locked_insert_new by done. unfold amount_of. rewrite Hs.
    repeat case_decide; try lia; congruence.
  - intros k w' Hk. apply lookup_insert_Some in Hk as [[<- <-]|[Hne Hk]]; [done|]. by apply Hw.
  - intros k w' Hk. apply lookup_insert_Some in Hk as [[<- <-]|[Hne Hk]].
    + rewrite Hs. eauto.
    + by eapply Hwe.
  - intros k w' Hk. apply lookup_insert_Some in Hk as [[<- <-]|[Hne Hk]].
    + split; [done|]. apply lookup_insert_eq.
    + apply Ha in Hk as [-> Hk]. split; [done|].
      rewrite lookup_insert_ne; [done|]. congruence.
  - intros k w' Hk. apply lookup_insert_Some in Hk as [[<- <-]|[Hne Hk]].
    + apply lookup_insert_eq.
    + rewrite lookup_insert_ne; [by eapply Hi|].
      intros Heq. apply wd_secondary_primary in Heq; [|done|exact (proj2 (Hw _ _ Hk))].
      apply Hw in Hk as Hk'. destruct Hk' as [-> _]. congruence.
Qed.

Lemma ledger_delete_withdrawal s d esc wds wda w :
  ledger_inv s d esc wds wda → wd_Signer w = s → wds !! wd_primary_key w = Some w →
  ledger_inv s (d - Amount (wd_Amount w)) esc
    (delete (wd_primary_key w) wds) (delete (wd_secondary_key w) wda).
Proof.
  intros [He Hw Hwe Ha Hi] Hs Hin. constructor.
  - intros k b Hk. apply He in Hk as (-> & ? & ? & ? & Heq). repeat (split; [done|]).
    rewrite (locked_delete _ _ w) by done. unfold amount_of. rewrite Hs.
    repeat case_decide; try lia; congruence.
  - intros k w' [_ Hk]%lookup_delete_Some. by apply Hw.
  - intros k w' [_ Hk]%lookup_delete_Some. by eapply Hwe.
  - intros k w' [Hne Hk]%lookup_delete_Some. apply Ha in Hk as [-> Hk]. split; [done|].
    rewrite lookup_delete_ne; [done|]. intros Heq. rewrite <- Heq in Hk. congruence.
  - intros k w' [Hne Hk]%lookup_delete_Some. rewrite lookup_delete_ne; [by eapply Hi|].
    intros Heq. apply wd_secondary_primary in Heq; [|exact (proj2 (Hw _ _ Hin))|exact (proj2 (Hw _ _ Hk))].
    apply Hw in Hk as Hk'. destruct Hk' as [-> _]. congruence.
Qed.

Lemma ledger_resize_withdrawal s d esc wds wda w c :
  ledger_inv s d esc wds wda → wd_Signer w = s → wds !! wd_primary_key w = Some w →
  0 < Amount c → Denom c = Denom (wd_Amount w) →
  ledger_inv s (d - Amount (wd_Amount w) + Amount c) esc
    (<[wd_primary_key w := with_amount w c]> wds)
    (<[wd_secondary_key w := with_amount w c]> wda).
Proof.
  intros [He Hw Hwe Ha Hi] Hs Hin Hc Hden.
  pose proof (proj2 (Hw _ _ Hin)) as (Hr & Hav & Hpos).
  assert (wd_ok (with_amount w c)) as Hok' by exact (conj Hr (conj Hav Hc)).
  constructor.
  - intros k b Hk. apply He in Hk as (-> & ? & ? & ? & Heq). repeat (split; [done|]).
    rewrite (locked_update _ _ w) by done. unfold amount_of, with_amount; cbn. rewrite Hs.
    repeat case_decide; try lia; congruence.
  - intros k w' Hk. apply lookup_insert_Some in Hk as [[<- <-]|[Hne Hk]]; [done|]. by apply Hw.
  - intros k w' Hk. apply lookup_insert_Some in Hk as [[<- <-]|[Hne Hk]].
    + destruct (Hwe _ _ Hin) as (a & Hesc & Hd). exists a. split; [exact Hesc|].
      change (Denom c = Denom (ea_Balance a)). congruence.
    + by eapply Hwe.
  - intros k w' Hk. apply lookup_insert_Some in Hk as [[<- <-]|[Hne Hk]].
    + split; [done|]. apply lookup_insert_eq.
    + apply Ha in Hk as [-> Hk]. split; [done|]. rewrite lookup_insert_ne; [done|].
      intros Heq. rewrite <- Heq in Hk. congruence.
  - intros k w' Hk. apply lookup_insert_Some in Hk as [[<- <-]|[Hne Hk]].
    + apply lookup_insert_eq.
    + rewrite lookup_insert_ne; [by eapply Hi|].
      intros Heq. apply wd_secondary_primary in Heq; [|exact (proj2 (Hw _ _ Hin))|exact (proj2 (Hw _ _ Hk))].
      apply Hw in Hk as Hk'. destruct Hk' as [-> _]. congruence.
Qed.

(** ** Writing an escrow account *)

Lemma ledger_set_escrow s d esc wds wda a a' :
  ledger_inv s d esc wds wda →
  esc !! EscrowAccountKey s = Some a → ea_Signer a' = s →
  Denom (ea_Balance a') = Denom (ea_Balance a) →
  Denom (ea_AvailableBalance a') = Denom (ea_Balance a) →
  0 <= Amount (ea_AvailableBalance a') →
  ledger_inv s (Amount (ea_AvailableBalance a') - Amount (ea_AvailableBalance a)
                - (Amount (ea_Balance a') - Amount (ea_Balance a)) + d)
    (<[EscrowAccountKey s := a']> esc) wds wda.
Proof.
  intros [He Hw Hwe Ha Hi] Hesc Hs Hd1 Hd2 Hpos. constructor; try done.
  - intros k b Hk. apply lookup_insert_Some in Hk as [[<- <-]|[Hne Hk]].
    + apply He in Hesc as (Hk & Hl & ? & ? & Heq). apply EscrowAccountKey_inj in Hk.
      rewrite Hs. rewrite <- Hk in *. repeat (split; [congruence|]).
      repeat case_decide; try done. lia.
    + apply He in Hk as (-> & ? & ? & ? & Heq). repeat (split; [done|]).
      repeat case_decide; try lia; congruence.
  - intros k w Hk. destruct (Hwe _ _ Hk) as (b & Hb & Hbd).
    destruct (decide (wd_Signer w = s)) as [Hws|Hws].
    + rewrite Hws in *. rewrite lookup_insert_eq. exists a'. split; [done|]. congruence.
    + rewrite lookup_insert_ne; [eauto|]. intros Heq. apply EscrowAccountKey_inj in Heq. congruence.
Qed.

Lemma ledger_new_escrow s esc wds wda a' :
  ledger_inv s 0 esc wds wda →
  esc !! EscrowAccountKey s = None → ea_Signer a' = s → length s = signer_len →
  Denom (ea_AvailableBalance a') = Denom (ea_Balance a') →
  Amount (ea_Balance a') = Amount (ea_AvailableBalance a') →
  0 <= Amount (ea_AvailableBalance a') →
  ledger_inv s 0 (<[EscrowAccountKey s := a']> esc) wds wda.
Proof.
  intros [He Hw Hwe Ha Hi] Hesc Hs Hlen Hd Hamt Hpos.
  assert (locked wds s = 0) as Hl.
  { apply locked_none. intros k w Hk Hws. apply Hwe in Hk as (b & Hb & _).
    rewrite Hws in Hb. congruence. }
  constructor; try done.
  - intros k b Hk. apply lookup_insert_Some in Hk as [[<- <-]|[Hne Hk]].
    + rewrite Hs. repeat (split; [done|]). rewrite Hl. case_decide; lia.
    + by apply He.
  - intros k w Hk. destruct (Hwe _ _ Hk) as (b & Hb & Hbd).
    rewrite lookup_insert_ne; [eauto|]. congruence.
Qed.

(** ** The reduction loop *)

Context `{CO : CoinOps} `{CL : !CoinLaws}.

(** Oldest-first consumption of a list of withdrawals. *)
Fixpoint fifo_consume (rem : Z) (ws : list Withdrawal) : list Withdrawal :=
  match ws with
  | [] => []
  | w :: ws' =>
      if rem <=? 0 then ws
      else if Amount (wd_Amount w) <=? rem then fifo_consume (rem - Amount (wd_Amount w)) ws'
      else with_amount w (mkCoin (Denom (wd_Amount w)) (Amount (wd_Amount w) - rem)) :: ws'
  end.

(** The same on the entries of the by-signer index. *)
Fixpoint fifo_entries (rem : Z) (l : list (bytes * Withdrawal)) : list (bytes * Withdrawal) :=
  match l with
  | [] => []
  | (k, w) :: l' =>
      if rem <=? 0 then l
      else if Amount (wd_Amount w) <=? rem then fifo_entries (rem - Amount (wd_Amount w)) l'
      else (k, with_amount w (mkCoin (Denom (wd_Amount w)) (Amount (wd_Amount w) - rem))) :: l'
  end.

Lemma fifo_entries_snd l : ∀ rem, (fifo_entries rem l).*2 = fifo_consume rem l.*2.
Proof.
  induction l as [|[k w] l IH]; intros rem; cbn; [done|].
  repeat case_match; cbn; auto.
Qed.

Lemma fifo_entries_keys l : ∀ rem, (fifo_entries rem l).*1 `suffix_of` l.*1.
Proof.
  induction l as [|[k w] l IH]; intros rem; cbn; [done|].
  repeat case_match; cbn; try done. by apply suffix_cons_r.
Qed.

Lemma fifo_entries_from l : ∀ rem k w, (k, w) ∈ fifo_entries rem l →
  ∃ w0, (k, w0) ∈ l ∧ wd_Signer w = wd_Signer w0.
Proof.
  induction l as [|[k0 w0] l IH]; intros rem k w Hin; cbn in Hin; [by apply elem_of_nil in Hin|].
  repeat case_match.
  - by exists w.
  - apply IH in Hin as (w1 & ? & ?). exists w1. split; [by right|done].
  - apply elem_of_cons in Hin as [[= -> ->]|Hin]; [exists w0|exists w]; split; done || by constructor.
Qed.

Definition total (ws : list Withdrawal) : Z := zsum (map (λ w, Amount (wd_Amount w)) ws).

(** Entries of the by-signer index that belong to [s], each stored. *)
Definition stored_entries (s : bytes) (wds : gmap bytes Withdrawal) (l : list (bytes * Withdrawal)) : Prop :=
  NoDup l.*1 ∧ ∀ k w, (k, w) ∈ l → wds !! k = Some w ∧ wd_Signer w = s.

Lemma stored_entries_frame s wds wds' k w l :
  stored_entries s wds ((k, w) :: l) →
  (∀ k', k' ≠ k → wds' !! k' = wds !! k') →
  stored_entries s wds' l.
Proof.
  intros [Hn Hl] Hf. cbn in Hn. apply NoDup_cons in Hn as [Hk Hn]. split; [done|].
  intros k' w' Hin. rewrite Hf.
  - apply Hl. by apply list_elem_of_further.
  - intros ->. apply Hk. apply list_elem_of_fmap. by exists (k, w').
Qed.

(** The parts of the store the loop does not touch. *)
Definition same_rest (st st' : Store) : Prop :=
  kv_params st' = kv_params st ∧ kv_escrow st' = kv_escrow st ∧
  kv_pay_hash st' = kv_pay_hash st ∧ kv_pay_time st' = kv_pay_time st ∧ kv_floor st' = kv_floor st.

Definition st_ledger (s : bytes) (d : Z) (st : Store) : Prop :=
  ledger_inv s d (kv_escrow st) (kv_wd_signer st) (kv_wd_avail st).

(** After the loop the scanned keys hold what consumption leaves of them. *)
Definition scan_replaced (wds wds' : gmap bytes Withdrawal) (l l' : list (bytes * Withdrawal)) : Prop :=
  ∀ k w, wds' !! k = Some w ↔ ((k, w) ∈ l' ∨ ((k ∉ l.*1) ∧ wds !! k = Some w)).

Lemma scan_replaced_id wds l :
  NoDup l.*1 → (∀ k w, (k, w) ∈ l → wds !! k = Some w) → scan_replaced wds wds l l.
Proof.
  intros Hn Hl k w. split.
  - intros Hk. destruct (decide (k ∈ l.*1)) as [Hin|]; [left|by right].
    apply list_elem_of_fmap in Hin as ([k' w'] & -> & Hin). cbn in *.
    apply Hl in Hin as Hk'. congruence.
  - intros [Hin|[_ Hk]]; auto.
Qed.

(** One consumed entry. *)
Lemma scan_replaced_cons wds wds' k w l l' :
  NoDup (k :: l.*1) → scan_replaced (delete k wds) wds' l l' → (∀ v, (k, v) ∉ l') →
  scan_replaced wds wds' ((k, w) :: l) l'.
Proof.
  intros [Hk Hn]%NoDup_cons Hs Hl' k' w'. rewrite (Hs k' w'). cbn.
  rewrite not_elem_of_cons, lookup_delete_Some. naive_solver.
Qed.

Lemma fifo_entries_not_key rem k l v : k ∉ l.*1 → (k, v) ∉ fifo_entries rem l.
Proof.
  intros Hk Hin. apply Hk. destruct (fifo_entries_keys l rem) as [l0 ->].
  apply elem_of_app. right. apply list_elem_of_fmap. by exists (k, v).
Qed.

(** The amounts of stored withdrawals are positive. *)
Lemma total_stored_nonneg s d st l : st_ledger s d st →
  (∀ k w, (k, w) ∈ l → kv_wd_signer st !! k = Some w ∧ wd_Signer w = s) → 0 <= total l.*2.
Proof.
  intros Hled Hst. unfold total. apply zsum_nonneg, Forall_forall. intros z Hz.
  apply list_elem_of_In, in_map_iff in Hz as (w' & <- & Hw').
  apply list_elem_of_In, list_elem_of_fmap in Hw' as ([k' w''] & -> & Hin).
  destruct (Hst k' w'') as [Hk' _]; [done|].
  apply (li_wd _ _ _ _ _ Hled) in Hk' as [_ (_&_&?)]. cbn. lia.
Qed.

(** A partly consumed withdrawal at the head of the scan. *)
Lemma scan_replaced_resize s st w c l :
  stored_entries s (kv_wd_signer st) ((wd_primary_key w, w) :: l) →
  let w' := with_amount w c in
  scan_replaced (kv_wd_signer st) (kv_wd_signer (SetWithdrawal st w')) ((wd_primary_key w, w) :: l)
    ((wd_primary_key w, w') :: l).
Proof.
  intros [Hn Hst] w' k' v. apply NoDup_cons in Hn as [Hnk Hn'].
  cbn [kv_wd_signer SetWithdrawal fmap list_fmap fst].
  change (wd_primary_key w') with (wd_primary_key w).
  rewrite elem_of_cons, lookup_insert_Some, not_elem_of_cons. split.
  - intros [[<- <-]|[Hne Hv]]; [by left; left|].
    destruct (decide (k' ∈ l.*1)) as [Hin|]; [left; right|by right].
    apply list_elem_of_fmap in Hin as ([k2 w2] & -> & Hin). cbn in *.
    destruct (Hst k2 w2) as [Hk2 _]; [by right|]. congruence.
  - intros [[[= -> ->]|Hin]|[[Hne Hni] Hv]]; [by left| |by right].
    destruct (Hst k' v) as [Hk' _]; [by right|]. right. split; [|done].
    intros <-. apply Hnk. apply list_elem_of_fmap. by exists (wd_primary_key w, v).
Qed.

Lemma reduce_loop_spec s a l : ∀ st rem,
  st_ledger s (Amount rem) st → stored_entries s (kv_wd_signer st) l →
  kv_escrow st !! EscrowAccountKey s = Some a → Denom rem = Denom (ea_Balance a) →
  0 <= Amount rem →
  ∃ st' rem', reduce_loop l st rem = Ok (st', rem') ∧
    st_ledger s (Amount rem') st' ∧ same_rest st st' ∧
    Amount rem' = Z.max 0 (Amount rem - total l.*2) ∧
    scan_replaced (kv_wd_signer st) (kv_wd_signer st') l (fifo_entries (Amount rem) l).
Proof.
  induction l as [|[k w] l IH]; intros st rem Hled [Hn Hst] Hesc Hden Hpos.
  { exists st, rem. cbn. split_and!; try done; [unfold total; cbn; lia|].
    intros k w. set_solver. }
  cbn [reduce_loop fifo_entries]. rewrite coin_IsPositive_spec.
  destruct (Hst k w) as [Hk Hs]; [by left|].
  pose proof (li_wd _ _ _ _ _ Hled _ _ Hk) as [-> Hok].
  pose proof (li_wd_escrow _ _ _ _ _ Hled _ _ Hk) as (a' & Ha' & Hwd).
  rewrite Hs, Hesc in Ha'. injection Ha' as <-.
  pose proof (total_stored_nonneg s _ st l Hled (λ k' w' Hin, Hst k' w' (list_elem_of_further _ _ _ Hin))) as Htot.
  destruct Hok as (_ & _ & Hwpos).
  assert (total ((wd_primary_key w, w) :: l).*2 = Amount (wd_Amount w) + total l.*2) as Htc by done.
  destruct (Z.ltb_spec 0 (Amount rem)) as [Hr|Hr]; cbn [negb].
  2: { destruct (Z.leb_spec (Amount rem) 0); [|lia].
       exists st, rem. split_and!; try done; [lia|].
       apply scan_replaced_id; [done|]. intros k' w' Hin. by apply Hst. }
  destruct (Z.leb_spec (Amount rem) 0); [lia|].
  rewrite coin_IsGTE_total by congruence. cbn [mbind result_bind].
  destruct (Z.leb_spec (Amount (wd_Amount w)) (Amount rem)) as [Hle|Hgt].
  - rewrite coin_Sub_total by (congruence || lia). cbn [mbind result_bind].
    destruct (IH (DeleteWithdrawal st w) (mkCoin (Denom rem) (Amount rem - Amount (wd_Amount w))))
      as (st' & rem' & Hrun & Hled' & Hrest & Hrem & Hscan);
      try (cbn; done); try (cbn; lia).
    + by apply ledger_delete_withdrawal.
    + eapply stored_entries_frame; [by split|]. intros k' Hne. cbn. by rewrite lookup_delete_ne.
    + exists st', rem'. split_and!; try done; [rewrite Htc; cbn [Amount] in Hrem; lia|].
      apply NoDup_cons in Hn as [Hnk Hn'].
      apply scan_replaced_cons; [by apply NoDup_cons| |].
      * exact Hscan.
      * intros v. by apply fifo_entries_not_key.
  - rewrite coin_Sub_total by (congruence || lia). cbn [mbind result_bind].
    set (w' := with_amount w _).
    assert (reduce_loop l (SetWithdrawal st w') (mkCoin (Denom rem) 0)
            = Ok (SetWithdrawal st w', mkCoin (Denom rem) 0)) as ->.
    { destruct l as [|[k2 w2] l2]; cbn [reduce_loop]; [done|].
      rewrite coin_IsPositive_spec. done. }
    exists (SetWithdrawal st w'), (mkCoin (Denom rem) 0). split_and!; cbn [Amount]; try done; [|rewrite Htc; lia|].
    + pose proof (ledger_resize_withdrawal s (Amount rem) _ _ _ w
        (mkCoin (Denom (wd_Amount w)) (Amount (wd_Amount w) - Amount rem)) Hled Hs Hk) as Hres.
      cbn in Hres. replace (Amount rem - Amount (wd_Amount w) + (Amount (wd_Amount w) - Amount rem))
        with 0 in Hres by lia. apply Hres; [lia|done].
    + by apply (scan_replaced_resize s).
Qed.

(** ** The scan of one signer's withdrawals *)

Definition wd_scan (s : bytes) (wds : gmap bytes Withdrawal) : list (bytes * Withdrawal) :=
  prefix_iter (WithdrawalsBySignerPrefix s) wds.

Lemma wd_signer_length s d esc wds wda k w :
  ledger_inv s d esc wds wda → wds !! k = Some w → length (wd_Signer w) = signer_len.
Proof.
  intros [He _ Hwe _ _] Hk. apply Hwe in Hk as (a & Ha & _).
  apply He in Ha as (Heq & Hl & _). by apply EscrowAccountKey_inj in Heq as ->.
Qed.

Lemma elem_of_wd_scan s d s' esc wds wda k w :
  ledger_inv s d esc wds wda → length s' = signer_len →
  (k, w) ∈ wd_scan s' wds ↔ wds !! k = Some w ∧ wd_Signer w = s'.
Proof.
  intros Hinv Hlen. unfold wd_scan. rewrite elem_of_prefix_iter.
  split; intros [Hk Hp]; (split; [done|]);
    destruct (li_wd _ _ _ _ _ Hinv _ _ Hk) as [-> _];
    pose proof (wd_signer_length _ _ _ _ _ _ _ Hinv Hk) as Hl; unfold wd_primary_key in *.
  - apply WithdrawalsBySignerPrefix_exact in Hp; congruence.
  - apply WithdrawalsBySignerPrefix_exact; congruence.
Qed.

Lemma stored_entries_scan s d s' esc wds wda :
  ledger_inv s d esc wds wda → length s' = signer_len → stored_entries s' wds (wd_scan s' wds).
Proof.
  intros Hinv Hlen. split; [apply NoDup_fst_prefix_iter|].
  intros k w Hin. by apply (elem_of_wd_scan s d s' esc wds wda) in Hin.
Qed.

Lemma total_scan s d s' esc wds wda :
  ledger_inv s d esc wds wda → length s' = signer_len →
  total (wd_scan s' wds).*2 = locked wds s'.
Proof.
  intros Hinv Hlen. unfold total, locked. rewrite msum_sorted_entries. unfold wd_scan, prefix_iter.
  apply zsum_filter.
  - intros [k w] Hin Hp. cbn. unfold amount_of. rewrite decide_True; [done|].
    apply elem_of_sorted_entries in Hin.
    apply (elem_of_wd_scan s d s' esc wds wda k w); [done..|]. by apply elem_of_prefix_iter.
  - intros [k w] Hin Hp. cbn. unfold amount_of. rewrite decide_False; [done|]. intros Hs.
    apply elem_of_sorted_entries in Hin. apply Hp.
    eapply elem_of_prefix_iter. apply (elem_of_wd_scan s d s' esc wds wda k w); done.
Qed.

(** The scan after the loop is what consumption leaves, for [s]. *)
Lemma wd_scan_consumed s wds wds' rem :
  scan_replaced wds wds' (wd_scan s wds) (fifo_entries rem (wd_scan s wds)) →
  wd_scan s wds' = fifo_entries rem (wd_scan s wds).
Proof.
  intros Hrep. symmetry.
  destruct (fifo_entries_keys (wd_scan s wds) rem) as [l0 Hsuf].
  apply prefix_iter_unique.
  - apply Sorted_entries_keys. eapply StronglySorted_suffix; [by exists l0|].
    apply Sorted_entries_keys, Sorted_prefix_iter.
  - pose proof (NoDup_fst_prefix_iter (WithdrawalsBySignerPrefix s) wds) as Hn.
    fold (wd_scan s wds) in Hn. rewrite Hsuf in Hn. by apply NoDup_app in Hn as (_ & _ & ?).
  - intros k w. split.
    + intros Hin. split; [apply Hrep; by left|].
      apply fifo_entries_from in Hin as (w0 & Hin & _). by apply elem_of_prefix_iter in Hin as [_ ?].
    + intros [Hk Hp]. apply Hrep in Hk as Hk2. destruct Hk2 as [|[Hni Hk0]]; [done|].
      exfalso. apply Hni. apply list_elem_of_fmap. exists (k, w). split; [done|].
      by apply elem_of_prefix_iter.
Qed.

(** Other signers keep their withdrawals. *)
Lemma wd_scan_other s d esc wds wda s' rem wds' :
  ledger_inv s d esc wds wda → length s' = signer_len → length s = signer_len → s' ≠ s →
  scan_replaced wds wds' (wd_scan s wds) (fifo_entries rem (wd_scan s wds)) →
  wd_scan s' wds' = wd_scan s' wds.
Proof.
  intros Hinv Hl' Hl Hne Hrep. symmetry.
  apply prefix_iter_unique; [apply Sorted_prefix_iter|apply NoDup_fst_prefix_iter|].
  intros k w. unfold wd_scan. rewrite elem_of_prefix_iter.
  split; intros [Hk Hp]; (split; [|done]).
  - apply Hrep. right. split; [|done]. intros Hin.
    apply list_elem_of_fmap in Hin as ([k2 w2] & -> & Hin2). cbn in *.
    apply (elem_of_wd_scan s d s esc wds wda) in Hin2 as [Hk2 Hs2]; [|done..].
    assert ((k2, w) ∈ wd_scan s' wds) as Hin by by apply elem_of_prefix_iter.
    apply (elem_of_wd_scan s d s' esc wds wda) in Hin as [_ ?]; congruence.
  - apply Hrep in Hk as [Hin|[_ ?]]; [|done].
    apply fifo_entries_from in Hin as (w0 & Hin & _).
    apply (elem_of_wd_scan s d s esc wds wda) in Hin as [Hk0 Hs0]; [|done..].
    assert ((k, w0) ∈ wd_scan s' wds) as Hin by by apply elem_of_prefix_iter.
    apply (elem_of_wd_scan s d s' esc wds wda) in Hin as [_ ?]; congruence.
Qed.

(** The reduction succeeds when the locked funds cover the shortfall; it
    consumes the signer's withdrawals oldest first and pays off the debt. *)
Lemma ReduceWithdrawals_spec s a st c :
  st_ledger s (Amount c) st → kv_escrow st !! EscrowAccountKey s = Some a →
  Denom c = Denom (ea_Balance a) → 0 <= Amount c <= locked (kv_wd_signer st) s →
  ∃ st', ReduceWithdrawalsForPayment st s c = Ok st' ∧ st_ledger s 0 st' ∧ same_rest st st' ∧
    GetWithdrawalsBySigner st' s = fifo_consume (Amount c) (GetWithdrawalsBySigner st s) ∧
    (∀ s', length s' = signer_len → s' ≠ s →
      GetWithdrawalsBySigner st' s' = GetWithdrawalsBySigner st s').
Proof.
  intros Hled Hesc Hden [Hc Hcov].
  assert (length s = signer_len) as Hlen.
  { apply (li_escrow _ _ _ _ _ Hled) in Hesc as (Heq & Hl & _).
    by apply EscrowAccountKey_inj in Heq as ->. }
  destruct (reduce_loop_spec s a (wd_scan s (kv_wd_signer st)) st c)
    as (st' & rem' & Hrun & Hled' & Hrest & Hrem & Hscan); try done.
  { by eapply stored_entries_scan. }
  rewrite (total_scan _ _ _ _ _ _ Hled Hlen) in Hrem.
  assert (Amount rem' = 0) as Hz by lia. rewrite Hz in Hled'.
  exists st'. unfold ReduceWithdrawalsForPayment. fold (wd_scan s (kv_wd_signer st)).
  rewrite Hrun. cbn [mbind result_bind]. rewrite coin_IsPositive_spec, Hz.
  split_and!; try done; unfold GetWithdrawalsBySigner.
  - rewrite <- fifo_entries_snd. f_equal. by apply wd_scan_consumed.
  - intros s' Hl' Hne. f_equal. by eapply wd_scan_other.
Qed.
End Ledger.
