(* ===== verification/FibreMsgServer.v ===== *)
(** * x/fibre: message handlers and block processing

    [x/fibre/keeper/msg_server.go] and [x/fibre/keeper/abci.go] over the
    module's store, the bank and the emitted events. *)

From S2P Require Import Prelude Sdk FibreParams FibreKeys FibrePromise FibreKeeper.
#[local] Open Scope Z_scope.

(** [x/fibre/types/events.go]. *)
Inductive Event :=
| EventDepositToEscrow (signer : bytes) (amount : Coin)
| EventWithdrawFromEscrowRequest (signer : bytes) (amount : Coin) (requestedAt availableAt : Z)
| EventWithdrawFromEscrowExecuted (signer : bytes) (amount : Coin)
| EventPayForFibre (signer namespace commitment : bytes) (validatorCount : Z)
| EventPaymentPromiseTimeout (processor escrowSigner paymentPromiseHash : bytes)
| EventUpdateFibreParams (authority : bytes) (params : Params)
| EventProcessedPaymentPruned (paymentPromiseHash : bytes) (processedAt : Z).

(** [authtypes.FeeCollectorName]. *)
Definition FeeCollectorName : string := "fee_collector".

Section MsgServer.
Context `{TF : TimeFormat} `{CO : CoinOps} `{AC : AddressCodec} `{BK : BankKeeper} `{CR : Crypto}.
Context `{EV : TypedEvents Event}.

(** The state a handler runs on. *)
Record World := mkWorld {
  w_store : Store;
  w_bank : bank;
  w_events : list Event;
}.

Definition with_store (w : World) (st : Store) : World := mkWorld st (w_bank w) (w_events w).
Definition with_bank (w : World) (bk : bank) : World := mkWorld (w_store w) bk (w_events w).

Definition EmitTypedEvent (w : World) (e : Event) : result World :=
  match TypedEventError e with
  | Some err => Err err
  | None => Ok (mkWorld (w_store w) (w_bank w) (w_events w ++ [e]))
  end.

(** Emit and only log a failure. *)
Definition emit_or_log (w : World) (e : Event) : World :=
  match EmitTypedEvent w e with Ok w' => w' | _ => w end.

(** ** Escrow deposits and withdrawal requests *)

Definition DepositToEscrow (ctx : Context) (w : World) (msg : MsgDepositToEscrow) : result World :=
  signerAddr ← of_option "ErrInvalidAddress" (AccAddressFromBech32 (dep_Signer msg));
  let escrowAccount :=
    match GetEscrowAccount (w_store w) (dep_Signer msg) with
    | Some a => a
    | None => mkEscrowAccount (dep_Signer msg) (mkCoin (Denom (dep_Amount msg)) 0)
                (mkCoin (Denom (dep_Amount msg)) 0)
    end in
  bk ← SendCoinsFromAccountToModule (w_bank w) signerAddr ModuleName (dep_Amount msg);
  balance ← coin_Add (ea_Balance escrowAccount) (dep_Amount msg);
  available ← coin_Add (ea_AvailableBalance escrowAccount) (dep_Amount msg);
  let escrowAccount := mkEscrowAccount (ea_Signer escrowAccount) balance available in
  let w' := with_store (with_bank w bk) (SetEscrowAccount (w_store w) escrowAccount) in
  EmitTypedEvent w' (EventDepositToEscrow (dep_Signer msg) (dep_Amount msg)).

Definition RequestWithdrawal (ctx : Context) (w : World) (msg : MsgRequestWithdrawal) : result World :=
  let st := w_store w in
  escrowAccount ← of_option "ErrNotFound" (GetEscrowAccount st (wdr_Signer msg));
  lt ← coin_IsLT (ea_AvailableBalance escrowAccount) (wdr_Amount msg);
  _ ← ensure (negb lt) "ErrInsufficientFunds";
  let params := GetParams st in
  let requestedTimestamp := ctx_BlockTime ctx in
  _ ← ensure (bool_decide (GetWithdrawal st (wdr_Signer msg) requestedTimestamp = None))
        "withdrawal request already exists";
  let availableTimestamp := requestedTimestamp + WithdrawalDelay params in
  let withdrawal := mkWithdrawal (wdr_Signer msg) (wdr_Amount msg) requestedTimestamp availableTimestamp in
  available ← coin_Sub (ea_AvailableBalance escrowAccount) (wdr_Amount msg);
  let escrowAccount := mkEscrowAccount (ea_Signer escrowAccount) (ea_Balance escrowAccount) available in
  let st := SetWithdrawal (SetEscrowAccount st escrowAccount) withdrawal in
  EmitTypedEvent (with_store w st)
    (EventWithdrawFromEscrowRequest (wdr_Signer msg) (wdr_Amount msg) requestedTimestamp availableTimestamp).

(** ** Settling payment promises *)

Definition calculatePaymentAmount (blobSize : Z) : Coin := PaymentAmount blobSize.

Definition deductPaymentFromEscrow (w : World) (escrowAccount : EscrowAccount) (paymentAmount : Coin)
    : result World :=
  lt ← coin_IsLT (ea_Balance escrowAccount) paymentAmount;
  _ ← ensure (negb lt) "ErrInsufficientFunds";
  availableLT ← coin_IsLT (ea_AvailableBalance escrowAccount) paymentAmount;
  let availableDeduction := if (availableLT : bool) then ea_AvailableBalance escrowAccount else paymentAmount in
  balance ← coin_Sub (ea_Balance escrowAccount) paymentAmount;
  available ← coin_Sub (ea_AvailableBalance escrowAccount) availableDeduction;
  let escrowAccount := mkEscrowAccount (ea_Signer escrowAccount) balance available in
  let st := SetEscrowAccount (w_store w) escrowAccount in
  shortfall ← coin_Sub paymentAmount availableDeduction;
  st ← (if coin_IsPositive shortfall
        then ReduceWithdrawalsForPayment st (ea_Signer escrowAccount) shortfall
        else Ok st);
  bk ← SendCoinsFromModuleToModule (w_bank w) ModuleName FeeCollectorName paymentAmount;
  Ok (with_store (with_bank w bk) st).

Definition PayForFibre (ctx : Context) (w : World) (msg : MsgPayForFibre) : result World :=
  let promise := pff_PaymentPromise msg in
  pp ← FromProto (Some promise);
  _ ← Validate pp;
  _ ← ValidatePaymentPromiseStateful ctx (w_store w) promise;
  promiseHash ← Hash pp;
  signerAddr ← promise_signer promise;
  escrowAccount ← of_option "ErrNotFound" (GetEscrowAccount (w_store w) signerAddr);
  let paymentAmount := calculatePaymentAmount (pb_BlobSize promise) in
  w' ← deductPaymentFromEscrow w escrowAccount paymentAmount;
  let processedPayment := mkProcessedPayment promiseHash (ctx_BlockTime ctx) in
  let w'' := with_store w' (SetProcessedPayment (w_store w') processedPayment) in
  EmitTypedEvent w'' (EventPayForFibre signerAddr (pb_Namespace promise) (pb_Commitment promise)
                        (wrap_u32 (Z.of_nat (length (pff_ValidatorSignatures msg))))).

Definition PaymentPromiseTimeout_handler (ctx : Context) (w : World) (msg : MsgPaymentPromiseTimeout)
    : result World :=
  let promise := ppt_PaymentPromise msg in
  pp ← FromProto (Some promise);
  _ ← Validate pp;
  expirationTime ← ValidatePaymentPromiseStatefulForTimeout ctx (w_store w) promise;
  let currentTime := ctx_BlockTime ctx in
  _ ← ensure (negb (time_Before currentTime expirationTime)) "payment promise has not yet timed out";
  let paymentAmount := calculatePaymentAmount (pb_BlobSize promise) in
  promiseHash ← Hash pp;
  escrowSigner ← promise_signer promise;
  escrowAccount ← of_option "ErrNotFound" (GetEscrowAccount (w_store w) escrowSigner);
  w' ← deductPaymentFromEscrow w escrowAccount paymentAmount;
  let processedPayment := mkProcessedPayment promiseHash (ctx_BlockTime ctx) in
  let w'' := with_store w' (SetProcessedPayment (w_store w') processedPayment) in
  EmitTypedEvent w'' (EventPaymentPromiseTimeout (ppt_Signer msg) escrowSigner promiseHash).

Definition UpdateFibreParams (authority : bytes) (w : World) (msg : MsgUpdateFibreParams) : result World :=
  _ ← ensure (bool_decide (upd_Authority msg = authority)) "ErrUnauthorized";
  _ ← Params_Validate (upd_Params msg);
  let w' := with_store w (SetParams (w_store w) (upd_Params msg)) in
  EmitTypedEvent w' (EventUpdateFibreParams (upd_Authority msg) (upd_Params msg)).

(** ** Begin-block processing *)

Definition updatePromiseFreshnessFloor (ctx : Context) (w : World) : result World :=
  let candidate := ctx_BlockTime ctx - WithdrawalDelay (GetParams (w_store w)) in
  current ← GetPromiseFreshnessFloor (w_store w);
  Ok (if time_After candidate current
      then with_store w (SetPromiseFreshnessFloor (w_store w) candidate) else w).

(** The loop of [processAvailableWithdrawals]; a case that returns the rest of
    the loop on the unchanged state is the code's [continue]. *)
Fixpoint process_withdrawals_loop (currentTime : Z) (l : list (bytes * Withdrawal)) (w : World)
    : result World :=
  match l with
  | [] => Ok w
  | (key, withdrawal) :: l' =>
      match ParseWithdrawalsByAvailableKey key with
      | Panic p => Panic p
      | Err _ => process_withdrawals_loop currentTime l' w
      | Ok (availableTime, _, signer) =>
          if time_After availableTime currentTime then Ok w else
          let amount := wd_Amount withdrawal in
          match AccAddressFromBech32 signer with
          | None => process_withdrawals_loop currentTime l' w
          | Some signerAddr =>
              match GetEscrowAccount (w_store w) signer with
              | None => process_withdrawals_loop currentTime l' w
              | Some escrowAccount =>
                  lt ← coin_IsLT (ea_Balance escrowAccount) amount;
                  if (lt : bool) then process_withdrawals_loop currentTime l' w else
                  match SendCoinsFromModuleToAccount (w_bank w) ModuleName signerAddr amount with
                  | Panic p => Panic p
                  | Err _ => process_withdrawals_loop currentTime l' w
                  | Ok bk =>
                      balance ← coin_Sub (ea_Balance escrowAccount) amount;
                      let escrowAccount := mkEscrowAccount (ea_Signer escrowAccount) balance
                                             (ea_AvailableBalance escrowAccount) in
                      let st := DeleteWithdrawal (SetEscrowAccount (w_store w) escrowAccount) withdrawal in
                      let w' := with_store (with_bank w bk) st in
                      process_withdrawals_loop currentTime l'
                        (emit_or_log w' (EventWithdrawFromEscrowExecuted signer amount))
                  end
              end
          end
      end
  end.

Definition processAvailableWithdrawals (ctx : Context) (w : World) : result World :=
  let currentTime := ctx_BlockTime ctx in
  process_withdrawals_loop currentTime (GetWithdrawalsByAvailableIterator (w_store w) currentTime) w.

Fixpoint prune_loop (cutoffTime : Z) (l : list (bytes * ProcessedPayment)) (w : World) : result World :=
  match l with
  | [] => Ok w
  | (key, processedPayment) :: l' =>
      match ParseProcessedPaymentsByTimeKey key with
      | Panic p => Panic p
      | Err _ => prune_loop cutoffTime l' w
      | Ok (processedAt, paymentPromiseHash) =>
          if time_After processedAt cutoffTime then Ok w else
          let w' := with_store w (DeleteProcessedPayment (w_store w) processedPayment) in
          prune_loop cutoffTime l'
            (emit_or_log w' (EventProcessedPaymentPruned paymentPromiseHash processedAt))
      end
  end.

Definition pruneProcessedPayments (ctx : Context) (w : World) : result World :=
  let currentTime := ctx_BlockTime ctx in
  let params := GetParams (w_store w) in
  let cutoffTime := currentTime - PaymentPromiseRetentionWindow params in
  prune_loop cutoffTime (GetProcessedPaymentsByTimeIterator (w_store w) cutoffTime) w.

Definition BeginBlocker (ctx : Context) (w : World) : result World :=
  w ← updatePromiseFreshnessFloor ctx w;
  w ← processAvailableWithdrawals ctx w;
  pruneProcessedPayments ctx w.
End MsgServer.
