(* ===== verification/FibreInvariant.v ===== *)
(** * x/fibre: the module invariant

    The consistency of the module's store and its solvency against the bank,
    and how every message handler and the begin-block processing preserve
    them. *)

From S2P Require Import Prelude Sdk FibreParams FibreKeys FibrePromise FibreKeeper FibreLedger FibreMsgServer.
#[local] Open Scope Z_scope.

(** Block times for which every instant the module computes (up to the
    longest delay before and after it) can be written as a store key. *)
Definition block_time_ok (t : Z) : Prop :=
  MaxWithdrawalDelay + MaxPromiseClockSkew <= t ∧ t + MaxWithdrawalDelay < time_limit.

Section Invariant.
Context `{TF : TimeFormat} `{TFL : !TimeFormatLaws}.
Context `{CO : CoinOps} `{CL : !CoinLaws} `{AC : AddressCodec}.
Context `{BK : BankKeeper} `{BL : !BankLaws} `{CR : Crypto} `{CRL : !CryptoLaws}.
Context `{EV : TypedEvents Event}.
Context (signer_len : nat).

Notation st_ledger := (st_ledger signer_len).
Notation ledger_inv := (ledger_inv signer_len).

(** ** The store invariant *)

Record pay_inv (ph pt : gmap bytes ProcessedPayment) : Prop := {
  pi_hash : ∀ k p, ph !! k = Some p →
    k = pay_primary_key p ∧ time_ok (pay_ProcessedAt p) ∧ pt !! pay_secondary_key p = Some p;
  pi_time : ∀ k p, pt !! k = Some p →
    k = pay_secondary_key p ∧ ph !! pay_primary_key p = Some p;
}.

Record store_inv (st : Store) : Prop := {
  si_params : params_ok (GetParams st);
  si_ledger : ∀ s, st_ledger s 0 st;
  si_pay : pay_inv (kv_pay_hash st) (kv_pay_time st);
  si_floor : ∃ f, GetPromiseFreshnessFloor st = Ok f ∧ time_ok f;
}.

(** ** Solvency *)

Definition balance_in (d : string) (a : EscrowAccount) : Z :=
  if decide (Denom (ea_Balance a) = d) then Amount (ea_Balance a) else 0.

(** What the module owes to all escrow accounts in a denomination. *)
Definition escrow_total (esc : gmap bytes EscrowAccount) (d : string) : Z := msum (balance_in d) esc.

Definition solvent (st : Store) (bk : bank) : Prop :=
  ∀ d, escrow_total (kv_escrow st) d <= GetBalance bk (GetModuleAddress ModuleName) d.

Definition world_inv (w : World) : Prop := store_inv (w_store w) ∧ solvent (w_store w) (w_bank w).

(** ** Facts about accounts of a consistent store *)

Lemma escrow_facts st s a : store_inv st → GetEscrowAccount st s = Some a →
  ea_Signer a = s ∧ length s = signer_len ∧ Denom (ea_AvailableBalance a) = Denom (ea_Balance a) ∧
  0 <= Amount (ea_AvailableBalance a) ∧ 0 <= locked (kv_wd_signer st) s ∧
  Amount (ea_Balance a) = Amount (ea_AvailableBalance a) + locked (kv_wd_signer st) s.
Proof.
  intros Hinv Ha. pose proof (si_ledger _ Hinv s) as Hl.
  destruct (li_escrow _ _ _ _ _ _ Hl _ _ Ha) as (Hk & Hlen & Hd & Hp & Heq).
  apply EscrowAccountKey_inj in Hk as ->. split_and!; try done.
  - apply locked_nonneg. intros k w Hk. by apply (li_wd _ _ _ _ _ _ Hl) in Hk as [_ ?].
  - rewrite <- Heq. case_decide; lia.
Qed.

Lemma escrow_total_set st a a' d :
  GetEscrowAccount st (ea_Signer a') = Some a → Denom (ea_Balance a') = Denom (ea_Balance a) →
  escrow_total (kv_escrow (SetEscrowAccount st a')) d =
  escrow_total (kv_escrow st) d
  + (if decide (Denom (ea_Balance a) = d) then Amount (ea_Balance a') - Amount (ea_Balance a) else 0).
Proof.
  intros Ha Hd. unfold escrow_total. cbn [kv_escrow SetEscrowAccount].
  rewrite (msum_update _ _ _ a) by done. unfold balance_in. rewrite Hd. case_decide; lia.
Qed.

Lemma escrow_total_new st a' d :
  GetEscrowAccount st (ea_Signer a') = None →
  escrow_total (kv_escrow (SetEscrowAccount st a')) d =
  escrow_total (kv_escrow st) d
  + (if decide (Denom (ea_Balance a') = d) then Amount (ea_Balance a') else 0).
Proof.
  intros Ha. unfold escrow_total. cbn [kv_escrow SetEscrowAccount].
  rewrite msum_insert by done. unfold balance_in. case_decide; lia.
Qed.

Lemma EmitTypedEvent_Ok w e w' : EmitTypedEvent w e = Ok w' →
  w_store w' = w_store w ∧ w_bank w' = w_bank w ∧ w_events w' = w_events w ++ [e].
Proof. unfold EmitTypedEvent. destruct (TypedEventError e); [discriminate|]. intros H. inv_ok. by subst. Qed.

Lemma emit_or_log_inv w e :
  w_store (emit_or_log w e) = w_store w ∧ w_bank (emit_or_log w e) = w_bank w.
Proof. unfold emit_or_log, EmitTypedEvent. by destruct (TypedEventError e). Qed.

(** The part of the store that escrow operations leave alone. *)
Definition same_promises (st st' : Store) : Prop :=
  kv_params st' = kv_params st ∧ kv_pay_hash st' = kv_pay_hash st ∧
  kv_pay_time st' = kv_pay_time st ∧ kv_floor st' = kv_floor st.

#[global] Instance same_promises_preorder : PreOrder same_promises.
Proof.
  split; unfold same_promises; [done|].
  intros st1 st2 st3 (?&?&?&?) (?&?&?&?). split_and!; congruence.
Qed.

(** Replacing the ledger part of a consistent store. *)
Lemma store_inv_ledger st st' s :
  store_inv st → st_ledger s 0 st' → same_promises st st' → store_inv st'.
Proof.
  intros [Hp _ Hpay Hf] Hl (Ep & Eh & Et & Ef). constructor.
  - unfold GetParams. by rewrite Ep.
  - intros s'. by eapply ledger_inv_zero.
  - by rewrite Eh, Et.
  - unfold GetPromiseFreshnessFloor. by rewrite Ef.
Qed.

(** Overwriting the account of [s] in a consistent store. *)
Lemma st_ledger_set_escrow st s a a' :
  store_inv st → GetEscrowAccount st s = Some a → ea_Signer a' = s →
  Denom (ea_Balance a') = Denom (ea_Balance a) →
  Denom (ea_AvailableBalance a') = Denom (ea_Balance a) →
  0 <= Amount (ea_AvailableBalance a') →
  st_ledger s (Amount (ea_AvailableBalance a') - Amount (ea_AvailableBalance a)
               - (Amount (ea_Balance a') - Amount (ea_Balance a)))
    (SetEscrowAccount st a').
Proof.
  intros Hinv Ha Hs Hd1 Hd2 Hpos. unfold FibreLedger.st_ledger. cbn. rewrite Hs.
  pose proof (ledger_set_escrow signer_len s 0 _ _ _ a a' (si_ledger _ Hinv s) Ha Hs Hd1 Hd2 Hpos) as H.
  by rewrite Z.add_0_r in H.
Qed.

(** ** Deposits *)

(** The account a deposit starts from. *)
Definition deposit_base (st : Store) (msg : MsgDepositToEscrow) : EscrowAccount :=
  default (mkEscrowAccount (dep_Signer msg) (mkCoin (Denom (dep_Amount msg)) 0)
             (mkCoin (Denom (dep_Amount msg)) 0)) (GetEscrowAccount st (dep_Signer msg)).

Definition credit (c : Coin) (n : Z) : Coin := mkCoin (Denom c) (Amount c + n).

Lemma DepositToEscrow_Ok ctx w msg w' : DepositToEscrow ctx w msg = Ok w' →
  let a := deposit_base (w_store w) msg in
  let n := Amount (dep_Amount msg) in
  ∃ signerAddr, AccAddressFromBech32 (dep_Signer msg) = Some signerAddr ∧
    Denom (ea_Balance a) = Denom (dep_Amount msg) ∧
    Denom (ea_AvailableBalance a) = Denom (dep_Amount msg) ∧
    w_store w' = SetEscrowAccount (w_store w)
      (mkEscrowAccount (ea_Signer a) (credit (ea_Balance a) n) (credit (ea_AvailableBalance a) n)) ∧
    transferred (w_bank w) signerAddr (GetModuleAddress ModuleName) (dep_Amount msg) (w_bank w') ∧
    w_events w' = w_events w ++ [EventDepositToEscrow (dep_Signer msg) (dep_Amount msg)].
Proof.
  unfold DepositToEscrow. intros H. inv_ok.
  apply EmitTypedEvent_Ok in H as (Hst & Hbk & Hev).
  apply send_account_to_module in Hr0. fold (deposit_base (w_store w) msg) in *.
  apply coin_Add_inv in Hr1 as [Hd1 ->]. apply coin_Add_inv in Hr2 as [Hd2 ->].
  exists r. cbn in Hst, Hbk, Hev. rewrite Hst, Hbk, Hev. done.
Qed.

Lemma deposit_total st msg d :
  let a := deposit_base st msg in
  Denom (ea_Balance a) = Denom (dep_Amount msg) → ea_Signer a = dep_Signer msg →
  escrow_total (kv_escrow (SetEscrowAccount st
    (mkEscrowAccount (ea_Signer a) (credit (ea_Balance a) (Amount (dep_Amount msg)))
       (credit (ea_AvailableBalance a) (Amount (dep_Amount msg)))))) d
  = escrow_total (kv_escrow st) d
    + (if decide (Denom (dep_Amount msg) = d) then Amount (dep_Amount msg) else 0).
Proof.
  intros a Hd Hs. subst a. unfold deposit_base in *.
  destruct (GetEscrowAccount st (dep_Signer msg)) as [b|] eqn:Hb; cbn [from_option id] in *.
  - rewrite (escrow_total_set _ b); [|by cbn; rewrite Hs|done]. cbn. rewrite Hd. case_decide; lia.
  - rewrite escrow_total_new by done. cbn. case_decide; lia.
Qed.

Lemma deposit_inv ctx w msg w' :
  world_inv w → MsgDepositToEscrow_ValidateBasic msg = Ok tt →
  length (dep_Signer msg) = signer_len →
  AccAddressFromBech32 (dep_Signer msg) ≠ Some (GetModuleAddress ModuleName) →
  DepositToEscrow ctx w msg = Ok w' →
  world_inv w' ∧ same_promises (w_store w) (w_store w').
Proof.
  intros [Hst Hsol] Hvb Hlen Hmod Hrun.
  unfold MsgDepositToEscrow_ValidateBasic in Hvb. inv_ok.
  rewrite coin_IsPositive_spec in Hvb. apply Z.ltb_lt in Hvb.
  apply DepositToEscrow_Ok in Hrun as (addr & Haddr & Hd1 & Hd2 & Hst' & Hbk & _).
  assert (ea_Signer (deposit_base (w_store w) msg) = dep_Signer msg) as Hs.
  { unfold deposit_base. destruct (GetEscrowAccount _ _) as [a|] eqn:Ha; [|done]. cbn.
    by eapply escrow_facts in Ha as (? & _). }
  assert (same_promises (w_store w) (w_store w')) as Hsame by (by rewrite Hst').
  split; [|done]. split.
  - eapply (store_inv_ledger _ _ (dep_Signer msg)); [done| |done]. rewrite Hst'.
    destruct (GetEscrowAccount (w_store w) (dep_Signer msg)) as [a|] eqn:Ha.
    + assert (deposit_base (w_store w) msg = a) as Eb by (unfold deposit_base; by rewrite Ha).
      rewrite Eb in *. destruct (escrow_facts _ _ _ Hst Ha) as (_ & _ & Hd & Hpos & _ & _).
      pose proof (st_ledger_set_escrow _ (dep_Signer msg) a
        (mkEscrowAccount (ea_Signer a) (credit (ea_Balance a) (Amount (dep_Amount msg)))
           (credit (ea_AvailableBalance a) (Amount (dep_Amount msg)))) Hst Ha) as Hl.
      cbn in Hl. replace (_ - _) with 0 in Hl by lia. apply Hl; [done..|lia].
    + unfold deposit_base in *. rewrite Ha in *. cbn [from_option id ea_Signer] in *.
      unfold FibreLedger.st_ledger. cbn [kv_escrow kv_wd_signer kv_wd_avail SetEscrowAccount ea_Signer].
      apply ledger_new_escrow; cbn; try done; [apply (si_ledger _ Hst)|lia].
  - intros d. rewrite Hst', deposit_total by done. rewrite (Hbk _ d). pose proof (Hsol d).
    assert (GetModuleAddress ModuleName ≠ addr) by congruence.
    repeat case_bool_decide; case_decide; lia || naive_solver.
Qed.

(** ** Withdrawal requests *)

Lemma RequestWithdrawal_Ok ctx w msg w' : RequestWithdrawal ctx w msg = Ok w' →
  let st := w_store w in
  let t := ctx_BlockTime ctx in
  let wd := mkWithdrawal (wdr_Signer msg) (wdr_Amount msg) t (t + WithdrawalDelay (GetParams st)) in
  ∃ a, GetEscrowAccount st (wdr_Signer msg) = Some a ∧
    Denom (ea_AvailableBalance a) = Denom (wdr_Amount msg) ∧
    Amount (wdr_Amount msg) <= Amount (ea_AvailableBalance a) ∧
    GetWithdrawal st (wdr_Signer msg) t = None ∧
    w_store w' = SetWithdrawal (SetEscrowAccount st
      (mkEscrowAccount (ea_Signer a) (ea_Balance a)
         (credit (ea_AvailableBalance a) (- Amount (wdr_Amount msg))))) wd ∧
    w_bank w' = w_bank w ∧
    w_events w' = w_events w ++
      [EventWithdrawFromEscrowRequest (wdr_Signer msg) (wdr_Amount msg) t (wd_AvailableTimestamp wd)].
Proof.
  unfold RequestWithdrawal. intros H. inv_ok.
  apply EmitTypedEvent_Ok in H as (Hst & Hbk & Hev).
  apply bool_decide_eq_true in Hr2. apply coin_Sub_inv in Hr3 as (Hd & Hle & ->).
  exists r. cbn in Hst, Hbk, Hev. rewrite Hst, Hbk, Hev. done.
Qed.

Lemma block_time_instants t p : block_time_ok t → params_ok p →
  time_ok t ∧ time_ok (t + WithdrawalDelay p) ∧ time_ok (t - WithdrawalDelay p) ∧
  time_ok (t - PaymentPromiseRetentionWindow p).
Proof.
  unfold block_time_ok, params_ok, time_ok, PaymentPromiseRetentionWindow, MinWithdrawalDelay,
    MaxPaymentPromiseTimeout, MinTimeoutSettlementWindow, MaxPromiseClockSkew, Hour, Minute, Second.
  lia.
Qed.

Lemma request_inv ctx w msg w' :
  world_inv w → block_time_ok (ctx_BlockTime ctx) →
  MsgRequestWithdrawal_ValidateBasic msg = Ok tt →
  RequestWithdrawal ctx w msg = Ok w' →
  world_inv w' ∧ same_promises (w_store w) (w_store w').
Proof.
  intros [Hst Hsol] Ht Hvb Hrun.
  unfold MsgRequestWithdrawal_ValidateBasic in Hvb. inv_ok.
  rewrite coin_IsPositive_spec in Hvb. apply Z.ltb_lt in Hvb.
  apply RequestWithdrawal_Ok in Hrun as (a & Ha & Hd & Hle & Hnone & Hst' & Hbk & _).
  destruct (escrow_facts _ _ _ Hst Ha) as (Hs & _ & Hda & Hpos & _ & _).
  assert (same_promises (w_store w) (w_store w')) as Hsame by (by rewrite Hst').
  destruct (block_time_instants _ _ Ht (si_params _ Hst)) as (Ht1 & Ht2 & _).
  split; [|done]. split.
  - eapply (store_inv_ledger _ _ (wdr_Signer msg)); [done| |done]. rewrite Hst'.
    set (a' := mkEscrowAccount _ _ _).
    pose proof (st_ledger_set_escrow _ (wdr_Signer msg) a a' Hst Ha Hs) as Hl.
    cbn in Hl. replace (_ - _) with (- Amount (wdr_Amount msg)) in Hl by lia.
    specialize (Hl eq_refl Hda ltac:(lia)). set (wd := mkWithdrawal _ _ _ _).
    replace 0 with (- Amount (wdr_Amount msg) + Amount (wd_Amount wd)) by (cbn; lia).
    apply (ledger_add_withdrawal _ _ _ _ _ _ wd a'); try done.
    + cbn. by rewrite Hs, lookup_insert_eq.
    + cbn. congruence.
  - intros d. rewrite Hst', Hbk. cbn [SetWithdrawal kv_escrow].
    rewrite (escrow_total_set _ a); [|by cbn; rewrite Hs|done]. cbn.
    pose proof (Hsol d). case_decide; lia.
Qed.

(** ** Payments *)

(** What a settled payment of [n] does to the account [a] of [s]: the total
    balance pays all of it, the available balance as much as it can, and the
    oldest pending withdrawals the rest. *)
Definition debit_account (s : bytes) (a : EscrowAccount) (n : Z) : EscrowAccount :=
  mkEscrowAccount s (credit (ea_Balance a) (- n))
    (credit (ea_AvailableBalance a) (- Z.min n (Amount (ea_AvailableBalance a)))).

Record payment_deducted (st st' : Store) (s : bytes) (a : EscrowAccount) (n : Z) : Prop := {
  pd_escrow : kv_escrow st' = <[EscrowAccountKey s := debit_account s a n]> (kv_escrow st);
  pd_fifo : GetWithdrawalsBySigner st' s =
    fifo_consume (n - Amount (ea_AvailableBalance a)) (GetWithdrawalsBySigner st s);
  pd_other_withdrawals : ∀ s', length s' = signer_len → s' ≠ s →
    GetWithdrawalsBySigner st' s' = GetWithdrawalsBySigner st s';
  pd_promises : same_promises st st';
}.

Lemma fifo_consume_nonpos n ws : n <= 0 → fifo_consume n ws = ws.
Proof. intros Hn. destruct ws; cbn; [done|]. by destruct (Z.leb_spec n 0); [|lia]. Qed.

(** The escrow side of a deduction, before the coins move. *)
Lemma deduct_escrow_spec st s a c :
  store_inv st → GetEscrowAccount st s = Some a → Denom c = Denom (ea_Balance a) →
  0 < Amount c <= Amount (ea_Balance a) →
  let st1 := SetEscrowAccount st (debit_account s a (Amount c)) in
  let shortfall := mkCoin (Denom c) (Amount c - Z.min (Amount c) (Amount (ea_AvailableBalance a))) in
  ∃ st', (if 0 <? Amount shortfall then ReduceWithdrawalsForPayment st1 s shortfall else Ok st1) = Ok st' ∧
    st_ledger s 0 st' ∧ payment_deducted st st' s a (Amount c).
Proof.
  intros Hinv Ha Hd [Hc Hle] st1 shortfall.
  destruct (escrow_facts _ _ _ Hinv Ha) as (Hs & Hlen & Hda & Hpos & Hlk & Hbal).
  assert (st_ledger s (Amount shortfall) st1) as Hled.
  { pose proof (st_ledger_set_escrow st s a (debit_account s a (Amount c)) Hinv Ha) as Hl.
    cbn in Hl. replace (_ - _) with (Amount shortfall) in Hl by (cbn; lia). apply Hl; done || lia. }
  assert (kv_escrow st1 !! EscrowAccountKey s = Some (debit_account s a (Amount c)))
    as Hesc1 by apply lookup_insert_eq.
  destruct (Z.ltb_spec 0 (Amount shortfall)) as [Hsf|Hsf]; cbn in Hsf.
  - destruct (ReduceWithdrawals_spec signer_len s _ st1 shortfall Hled Hesc1)
      as (st' & Hrun & Hled' & (Ep & Ee & Eh & Et & Ef) & Hfifo & Hoth'); [done|cbn; lia|].
    exists st'. split_and!; try done. constructor.
    + done.
    + rewrite Hfifo. cbn. f_equal. lia.
    + intros s' Hl' Hne. by rewrite Hoth'.
    + done.
  - exists st1. replace (Amount shortfall) with 0 in Hled by (cbn; lia).
    split_and!; try done. constructor; try done.
    rewrite fifo_consume_nonpos by lia. done.
Qed.

(** With the balance checked, only the bank can make a deduction fail. *)
Lemma deduct_spec w s a c :
  store_inv (w_store w) → GetEscrowAccount (w_store w) s = Some a → Denom c = Denom (ea_Balance a) →
  0 < Amount c <= Amount (ea_Balance a) →
  ∃ st', store_inv st' ∧ payment_deducted (w_store w) st' s a (Amount c) ∧
    deductPaymentFromEscrow w a c =
      (bk ← SendCoinsFromModuleToModule (w_bank w) ModuleName FeeCollectorName c;
       Ok (with_store (with_bank w bk) st')).
Proof.
  intros Hinv Ha Hd [Hc Hle].
  destruct (escrow_facts _ _ _ Hinv Ha) as (Hs & Hlen & Hda & Hpos & Hlk & Hbal).
  destruct (deduct_escrow_spec _ _ _ _ Hinv Ha Hd (conj Hc Hle)) as (st' & Hrun & Hled & Hpd).
  exists st'. split; [eapply store_inv_ledger; [done..|apply Hpd]|]. split; [done|].
  unfold deductPaymentFromEscrow. rewrite (coin_IsLT_total (ea_Balance a)) by congruence. cbn [mbind result_bind].
  rewrite (proj2 (Z.ltb_ge (Amount (ea_Balance a)) (Amount c)) Hle). cbn [negb ensure mbind result_bind].
  rewrite coin_IsLT_total by congruence. cbn [mbind result_bind].
  set (ded := if _ <? _ then ea_AvailableBalance a else c).
  assert (Denom ded = Denom c ∧ Amount ded = Z.min (Amount c) (Amount (ea_AvailableBalance a))) as [Hdd Hda'].
  { unfold ded. destruct (Z.ltb_spec (Amount (ea_AvailableBalance a)) (Amount c)); split; congruence || lia. }
  rewrite (coin_Sub_total (ea_Balance a)) by (congruence || lia). cbn [mbind result_bind].
  rewrite (coin_Sub_total (ea_AvailableBalance a)) by (congruence || lia). cbn [mbind result_bind].
  rewrite (coin_Sub_total c) by (congruence || lia). cbn [mbind result_bind].
  rewrite coin_IsPositive_spec, Hda', Hs. cbn [ea_Signer]. unfold debit_account, credit in Hrun.
  rewrite !Z.add_opp_r in Hrun. rewrite Hrun. done.
Qed.

(** ** Validated promises *)

(** What stateful validation has checked when it succeeds. *)
Record promise_valid (ctx : Context) (st : Store) (promise : PromiseProto) (isTimeout : bool)
    (floor : Z) (s : bytes) (a : EscrowAccount) : Prop := {
  pv_chain : pb_ChainId promise = ctx_ChainID ctx;
  pv_floor : GetPromiseFreshnessFloor st = Ok floor;
  pv_fresh : Z.max floor (ctx_BlockTime ctx - WithdrawalDelay (GetParams st)) < pb_CreationTimestamp promise;
  pv_skew : pb_CreationTimestamp promise <= ctx_BlockTime ctx + MaxPromiseClockSkew;
  pv_unexpired : isTimeout = false →
    ctx_BlockTime ctx < pb_CreationTimestamp promise + PaymentPromiseTimeout (GetParams st);
  pv_height : isTimeout = false →
    wrap_i64 (ctx_BlockHeight ctx - pb_Height promise) <= wrap_i64 (PaymentPromiseHeightWindow (GetParams st)) ∧
    pb_Height promise <= wrap_i64 (ctx_BlockHeight ctx + 1);
  pv_unprocessed : IsPaymentPromiseProcessed st promise = false;
  pv_signer : promise_signer promise = Ok s;
  pv_account : GetEscrowAccount st s = Some a;
  pv_denom : Denom (ea_Balance a) = BondDenom;
  pv_funds : EstimateGasForPayForFibre (pb_BlobSize promise) <= Amount (ea_Balance a);
}.

Lemma freshness_cutoff_max t p f : freshness_cutoff t p f = Z.max f (t - WithdrawalDelay p).
Proof.
  unfold freshness_cutoff, time_After. destruct (Z.ltb_spec (t - WithdrawalDelay p) f); lia.
Qed.

Lemma stateful_Ok ctx st promise isTimeout e :
  validatePaymentPromiseStatefulInternal ctx st promise isTimeout = Ok e ↔
  e = pb_CreationTimestamp promise + PaymentPromiseTimeout (GetParams st) ∧
  ∃ floor s a, promise_valid ctx st promise isTimeout floor s a.
Proof.
  unfold validatePaymentPromiseStatefulInternal, time_After, time_Equal.
  split.
  - intros H. inv_ok. rewrite freshness_cutoff_max in Hr1. apply coin_IsGTE_inv in Hr9 as [Hden Hgte]. subst.
    split; [done|]. exists r0, r7, r8. constructor; try done.
    + by apply String.eqb_eq.
    + by apply Z.ltb_lt in Hr1.
    + apply negb_true_iff, Z.ltb_ge in Hr2. done.
    + intros ->. cbn in Hr3. apply negb_true_iff, orb_false_iff in Hr3 as [H1 H2].
      apply Z.ltb_ge in H1. apply Z.eqb_neq in H2. lia.
    + intros ->. cbn in Hr4, Hr5. apply negb_true_iff, Z.ltb_ge in Hr4.
      apply negb_true_iff, Z.ltb_ge in Hr5. done.
    + by apply negb_true_iff in Hr6.
    + by apply Z.leb_le in Hr10.
  - intros [-> (floor & s & a & [Hc Hf Hfr Hsk Hun Hht Hpr Hsi Hac Hd Hfu])].
    rewrite (proj2 (String.eqb_eq _ _) Hc), Hf. cbn [ensure mbind result_bind].
    rewrite freshness_cutoff_max, (proj2 (Z.ltb_lt _ _) Hfr).
    cbn [ensure mbind result_bind]. rewrite (proj2 (Z.ltb_ge _ _) Hsk), Hpr, Hsi. cbn [ensure mbind result_bind negb].
    assert (isTimeout || negb (
      (pb_CreationTimestamp promise + PaymentPromiseTimeout (GetParams st) <? ctx_BlockTime ctx)
      || (ctx_BlockTime ctx =? pb_CreationTimestamp promise + PaymentPromiseTimeout (GetParams st))) = true) as ->.
    { destruct isTimeout; [done|]. specialize (Hun eq_refl). cbn.
      apply negb_true_iff, orb_false_iff. split; [apply Z.ltb_ge|apply Z.eqb_neq]; lia. }
    assert (isTimeout || negb (wrap_i64 (PaymentPromiseHeightWindow (GetParams st)) <?
      wrap_i64 (ctx_BlockHeight ctx - pb_Height promise)) = true) as ->.
    { destruct isTimeout; [done|]. destruct (Hht eq_refl). by apply negb_true_iff, Z.ltb_ge. }
    assert (isTimeout || negb (wrap_i64 (ctx_BlockHeight ctx + 1) <? pb_Height promise) = true) as ->.
    { destruct isTimeout; [done|]. destruct (Hht eq_refl). by apply negb_true_iff, Z.ltb_ge. }
    cbn [ensure mbind result_bind negb]. rewrite Hac. cbn [of_option mbind result_bind].
    rewrite coin_IsGTE_total by done. cbn [mbind result_bind Amount].
    by rewrite (proj2 (Z.leb_le _ _) Hfu).
Qed.

(** ** Recording a processed payment *)

Lemma pay_inv_insert ph pt p :
  pay_inv ph pt → time_ok (pay_ProcessedAt p) → ph !! pay_primary_key p = None →
  pay_inv (<[pay_primary_key p := p]> ph) (<[pay_secondary_key p := p]> pt).
Proof.
  intros [Hh Ht] Hok Hnew. constructor.
  - intros k q Hk. apply lookup_insert_Some in Hk as [[<- <-]|[Hne Hk]].
    + by rewrite lookup_insert_eq.
    + apply Hh in Hk as (-> & Hq & Hs). split_and!; try done.
      rewrite lookup_insert_ne; [done|]. intros Heq.
      apply ProcessedPaymentsByTimeKey_inj in Heq as [_ Heq]; [|done..].
      unfold pay_primary_key in Hne. congruence.
  - intros k q Hk. apply lookup_insert_Some in Hk as [[<- <-]|[Hne Hk]].
    + by rewrite lookup_insert_eq.
    + apply Ht in Hk as [-> Hs]. split; [done|]. rewrite lookup_insert_ne; [done|]. congruence.
Qed.

Lemma pay_inv_delete ph pt p :
  pay_inv ph pt → pt !! pay_secondary_key p = Some p →
  pay_inv (delete (pay_primary_key p) ph) (delete (pay_secondary_key p) pt).
Proof.
  intros [Hh Ht] Hin. destruct (Ht _ _ Hin) as [_ Hph]. constructor.
  - intros k q [Hne Hk]%lookup_delete_Some. apply Hh in Hk as (-> & Hq & Hs).
    split_and!; try done. rewrite lookup_delete_ne; [done|].
    intros Heq. rewrite <- Heq in Hs. congruence.
  - intros k q [Hne Hk]%lookup_delete_Some. apply Ht in Hk as [-> Hs]. split; [done|].
    rewrite lookup_delete_ne; [done|]. intros Heq. rewrite <- Heq in Hs. congruence.
Qed.

Lemma store_inv_record st p :
  store_inv st → time_ok (pay_ProcessedAt p) → GetProcessedPayment st (pay_PaymentPromiseHash p) = None →
  store_inv (SetProcessedPayment st p).
Proof.
  intros [Hp Hl Hpay Hf] Ht Hnew. constructor; cbn; try done.
  by apply pay_inv_insert.
Qed.

(** ** Settlement *)

(** A promise settled by either handler: it was valid and unprocessed, the
    payment left the escrow and the module account, and its hash is recorded
    with the block time. *)
Record settled (ctx : Context) (w w' : World) (promise : PromiseProto) (isTimeout : bool)
    (h : bytes) (floor : Z) (s : bytes) (a : EscrowAccount) : Prop := {
  se_valid : promise_valid ctx (w_store w) promise isTimeout floor s a;
  se_hash : promiseHash promise = Ok h;
  se_store : ∃ st', store_inv st' ∧
    payment_deducted (w_store w) st' s a (EstimateGasForPayForFibre (pb_BlobSize promise)) ∧
    w_store w' = SetProcessedPayment st' (mkProcessedPayment h (ctx_BlockTime ctx));
  se_bank : transferred (w_bank w) (GetModuleAddress ModuleName) (GetModuleAddress FeeCollectorName)
    (PaymentAmount (pb_BlobSize promise)) (w_bank w');
}.

Lemma deduct_valid ctx w promise isTimeout floor s a w' :
  store_inv (w_store w) → u32 (pb_BlobSize promise) →
  promise_valid ctx (w_store w) promise isTimeout floor s a →
  deductPaymentFromEscrow w a (calculatePaymentAmount (pb_BlobSize promise)) = Ok w' →
  ∃ st' bk, store_inv st' ∧
    payment_deducted (w_store w) st' s a (EstimateGasForPayForFibre (pb_BlobSize promise)) ∧
    w' = with_store (with_bank w bk) st' ∧
    transferred (w_bank w) (GetModuleAddress ModuleName) (GetModuleAddress FeeCollectorName)
      (PaymentAmount (pb_BlobSize promise)) bk.
Proof.
  intros Hinv Hsz Hv Hrun. pose proof (PaymentAmount_pos _ Hsz).
  destruct (deduct_spec w s a (PaymentAmount (pb_BlobSize promise))) as (st' & Hinv' & Hpd & Heq); try done.
  - by eapply pv_account.
  - cbn. symmetry. by eapply pv_denom.
  - split; [done|]. by eapply pv_funds.
  - unfold calculatePaymentAmount in Hrun. rewrite Heq in Hrun. inv_ok. exists st', r.
    by apply send_module_to_module in Hr.
Qed.

Lemma PayForFibre_settled ctx w msg w' :
  store_inv (w_store w) → u32 (pb_BlobSize (pff_PaymentPromise msg)) → PayForFibre ctx w msg = Ok w' →
  ∃ h floor s a, settled ctx w w' (pff_PaymentPromise msg) false h floor s a ∧
    ValidatePaymentPromiseStateless (pff_PaymentPromise msg) = Ok tt ∧
    w_events w' = w_events w ++ [EventPayForFibre s (pb_Namespace (pff_PaymentPromise msg))
      (pb_Commitment (pff_PaymentPromise msg)) (wrap_u32 (Z.of_nat (length (pff_ValidatorSignatures msg))))].
Proof.
  intros Hinv Hsz Hrun. unfold PayForFibre in Hrun. inv_ok.
  apply EmitTypedEvent_Ok in Hrun as (Hst & Hbk & Hev).
  apply stateful_Ok in Hr1 as (_ & floor & s & a & Hv).
  pose proof (pv_signer _ _ _ _ _ _ _ Hv) as Hs. pose proof (pv_account _ _ _ _ _ _ _ Hv) as Ha.
  rewrite Hs in Hr3. inv_ok. subst r3. rewrite Ha in Hr4. injection Hr4 as <-.
  eapply deduct_valid in Hr5 as (st' & bk & Hi & Hpd & -> & Htr); [|done..].
  exists r2, floor, s, a. split; [constructor|split].
  - done.
  - unfold promiseHash. by rewrite Hr.
  - exists st'. by rewrite Hst.
  - by rewrite Hbk.
  - unfold ValidatePaymentPromiseStateless. rewrite Hr. by destruct r0.
  - rewrite Hev. done.
Qed.

Lemma PaymentPromiseTimeout_settled ctx w msg w' :
  store_inv (w_store w) → u32 (pb_BlobSize (ppt_PaymentPromise msg)) →
  PaymentPromiseTimeout_handler ctx w msg = Ok w' →
  ∃ h floor s a, settled ctx w w' (ppt_PaymentPromise msg) true h floor s a ∧
    ValidatePaymentPromiseStateless (ppt_PaymentPromise msg) = Ok tt ∧
    pb_CreationTimestamp (ppt_PaymentPromise msg) + PaymentPromiseTimeout (GetParams (w_store w))
      <= ctx_BlockTime ctx ∧
    w_events w' = w_events w ++ [EventPaymentPromiseTimeout (ppt_Signer msg) s h].
Proof.
  intros Hinv Hsz Hrun. unfold PaymentPromiseTimeout_handler in Hrun. inv_ok.
  apply EmitTypedEvent_Ok in Hrun as (Hst & Hbk & Hev).
  apply stateful_Ok in Hr1 as (-> & floor & s & a & Hv).
  unfold time_Before in Hr2. apply negb_true_iff, Z.ltb_ge in Hr2.
  pose proof (pv_signer _ _ _ _ _ _ _ Hv) as Hs. pose proof (pv_account _ _ _ _ _ _ _ Hv) as Ha.
  rewrite Hs in Hr4. inv_ok. subst. rewrite Ha in Hr5. injection Hr5 as <-.
  eapply deduct_valid in Hr6 as (st' & bk & Hi & Hpd & -> & Htr); [|done..].
  eexists _, floor, _, a. split; [constructor|split_and!].
  - done.
  - unfold promiseHash. by rewrite Hr.
  - exists st'. by rewrite Hst.
  - by rewrite Hbk.
  - unfold ValidatePaymentPromiseStateless. rewrite Hr. by destruct r0.
  - done.
  - rewrite Hev. done.
Qed.

Lemma settled_new ctx w w' promise t h floor s a :
  settled ctx w w' promise t h floor s a → GetProcessedPayment (w_store w) h = None.
Proof.
  intros [Hv Hh _ _]. pose proof (pv_unprocessed _ _ _ _ _ _ _ Hv) as Hu.
  unfold IsPaymentPromiseProcessed, IsPaymentProcessedByHash in Hu. rewrite Hh in Hu.
  apply bool_decide_eq_false in Hu. by apply eq_None_not_Some.
Qed.

Lemma settled_inv ctx w w' promise t h floor s a :
  world_inv w → block_time_ok (ctx_BlockTime ctx) → u32 (pb_BlobSize promise) →
  settled ctx w w' promise t h floor s a → world_inv w'.
Proof.
  intros [Hst Hsol] Ht Hsz Hset. pose proof (settled_new _ _ _ _ _ _ _ _ _ Hset) as Hnew.
  destruct Hset as [Hv Hh (st' & Hinv' & Hpd & Hst') Hbk].
  destruct (block_time_instants _ _ Ht (si_params _ Hst)) as (Ht1 & _).
  split.
  - rewrite Hst'. apply store_inv_record; [done..|].
    unfold GetProcessedPayment. by rewrite (proj1 (proj2 (pd_promises _ _ _ _ _ Hpd))).
  - intros d. rewrite Hst', (Hbk _ d). cbn [SetProcessedPayment kv_escrow].
    rewrite (pd_escrow _ _ _ _ _ Hpd). unfold escrow_total.
    rewrite (msum_update _ _ _ a) by (eapply pv_account; done).
    pose proof (Hsol d) as Hd. unfold escrow_total in Hd.
    unfold balance_in at 2 3. cbn [debit_account ea_Balance credit Denom Amount PaymentAmount].
    pose proof (pv_denom _ _ _ _ _ _ _ Hv) as Hden. rewrite Hden.
    pose proof (PaymentAmount_pos _ Hsz) as Hpos. cbn in Hpos.
    destruct (decide (d = BondDenom)) as [->|Hne].
    + rewrite !decide_True, (bool_decide_true (GetModuleAddress ModuleName = GetModuleAddress ModuleName ∧ _)) by done.
      case_bool_decide; lia.
    + rewrite !decide_False by congruence. rewrite !bool_decide_false by naive_solver. lia.
Qed.
End Invariant.
