(* ===== verification/FibreBeginBlock.v ===== *)
(** * x/fibre: begin-block processing

    The freshness floor, the payout of due withdrawals and the pruning of
    processed payments ([x/fibre/keeper/abci.go]). *)

From S2P Require Import Prelude Sdk FibreParams FibreKeys FibrePromise FibreKeeper FibreLedger FibreMsgServer FibreInvariant.
#[local] Open Scope Z_scope.

Section BeginBlock.
Context `{TF : TimeFormat} `{TFL : !TimeFormatLaws}.
Context `{CO : CoinOps} `{CL : !CoinLaws} `{AC : AddressCodec}.
Context `{BK : BankKeeper} `{BL : !BankLaws} `{CR : Crypto} `{CRL : !CryptoLaws}.
Context `{EV : TypedEvents Event}.
Context (signer_len : nat).

Notation store_inv := (store_inv signer_len).
Notation world_inv := (world_inv signer_len).

(** [SendCoinsFromModuleToAccount] panics only when the sender is not a
    registered module account. *)
Definition module_registered : Prop :=
  ∀ bk a c why, SendCoinsFromModuleToAccount bk ModuleName a c ≠ Panic why.

(** The bank does not refuse a transfer the module can cover. *)
Definition payouts_accepted : Prop :=
  ∀ bk a c, 0 < Amount c <= GetBalance bk (GetModuleAddress ModuleName) (Denom c) →
    is_ok (SendCoinsFromModuleToAccount bk ModuleName a c) = true.

(** ** The freshness floor *)

Lemma FormatTimeBytes_nonempty t : time_ok t → (length (FormatTimeBytes t) =? 0)%nat = false.
Proof. intros Ht. by rewrite FormatTimeBytes_length. Qed.

Lemma GetFloor_Set st t : time_ok t →
  GetPromiseFreshnessFloor (SetPromiseFreshnessFloor st t) = Ok t.
Proof.
  intros Ht. unfold GetPromiseFreshnessFloor. cbn [kv_floor SetPromiseFreshnessFloor].
  by rewrite FormatTimeBytes_nonempty, FormatTimeBytes_parse.
Qed.

Definition same_but_floor (st st' : Store) : Prop :=
  kv_params st' = kv_params st ∧ kv_escrow st' = kv_escrow st ∧ kv_wd_signer st' = kv_wd_signer st ∧
  kv_wd_avail st' = kv_wd_avail st ∧ kv_pay_hash st' = kv_pay_hash st ∧ kv_pay_time st' = kv_pay_time st.

Lemma update_floor_spec ctx w f :
  world_inv w → block_time_ok (ctx_BlockTime ctx) → GetPromiseFreshnessFloor (w_store w) = Ok f →
  ∃ w', updatePromiseFreshnessFloor ctx w = Ok w' ∧ world_inv w' ∧
    same_but_floor (w_store w) (w_store w') ∧ w_bank w' = w_bank w ∧ w_events w' = w_events w ∧
    GetPromiseFreshnessFloor (w_store w') =
      Ok (Z.max f (ctx_BlockTime ctx - WithdrawalDelay (GetParams (w_store w)))).
Proof.
  intros [Hst Hsol] Ht Hf. unfold updatePromiseFreshnessFloor, time_After. rewrite Hf.
  destruct (block_time_instants _ _ Ht (si_params _ _ Hst)) as (_ & _ & Hc & _).
  cbn [mbind result_bind]. eexists; split; [reflexivity|].
  destruct (Z.ltb_spec f (ctx_BlockTime ctx - WithdrawalDelay (GetParams (w_store w)))) as [Hlt|Hge].
  - split_and!; try done.
    + split; [|done]. destruct Hst as [Hp Hl Hpay _]. constructor; try done.
      eexists. split; [by apply GetFloor_Set|done].
    + cbn [w_store with_store]. rewrite GetFloor_Set by done. f_equal. lia.
  - split_and!; try done. rewrite Hf. f_equal. lia.
Qed.

(** ** Paying out due withdrawals *)

Lemma balance_covers st bk k wd a :
  store_inv st → solvent st bk → kv_wd_signer st !! k = Some wd →
  GetEscrowAccount st (wd_Signer wd) = Some a → Denom (wd_Amount wd) = Denom (ea_Balance a) →
  0 < Amount (wd_Amount wd) <= Amount (ea_Balance a) ∧
  Amount (wd_Amount wd) <= GetBalance bk (GetModuleAddress ModuleName) (Denom (wd_Amount wd)).
Proof.
  intros Hst Hsol Hk Ha Hd. pose proof (si_ledger _ _ Hst (wd_Signer wd)) as Hl.
  destruct (escrow_facts _ _ _ _ Hst Ha) as (Hs & _ & _ & Hav & _ & Hbal).
  assert (∀ k w, kv_wd_signer st !! k = Some w → wd_ok w) as Hok.
  { intros k' w' Hk'. by apply (li_wd _ _ _ _ _ _ Hl) in Hk' as [_ ?]. }
  pose proof (locked_ge _ _ _ Hok Hk) as Hge. destruct (Hok _ _ Hk) as (_ & _ & Hpos).
  split; [lia|]. etrans; [|apply Hsol]. unfold escrow_total.
  etrans; [|apply (msum_elem_le (balance_in (Denom (wd_Amount wd))) _ (EscrowAccountKey (wd_Signer wd)) a); [|done]].
  - unfold balance_in. rewrite decide_True by done. lia.
  - intros k' b Hb. destruct (li_escrow _ _ _ _ _ _ Hl _ _ Hb) as (-> & _).
    destruct (escrow_facts _ _ _ _ Hst Hb) as (_ & _ & _ & ? & ? & ?).
    unfold balance_in. case_decide; lia.
Qed.

(** Paying out one stored withdrawal. *)
Lemma payout_inv w bk addr wd a :
  world_inv w → kv_wd_signer (w_store w) !! wd_primary_key wd = Some wd →
  GetEscrowAccount (w_store w) (wd_Signer wd) = Some a → Denom (wd_Amount wd) = Denom (ea_Balance a) →
  transferred (w_bank w) (GetModuleAddress ModuleName) addr (wd_Amount wd) bk →
  let a' := mkEscrowAccount (ea_Signer a) (credit (ea_Balance a) (- Amount (wd_Amount wd)))
              (ea_AvailableBalance a) in
  let st' := DeleteWithdrawal (SetEscrowAccount (w_store w) a') wd in
  world_inv (with_store (with_bank w bk) st').
Proof.
  intros [Hst Hsol] Hk Ha Hd Hbk a' st'.
  destruct (balance_covers _ _ _ _ _ Hst Hsol Hk Ha Hd) as [[Hpos Hle] _].
  destruct (escrow_facts _ _ _ _ Hst Ha) as (Hs & _ & Hda & Hav & _ & _).
  split; cbn.
  - apply (store_inv_ledger _ (w_store w) _ (wd_Signer wd)); [done| |done].
    pose proof (st_ledger_set_escrow _ _ (wd_Signer wd) a a' Hst Ha Hs) as Hl.
    cbn in Hl. replace (_ - _) with (Amount (wd_Amount wd)) in Hl by lia.
    specialize (Hl eq_refl Hda Hav).
    replace 0 with (Amount (wd_Amount wd) - Amount (wd_Amount wd)) by lia.
    by apply ledger_delete_withdrawal.
  - intros d. cbn [kv_escrow st' DeleteWithdrawal].
    rewrite (escrow_total_set _ a); [|by cbn; rewrite Hs|done]. cbn. rewrite (Hbk _ d).
    pose proof (Hsol d). rewrite <- Hd.
    destruct (decide (d = Denom (wd_Amount wd))) as [->|Hne].
    + rewrite decide_True, (bool_decide_true (GetModuleAddress ModuleName = GetModuleAddress ModuleName ∧ _)) by done.
      case_bool_decide; lia.
    + rewrite decide_False by congruence. rewrite !bool_decide_false by naive_solver. lia.
Qed.

(** What one iteration does in a consistent state: pay out, or leave the
    withdrawal for a later block when the address or the transfer fails. *)
Definition payout (w : World) (wd : Withdrawal) : World :=
  match AccAddressFromBech32 (wd_Signer wd), GetEscrowAccount (w_store w) (wd_Signer wd) with
  | Some addr, Some a =>
      match SendCoinsFromModuleToAccount (w_bank w) ModuleName addr (wd_Amount wd) with
      | Ok bk =>
          let a' := mkEscrowAccount (ea_Signer a) (credit (ea_Balance a) (- Amount (wd_Amount wd)))
                      (ea_AvailableBalance a) in
          emit_or_log (with_store (with_bank w bk) (DeleteWithdrawal (SetEscrowAccount (w_store w) a') wd))
            (EventWithdrawFromEscrowExecuted (wd_Signer wd) (wd_Amount wd))
      | _ => w
      end
  | _, _ => w
  end.

(** The entry [(k, wd)] of the available index and its account. *)
Lemma due_entry_facts w k wd : world_inv w → kv_wd_avail (w_store w) !! k = Some wd →
  k = wd_secondary_key wd ∧ kv_wd_signer (w_store w) !! wd_primary_key wd = Some wd ∧ wd_ok wd ∧
  ∃ a, GetEscrowAccount (w_store w) (wd_Signer wd) = Some a ∧ Denom (wd_Amount wd) = Denom (ea_Balance a).
Proof.
  intros [Hst _] Hk. pose proof (si_ledger _ _ Hst (wd_Signer wd)) as Hl.
  destruct (li_avail _ _ _ _ _ _ Hl _ _ Hk) as [-> Hp].
  split_and!; [done|done|by apply (li_wd _ _ _ _ _ _ Hl _ _ Hp)|].
  by apply (li_wd_escrow _ _ _ _ _ _ Hl _ _ Hp).
Qed.

Lemma process_loop_step T k wd l w :
  module_registered → world_inv w → kv_wd_avail (w_store w) !! k = Some wd → wd_AvailableTimestamp wd <= T →
  process_withdrawals_loop T ((k, wd) :: l) w = process_withdrawals_loop T l (payout w wd).
Proof.
  intros Hreg Hw Hk Hdue. destruct (due_entry_facts _ _ _ Hw Hk) as (-> & Hp & (Hr & Hav & _) & a & Ha & Hd).
  destruct Hw as [Hst Hsol]. destruct (balance_covers _ _ _ _ _ Hst Hsol Hp Ha Hd) as [[Hpos Hle] _].
  cbn [process_withdrawals_loop]. unfold wd_secondary_key. rewrite Parse_WithdrawalsByAvailableKey by done.
  unfold time_After. rewrite (proj2 (Z.ltb_ge _ _) Hdue). unfold payout. rewrite Ha.
  destruct (AccAddressFromBech32 (wd_Signer wd)) as [addr|]; [|done].
  rewrite coin_IsLT_total by congruence. cbn [mbind result_bind].
  rewrite (proj2 (Z.ltb_ge _ _) Hle).
  destruct (SendCoinsFromModuleToAccount _ _ _ _) as [bk|e|why] eqn:Hsend; [|done|by apply Hreg in Hsend].
  rewrite coin_Sub_total by (congruence || lia). cbn [mbind result_bind].
  unfold credit. by rewrite Z.add_opp_r.
Qed.

Lemma payout_spec w k wd :
  world_inv w → kv_wd_avail (w_store w) !! k = Some wd →
  world_inv (payout w wd) ∧ same_promises (w_store w) (w_store (payout w wd)) ∧
  (∀ k', k' ≠ k → kv_wd_avail (w_store (payout w wd)) !! k' = kv_wd_avail (w_store w) !! k') ∧
  (kv_wd_avail (w_store (payout w wd)) !! k = Some wd ∧ payout w wd = w ∨
   kv_wd_avail (w_store (payout w wd)) !! k = None) ∧
  (payouts_accepted → is_Some (AccAddressFromBech32 (wd_Signer wd)) →
     kv_wd_avail (w_store (payout w wd)) !! k = None).
Proof.
  intros Hw Hk. destruct (due_entry_facts _ _ _ Hw Hk) as (-> & Hp & Hok & a & Ha & Hd).
  destruct (balance_covers _ _ _ _ _ (proj1 Hw) (proj2 Hw) Hp Ha Hd) as [[Hpos Hle] Hcov].
  unfold payout. rewrite Ha.
  destruct (AccAddressFromBech32 (wd_Signer wd)) as [addr|].
  2: { split_and!; [done|done|done|by left|]. intros _ [? ?]; discriminate. }
  destruct (SendCoinsFromModuleToAccount _ _ _ _) as [bk|e|why] eqn:Hsend;
    [|split_and!; [done|done|done|by left|]; intros Hacc; specialize (Hacc (w_bank w) addr (wd_Amount wd) (conj Hpos Hcov));
      by rewrite Hsend in Hacc..].
  apply send_module_to_account in Hsend. cbv zeta.
  set (w' := with_store _ _). pose proof (payout_inv _ _ _ _ _ Hw Hp Ha Hd Hsend) as Hw'. cbv zeta in Hw'.
  fold w' in Hw'. destruct (emit_or_log_inv w' (EventWithdrawFromEscrowExecuted (wd_Signer wd) (wd_Amount wd))) as [Es Eb].
  rewrite !Es. split_and!.
  - unfold FibreInvariant.world_inv. by rewrite Es, Eb.
  - done.
  - intros k' Hne. cbn. by rewrite lookup_delete_ne.
  - right. cbn. apply lookup_delete_eq.
  - intros _ _. cbn. apply lookup_delete_eq.
Qed.

(** The entries still to be visited are stored, and due. *)
Definition pending (T : Z) (l : list (bytes * Withdrawal)) (w : World) : Prop :=
  NoDup l.*1 ∧ ∀ k wd, (k, wd) ∈ l →
    kv_wd_avail (w_store w) !! k = Some wd ∧ wd_AvailableTimestamp wd <= T.

Lemma pending_tail T k wd l w w' :
  pending T ((k, wd) :: l) w →
  (∀ k', k' ≠ k → kv_wd_avail (w_store w') !! k' = kv_wd_avail (w_store w) !! k') → pending T l w'.
Proof.
  intros [Hn Hl] Hf. cbn in Hn. apply NoDup_cons in Hn as [Hk Hn]. split; [done|].
  intros k' wd' Hin. rewrite Hf.
  - apply Hl. by right.
  - intros ->. apply Hk. apply list_elem_of_fmap. by exists (k, wd').
Qed.

Lemma process_loop_spec T l : ∀ w,
  module_registered → world_inv w → pending T l w →
  ∃ w', process_withdrawals_loop T l w = Ok w' ∧ world_inv w' ∧ same_promises (w_store w) (w_store w') ∧
    (∀ k, k ∉ l.*1 → kv_wd_avail (w_store w') !! k = kv_wd_avail (w_store w) !! k) ∧
    (∀ k wd, kv_wd_avail (w_store w') !! k = Some wd → kv_wd_avail (w_store w) !! k = Some wd) ∧
    (payouts_accepted → (∀ k wd, (k, wd) ∈ l → is_Some (AccAddressFromBech32 (wd_Signer wd))) →
      ∀ k, k ∈ l.*1 → kv_wd_avail (w_store w') !! k = None).
Proof.
  induction l as [|[k wd] l IH]; intros w Hreg Hw Hp.
  { exists w. split_and!; try done. intros _ _ k Hk. cbn in Hk. by apply elem_of_nil in Hk. }
  destruct (proj2 Hp k wd) as [Hk Hdue]; [by left|].
  rewrite process_loop_step by done.
  destruct (payout_spec _ _ _ Hw Hk) as (Hw1 & Hs1 & Hf1 & Hd1 & Hl1).
  destruct (IH (payout w wd) Hreg Hw1) as (w' & Hrun & Hw' & Hs' & Hf' & Hsub & Hlive).
  { by eapply pending_tail. }
  pose proof (proj1 Hp) as Hn. cbn in Hn. apply NoDup_cons in Hn as [Hnk _].
  exists w'. split_and!; try done.
  - by etrans.
  - intros k' Hk'. cbn in Hk'. apply not_elem_of_cons in Hk' as [Hne Hk'].
    rewrite Hf' by done. by apply Hf1.
  - intros k' wd' Hk'. apply Hsub in Hk'. destruct (decide (k' = k)) as [->|Hne].
    + destruct Hd1 as [[_ Heq]|Hnone]; [by rewrite Heq in Hk'|congruence].
    + by rewrite Hf1 in Hk'.
  - intros Hacc Haddr k' Hk'. cbn in Hk'. apply elem_of_cons in Hk' as [->|Hk'].
    + rewrite Hf' by done. apply Hl1; [done|]. eapply Haddr. by left.
    + apply Hlive; [done| |done]. intros k2 wd2 Hin. eapply Haddr. by right.
Qed.

(** ** Pruning processed payments *)

Lemma emit_or_log_store w e : w_store (emit_or_log w e) = w_store w.
Proof. apply emit_or_log_inv. Qed.

Lemma emit_or_log_bank w e : w_bank (emit_or_log w e) = w_bank w.
Proof. apply emit_or_log_inv. Qed.

Definition same_but_payments (st st' : Store) : Prop :=
  kv_params st' = kv_params st ∧ kv_escrow st' = kv_escrow st ∧ kv_wd_signer st' = kv_wd_signer st ∧
  kv_wd_avail st' = kv_wd_avail st ∧ kv_floor st' = kv_floor st.

Lemma prune_loop_spec cutoff l : ∀ w,
  pay_inv (kv_pay_hash (w_store w)) (kv_pay_time (w_store w)) →
  NoDup l.*1 → (∀ k p, (k, p) ∈ l → kv_pay_time (w_store w) !! k = Some p ∧ pay_ProcessedAt p <= cutoff) →
  ∃ w', prune_loop cutoff l w = Ok w' ∧ w_bank w' = w_bank w ∧
    same_but_payments (w_store w) (w_store w') ∧
    pay_inv (kv_pay_hash (w_store w')) (kv_pay_time (w_store w')) ∧
    (∀ k p, kv_pay_time (w_store w') !! k = Some p ↔ kv_pay_time (w_store w) !! k = Some p ∧ k ∉ l.*1).
Proof.
  induction l as [|[k p] l IH]; intros w Hpay Hn Hl.
  { exists w. split_and!; try done. intros k p. cbn. rewrite elem_of_nil. tauto. }
  destruct (Hl k p) as [Hk Hold]; [by left|].
  destruct (pi_time _ _ Hpay _ _ Hk) as [-> Hph]. destruct (pi_hash _ _ Hpay _ _ Hph) as (_ & Ht & _).
  cbn [prune_loop]. unfold pay_secondary_key at 1. rewrite Parse_ProcessedPaymentsByTimeKey by done.
  unfold time_After. rewrite (proj2 (Z.ltb_ge _ _) Hold).
  set (w1 := emit_or_log _ _).
  assert (w_store w1 = DeleteProcessedPayment (w_store w) p) as E1 by apply emit_or_log_store.
  assert (w_bank w1 = w_bank w) as E2 by (unfold w1; by rewrite emit_or_log_bank).
  cbn in Hn. apply NoDup_cons in Hn as [Hnk Hn].
  destruct (IH w1) as (w' & Hrun & Hb & Hsame & Hpay' & Hiff).
  - rewrite E1. cbn. by apply pay_inv_delete.
  - done.
  - intros k' p' Hin. destruct (Hl k' p') as [Hk' Hold']; [by right|]. split; [|done].
    rewrite E1. cbn. rewrite lookup_delete_ne; [done|]. intros <-. apply Hnk.
    apply list_elem_of_fmap. by exists (pay_secondary_key p, p').
  - exists w'. split_and!; try done; [congruence|by rewrite E1 in Hsame|].
    intros k' p'. rewrite Hiff, E1. cbn. rewrite lookup_delete_Some, not_elem_of_cons. naive_solver.
Qed.

(** ** The scans visit exactly the due entries *)

Lemma due_scan w t k wd : world_inv w → time_ok t →
  (k, wd) ∈ GetWithdrawalsByAvailableIterator (w_store w) t ↔
  kv_wd_avail (w_store w) !! k = Some wd ∧ wd_AvailableTimestamp wd <= t.
Proof.
  intros Hw Ht. unfold GetWithdrawalsByAvailableIterator. rewrite elem_of_range_iter.
  split; intros [Hk Hr]; (split; [done|]);
    destruct (due_entry_facts _ _ _ Hw Hk) as (-> & _ & (_ & Hav & _) & _);
    [by apply WithdrawalsByAvailable_range in Hr|by apply WithdrawalsByAvailable_range].
Qed.

Lemma prune_scan st t k p : pay_inv (kv_pay_hash st) (kv_pay_time st) → time_ok t →
  (k, p) ∈ GetProcessedPaymentsByTimeIterator st t ↔
  kv_pay_time st !! k = Some p ∧ pay_ProcessedAt p <= t.
Proof.
  intros Hpay Ht. unfold GetProcessedPaymentsByTimeIterator. rewrite elem_of_range_iter.
  split; intros [Hk Hr]; (split; [done|]);
    destruct (pi_time _ _ Hpay _ _ Hk) as [-> Hph]; destruct (pi_hash _ _ Hpay _ _ Hph) as (_ & Hok & _);
    [by apply ProcessedPaymentsByTime_range in Hr|by apply ProcessedPaymentsByTime_range].
Qed.

Lemma process_withdrawals_spec ctx w :
  module_registered → world_inv w → time_ok (ctx_BlockTime ctx) →
  ∃ w', processAvailableWithdrawals ctx w = Ok w' ∧ world_inv w' ∧ same_promises (w_store w) (w_store w') ∧
    (∀ k wd, kv_wd_avail (w_store w) !! k = Some wd → ctx_BlockTime ctx < wd_AvailableTimestamp wd →
      kv_wd_avail (w_store w') !! k = Some wd) ∧
    (∀ k wd, kv_wd_avail (w_store w') !! k = Some wd → kv_wd_avail (w_store w) !! k = Some wd) ∧
    (payouts_accepted →
      (∀ k a, kv_escrow (w_store w) !! k = Some a → is_Some (AccAddressFromBech32 (ea_Signer a))) →
      ∀ k wd, kv_wd_avail (w_store w') !! k = Some wd → ctx_BlockTime ctx < wd_AvailableTimestamp wd).
Proof.
  intros Hreg Hw Ht. set (T := ctx_BlockTime ctx).
  set (l := GetWithdrawalsByAvailableIterator (w_store w) T).
  assert (∀ k wd, (k, wd) ∈ l ↔ kv_wd_avail (w_store w) !! k = Some wd ∧ wd_AvailableTimestamp wd <= T) as Hin
    by (intros; by apply due_scan).
  assert (∀ k wd, kv_wd_avail (w_store w) !! k = Some wd → k ∈ l.*1 ↔ wd_AvailableTimestamp wd <= T) as Hkey.
  { intros k wd Hk. rewrite list_elem_of_fmap. split.
    - intros ([k' wd'] & -> & Hin'). apply Hin in Hin' as [? ?]. cbn in *. congruence.
    - intros Hle. exists (k, wd). split; [done|]. by apply Hin. }
  destruct (process_loop_spec T l w Hreg Hw) as (w' & Hrun & Hw' & Hs & Hf & Hsub & Hlive).
  { split; [apply NoDup_fst_range_iter|]. intros k wd. apply Hin. }
  exists w'. split_and!; try done.
  - intros k wd Hk Hlt. rewrite Hf; [done|]. rewrite (Hkey _ _ Hk). lia.
  - intros Hacc Haddr k wd Hk'. apply Z.nle_gt. intros Hle. pose proof (Hsub _ _ Hk') as Hk.
    rewrite Hlive in Hk'; [done|done| |by apply (Hkey _ _ Hk)].
    intros k2 wd2 Hin2. apply Hin in Hin2 as [Hk2 _].
    destruct (due_entry_facts _ _ _ Hw Hk2) as (_ & _ & _ & a & Ha & _).
    destruct (escrow_facts _ _ _ _ (proj1 Hw) Ha) as (<- & _). by apply (Haddr _ _ Ha).
Qed.

Lemma prune_spec ctx w :
  world_inv w → block_time_ok (ctx_BlockTime ctx) →
  ∃ w', pruneProcessedPayments ctx w = Ok w' ∧ world_inv w' ∧ w_bank w' = w_bank w ∧
    same_but_payments (w_store w) (w_store w') ∧
    (∀ k p, kv_pay_hash (w_store w') !! k = Some p ↔ kv_pay_hash (w_store w) !! k = Some p ∧
      ctx_BlockTime ctx - PaymentPromiseRetentionWindow (GetParams (w_store w)) < pay_ProcessedAt p).
Proof.
  intros [Hst Hsol] Ht. pose proof (si_pay _ _ Hst) as Hpay.
  destruct (block_time_instants _ _ Ht (si_params _ _ Hst)) as (_ & _ & _ & Hcut).
  unfold pruneProcessedPayments. set (cutoff := ctx_BlockTime ctx - _) in *.
  set (l := GetProcessedPaymentsByTimeIterator (w_store w) cutoff).
  assert (∀ k p, (k, p) ∈ l ↔ kv_pay_time (w_store w) !! k = Some p ∧ pay_ProcessedAt p <= cutoff) as Hin
    by (intros; by apply prune_scan).
  destruct (prune_loop_spec cutoff l w) as (w' & Hrun & Hb & (E1 & E2 & E3 & E4 & E5) & Hpay' & Hiff);
    [done|apply NoDup_fst_range_iter|by intros k p; apply Hin|].
  exists w'. split_and!; try done.
  - split; [constructor|].
    + unfold GetParams. rewrite E1. apply Hst.
    + intros s. unfold FibreLedger.st_ledger. rewrite E2, E3, E4. apply Hst.
    + done.
    + unfold GetPromiseFreshnessFloor. rewrite E5. apply Hst.
    + intros d. rewrite E2, Hb. apply Hsol.
  - assert (∀ p, kv_pay_time (w_store w) !! pay_secondary_key p = Some p →
      pay_secondary_key p ∈ l.*1 ↔ pay_ProcessedAt p <= cutoff) as Hkey.
    { intros p Hk. rewrite list_elem_of_fmap. split.
      - intros ([k' p'] & Heq & Hin'). apply Hin in Hin' as [? ?]. cbn in *. congruence.
      - intros Hle. exists (pay_secondary_key p, p). split; [done|]. by apply Hin. }
    intros k p. split.
    + intros Hk. destruct (pi_hash _ _ Hpay' _ _ Hk) as (-> & _ & Hk').
      apply Hiff in Hk' as [Hk0 Hni]. split; [by apply (pi_time _ _ Hpay) in Hk0 as [_ ?]|].
      rewrite (Hkey _ Hk0) in Hni. lia.
    + intros [Hk Hlt]. destruct (pi_hash _ _ Hpay _ _ Hk) as (-> & _ & Hk0).
      apply (pi_time _ _ Hpay' (pay_secondary_key p)). apply Hiff. split; [done|].
      rewrite (Hkey _ Hk0). lia.
Qed.

(** ** The whole begin-block step *)

Record block_begun (ctx : Context) (st st' : Store) (floor : Z) : Prop := {
  bb_floor : GetPromiseFreshnessFloor st' = Ok (Z.max floor (ctx_BlockTime ctx - WithdrawalDelay (GetParams st)));
  bb_params : kv_params st' = kv_params st;
  bb_pruned : ∀ k p, kv_pay_hash st' !! k = Some p ↔ kv_pay_hash st !! k = Some p ∧
    ctx_BlockTime ctx - PaymentPromiseRetentionWindow (GetParams st) < pay_ProcessedAt p;
  bb_kept : ∀ k wd, kv_wd_avail st !! k = Some wd → ctx_BlockTime ctx < wd_AvailableTimestamp wd →
    kv_wd_avail st' !! k = Some wd;
  bb_only : ∀ k wd, kv_wd_avail st' !! k = Some wd → kv_wd_avail st !! k = Some wd;
  bb_paid : payouts_accepted →
    (∀ k a, kv_escrow st !! k = Some a → is_Some (AccAddressFromBech32 (ea_Signer a))) →
    ∀ k wd, kv_wd_avail st' !! k = Some wd → ctx_BlockTime ctx < wd_AvailableTimestamp wd;
}.

Lemma BeginBlocker_spec ctx w floor :
  module_registered → world_inv w → block_time_ok (ctx_BlockTime ctx) →
  GetPromiseFreshnessFloor (w_store w) = Ok floor →
  ∃ w', BeginBlocker ctx w = Ok w' ∧ world_inv w' ∧ block_begun ctx (w_store w) (w_store w') floor.
Proof.
  intros Hreg Hw Ht Hf.
  destruct (block_time_instants _ _ Ht (si_params _ _ (proj1 Hw))) as (Ht1 & _).
  destruct (update_floor_spec ctx w floor Hw Ht Hf) as (w1 & R1 & W1 & (E1 & E2 & E3 & E4 & E5 & E6) & _ & _ & F1).
  destruct (process_withdrawals_spec ctx w1 Hreg W1 Ht1) as (w2 & R2 & W2 & (P1 & P2 & P3 & P4) & K2 & S2 & L2).
  destruct (prune_spec ctx w2 W2 Ht) as (w3 & R3 & W3 & _ & (Q1 & Q2 & Q3 & Q4 & Q5) & H3).
  assert (GetParams (w_store w2) = GetParams (w_store w)) as EP by (unfold GetParams; congruence).
  exists w3. split; [|split; [done|constructor]].
  - unfold BeginBlocker. rewrite R1. cbn [mbind result_bind]. rewrite R2. done.
  - rewrite <- F1. unfold GetPromiseFreshnessFloor. by rewrite Q5, P4.
  - congruence.
  - intros k p. rewrite H3, EP, P2, E5. done.
  - intros k wd Hk Hlt. rewrite Q4. apply K2; [by rewrite E4|done].
  - intros k wd Hk. rewrite Q4 in Hk. apply S2 in Hk. by rewrite E4 in Hk.
  - intros Hacc Haddr k wd Hk. rewrite Q4 in Hk. apply (L2 Hacc) in Hk; [done|]. by rewrite E2.
Qed.
End BeginBlock.
