(* ===== verification/FibreTrace.v ===== *)
(** * x/fibre: executions

    The module as a state machine: blocks begin, messages run, the rest of the
    chain moves coins. The properties that hold of every reachable state are
    proved by induction on the execution. *)

From S2P Require Import Prelude Sdk FibreParams FibreKeys FibrePromise FibreKeeper.
From S2P Require Import FibreLedger FibreMsgServer FibreInvariant FibreBeginBlock.
#[local] Open Scope Z_scope.

Section Trace.
Context `{TF : TimeFormat} `{TFL : !TimeFormatLaws}.
Context `{CO : CoinOps} `{CL : !CoinLaws} `{AC : AddressCodec}.
Context `{BK : BankKeeper} `{BL : !BankLaws} `{CR : Crypto} `{CRL : !CryptoLaws}.
Context `{EV : TypedEvents Event}.
Context (signer_len : nat) (authority : bytes).

Notation store_inv := (store_inv signer_len).
Notation world_inv := (world_inv signer_len).
Notation settled := (settled signer_len).

(** The module's world and the promises settled so far, newest first. *)
Record Chain := mkChain { ch_world : World; ch_settled : list PromiseProto }.

(** A chain that has just started: an empty module store with valid
    parameters and no overdrawn module account. *)
Definition genesis (c : Chain) : Prop :=
  ∃ p, params_ok p ∧ w_store (ch_world c) = SetParams empty_store p ∧
    (∀ d, 0 <= GetBalance (w_bank (ch_world c)) (GetModuleAddress ModuleName) d) ∧ ch_settled c = [].

(** Messages reach a handler only after their [ValidateBasic]; a message that
    fails leaves the state as it was and is not a step. Nobody signs for a
    module account. *)
Inductive step : Chain → Chain → Prop :=
| step_begin_block ctx w w' log :
    block_time_ok (ctx_BlockTime ctx) → BeginBlocker ctx w = Ok w' →
    step (mkChain w log) (mkChain w' log)
| step_deposit ctx msg w w' log :
    MsgDepositToEscrow_ValidateBasic msg = Ok tt → length (dep_Signer msg) = signer_len →
    AccAddressFromBech32 (dep_Signer msg) ≠ Some (GetModuleAddress ModuleName) →
    DepositToEscrow ctx w msg = Ok w' →
    step (mkChain w log) (mkChain w' log)
| step_withdraw ctx msg w w' log :
    block_time_ok (ctx_BlockTime ctx) → MsgRequestWithdrawal_ValidateBasic msg = Ok tt →
    RequestWithdrawal ctx w msg = Ok w' →
    step (mkChain w log) (mkChain w' log)
| step_pay ctx msg w w' log :
    block_time_ok (ctx_BlockTime ctx) → proto_ok (pff_PaymentPromise msg) →
    PayForFibre ctx w msg = Ok w' →
    step (mkChain w log) (mkChain w' (pff_PaymentPromise msg :: log))
| step_timeout ctx msg w w' log :
    block_time_ok (ctx_BlockTime ctx) → proto_ok (ppt_PaymentPromise msg) →
    PaymentPromiseTimeout_handler ctx w msg = Ok w' →
    step (mkChain w log) (mkChain w' (ppt_PaymentPromise msg :: log))
| step_params msg w w' log :
    UpdateFibreParams authority w msg = Ok w' →
    step (mkChain w log) (mkChain w' log)
| step_environment w bk events log :
    (∀ d, GetBalance (w_bank w) (GetModuleAddress ModuleName) d <= GetBalance bk (GetModuleAddress ModuleName) d) →
    step (mkChain w log) (mkChain (mkWorld (w_store w) bk events) log).

Inductive reachable : Chain → Prop :=
| reach_genesis c : genesis c → reachable c
| reach_step c c' : reachable c → step c c' → reachable c'.

(** ** Replay protection *)

(** A settled promise is remembered: by the record of its hash, kept at least
    until the promise is no longer fresh, or by the freshness floor. *)
Definition remembered (st : Store) (p : PromiseProto) : Prop :=
  ∃ h, promiseHash p = Ok h ∧
    ((∃ q, GetProcessedPayment st h = Some q ∧
        pb_CreationTimestamp p <= pay_ProcessedAt q + MaxPromiseClockSkew) ∨
     (∃ f, GetPromiseFreshnessFloor st = Ok f ∧ pb_CreationTimestamp p <= f)).

Record chain_inv (c : Chain) : Prop := {
  ci_world : world_inv (ch_world c);
  ci_nodup : NoDup (ch_settled c);
  ci_remembered : Forall (remembered (w_store (ch_world c))) (ch_settled c);
}.

Lemma remembered_same st st' p :
  kv_pay_hash st' = kv_pay_hash st → kv_floor st' = kv_floor st → remembered st p → remembered st' p.
Proof.
  intros Eh Ef (h & Hh & Hr). exists h. split; [done|].
  unfold GetProcessedPayment, GetPromiseFreshnessFloor in *. by rewrite Eh, Ef.
Qed.

Lemma remembered_block ctx st st' f p :
  GetPromiseFreshnessFloor st = Ok f → block_begun ctx st st' f → remembered st p → remembered st' p.
Proof.
  intros Hf Hb (h & Hh & Hr). exists h. split; [done|].
  destruct Hr as [(q & Hq & Hc)|(f' & Hf' & Hc)].
  - destruct (decide (ctx_BlockTime ctx - PaymentPromiseRetentionWindow (GetParams st) < pay_ProcessedAt q)) as [Hkeep|Hold].
    + left. exists q. split; [|done]. by apply (bb_pruned _ _ _ _ Hb).
    + right. eexists. split; [apply (bb_floor _ _ _ _ Hb)|].
      unfold PaymentPromiseRetentionWindow in Hold. lia.
  - right. eexists. split; [apply (bb_floor _ _ _ _ Hb)|].
    rewrite Hf in Hf'. injection Hf' as ->. lia.
Qed.

(** A promise that passes validation is not a remembered one. *)
Lemma valid_not_remembered ctx st p t floor s a :
  promise_valid ctx st p t floor s a → ¬ remembered st p.
Proof.
  intros Hv (h & Hh & [(q & Hq & _)|(f & Hf & Hc)]).
  - pose proof (pv_unprocessed _ _ _ _ _ _ _ Hv) as Hu.
    unfold IsPaymentPromiseProcessed, IsPaymentProcessedByHash in Hu. rewrite Hh in Hu.
    apply bool_decide_eq_false in Hu. apply Hu. by exists q.
  - pose proof (pv_fresh _ _ _ _ _ _ _ Hv) as Hfr.
    rewrite (pv_floor _ _ _ _ _ _ _ Hv) in Hf. injection Hf as ->. lia.
Qed.

Lemma settled_remembers ctx w w' p t h floor s a :
  settled ctx w w' p t h floor s a →
  remembered (w_store w') p ∧ ∀ p', remembered (w_store w) p' → remembered (w_store w') p'.
Proof.
  intros Hset. pose proof (settled_new _ _ _ _ _ _ _ _ _ _ Hset) as Hnew.
  destruct Hset as [Hv Hh (st' & _ & Hpd & Hst') _].
  destruct (pd_promises _ _ _ _ _ _ Hpd) as (_ & Eh & _ & Ef).
  rewrite Hst'. split.
  - exists h. split; [done|]. left. eexists. split; [apply lookup_insert_eq|]. cbn.
    by eapply pv_skew.
  - intros p' (h' & Hh' & Hr). exists h'. split; [done|].
    destruct Hr as [(q & Hq & Hc)|(f & Hf & Hc)].
    + left. exists q. split; [|done]. unfold GetProcessedPayment in *. cbn. rewrite Eh.
      rewrite lookup_insert_ne; [done|]. unfold pay_primary_key. cbn. congruence.
    + right. exists f. split; [|done]. unfold GetPromiseFreshnessFloor in *. cbn. by rewrite Ef.
Qed.

(** ** Preservation *)

Lemma genesis_inv c : genesis c → chain_inv c.
Proof.
  intros (p & Hp & Hst & Hbk & Hlog). constructor; rewrite ?Hlog; try constructor.
  - rewrite Hst. constructor; cbn.
    + done.
    + intros s. constructor; cbn; intros *; by rewrite lookup_empty.
    + constructor; cbn; intros *; by rewrite lookup_empty.
    + exists zero_time. split; [done|]. by unfold time_ok, zero_time.
  - intros d. rewrite Hst. cbn. unfold escrow_total. rewrite msum_empty. apply Hbk.
Qed.

Lemma settled_chain_inv ctx w w' log p t h floor s a :
  chain_inv (mkChain w log) → block_time_ok (ctx_BlockTime ctx) → u32 (pb_BlobSize p) →
  settled ctx w w' p t h floor s a → chain_inv (mkChain w' (p :: log)).
Proof.
  intros [Hw Hn Hr] Ht Hsz Hset. cbn in *.
  destruct (settled_remembers _ _ _ _ _ _ _ _ _ Hset) as [Hp Hold].
  constructor; cbn.
  - by eapply settled_inv.
  - apply NoDup_cons. split; [|done]. intros Hin. rewrite Forall_forall in Hr. apply Hr in Hin.
    by apply (valid_not_remembered ctx _ _ t floor s a (se_valid _ _ _ _ _ _ _ _ _ _ Hset)) in Hin.
  - constructor; [done|]. by eapply Forall_impl.
Qed.

Lemma UpdateFibreParams_Ok w msg w' : UpdateFibreParams authority w msg = Ok w' →
  upd_Authority msg = authority ∧ params_ok (upd_Params msg) ∧
  w_store w' = SetParams (w_store w) (upd_Params msg) ∧ w_bank w' = w_bank w.
Proof.
  unfold UpdateFibreParams. intros H. inv_ok. apply EmitTypedEvent_Ok in H as (Hst & Hbk & _).
  apply bool_decide_eq_true in Hr. destruct r0. by apply Params_Validate_Ok in Hr0.
Qed.

Lemma chain_inv_same w w' log :
  chain_inv (mkChain w log) → world_inv w' → same_promises (w_store w) (w_store w') →
  chain_inv (mkChain w' log).
Proof.
  intros [_ Hn Hr] Hw' (_ & Eh & _ & Ef). constructor; cbn in *; try done.
  eapply Forall_impl; [done|]. intros p. by apply remembered_same.
Qed.

Lemma step_inv c c' : module_registered → chain_inv c → step c c' → chain_inv c'.
Proof.
  intros Hreg Hinv Hstep.
  destruct Hstep as [ctx w w' log Ht Hrun|ctx msg w w' log Hvb Hl Hm Hrun|ctx msg w w' log Ht Hvb Hrun
    |ctx msg w w' log Ht Hp Hrun|ctx msg w w' log Ht Hp Hrun|msg w w' log Hrun|w bk events log Hbk];
    pose proof (ci_world _ Hinv) as Hw; cbn in Hw.
  - destruct (si_floor _ _ (proj1 Hw)) as (f & Hf & _).
    destruct (BeginBlocker_spec signer_len ctx w f Hreg Hw Ht Hf) as (w2 & Hrun2 & Hw2 & Hb).
    rewrite Hrun in Hrun2. apply Ok_inj in Hrun2 as <-.
    destruct Hinv as [_ Hn Hr]. constructor; cbn in *; try done.
    eapply Forall_impl; [done|]. intros p. by eapply remembered_block.
  - destruct (deposit_inv signer_len ctx w msg w') as [Hw' Hs]; try done. by eapply chain_inv_same.
  - destruct (request_inv signer_len ctx w msg w') as [Hw' Hs]; try done. by eapply chain_inv_same.
  - destruct Hp as (_ & Hsz & _).
    apply (PayForFibre_settled signer_len) in Hrun as (h & f & s & a & Hset & _); [|apply Hw|done].
    by eapply settled_chain_inv.
  - destruct Hp as (_ & Hsz & _).
    apply (PaymentPromiseTimeout_settled signer_len) in Hrun as (h & f & s & a & Hset & _); [|apply Hw|done].
    by eapply settled_chain_inv.
  - apply UpdateFibreParams_Ok in Hrun as (_ & Hp & Hst & Hb). destruct Hinv as [_ Hn Hr].
    constructor; cbn in *; try done.
    + split; [|intros d; rewrite Hst, Hb; apply Hw]. rewrite Hst. by destruct (proj1 Hw).
    + eapply Forall_impl; [done|]. intros p. by rewrite Hst.
  - eapply chain_inv_same; [done| |done]. split; [apply Hw|]. intros d. cbn.
    etrans; [apply Hw|apply Hbk].
Qed.

Lemma reachable_chain_inv c : module_registered → reachable c → chain_inv c.
Proof. intros Hreg. induction 1; [by apply genesis_inv|by eapply step_inv]. Qed.
End Trace.
