(* ===== verification/FibreExample.v ===== *)
(** * x/fibre: a concrete run

    A short execution of the module in the environment of [SdkModel]: a
    deposit, a withdrawal request, a promise settled with validator
    signatures, a promise settled after its timeout, and a later block. *)

From S2P Require Import Prelude Sdk SdkModel FibreParams FibreKeys FibrePromise FibreKeeper FibreLedger.
From S2P Require Import FibreMsgServer FibreInvariant FibreBeginBlock FibreTrace.
Import SdkModel.
#[local] Open Scope Z_scope.

Module FibreExample.

Definition from_ok {A} (d : A) (r : result A) : A := match r with Ok a => a | _ => d end.

Definition t0 : Z := 738000 * 24 * Hour.
Definition ctx_at (dt h : Z) : Context := mkContext "celestia" (t0 + dt) h.

Definition key : bytes := repeat 7 33.
Definition gov : bytes := [9].

Definition promise (dt : Z) : PromiseProto :=
  mkPromiseProto "celestia" 10 (repeat 1 29) 1000 0 (repeat 2 32) (t0 + dt) key (7 :: repeat 3 63).

Definition world0 : World :=
  mkWorld (SetParams empty_store DefaultParams) {[ (key, BondDenom) := 10000000 ]} [].
Definition chain0 : Chain := mkChain world0 [].

Definition deposit_msg := mkMsgDepositToEscrow key (mkCoin BondDenom 2000000).
Definition withdraw_msg := mkMsgRequestWithdrawal key (mkCoin BondDenom 1500000).
Definition pay_msg := mkMsgPayForFibre [1] (promise 0) [[1]].
Definition timeout_msg := mkMsgPaymentPromiseTimeout [1] (promise 5).
Definition params_msg := mkMsgUpdateFibreParams gov (NewParams (48 * Hour) Hour 1000 (4 * Hour) 1).

Definition world1 := from_ok world0 (BeginBlocker (ctx_at 0 10) world0).
Definition world2 := from_ok world0 (DepositToEscrow (ctx_at 0 10) world1 deposit_msg).
Definition world3 := from_ok world0 (RequestWithdrawal (ctx_at 0 10) world2 withdraw_msg).
Definition world4 := from_ok world0 (PayForFibre (ctx_at 6 11) world3 pay_msg).
Definition world5 := from_ok world0 (PaymentPromiseTimeout_handler (ctx_at (2 * Hour) 700) world4 timeout_msg).
Definition world6 := from_ok world0 (UpdateFibreParams gov world5 params_msg).
Definition world7 := from_ok world0 (BeginBlocker (ctx_at (30 * Hour) 9000) world6).

Lemma from_ok_run {A} (d : A) (r : result A) : is_ok r = true → r = Ok (from_ok d r).
Proof. by destruct r. Qed.

(** Run a handler and keep only that it succeeded. *)
Ltac run := apply from_ok_run; vm_cast_no_check (eq_refl true).

Lemma run1 : BeginBlocker (ctx_at 0 10) world0 = Ok world1. Proof. run. Qed.
Lemma run2 : DepositToEscrow (ctx_at 0 10) world1 deposit_msg = Ok world2. Proof. run. Qed.
Lemma run3 : RequestWithdrawal (ctx_at 0 10) world2 withdraw_msg = Ok world3. Proof. run. Qed.
Lemma run4 : PayForFibre (ctx_at 6 11) world3 pay_msg = Ok world4. Proof. run. Qed.
Lemma run5 : PaymentPromiseTimeout_handler (ctx_at (2 * Hour) 700) world4 timeout_msg = Ok world5. Proof. run. Qed.
Lemma run6 : UpdateFibreParams gov world5 params_msg = Ok world6. Proof. run. Qed.
Lemma run7 : BeginBlocker (ctx_at (30 * Hour) 9000) world6 = Ok world7. Proof. run. Qed.

Definition chain7 : Chain := mkChain world7 [promise 5; promise 0].

Lemma registered : module_registered.
Proof. intros bk a c why. cbn. unfold move. by case_match. Qed.

Lemma time_at dt h : 0 <= dt <= 48 * Hour → block_time_ok (ctx_BlockTime (ctx_at dt h)).
Proof.
  unfold block_time_ok, ctx_at, t0, MaxWithdrawalDelay, MaxPromiseClockSkew, time_limit, Hour, Minute, Second.
  cbn [ctx_BlockTime]. lia.
Qed.

Lemma promise_ok dt : 0 <= dt <= 48 * Hour → proto_ok (promise dt).
Proof.
  intros Hdt. unfold proto_ok, promise, i64, u32, two63, two32. cbn [pb_Height pb_BlobSize pb_BlobVersion pb_CreationTimestamp].
  split_and!; try lia. unfold time_ok, t0, time_limit, Hour, Minute, Second in *. lia.
Qed.

Lemma chain0_genesis : genesis chain0.
Proof.
  exists DefaultParams. split_and!; [apply DefaultParams_ok|done| |done].
  intros d. cbn. unfold get_balance. rewrite lookup_singleton_ne; [done|]. by intros [=].
Qed.

Ltac hours := unfold Hour, Minute, Second; lia.

Lemma chain2_reachable : reachable 33 gov (mkChain world2 []).
Proof.
  eapply reach_step; [eapply reach_step; [apply reach_genesis, chain0_genesis|]|].
  - eapply step_begin_block; [apply (time_at 0 10); hours|apply run1].
  - eapply (step_deposit _ _ _ deposit_msg); [reflexivity|reflexivity|by intros [=]|apply run2].
Qed.

Lemma chain3_reachable : reachable 33 gov (mkChain world3 []).
Proof.
  eapply reach_step; [apply chain2_reachable|].
  eapply (step_withdraw _ _ _ withdraw_msg); [apply (time_at 0 10); hours|reflexivity|apply run3].
Qed.

Lemma chain4_reachable : reachable 33 gov (mkChain world4 [promise 0]).
Proof.
  eapply reach_step; [apply chain3_reachable|].
  eapply (step_pay _ _ _ pay_msg); [apply (time_at 6 11); hours|apply promise_ok; hours|apply run4].
Qed.

Lemma chain6_reachable : reachable 33 gov (mkChain world6 [promise 5; promise 0]).
Proof.
  eapply reach_step; [eapply reach_step; [apply chain4_reachable|]|].
  - eapply (step_timeout _ _ _ timeout_msg); [apply (time_at (2 * Hour) 700); hours|apply promise_ok; hours|apply run5].
  - eapply step_params, run6.
Qed.

Lemma chain7_reachable : reachable 33 gov chain7.
Proof.
  eapply reach_step; [apply chain6_reachable|].
  eapply step_begin_block; [apply (time_at (30 * Hour) 9000); hours|apply run7].
Qed.

Lemma world_inv_at c : reachable 33 gov c → world_inv 33 (ch_world c).
Proof. intros Hc. apply (ci_world 33), (reachable_chain_inv 33 gov); [apply registered|done]. Qed.
End FibreExample.
