(* ===== verification/FibreProperties.v ===== *)
(** * x/fibre: what the module guarantees

    The claims about the module's executions, handlers and block processing,
    each with a concrete run that meets its hypotheses. *)

From S2P Require Import Prelude Sdk SdkModel FibreParams FibreKeys FibrePromise FibreKeeper FibreLedger.
From S2P Require Import FibreMsgServer FibreInvariant FibreBeginBlock FibreTrace FibreExample.
#[local] Open Scope Z_scope.

Section Properties.
Context `{TF : TimeFormat} `{TFL : !TimeFormatLaws}.
Context `{CO : CoinOps} `{CL : !CoinLaws} `{AC : AddressCodec}.
Context `{BK : BankKeeper} `{BL : !BankLaws} `{CR : Crypto} `{CRL : !CryptoLaws}.
Context `{EV : TypedEvents Event}.
Context (signer_len : nat) (authority : bytes).

Notation reachable := (reachable signer_len authority).
Notation world_inv := (world_inv signer_len).

(** C1: in every reachable state no promise has been settled twice, whether by
    PayForFibre or by PaymentPromiseTimeout, across pruning of the processed
    payments and any sequence of parameter changes. *)
Theorem no_double_settlement c :
  module_registered → reachable c → NoDup (ch_settled c).
Proof. intros Hreg Hc. by apply (ci_nodup signer_len), (reachable_chain_inv signer_len authority). Qed.

(** C2: in every reachable state the coins the module account holds cover the
    total balance of all escrow accounts, in every denomination. *)
Theorem module_solvency c d :
  module_registered → reachable c →
  escrow_total (kv_escrow (w_store (ch_world c))) d
    <= GetBalance (w_bank (ch_world c)) (GetModuleAddress ModuleName) d.
Proof. intros Hreg Hc. apply (reachable_chain_inv signer_len authority) in Hc as [[_ Hs] _ _]; auto. Qed.

(** C20: in every reachable state an account's balance is its available balance
    plus the sum of its pending withdrawals, and nothing is negative. *)
Theorem escrow_accounts_balance c s a :
  module_registered → reachable c →
  GetEscrowAccount (w_store (ch_world c)) s = Some a →
  Denom (ea_AvailableBalance a) = Denom (ea_Balance a) ∧ 0 <= Amount (ea_AvailableBalance a) ∧
  Amount (ea_Balance a) =
    Amount (ea_AvailableBalance a) + total (GetWithdrawalsBySigner (w_store (ch_world c)) s).
Proof.
  intros Hreg Hc Ha. apply (reachable_chain_inv signer_len authority) in Hc as [[Hst _] _ _]; [|done].
  destruct (escrow_facts _ _ _ _ Hst Ha) as (_ & Hl & Hd & Hav & _ & Hb). split_and!; try done.
  rewrite Hb. f_equal. symmetry. by apply (total_scan _ _ _ _ _ _ _ (si_ledger _ _ Hst s)).
Qed.

(** In every reachable state the two withdrawal indexes hold the same
    withdrawals, each under the keys computed from it, each with a positive
    amount in the denomination of an existing account of its signer. *)
Theorem withdrawal_indexes_agree c w :
  module_registered → reachable c →
  let st := w_store (ch_world c) in
  (kv_wd_signer st !! wd_primary_key w = Some w ↔ kv_wd_avail st !! wd_secondary_key w = Some w) ∧
  (∀ k, kv_wd_signer st !! k = Some w ∨ kv_wd_avail st !! k = Some w →
    (k = wd_primary_key w ∨ k = wd_secondary_key w) ∧ 0 < Amount (wd_Amount w) ∧
    ∃ a, GetEscrowAccount st (wd_Signer w) = Some a ∧ Denom (wd_Amount w) = Denom (ea_Balance a)).
Proof.
  intros Hreg Hc st. apply (reachable_chain_inv signer_len authority) in Hc as [[Hst _] _ _]; [|done].
  pose proof (si_ledger _ _ Hst []) as [He Hw Hwe Ha Hi]. split.
  - split; [by apply Hi|]. intros Hk. by apply Ha in Hk as [_ ?].
  - assert (∀ k, kv_wd_signer st !! k = Some w → 0 < Amount (wd_Amount w) ∧
      ∃ a, GetEscrowAccount st (wd_Signer w) = Some a ∧ Denom (wd_Amount w) = Denom (ea_Balance a)) as Hfacts.
    { intros k Hk. split; [by apply Hw in Hk as [_ (_ & _ & ?)]|by apply (Hwe k)]. }
    intros k [Hk|Hk]; [|apply Ha in Hk as [-> Hk]; split; [by right|eauto]].
    destruct (Hw _ _ Hk) as [-> _]. split; [by left|eauto].
Qed.

(** The outcome of settling [promise] for the gas price [n] of its blob, with
    the one event [ev] it emits. *)
Definition settlement (ctx : Context) (w w' : World) (promise : PromiseProto) (s h : bytes)
    (a : EscrowAccount) (ev : Event) : Prop :=
  let n := EstimateGasForPayForFibre (pb_BlobSize promise) in
  GetEscrowAccount (w_store w') s = Some (debit_account s a n) ∧
  (∀ s', s' ≠ s → GetEscrowAccount (w_store w') s' = GetEscrowAccount (w_store w) s') ∧
  GetWithdrawalsBySigner (w_store w') s =
    fifo_consume (n - Amount (ea_AvailableBalance a)) (GetWithdrawalsBySigner (w_store w) s) ∧
  (∀ s', length s' = signer_len → s' ≠ s →
    GetWithdrawalsBySigner (w_store w') s' = GetWithdrawalsBySigner (w_store w) s') ∧
  GetProcessedPayment (w_store w) h = None ∧
  GetProcessedPayment (w_store w') h = Some (mkProcessedPayment h (ctx_BlockTime ctx)) ∧
  transferred (w_bank w) (GetModuleAddress ModuleName) (GetModuleAddress FeeCollectorName)
    (mkCoin BondDenom n) (w_bank w') ∧
  w_events w' = w_events w ++ [ev].

Lemma settled_settlement ctx w w' p t h floor s a ev :
  settled signer_len ctx w w' p t h floor s a → w_events w' = w_events w ++ [ev] →
  settlement ctx w w' p s h a ev.
Proof.
  intros Hset Hev. pose proof (settled_new _ _ _ _ _ _ _ _ _ _ Hset) as Hnew.
  destruct Hset as [Hv Hh (st' & _ & [He Hf Ho Hp] & Hst') Hbk]. unfold settlement. rewrite Hst'.
  unfold GetEscrowAccount, GetWithdrawalsBySigner, GetProcessedPayment in *. cbn. rewrite He.
  split_and!; try done.
  - apply lookup_insert_eq.
  - intros s' Hne. apply lookup_insert_ne. intros Heq%EscrowAccountKey_inj. congruence.
  - apply lookup_insert_eq.
Qed.

(** C21: a successful PayForFibre settles a promise that had passed stateless
    and stateful validation: its signer's account pays the gas price of the
    blob, first from the available balance and then from the oldest pending
    withdrawals, the coins move to the fee collector, the hash is recorded,
    every other account keeps its balance and withdrawals, and the one event
    emitted names the signer, the namespace and the commitment of the promise
    and the number of signatures submitted. *)
Theorem pay_for_fibre_settles ctx w msg w' :
  world_inv w → proto_ok (pff_PaymentPromise msg) → PayForFibre ctx w msg = Ok w' →
  ValidatePaymentPromiseInternal ctx (w_store w) (pff_PaymentPromise msg) = Ok tt ∧
  ∃ s h a, promise_signer (pff_PaymentPromise msg) = Ok s ∧ promiseHash (pff_PaymentPromise msg) = Ok h ∧
    GetEscrowAccount (w_store w) s = Some a ∧
    settlement ctx w w' (pff_PaymentPromise msg) s h a
      (EventPayForFibre s (pb_Namespace (pff_PaymentPromise msg)) (pb_Commitment (pff_PaymentPromise msg))
        (Z.of_nat (length (pff_ValidatorSignatures msg)) mod 2 ^ 32)).
Proof.
  intros [Hst _] (_ & Hsz & _) Hrun.
  destruct (PayForFibre_settled signer_len _ _ _ _ Hst Hsz Hrun) as (h & f & s & a & Hset & Hsl & Hev).
  split.
  - unfold ValidatePaymentPromiseInternal, ValidatePaymentPromiseStateful. rewrite Hsl. cbn [mbind result_bind].
    erewrite (proj2 (stateful_Ok _ _ _ _ _)); [done|]. split; [done|]. exists f, s, a. apply Hset.
  - exists s, h, a. split_and!; [apply Hset|apply Hset|apply Hset|by eapply settled_settlement].
Qed.

(** A successful PaymentPromiseTimeout settles the promise in the same
    way, and only once its timeout has passed. *)
Theorem payment_promise_timeout_settles ctx w msg w' :
  world_inv w → proto_ok (ppt_PaymentPromise msg) → PaymentPromiseTimeout_handler ctx w msg = Ok w' →
  pb_CreationTimestamp (ppt_PaymentPromise msg) + PaymentPromiseTimeout (GetParams (w_store w))
    <= ctx_BlockTime ctx ∧
  ∃ s h a, promise_signer (ppt_PaymentPromise msg) = Ok s ∧ promiseHash (ppt_PaymentPromise msg) = Ok h ∧
    GetEscrowAccount (w_store w) s = Some a ∧
    settlement ctx w w' (ppt_PaymentPromise msg) s h a (EventPaymentPromiseTimeout (ppt_Signer msg) s h).
Proof.
  intros [Hst _] (_ & Hsz & _) Hrun.
  destruct (PaymentPromiseTimeout_settled signer_len _ _ _ _ Hst Hsz Hrun) as (h & f & s & a & Hset & _ & Ht & Hev).
  split; [done|]. exists s, h, a. split_and!; [apply Hset|apply Hset|apply Hset|by eapply settled_settlement].
Qed.

Lemma Validate_Hash pp : Validate pp = Ok tt → ∃ h, Hash pp = Ok h.
Proof.
  unfold Validate, Hash. destruct (SignerKey pp); [|done]. intros H. inv_ok.
  apply Nat.eqb_eq in Hr4. rewrite Hr4, Hr6. cbn. eauto.
Qed.

(** A promise that passes validation can be settled: PayForFibre succeeds
    in a consistent state unless the transfer to the fee collector or the
    encoding of the event fails. *)
Theorem valid_promise_settles ctx w msg bk :
  world_inv w → proto_ok (pff_PaymentPromise msg) →
  ValidatePaymentPromiseInternal ctx (w_store w) (pff_PaymentPromise msg) = Ok tt →
  SendCoinsFromModuleToModule (w_bank w) ModuleName FeeCollectorName
    (PaymentAmount (pb_BlobSize (pff_PaymentPromise msg))) = Ok bk →
  (∀ e, TypedEventError e = None) →
  ∃ w', PayForFibre ctx w msg = Ok w'.
Proof.
  intros [Hst _] (_ & Hsz & _) Hval Hsend Hev.
  unfold ValidatePaymentPromiseInternal, ValidatePaymentPromiseStateless in Hval. inv_ok. destruct r.
  apply stateful_Ok in Hr0 as Hr0'. destruct Hr0' as (_ & f & s & a & Hv).
  destruct (Validate_Hash _ Hr) as [h Hh].
  destruct (deduct_spec signer_len w s a (PaymentAmount (pb_BlobSize (pff_PaymentPromise msg))))
    as (st' & _ & _ & Hded); [done|apply Hv|symmetry; apply Hv|split; [by apply PaymentAmount_pos|apply Hv]|].
  unfold PayForFibre. rewrite Hr1. cbn [mbind result_bind]. rewrite Hr. cbn [mbind result_bind].
  rewrite Hr0. cbn [mbind result_bind]. rewrite Hh. cbn [mbind result_bind].
  rewrite (pv_signer _ _ _ _ _ _ _ Hv). cbn [mbind result_bind].
  rewrite (pv_account _ _ _ _ _ _ _ Hv). cbn [of_option mbind result_bind].
  unfold calculatePaymentAmount. rewrite Hded, Hsend. cbn [mbind result_bind].
  unfold EmitTypedEvent. rewrite Hev. eauto.
Qed.

(** Begin-block processing never fails in a consistent state, whatever the
    bank answers; it pays out every withdrawal that is due when the bank
    accepts the transfers, and leaves every other withdrawal pending. *)
Theorem begin_block_pays_due_withdrawals ctx w :
  module_registered → world_inv w → block_time_ok (ctx_BlockTime ctx) →
  ∃ w', BeginBlocker ctx w = Ok w' ∧ world_inv w' ∧
    (∀ k wd, kv_wd_avail (w_store w) !! k = Some wd → ctx_BlockTime ctx < wd_AvailableTimestamp wd →
      kv_wd_avail (w_store w') !! k = Some wd) ∧
    (payouts_accepted →
      (∀ k a, kv_escrow (w_store w) !! k = Some a → is_Some (AccAddressFromBech32 (ea_Signer a))) →
      ∀ k wd, kv_wd_avail (w_store w') !! k = Some wd → ctx_BlockTime ctx < wd_AvailableTimestamp wd).
Proof.
  intros Hreg Hw Ht. destruct (si_floor _ _ (proj1 Hw)) as (f & Hf & _).
  destruct (BeginBlocker_spec signer_len ctx w f Hreg Hw Ht Hf) as (w' & Hrun & Hw' & Hb).
  exists w'. split_and!; [done|done|apply Hb|apply Hb].
Qed.

(** Begin-block processing prunes exactly the processed payments that are
    at least a retention window old, and moves the freshness floor to the
    later of itself and block time minus withdrawal delay. *)
Theorem begin_block_prunes_processed_payments ctx w floor :
  module_registered → world_inv w → block_time_ok (ctx_BlockTime ctx) →
  GetPromiseFreshnessFloor (w_store w) = Ok floor →
  ∃ w', BeginBlocker ctx w = Ok w' ∧
    (∀ h p, GetProcessedPayment (w_store w') h = Some p ↔
      GetProcessedPayment (w_store w) h = Some p ∧
      ctx_BlockTime ctx - pay_ProcessedAt p < WithdrawalDelay (GetParams (w_store w)) + MaxPromiseClockSkew) ∧
    GetPromiseFreshnessFloor (w_store w') =
      Ok (Z.max floor (ctx_BlockTime ctx - WithdrawalDelay (GetParams (w_store w)))).
Proof.
  intros Hreg Hw Ht Hf.
  destruct (BeginBlocker_spec signer_len ctx w floor Hreg Hw Ht Hf) as (w' & Hrun & Hw' & Hb).
  exists w'. split_and!; [done| |apply Hb].
  intros h p. unfold GetProcessedPayment. rewrite (bb_pruned _ _ _ _ Hb).
  unfold PaymentPromiseRetentionWindow. intuition lia.
Qed.

Lemma floor_step_eq c c' f :
  GetPromiseFreshnessFloor (w_store (ch_world c)) = Ok f →
  kv_floor (w_store (ch_world c')) = kv_floor (w_store (ch_world c)) →
  ∃ f', GetPromiseFreshnessFloor (w_store (ch_world c')) = Ok f' ∧ f <= f'.
Proof. intros Hf Heq. exists f. unfold GetPromiseFreshnessFloor in *. by rewrite Heq. Qed.

(** The freshness floor never moves back, whatever step the chain takes,
    a change of the withdrawal delay included. *)
Theorem freshness_floor_monotone c c' f :
  module_registered → reachable c → step signer_len authority c c' →
  GetPromiseFreshnessFloor (w_store (ch_world c)) = Ok f →
  ∃ f', GetPromiseFreshnessFloor (w_store (ch_world c')) = Ok f' ∧ f <= f'.
Proof.
  intros Hreg Hc Hstep Hf. apply (reachable_chain_inv signer_len authority) in Hc as [Hw _ _]; [|done].
  destruct Hstep as [ctx w w' log Ht Hrun|ctx msg w w' log Hvb Hl Hm Hrun|ctx msg w w' log Ht Hvb Hrun
    |ctx msg w w' log Ht Hp Hrun|ctx msg w w' log Ht Hp Hrun|msg w w' log Hrun|w bk events log Hbk]; cbn in *.
  - destruct (BeginBlocker_spec signer_len ctx w f Hreg Hw Ht Hf) as (w2 & Hrun2 & _ & Hb).
    rewrite Hrun in Hrun2. apply Ok_inj in Hrun2 as <-. eexists. split; [apply Hb|lia].
  - destruct (deposit_inv signer_len ctx w msg w') as [_ (_ & _ & _ & He)]; try done.
    by apply (floor_step_eq (mkChain w log) (mkChain w' log)).
  - destruct (request_inv signer_len ctx w msg w') as [_ (_ & _ & _ & He)]; try done.
    by apply (floor_step_eq (mkChain w log) (mkChain w' log)).
  - apply (PayForFibre_settled signer_len) in Hrun as (h & f' & s & a & Hset & _); [|apply Hw|apply Hp].
    destruct (se_store _ _ _ _ _ _ _ _ _ _ Hset) as (st' & _ & Hpd & Hst').
    apply (floor_step_eq (mkChain w log) (mkChain w' log)); [done|]. cbn. rewrite Hst'. cbn. apply Hpd.
  - apply (PaymentPromiseTimeout_settled signer_len) in Hrun as (h & f' & s & a & Hset & _); [|apply Hw|apply Hp].
    destruct (se_store _ _ _ _ _ _ _ _ _ _ Hset) as (st' & _ & Hpd & Hst').
    apply (floor_step_eq (mkChain w log) (mkChain w' log)); [done|]. cbn. rewrite Hst'. cbn. apply Hpd.
  - apply UpdateFibreParams_Ok in Hrun as (_ & _ & Hst & _).
    apply (floor_step_eq (mkChain w log) (mkChain w' log)); [done|]. cbn. by rewrite Hst.
  - eauto with lia.
Qed.

(** Stateful validation accepts a promise exactly when it is for this
    chain, fresh, not from the future, unexpired and within the height window
    (the last two for PayForFibre only), unprocessed, and funded. *)
Theorem stateful_validation_exact ctx st promise isTimeout e :
  validatePaymentPromiseStatefulInternal ctx st promise isTimeout = Ok e ↔
  e = pb_CreationTimestamp promise + PaymentPromiseTimeout (GetParams st) ∧
  ∃ floor s a, promise_valid ctx st promise isTimeout floor s a.
Proof. apply stateful_Ok. Qed.

(** At a given block time a promise can be settled by PayForFibre or by
    PaymentPromiseTimeout, never by both. *)
Theorem settlement_paths_disjoint ctx w pay tmo w1 w2 :
  world_inv w → proto_ok (pff_PaymentPromise pay) → ppt_PaymentPromise tmo = pff_PaymentPromise pay →
  PayForFibre ctx w pay = Ok w1 → PaymentPromiseTimeout_handler ctx w tmo ≠ Ok w2.
Proof.
  intros [Hst _] (_ & Hsz & _) Heq Hpay Htmo.
  destruct (PayForFibre_settled signer_len _ _ _ _ Hst Hsz Hpay) as (h & f & s & a & Hset & _).
  destruct (PaymentPromiseTimeout_settled signer_len ctx w tmo w2 Hst) as (h' & f' & s' & a' & _ & _ & Ht & _);
    [by rewrite Heq|done|].
  rewrite Heq in Ht. pose proof (pv_unexpired _ _ _ _ _ _ _ (se_valid _ _ _ _ _ _ _ _ _ _ Hset) eq_refl). lia.
Qed.

(** With valid parameters every expired promise that passes the other
    checks can be settled by timeout at any time until it is a withdrawal
    delay old, and that window lasts at least ten minutes. *)
Theorem timeout_window ctx st promise floor s a :
  params_ok (GetParams st) →
  let c := pb_CreationTimestamp promise in
  let expiry := c + PaymentPromiseTimeout (GetParams st) in
  pb_ChainId promise = ctx_ChainID ctx → GetPromiseFreshnessFloor st = Ok floor → floor < c →
  IsPaymentPromiseProcessed st promise = false → promise_signer promise = Ok s →
  GetEscrowAccount st s = Some a → Denom (ea_Balance a) = BondDenom →
  EstimateGasForPayForFibre (pb_BlobSize promise) <= Amount (ea_Balance a) →
  expiry <= ctx_BlockTime ctx < c + WithdrawalDelay (GetParams st) →
  ValidatePaymentPromiseStatefulForTimeout ctx st promise = Ok expiry ∧
  MinTimeoutSettlementWindow <= c + WithdrawalDelay (GetParams st) - expiry.
Proof.
  intros (HD & HT & _) c expiry Hch Hf Hfc Hpr Hs Ha Hd Hfu Ht. unfold expiry, c in *. split.
  - apply stateful_Ok. split; [done|]. exists floor, s, a. constructor; try done; try lia.
    unfold MinPaymentPromiseTimeout, MaxPromiseClockSkew, Minute, Second in *. lia.
  - unfold MinWithdrawalDelay in HD. lia.
Qed.

(** A withdrawal request moves the amount from the available balance into
    one new pending withdrawal that becomes due a withdrawal delay later; the
    total balance, the bank and every other account stay as they were. *)
Theorem request_withdrawal_locks ctx w msg w' :
  world_inv w → RequestWithdrawal ctx w msg = Ok w' →
  let t := ctx_BlockTime ctx in
  let n := Amount (wdr_Amount msg) in
  ∃ a, GetEscrowAccount (w_store w) (wdr_Signer msg) = Some a ∧ n <= Amount (ea_AvailableBalance a) ∧
    GetEscrowAccount (w_store w') (wdr_Signer msg) =
      Some (mkEscrowAccount (wdr_Signer msg) (ea_Balance a) (credit (ea_AvailableBalance a) (- n))) ∧
    (∀ s, s ≠ wdr_Signer msg → GetEscrowAccount (w_store w') s = GetEscrowAccount (w_store w) s) ∧
    GetWithdrawal (w_store w) (wdr_Signer msg) t = None ∧
    GetWithdrawal (w_store w') (wdr_Signer msg) t =
      Some (mkWithdrawal (wdr_Signer msg) (wdr_Amount msg) t (t + WithdrawalDelay (GetParams (w_store w)))) ∧
    w_bank w' = w_bank w.
Proof.
  intros [Hst _] Hrun. apply RequestWithdrawal_Ok in Hrun as (a & Ha & Hd & Hle & Hnone & Hst' & Hbk & _).
  destruct (escrow_facts _ _ _ _ Hst Ha) as (Hs & _). exists a. rewrite Hst', Hs.
  unfold GetEscrowAccount, GetWithdrawal in *. cbn. split_and!; try done.
  - apply lookup_insert_eq.
  - intros s Hne. apply lookup_insert_ne. intros Heq%EscrowAccountKey_inj. congruence.
  - apply lookup_insert_eq.
Qed.

(** A deposit credits the same amount to the total and the available
    balance of the signer's account, opening it when there is none, and moves
    the coins into the module account. *)
Theorem deposit_credits ctx w msg w' :
  world_inv w → DepositToEscrow ctx w msg = Ok w' →
  let n := Amount (dep_Amount msg) in
  let a := deposit_base (w_store w) msg in
  ∃ addr, AccAddressFromBech32 (dep_Signer msg) = Some addr ∧
    transferred (w_bank w) addr (GetModuleAddress ModuleName) (dep_Amount msg) (w_bank w') ∧
    Denom (ea_Balance a) = Denom (dep_Amount msg) ∧
    GetEscrowAccount (w_store w') (dep_Signer msg) =
      Some (mkEscrowAccount (dep_Signer msg) (credit (ea_Balance a) n) (credit (ea_AvailableBalance a) n)) ∧
    (∀ s, s ≠ dep_Signer msg → GetEscrowAccount (w_store w') s = GetEscrowAccount (w_store w) s).
Proof.
  intros [Hst _] Hrun. apply DepositToEscrow_Ok in Hrun as (addr & Haddr & Hd & _ & Hst' & Hbk & _).
  assert (ea_Signer (deposit_base (w_store w) msg) = dep_Signer msg) as Hs.
  { unfold deposit_base. destruct (GetEscrowAccount _ _) as [b|] eqn:Hb; [|done]. cbn.
    by eapply escrow_facts in Hb as (? & _). }
  exists addr. rewrite Hst', Hs. unfold GetEscrowAccount. cbn. split_and!; try done.
  - apply lookup_insert_eq.
  - intros s Hne. apply lookup_insert_ne. intros Heq%EscrowAccountKey_inj. congruence.
Qed.
End Properties.

(** ** Concrete runs *)

Import SdkModel FibreExample.

Lemma no_double_settlement_witness : NoDup (ch_settled chain7).
Proof. apply (no_double_settlement 33 gov); [apply registered|apply chain7_reachable]. Defined.

Lemma module_solvency_witness :
  escrow_total (kv_escrow (w_store world7)) BondDenom
    <= GetBalance (w_bank world7) (GetModuleAddress ModuleName) BondDenom.
Proof. apply (module_solvency 33 gov chain7); [apply registered|apply chain7_reachable]. Defined.

Definition account3 : EscrowAccount := mkEscrowAccount key (mkCoin BondDenom 2000000) (mkCoin BondDenom 500000).

Lemma account3_found : GetEscrowAccount (w_store world3) key = Some account3.
Proof. vm_cast_no_check (eq_refl (Some account3)). Qed.

Lemma escrow_accounts_balance_witness :
  2000000 = 500000 + total (GetWithdrawalsBySigner (w_store world3) key).
Proof.
  apply (escrow_accounts_balance 33 gov (mkChain world3 []) key account3);
    [apply registered|apply chain3_reachable|apply account3_found].
Defined.

Definition withdrawal3 : Withdrawal :=
  mkWithdrawal key (mkCoin BondDenom 1500000) t0 (t0 + 24 * Hour).

Lemma withdrawal_indexes_agree_witness :
  kv_wd_signer (w_store world3) !! wd_primary_key withdrawal3 = Some withdrawal3 ↔
  kv_wd_avail (w_store world3) !! wd_secondary_key withdrawal3 = Some withdrawal3.
Proof.
  apply (withdrawal_indexes_agree 33 gov (mkChain world3 []) withdrawal3);
    [apply registered|apply chain3_reachable].
Defined.

Lemma pay_for_fibre_settles_witness :
  ∃ s h a, promise_signer (promise 0) = Ok s ∧ promiseHash (promise 0) = Ok h ∧
    settlement 33 (ctx_at 6 11) world3 world4 (promise 0) s h a
      (EventPayForFibre s (pb_Namespace (promise 0)) (pb_Commitment (promise 0))
        (Z.of_nat (length (pff_ValidatorSignatures pay_msg)) mod 2 ^ 32)).
Proof.
  destruct (pay_for_fibre_settles 33 (ctx_at 6 11) world3 pay_msg world4) as (_ & s & h & a & Hs & Hh & _ & Hset);
    [apply (world_inv_at _ chain3_reachable)|apply promise_ok; hours|apply run4|].
  by exists s, h, a.
Defined.

Lemma payment_promise_timeout_settles_witness :
  t0 + 5 + PaymentPromiseTimeout (GetParams (w_store world4)) <= t0 + 2 * Hour.
Proof.
  apply (payment_promise_timeout_settles 33 (ctx_at (2 * Hour) 700) world4 timeout_msg world5);
    [apply (world_inv_at _ chain4_reachable)|apply promise_ok; hours|apply run5].
Defined.

Definition bank4 : bank :=
  from_ok ∅ (SendCoinsFromModuleToModule (w_bank world3) ModuleName FeeCollectorName (PaymentAmount 1000)).

Lemma valid_promise_settles_witness : ∃ w', PayForFibre (ctx_at 6 11) world3 pay_msg = Ok w'.
Proof.
  apply (valid_promise_settles 33 (ctx_at 6 11) world3 pay_msg bank4).
  - apply (world_inv_at _ chain3_reachable).
  - apply promise_ok; hours.
  - vm_cast_no_check (eq_refl (Ok tt)).
  - apply from_ok_run. vm_cast_no_check (eq_refl true).
  - done.
Defined.

Lemma begin_block_pays_due_withdrawals_witness :
  ∃ w', BeginBlocker (ctx_at (30 * Hour) 9000) world3 = Ok w'.
Proof.
  destruct (begin_block_pays_due_withdrawals 33 (ctx_at (30 * Hour) 9000) world3) as (w' & Hrun & _);
    [apply registered|apply (world_inv_at _ chain3_reachable)|apply time_at; hours|].
  by exists w'.
Defined.

Lemma begin_block_prunes_processed_payments_witness :
  ∃ w', BeginBlocker (ctx_at (30 * Hour) 9000) world6 = Ok w'.
Proof.
  destruct (begin_block_prunes_processed_payments 33 (ctx_at (30 * Hour) 9000) world6 (t0 - 24 * Hour))
    as (w' & Hrun & _);
    [apply registered|apply (world_inv_at _ chain6_reachable)|apply time_at; hours| |by exists w'].
  vm_cast_no_check (eq_refl (Ok (t0 - 24 * Hour) : result Z)).
Defined.

Lemma freshness_floor_monotone_witness :
  ∃ f', GetPromiseFreshnessFloor (w_store world7) = Ok f' ∧ t0 - 24 * Hour <= f'.
Proof.
  apply (freshness_floor_monotone 33 gov (mkChain world6 [promise 5; promise 0]) chain7).
  - apply registered.
  - apply chain6_reachable.
  - eapply step_begin_block; [apply (time_at (30 * Hour) 9000); hours|apply run7].
  - vm_cast_no_check (eq_refl (Ok (t0 - 24 * Hour) : result Z)).
Defined.

Lemma stateful_validation_exact_witness :
  ∃ floor s a, promise_valid (ctx_at 6 11) (w_store world3) (promise 0) false floor s a.
Proof.
  apply (stateful_validation_exact (ctx_at 6 11) (w_store world3) (promise 0) false (t0 + Hour)).
  vm_cast_no_check (eq_refl (Ok (t0 + Hour) : result Z)).
Defined.

Lemma settlement_paths_disjoint_witness :
  PaymentPromiseTimeout_handler (ctx_at 6 11) world3 (mkMsgPaymentPromiseTimeout [1] (promise 0)) ≠ Ok world4.
Proof.
  apply (settlement_paths_disjoint 33 (ctx_at 6 11) world3 pay_msg _ world4);
    [apply (world_inv_at _ chain3_reachable)|apply promise_ok; hours|reflexivity|apply run4].
Defined.

Lemma timeout_window_witness :
  ValidatePaymentPromiseStatefulForTimeout (ctx_at (3 * Hour) 700) (w_store world3) (promise 5) = Ok (t0 + 5 + Hour).
Proof.
  apply (timeout_window (ctx_at (3 * Hour) 700) (w_store world3) (promise 5) (t0 - 24 * Hour) key account3).
  - apply DefaultParams_ok.
  - reflexivity.
  - vm_cast_no_check (eq_refl (Ok (t0 - 24 * Hour) : result Z)).
  - cbn. hours.
  - vm_cast_no_check (eq_refl false).
  - reflexivity.
  - apply account3_found.
  - reflexivity.
  - vm_compute. discriminate.
  - vm_compute. split; [discriminate|reflexivity].
Defined.

Lemma request_withdrawal_locks_witness : w_bank world3 = w_bank world2.
Proof.
  destruct (request_withdrawal_locks 33 (ctx_at 0 10) world2 withdraw_msg world3)
    as (a & _ & _ & _ & _ & _ & _ & Hb);
    [apply (world_inv_at _ chain2_reachable)|apply run3|exact Hb].
Defined.

Lemma world1_inv : world_inv 33 world1.
Proof.
  apply (world_inv_at (mkChain world1 [])).
  eapply reach_step; [apply reach_genesis, chain0_genesis|].
  eapply step_begin_block; [apply (time_at 0 10); hours|apply run1].
Qed.

Lemma deposit_credits_witness :
  GetEscrowAccount (w_store world2) key =
    Some (mkEscrowAccount key (mkCoin BondDenom 2000000) (mkCoin BondDenom 2000000)).
Proof.
  destruct (deposit_credits 33 (ctx_at 0 10) world1 deposit_msg world2) as (addr & _ & _ & _ & Ha & _);
    [apply world1_inv|apply run2|exact Ha].
Defined.
