(* ===== verification/FibreEncoding.v ===== *)
(** * x/fibre: encodings

    What the encodings of payment promises and the price formula guarantee: the
    identity of a promise, its round trip through protobuf and the exactness of
    the price. *)

From S2P Require Import Prelude Sdk SdkModel FibreParams FibreKeys FibrePromise FibreKeeper FibreLedger FibreExample.
#[local] Open Scope Z_scope.

Section Encodings.
Context `{CR : Crypto} `{CRL : !CryptoLaws}.

(** The signed bytes and signatures of two promises differ and have one digest. *)
Definition promise_collision (p q : PaymentPromise) : Prop :=
  ∃ bp bq, SignBytes p = Ok bp ∧ SignBytes q = Ok bq ∧
    bp ++ Signature p ≠ bq ++ Signature q ∧ sha256 (bp ++ Signature p) = sha256 (bq ++ Signature q).

Lemma Validate_signature_length p : Validate p = Ok tt → length (Signature p) = signatureSize.
Proof.
  unfold Validate. destruct (SignerKey p); [|done]. intros H. inv_ok. by apply Nat.eqb_eq.
Qed.

(** The sign bytes of sized promises determine every field they cover. *)
Lemma SignBytes_inj p q kp kq b : sized p kp → sized q kq → SignBytes p = Ok b → SignBytes q = Ok b →
  Signature p = Signature q → p = q.
Proof.
  unfold SignBytes. intros Hp Hq Sp Sq Hsig. inv_ok.
  destruct (RawBytesMessageSignBytes_inj _ _ _ _ _ _ Sp Sq) as [Hc <-].
  destruct (strippedSignBytes_inj p q kp kq _ Hp Hq ltac:(eassumption) ltac:(eassumption)) as (? & ? & ? & ? & ? & ? & ?).
  destruct p, q; cbn in *; congruence.
Qed.

(** The hash under which a settlement is recorded identifies the promise:
    two valid promises with one hash are the same promise, signature included,
    unless what is hashed for the two is a SHA-256 collision. *)
Theorem promise_hash_identifies pb qb p q h :
  proto_ok pb → proto_ok qb → FromProto (Some pb) = Ok p → FromProto (Some qb) = Ok q →
  Validate p = Ok tt → Validate q = Ok tt → Hash p = Ok h → Hash q = Ok h →
  p = q ∨ promise_collision p q.
Proof.
  intros Hpb Hqb Fp Fq Vp Vq Hp Hq.
  pose proof (Validate_sized _ _ Hpb Fp Vp) as Sp. pose proof (Validate_sized _ _ Hqb Fq Vq) as Sq.
  apply Validate_signature_length in Vp. apply Validate_signature_length in Vq.
  unfold Hash in Hp, Hq. inv_ok. rename r0 into bq, r2 into bp.
  destruct (decide (bp ++ Signature p = bq ++ Signature q)) as [Heq|Hne].
  - left. apply app_inj_2 in Heq as [-> Hs]; [|congruence]. by eapply SignBytes_inj.
  - right. exists bp, bq. split_and!; [done|done|done|congruence].
Qed.

(** Protobuf conversion of payment promises is a bijection between the
    wire messages [FromProto] accepts and the promises it produces: no field is
    lost in either direction, the height's sign conversion included. *)
Theorem promise_proto_roundtrip pb p :
  proto_ok pb → FromProto (Some pb) = Ok p →
  ToProto p = Ok pb ∧ ∀ pb', ToProto p = Ok pb' → FromProto (Some pb') = Ok p.
Proof.
  intros (Hh & _) H. pose proof H as H'. apply FromProto_Ok in H as (_ & _ & ->). unfold ToProto. cbn.
  rewrite wrap_i64_u64 by done. split; [by destruct pb|]. intros pb' Heq. inv_ok. subst pb'. by destruct pb.
Qed.
End Encodings.

(** For every uint32 blob size the price of a promise is the fixed cost
    plus the cost of its 256 KiB chunks rounded up, no intermediate value wraps,
    it is positive and never decreases with the size. *)
Theorem payment_amount_exact n m :
  u32 n → u32 m → n <= m →
  (∃ chunks, Amount (PaymentAmount n) = 650000 + 45000 * chunks ∧
    (chunks - 1) * 262144 < n <= chunks * 262144) ∧
  0 < Amount (PaymentAmount n) <= Amount (PaymentAmount m) ∧ u64 (Amount (PaymentAmount m)).
Proof.
  intros Hn Hm Hle. unfold PaymentAmount; cbn [Amount]. rewrite !EstimateGas_exact by done.
  pose proof (chunk_count_bounds n Hn). pose proof (chunk_count_bounds m Hm).
  assert (chunk_count n <= chunk_count m) by (apply Z.div_le_mono; unfold PFBFibreChunkSize; lia).
  unfold PFBFibreGasFixedCost, PFBFibreGasPerChunk, u64, two64. split_and!; try lia.
  exists (chunk_count n). split; [done|]. unfold chunk_count, PFBFibreChunkSize.
  pose proof (Z.div_mod (n + 262144 - 1) 262144 ltac:(lia)).
  pose proof (Z.mod_pos_bound (n + 262144 - 1) 262144 ltac:(lia)). lia.
Qed.

(** ** Concrete inputs *)

Module EncodingExample.
Import SdkModel FibreExample.

Definition client_promise : PaymentPromise :=
  mkPaymentPromise (Some key) "celestia" (repeat 1 29) 1000 0 (repeat 2 32) t0 (7 :: repeat 3 63) 10.

Definition promise_hash : bytes := from_ok [] (Hash client_promise).

Lemma client_promise_ok : proto_ok (promise 0).
Proof. apply promise_ok. hours. Qed.

Lemma promise_hash_identifies_witness :
  client_promise = client_promise ∨ promise_collision client_promise client_promise.
Proof.
  apply (promise_hash_identifies (promise 0) (promise 0) client_promise client_promise promise_hash
    client_promise_ok client_promise_ok); reflexivity.
Defined.

Lemma promise_proto_roundtrip_witness : ToProto client_promise = Ok (promise 0).
Proof. apply (promise_proto_roundtrip (promise 0) client_promise client_promise_ok). reflexivity. Defined.

Lemma payment_amount_exact_witness :
  Amount (PaymentAmount 262144) = 695000 ∧ Amount (PaymentAmount 262145) = 740000 ∧
  0 < Amount (PaymentAmount 262144) <= Amount (PaymentAmount 262145).
Proof.
  destruct (payment_amount_exact 262144 262145) as (_ & H & _); [split; done|split; done|done|].
  split_and!; [reflexivity|reflexivity|apply H..].
Defined.
End EncodingExample.
