(* ===== verification/EscrowLedger.v ===== *)
(** * The client's escrow ledger

    [fibre/escrow_ledger.go] and the admission part of [fibre/client_put.go]:
    concurrent uploads share one local balance, seeded once from the chain and
    topped up by deposits. The functions are cut at their atomic sections (one
    critical section, one atomic flag access or one remote call each), and the
    uploads of a client interleave at those points. *)

From S2P Require Import Prelude Sdk FibreParams.
#[local] Open Scope Z_scope.

(** ** The ledger *)

Record EscrowConfig := mkEscrowConfig {
  AutoFund : bool;
  LowWatermark : Z;
  HighWatermark : Z;
  RefillCheckInterval : Z;
  StartupGracePeriod : Z;
}.

(** The fields that change, and the creation time. *)
Record escrowLedger := mkLedger {
  l_createdAt : Z;
  l_balance : Z;
  l_seeded : bool;
  l_refilling : bool;
}.

Definition newEscrowLedger (now : Z) : escrowLedger := mkLedger now 0 false false.

Definition set_balance (l : escrowLedger) (b : Z) : escrowLedger :=
  mkLedger (l_createdAt l) b (l_seeded l) (l_refilling l).
Definition set_seeded (l : escrowLedger) : escrowLedger :=
  mkLedger (l_createdAt l) (l_balance l) true (l_refilling l).
Definition set_refilling (l : escrowLedger) (r : bool) : escrowLedger :=
  mkLedger (l_createdAt l) (l_balance l) (l_seeded l) r.

Definition inStartupGrace (cfg : EscrowConfig) (l : escrowLedger) (now : Z) : bool :=
  if StartupGracePeriod cfg <=? 0 then false
  else time_Before now (l_createdAt l + StartupGracePeriod cfg).

(** [escrowLedger.admit]: the updated ledger, [ok] and [low]. *)
Definition try_admit (cfg : EscrowConfig) (l : escrowLedger) (amount : Z) : escrowLedger * bool * bool :=
  if l_balance l <? amount then (l, false, l_balance l <? LowWatermark cfg)
  else
    let l' := set_balance l (l_balance l - amount) in
    (l', true, l_balance l' <? LowWatermark cfg).

Definition credit (l : escrowLedger) (amount : Z) : escrowLedger := set_balance l (l_balance l + amount).

(** ** Threads

    A thread is an upload ([Put]) of a given price or a background refill. *)

Inductive pc :=
| PutStart (a : Z)                     (* ensureSeeded: the lock-free checks *)
| SeedWait (a : Z)                     (* ensureSeeded: at seedMu.Lock *)
| SeedQuery (a : Z)                    (* holding seedMu: EscrowBalance *)
| SeedStore (a bal : Z)                (* holding seedMu: l.balance = bal *)
| SeedPublish (a : Z)                  (* holding seedMu: seeded.Store(true) *)
| PutAdmit (a : Z)                     (* admitEscrow: ledger.admit *)
| WaitCheck (a : Z)                    (* waitForBudget: the guards *)
| WaitAdmit (a : Z)                    (* waitForBudget: admit at the loop's head *)
| RefillEnter (k : option Z)           (* refill: guards and CompareAndSwap *)
| RefillRead (k : option Z)            (* refill: compute the deposit *)
| RefillDeposit (k : option Z) (d : Z) (* refill: DepositToEscrow *)
| RefillApply (k : option Z) (d : Z)   (* refill: deposit landed, not applied *)
| RefillExit (k : option Z)            (* refill: refilling.Store(false) *)
| WaitRecheck (a : Z)                  (* waitForBudget: admit after the refill *)
| WaitPoll (a : Z)                     (* waitForBudget: the select *)
| Reserved (a : Z)                     (* admitted, promise not signed *)
| Unreserved (a : Z)                   (* AutoFund disabled: the zero reservation *)
| Signed (a : Z)                       (* promise dispatched, not settled *)
| Finished.

(** A refill returns to the upload that waits for it, or ends. *)
Definition after_refill (k : option Z) : pc :=
  match k with Some a => WaitRecheck a | None => Finished end.

(** What the threads share: the clock, the signer's available escrow balance on
    the chain, the ledger and the holder of [seedMu]. *)
Record Shared := mkShared {
  sh_now : Z;
  sh_chain : Z;
  sh_ledger : escrowLedger;
  sh_seedMu : option nat;
}.

Definition with_ledger (s : Shared) (l : escrowLedger) : Shared := mkShared (sh_now s) (sh_chain s) l (sh_seedMu s).
Definition with_seedMu (s : Shared) (o : option nat) : Shared := mkShared (sh_now s) (sh_chain s) (sh_ledger s) o.
Definition with_chain (s : Shared) (c : Z) : Shared := mkShared (sh_now s) c (sh_ledger s) (sh_seedMu s).

(** How a remote call or a choice of the upload turns out. *)
Inductive outcome := Succeed | Error | ErrorLanded.

(** The next program point and shared state, and whether a background refill is
    started. [None]: the thread is blocked. *)
Definition moved : Type := option (pc * Shared * bool).

Section Steps.
Context (cfg : EscrowConfig).

Definition ensureSeeded_step (i : nat) (o : outcome) (p : pc) (s : Shared) : moved :=
  match p with
  | PutStart a =>
      if l_seeded (sh_ledger s) then Some (PutAdmit a, s, false)
      else if inStartupGrace cfg (sh_ledger s) (sh_now s) then Some (PutAdmit a, s, false)
      else Some (SeedWait a, s, false)
  | SeedWait a =>
      match sh_seedMu s with
      | Some _ => None
      | None =>
          if l_seeded (sh_ledger s) then Some (PutAdmit a, s, false)
          else Some (SeedQuery a, with_seedMu s (Some i), false)
      end
  | SeedQuery a =>
      match o with
      | Succeed => Some (SeedStore a (sh_chain s), s, false)
      | _ => Some (Finished, with_seedMu s None, false)
      end
  | SeedStore a bal => Some (SeedPublish a, with_ledger s (set_balance (sh_ledger s) bal), false)
  | SeedPublish a =>
      Some (PutAdmit a, with_seedMu (with_ledger s (set_seeded (sh_ledger s))) None, false)
  | _ => None
  end.

Definition refill_step (o : outcome) (p : pc) (s : Shared) : moved :=
  let l := sh_ledger s in
  match p with
  | RefillEnter k =>
      if negb (AutoFund cfg) then Some (after_refill k, s, false)
      else if inStartupGrace cfg l (sh_now s) then Some (after_refill k, s, false)
      else if l_refilling l then Some (after_refill k, s, false)
      else Some (RefillRead k, with_ledger s (set_refilling l true), false)
  | RefillRead k =>
      let deposit := HighWatermark cfg - l_balance l in
      if 0 <? deposit then Some (RefillDeposit k deposit, s, false) else Some (RefillExit k, s, false)
  | RefillDeposit k d =>
      match o with
      | Succeed => Some (RefillApply k d, with_chain s (sh_chain s + d), false)
      | Error => Some (RefillExit k, s, false)
      | ErrorLanded => Some (RefillExit k, with_chain s (sh_chain s + d), false)
      end
  | RefillApply k d => Some (RefillExit k, with_ledger s (set_balance l (l_balance l + d)), false)
  | RefillExit k => Some (after_refill k, with_ledger s (set_refilling l false), false)
  | _ => None
  end.

Definition waitForBudget_step (o : outcome) (p : pc) (s : Shared) : moved :=
  match p with
  | WaitCheck a =>
      if AutoFund cfg && (HighWatermark cfg <? a) then Some (Finished, s, false)
      else if inStartupGrace cfg (sh_ledger s) (sh_now s) then Some (Finished, s, false)
      else Some (WaitAdmit a, s, false)
  | WaitAdmit a =>
      let '(l, ok, _) := try_admit cfg (sh_ledger s) a in
      Some (if ok then Reserved a else RefillEnter (Some a), with_ledger s l, false)
  | WaitRecheck a =>
      let '(l, ok, _) := try_admit cfg (sh_ledger s) a in
      Some (if ok then Reserved a else WaitPoll a, with_ledger s l, false)
  | WaitPoll a =>
      match o with Succeed => Some (WaitAdmit a, s, false) | _ => Some (Finished, s, false) end
  | _ => None
  end.

(** [admitEscrow]: with [AutoFund] disabled it returns the zero reservation and
    the upload goes on without the ledger. *)
Definition admitEscrow_enter (a : Z) : pc := if negb (AutoFund cfg) then Unreserved a else PutStart a.

(** [admitEscrow] after the ledger is seeded. *)
Definition admitEscrow_step (p : pc) (s : Shared) : moved :=
  match p with
  | PutAdmit a =>
      let '(l, ok, low) := try_admit cfg (sh_ledger s) a in
      Some (if ok then Reserved a else WaitCheck a, with_ledger s l, ok && low)
  | _ => None
  end.

(** The rest of [Put]: the upload fails before the promise is dispatched and
    [abort] credits the ledger, if the reservation has one; or the promise is
    dispatched and later debited on the chain, when the balance covers it. *)
Definition put_step (o : outcome) (p : pc) (s : Shared) : moved :=
  match p with
  | Reserved a =>
      match o with
      | Succeed => Some (Signed a, s, false)
      | _ => Some (Finished, with_ledger s (credit (sh_ledger s) a), false)
      end
  | Unreserved a =>
      match o with
      | Succeed => Some (Signed a, s, false)
      | _ => Some (Finished, s, false)
      end
  | Signed a => if a <=? sh_chain s then Some (Finished, with_chain s (sh_chain s - a), false) else None
  | _ => None
  end.

Definition thread_step (i : nat) (o : outcome) (p : pc) (s : Shared) : moved :=
  match p with
  | PutStart _ | SeedWait _ | SeedQuery _ | SeedStore _ _ | SeedPublish _ => ensureSeeded_step i o p s
  | PutAdmit _ => admitEscrow_step p s
  | WaitCheck _ | WaitAdmit _ | WaitRecheck _ | WaitPoll _ => waitForBudget_step o p s
  | RefillEnter _ | RefillRead _ | RefillDeposit _ _ | RefillApply _ _ | RefillExit _ => refill_step o p s
  | Reserved _ | Unreserved _ | Signed _ => put_step o p s
  | Finished => None
  end.

(** ** Executions *)

Record System := mkSystem { sys_shared : Shared; sys_threads : gmap nat pc; sys_next : nat }.

Inductive event :=
| Put (blobSize : Z)        (* a new upload *)
| Tick (dt : Z)             (* time passes *)
| Fund (x : Z)              (* somebody deposits to the escrow account *)
| Drain (x : Z)             (* a withdrawal, or a promise the client did not make, takes from it *)
| Run (i : nat) (o : outcome).

Definition spawn (σ : System) (p : pc) : System :=
  mkSystem (sys_shared σ) (<[sys_next σ := p]> (sys_threads σ)) (S (sys_next σ)).

Definition sys_step (σ : System) (e : event) : option System :=
  let s := sys_shared σ in
  match e with
  | Put size =>
      if (0 <=? size) && (size <? two32)
      then Some (spawn σ (admitEscrow_enter (Amount (PaymentAmount size)))) else None
  | Tick dt =>
      if 0 <=? dt
      then Some (mkSystem (mkShared (sh_now s + dt) (sh_chain s) (sh_ledger s) (sh_seedMu s))
                   (sys_threads σ) (sys_next σ))
      else None
  | Fund x =>
      if 0 <=? x then Some (mkSystem (with_chain s (sh_chain s + x)) (sys_threads σ) (sys_next σ)) else None
  | Drain x =>
      if (0 <=? x) && (x <=? sh_chain s)
      then Some (mkSystem (with_chain s (sh_chain s - x)) (sys_threads σ) (sys_next σ)) else None
  | Run i o =>
      match sys_threads σ !! i with
      | None => None
      | Some p =>
          match thread_step i o p s with
          | None => None
          | Some (p', s', async) =>
              let σ' := mkSystem s' (<[i := p']> (sys_threads σ)) (sys_next σ) in
              Some (if async then spawn σ' (RefillEnter None) else σ')
          end
      end
  end.

Fixpoint run (es : list event) (σ : System) : option System :=
  match es with
  | [] => Some σ
  | e :: es' => match sys_step σ e with Some σ' => run es' σ' | None => None end
  end.

(** A client that starts on an account with some available balance. *)
Definition initial (now chain : Z) : System := mkSystem (mkShared now chain (newEscrowLedger now) None) ∅ 0.

(** Funds promised by dispatched, unsettled promises. *)
Definition committed (p : pc) : Z := match p with Signed a => a | _ => 0 end.
Definition outstanding (σ : System) : Z := msum committed (sys_threads σ).

(** Funds that left the account in a run without the client's doing: by
    withdrawals, and by promises of another client or an earlier process. *)
Fixpoint drained (es : list event) : Z :=
  match es with
  | [] => 0
  | Drain x :: es' => x + drained es'
  | _ :: es' => drained es'
  end.
End Steps.

(** ** The invariant *)

(** Funds of the chain's balance a thread stands for: an admitted payment, or a
    deposit that landed and is not yet in the local balance. *)
Definition exposure (p : pc) : Z :=
  match p with Reserved a | Signed a | RefillApply _ a => a | _ => 0 end.

(** The program points that hold [seedMu]. *)
Definition holding (p : pc) : Prop :=
  match p with SeedQuery _ | SeedStore _ _ | SeedPublish _ => True | _ => False end.

(** The program points of a client whose ledger is not seeded. *)
Definition early (p : pc) : Prop :=
  match p with PutStart _ | SeedWait _ | SeedQuery _ | SeedStore _ _ | SeedPublish _ | Finished => True | _ => False end.

Definition price_ok (k : option Z) : Prop := match k with Some a => 0 <= a | None => True end.

Definition amount_ok (p : pc) : Prop :=
  match p with
  | PutStart a | SeedWait a | SeedQuery a | SeedStore a _ | SeedPublish a | PutAdmit a | WaitCheck a
  | WaitAdmit a | WaitRecheck a | WaitPoll a | Reserved a | Signed a => 0 <= a
  | Unreserved _ => False
  | RefillEnter k | RefillRead k | RefillExit k => price_ok k
  | RefillDeposit k d | RefillApply k d => price_ok k ∧ 0 <= d
  | Finished => True
  end.

(** What left the account without the client's doing. *)
Section Drained.
Context (d : Z).

(** The seeding thread's view of the chain's balance stays covered. *)
Definition seed_ok (s : Shared) (p : pc) : Prop :=
  match p with
  | SeedStore _ bal => 0 <= bal <= sh_chain s + d
  | SeedPublish _ => 0 <= l_balance (sh_ledger s) <= sh_chain s + d
  | _ => True
  end.

Definition phase_ok (s : Shared) (p : pc) : Prop :=
  if l_seeded (sh_ledger s) then ¬ holding p else early p.

Definition thread_ok (s : Shared) (i : nat) (p : pc) : Prop :=
  amount_ok p ∧ (holding p → sh_seedMu s = Some i) ∧ phase_ok s p ∧ seed_ok s p.

(** The local balance and everything taken from it are covered by the chain. *)
Definition shared_ok (s : Shared) (exposed : Z) : Prop :=
  if l_seeded (sh_ledger s) then 0 <= l_balance (sh_ledger s) ∧ l_balance (sh_ledger s) + exposed <= sh_chain s + d
  else 0 <= sh_chain s ∧ exposed = 0.

Definition sys_inv (σ : System) : Prop :=
  0 <= d ∧ (∀ i p, sys_threads σ !! i = Some p → (i < sys_next σ)%nat ∧ thread_ok (sys_shared σ) i p) ∧
  shared_ok (sys_shared σ) (msum exposure (sys_threads σ)).
End Drained.

#[global] Instance early_dec p : Decision (early p).
Proof. destruct p; apply _. Defined.

Section Invariant.
Context (cfg : EscrowConfig) (Hfund : AutoFund cfg = true) (Hgrace : StartupGracePeriod cfg <= 0).

Lemma no_grace l now : inStartupGrace cfg l now = false.
Proof. unfold inStartupGrace. by rewrite (proj2 (Z.leb_le _ _) Hgrace). Qed.

Lemma amount_exposure p : amount_ok p → 0 <= exposure p.
Proof. destruct p; cbn; tauto || lia. Qed.

Lemma amount_after_refill k : price_ok k → amount_ok (after_refill k).
Proof. by destruct k. Qed.

Lemma after_refill_plain k : ¬ holding (after_refill k) ∧ exposure (after_refill k) = 0 ∧ ∀ d s, seed_ok d s (after_refill k).
Proof. destruct k; cbn; auto. Qed.

Section Steps.
Context (d : Z) (Hd : 0 <= d).

(** The outcome of one step of a thread on its own obligations and on those of
    the other threads. *)
Definition step_ok (s s' : Shared) (i : nat) (p p' : pc) (exposed : Z) : Prop :=
  thread_ok d s' i p' ∧ shared_ok d s' (exposed - exposure p + exposure p') ∧
  ∀ j q, j ≠ i → thread_ok d s j q → thread_ok d s' j q.

(** Reduce a step to its branch. *)
Ltac branch H :=
  repeat match type of H with
  | context [if ?b then _ else _] => destruct b eqn:?
  | context [match ?x with _ => _ end] => destruct x eqn:?
  end; try discriminate H; injection H as <- <- <-.

Lemma ensureSeeded_ok i o p s p' s' b exposed :
  ensureSeeded_step cfg i o p s = Some (p', s', b) → thread_ok d s i p → shared_ok d s exposed →
  step_ok s s' i p p' exposed ∧ b = false.
Proof.
  intros H (Ha & Hl & Hp & Hs) Hsh. unfold ensureSeeded_step in H. unfold step_ok, thread_ok, phase_ok, shared_ok in *.
  destruct p; cbn in *; try discriminate H; try rewrite no_grace in H; branch H; cbn in *;
    rewrite ?Z.sub_0_r, ?Z.add_0_r;
    repeat match goal with
    | E : l_seeded _ = _ |- _ => rewrite E in *
    end; split_and?; try tauto; try lia; try done;
    try (destruct (l_seeded _); tauto || lia).
  all: intros j q Hji; destruct q; cbn; intros (? & Hlq & Hpq & Hsq); split_and!; try tauto; try lia; try done.
  all: try (destruct (l_seeded _); tauto || lia).
  all: specialize (Hlq I); try specialize (Hl I); congruence.
Qed.

(** Steps of a seeded client that leave the seeding lock alone. *)
Lemma seeded_step s s' i p p' exposed :
  l_seeded (sh_ledger s) = true → l_seeded (sh_ledger s') = true → sh_seedMu s' = sh_seedMu s →
  amount_ok p' → ¬ holding p' → seed_ok d s' p' →
  shared_ok d s' (exposed - exposure p + exposure p') → step_ok s s' i p p' exposed.
Proof.
  intros Hs Hs' Hmu Ha Hh Hso Hsh. unfold step_ok, thread_ok, phase_ok. rewrite Hs, Hs', Hmu.
  split_and!; try tauto. intros j q _ (? & ? & Hq & ?). split_and!; try done. by destruct q.
Qed.

Lemma late_seeded s i p : thread_ok d s i p → ¬ early p → l_seeded (sh_ledger s) = true.
Proof. unfold thread_ok, phase_ok. destruct (l_seeded _); tauto. Qed.

Lemma admit_spec l a l' ok low : try_admit cfg l a = (l', ok, low) →
  if ok then a <= l_balance l ∧ l' = set_balance l (l_balance l - a) else l' = l.
Proof.
  unfold try_admit. destruct (Z.ltb_spec (l_balance l) a); intros [= <- <- <-]; [done|]. split; [lia|done].
Qed.

Lemma other_steps_ok i o p s p' s' b exposed :
  thread_step cfg i o p s = Some (p', s', b) → thread_ok d s i p → shared_ok d s exposed → ¬ early p →
  step_ok s s' i p p' exposed.
Proof.
  intros H Hp Hsh Hl. pose proof (late_seeded _ _ _ Hp Hl) as Hs. destruct Hp as (Ha & _ & _ & _).
  unfold shared_ok in Hsh. rewrite Hs in Hsh.
  destruct p; cbn in Hl; try tauto; cbn in H; rewrite ?no_grace in H;
    try (destruct (try_admit cfg (sh_ledger s) _) as [[l' ok] low] eqn:E; apply admit_spec in E; destruct ok);
    branch H; destruct_and?; subst;
    (apply seeded_step; cbn in *; [done|done|done|..]);
    unfold shared_ok; cbn; rewrite ?Hs; try destruct k; cbn in *; try tauto; try lia.
Qed.

Lemma thread_step_ok i o p s p' s' b exposed :
  thread_step cfg i o p s = Some (p', s', b) → thread_ok d s i p → shared_ok d s exposed →
  step_ok s s' i p p' exposed ∧ (b = true → l_seeded (sh_ledger s') = true).
Proof.
  intros H Hp Hsh. destruct (decide (early p)) as [He|He].
  - assert (ensureSeeded_step cfg i o p s = Some (p', s', b)) as H' by (destruct p; cbn in He; done).
    destruct (ensureSeeded_ok _ _ _ _ _ _ _ _ H' Hp Hsh) as [? ->]. done.
  - split; [by eapply other_steps_ok|]. pose proof (late_seeded _ _ _ Hp He) as Hs.
    intros ->. destruct p; cbn in *; try tauto; try (destruct (try_admit cfg _ _) as [[l' ok] low] eqn:E; apply admit_spec in E;
      injection H as <- <- Hb; destruct ok; [|done]; destruct_and?; subst; done); branch H.
Qed.

Lemma insert_thread σ s' i p' :
  (∀ j q, sys_threads σ !! j = Some q → (j < sys_next σ)%nat ∧ (j ≠ i → thread_ok d s' j q)) →
  (i < sys_next σ)%nat → thread_ok d s' i p' →
  ∀ j q, <[i := p']> (sys_threads σ) !! j = Some q → (j < sys_next σ)%nat ∧ thread_ok d s' j q.
Proof.
  intros Hold Hi Hnew j q Hq. destruct (decide (j = i)) as [->|Hne].
  - rewrite lookup_insert_eq in Hq. by injection Hq as <-.
  - rewrite lookup_insert_ne in Hq by done. destruct (Hold _ _ Hq). auto.
Qed.

(** A new thread that stands for no funds. *)
Lemma spawn_inv σ p : sys_inv d σ → thread_ok d (sys_shared σ) (sys_next σ) p → exposure p = 0 → sys_inv d (spawn σ p).
Proof.
  intros (Hd' & Ht & Hs) Hp He. unfold spawn. split; [done|]. split; cbn.
  - intros j q Hq. destruct (decide (j = sys_next σ)) as [->|Hne].
    + rewrite lookup_insert_eq in Hq. injection Hq as <-. split; [lia|done].
    + rewrite lookup_insert_ne in Hq by done. destruct (Ht _ _ Hq). split; [lia|done].
  - rewrite msum_insert, He; [done|]. destruct (sys_threads σ !! sys_next σ) eqn:E; [|done].
    apply Ht in E as [? _]. lia.
Qed.

End Steps.

(** What happens to the account besides the client's steps. *)
Lemma environment_inv d d' σ now chain : sys_inv d σ → 0 <= d' → sh_chain (sys_shared σ) + d <= chain + d' → 0 <= chain ∨ sh_chain (sys_shared σ) <= chain →
  let s := sys_shared σ in
  sys_inv d' (mkSystem (mkShared now chain (sh_ledger s) (sh_seedMu s)) (sys_threads σ) (sys_next σ)).
Proof.
  intros (Hd & Ht & Hs) Hd' Hc Hc0 s. subst s. split; [done|]. split; cbn.
  - intros i p Hp. apply Ht in Hp as (? & Ha & Hl & Hph & Hso). split; [done|].
    split; [done|]. split; [done|]. split; [done|]. destruct p; cbn in *; try done; lia.
  - unfold shared_ok in *. cbn. destruct (l_seeded _); lia.
Qed.

(** What an event takes from the account. *)
Definition drain (e : event) : Z := match e with Drain x => x | _ => 0 end.

Lemma run_step_inv d i o p s' p' async σ : sys_inv d σ → sys_threads σ !! i = Some p → thread_step cfg i o p (sys_shared σ) = Some (p', s', async) →
  let σ' := mkSystem s' (<[i := p']> (sys_threads σ)) (sys_next σ) in sys_inv d (if async then spawn σ' (RefillEnter None) else σ').
Proof.
  intros (Hd & Ht & Hs) Hp Hst σ'. subst σ'. destruct (Ht _ _ Hp) as [Hi Hpi].
  destruct (thread_step_ok d Hd _ _ _ _ _ _ _ _ Hst Hpi Hs) as [(Hok & Hsh & Hoth) Has].
  assert (sys_inv d (mkSystem s' (<[i:=p']> (sys_threads σ)) (sys_next σ))) as Hnew.
  { split; [done|]. split; cbn; [|by rewrite (msum_update _ _ _ _ _ Hp)].
    apply insert_thread; [|done|done]. intros j q Hq. apply Ht in Hq as [? ?]. auto. }
  destruct async; [|done]. apply spawn_inv; [done..| |done].
  unfold thread_ok, phase_ok. cbn. rewrite (Has eq_refl). tauto.
Qed.

Lemma sys_step_inv d σ e σ' : sys_inv d σ → sys_step cfg σ e = Some σ' → sys_inv (d + drain e) σ' ∧ 0 <= drain e.
Proof.
  intros Hinv H. pose proof Hinv as (Hd & _). destruct e as [size|dt|x|x|i o]; cbn in H; cbn [drain]; rewrite ?Z.add_0_r.
  - case_match eqn:E; [|done]. injection H as <-. split; [|done]. unfold admitEscrow_enter. rewrite Hfund. apply spawn_inv; [done..| |done].
    apply andb_prop in E as [H1 H2].
    assert (0 < Amount (PaymentAmount size)) as Hpos by (apply PaymentAmount_pos; unfold u32; lia).
    cbn in Hpos. unfold thread_ok, phase_ok. cbn. split_and!; [lia|done| |done]. destruct (l_seeded _); auto.
  - case_match; [|done]. injection H as <-. split; [|done]. eapply environment_inv; [exact Hinv|lia..].
  - case_match eqn:E; [|done]. injection H as <-. split; [|done]. eapply environment_inv; [exact Hinv|lia..].
  - case_match eqn:E; [|done]. injection H as <-. apply andb_prop in E as [H1 H2]. split; [|lia]. eapply environment_inv; [exact Hinv|lia..].
  - destruct (sys_threads σ !! i) as [p|] eqn:Hp; [|done].
    destruct (thread_step cfg i o p (sys_shared σ)) as [[[p' s'] async]|] eqn:Hst; [|done]. injection H as <-.
    split; [|done]. by eapply run_step_inv.
Qed.

Lemma run_inv es : ∀ d σ σ', sys_inv d σ → run cfg es σ = Some σ' → sys_inv (d + drained es) σ'.
Proof.
  induction es as [|e es IH]; intros d σ σ' Hinv H; cbn in H; [injection H as <-; cbn; by rewrite Z.add_0_r|].
  destruct (sys_step cfg σ e) as [σ1|] eqn:E; [|done]. destruct (sys_step_inv d σ e σ1 Hinv E) as [H1 _].
  replace (d + drained (e :: es)) with (d + drain e + drained es) by (destruct e; cbn; lia). by eapply IH.
Qed.

Lemma initial_inv now chain : 0 <= chain → sys_inv 0 (initial now chain).
Proof. intros Hc. split; [done|]. split; [by intros i p Hp|]. cbn. by split. Qed.

Lemma outstanding_exposed d σ : sys_inv d σ → outstanding σ <= msum exposure (sys_threads σ).
Proof.
  intros (_ & Ht & _). assert (∀ i p, sys_threads σ !! i = Some p → committed p <= exposure p) as Hle.
  { intros i p Hp. apply Ht in Hp as (_ & Ha & _). apply amount_exposure in Ha. destruct p; cbn in *; lia. }
  unfold outstanding. clear Ht. induction (sys_threads σ) as [|i p m Hi IH] using map_ind; [by rewrite !msum_empty|].
  rewrite !msum_insert by done. pose proof (Hle i p (lookup_insert_eq _ _ _)).
  assert (msum committed m <= msum exposure m); [|lia]. apply IH. intros j q Hq. apply (Hle j).
  rewrite lookup_insert_ne; congruence.
Qed.

End Invariant.

(** ** Deposits are single-flighted *)

(** The program points at which a refill holds the [refilling] flag. *)
Definition in_refill (p : pc) : Prop :=
  match p with RefillRead _ | RefillDeposit _ _ | RefillApply _ _ | RefillExit _ => True | _ => False end.

Definition flight_inv (σ : System) : Prop :=
  (∀ i p, sys_threads σ !! i = Some p → (i < sys_next σ)%nat ∧
    (in_refill p → l_refilling (sh_ledger (sys_shared σ)) = true)) ∧
  (∀ i j p q, sys_threads σ !! i = Some p → sys_threads σ !! j = Some q → in_refill p → in_refill q → i = j).

Section SingleFlight.
Context (cfg : EscrowConfig).

Definition enters (s s' : Shared) (p p' : pc) : Prop :=
  ¬ in_refill p ∧ in_refill p' ∧ l_refilling (sh_ledger s) = false ∧ l_refilling (sh_ledger s') = true.

(** A step enters the refill, leaves it, or neither and keeps the flag. *)
Lemma flight_step i o p s p' s' b : thread_step cfg i o p s = Some (p', s', b) →
  enters s s' p p' ∨ (in_refill p ∧ ¬ in_refill p') ∨
  ((in_refill p ↔ in_refill p') ∧ l_refilling (sh_ledger s') = l_refilling (sh_ledger s)).
Proof.
  intros H. unfold enters. destruct p; cbn in H;
    repeat match type of H with
    | context [try_admit cfg ?l ?a] => destruct (try_admit cfg l a) as [[l' ok] low] eqn:E; apply admit_spec in E
    | context [if ?b then _ else _] => destruct b eqn:?
    | context [match ?x with _ => _ end] => destruct x eqn:?
    end; try discriminate H; injection H as <- <- <-; try destruct k; cbn in *; destruct_and?; subst; cbn; tauto.
Qed.

Lemma flight_spawn σ p : flight_inv σ → ¬ in_refill p → flight_inv (spawn σ p).
Proof.
  intros [Ht Hu] Hp. unfold spawn. split; cbn.
  - intros j q Hq. destruct (decide (j = sys_next σ)) as [->|Hne].
    + rewrite lookup_insert_eq in Hq. injection Hq as <-. split; [lia|tauto].
    + rewrite lookup_insert_ne in Hq by done. destruct (Ht _ _ Hq). split; [lia|done].
  - intros i j q r Hi Hj Hq Hr. apply lookup_insert_Some in Hi as [[? <-]|[? Hi]]; [tauto|].
    apply lookup_insert_Some in Hj as [[? <-]|[? Hj]]; [tauto|]. by eapply Hu.
Qed.

Lemma sys_step_flight σ e σ' : flight_inv σ → sys_step cfg σ e = Some σ' → flight_inv σ'.
Proof.
  intros Hinv H. destruct e as [size|dt|x|x|i o]; cbn in H.
  - case_match; [|done]. injection H as <-. apply flight_spawn; [done|]. unfold admitEscrow_enter. destruct (AutoFund cfg); cbn; tauto.
  - case_match; [|done]. by injection H as <-.
  - case_match; [|done]. by injection H as <-.
  - case_match; [|done]. by injection H as <-.
  - destruct (sys_threads σ !! i) as [p|] eqn:Hp; [|done].
    destruct (thread_step cfg i o p (sys_shared σ)) as [[[p' s'] async]|] eqn:Hst; [|done]. injection H as <-.
    assert (flight_inv (mkSystem s' (<[i:=p']> (sys_threads σ)) (sys_next σ))) as Hnew.
    { destruct Hinv as [Ht Hu]. destruct (Ht _ _ Hp) as [Hi Hpi]. apply flight_step in Hst. unfold enters in Hst.
      split; cbn.
      - intros j q [[<- <-]|[Hne Hq]]%lookup_insert_Some.
        + split; [done|]. intros Hin. destruct Hst as [?|[?|[Hiff ->]]]; [tauto|tauto|]. apply Hpi. tauto.
        + destruct (Ht _ _ Hq) as [? Hqi]. split; [done|]. intros Hin. specialize (Hqi Hin).
          destruct Hst as [?|[[Hin' _]|[_ ->]]]; [tauto| |done]. destruct Hne. by eapply Hu.
      - intros j k q r Hj Hk Hq Hr. apply lookup_insert_Some in Hj as [[<- <-]|[Hne Hj]];
          apply lookup_insert_Some in Hk as [[<- <-]|[Hne' Hk]]; [done| | |by eapply Hu].
        all: destruct Hst as [(_ & _ & Hf & _)|[?|[Hiff _]]]; [|tauto|eapply Hu; eauto; tauto].
        + destruct (Ht _ _ Hk) as [_ Hqi]. rewrite Hqi in Hf by done. done.
        + destruct (Ht _ _ Hj) as [_ Hqi]. rewrite Hqi in Hf by done. done. }
    destruct async; [|done]. apply flight_spawn; [done|cbn; tauto].
Qed.

Lemma run_flight es : ∀ σ σ', flight_inv σ → run cfg es σ = Some σ' → flight_inv σ'.
Proof.
  induction es as [|e es IH]; intros σ σ' Hinv H; cbn in H; [by injection H as <-|].
  destruct (sys_step cfg σ e) as [σ1|] eqn:E; [|done]. eauto using sys_step_flight.
Qed.
End SingleFlight.

(** ** What the ledger guarantees *)

(** C37: with [AutoFund] and without a startup grace period, in every
    interleaving of uploads, refills and the chain, the promises a client has
    dispatched and the local balance it may still admit against are together
    covered by the signer's available balance on the chain, up to what
    withdrawals and promises of other clients or of an earlier process took
    from it; without those they are covered. The local balance is never
    negative. *)
Theorem escrow_never_overcommitted cfg now chain es σ :
  AutoFund cfg = true → StartupGracePeriod cfg <= 0 → 0 <= chain → run cfg es (initial now chain) = Some σ →
  outstanding σ <= sh_chain (sys_shared σ) + drained es ∧
  (l_seeded (sh_ledger (sys_shared σ)) = true →
    0 <= l_balance (sh_ledger (sys_shared σ)) ∧
    l_balance (sh_ledger (sys_shared σ)) + outstanding σ <= sh_chain (sys_shared σ) + drained es).
Proof.
  intros Ha Hg Hc H. pose proof (run_inv cfg Ha Hg es 0 _ _ (initial_inv now chain Hc) H) as Hinv.
  pose proof (outstanding_exposed _ σ Hinv) as Ho. destruct Hinv as (Hd & _ & Hs). unfold shared_ok in Hs. cbn in Hd, Hs.
  destruct (l_seeded _); [|split; [lia|done]]. split; [lia|]. intros _. lia.
Qed.

(** In every interleaving at most one refill holds the refilling flag, so
    at most one deposit is being computed, submitted or credited at a time. *)
Theorem refills_single_flight cfg now chain es σ i j p q :
  run cfg es (initial now chain) = Some σ →
  sys_threads σ !! i = Some p → sys_threads σ !! j = Some q → in_refill p → in_refill q → i = j.
Proof.
  intros H. apply (run_flight cfg es) in H as [_ Hu]; [apply Hu|].
  split; [by intros ? ? ?|by intros ? ? ? ? ?].
Qed.

(** ** A run across the end of the startup grace period *)

Module EscrowExample.
Definition cfg (grace : Z) : EscrowConfig := mkEscrowConfig true 100000 1000000 Second grace.

(** An upload of one byte, for which 695000 utia are admitted. *)
Definition price : Z := 695000.

(** The first upload starts within the grace period, finds the ledger unseeded
    and empty, and reaches [waitForBudget] after the period has passed: it funds
    the account, is admitted and signs. The second upload then seeds the ledger
    from the chain's balance, which still includes the first promise. *)
Definition straddling : list event :=
  [Put 1; Run 0 Succeed; Run 0 Succeed; Tick (2 * Hour)] ++ repeat (Run 0 Succeed) 9 ++
  [Put 1] ++ repeat (Run 1 Succeed) 7.

(** Two uploads share the account; the first one signs and starts a refill. *)
Definition uploads : list event :=
  [Put 1; Put 1] ++ repeat (Run 0 Succeed) 7 ++ [Run 1 Succeed] ++ repeat (Run 2 Succeed) 3.

Definition reached (grace chain : Z) (es : list event) : System := default (initial 0 0) (run (cfg grace) es (initial 0 chain)).

Lemma run_reached grace chain es : is_Some (run (cfg grace) es (initial 0 chain)) →
  run (cfg grace) es (initial 0 chain) = Some (reached grace chain es).
Proof. unfold reached. intros [σ ->]. done. Qed.

Lemma escrow_never_overcommitted_witness :
  outstanding (reached 0 700000 uploads) <= sh_chain (sys_shared (reached 0 700000 uploads)) + drained uploads ∧
  drained uploads = 0 ∧
  outstanding (reached 0 700000 uploads) = price.
Proof.
  destruct (escrow_never_overcommitted (cfg 0) 0 700000 uploads (reached 0 700000 uploads)) as [H _].
  - reflexivity.
  - vm_compute. discriminate.
  - vm_compute. discriminate.
  - apply run_reached. apply (bool_decide_unpack _). vm_compute. exact I.
  - split; [exact H|]. split; [reflexivity|]. vm_compute. reflexivity.
Defined.

(** The first upload is depositing while the second asks for a refill. *)
Definition depositing : list event :=
  [Put 1; Put 1] ++ repeat (Run 0 Succeed) 10 ++ repeat (Run 1 Succeed) 5.

Lemma refills_single_flight_witness :
  sys_threads (reached 0 0 depositing) !! 0%nat = Some (RefillDeposit (Some price) 1000000) ∧
  ∀ j q, sys_threads (reached 0 0 depositing) !! j = Some q → in_refill q → 0%nat = j.
Proof.
  split; [vm_compute; reflexivity|]. intros j q Hj Hq.
  refine (refills_single_flight (cfg 0) 0 0 depositing (reached 0 0 depositing) 0 j
    (RefillDeposit (Some price) 1000000) q _ _ Hj I Hq).
  - apply run_reached. apply (bool_decide_unpack _). vm_compute. exact I.
  - vm_compute. reflexivity.
Defined.

(** With a startup grace period the ledger can overcommit: a run in which
    one upload straddles the end of the period leaves promises outstanding that
    the escrow account cannot cover. *)
Theorem startup_grace_overcommits :
  ∃ σ, run (cfg Hour) straddling (initial 0 0) = Some σ ∧
    sh_chain (sys_shared σ) = 1000000 ∧ outstanding σ = 2 * price.
Proof. eexists. split; [vm_compute; reflexivity|]. split; vm_compute; reflexivity. Qed.

(** Without [AutoFund], the default, uploads dispatch their promises without the
    ledger: two of them on an empty account are not covered. *)
Theorem unfunded_client_overcommits :
  ∃ σ, run (mkEscrowConfig false 100000 1000000 Second 0) [Put 1; Put 1; Run 0 Succeed; Run 1 Succeed] (initial 0 0) = Some σ ∧
    sh_chain (sys_shared σ) = 0 ∧ outstanding σ = 2 * price.
Proof. eexists. split; [vm_compute; reflexivity|]. split; vm_compute; reflexivity. Qed.
End EscrowExample.
