(* ===== verification/FibreGenesis.v ===== *)
(** * x/fibre: genesis

    [x/fibre/keeper/genesis.go] and [x/fibre/types/genesis.go]: importing,
    exporting and validating the module's state. *)

From S2P Require Import Prelude Sdk SdkModel FibreParams FibreKeys FibrePromise FibreKeeper FibreLedger.
From S2P Require Import FibreMsgServer FibreInvariant FibreBeginBlock FibreTrace FibreExample.
#[local] Open Scope Z_scope.

Record GenesisState := mkGenesisState {
  gs_Params : Params;
  gs_EscrowAccounts : list EscrowAccount;
  gs_Withdrawals : list Withdrawal;
  gs_ProcessedPayments : list ProcessedPayment;
  gs_PromiseFreshnessFloor : Z;
}.

Definition DefaultGenesis : GenesisState := mkGenesisState DefaultParams [] [] [] zero_time.

Section Genesis.
Context `{TF : TimeFormat} `{CO : CoinOps}.

(** ** Import and export *)

Definition InitGenesis (st : Store) (gs : GenesisState) : Store :=
  let st := SetParams st (gs_Params gs) in
  let st := fold_left SetEscrowAccount (gs_EscrowAccounts gs) st in
  let st := fold_left SetWithdrawal (gs_Withdrawals gs) st in
  let st := fold_left SetProcessedPayment (gs_ProcessedPayments gs) st in
  if negb (time_IsZero (gs_PromiseFreshnessFloor gs))
  then SetPromiseFreshnessFloor st (gs_PromiseFreshnessFloor gs) else st.

(** An iteration runs its callback on each value until it asks to stop. *)
Fixpoint iterate {A S} (callback : A → S → S * bool) (l : list A) (s : S) : S :=
  match l with
  | [] => s
  | a :: l' => let '(s', stop) := callback a s in if (stop : bool) then s' else iterate callback l' s'
  end.

Definition IterateEscrowAccounts {S} (st : Store) (callback : EscrowAccount → S → S * bool) (s : S) : S :=
  iterate callback (prefix_iter EscrowAccountKeyPrefix (kv_escrow st)).*2 s.

Definition IterateWithdrawals {S} (st : Store) (callback : Withdrawal → S → S * bool) (s : S) : S :=
  iterate callback (prefix_iter WithdrawalsBySignerKeyPrefix (kv_wd_signer st)).*2 s.

Definition IterateProcessedPayments {S} (st : Store) (callback : ProcessedPayment → S → S * bool) (s : S) : S :=
  iterate callback (prefix_iter ProcessedPaymentsByHashKeyPrefix (kv_pay_hash st)).*2 s.

(** [genesis.X = append(genesis.X, x); return false]. *)
Definition collect {A} (a : A) (l : list A) : list A * bool := (l ++ [a], false).

(** A floor that does not parse is a panic. *)
Definition ExportGenesis (st : Store) : result GenesisState :=
  let escrowAccounts := IterateEscrowAccounts st collect [] in
  let withdrawals := IterateWithdrawals st collect [] in
  let processedPayments := IterateProcessedPayments st collect [] in
  match GetPromiseFreshnessFloor st with
  | Ok floor => Ok (mkGenesisState (GetParams st) escrowAccounts withdrawals processedPayments floor)
  | Err e => Panic e
  | Panic p => Panic p
  end.

(** ** Validation *)

(** The loop over the accounts, with the map of signers seen so far. *)
Definition validate_account (signerMap : gset bytes) (account : EscrowAccount) : result (gset bytes) :=
  _ ← ensure (negb (length (ea_Signer account) =? 0)%nat) "ErrInvalidSigner";
  _ ← ensure (negb (bool_decide (ea_Signer account ∈ signerMap))) "ErrDuplicateSigner";
  _ ← ensure (coin_IsValid (ea_Balance account)) "ErrInvalidBalance";
  _ ← ensure (coin_IsValid (ea_AvailableBalance account)) "ErrInvalidBalance";
  _ ← ensure (Amount (ea_AvailableBalance account) <=? Amount (ea_Balance account)) "ErrInvalidBalance";
  Ok (signerMap ∪ {[ ea_Signer account ]}).

Definition validate_withdrawal (u : unit) (withdrawal : Withdrawal) : result unit :=
  _ ← ensure (negb (length (wd_Signer withdrawal) =? 0)%nat) "ErrInvalidSigner";
  _ ← ensure (coin_IsValid (wd_Amount withdrawal) && coin_IsPositive (wd_Amount withdrawal)) "ErrInvalidAmount";
  ensure (negb (time_IsZero (wd_RequestedTimestamp withdrawal))) "ErrInvalidTimestamp".

Definition validate_payment (hashMap : gset bytes) (payment : ProcessedPayment) : result (gset bytes) :=
  _ ← ensure (negb (length (pay_PaymentPromiseHash payment) =? 0)%nat) "ErrInvalidHash";
  _ ← ensure (negb (bool_decide (pay_PaymentPromiseHash payment ∈ hashMap))) "ErrDuplicateHash";
  _ ← ensure (negb (time_IsZero (pay_ProcessedAt payment))) "ErrInvalidTimestamp";
  Ok (hashMap ∪ {[ pay_PaymentPromiseHash payment ]}).

Definition GenesisState_Validate (gs : GenesisState) : result unit :=
  _ ← Params_Validate (gs_Params gs);
  _ ← fold_res validate_account (gs_EscrowAccounts gs) ∅;
  _ ← fold_res validate_withdrawal (gs_Withdrawals gs) tt;
  _ ← fold_res validate_payment (gs_ProcessedPayments gs) ∅;
  Ok tt.

(** ** Building an index from a list of values *)

Section Index.
Context {A : Type} (key : A → bytes).

Definition index_all (l : list A) (m : gmap bytes A) : gmap bytes A :=
  fold_left (λ m a, <[key a := a]> m) l m.

Lemma index_all_lookup l : ∀ m k a,
  (∀ a1 a2, a1 ∈ l → a2 ∈ l → key a1 = key a2 → a1 = a2) →
  index_all l m !! k = Some a ↔ (a ∈ l ∧ k = key a) ∨ (m !! k = Some a ∧ ∀ b, b ∈ l → key b ≠ k).
Proof.
  induction l as [|x l IH]; intros m k a Hinj; cbn.
  { split; [intros H; right; split; [done|]; intros b Hb; by apply elem_of_nil in Hb|].
    intros [[H _]|[H _]]; [by apply elem_of_nil in H|done]. }
  fold (index_all l (<[key x := x]> m)). rewrite IH.
  2: { intros a1 a2 H1 H2. apply Hinj; by right. }
  rewrite lookup_insert_Some. split.
  - intros [[Hin ->]|[[[<- <-]|[Hne Hm]] Hno]].
    + left. split; [by right|done].
    + left. split; [by left|done].
    + right. split; [done|]. intros b [->|Hb]%elem_of_cons; [done|by apply Hno].
  - intros [[[->|Hin]%elem_of_cons ->]|[Hm Hno]].
    + destruct (decide (Exists (λ b, key b = key x) l)) as [Hex|Hnex].
      * left. apply Exists_exists in Hex as (b & Hb & Hk).
        assert (b = x) as -> by (apply Hinj; [by right|by left|done]). done.
      * right. split; [by left|]. intros b Hb Hk. apply Hnex, Exists_exists. eauto.
    + by left.
    + right. split; [right; split; [apply Hno; by left|done]|]. intros b Hb. apply Hno. by right.
Qed.

(** A map whose keys are computed from its values is rebuilt from them. *)
Lemma index_all_rebuild (m : gmap bytes A) l :
  (∀ a, a ∈ l ↔ m !! key a = Some a) → (∀ k a, m !! k = Some a → k = key a) →
  index_all l ∅ = m.
Proof.
  intros Hl Hk. apply map_eq_iff. intros k. apply option_eq. intros a.
  rewrite index_all_lookup.
  - rewrite lookup_empty. split.
    + intros [[Hin ->]|[? _]]; [by apply Hl|done].
    + intros Hm. left. pose proof (Hk _ _ Hm) as ->. split; [by apply Hl|done].
  - intros a1 a2 H1%Hl H2%Hl Heq. rewrite Heq in H1. congruence.
Qed.
End Index.

(** ** What the import loops do *)

Lemma fold_SetEscrowAccount l : ∀ st,
  fold_left SetEscrowAccount l st =
  mkStore (kv_params st) (index_all (λ a, EscrowAccountKey (ea_Signer a)) l (kv_escrow st))
    (kv_wd_signer st) (kv_wd_avail st) (kv_pay_hash st) (kv_pay_time st) (kv_floor st).
Proof. induction l as [|a l IH]; intros st; cbn [fold_left]; [by destruct st|]. by rewrite IH. Qed.

Lemma fold_SetWithdrawal l : ∀ st,
  fold_left SetWithdrawal l st =
  mkStore (kv_params st) (kv_escrow st) (index_all wd_primary_key l (kv_wd_signer st))
    (index_all wd_secondary_key l (kv_wd_avail st)) (kv_pay_hash st) (kv_pay_time st) (kv_floor st).
Proof. induction l as [|a l IH]; intros st; cbn [fold_left]; [by destruct st|]. by rewrite IH. Qed.

Lemma fold_SetProcessedPayment l : ∀ st,
  fold_left SetProcessedPayment l st =
  mkStore (kv_params st) (kv_escrow st) (kv_wd_signer st) (kv_wd_avail st)
    (index_all pay_primary_key l (kv_pay_hash st)) (index_all pay_secondary_key l (kv_pay_time st)) (kv_floor st).
Proof. induction l as [|a l IH]; intros st; cbn [fold_left]; [by destruct st|]. by rewrite IH. Qed.

Lemma iterate_collect {A} (l : list A) : ∀ acc, iterate collect l acc = acc ++ l.
Proof.
  induction l as [|a l IH]; intros acc; cbn; [by rewrite app_nil_r|].
  rewrite IH, <- (assoc_L (++)). done.
Qed.

(** A scan of a whole key family visits every value. *)
Lemma elem_of_family {A} (p : bytes) (m : gmap bytes A) (key : A → bytes) a :
  (∀ k b, m !! k = Some b → k = key b ∧ p `prefix_of` k) →
  a ∈ (prefix_iter p m).*2 ↔ m !! key a = Some a.
Proof.
  intros Hk. rewrite list_elem_of_fmap. split.
  - intros ([k b] & -> & Hin). apply elem_of_prefix_iter in Hin as [Hm _].
    cbn. by destruct (Hk _ _ Hm) as [<- _].
  - intros Hm. exists (key a, a). split; [done|]. apply elem_of_prefix_iter. split; [done|].
    by apply Hk in Hm as [_ ?].
Qed.

Context `{TFL : !TimeFormatLaws} (signer_len : nat).
Notation store_inv := (store_inv signer_len).

(** The lists an export of a consistent store produces. *)
Lemma exported_accounts st a : store_inv st →
  a ∈ IterateEscrowAccounts st collect [] ↔ GetEscrowAccount st (ea_Signer a) = Some a.
Proof.
  intros Hst. unfold IterateEscrowAccounts. rewrite iterate_collect. cbn [app].
  apply (elem_of_family _ _ (λ a, EscrowAccountKey (ea_Signer a))).
  intros k b Hb. destruct (li_escrow _ _ _ _ _ _ (si_ledger _ _ Hst []) _ _ Hb) as (-> & _).
  split; [done|]. by exists (ea_Signer b).
Qed.

Lemma exported_withdrawals st w : store_inv st →
  w ∈ IterateWithdrawals st collect [] ↔ kv_wd_signer st !! wd_primary_key w = Some w.
Proof.
  intros Hst. unfold IterateWithdrawals. rewrite iterate_collect. cbn [app].
  apply (elem_of_family _ _ wd_primary_key).
  intros k b Hb. destruct (li_wd _ _ _ _ _ _ (si_ledger _ _ Hst []) _ _ Hb) as (-> & _).
  split; [done|]. by exists ((wd_Signer b ++ [slash]) ++ FormatTimeBytes (wd_RequestedTimestamp b)).
Qed.

Lemma exported_payments st p : store_inv st →
  p ∈ IterateProcessedPayments st collect [] ↔ kv_pay_hash st !! pay_primary_key p = Some p.
Proof.
  intros Hst. unfold IterateProcessedPayments. rewrite iterate_collect. cbn [app].
  apply (elem_of_family _ _ pay_primary_key).
  intros k b Hb. destruct (pi_hash _ _ (si_pay _ _ Hst) _ _ Hb) as (-> & _).
  split; [done|]. by exists (pay_PaymentPromiseHash b).
Qed.

Lemma set_floor_frame (b : bool) st f :
  let st' := if b then SetPromiseFreshnessFloor st f else st in
  kv_escrow st' = kv_escrow st ∧ kv_wd_signer st' = kv_wd_signer st ∧ kv_wd_avail st' = kv_wd_avail st ∧
  kv_pay_hash st' = kv_pay_hash st ∧ kv_pay_time st' = kv_pay_time st ∧ GetParams st' = GetParams st.
Proof. by destruct b. Qed.

(** Exporting a consistent module state succeeds, and importing what was
    exported into an empty store restores every account, both withdrawal
    indexes, both payment indexes, the parameters and the freshness floor. *)
Theorem genesis_roundtrip st : store_inv st →
  ∃ gs, ExportGenesis st = Ok gs ∧
    let st' := InitGenesis empty_store gs in
    kv_escrow st' = kv_escrow st ∧ kv_wd_signer st' = kv_wd_signer st ∧ kv_wd_avail st' = kv_wd_avail st ∧
    kv_pay_hash st' = kv_pay_hash st ∧ kv_pay_time st' = kv_pay_time st ∧
    GetParams st' = GetParams st ∧ GetPromiseFreshnessFloor st' = GetPromiseFreshnessFloor st.
Proof.
  intros Hst. destruct (si_floor _ _ Hst) as (f & Hf & Hft).
  unfold ExportGenesis. rewrite Hf. eexists. split; [reflexivity|].
  unfold InitGenesis. cbn [gs_Params gs_EscrowAccounts gs_Withdrawals gs_ProcessedPayments gs_PromiseFreshnessFloor].
  rewrite fold_SetEscrowAccount, fold_SetWithdrawal, fold_SetProcessedPayment.
  cbn [kv_params kv_escrow kv_wd_signer kv_wd_avail kv_pay_hash kv_pay_time kv_floor SetParams empty_store].
  pose proof (si_ledger _ _ Hst []) as [He Hw _ Ha Hi]. pose proof (si_pay _ _ Hst) as [Hph Hpt].
  set (base := mkStore _ _ _ _ _ _ _).
  destruct (set_floor_frame (negb (time_IsZero f)) base f) as (-> & -> & -> & -> & -> & ->). unfold base.
  cbn [kv_escrow kv_wd_signer kv_wd_avail kv_pay_hash kv_pay_time].
  split_and!.
  - apply index_all_rebuild; [intros a; by apply exported_accounts|]. intros k a Hk. by apply He in Hk as [? _].
  - apply index_all_rebuild; [intros w; by apply exported_withdrawals|]. intros k w Hk. by apply Hw in Hk as [? _].
  - apply index_all_rebuild; [|intros k w Hk; by apply Ha in Hk as [? _]].
    intros w. rewrite exported_withdrawals by done. split; [apply Hi|]. intros Hk. by apply Ha in Hk as [_ ?].
  - apply index_all_rebuild; [intros p; by apply exported_payments|]. intros k p Hk. by apply Hph in Hk as [? _].
  - apply index_all_rebuild; [|intros k p Hk; by apply Hpt in Hk as [? _]].
    intros p. rewrite exported_payments by done. split; [intros Hk; by apply Hph in Hk as (_ & _ & ?)|].
    intros Hk. by apply Hpt in Hk as [_ ?].
  - done.
  - unfold time_IsZero, zero_time. destruct (Z.eqb_spec f 0) as [->|Hne]; cbn [negb].
    + done.
    + by apply GetFloor_Set.
Qed.

(** ** What validation is for *)

Lemma validate_accounts_nodup l : ∀ seen seen',
  fold_res validate_account l seen = Ok seen' →
  NoDup (ea_Signer <$> l) ∧ ∀ a, a ∈ l → ea_Signer a ∉ seen.
Proof.
  induction l as [|a l IH]; intros seen seen' H; cbn [fold_res fmap list_fmap] in *.
  { split; [constructor|]. intros a Ha. by apply elem_of_nil in Ha. }
  inv_ok. unfold validate_account in Hr. inv_ok. subst r.
  apply negb_true_iff, bool_decide_eq_false in Hr1. apply IH in H as [Hn Hs]. split.
  - apply NoDup_cons. split; [|done]. intros Hin.
    apply list_elem_of_fmap in Hin as (b & Heq & Hb). apply Hs in Hb. set_solver.
  - intros b [->|Hb]%elem_of_cons; [done|]. apply Hs in Hb. set_solver.
Qed.

Lemma validate_payments_nodup l : ∀ seen seen',
  fold_res validate_payment l seen = Ok seen' →
  NoDup (pay_PaymentPromiseHash <$> l) ∧ ∀ p, p ∈ l → pay_PaymentPromiseHash p ∉ seen.
Proof.
  induction l as [|p l IH]; intros seen seen' H; cbn [fold_res fmap list_fmap] in *.
  { split; [constructor|]. intros p Hp. by apply elem_of_nil in Hp. }
  inv_ok. unfold validate_payment in Hr. inv_ok. subst r.
  apply negb_true_iff, bool_decide_eq_false in Hr1. apply IH in H as [Hn Hs]. split.
  - apply NoDup_cons. split; [|done]. intros Hin.
    apply list_elem_of_fmap in Hin as (q & Heq & Hq). apply Hs in Hq. set_solver.
  - intros q [->|Hq]%elem_of_cons; [done|]. apply Hs in Hq. set_solver.
Qed.

Lemma NoDup_fmap_inj {A B} (f : A → B) l a b :
  NoDup (f <$> l) → a ∈ l → b ∈ l → f a = f b → a = b.
Proof.
  induction l as [|x l IH]; cbn; intros Hn Ha Hb Heq; [by apply elem_of_nil in Ha|].
  apply NoDup_cons in Hn as [Hx Hn].
  apply elem_of_cons in Ha as [->|Ha]; apply elem_of_cons in Hb as [->|Hb]; auto.
  - exfalso. apply Hx. rewrite Heq. by apply list_elem_of_fmap_2.
  - exfalso. apply Hx. rewrite <- Heq. by apply list_elem_of_fmap_2.
Qed.

(** A genesis state that passes validation is imported without losing an
    account or a processed payment: each one is found in the store under its
    signer or hash, and the imported parameters are valid. *)
Theorem valid_genesis_imported gs :
  GenesisState_Validate gs = Ok tt →
  let st := InitGenesis empty_store gs in
  params_ok (GetParams st) ∧
  (∀ a, a ∈ gs_EscrowAccounts gs → GetEscrowAccount st (ea_Signer a) = Some a) ∧
  (∀ p, p ∈ gs_ProcessedPayments gs → GetProcessedPayment st (pay_PaymentPromiseHash p) = Some p).
Proof.
  intros H st. unfold GenesisState_Validate in H. inv_ok. destruct r, r1.
  apply validate_accounts_nodup in Hr0 as [Hna _]. apply validate_payments_nodup in Hr2 as [Hnp _].
  unfold st, InitGenesis. rewrite fold_SetEscrowAccount, fold_SetWithdrawal, fold_SetProcessedPayment.
  set (base := mkStore _ _ _ _ _ _ _).
  destruct (set_floor_frame (negb (time_IsZero (gs_PromiseFreshnessFloor gs))) base (gs_PromiseFreshnessFloor gs))
    as (E1 & _ & _ & E4 & _ & E6). cbv zeta in E1, E4, E6.
  split_and!.
  - rewrite E6. cbn. by apply Params_Validate_Ok.
  - intros a Ha. unfold GetEscrowAccount. rewrite E1. cbn. apply index_all_lookup; [|by left].
    intros a1 a2 H1 H2 Heq%EscrowAccountKey_inj. by apply (NoDup_fmap_inj ea_Signer (gs_EscrowAccounts gs)).
  - intros p Hp. unfold GetProcessedPayment. rewrite E4. cbn. apply index_all_lookup; [|by left].
    intros p1 p2 H1 H2 [= Heq]. by apply (NoDup_fmap_inj pay_PaymentPromiseHash (gs_ProcessedPayments gs)).
Qed.
End Genesis.

(** ** Concrete runs *)

Import SdkModel FibreExample.

Lemma genesis_roundtrip_witness : ∃ gs, ExportGenesis (w_store world4) = Ok gs.
Proof.
  destruct (genesis_roundtrip 33 (w_store world4)) as (gs & Hgs & _);
    [apply (world_inv_at _ chain4_reachable)|by exists gs].
Defined.

Definition sample_genesis : GenesisState :=
  mkGenesisState DefaultParams
    [mkEscrowAccount [1] (mkCoin BondDenom 5) (mkCoin BondDenom 5); mkEscrowAccount [2] (mkCoin BondDenom 7) (mkCoin BondDenom 3)]
    [] [mkProcessedPayment [9] t0] zero_time.

Lemma valid_genesis_imported_witness :
  GetEscrowAccount (InitGenesis empty_store sample_genesis) [2] =
    Some (mkEscrowAccount [2] (mkCoin BondDenom 7) (mkCoin BondDenom 3)).
Proof.
  destruct (valid_genesis_imported sample_genesis) as (_ & Ha & _); [vm_compute; reflexivity|].
  apply (Ha (mkEscrowAccount [2] (mkCoin BondDenom 7) (mkCoin BondDenom 3))).
  right. left.
Defined.
