(* ===== verification/FibreCache.v ===== *)
(** * x/fibre: the validator-local promise cache and the query server

    [x/fibre/keeper/local_promise_cache.go] and [x/fibre/keeper/grpc_query.go].
    The cache reserves escrow budget for the promises a validator has accepted
    and that have not settled yet. *)

From S2P Require Import Prelude Sdk SdkModel FibreParams FibreKeys FibrePromise FibreKeeper FibreMsgServer FibreExample.
#[local] Open Scope Z_scope.

(** ** Hexadecimal strings ([encoding/hex]) *)

Definition hex_digit (n : Z) : Z := if n <? 10 then 48 + n else 87 + n.

Definition hex_value (c : Z) : option Z :=
  if (48 <=? c) && (c <=? 57) then Some (c - 48)
  else if (97 <=? c) && (c <=? 102) then Some (c - 87)
  else if (65 <=? c) && (c <=? 70) then Some (c - 55)
  else None.

Definition hex_EncodeToString (b : bytes) : bytes :=
  concat (map (λ x, [hex_digit (x / 16); hex_digit (x mod 16)]) b).

Fixpoint hex_DecodeString (s : bytes) : option bytes :=
  match s with
  | [] => Some []
  | c1 :: c2 :: s' =>
      match hex_value c1, hex_value c2, hex_DecodeString s' with
      | Some h, Some l, Some b => Some (h * 16 + l :: b)
      | _, _, _ => None
      end
  | [_] => None
  end.

Lemma hex_value_digit n : 0 <= n < 16 → hex_value (hex_digit n) = Some n.
Proof.
  intros Hn. unfold hex_digit, hex_value. destruct (Z.ltb_spec n 10);
    repeat match goal with |- context [?a <=? ?b] => destruct (Z.leb_spec a b); try lia end;
    cbn; f_equal; lia.
Qed.

Lemma hex_roundtrip b : Forall byte_ok b → hex_DecodeString (hex_EncodeToString b) = Some b.
Proof.
  induction 1 as [|x b Hx Hb IH]; [done|]. unfold byte_ok in Hx.
  cbn [hex_EncodeToString map concat app]. fold (hex_EncodeToString b). cbn [hex_DecodeString].
  rewrite !hex_value_digit, IH.
  - f_equal. f_equal. pose proof (Z.div_mod x 16). lia.
  - apply Z.mod_pos_bound. lia.
  - split; [apply Z.div_pos; lia|apply Z.div_lt_upper_bound; lia].
Qed.

(** ** State *)

Definition promiseCacheStaleAfter : Z := Hour.
Definition promiseCacheEvictBuffer : Z := Hour.
Definition promiseCacheEvictInterval : Z := 10 * Minute.

Record signerBudget := mkSignerBudget {
  sb_remaining : Z;
  sb_lastSweep : Z;
  sb_lastActivity : Z;
  sb_opsSinceSweep : Z;
  sb_lastFailSweepH : Z;
  sb_hashes : gset bytes;
}.

Record pendingPromise := mkPendingPromise { pp_blobSize : Z; pp_creationTimestamp : Z }.

Record LocalPromiseCache := mkCache {
  pc_budgets : gmap bytes signerBudget;
  pc_pending : gmap bytes pendingPromise;
  pc_lastEvict : Z;
}.

Definition NewLocalPromiseCache : LocalPromiseCache := mkCache ∅ ∅ zero_time.

(** The wall-clock readings of one call, in program order: each is an
    arbitrary instant. *)
Record Readings := mkReadings {
  rd_evict_check : Z;
  rd_idle : bytes → Z;
  rd_evicted : Z;
  rd_stale_check : Z;
  rd_sweep : nat → Z * Z;
  rd_reserve : Z;
}.

(** [c.pending[key]] yields the zero value on an absent key. *)
Definition pending_get (pending : gmap bytes pendingPromise) (key : bytes) : pendingPromise :=
  default (mkPendingPromise 0 zero_time) (pending !! key).

Definition requiredAmount (blobSize : Z) : Z := EstimateGasForPayForFibre blobSize.

Section Cache.
Context `{TF : TimeFormat} `{CO : CoinOps} `{AC : AddressCodec} `{CR : Crypto}.

Definition isStale (now : Z) (b : signerBudget) : bool :=
  (0 <? sb_opsSinceSweep b) && (promiseCacheStaleAfter <? now - sb_lastSweep b).

(** One iteration of [evictIdleLocked] over the budgets. *)
Definition evict_step (idle_now : bytes → Z) (c : LocalPromiseCache) (entry : bytes * signerBudget)
    : LocalPromiseCache :=
  let '(signer, b) := entry in
  let threshold := MaxWithdrawalDelay + promiseCacheEvictBuffer in
  if threshold <? idle_now signer - sb_lastActivity b then
    mkCache (delete signer (pc_budgets c))
      (fold_left (λ p key, delete key p) (elements (sb_hashes b)) (pc_pending c)) (pc_lastEvict c)
  else c.

Definition evictIdleLocked (idle_now : bytes → Z) (c : LocalPromiseCache) : LocalPromiseCache :=
  fold_left (evict_step idle_now) (map_to_list (pc_budgets c)) c.

(** One iteration of the loop of [sweep] over the signer's hashes. *)
Definition sweep_step (st : Store) (staleBefore : Z)
    (acc : gset bytes * gmap bytes pendingPromise * Z) (key : bytes)
    : gset bytes * gmap bytes pendingPromise * Z :=
  let '(hashes, pending, committed) := acc in
  let drop := match hex_DecodeString key with
              | None => true
              | Some hash => IsPaymentProcessedByHash st hash
                  || negb (time_After (pp_creationTimestamp (pending_get pending key)) staleBefore)
              end in
  if drop then (hashes ∖ {[ key ]}, delete key pending, committed)
  else (hashes, pending, committed + requiredAmount (pp_blobSize (pending_get pending key))).

Definition available (st : Store) (signer : bytes) : Z :=
  match GetEscrowAccount st signer with
  | Some acc => Amount (ea_AvailableBalance acc)
  | None => 0
  end.

Definition empty_budget : signerBudget := mkSignerBudget 0 zero_time zero_time 0 0 ∅.

Definition sweep (ctx : Context) (st : Store) (now : Z * Z) (c : LocalPromiseCache) (signer : bytes)
    : LocalPromiseCache :=
  let b := default empty_budget (pc_budgets c !! signer) in
  let staleBefore := ctx_BlockTime ctx - WithdrawalDelay (GetParams st) in
  let '(hashes, pending, committed) :=
    fold_left (sweep_step st staleBefore) (elements (sb_hashes b)) (sb_hashes b, pc_pending c, 0) in
  let remaining := available st signer - committed in
  let remaining := if remaining <? 0 then 0 else remaining in
  let b := mkSignerBudget remaining now.1 now.2 0 (sb_lastFailSweepH b) hashes in
  mkCache (<[signer := b]> (pc_budgets c)) pending (pc_lastEvict c).

Definition reserve (now : Z) (c : LocalPromiseCache) (signer : bytes) (b : signerBudget) (key : bytes)
    (blobSize required creationTimestamp : Z) : LocalPromiseCache :=
  let b := mkSignerBudget (sb_remaining b - required) (sb_lastSweep b) now (sb_opsSinceSweep b + 1)
             (sb_lastFailSweepH b) (sb_hashes b ∪ {[ key ]}) in
  mkCache (<[signer := b]> (pc_budgets c)) (<[key := mkPendingPromise blobSize creationTimestamp]> (pc_pending c))
    (pc_lastEvict c).

(** The budget object the code holds a pointer to. *)
Definition budget (c : LocalPromiseCache) (signer : bytes) : signerBudget :=
  default empty_budget (pc_budgets c !! signer).

Definition set_fail_height (c : LocalPromiseCache) (signer : bytes) (h : Z) : LocalPromiseCache :=
  let b := budget c signer in
  mkCache (<[signer := mkSignerBudget (sb_remaining b) (sb_lastSweep b) (sb_lastActivity b)
                         (sb_opsSinceSweep b) h (sb_hashes b)]> (pc_budgets c)) (pc_pending c) (pc_lastEvict c).

(** The cache after the call, and the error if the budget is insufficient. *)
Definition Reserve (ctx : Context) (st : Store) (rd : Readings) (c : LocalPromiseCache) (signer promiseHash : bytes)
    (blobSize creationTimestamp : Z) : LocalPromiseCache * option error :=
  let key := hex_EncodeToString promiseHash in
  let required := requiredAmount blobSize in
  let c := if promiseCacheEvictInterval <? rd_evict_check rd - pc_lastEvict c
           then let c := evictIdleLocked (rd_idle rd) c in
                mkCache (pc_budgets c) (pc_pending c) (rd_evicted rd)
           else c in
  if bool_decide (is_Some (pc_pending c !! key)) then (c, None) else
  let c := match pc_budgets c !! signer with
           | None => sweep ctx st (rd_sweep rd 0%nat) c signer
           | Some b => if isStale (rd_stale_check rd) b then sweep ctx st (rd_sweep rd 0%nat) c signer else c
           end in
  if required <=? sb_remaining (budget c signer) then
    (reserve (rd_reserve rd) c signer (budget c signer) key blobSize required creationTimestamp, None)
  else if sb_lastFailSweepH (budget c signer) <? ctx_BlockHeight ctx then
    let c := sweep ctx st (rd_sweep rd 1%nat) c signer in
    let c := set_fail_height c signer (ctx_BlockHeight ctx) in
    if required <=? sb_remaining (budget c signer) then
      (reserve (rd_reserve rd) c signer (budget c signer) key blobSize required creationTimestamp, None)
    else (c, Some "insufficient available balance for signer")
  else (c, Some "insufficient available balance for signer").

(** ** Facts *)

Definition required_for (pending : gmap bytes pendingPromise) (key : bytes) : Z :=
  requiredAmount (pp_blobSize (pending_get pending key)).

(** The amount reserved for a set of hashes. *)
Definition reserved (pending : gmap bytes pendingPromise) (hashes : gset bytes) : Z :=
  zsum (map (required_for pending) (elements hashes)).

Definition delete_keys (l : list bytes) (p : gmap bytes pendingPromise) : gmap bytes pendingPromise :=
  fold_left (λ p key, delete key p) l p.

Lemma delete_keys_lookup l : ∀ p k,
  delete_keys l p !! k = if decide (k ∈ l) then None else p !! k.
Proof.
  induction l as [|x l IH]; intros p k; cbn.
  { rewrite decide_False; [done|]. apply not_elem_of_nil. }
  fold (delete_keys l (delete x p)). rewrite IH. destruct (decide (k = x)) as [->|Hne].
  - rewrite lookup_delete_eq. rewrite (decide_True (P := x ∈ x :: l)) by by left. by case_decide.
  - rewrite lookup_delete_ne by done. destruct (decide (k ∈ l)) as [Hin|Hni].
    + rewrite decide_True; [done|]. by right.
    + rewrite decide_False; [done|]. by rewrite not_elem_of_cons.
Qed.

Lemma reserved_ext p1 p2 hs :
  (∀ k, k ∈ hs → p1 !! k = p2 !! k) → reserved p1 hs = reserved p2 hs.
Proof.
  intros Heq. unfold reserved. f_equal. apply map_ext_in. intros k Hk.
  apply list_elem_of_In, elem_of_elements in Hk. unfold required_for, pending_get. by rewrite Heq.
Qed.

Lemma reserved_add p hs k : k ∉ hs → reserved p (hs ∪ {[k]}) = required_for p k + reserved p hs.
Proof.
  intros Hk. unfold reserved.
  rewrite (zsum_Permutation _ (map (required_for p) (k :: elements hs))); [done|].
  apply Permutation_map. rewrite (comm_L (∪)). by apply elements_union_singleton.
Qed.

Lemma reserved_empty p : reserved p ∅ = 0.
Proof. unfold reserved. by rewrite elements_empty. Qed.

(** Whether a sweep drops a key, given the pending promises it started from. *)
Definition drops (st : Store) (staleBefore : Z) (pending : gmap bytes pendingPromise) (key : bytes) : Prop :=
  match hex_DecodeString key with
  | None => True
  | Some hash => IsPaymentProcessedByHash st hash = true ∨
      pp_creationTimestamp (pending_get pending key) <= staleBefore
  end.

#[local] Instance drops_dec st sb p k : Decision (drops st sb p k).
Proof. unfold drops. destruct (hex_DecodeString k); apply _. Defined.

Lemma sweep_step_drops st sb hs p c k :
  sweep_step st sb (hs, p, c) k =
  if decide (drops st sb p k) then (hs ∖ {[k]}, delete k p, c) else (hs, p, c + required_for p k).
Proof.
  unfold sweep_step, time_After, required_for.
  destruct (decide (drops st sb p k)) as [Hd|Hd]; unfold drops in Hd;
    destruct (hex_DecodeString k) as [h|]; [|done| |tauto];
    destruct (IsPaymentProcessedByHash st h); try done; try tauto.
  - destruct Hd as [?|Hle]; [done|]. by rewrite (proj2 (Z.ltb_ge _ _) Hle).
  - rewrite (proj2 (Z.ltb_lt _ _)); [done|]. apply Z.nle_gt. tauto.
Qed.

Lemma drops_ext st sb p1 p2 k : p1 !! k = p2 !! k → drops st sb p1 k ↔ drops st sb p2 k.
Proof. intros Heq. unfold drops, pending_get. by rewrite Heq. Qed.

Lemma sweep_fold st sb p0 l : ∀ hs p c,
  NoDup l → (∀ k, k ∈ l → p !! k = p0 !! k) →
  fold_left (sweep_step st sb) l (hs, p, c) =
  (hs ∖ list_to_set (filter (drops st sb p0) l), delete_keys (filter (drops st sb p0) l) p,
   c + zsum (map (required_for p0) (filter (λ k, ¬ drops st sb p0 k) l))).
Proof.
  induction l as [|x l IH]; intros hs p c Hn Hp.
  { cbn. f_equal; [f_equal; set_solver|lia]. }
  apply NoDup_cons in Hn as [Hx Hn]. cbn [fold_left]. rewrite sweep_step_drops.
  assert (p !! x = p0 !! x) as Hpx by (apply Hp; by left).
  rewrite !filter_cons. destruct (decide (drops st sb p x)) as [Hd|Hd].
  - rewrite (decide_True (P := drops st sb p0 x)) by (by apply (drops_ext _ _ p p0)).
    rewrite (decide_False (P := ¬ drops st sb p0 x)) by (intros Hnd; by apply Hnd, (drops_ext _ _ p p0)).
    rewrite IH; [|done|].
    + f_equal. f_equal. cbn. set_solver.
    + intros k Hk. rewrite lookup_delete_ne; [apply Hp; by right|]. by intros ->.
  - rewrite (decide_False (P := drops st sb p0 x)) by (intros Hnd; by apply Hd, (drops_ext _ _ p p0)).
    rewrite (decide_True (P := ¬ drops st sb p0 x)) by (intros Hnd; by apply Hd, (drops_ext _ _ p p0)).
    rewrite IH; [|done|intros k Hk; apply Hp; by right].
    assert (required_for p x = required_for p0 x) as -> by (unfold required_for, pending_get; by rewrite Hpx).
    f_equal. cbn [map]. rewrite zsum_cons. lia.
Qed.

(** ** The cache invariant *)

(** Every reserved hash is pending, no hash is reserved for two signers, and
    what a signer has reserved and has left stays within a bound on its
    available balance. *)
Record cache_inv (bound : bytes → Z) (c : LocalPromiseCache) : Prop := {
  cv_budget : ∀ s b, pc_budgets c !! s = Some b →
    0 <= sb_remaining b ∧ reserved (pc_pending c) (sb_hashes b) + sb_remaining b <= bound s;
  cv_pending : ∀ s b k, pc_budgets c !! s = Some b → k ∈ sb_hashes b → is_Some (pc_pending c !! k);
  cv_disjoint : ∀ s1 s2 b1 b2 k, pc_budgets c !! s1 = Some b1 → pc_budgets c !! s2 = Some b2 →
    k ∈ sb_hashes b1 → k ∈ sb_hashes b2 → s1 = s2;
}.

(** Dropping keys of one signer's hashes keeps what the others have reserved. *)
Lemma reserved_delete_other bound c s1 b1 s2 b2 l :
  cache_inv bound c → pc_budgets c !! s1 = Some b1 → pc_budgets c !! s2 = Some b2 → s1 ≠ s2 →
  (∀ k, k ∈ l → k ∈ sb_hashes b1) →
  reserved (delete_keys l (pc_pending c)) (sb_hashes b2) = reserved (pc_pending c) (sb_hashes b2).
Proof.
  intros Hinv H1 H2 Hne Hl. apply reserved_ext. intros k Hk. rewrite delete_keys_lookup.
  rewrite decide_False; [done|]. intros Hin. apply Hne. by eapply (cv_disjoint _ _ Hinv); eauto.
Qed.

Lemma evict_step_inv bound now c s b :
  cache_inv bound c → pc_budgets c !! s = Some b → cache_inv bound (evict_step now c (s, b)).
Proof.
  intros Hinv Hb. unfold evict_step. case_match; [|done]. fold (delete_keys (elements (sb_hashes b)) (pc_pending c)).
  assert (∀ k, k ∈ elements (sb_hashes b) → k ∈ sb_hashes b) as Hel by (intros k; by rewrite elem_of_elements).
  constructor; cbn.
  - intros s' b' [Hne Hb']%lookup_delete_Some. rewrite (reserved_delete_other bound c s b s' b'); try done.
    by apply (cv_budget _ _ Hinv).
  - intros s' b' k [Hne Hb']%lookup_delete_Some Hk. rewrite delete_keys_lookup, decide_False.
    + by apply (cv_pending _ _ Hinv s' b').
    + intros Hin%Hel. apply Hne. by eapply (cv_disjoint _ _ Hinv).
  - intros s1 s2 b1 b2 k [_ H1]%lookup_delete_Some [_ H2]%lookup_delete_Some.
    by apply (cv_disjoint _ _ Hinv s1 s2 b1 b2).
Qed.

Lemma evict_step_budgets now c s b s' :
  s' ≠ s → pc_budgets (evict_step now c (s, b)) !! s' = pc_budgets c !! s'.
Proof. intros Hne. unfold evict_step. case_match; [|done]. cbn. by rewrite lookup_delete_ne. Qed.

Lemma evict_fold_inv bound now l : ∀ c,
  cache_inv bound c → NoDup l.*1 → (∀ s b, (s, b) ∈ l → pc_budgets c !! s = Some b) →
  cache_inv bound (fold_left (evict_step now) l c).
Proof.
  induction l as [|[s b] l IH]; intros c Hinv Hn Hl; cbn [fold_left]; [done|].
  cbn in Hn. apply NoDup_cons in Hn as [Hs Hn]. apply IH; [|done|].
  - apply evict_step_inv; [done|]. apply Hl. by left.
  - intros s' b' Hin. rewrite evict_step_budgets; [apply Hl; by right|].
    intros ->. apply Hs. apply list_elem_of_fmap. by exists (s, b').
Qed.

Lemma evictIdleLocked_inv bound now c : cache_inv bound c → cache_inv bound (evictIdleLocked now c).
Proof.
  intros Hinv. apply evict_fold_inv; [done|apply NoDup_fst_map_to_list|].
  intros s b. by rewrite elem_of_map_to_list.
Qed.

Lemma cache_inv_budget bound c s : (∀ t, 0 <= bound t) → cache_inv bound c →
  0 <= sb_remaining (budget c s) ∧ reserved (pc_pending c) (sb_hashes (budget c s)) + sb_remaining (budget c s) <= bound s ∧
  (∀ k, k ∈ sb_hashes (budget c s) → is_Some (pc_pending c !! k)).
Proof.
  intros Hbd Hinv. unfold budget. destruct (pc_budgets c !! s) as [b|] eqn:Hb; cbn.
  - destruct (cv_budget _ _ Hinv _ _ Hb). split_and!; [done..|]. intros k. by apply (cv_pending _ _ Hinv s b).
  - rewrite reserved_empty. specialize (Hbd s). split_and!; [lia|lia|]. intros k. set_solver.
Qed.

(** What a sweep leaves of the signer's hashes. *)
Definition swept_hashes (ctx : Context) (st : Store) (c : LocalPromiseCache) (s : bytes) : gset bytes :=
  filter (λ k, ¬ drops st (ctx_BlockTime ctx - WithdrawalDelay (GetParams st)) (pc_pending c) k)
    (sb_hashes (budget c s)).

Definition swept_pending (ctx : Context) (st : Store) (c : LocalPromiseCache) (s : bytes) : gmap bytes pendingPromise :=
  delete_keys (filter (drops st (ctx_BlockTime ctx - WithdrawalDelay (GetParams st)) (pc_pending c))
    (elements (sb_hashes (budget c s)))) (pc_pending c).

Lemma swept_pending_lookup ctx st c s k :
  k ∈ swept_hashes ctx st c s ∨ k ∉ sb_hashes (budget c s) →
  swept_pending ctx st c s !! k = pc_pending c !! k.
Proof.
  intros Hk. unfold swept_pending. rewrite delete_keys_lookup, decide_False; [done|].
  rewrite list_elem_of_filter, elem_of_elements. unfold swept_hashes in Hk. rewrite elem_of_filter in Hk. tauto.
Qed.

Lemma elements_filter_perm (P : bytes → Prop) `{!∀ x, Decision (P x)} (X : gset bytes) :
  elements (filter P X) ≡ₚ filter P (elements X).
Proof.
  apply NoDup_Permutation; [apply NoDup_elements|apply NoDup_filter, NoDup_elements|].
  intros k. rewrite elem_of_elements, elem_of_filter, list_elem_of_filter, elem_of_elements. done.
Qed.

Lemma sweep_spec ctx st now c s :
  sweep ctx st now c s =
  let committed := reserved (pc_pending c) (swept_hashes ctx st c s) in
  mkCache (<[s := mkSignerBudget (Z.max 0 (available st s - committed)) now.1 now.2 0
                    (sb_lastFailSweepH (budget c s)) (swept_hashes ctx st c s)]> (pc_budgets c))
    (swept_pending ctx st c s) (pc_lastEvict c).
Proof.
  unfold sweep. fold (budget c s).
  rewrite (sweep_fold st _ (pc_pending c)); [|apply NoDup_elements|done].
  cbv zeta. set (sb := ctx_BlockTime ctx - _).
  assert (zsum (map (required_for (pc_pending c))
    (filter (λ k, ¬ drops st sb (pc_pending c) k) (elements (sb_hashes (budget c s)))))
    = reserved (pc_pending c) (swept_hashes ctx st c s)) as ->.
  { unfold reserved. apply zsum_Permutation, Permutation_map. symmetry. apply elements_filter_perm. }
  assert (sb_hashes (budget c s) ∖ list_to_set (filter (drops st sb (pc_pending c)) (elements (sb_hashes (budget c s))))
    = swept_hashes ctx st c s) as ->.
  { apply leibniz_equiv. intros k. unfold swept_hashes. fold sb.
    rewrite elem_of_difference, elem_of_list_to_set, list_elem_of_filter, elem_of_elements, elem_of_filter.
    destruct (decide (drops st sb (pc_pending c) k)); tauto. }
  rewrite Z.add_0_l.
  destruct (Z.ltb_spec (available st s - reserved (pc_pending c) (swept_hashes ctx st c s)) 0);
    repeat f_equal; lia.
Qed.

Lemma requiredAmount_nonneg n : 0 <= requiredAmount n.
Proof.
  unfold requiredAmount, EstimateGasForPayForFibre, PFBFibreGasFixedCost.
  case_match; [lia|]. unfold wrap_u64. apply Z.mod_pos_bound. done.
Qed.

Lemma zsum_filter_le {A} (f : A → Z) (P : A → Prop) `{!∀ x, Decision (P x)} (l : list A) :
  (∀ x, 0 <= f x) → zsum (map f (filter P l)) <= zsum (map f l).
Proof.
  intros Hf. induction l as [|x l IH]; [done|]. rewrite filter_cons. specialize (Hf x).
  case_decide; cbn [map]; rewrite ?zsum_cons; lia.
Qed.

Lemma swept_reserved_le ctx st c s :
  reserved (pc_pending c) (swept_hashes ctx st c s) <= reserved (pc_pending c) (sb_hashes (budget c s)).
Proof.
  unfold reserved at 1. unfold swept_hashes.
  rewrite (zsum_Permutation _ _ (Permutation_map _ (elements_filter_perm _ _))).
  apply zsum_filter_le. intros k. apply requiredAmount_nonneg.
Qed.

Lemma sweep_inv bound ctx st now c s :
  (∀ t, 0 <= bound t) → available st s <= bound s → cache_inv bound c → cache_inv bound (sweep ctx st now c s).
Proof.
  intros Hbd Hav Hinv. rewrite sweep_spec. cbv zeta.
  destruct (cache_inv_budget bound c s Hbd Hinv) as (Hr & Hle & Hpend).
  pose proof (swept_reserved_le ctx st c s) as Hsw.
  assert (∀ k, k ∈ swept_hashes ctx st c s → k ∈ sb_hashes (budget c s)) as Hsub
    by (intros k; unfold swept_hashes; set_solver).
  assert (∀ s' b' k, s' ≠ s → pc_budgets c !! s' = Some b' → k ∈ sb_hashes b' → k ∉ sb_hashes (budget c s)) as Hoth.
  { intros s' b' k Hne Hb' Hk. unfold budget. destruct (pc_budgets c !! s) as [b|] eqn:Hb; cbn; [|set_solver].
    intros Hk2. apply Hne. by eapply (cv_disjoint _ _ Hinv). }
  constructor; cbn.
  - intros s' b' [[<- <-]|[Hne Hb']]%lookup_insert_Some; cbn.
    + rewrite (reserved_ext (swept_pending ctx st c s) (pc_pending c)) by (intros k Hk; apply swept_pending_lookup; by left). lia.
    + rewrite (reserved_ext (swept_pending ctx st c s) (pc_pending c)); [by apply (cv_budget _ _ Hinv)|].
      intros k Hk. apply swept_pending_lookup. right. eapply Hoth; eauto.
  - intros s' b' k [[<- <-]|[Hne Hb']]%lookup_insert_Some Hk; cbn in Hk.
    + rewrite swept_pending_lookup by (by left). by apply Hpend, Hsub.
    + rewrite swept_pending_lookup; [by apply (cv_pending _ _ Hinv s' b')|]. right. eapply Hoth; eauto.
  - intros s1 s2 b1 b2 k H1 H2 Hk1 Hk2.
    apply lookup_insert_Some in H1 as [[<- <-]|[Hne1 H1]];
      apply lookup_insert_Some in H2 as [[<- <-]|[Hne2 H2]]; cbn in *; auto.
    + exfalso. apply (Hoth s2 b2 k); [congruence|done|done|by apply Hsub].
    + exfalso. apply (Hoth s1 b1 k); [congruence|done|done|by apply Hsub].
    + by eapply (cv_disjoint _ _ Hinv).
Qed.

Lemma set_fail_height_inv bound c s h :
  (∀ t, 0 <= bound t) → cache_inv bound c → cache_inv bound (set_fail_height c s h).
Proof.
  intros Hbd Hinv. destruct (cache_inv_budget bound c s Hbd Hinv) as (Hr & Hle & Hpend).
  assert (∀ k s' b', k ∈ sb_hashes (budget c s) → pc_budgets c !! s' = Some b' → k ∈ sb_hashes b' → s = s') as Hoth.
  { intros k s' b'. unfold budget. destruct (pc_budgets c !! s) as [b|] eqn:Hb; cbn; [|set_solver].
    intros Hk Hb' Hk'. by eapply (cv_disjoint _ _ Hinv). }
  constructor; cbn.
  - intros s' b' [[<- <-]|[Hne Hb']]%lookup_insert_Some; cbn; [done|by apply (cv_budget _ _ Hinv)].
  - intros s' b' k [[<- <-]|[Hne Hb']]%lookup_insert_Some Hk; cbn in Hk; [by apply Hpend|].
    by apply (cv_pending _ _ Hinv s' b').
  - intros s1 s2 b1 b2 k H1 H2 Hk1 Hk2.
    apply lookup_insert_Some in H1 as [[<- <-]|[Hne1 H1]];
      apply lookup_insert_Some in H2 as [[<- <-]|[Hne2 H2]]; cbn in *; eauto.
    + symmetry. eauto.
    + by eapply (cv_disjoint _ _ Hinv).
Qed.

Lemma reserve_inv bound now c s key size creation :
  (∀ t, 0 <= bound t) → cache_inv bound c → pc_pending c !! key = None →
  requiredAmount size <= sb_remaining (budget c s) →
  cache_inv bound (reserve now c s (budget c s) key size (requiredAmount size) creation).
Proof.
  intros Hbd Hinv Hnew Hreq. destruct (cache_inv_budget bound c s Hbd Hinv) as (Hr & Hle & Hpend).
  pose proof (requiredAmount_nonneg size).
  set (p' := <[key := mkPendingPromise size creation]> (pc_pending c)).
  assert (key ∉ sb_hashes (budget c s)) as Hk0 by (intros [? Hk]%Hpend; congruence).
  assert (∀ s' b', pc_budgets c !! s' = Some b' → key ∉ sb_hashes b') as Hk1.
  { intros s' b' Hb' Hk. apply (cv_pending _ _ Hinv s' b') in Hk as [? Hk]; [congruence|done]. }
  assert (∀ hs, key ∉ hs → reserved p' hs = reserved (pc_pending c) hs) as Hext.
  { intros hs Hhs. apply reserved_ext. intros k Hk. unfold p'. apply lookup_insert_ne. by intros ->. }
  constructor; cbn; fold p'.
  - intros s' b' [[<- <-]|[Hne Hb']]%lookup_insert_Some; cbn.
    + rewrite reserved_add, Hext by done. unfold required_for, pending_get, p'. rewrite lookup_insert_eq. cbn. lia.
    + rewrite Hext by (by eapply Hk1). by apply (cv_budget _ _ Hinv).
  - intros s' b' k Hb' Hk. destruct (decide (k = key)) as [->|Hkne].
    + unfold p'. rewrite lookup_insert_eq. eauto.
    + unfold p'. rewrite lookup_insert_ne by done.
      apply lookup_insert_Some in Hb' as [[<- <-]|[Hne Hb']]; cbn in *; [apply Hpend; set_solver|].
      by apply (cv_pending _ _ Hinv s' b').
  - assert (∀ k s' b', k ∈ sb_hashes (budget c s) ∪ {[key]} → pc_budgets c !! s' = Some b' → k ∈ sb_hashes b' → s = s') as Hoth.
    { intros k s' b' Hk Hb' Hk'. apply elem_of_union in Hk as [Hk| ->%elem_of_singleton].
      - unfold budget in Hk. destruct (pc_budgets c !! s) as [b|] eqn:Hb; cbn in Hk; [|set_solver].
        by eapply (cv_disjoint _ _ Hinv).
      - exfalso. by eapply Hk1. }
    intros s1 s2 b1 b2 k H1 H2 Hc1 Hc2.
    apply lookup_insert_Some in H1 as [[<- <-]|[Hne1 H1]];
      apply lookup_insert_Some in H2 as [[<- <-]|[Hne2 H2]]; cbn in *; eauto.
    + symmetry. eauto.
    + by eapply (cv_disjoint _ _ Hinv).
Qed.

(** The cache a reservation works on, after the lazy eviction. *)
Definition after_evict (rd : Readings) (c : LocalPromiseCache) : LocalPromiseCache :=
  if promiseCacheEvictInterval <? rd_evict_check rd - pc_lastEvict c
  then mkCache (pc_budgets (evictIdleLocked (rd_idle rd) c)) (pc_pending (evictIdleLocked (rd_idle rd) c)) (rd_evicted rd)
  else c.

Lemma after_evict_inv bound rd c : cache_inv bound c → cache_inv bound (after_evict rd c).
Proof.
  intros Hinv. unfold after_evict. case_match; [|done].
  pose proof (evictIdleLocked_inv bound (rd_idle rd) c Hinv) as [H1 H2 H3]. by constructor.
Qed.

(** A sweep never makes a key pending. *)
Lemma sweep_pending_None ctx st now c s k :
  pc_pending c !! k = None → pc_pending (sweep ctx st now c s) !! k = None.
Proof.
  intros Hk. rewrite sweep_spec. cbn. unfold swept_pending. rewrite delete_keys_lookup. by case_decide.
Qed.

Lemma Reserve_inv bound ctx st rd c s h size creation :
  (∀ t, 0 <= bound t) → (∀ t, available st t <= bound t) → cache_inv bound c →
  cache_inv bound (Reserve ctx st rd c s h size creation).1.
Proof.
  intros Hbd Hav Hinv. unfold Reserve. fold (after_evict rd c).
  apply (after_evict_inv bound rd) in Hinv. set (c1 := after_evict rd c) in *.
  case_bool_decide as Hp; [done|]. apply eq_None_not_Some in Hp.
  set (c2 := match pc_budgets c1 !! s with Some _ => _ | None => _ end).
  assert (cache_inv bound c2 ∧ pc_pending c2 !! hex_EncodeToString h = None) as [Hinv2 Hp2].
  { unfold c2. destruct (pc_budgets c1 !! s) as [b|]; [destruct (isStale _ b); [|done]|];
      (split; [by apply sweep_inv|by apply sweep_pending_None]). }
  destruct (Z.leb_spec (requiredAmount size) (sb_remaining (budget c2 s))); [by apply reserve_inv|].
  destruct (_ <? _); [|done]. set (c3 := set_fail_height _ _ _).
  assert (cache_inv bound c3 ∧ pc_pending c3 !! hex_EncodeToString h = None) as [Hinv3 Hp3].
  { unfold c3. split; [by apply set_fail_height_inv, sweep_inv|by apply sweep_pending_None]. }
  destruct (Z.leb_spec (requiredAmount size) (sb_remaining (budget c3 s))); [by apply reserve_inv|done].
Qed.

(** ** Sequences of reservations *)

(** The caches a validator can reach when every available balance it reads
    stays within [bound]. *)
Inductive cache_reachable (bound : bytes → Z) : LocalPromiseCache → Prop :=
| cache_new : cache_reachable bound NewLocalPromiseCache
| cache_reserve ctx st rd c s h size creation :
    cache_reachable bound c → (∀ t, available st t <= bound t) →
    cache_reachable bound (Reserve ctx st rd c s h size creation).1.

(** However many promises a validator is asked to accept, in whatever
    order and at whatever times, the amounts reserved for a signer never exceed
    the largest available balance the chain has shown for it. *)
Theorem reservations_within_balance bound c s b :
  (∀ t, 0 <= bound t) → cache_reachable bound c → pc_budgets c !! s = Some b →
  reserved (pc_pending c) (sb_hashes b) <= bound s.
Proof.
  intros Hbd Hc Hb. assert (cache_inv bound c) as Hinv.
  { clear Hb. induction Hc as [|ctx st rd c s' h size creation Hc IH Hav]; [|by apply Reserve_inv, IH].
    constructor; cbn; intros *; by rewrite lookup_empty. }
  destruct (cv_budget _ _ Hinv _ _ Hb). lia.
Qed.

(** An accepted promise has its reservation in the cache, and asking
    again for it, for whatever signer and size, succeeds and leaves the cache
    as it is: the budget is not charged a second time. *)
Theorem reserve_idempotent ctx st rd c s h size creation c' ctx' st' rd' s' size' creation' :
  Reserve ctx st rd c s h size creation = (c', None) →
  rd_evict_check rd' - pc_lastEvict c' <= promiseCacheEvictInterval →
  is_Some (pc_pending c' !! hex_EncodeToString h) ∧
  Reserve ctx' st' rd' c' s' h size' creation' = (c', None).
Proof.
  intros Hres Hev. assert (is_Some (pc_pending c' !! hex_EncodeToString h)) as Hp.
  { unfold Reserve in Hres. fold (after_evict rd c) in Hres.
    case_bool_decide as Hb; [by injection Hres as <-|].
    repeat (case_match; try done); injection Hres as <-; cbn; rewrite lookup_insert_eq; eauto. }
  split; [done|]. unfold Reserve. rewrite (proj2 (Z.ltb_ge _ _) Hev). by rewrite bool_decide_true.
Qed.

(** A signer with no entry in the cache gets a new promise accepted
    exactly when its available balance covers the promise. *)
Theorem reserve_first_promise ctx st rd c s h size creation :
  pc_budgets c !! s = None → pc_pending c !! hex_EncodeToString h = None →
  rd_evict_check rd - pc_lastEvict c <= promiseCacheEvictInterval → 0 < requiredAmount size →
  (Reserve ctx st rd c s h size creation).2 = None ↔ requiredAmount size <= available st s.
Proof.
  intros Hs Hk Hev Hpos. unfold Reserve. rewrite (proj2 (Z.ltb_ge _ _) Hev).
  rewrite bool_decide_false by (by apply eq_None_not_Some). rewrite Hs.
  assert (∀ now c0, pc_budgets c0 !! s = None ∨ sb_hashes (budget c0 s) = ∅ →
    sb_remaining (budget (sweep ctx st now c0 s) s) = Z.max 0 (available st s) ∧
    sb_hashes (budget (sweep ctx st now c0 s) s) = ∅) as Hsweep.
  { intros now c0 Hc0. rewrite sweep_spec. unfold budget at 1 3. cbn. rewrite lookup_insert_eq. cbn.
    assert (swept_hashes ctx st c0 s = ∅) as ->.
    { unfold swept_hashes. destruct Hc0 as [Hc0| ->]; [unfold budget; rewrite Hc0; cbn|]; set_solver. }
    rewrite reserved_empty. split; [lia|done]. }
  destruct (Hsweep (rd_sweep rd 0%nat) c) as [Hr1 Hh1]; [by left|].
  set (c1 := sweep _ _ _ c s) in *.
  destruct (Hsweep (rd_sweep rd 1%nat) c1) as [Hr2 _]; [by right|].
  set (c2 := sweep _ _ _ c1 s) in *.
  assert (sb_remaining (budget (set_fail_height c2 s (ctx_BlockHeight ctx)) s) = Z.max 0 (available st s)) as Hr3.
  { unfold budget at 1. cbn. by rewrite lookup_insert_eq. }
  rewrite Hr1, Hr3. destruct (Z.leb_spec (requiredAmount size) (Z.max 0 (available st s))); cbn.
  - split; [lia|done].
  - destruct (_ <? _); cbn; (split; [done|lia]).
Qed.

(** ** The query server *)

(** [codes.InvalidArgument] and the like are part of the error's name; a nil
    request is [None]. *)
Definition Query_Params (st : Store) (req : option unit) : result Params :=
  match req with
  | None => Err "InvalidArgument: invalid request"
  | Some _ => Ok (GetParams st)
  end.

Definition zero_coin : Coin := mkCoin "" 0.
Definition zero_account : EscrowAccount := mkEscrowAccount [] zero_coin zero_coin.

(** The account, the zero value when there is none, and whether it was found. *)
Definition Query_EscrowAccount (st : Store) (req : option bytes) : result (EscrowAccount * bool) :=
  match req with
  | None => Err "InvalidArgument: invalid request"
  | Some signer =>
      _ ← ensure (negb (length signer =? 0)%nat) "InvalidArgument: signer address cannot be empty";
      match GetEscrowAccount st signer with
      | Some account => Ok (account, true)
      | None => Ok (zero_account, false)
      end
  end.

Definition Query_Withdrawals (st : Store) (req : option bytes) : result (list Withdrawal) :=
  match req with
  | None => Err "InvalidArgument: invalid request"
  | Some signer =>
      _ ← ensure (negb (length signer =? 0)%nat) "InvalidArgument: signer address cannot be empty";
      Ok (GetWithdrawalsBySigner st signer)
  end.

Definition Query_IsPaymentProcessed (st : Store) (req : option bytes) : result (option Z * bool) :=
  match req with
  | None => Err "InvalidArgument: invalid request"
  | Some hash =>
      _ ← ensure (negb (length hash =? 0)%nat) "InvalidArgument: payment promise hash cannot be empty";
      let found := IsPaymentProcessedByHash st hash in
      let processedAt := if found then pay_ProcessedAt <$> GetProcessedPayment st hash else None in
      Ok (processedAt, found)
  end.

Record ValidateResponse := mkValidateResponse {
  vr_IsValid : bool;
  vr_ExpirationTime : Z;
  vr_ShardRetention : Z;
}.

(** The keeper's cache is nil when the node was started without it. The
    response or error, and the cache after the call. *)
Definition Query_ValidatePaymentPromise (ctx : Context) (st : Store) (rd : Readings)
    (promiseCache : option LocalPromiseCache) (req : option PromiseProto)
    : result ValidateResponse * option LocalPromiseCache :=
  match req with
  | None => (Err "InvalidArgument: invalid request", promiseCache)
  | Some promise =>
      match ValidatePaymentPromiseStateful ctx st promise with
      | Ok expirationTime =>
          let response := Ok (mkValidateResponse true expirationTime (ShardRetention (GetParams st))) in
          match promiseCache with
          | None => (response, None)
          | Some c =>
              let reservation :=
                _ ← ValidatePaymentPromiseStateless promise;
                hash ← promiseHash promise;
                signer ← promise_signer promise;
                Ok (hash, signer) in
              match reservation with
              | Ok (hash, signer) =>
                  let '(c', err) := Reserve ctx st rd c signer hash (pb_BlobSize promise) (pb_CreationTimestamp promise) in
                  match err with
                  | None => (response, Some c')
                  | Some e => (Err e, Some c')
                  end
              | Err e => (Err e, Some c)
              | Panic p => (Panic p, Some c)
              end
          end
      | Err e => (Err e, promiseCache)
      | Panic p => (Panic p, promiseCache)
      end
  end.

(** The query of a validator with a cache answers that a promise is valid
    only when both its signature and its funding check out and budget was
    reserved for its signer; a promise that fails validation leaves the cache
    untouched. *)
Theorem validate_query_reserves ctx st rd c promise r c' :
  Query_ValidatePaymentPromise ctx st rd (Some c) (Some promise) = (r, Some c') →
  (∀ resp, r = Ok resp →
    ValidatePaymentPromiseInternal ctx st promise = Ok tt ∧
    vr_ExpirationTime resp = pb_CreationTimestamp promise + PaymentPromiseTimeout (GetParams st) ∧
    ∃ h s, promiseHash promise = Ok h ∧ promise_signer promise = Ok s ∧
      Reserve ctx st rd c s h (pb_BlobSize promise) (pb_CreationTimestamp promise) = (c', None)) ∧
  (ValidatePaymentPromiseInternal ctx st promise ≠ Ok tt → c' = c ∧ is_ok r = false).
Proof.
  unfold Query_ValidatePaymentPromise, ValidatePaymentPromiseInternal. intros H.
  destruct (ValidatePaymentPromiseStateful ctx st promise) as [e|e|e] eqn:Hst;
    [|injection H as <- <-; split; [by intros resp ?|done]..].
  destruct (ValidatePaymentPromiseStateless promise) as [[]|e'|e'] eqn:Hsl; cbn [mbind result_bind] in *;
    [|injection H as <- <-; split; [by intros resp ?|done]..].
  split; [|intros Hv; by destruct Hv].
  intros resp ->. split; [done|].
  destruct (promiseHash promise) as [h|e'|e']; cbn [mbind result_bind] in H; try done.
  destruct (promise_signer promise) as [s|e'|e']; cbn [mbind result_bind] in H; try done.
  destruct (Reserve _ _ _ _ _ _ _ _) as [c1 [err|]] eqn:Hres; [done|].
  injection H as <- <-. cbn. split; [|eauto].
  unfold ValidatePaymentPromiseStateful, validatePaymentPromiseStatefulInternal in Hst. inv_ok. done.
Qed.
End Cache.

(** ** Concrete runs *)

Import SdkModel.

Module CacheExample.
Definition rd (t : Z) : Readings := mkReadings t (λ _, t) t t (λ _, (t, t)) t.
Definition ctx : Context := mkContext "celestia" (738000 * 24 * Hour) 10.
Definition st : Store :=
  SetEscrowAccount empty_store (mkEscrowAccount [5] (mkCoin BondDenom 900000) (mkCoin BondDenom 800000)).
Definition now : Z := 738000 * 24 * Hour.
Definition bound (s : bytes) : Z := if decide (s = [5]) then 800000 else 0.

(** One promise fits in the balance, a second one does not. *)
Definition c1 := Reserve ctx st (rd now) NewLocalPromiseCache [5] [1] 1000 now.
Definition c2 := Reserve ctx st (rd now) c1.1 [5] [2] 1000 now.

Lemma available_bound t : available st t <= bound t.
Proof.
  unfold available, bound, GetEscrowAccount. cbn. case_decide as Ht.
  - subst. vm_compute. discriminate.
  - rewrite lookup_insert_ne; [by rewrite lookup_empty|]. intros [= Heq]. congruence.
Qed.

Lemma bound_nonneg t : 0 <= bound t.
Proof. unfold bound. case_decide; lia. Qed.

Lemma second_rejected : c1.2 = None ∧ c2.2 = Some "insufficient available balance for signer".
Proof. split; vm_compute; reflexivity. Qed.

Definition b2 : signerBudget := budget c2.1 [5].

Lemma b2_found : pc_budgets c2.1 !! [5] = Some b2.
Proof. vm_compute. reflexivity. Qed.

Lemma reservations_within_balance_witness : reserved (pc_pending c2.1) (sb_hashes b2) <= 800000.
Proof.
  apply (reservations_within_balance bound c2.1 [5] b2).
  - apply bound_nonneg.
  - apply cache_reserve; [|apply available_bound]. apply cache_reserve; [|apply available_bound]. apply cache_new.
  - apply b2_found.
Defined.

Lemma reserve_idempotent_witness : Reserve ctx st (rd now) c1.1 [5] [1] 1000 now = (c1.1, None).
Proof.
  apply (reserve_idempotent ctx st (rd now) NewLocalPromiseCache [5] [1] 1000 now).
  - vm_compute. reflexivity.
  - vm_compute. discriminate.
Defined.

Lemma reserve_first_promise_witness :
  (Reserve ctx st (rd 0) NewLocalPromiseCache [5] [1] 1000 now).2 = None ↔
  requiredAmount 1000 <= available st [5].
Proof.
  apply (reserve_first_promise ctx st (rd 0) NewLocalPromiseCache [5] [1] 1000 now);
    [reflexivity|reflexivity|vm_compute; discriminate|vm_compute; reflexivity].
Defined.

Import FibreExample.

Definition query :=
  Query_ValidatePaymentPromise (ctx_at 6 11) (w_store world2) (rd (t0 + 6)) (Some NewLocalPromiseCache) (Some (promise 0)).
Definition query_cache : LocalPromiseCache := default NewLocalPromiseCache query.2.
Definition query_response : ValidateResponse := mkValidateResponse true (t0 + Hour) (4 * Hour).

Lemma query_run : query = (Ok query_response, Some query_cache).
Proof. vm_cast_no_check (eq_refl (Ok query_response, Some query_cache)). Qed.

Lemma validate_query_reserves_witness :
  ValidatePaymentPromiseInternal (ctx_at 6 11) (w_store world2) (promise 0) = Ok tt.
Proof.
  destruct (validate_query_reserves (ctx_at 6 11) (w_store world2) (rd (t0 + 6)) NewLocalPromiseCache
    (promise 0) _ _ query_run) as [Hok _].
  by destruct (Hok query_response eq_refl).
Defined.
End CacheExample.
