(* ===== verification/FibreBlobId.v ===== *)
(** * Blob identifiers

    [fibre/blob_id.go]: 32-byte commitments, and blob ids that put a version
    byte in front of one, with their binary, hexadecimal and JSON forms. *)

From S2P Require Import Prelude Sdk FibrePromise FibreCache.
#[local] Open Scope Z_scope.

(** [copy(dst, src)] into an array of [n] zero bytes. *)
Definition copy_into (n : nat) (src : bytes) : bytes := take n src ++ repeat 0 (n - length src).

(** [encoding/json] of strings. *)
Class JsonStrings := {
  json_Marshal : bytes → bytes;
  json_Unmarshal : bytes → option bytes;
}.
(** Strings of hexadecimal digits are quoted as they are and read back. *)
Class JsonLaws `{JsonStrings} := {
  json_roundtrip b : json_Unmarshal (json_Marshal (hex_EncodeToString b)) = Some (hex_EncodeToString b);
}.

(** ** Commitments *)

Section Json.
Context `{JS : JsonStrings}.

Definition Commitment_MarshalJSON (c : bytes) : bytes := json_Marshal (hex_EncodeToString c).

Definition Commitment_UnmarshalJSON (data : bytes) : result bytes :=
  s ← of_option "json error" (json_Unmarshal data);
  b ← of_option "invalid commitment hex" (hex_DecodeString s);
  _ ← ensure (length b =? CommitmentSize)%nat "invalid commitment length";
  Ok (copy_into CommitmentSize b).
End Json.

Definition Commitment_String (c : bytes) : bytes := hex_EncodeToString c.
Definition Commitment_MarshalBinary (c : bytes) : bytes := c.

Definition Commitment_UnmarshalBinary (data : bytes) : result bytes :=
  _ ← ensure (length data =? CommitmentSize)%nat "commitment must be 32 bytes";
  Ok (copy_into CommitmentSize data).

Definition CommitmentFromString (s : bytes) : result bytes :=
  data ← of_option "decoding hex" (hex_DecodeString s);
  _ ← ensure (length data =? CommitmentSize)%nat "commitment must be 32 bytes";
  Ok (copy_into CommitmentSize data).

(** ** Blob ids *)

Definition BlobIDSize : nat := 33.

Definition NewBlobID (version : Z) (commitment : bytes) : bytes := version :: copy_into (BlobIDSize - 1) commitment.

(** Indexing the empty slice panics. *)
Definition BlobID_Version (id : bytes) : result Z :=
  match id with v :: _ => Ok v | [] => Panic "index out of range" end.

Definition BlobID_Validate (id : bytes) : result unit :=
  ensure (length id =? BlobIDSize)%nat "blob ID must be 33 bytes".

(** [id[1:]] panics on the empty slice. *)
Definition BlobID_Commitment (id : bytes) : result bytes :=
  match id with _ :: rest => Ok (copy_into CommitmentSize rest) | [] => Panic "slice bounds out of range" end.

Definition BlobID_UnmarshalBinary (data : bytes) : result bytes :=
  _ ← ensure (length data =? BlobIDSize)%nat "blob ID must be 33 bytes";
  Ok (copy_into BlobIDSize data).

Definition BlobID_String (id : bytes) : bytes := hex_EncodeToString id.

Definition BlobIDFromString (s : bytes) : result bytes :=
  data ← of_option "decoding hex" (hex_DecodeString s);
  BlobID_UnmarshalBinary data.

Definition BlobID_Equals (id other : bytes) : bool := bool_decide (id = other).

(** ** Round trips *)

Lemma copy_exact n b : length b = n → copy_into n b = b.
Proof. intros <-. unfold copy_into. by rewrite firstn_all, Nat.sub_diag, app_nil_r. Qed.

Lemma length_copy_into n b : length (copy_into n b) = n.
Proof. unfold copy_into. rewrite length_app, length_take, repeat_length. lia. Qed.

Lemma BlobID_UnmarshalBinary_Ok data id : BlobID_UnmarshalBinary data = Ok id ↔ id = data ∧ length data = BlobIDSize.
Proof.
  unfold BlobID_UnmarshalBinary. rewrite bind_Ok. split.
  - intros (u & Hl & H). inv_ok. apply Nat.eqb_eq in Hl. subst id. split; [|done]. by apply copy_exact.
  - intros [-> Hl]. exists tt. split; [apply ensure_Ok; by apply Nat.eqb_eq|]. by rewrite copy_exact.
Qed.

(** The parts of an id are what it was made of, it is valid, and its string
    reads back to it. *)
Lemma NewBlobID_parts v c : byte_ok v → Forall byte_ok c → length c = CommitmentSize →
  let id := NewBlobID v c in
  BlobID_Validate id = Ok tt ∧ BlobID_Version id = Ok v ∧ BlobID_Commitment id = Ok c ∧
  BlobIDFromString (BlobID_String id) = Ok id.
Proof.
  intros Hv Hc Hl id. assert (id = v :: c) as Hid by (unfold id, NewBlobID; by rewrite copy_exact).
  rewrite Hid. split_and!.
  - unfold BlobID_Validate. cbn. by rewrite Hl.
  - done.
  - unfold BlobID_Commitment. by rewrite copy_exact.
  - unfold BlobIDFromString, BlobID_String. rewrite hex_roundtrip by by constructor. cbn [of_option mbind result_bind].
    apply BlobID_UnmarshalBinary_Ok. split; [done|]. cbn. by rewrite Hl.
Qed.

(** Every accepted string denotes the id it decodes to, and the id is valid. *)
Lemma BlobIDFromString_valid s id : BlobIDFromString s = Ok id →
  BlobID_Validate id = Ok tt ∧ hex_DecodeString s = Some id.
Proof.
  unfold BlobIDFromString. intros H. inv_ok. apply BlobID_UnmarshalBinary_Ok in H as [-> Hl].
  unfold BlobID_Validate. by rewrite Hl.
Qed.

(** The three readings of a commitment agree on what they accept. *)
Lemma commitment_roundtrips `{JS : JsonStrings} `{JL : !JsonLaws} c :
  Forall byte_ok c → length c = CommitmentSize →
  Commitment_UnmarshalJSON (Commitment_MarshalJSON c) = Ok c ∧
  Commitment_UnmarshalBinary (Commitment_MarshalBinary c) = Ok c ∧
  CommitmentFromString (Commitment_String c) = Ok c.
Proof.
  intros Hc Hl. unfold Commitment_UnmarshalJSON, Commitment_MarshalJSON, Commitment_UnmarshalBinary,
    Commitment_MarshalBinary, CommitmentFromString, Commitment_String.
  rewrite json_roundtrip. cbn [of_option mbind result_bind]. rewrite hex_roundtrip by done. cbn [of_option mbind result_bind].
  rewrite Hl, copy_exact by done. done.
Qed.
