(* ===== verification/ValidatorSet.v ===== *)
(** * Validator sets, signature collection and shard assignment

    [fibre/validator/signature_set.go], [fibre/validator/set.go] and the
    signature checks of [x/fibre/keeper/msg_server.go]. *)

From S2P Require Import Prelude Sdk SdkModel FibreParams FibrePromise.
#[local] Open Scope Z_scope.

(** [core.Validator] of CometBFT; the address is its string form. *)
Record Validator := mkValidator {
  val_Address : bytes;
  val_PubKey : bytes;
  val_VotingPower : Z;
}.

#[global] Instance Validator_eq_dec : EqDecision Validator.
Proof. solve_decision. Defined.

(** [validator.Set]: the validators, their total power and the height. *)
Record ValSet := mkValSet {
  vs_Validators : list Validator;
  vs_TotalVotingPower : Z;
  vs_Height : Z;
}.

(** The validator of the staking module's historical info. *)
Record StakingValidator := mkStakingValidator {
  sv_ConsPubKey : result bytes;
  sv_Tokens : Z;
}.

Class CometBFT := {
  NewValidator : bytes → Z → Validator;
  (** The validators in the set's order and their total power; a panic on an
      empty or duplicate entry, a non-positive power or too large a total. *)
  NewValidatorSet : list Validator → result (list Validator * Z);
  GetHistoricalInfo : Z → result (list StakingValidator);
}.

Definition MaxTotalVotingPower : Z := 2 ^ 63 / 8.

Definition power (vs : list Validator) : Z := zsum (map val_VotingPower vs).

Class CometBFTLaws `{CometBFT} := {
  NewValidator_fields k p : val_PubKey (NewValidator k p) = k ∧ val_VotingPower (NewValidator k p) = p;
  NewValidatorSet_Ok vs set total : NewValidatorSet vs = Ok (set, total) →
    vs ≡ₚ set ∧ NoDup (map val_Address vs) ∧ total = power vs ∧ total <= MaxTotalVotingPower ∧
    Forall (λ v, 0 < val_VotingPower v) vs;
}.

(** ** Collecting signatures *)

Record SignatureSet := mkSignatureSet {
  ss_requiredBytesSigned : bytes;
  ss_minRequiredVotingPower : Z;
  ss_validators : list Validator;
  ss_votingPower : Z;
  ss_signatures : gmap bytes bytes;
}.

(** [cmtmath.Fraction]. *)
Record Fraction := mkFraction { Numerator : Z; Denominator : Z }.

(** Division of int64 truncates and panics on zero. *)
Definition int64_div (a b : Z) : result Z :=
  if b =? 0 then Panic "integer divide by zero" else Ok (wrap_i64 (Z.quot a b)).

Section Signatures.
Context `{CR : Crypto} `{CB : CometBFT}.

Definition NewSignatureSet (s : ValSet) (targetVotingPower : Fraction) (requiredBytesSigned : bytes)
    : result SignatureSet :=
  minRequired ← int64_div (wrap_i64 (vs_TotalVotingPower s * wrap_i64 (Numerator targetVotingPower)))
                  (wrap_i64 (Denominator targetVotingPower));
  Ok (mkSignatureSet requiredBytesSigned minRequired (vs_Validators s) 0 ∅).

(** The updated set and whether the threshold is met. *)
Definition Add (ss : SignatureSet) (val : Validator) (signature : bytes) : result (SignatureSet * bool) :=
  _ ← ensure (ed25519_Verify (val_PubKey val) (ss_requiredBytesSigned ss) signature) "invalid signature from validator";
  match ss_signatures ss !! val_Address val with
  | Some _ => Ok (ss, ss_minRequiredVotingPower ss <=? ss_votingPower ss)
  | None =>
      let votingPower := wrap_i64 (ss_votingPower ss + val_VotingPower val) in
      let ss' := mkSignatureSet (ss_requiredBytesSigned ss) (ss_minRequiredVotingPower ss) (ss_validators ss)
                   votingPower (<[val_Address val := signature]> (ss_signatures ss)) in
      Ok (ss', ss_minRequiredVotingPower ss <=? votingPower)
  end.

(** The signatures in validator order; the error carries the same list. *)
Definition ordered (ss : SignatureSet) : list (option bytes) :=
  map (λ val, ss_signatures ss !! val_Address val) (ss_validators ss).

Inductive signatures_result :=
| SignaturesOk (sigs : list (option bytes))
| NotEnoughSignaturesError (Collected : list (option bytes)) (CollectedPower RequiredPower : Z).

Definition Signatures (ss : SignatureSet) : signatures_result :=
  if ss_votingPower ss <? ss_minRequiredVotingPower ss
  then NotEnoughSignaturesError (ordered ss) (ss_votingPower ss) (ss_minRequiredVotingPower ss)
  else SignaturesOk (ordered ss).

(** ** Checking the signatures of a PayForFibre *)

Definition ed25519_PubKeySize : nat := 32.

(** [val.Tokens.Int64()] panics outside the range of int64. *)
Definition Int64 (n : Z) : result Z :=
  if (- two63 <=? n) && (n <? two63) then Ok n else Panic "Int64() out of bound".

Definition cmt_validator (val : StakingValidator) : result Validator :=
  pubKeyBytes ← sv_ConsPubKey val;
  _ ← ensure (length pubKeyBytes =? ed25519_PubKeySize)%nat "invalid ed25519 public key size for validator";
  tokens ← Int64 (sv_Tokens val);
  Ok (NewValidator pubKeyBytes tokens).

Fixpoint cmt_validators (vals : list StakingValidator) : result (list Validator) :=
  match vals with
  | [] => Ok []
  | val :: vals' => v ← cmt_validator val; vs ← cmt_validators vals'; Ok (v :: vs)
  end.

(** The loop over the signatures from index [i]; [None] is the early return
    when the threshold is met. *)
Fixpoint add_signatures (cmtValidators : list Validator) (i : nat) (signatures : list bytes) (sigSet : SignatureSet)
    : result (option SignatureSet) :=
  match signatures with
  | [] => Ok (Some sigSet)
  | signature :: rest =>
      if (length signature =? 0)%nat then add_signatures cmtValidators (S i) rest sigSet
      else
        val ← of_option "signature index exceeds validator count" (cmtValidators !! i);
        '(sigSet', hasEnough) ← Add sigSet val signature;
        if (hasEnough : bool) then Ok None else add_signatures cmtValidators (S i) rest sigSet'
  end.

Definition twoThirds : Fraction := mkFraction 2 3.

Definition validateValidatorSignatures (signBytes : bytes) (height : Z) (signatures : list bytes) : result unit :=
  valset ← GetHistoricalInfo height;
  cmtValidators ← cmt_validators valset;
  '(validators, total) ← NewValidatorSet cmtValidators;
  let valSet := mkValSet validators total (wrap_u64 height) in
  sigSet ← NewSignatureSet valSet twoThirds signBytes;
  outcome ← add_signatures cmtValidators 0 signatures sigSet;
  match outcome with
  | None => Ok tt
  | Some sigSet =>
      match Signatures sigSet with
      | SignaturesOk _ => Ok tt
      | NotEnoughSignaturesError _ _ _ => Err "signature validation failed"
      end
  end.

Definition ValidatePayForFibreSignatures (msg : MsgPayForFibre) : result unit :=
  pp ← FromProto (Some (pff_PaymentPromise msg));
  _ ← Validate pp;
  signBytes ← SignBytes pp;
  validateValidatorSignatures signBytes (pb_Height (pff_PaymentPromise msg)) (pff_ValidatorSignatures msg).

(** ** What a signature set has collected *)

Definition verified (msg : bytes) (v : Validator) (sig : bytes) : Prop := ed25519_Verify (val_PubKey v) msg sig = true.

(** The validators of [vs] whose signatures are in the set, each once; [src]
    says where the signature of a validator comes from. *)
Record collected (src : Validator → bytes → Prop) (vs : list Validator) (ss : SignatureSet) (signers : list Validator) : Prop := {
  co_nodup : NoDup (map val_Address signers);
  co_members : ∀ v, v ∈ signers → v ∈ vs;
  co_domain : ∀ a, is_Some (ss_signatures ss !! a) ↔ a ∈ map val_Address signers;
  co_power : ss_votingPower ss = power signers;
  co_verified : ∀ v, v ∈ signers → ∃ sig, src v sig ∧ verified (ss_requiredBytesSigned ss) v sig;
}.

(** The validator set of a consistent historical info. *)
Record valset_ok (vs : list Validator) : Prop := {
  vo_nodup : NoDup (map val_Address vs);
  vo_power : power vs <= MaxTotalVotingPower;
  vo_positive : Forall (λ v, 0 < val_VotingPower v) vs;
}.

Lemma power_app a b : power (a ++ b) = power a + power b.
Proof. unfold power. by rewrite map_app, zsum_app. Qed.

Lemma power_Permutation a b : a ≡ₚ b → power a = power b.
Proof. intros H. unfold power. by apply zsum_Permutation, Permutation_map. Qed.

Lemma power_nonneg vs : Forall (λ v, 0 < val_VotingPower v) vs → 0 <= power vs.
Proof.
  intros H. unfold power. apply zsum_nonneg. apply Forall_map. eapply Forall_impl; [exact H|]. cbn. lia.
Qed.

Lemma NoDup_map_inv {A B} (f : A → B) l : NoDup (map f l) → NoDup l.
Proof. apply (NoDup_fmap_1 f). Qed.

(** Distinct members have at most the total power. *)
Lemma power_subset vs signers :
  valset_ok vs → NoDup (map val_Address signers) → (∀ v, v ∈ signers → v ∈ vs) →
  0 <= power signers <= power vs.
Proof.
  intros [_ _ Hpos] Hn Hsub. apply NoDup_map_inv in Hn.
  assert (signers ⊆+ vs) as [k Hk]%submseteq_Permutation by (by apply NoDup_submseteq).
  rewrite (power_Permutation _ _ Hk), power_app.
  rewrite Hk in Hpos. apply Forall_app in Hpos as [H1 H2]. apply power_nonneg in H1, H2. lia.
Qed.

Lemma power_small vs signers :
  valset_ok vs → NoDup (map val_Address signers) → (∀ v, v ∈ signers → v ∈ vs) →
  wrap_i64 (power signers) = power signers.
Proof.
  intros Hok Hn Hsub. destruct (power_subset vs signers Hok Hn Hsub). apply wrap_i64_id.
  pose proof (vo_power _ Hok) as Hmax. unfold MaxTotalVotingPower in Hmax.
  change (2 ^ 63 / 8) with (2 ^ 60) in Hmax. unfold i64, two63. lia.
Qed.

Lemma Add_spec src vs ss signers v sig :
  valset_ok vs → collected src vs ss signers → v ∈ vs → src v sig → verified (ss_requiredBytesSigned ss) v sig →
  ∃ ss' signers', collected src vs ss' signers' ∧
    Add ss v sig = Ok (ss', ss_minRequiredVotingPower ss <=? ss_votingPower ss') ∧
    ss_requiredBytesSigned ss' = ss_requiredBytesSigned ss ∧
    ss_minRequiredVotingPower ss' = ss_minRequiredVotingPower ss ∧
    signers' = (if decide (val_Address v ∈ map val_Address signers) then signers else v :: signers).
Proof.
  intros Hok Hc Hv Hsrc Hver. unfold Add. unfold verified in Hver. rewrite Hver. cbn [ensure mbind result_bind].
  destruct (ss_signatures ss !! val_Address v) as [old|] eqn:Hold.
  - exists ss, signers. rewrite decide_True by (apply (co_domain _ _ _ _ Hc); eauto). done.
  - assert (val_Address v ∉ map val_Address signers) as Hni.
    { intros Hin. apply (co_domain _ _ _ _ Hc) in Hin as [? ?]. congruence. }
    rewrite decide_False by done.
    assert (NoDup (map val_Address (v :: signers))) as Hn by (cbn; apply NoDup_cons; split; [done|apply Hc]).
    assert (∀ u, u ∈ v :: signers → u ∈ vs) as Hsub.
    { intros u [->|Hu]%elem_of_cons; [done|by apply (co_members _ _ _ _ Hc)]. }
    assert (wrap_i64 (ss_votingPower ss + val_VotingPower v) = power (v :: signers)) as Hpow.
    { rewrite (co_power _ _ _ _ Hc), Z.add_comm. by apply (power_small vs (v :: signers)). }
    exists (mkSignatureSet (ss_requiredBytesSigned ss) (ss_minRequiredVotingPower ss) (ss_validators ss)
              (wrap_i64 (ss_votingPower ss + val_VotingPower v)) (<[val_Address v := sig]> (ss_signatures ss))), (v :: signers).
    split_and!; [constructor; cbn [ss_signatures ss_votingPower ss_requiredBytesSigned]|done..].
    + done.
    + done.
    + intros a. rewrite lookup_insert_is_Some'. cbn [map]. rewrite elem_of_cons, (co_domain _ _ _ _ Hc). naive_solver.
    + done.
    + intros u [->|Hu]%elem_of_cons; [by exists sig|by apply (co_verified _ _ _ _ Hc)].
Qed.

Lemma Add_Ok_verified ss v sig r : Add ss v sig = Ok r → verified (ss_requiredBytesSigned ss) v sig.
Proof. unfold Add. intros H. inv_ok. done. Qed.

(** A non-empty signature of the list, at the position of the validator. *)
Definition submitted (vs : list Validator) (signatures : list bytes) (v : Validator) (sig : bytes) : Prop :=
  ∃ i, vs !! i = Some v ∧ signatures !! i = Some sig ∧ sig ≠ [].

(** Distinct validators of the set reach the threshold together, and for each
    of them the list holds, at its position, its valid signature of [msg]. *)
Definition quorum (vs : list Validator) (signatures : list bytes) (msg : bytes) (minPower : Z) : Prop :=
  ∃ signers, NoDup (map val_Address signers) ∧
    (∀ v, v ∈ signers → ∃ i sig, vs !! i = Some v ∧ signatures !! i = Some sig ∧ sig ≠ [] ∧ verified msg v sig) ∧
    minPower <= power signers.

Lemma collected_quorum vs signatures ss signers :
  collected (submitted vs signatures) vs ss signers → ss_minRequiredVotingPower ss <= ss_votingPower ss →
  quorum vs signatures (ss_requiredBytesSigned ss) (ss_minRequiredVotingPower ss).
Proof.
  intros Hc Hle. exists signers. split_and!; [apply Hc| |by rewrite <- (co_power _ _ _ _ Hc)].
  intros v Hv. apply (co_verified _ _ _ _ Hc) in Hv as (sig & (i & ? & ? & ?) & Hver). by exists i, sig.
Qed.

Lemma add_signatures_sound vs full sigs : ∀ i ss signers r,
  valset_ok vs → collected (submitted vs full) vs ss signers → drop i full = sigs → add_signatures vs i sigs ss = Ok r →
  match r with
  | None => quorum vs full (ss_requiredBytesSigned ss) (ss_minRequiredVotingPower ss)
  | Some ss' => ss_requiredBytesSigned ss' = ss_requiredBytesSigned ss ∧
      ss_minRequiredVotingPower ss' = ss_minRequiredVotingPower ss ∧
      ∃ signers', collected (submitted vs full) vs ss' signers'
  end.
Proof.
  induction sigs as [|sig sigs IH]; intros i ss signers r Hok Hc Hd H; cbn [add_signatures] in H.
  { inv_ok. subst r. eauto. }
  assert (full !! i = Some sig) as Hi by (rewrite <- (Nat.add_0_r i), <- lookup_drop, Hd; done).
  assert (drop (S i) full = sigs) as Hd' by (replace (S i) with (i + 1)%nat by lia; rewrite <- drop_drop, Hd; done).
  destruct (Nat.eqb_spec (length sig) 0) as [|Hnz]; [by eapply IH|]. inv_ok. destruct r1 as [ss1 enough].
  pose proof (Add_Ok_verified _ _ _ _ Hr0) as Hver.
  destruct (Add_spec (submitted vs full) vs ss signers r0 sig Hok Hc) as (ss' & signers' & Hc' & Hadd & Eb & Em & _); [| |done|].
  { by apply list_elem_of_lookup_2 in Hr. }
  { exists i. split_and!; [done|done|]. by intros ->. }
  rewrite Hr0 in Hadd. apply Ok_inj in Hadd. injection Hadd as -> ->.
  destruct (Z.leb_spec (ss_minRequiredVotingPower ss) (ss_votingPower ss')) as [Hle|Hgt].
  - inv_ok. subst r. rewrite <- Eb, <- Em. eapply collected_quorum; [done|lia].
  - eapply IH in H; [|done|done|done]. by rewrite Eb, Em in H.
Qed.

(** ** Completeness *)

(** The validators at the positions of the non-empty signatures. *)
Fixpoint signed_from (vs : list Validator) (i : nat) (sigs : list bytes) : list Validator :=
  match sigs with
  | [] => []
  | sig :: rest =>
      if (length sig =? 0)%nat then signed_from vs (S i) rest
      else match vs !! i with
           | Some v => v :: signed_from vs (S i) rest
           | None => signed_from vs (S i) rest
           end
  end.

(** Every non-empty signature belongs to the validator at its position. *)
Fixpoint all_valid (vs : list Validator) (msg : bytes) (i : nat) (sigs : list bytes) : Prop :=
  match sigs with
  | [] => True
  | sig :: rest =>
      (length sig ≠ 0%nat → ∃ v, vs !! i = Some v ∧ verified msg v sig) ∧ all_valid vs msg (S i) rest
  end.

Lemma address_position vs i j v w :
  NoDup (map val_Address vs) → vs !! i = Some v → vs !! j = Some w → val_Address v = val_Address w → i = j.
Proof.
  intros Hn Hi Hj Heq. eapply NoDup_lookup; [exact Hn| |].
  - change (map val_Address vs) with (val_Address <$> vs). rewrite list_lookup_fmap, Hi. reflexivity.
  - change (map val_Address vs) with (val_Address <$> vs). rewrite list_lookup_fmap, Hj. cbn. by rewrite Heq.
Qed.

Lemma signed_from_power_nonneg vs sigs : ∀ i,
  Forall (λ v, 0 < val_VotingPower v) vs → 0 <= power (signed_from vs i sigs).
Proof.
  intros i Hpos. apply power_nonneg. revert i. induction sigs as [|sig sigs IH]; intros i; cbn; [constructor|].
  destruct (length sig =? 0)%nat; [done|]. destruct (vs !! i) as [v|] eqn:Hv; [|done].
  constructor; [|done]. by eapply Forall_lookup_1 in Hpos.
Qed.

Lemma add_signatures_complete vs sigs : ∀ i ss signers,
  valset_ok vs → collected (λ _ _, True) vs ss signers →
  (∀ v, v ∈ signers → ∃ j, (j < i)%nat ∧ vs !! j = Some v) →
  all_valid vs (ss_requiredBytesSigned ss) i sigs →
  ∃ r, add_signatures vs i sigs ss = Ok r ∧
    match r with
    | None => ss_minRequiredVotingPower ss <= ss_votingPower ss + power (signed_from vs i sigs)
    | Some ss' => ss_minRequiredVotingPower ss' = ss_minRequiredVotingPower ss ∧
        ss_votingPower ss' = ss_votingPower ss + power (signed_from vs i sigs)
    end.
Proof.
  induction sigs as [|sig sigs IH]; intros i ss signers Hok Hc Hpos Hval; cbn [add_signatures signed_from].
  { exists (Some ss). split; [done|]. split; [done|]. change (power []) with 0. lia. }
  destruct Hval as [Hsig Hval].
  assert (∀ v, v ∈ signers → ∃ j, (j < S i)%nat ∧ vs !! j = Some v) as HposS.
  { intros v Hv. apply Hpos in Hv as (j & ? & ?). exists j. split; [lia|done]. }
  destruct (Nat.eqb_spec (length sig) 0) as [Hz|Hnz]; [by eapply IH|].
  destruct (Hsig Hnz) as (v & Hv & Hver). rewrite Hv. cbn [of_option mbind result_bind].
  destruct (Add_spec (λ _ _, True) vs ss signers v sig Hok Hc) as (ss' & signers' & Hc' & Hadd & Eb & Em & Es); [|done|done|].
  { by apply list_elem_of_lookup_2 in Hv. }
  rewrite decide_False in Es.
  2: { intros Hin. apply list_elem_of_In, in_map_iff in Hin as (u & Heq & Hu). apply list_elem_of_In in Hu.
       apply Hpos in Hu as (j & Hj & Hu). assert (j = i) by (by eapply address_position; [apply Hok|..]). lia. }
  assert (ss_votingPower ss' = ss_votingPower ss + val_VotingPower v) as Hvp.
  { rewrite (co_power _ _ _ _ Hc'), (co_power _ _ _ _ Hc), Es. unfold power. cbn [map]. rewrite zsum_cons. lia. }
  assert (power (v :: signed_from vs (S i) sigs) = val_VotingPower v + power (signed_from vs (S i) sigs)) as -> by done.
  pose proof (signed_from_power_nonneg vs sigs (S i) (vo_positive _ Hok)) as Hnn.
  rewrite Hadd. cbn [mbind result_bind].
  destruct (Z.leb_spec (ss_minRequiredVotingPower ss) (ss_votingPower ss')) as [Hle|Hgt].
  { exists None. split; [done|]. lia. }
  destruct (IH (S i) ss' signers') as (r & Hrun & Hr); [done|done| |by rewrite Eb|].
  - subst signers'. intros u [->|Hu]%elem_of_cons; [exists i; split; [lia|done]|by apply HposS].
  - exists r. split; [done|]. destruct r as [ss2|]; [|lia]. destruct Hr as [Hr1 Hr2]. split; [congruence|lia].
Qed.

Context `{CBL : !CometBFTLaws}.

(** Two thirds of the total power, rounded down. *)
Definition required_power (vs : list Validator) : Z := 2 * power vs / 3.

Lemma NewSignatureSet_twoThirds set total h msg vs :
  valset_ok vs → total = power vs →
  NewSignatureSet (mkValSet set total h) twoThirds msg = Ok (mkSignatureSet msg (required_power vs) set 0 ∅).
Proof.
  intros Hok ->. pose proof (vo_power _ Hok) as Hmax. pose proof (power_nonneg _ (vo_positive _ Hok)) as Hp.
  unfold MaxTotalVotingPower in Hmax. change (2 ^ 63 / 8) with (2 ^ 60) in Hmax.
  unfold NewSignatureSet, int64_div. cbn [vs_TotalVotingPower Numerator Denominator twoThirds].
  change (wrap_i64 2) with 2. change (wrap_i64 3) with 3. cbn [Z.eqb Pos.eqb mbind result_bind vs_Validators].
  rewrite (wrap_i64_id (power vs * 2)) by fits.
  rewrite Z.quot_div_nonneg by lia.
  rewrite wrap_i64_id.
  - unfold required_power. by rewrite Z.mul_comm.
  - unfold i64, two63. split; [|apply Z.div_lt_upper_bound; lia].
    assert (0 <= power vs * 2 / 3) by (apply Z.div_pos; lia). lia.
Qed.

Lemma collected_empty src vs msg minp set : collected src vs (mkSignatureSet msg minp set 0 ∅) [].
Proof.
  constructor; cbn; try done.
  - constructor.
  - intros v Hv. by apply elem_of_nil in Hv.
  - intros a. rewrite lookup_empty, elem_of_nil. split; [by intros [? ?]|done].
  - intros v Hv. by apply elem_of_nil in Hv.
Qed.

(** C38: when the list of signatures of a PayForFibre is accepted, it holds
    valid signatures of the promise by distinct validators of the set at the
    promise's height, each at the position of its validator, who have at least
    two thirds (rounded down) of the set's total power between them.
    Signatures after those are not looked at. *)
Theorem accepted_signatures_have_quorum signBytes height signatures :
  validateValidatorSignatures signBytes height signatures = Ok tt →
  ∃ valset vs, GetHistoricalInfo height = Ok valset ∧ cmt_validators valset = Ok vs ∧
    quorum vs signatures signBytes (required_power vs).
Proof.
  unfold validateValidatorSignatures. intros H. inv_ok. destruct r1 as [set total].
  apply NewValidatorSet_Ok in Hr1 as (_ & Hn & Htot & Hmax & Hpos).
  assert (valset_ok r0) as Hok by (constructor; [done|by rewrite <- Htot|done]).
  exists r, r0. split_and!; [done|done|]. inv_ok.
  rewrite (NewSignatureSet_twoThirds _ _ _ _ r0) in Hr1 by done. inv_ok. subst r1.
  pose proof (add_signatures_sound r0 signatures signatures 0 _ [] _ Hok (collected_empty _ _ _ _ _) eq_refl Hr2) as Hs. cbn in Hs.
  destruct r2 as [ss'|]; [|done]. destruct Hs as (Eb & Em & signers & Hc).
  unfold Signatures in H. destruct (Z.ltb_spec (ss_votingPower ss') (ss_minRequiredVotingPower ss')) as [|Hle]; [done|].
  rewrite <- Eb, <- Em. by eapply collected_quorum.
Qed.

(** When every signature supplied is valid for the validator at its
    position, they are accepted exactly when the validators that signed hold
    at least two thirds (rounded down) of the total power. *)
Theorem valid_signatures_accepted_iff signBytes height signatures valset vs set total :
  GetHistoricalInfo height = Ok valset → cmt_validators valset = Ok vs →
  NewValidatorSet vs = Ok (set, total) → all_valid vs signBytes 0 signatures →
  validateValidatorSignatures signBytes height signatures = Ok tt ↔
  required_power vs <= power (signed_from vs 0 signatures).
Proof.
  intros Hh Hv Hs Hall. pose proof Hs as Hs'. apply NewValidatorSet_Ok in Hs' as (_ & Hn & Htot & Hmax & Hpos).
  assert (valset_ok vs) as Hok by (constructor; [done|by rewrite <- Htot|done]).
  unfold validateValidatorSignatures. rewrite Hh. cbn [mbind result_bind]. rewrite Hv. cbn [mbind result_bind].
  rewrite Hs. cbn [mbind result_bind]. rewrite (NewSignatureSet_twoThirds _ _ _ _ vs) by done. cbn [mbind result_bind].
  destruct (add_signatures_complete vs signatures 0 (mkSignatureSet signBytes (required_power vs) set 0 ∅) [] Hok)
    as (r & -> & Hr); [apply collected_empty|by intros v Hv'%elem_of_nil|done|].
  cbn [mbind result_bind]. destruct r as [ss'|]; [|cbn in Hr; split; [intros _; lia|done]]. destruct Hr as [Em Ep]. cbn in Em, Ep.
  rewrite Z.add_0_l in Ep. unfold Signatures. rewrite Ep, Em. destruct (Z.ltb_spec (power (signed_from vs 0 signatures)) (required_power vs));
    split; intros; done || lia || (exfalso; lia).
Qed.
End Signatures.

(** ** Concrete runs *)

Module SignatureExample.
Import SdkModel.

(** Three validators of power 30, 20 and 10. *)
Definition key (b : Z) : bytes := repeat b 32.
Definition info : list StakingValidator :=
  [mkStakingValidator (Ok (key 1)) 30; mkStakingValidator (Ok (key 2)) 20; mkStakingValidator (Ok (key 3)) 10].

#[local] Instance comet : CometBFT := {
  NewValidator k p := mkValidator k k p;
  NewValidatorSet vs :=
    if bool_decide (NoDup (map val_Address vs)) && forallb (λ v, 0 <? val_VotingPower v) vs
       && (power vs <=? MaxTotalVotingPower)
    then Ok (vs, power vs) else Panic "cannot create validator set";
  GetHistoricalInfo h := if h =? 10 then Ok info else Err "not found";
}.

#[local] Instance comet_laws : CometBFTLaws.
Proof.
  constructor; cbn.
  - done.
  - intros vs set total H. destruct (bool_decide _) eqn:E1; cbn in H; [|done].
    destruct (forallb _ vs) eqn:E2; cbn in H; [|done].
    destruct (Z.leb_spec (power vs) MaxTotalVotingPower); [|done].
    apply Ok_inj in H. injection H as -> <-. apply bool_decide_eq_true in E1.
    split_and!; try done. apply Forall_forall. intros v Hv. apply list_elem_of_In in Hv.
    rewrite forallb_forall in E2. apply E2, Z.ltb_lt in Hv. done.
Qed.

Definition vs : list Validator := [mkValidator (key 1) (key 1) 30; mkValidator (key 2) (key 2) 20; mkValidator (key 3) (key 3) 10].

Lemma accepted_signatures_have_quorum_witness :
  ∃ valset vs, GetHistoricalInfo 10 = Ok valset ∧ cmt_validators valset = Ok vs ∧
    quorum vs [[1]; []; [3]] [9] (required_power vs).
Proof.
  apply (accepted_signatures_have_quorum [9] 10 [[1]; []; [3]]). vm_compute. reflexivity.
Defined.

Lemma valid_signatures_accepted_iff_witness :
  validateValidatorSignatures [9] 10 [[1]; []; [3]] = Ok tt ↔
  required_power vs <= power (signed_from vs 0 [[1]; []; [3]]).
Proof.
  apply (valid_signatures_accepted_iff [9] 10 [[1]; []; [3]] info vs vs 60).
  - reflexivity.
  - reflexivity.
  - vm_compute. reflexivity.
  - cbn. split; [|split; [|split; [|done]]]; try done; intros _; eexists; (split; [reflexivity|reflexivity]).
Defined.
End SignatureExample.
