(* ===== verification/ShardAssignment.v ===== *)
(** * Shard assignment

    [fibre/validator/set.go]: how the rows of a blob are divided among the
    validators and how a validator checks the rows it is sent. *)

From S2P Require Import Prelude Sdk ValidatorSet.
#[local] Open Scope Z_scope.

(** Draws of the generator seeded with a commitment: the [k]-th number below a
    bound ([ChaCha8] of the standard library). *)
Class Rng := { uint64n : bytes → nat → nat → nat }.
Class RngLaws `{Rng} := { uint64n_lt seed k n : (0 < n)%nat → (uint64n seed k n < n)%nat }.

(** Go's [GetByAddress]: the first validator with that address. *)
Definition GetByAddress (s : ValSet) (address : bytes) : option Validator :=
  snd <$> list_find (λ v, val_Address v = address) (vs_Validators s).

(** ** Row counts *)

Definition AssignedRows (s : ValSet) (val : Validator) (originalRows minRows : Z) (lt : Fraction) : result Z :=
  let num := wrap_i64 (wrap_i64 (originalRows * val_VotingPower val) * wrap_i64 (Denominator lt)) in
  let den := wrap_i64 (vs_TotalVotingPower s * wrap_i64 (Numerator lt)) in
  rows ← int64_div (wrap_i64 (wrap_i64 (num + den) - 1)) den;
  Ok (Z.min (Z.max rows minRows) originalRows).

Fixpoint rows_of (s : ValSet) (vals : list Validator) (originalRows minRows : Z) (lt : Fraction) : result (list Z) :=
  match vals with
  | [] => Ok []
  | v :: vals' =>
      n ← AssignedRows s v originalRows minRows lt;
      ns ← rows_of s vals' originalRows minRows lt;
      Ok (n :: ns)
  end.

Definition rowsPerValidator (s : ValSet) (originalRows minRows : Z) (lt : Fraction) : result (list Z) :=
  rows_of s (vs_Validators s) originalRows minRows lt.

(** ** Shuffling: Fisher-Yates from the last index down *)

Definition swap {A} (l : list A) (i j : nat) : list A :=
  match l !! i, l !! j with
  | Some x, Some y => <[j := x]> (<[i := y]> l)
  | _, _ => l
  end.

Section Assign.
Context `{RG : Rng}.

(** The iterations for [i = n, ..., 1], drawing the numbers [k], [k+1], ... *)
Fixpoint shuffle_loop (seed : bytes) (n k : nat) (l : list Z) : list Z :=
  match n with
  | O => l
  | S n' => shuffle_loop seed n' (S k) (swap l n (uint64n seed k (S n)))
  end.

Definition Shuffle (seed : bytes) (l : list Z) : list Z := shuffle_loop seed (pred (length l)) 0 l.

(** ** Assigning rows *)

(** [rows[j] = rowsIndices[(offset+j) % totalRows]] for [j < n]. *)
Definition take_rows (rowsIndices : list Z) (totalRows offset n : nat) : list Z :=
  map (λ j, default 0 (rowsIndices !! ((offset + j) mod totalRows)%nat)) (seq 0 n).

Fixpoint assign_loop (rowsIndices : list Z) (totalRows offset : nat) (counts : list nat) : list (list Z) :=
  match counts with
  | [] => []
  | n :: counts' =>
      take_rows rowsIndices totalRows offset n :: assign_loop rowsIndices totalRows (offset + n) counts'
  end.

(** The rows of each validator, in the order of the set; the map of the code is
    keyed by the validator's pointer, here by its position. A negative count is
    a panic of [make]. *)
Definition Assign (s : ValSet) (commitment : bytes) (totalRows originalRows minRows : Z) (lt : Fraction)
    : result (list (list Z)) :=
  if (length (vs_Validators s) =? 0)%nat || (totalRows =? 0) || (minRows =? 0) then Ok []
  else
    counts ← rowsPerValidator s originalRows minRows lt;
    if (totalRows <? 0) || existsb (λ n, n <? 0) counts then Panic "makeslice: len out of range"
    else
      let rowsIndices := Shuffle (take 32 commitment) (map Z.of_nat (seq 0 (Z.to_nat totalRows))) in
      Ok (assign_loop rowsIndices (Z.to_nat totalRows) 0 (map Z.to_nat counts)).
End Assign.

(** ** Verifying the rows received *)

Fixpoint verify_loop (assigned : gmap Z bool) (rowIndices : list Z) : result unit :=
  match rowIndices with
  | [] => Ok tt
  | rowIdx :: rest =>
      match assigned !! rowIdx with
      | None => Err "row not assigned to validator"
      | Some true => Err "duplicate row"
      | Some false => verify_loop (<[rowIdx := true]> assigned) rest
      end
  end.

(** [rows] is the validator's entry in the map, if it has one. *)
Definition Verify (rows : option (list Z)) (rowIndices : list Z) : result unit :=
  match rows with
  | None => Err "validator not in shard map"
  | Some rows =>
      _ ← ensure (length rowIndices =? length rows)%nat "expected rows";
      verify_loop (fold_left (λ m idx, <[wrap_u32 idx := false]> m) rows ∅) rowIndices
  end.

(** ** Selecting validators to download from *)

Record SelectedValidator := mkSelected { sel_Validator : Validator; sel_ExpectedRows : Z }.

Definition sel_power (v : SelectedValidator) : Z := val_VotingPower (sel_Validator v).

(** The offset of the first entry whose cumulated weight exceeds [point]. *)
Fixpoint pick (point cumul : Z) (l : list SelectedValidator) : option nat :=
  match l with
  | [] => None
  | v :: l' =>
      let cumul := wrap_i64 (cumul + sel_power v) in
      if point <? cumul then Some O else S <$> pick point cumul l'
  end.

(** The [n] iterations from index [i] on; [draw k b] is the [k]-th call of
    [rng.Int64N(b)], which panics on a bound that is not positive. *)
Fixpoint shuffleByStake_loop (draw : nat → Z → Z) (n i k : nat) (l : list SelectedValidator)
    : result (list SelectedValidator) :=
  match n with
  | O => Ok l
  | S n' =>
      let totalWeight := fold_left (λ w v, wrap_i64 (w + sel_power v)) (drop i l) 0 in
      if totalWeight <=? 0 then Panic "invalid argument to Int64N"
      else
        let point := draw k totalWeight in
        let l := match pick point 0 (drop i l) with Some j => swap l i (i + j)%nat | None => l end in
        shuffleByStake_loop draw n' (S i) (S k) l
  end.

Definition shuffleByStake (draw : nat → Z → Z) (k : nat) (l : list SelectedValidator) : result (list SelectedValidator) :=
  shuffleByStake_loop draw (pred (length l)) 0 k l.

(** The loop that looks for the split point. *)
Fixpoint split_loop (totalStake minStake accumulated : Z) (selected : list SelectedValidator) : nat :=
  match selected with
  | [] => O
  | v :: rest =>
      let accumulated := wrap_i64 (accumulated + Z.max (sel_power v) minStake) in
      if totalStake <? accumulated then O else S (split_loop totalStake minStake accumulated rest)
  end.

Definition splitIdx (s : ValSet) (selected : list SelectedValidator) (originalRows minRows : Z) (lt : Fraction)
    : result nat :=
  let totalStake := vs_TotalVotingPower s in
  totalDistributedRows ← int64_div (wrap_i64 (originalRows * wrap_i64 (Denominator lt))) (wrap_i64 (Numerator lt));
  minStake ← int64_div (wrap_i64 (wrap_i64 (wrap_i64 (minRows * totalStake) + totalDistributedRows) - 1))
               totalDistributedRows;
  Ok (split_loop totalStake minStake 0 selected).

Definition Select (draw : nat → Z → Z) (s : ValSet) (originalRows minRows : Z) (lt : Fraction)
    : result (list SelectedValidator) :=
  if (length (vs_Validators s) =? 0)%nat then Ok []
  else
    rpv ← rowsPerValidator s originalRows minRows lt;
    let selected := zip_with mkSelected (vs_Validators s) rpv in
    k ← splitIdx s selected originalRows minRows lt;
    first ← shuffleByStake draw 0 (take k selected);
    second ← shuffleByStake draw (pred k) (drop k selected);
    Ok (first ++ second).

(** ** Facts *)

Lemma swap_Permutation {A} (l : list A) i j : swap l i j ≡ₚ l.
Proof.
  unfold swap. destruct (l !! i) as [x|] eqn:Hi; [|done]. destruct (l !! j) as [y|] eqn:Hj; [|done].
  by apply Permutation_insert_swap.
Qed.

Section Facts.
Context `{RG : Rng}.

Lemma Shuffle_Permutation seed l : Shuffle seed l ≡ₚ l.
Proof.
  unfold Shuffle. generalize (pred (length l)) as n, 0%nat as k. intros n. revert l.
  induction n as [|n IH]; intros l k; cbn [shuffle_loop]; [done|]. rewrite IH. apply swap_Permutation.
Qed.

(** The row at a position of the wrapped-around sequence of rows. *)
Definition row_at (rowsIndices : list Z) (totalRows j : nat) : Z :=
  default 0 (rowsIndices !! (j mod totalRows)%nat).

Lemma take_rows_seq idx total offset n :
  take_rows idx total offset n = map (row_at idx total) (seq offset n).
Proof.
  unfold take_rows, row_at. revert offset. induction n as [|n IH]; intros offset; [done|].
  cbn [seq map]. rewrite Nat.add_0_r. f_equal. rewrite <- (IH (S offset)).
  rewrite <- seq_shift, map_map. apply map_ext. intros j. do 2 f_equal. f_equal. lia.
Qed.

Lemma assign_loop_concat idx total counts : ∀ offset,
  concat (assign_loop idx total offset counts) = map (row_at idx total) (seq offset (sum_list counts)).
Proof.
  induction counts as [|n counts IH]; intros offset; cbn [assign_loop concat]; [done|].
  rewrite take_rows_seq, IH, <- map_app. f_equal. cbn. by rewrite seq_app.
Qed.

(** Rows within one turn of the wrap-around are distinct. *)
Lemma rows_distinct idx total offset n :
  NoDup idx → length idx = total → (n <= total)%nat → NoDup (map (row_at idx total) (seq offset n)).
Proof.
  intros Hn Hlen Hle. apply NoDup_fmap_2_strong; [|apply NoDup_seq].
  intros i j Hi%elem_of_seq Hj%elem_of_seq. unfold row_at.
  assert (0 < total)%nat as Hpos by lia.
  pose proof (Nat.mod_upper_bound i total ltac:(lia)) as Hbi.
  pose proof (Nat.mod_upper_bound j total ltac:(lia)) as Hbj.
  destruct (lookup_lt_is_Some_2 idx (i mod total)) as [x Hx]; [lia|].
  destruct (lookup_lt_is_Some_2 idx (j mod total)) as [y Hy]; [lia|].
  rewrite Hx, Hy. cbn. intros ->. pose proof (NoDup_lookup _ _ _ _ Hn Hx Hy) as Hmod.
  pose proof (Nat.div_mod i total ltac:(lia)) as Hdi. pose proof (Nat.div_mod j total ltac:(lia)) as Hdj.
  rewrite Hmod in Hdi. destruct (Nat.lt_trichotomy (i / total) (j / total)) as [Hlt|[Heq|Hlt]]; nia.
Qed.
End Facts.

(** ** Row counts without overflow *)

(** The products of the formula fit in an int64. *)
Record rows_in_range (s : ValSet) (originalRows : Z) (lt : Fraction) : Prop := {
  rr_rows : 0 < originalRows;
  rr_total : 0 < vs_TotalVotingPower s;
  rr_num : 0 < Numerator lt;
  rr_den : 0 < Denominator lt;
  rr_fits : originalRows * vs_TotalVotingPower s * Denominator lt + vs_TotalVotingPower s * Numerator lt < two63;
}.

Lemma AssignedRows_exact s v originalRows minRows lt :
  rows_in_range s originalRows lt → 0 <= val_VotingPower v <= vs_TotalVotingPower s →
  let num := originalRows * val_VotingPower v * Denominator lt in
  let den := vs_TotalVotingPower s * Numerator lt in
  AssignedRows s v originalRows minRows lt =
    Ok (Z.min (Z.max ((num + den - 1) / den) minRows) originalRows).
Proof.
  intros [H1 H2 H3 H4 H5] Hp num den. unfold num, den. unfold two63 in H5.
  set (T := vs_TotalVotingPower s) in *. set (P := val_VotingPower v) in *.
  set (N := Numerator lt) in *. set (D := Denominator lt) in *.
  assert (0 <= originalRows * P <= originalRows * T) by nia.
  assert (0 <= originalRows * P * D <= originalRows * T * D) by nia.
  assert (T * 1 <= T * N) by nia. assert (1 * N <= T * N) by nia.
  assert (0 <= originalRows * T * 1 <= originalRows * T * D) by nia.
  assert (1 * D <= originalRows * T * D) by nia.
  unfold AssignedRows. fold T P N D.
  rewrite (wrap_i64_id N), (wrap_i64_id D), (wrap_i64_id (originalRows * P)) by fits.
  rewrite (wrap_i64_id (originalRows * P * D)), (wrap_i64_id (T * N)) by fits.
  rewrite (wrap_i64_id (_ + _)) by fits.
  rewrite (wrap_i64_id (_ - 1)) by fits.
  unfold int64_div. destruct (Z.eqb_spec (T * N) 0); [lia|]. rewrite Z.quot_div_nonneg by lia.
  rewrite wrap_i64_id; [done|].
  assert (0 <= (originalRows * P * D + T * N - 1) / (T * N)) by (apply Z.div_pos; lia).
  assert ((originalRows * P * D + T * N - 1) / (T * N) <= originalRows * P * D + T * N - 1)
    by (apply Z.div_le_upper_bound; nia).
  unfold i64, two63. lia.
Qed.

(** Rounding up: the count of a validator times the denominator is at least
    its share. *)
Lemma ceil_div_ge a b : 0 < b → a <= b * ((a + b - 1) / b).
Proof.
  intros Hb. pose proof (Z.div_mod (a + b - 1) b ltac:(lia)). pose proof (Z.mod_pos_bound (a + b - 1) b Hb). lia.
Qed.

Lemma rows_of_cover s vals originalRows minRows lt ns :
  rows_in_range s originalRows lt → 0 <= minRows → Forall (λ v, 0 <= val_VotingPower v <= vs_TotalVotingPower s) vals →
  rows_of s vals originalRows minRows lt = Ok ns →
  Forall (λ n, 0 <= n) ns ∧
  (originalRows <= zsum ns ∨
   originalRows * power vals * Denominator lt <= vs_TotalVotingPower s * Numerator lt * zsum ns).
Proof.
  intros Hrr Hmin. revert ns. induction vals as [|v vals IH]; intros ns Hp H; cbn [rows_of] in H.
  { inv_ok. subst ns. split; [constructor|]. right. change (power []) with 0. change (zsum []) with 0. lia. }
  apply Forall_cons in Hp as [Hv Hp]. inv_ok. subst ns.
  rewrite AssignedRows_exact in Hr by done. inv_ok.
  destruct (IH _ Hp Hr0) as [Hnn Hcov]. destruct Hrr as [H1 H2 H3 H4 H5].
  set (den := vs_TotalVotingPower s * Numerator lt) in *. assert (0 < den) as Hden by (unfold den; nia).
  set (num := originalRows * val_VotingPower v * Denominator lt) in *.
  pose proof (ceil_div_ge num den Hden) as Hceil. pose proof (zsum_nonneg _ Hnn) as Hz.
  set (q := (num + den - 1) / den) in *. rewrite zsum_cons.
  split; [constructor; [lia|done]|]. unfold power in *. cbn [map]. rewrite zsum_cons.
  destruct (decide (originalRows <= r)) as [Hcap|Hncap]; [left; lia|].
  destruct Hcov as [Hcov|Hcov]; [left; lia|]. right.
  assert (q <= r) as Hq by lia. unfold num in *. nia.
Qed.

Lemma rows_of_take s vals originalRows minRows lt k : ∀ ns,
  rows_of s vals originalRows minRows lt = Ok ns →
  rows_of s (take k vals) originalRows minRows lt = Ok (take k ns) ∧ length ns = length vals.
Proof.
  revert k. induction vals as [|v vals IH]; intros k ns H; cbn [rows_of] in H.
  { inv_ok. subst ns. by rewrite !take_nil. }
  inv_ok. subst ns. destruct k as [|k].
  - split; [done|]. cbn. f_equal. by apply (IH 0%nat).
  - destruct (IH k _ Hr0) as [IH1 IH2]. cbn. rewrite Hr. cbn. rewrite IH1. cbn. by rewrite IH2.
Qed.

Section ShardProperties.
Context `{RG : Rng}.

Lemma indices_NoDup seed n : NoDup (Shuffle seed (map Z.of_nat (seq 0 n))).
Proof.
  rewrite Shuffle_Permutation. apply (NoDup_fmap_2_strong Z.of_nat); [|apply NoDup_seq].
  intros i j _ _. apply Nat2Z.inj.
Qed.

Lemma indices_length seed n : length (Shuffle seed (map Z.of_nat (seq 0 n))) = n.
Proof. rewrite Shuffle_Permutation, length_map. apply length_seq. Qed.

Lemma assign_loop_shard idx total counts : ∀ offset i rows,
  assign_loop idx total offset counts !! i = Some rows →
  ∃ o n, counts !! i = Some n ∧ rows = map (row_at idx total) (seq o n).
Proof.
  induction counts as [|n counts IH]; intros offset i rows H; cbn in H; [done|].
  destruct i as [|i]; cbn in H.
  - injection H as <-. exists offset, n. by rewrite take_rows_seq.
  - by apply IH in H.
Qed.

Lemma row_at_range seed total j : (0 < total)%nat →
  0 <= row_at (Shuffle seed (map Z.of_nat (seq 0 total))) total j < Z.of_nat total.
Proof.
  intros Hpos. unfold row_at. set (idx := Shuffle _ _).
  destruct (lookup_lt_is_Some_2 idx (j mod total)) as [x Hx].
  { unfold idx. rewrite indices_length. apply Nat.mod_upper_bound. lia. }
  rewrite Hx. cbn. apply list_elem_of_lookup_2 in Hx. unfold idx in Hx. rewrite Shuffle_Permutation in Hx.
  apply list_elem_of_In, in_map_iff in Hx as (i & <- & Hi%in_seq). lia.
Qed.

Lemma Assign_Ok s commitment totalRows originalRows minRows lt shards :
  Assign s commitment totalRows originalRows minRows lt = Ok shards →
  shards = [] ∨ ∃ counts, rowsPerValidator s originalRows minRows lt = Ok counts ∧ 0 < totalRows ∧
    Forall (λ n, 0 <= n) counts ∧
    shards = assign_loop (Shuffle (take 32 commitment) (map Z.of_nat (seq 0 (Z.to_nat totalRows))))
               (Z.to_nat totalRows) 0 (map Z.to_nat counts).
Proof.
  intros H. unfold Assign in H. destruct (_ || _) eqn:E; [inv_ok; by left|]. right.
  apply orb_false_iff in E as [E _]. apply orb_false_iff in E as [_ Ht]. apply Z.eqb_neq in Ht.
  inv_ok. destruct (_ || _) eqn:E2; [done|]. inv_ok. subst shards. rename r into counts.
  apply orb_false_iff in E2 as [Ht2 Hneg]. apply Z.ltb_ge in Ht2. exists counts. split_and!; [done|lia| |done].
  apply Forall_forall. intros n Hn. apply list_elem_of_In in Hn. apply Z.nlt_ge. intros Hlt.
  assert (existsb (λ n, n <? 0) counts = true) as Hex; [|congruence].
  apply existsb_exists. exists n. split; [done|]. by apply Z.ltb_lt.
Qed.

Lemma sum_counts counts : Forall (λ n, 0 <= n) counts → Z.of_nat (sum_list (map Z.to_nat counts)) = zsum counts.
Proof. induction 1 as [|n counts Hn Hnn IH]; [done|]. cbn [map]. rewrite zsum_cons. cbn. lia. Qed.

(** Shards whose counts together do not exceed the number of rows are disjoint. *)
Lemma shards_disjoint seed total counts :
  Forall (λ n, 0 <= n) counts → zsum counts <= Z.of_nat total →
  NoDup (concat (assign_loop (Shuffle seed (map Z.of_nat (seq 0 total))) total 0 (map Z.to_nat counts))).
Proof.
  intros Hnn Hsum. rewrite assign_loop_concat. apply rows_distinct; [apply indices_NoDup|apply indices_length|].
  pose proof (sum_counts _ Hnn). lia.
Qed.

Lemma rows_of_cap s vals originalRows minRows lt : ∀ counts i n,
  rows_of s vals originalRows minRows lt = Ok counts → counts !! i = Some n → n <= originalRows.
Proof.
  induction vals as [|v vs IH]; intros counts i n Hc Hm; cbn in Hc; inv_ok; subst counts; [done|].
  destruct i as [|i]; cbn in Hm; [|by eapply IH].
  injection Hm as ->. unfold AssignedRows in Hr. inv_ok. subst. lia.
Qed.

(** Every row a validator is assigned is a row of the blob, no validator
    is assigned a row twice, and as long as the counts together do not exceed
    the number of rows no two validators share one. *)
Theorem shards_are_distinct s commitment totalRows originalRows minRows lt shards counts :
  Assign s commitment totalRows originalRows minRows lt = Ok shards →
  rowsPerValidator s originalRows minRows lt = Ok counts →
  (∀ i rows, shards !! i = Some rows →
    Forall (λ r, 0 <= r < totalRows) rows ∧ (originalRows <= totalRows → NoDup rows)) ∧
  (zsum counts <= totalRows → NoDup (concat shards)).
Proof.
  intros H Hc. apply Assign_Ok in H as [->|(counts' & Hc' & Ht & Hnn & ->)]; [split; [done|constructor]|].
  rewrite Hc in Hc'. apply Ok_inj in Hc'. subst counts'.
  split; [|intros Hsum; apply shards_disjoint; [done|lia]].
  intros i rows Hi. apply assign_loop_shard in Hi as (o & n & Hn & ->). split.
  - apply Forall_map, Forall_forall. intros j _.
    pose proof (row_at_range (take 32 commitment) (Z.to_nat totalRows) j). lia.
  - intros Hle. apply rows_distinct; [apply indices_NoDup|apply indices_length|].
    change (map Z.to_nat counts) with (Z.to_nat <$> counts) in Hn. rewrite list_lookup_fmap in Hn.
    destruct (counts !! i) as [m|] eqn:Hm; [|done]. injection Hn as <-.
    pose proof (rows_of_cap _ _ _ _ _ _ _ _ Hc Hm). lia.
Qed.

(** *** The shards of a group of validators *)

(** What the positions of a group select from a list. *)
Definition selected_by {A} (d : A) (l : list A) (group : list nat) : list A :=
  map (λ i, default d (l !! i)) group.

Lemma selected_all {A} (d : A) l : selected_by d l (seq 0 (length l)) = l.
Proof.
  unfold selected_by. apply list_eq. intros i. change (map ?f ?l) with (f <$> l). rewrite list_lookup_fmap.
  destruct (decide (i < length l)%nat) as [Hlt|Hge].
  - rewrite lookup_seq_lt by done. cbn. by destruct (lookup_lt_is_Some_2 l i Hlt) as [x ->].
  - rewrite lookup_seq_ge by lia. symmetry. apply lookup_ge_None_2. lia.
Qed.

Lemma concat_Permutation {A} (l1 l2 : list (list A)) : l1 ≡ₚ l2 → concat l1 ≡ₚ concat l2.
Proof.
  induction 1 as [|x l1 l2 _ IH|x y l|l1 l2 l3 _ IH1 _ IH2]; cbn; [done|by rewrite IH| |by etrans].
  by rewrite !app_assoc, (Permutation_app_comm y x).
Qed.

(** The rows of a group are among the rows of all. *)
Lemma selected_concat {A} (l : list (list A)) group : NoDup group → (∀ i, i ∈ group → (i < length l)%nat) →
  ∃ k, concat l ≡ₚ concat (selected_by [] l group) ++ k.
Proof.
  intros Hn Hlt. assert (group ⊆+ seq 0 (length l)) as [k Hk]%submseteq_Permutation.
  { apply NoDup_submseteq; [done|]. intros i Hi%Hlt. apply elem_of_seq. lia. }
  exists (concat (selected_by [] l k)). rewrite <- concat_app. unfold selected_by. rewrite <- map_app.
  rewrite <- (selected_all [] l) at 1. apply concat_Permutation. unfold selected_by. by apply Permutation_map.
Qed.

Definition nobody : Validator := mkValidator [] [] 0.

Lemma rows_of_lookup s vals originalRows minRows lt : ∀ counts i v,
  rows_of s vals originalRows minRows lt = Ok counts → vals !! i = Some v →
  ∃ n, counts !! i = Some n ∧ AssignedRows s v originalRows minRows lt = Ok n.
Proof.
  induction vals as [|u vals IH]; intros counts i v Hc Hv; [done|]. cbn [rows_of] in Hc. inv_ok. subst counts.
  destruct i as [|i]; cbn in Hv |- *; [injection Hv as ->; by exists r|by eapply IH].
Qed.

Lemma rows_of_selected s vals originalRows minRows lt counts group :
  rows_of s vals originalRows minRows lt = Ok counts → (∀ i, i ∈ group → (i < length vals)%nat) →
  rows_of s (selected_by nobody vals group) originalRows minRows lt = Ok (selected_by 0 counts group).
Proof.
  intros Hc. induction group as [|i group IH]; intros Hlt; [done|]. cbn [selected_by map rows_of].
  destruct (lookup_lt_is_Some_2 vals i) as [v Hv]; [apply Hlt; left|].
  destruct (rows_of_lookup _ _ _ _ _ _ _ _ Hc Hv) as (n & Hn & Hrow). 
  replace (default nobody (vals !! i)) with v by by rewrite Hv. replace (default 0 (counts !! i)) with n by by rewrite Hn.
  rewrite Hrow. cbn [mbind result_bind]. fold (selected_by nobody vals group). rewrite IH; [done|].
  intros k Hk. apply Hlt. by right.
Qed.

Lemma assign_loop_lengths idx total counts : ∀ offset,
  map length (assign_loop idx total offset counts) = counts.
Proof.
  induction counts as [|n counts IH]; intros offset; [done|]. cbn. f_equal; [|apply IH].
  unfold take_rows. by rewrite length_map, length_seq.
Qed.

Lemma selected_length (shards : list (list Z)) counts group :
  map length shards = map Z.to_nat counts → Forall (λ n, 0 <= n) counts →
  Z.of_nat (length (concat (selected_by [] shards group))) = zsum (selected_by 0 counts group).
Proof.
  intros Hl Hnn. induction group as [|i group IH]; [done|]. cbn [selected_by map concat].
  rewrite length_app, zsum_cons, Nat2Z.inj_add. fold (selected_by [] shards group) (selected_by 0 counts group).
  rewrite IH. f_equal.
  assert (length <$> shards !! i = Z.to_nat <$> counts !! i) as Hi.
  { rewrite <- !list_lookup_fmap. by f_equal. }
  destruct (shards !! i) as [rows|], (counts !! i) as [n|] eqn:Hn; cbn in Hi |- *; try done.
  injection Hi as ->. rewrite Forall_lookup in Hnn. apply Hnn in Hn. lia.
Qed.

(** Rows counted with multiplicity. *)
Lemma live_rows_counted s vals originalRows minRows lt counts :
  rows_in_range s originalRows lt → 0 <= minRows →
  Forall (λ v, 0 <= val_VotingPower v <= vs_TotalVotingPower s) vals →
  vs_TotalVotingPower s * Numerator lt <= power vals * Denominator lt →
  rows_of s vals originalRows minRows lt = Ok counts →
  originalRows <= zsum counts.
Proof.
  intros Hrr Hmin Hp Hlive H. destruct (rows_of_cover _ _ _ _ _ _ Hrr Hmin Hp H) as [Hnn [Hc|Hc]]; [done|].
  destruct Hrr as [H1 H2 H3 H4 _]. set (den := vs_TotalVotingPower s * Numerator lt) in *.
  assert (0 < den) by (unfold den; nia). apply (Zmult_le_reg_r _ _ den); [lia|]. nia.
Qed.

(** C39: when the assigned rows do not wrap around, any group of validators
    (given by their positions in the set) that together holds the liveness
    threshold of the voting power is assigned pairwise different rows of the
    blob, and at least as many as are needed to reconstruct it. *)
Theorem live_validators_cover_rows s commitment totalRows originalRows minRows lt shards counts group :
  rows_in_range s originalRows lt → 0 < minRows →
  Forall (λ v, 0 <= val_VotingPower v <= vs_TotalVotingPower s) (vs_Validators s) →
  rowsPerValidator s originalRows minRows lt = Ok counts → 0 < totalRows → zsum counts <= totalRows →
  Assign s commitment totalRows originalRows minRows lt = Ok shards →
  NoDup group → (∀ i, i ∈ group → (i < length (vs_Validators s))%nat) →
  vs_TotalVotingPower s * Numerator lt <=
    power (selected_by nobody (vs_Validators s) group) * Denominator lt →
  let rows := concat (selected_by [] shards group) in
  NoDup rows ∧ Forall (λ r, 0 <= r < totalRows) rows ∧ originalRows <= Z.of_nat (length rows).
Proof.
  intros Hrr Hmin Hp Hc Htot Hsum Has Hn Hlt Hlive rows.
  assert (length counts = length (vs_Validators s)) as Hlen by by apply (rows_of_take s _ _ _ _ 0 _ Hc).
  unfold Assign in Has. rewrite Hc in Has. cbn [mbind result_bind] in Has.
  destruct (_ || _ || _) eqn:E in Has.
  { exfalso. apply orb_true_iff in E as [[E|E]%orb_true_iff|E]; [|apply Z.eqb_eq in E; lia..].
    apply Nat.eqb_eq, nil_length_inv in E. rewrite E in Hlt. destruct group as [|i group].
    - cbn in Hlive. destruct Hrr. nia.
    - specialize (Hlt i ltac:(left)). cbn in Hlt. lia. }
  destruct (_ || _) eqn:E2 in Has; [done|]. apply Ok_inj in Has. clear E.
  assert (Forall (λ n, 0 <= n) counts) as Hnn by by eapply (rows_of_cover s _ originalRows minRows lt); [..|exact Hc]; lia || done.
  assert (length shards = length counts) as Hls.
  { rewrite <- (length_map Z.to_nat counts), <- (assign_loop_lengths (Shuffle (take 32 commitment)
      (map Z.of_nat (seq 0 (Z.to_nat totalRows)))) (Z.to_nat totalRows) (map Z.to_nat counts) 0), length_map. by rewrite Has. }
  destruct (selected_concat shards group Hn) as [k Hk]; [intros i Hi%Hlt; lia|].
  assert (Forall (λ r, 0 <= r < totalRows) (concat shards)) as Hrange.
  { rewrite <- Has, assign_loop_concat. apply Forall_map, Forall_forall. intros j _.
    pose proof (row_at_range (take 32 commitment) (Z.to_nat totalRows) j). lia. }
  split_and!.
  - assert (NoDup (concat shards)) as Hnd by (rewrite <- Has; apply shards_disjoint; [done|lia]).
    rewrite Hk in Hnd. by apply NoDup_app in Hnd as [? _].
  - rewrite Hk in Hrange. by apply Forall_app in Hrange as [? _].
  - unfold rows. rewrite (selected_length shards counts group); [|rewrite <- Has; apply assign_loop_lengths|done].
    apply (live_rows_counted s (selected_by nobody (vs_Validators s) group) originalRows minRows lt); try done; [lia| |].
    + apply Forall_map, Forall_forall. intros i Hi. cbn. destruct (lookup_lt_is_Some_2 _ _ (Hlt i Hi)) as [v Hv].
      rewrite Hv. by eapply Forall_lookup_1 in Hp.
    + by apply rows_of_selected.
Qed.
End ShardProperties.

(** ** Selection *)

Lemma shuffleByStake_Permutation draw k l l' : shuffleByStake draw k l = Ok l' → l' ≡ₚ l.
Proof.
  unfold shuffleByStake. generalize (pred (length l)) as n, 0%nat as i. intros n. revert k l.
  induction n as [|n IH]; intros k l i H; cbn [shuffleByStake_loop] in H; [by inv_ok; subst|].
  case_match; [done|]. apply IH in H. rewrite H. case_match; [apply swap_Permutation|done].
Qed.

(** The bounds under which the split point is computed without overflow. *)
Record select_in_range (s : ValSet) (originalRows minRows : Z) (lt : Fraction) : Prop := {
  sr_rows : rows_in_range s originalRows lt;
  sr_min : 0 <= minRows <= originalRows;
  sr_fraction : Numerator lt <= Denominator lt;
  sr_fits : (minRows + 1) * vs_TotalVotingPower s + originalRows * Denominator lt < two63;
}.

(** The stake a validator is counted with, and the bound it puts on its rows. *)
Lemma split_loop_bound T m l : ∀ acc,
  0 <= m → T + m < two63 → 0 <= T → 0 <= acc <= T → Forall (λ v, 0 <= sel_power v <= T) l → T + T < two63 →
  acc + zsum (map (λ v, Z.max (sel_power v) m) (take (split_loop T m acc l) l)) <= T.
Proof.
  induction l as [|v l IH]; intros acc Hm Hf HT Hacc Hl HT2; cbn [split_loop take map]; [cbn; lia|].
  apply Forall_cons in Hl as [Hv Hl]. rewrite wrap_i64_id by fits.
  destruct (Z.ltb_spec T (acc + Z.max (sel_power v) m)); [cbn; lia|].
  cbn [take map]. rewrite zsum_cons. specialize (IH (acc + Z.max (sel_power v) m) Hm Hf HT ltac:(lia) Hl HT2). lia.
Qed.

(** The split point with exact arithmetic. *)
Lemma splitIdx_exact s sel originalRows minRows lt :
  select_in_range s originalRows minRows lt →
  let td := originalRows * Denominator lt / Numerator lt in
  let minStake := (minRows * vs_TotalVotingPower s + td - 1) / td in
  splitIdx s sel originalRows minRows lt = Ok (split_loop (vs_TotalVotingPower s) minStake 0 sel) ∧
  1 <= td ∧ td * Numerator lt <= originalRows * Denominator lt ∧ minRows * vs_TotalVotingPower s <= minStake * td ∧
  0 <= minStake <= minRows * vs_TotalVotingPower s.
Proof.
  intros [[H1 H2 H3 H4 _] Hmin Hfr Hfit] td minStake. set (T := vs_TotalVotingPower s) in *.
  set (N := Numerator lt) in *. set (D := Denominator lt) in *. set (o := originalRows) in *.
  assert (0 <= minRows * T) by nia. assert (D <= o * D) by nia.
  assert (1 <= td) as Htd by (apply Z.div_le_lower_bound; nia).
  assert (td <= o * D) by (apply Z.div_le_upper_bound; nia).
  assert (N * td <= o * D) by (apply Z.mul_div_le; lia).
  pose proof (ceil_div_ge (minRows * T) td ltac:(lia)) as Hms. fold minStake in Hms.
  assert (0 <= minStake) by (apply Z.div_pos; lia).
  assert (minStake <= minRows * T) as Hle.
  { destruct (decide (minRows * T = 0)) as [E|].
    - unfold minStake. rewrite E. rewrite Z.div_small; lia.
    - apply Z.lt_succ_r, Z.div_lt_upper_bound; nia. }
  split; [|lia]. unfold splitIdx. fold T N D o.
  rewrite (wrap_i64_id D), (wrap_i64_id N), (wrap_i64_id (o * D)) by fits.
  unfold int64_div. destruct (Z.eqb_spec N 0); [lia|]. rewrite Z.quot_div_nonneg by lia. fold td.
  rewrite (wrap_i64_id td) by fits. cbn [mbind result_bind].
  destruct (Z.eqb_spec td 0); [lia|].
  rewrite (wrap_i64_id (minRows * T)), (wrap_i64_id (_ + _)), (wrap_i64_id (_ - 1)) by fits.
  rewrite Z.quot_div_nonneg by lia. fold minStake.
  rewrite (wrap_i64_id minStake) by fits. done.
Qed.

(** The rows of the validators counted with a given stake. *)
Lemma rows_by_stake s vals originalRows minRows lt ns m td :
  rows_in_range s originalRows lt → 0 <= minRows → 0 <= m →
  td * Numerator lt <= originalRows * Denominator lt → minRows * vs_TotalVotingPower s <= m * td →
  Forall (λ v, 0 <= val_VotingPower v <= vs_TotalVotingPower s) vals →
  rows_of s vals originalRows minRows lt = Ok ns →
  (zsum ns - Z.of_nat (length vals)) * (vs_TotalVotingPower s * Numerator lt) <=
  originalRows * Denominator lt * zsum (map (λ v, Z.max (val_VotingPower v) m) vals).
Proof.
  intros Hrr Hmin Hm Htd Hms. revert ns. induction vals as [|v vals IH]; intros ns Hp H; cbn [rows_of] in H.
  { inv_ok. subst ns. cbn. lia. }
  apply Forall_cons in Hp as [Hv Hp]. inv_ok. subst ns. specialize (IH _ Hp Hr0).
  rewrite AssignedRows_exact in Hr by done. inv_ok. destruct Hrr as [H1 H2 H3 H4 _].
  cbn [map length]. rewrite !zsum_cons, Nat2Z.inj_succ.
  set (T := vs_TotalVotingPower s) in *. set (N := Numerator lt) in *. set (D := Denominator lt) in *.
  set (w := Z.max (val_VotingPower v) m). set (num := originalRows * val_VotingPower v * D) in *.
  assert ((r - 1) * (T * N) <= originalRows * D * w); [|nia].
  assert (0 < T * N) as HTN by nia. assert (0 < originalRows * D) as HoD by nia.
  assert (((num + T * N - 1) / (T * N) - 1) * (T * N) <= originalRows * D * w) as Hq.
  { pose proof (Z.mul_div_le (num + T * N - 1) (T * N) HTN). unfold num in *.
    assert (val_VotingPower v <= w) by (unfold w; lia). nia. }
  assert (minRows * (T * N) <= originalRows * D * w) as Hmr.
  { assert (m <= w) by (unfold w; lia). assert (minRows * T * N <= m * td * N) by nia.
    assert (m * (td * N) <= m * (originalRows * D)) by nia. nia. }
  assert (r <= Z.max ((num + T * N - 1) / (T * N)) minRows) by lia. nia.
Qed.

Lemma assign_loop_take idx total k counts : ∀ offset,
  take k (assign_loop idx total offset counts) = assign_loop idx total offset (take k counts).
Proof.
  revert k. induction counts as [|n counts IH]; intros [|k] offset; [done..|]. cbn. by rewrite IH.
Qed.

Lemma zip_powers vals ns m k : length ns = length vals →
  map (λ v, Z.max (sel_power v) m) (take k (zip_with mkSelected vals ns)) =
  map (λ v, Z.max (val_VotingPower v) m) (take k vals).
Proof.
  revert ns k. induction vals as [|v vals IH]; intros [|n ns] [|k] Hl; try done. cbn. f_equal. apply IH. by injection Hl.
Qed.

(** The rows of the validators before the split point fit in the distributed
    rows, up to one row of rounding each. *)
Lemma first_group_rows s originalRows minRows lt counts k :
  select_in_range s originalRows minRows lt →
  Forall (λ v, 0 <= val_VotingPower v <= vs_TotalVotingPower s) (vs_Validators s) →
  2 * vs_TotalVotingPower s < two63 →
  rowsPerValidator s originalRows minRows lt = Ok counts →
  splitIdx s (zip_with mkSelected (vs_Validators s) counts) originalRows minRows lt = Ok k →
  zsum (take k counts) <= originalRows * Denominator lt / Numerator lt + Z.of_nat (length (vs_Validators s)).
Proof.
  intros Hsr Hp HT Hc Hk. set (candidates := zip_with _ _ _) in *.
  destruct (splitIdx_exact s candidates _ _ _ Hsr) as (Hk' & Htd & Hdiv & Hms & Hm0).
  set (td := _ / Numerator lt) in *. set (m := (_ + td - 1) / td) in *.
  rewrite Hk in Hk'. apply Ok_inj in Hk'.
  unfold rowsPerValidator in Hc. destruct (rows_of_take _ _ _ _ _ k _ Hc) as [Htake Hlen].
  destruct Hsr as [Hrr Hmin Hfr Hfit].
  pose proof (rows_by_stake s _ _ _ _ _ m td Hrr (proj1 Hmin) (proj1 Hm0) Hdiv Hms (Forall_take _ k _ Hp) Htake) as Hsum.
  assert (zsum (map (λ v, Z.max (val_VotingPower v) m) (take k (vs_Validators s))) <= vs_TotalVotingPower s) as HsT.
  { rewrite <- (zip_powers (vs_Validators s) counts m k Hlen), Hk'.
    pose proof (split_loop_bound (vs_TotalVotingPower s) m candidates 0) as Hb. destruct Hrr.
    apply Hb; try lia. unfold candidates. clear -Hp. revert counts.
    induction Hp as [|v vals Hv Hp IH]; intros [|n ns]; constructor; auto. }
  destruct Hrr as [H1 H2 H3 H4 _]. assert (length (take k (vs_Validators s)) <= length (vs_Validators s))%nat as Hlk
    by (rewrite length_take; lia).
  set (T := vs_TotalVotingPower s) in *. set (L := Z.of_nat (length (take k _))) in *.
  assert ((zsum (take k counts) - L) * Numerator lt <= originalRows * Denominator lt) as Hfin.
  { assert (0 <= originalRows * Denominator lt) by nia. apply (Z.mul_le_mono_pos_l _ _ T); nia. }
  assert (zsum (take k counts) - L <= td); [|lia]. apply Z.div_le_lower_bound; lia.
Qed.

Section SelectProperties.
Context `{RG : Rng}.

(** [Select] returns every validator once, with its expected row count,
    in two groups; the validators of the first group have pairwise disjoint
    shards when the rows of the blob leave room for one row of rounding per
    validator. *)
Theorem selected_first_group_disjoint draw s commitment totalRows originalRows minRows lt sel shards counts :
  select_in_range s originalRows minRows lt →
  Forall (λ v, 0 <= val_VotingPower v <= vs_TotalVotingPower s) (vs_Validators s) →
  2 * vs_TotalVotingPower s < two63 →
  originalRows * Denominator lt / Numerator lt + Z.of_nat (length (vs_Validators s)) <= totalRows →
  rowsPerValidator s originalRows minRows lt = Ok counts →
  Select draw s originalRows minRows lt = Ok sel →
  Assign s commitment totalRows originalRows minRows lt = Ok shards →
  let candidates := zip_with mkSelected (vs_Validators s) counts in
  ∃ first second k, splitIdx s candidates originalRows minRows lt = Ok k ∧
    sel = first ++ second ∧ first ≡ₚ take k candidates ∧ second ≡ₚ drop k candidates ∧
    NoDup (concat (take k shards)).
Proof.
  intros Hsr Hp HT Hroom Hc Hsel Has candidates. unfold Select in Hsel.
  destruct (length (vs_Validators s) =? 0)%nat eqn:E.
  { inv_ok. subst sel. apply Nat.eqb_eq, nil_length_inv in E. unfold candidates. rewrite E.
    exists [], [], 0%nat. split_and!; try done; [|constructor].
    apply (splitIdx_exact s [] _ _ _ Hsr). }
  rewrite Hc in Hsel. cbn [mbind result_bind] in Hsel. fold candidates in Hsel. inv_ok. subst sel.
  rename r into k. exists r0, r1, k. split_and!; [done|done|by eapply shuffleByStake_Permutation..|].
  apply Assign_Ok in Has as [->|(counts' & Hc' & Ht & Hnn & ->)]; [rewrite take_nil; constructor|].
  rewrite Hc in Hc'. apply Ok_inj in Hc'. subst counts'. rewrite assign_loop_take.
  change (take k (map Z.to_nat counts)) with (take k (Z.to_nat <$> counts)). rewrite <- fmap_take.
  apply shards_disjoint; [by apply Forall_take|]. rewrite Z2Nat.id by lia.
  pose proof (first_group_rows _ _ _ _ _ _ Hsr Hp HT Hc Hr). lia.
Qed.
End SelectProperties.

(** ** Verification accepts exactly the assigned rows *)

Lemma verify_loop_Ok l : ∀ m,
  verify_loop m l = Ok tt ↔ NoDup l ∧ ∀ r, r ∈ l → m !! r = Some false.
Proof.
  induction l as [|x l IH]; intros m; cbn [verify_loop].
  { split; [|done]. intros _. split; [constructor|]. intros r Hr. by apply elem_of_nil in Hr. }
  rewrite NoDup_cons. split.
  - destruct (m !! x) as [[]|] eqn:Hx; try done. intros [Hn Hl]%IH. split; [split; [|done]|].
    + intros Hin%Hl. by rewrite lookup_insert_eq in Hin.
    + intros r [->|Hr]%elem_of_cons; [done|]. apply Hl in Hr as Hr'.
      rewrite lookup_insert_ne in Hr'; [done|]. intros <-. by rewrite lookup_insert_eq in Hr'.
  - intros [[Hx Hn] Hl]. rewrite (Hl x) by by left. apply IH. split; [done|].
    intros r Hr. rewrite lookup_insert_ne; [apply Hl; by right|]. by intros ->.
Qed.

Lemma assigned_lookup rows : ∀ (m : gmap Z bool) r, Forall u32 rows →
  fold_left (λ m idx, <[wrap_u32 idx := false]> m) rows m !! r =
  if decide (r ∈ rows) then Some false else m !! r.
Proof.
  induction rows as [|x rows IH]; intros m r Hu; cbn [fold_left].
  { rewrite decide_False; [done|]. apply not_elem_of_nil. }
  apply Forall_cons in Hu as [Hx Hu]. rewrite IH by done.
  assert (wrap_u32 x = x) as -> by (unfold wrap_u32, u32, two32 in *; by apply Z.mod_small).
  destruct (decide (r = x)) as [->|Hne].
  - rewrite lookup_insert_eq. rewrite (decide_True (P := x ∈ x :: rows)) by by left. by case_decide.
  - rewrite lookup_insert_ne by done. destruct (decide (r ∈ rows)) as [Hin|Hni].
    + rewrite decide_True; [done|]. by right.
    + rewrite decide_False; [done|]. by rewrite not_elem_of_cons.
Qed.

(** A validator accepts a list of row indices exactly when it is a
    rearrangement of the rows it was assigned. *)
Theorem verify_accepts_assigned_rows rows rowIndices :
  Forall u32 rows → NoDup rows →
  Verify (Some rows) rowIndices = Ok tt ↔ rowIndices ≡ₚ rows.
Proof.
  intros Hu Hn. unfold Verify. rewrite bind_Ok. split.
  - intros ([] & Hlen & Hv). apply ensure_Ok, Nat.eqb_eq in Hlen. apply verify_loop_Ok in Hv as [Hnd Hin].
    assert (rowIndices ⊆+ rows) as Hsub.
    { apply NoDup_submseteq; [done|]. intros r Hr. apply Hin in Hr. rewrite assigned_lookup in Hr by done.
      case_decide; [done|]. by rewrite lookup_empty in Hr. }
    apply submseteq_length_Permutation; [done|lia].
  - intros Hp. exists tt. split; [apply ensure_Ok, Nat.eqb_eq; by rewrite Hp|].
    apply verify_loop_Ok. split; [by rewrite Hp|]. intros r Hr. rewrite assigned_lookup by done.
    rewrite decide_True; [done|]. by rewrite <- Hp.
Qed.

(** ** Concrete runs *)

Module ShardExample.
#[local] Instance rng : Rng := { uint64n seed k n := (k mod n)%nat }.

Definition vals : list Validator := [mkValidator [1] [1] 30; mkValidator [2] [2] 20; mkValidator [3] [3] 10].
Definition set : ValSet := mkValSet vals 60 1.
Definition third : Fraction := mkFraction 1 3.
Definition shards : list (list Z) := match Assign set [] 24 8 1 third with Ok l => l | _ => [] end.

Lemma assign_run : Assign set [] 24 8 1 third = Ok shards.
Proof. vm_compute. reflexivity. Qed.

Lemma counts_run : rowsPerValidator set 8 1 third = Ok [8; 8; 4].
Proof. vm_compute. reflexivity. Qed.

Lemma shards_are_distinct_witness : NoDup (concat shards).
Proof.
  destruct (shards_are_distinct set [] 24 8 1 third shards [8; 8; 4] assign_run counts_run) as [_ H].
  apply H. vm_compute. discriminate.
Defined.

(** The second and the third validator hold half of the power. *)
Lemma live_validators_cover_rows_witness :
  let rows := concat (selected_by [] shards [1%nat; 2%nat]) in
  NoDup rows ∧ Forall (λ r, 0 <= r < 24) rows ∧ 8 <= Z.of_nat (length rows).
Proof.
  apply (live_validators_cover_rows set [] 24 8 1 third shards [8; 8; 4] [1%nat; 2%nat]).
  - constructor; vm_compute; reflexivity.
  - lia.
  - repeat constructor; vm_compute; discriminate.
  - exact counts_run.
  - lia.
  - vm_compute. discriminate.
  - exact assign_run.
  - apply (bool_decide_unpack _). vm_compute. exact I.
  - intros i Hi. rewrite !elem_of_cons, elem_of_nil in Hi. cbn. lia.
  - vm_compute. discriminate.
Defined.

Definition draw (k : nat) (b : Z) : Z := b / 2.
Definition selected : list SelectedValidator := match Select draw set 8 1 third with Ok l => l | _ => [] end.

Lemma select_run : Select draw set 8 1 third = Ok selected.
Proof. vm_compute. reflexivity. Qed.

(** With 27 rows there is room for 24 distributed rows and three roundings. *)
Definition shards27 : list (list Z) := match Assign set [] 27 8 1 third with Ok l => l | _ => [] end.

Lemma assign_run27 : Assign set [] 27 8 1 third = Ok shards27.
Proof. vm_compute. reflexivity. Qed.

Lemma selected_first_group_disjoint_witness :
  ∃ first second k, selected = first ++ second ∧ length (first ++ second) = 3%nat ∧ NoDup (concat (take k shards27)).
Proof.
  destruct (selected_first_group_disjoint draw set [] 27 8 1 third selected shards27 [8; 8; 4])
    as (first & second & k & _ & Hsel & _ & _ & Hnd).
  - constructor; [constructor; vm_compute; reflexivity|vm_compute; split; discriminate|vm_compute; discriminate|vm_compute; reflexivity].
  - repeat constructor; vm_compute; discriminate.
  - vm_compute. reflexivity.
  - vm_compute. discriminate.
  - exact counts_run.
  - exact select_run.
  - exact assign_run27.
  - exists first, second, k. split_and!; [exact Hsel|rewrite <- Hsel; vm_compute; reflexivity|exact Hnd].
Defined.

Lemma verify_accepts_assigned_rows_witness : Verify (Some [3; 1; 2]) [1; 2; 3] = Ok tt ↔ [1; 2; 3] ≡ₚ [3; 1; 2].
Proof.
  apply (verify_accepts_assigned_rows [3; 1; 2] [1; 2; 3]).
  - repeat constructor; vm_compute; (discriminate || reflexivity).
  - apply (bool_decide_unpack _). vm_compute. exact I.
Defined.
End ShardExample.
