(* ===== verification/Signal.v ===== *)
(** * x/signal: signalling and scheduling upgrades

    [x/signal/keeper.go]: validators signal a version, a tally of five sixths
    of the voting power schedules the upgrade. *)

From S2P Require Import Prelude Sdk LegacyDec.
#[local] Open Scope Z_scope.

Module Signal.

(** ** Data *)

Record Upgrade := mkUpgrade { AppVersion : Z; UpgradeHeight : Z }.

#[global] Instance Upgrade_eq_dec : EqDecision Upgrade.
Proof. solve_decision. Defined.

(** The block header's app version, height and chain id. *)
Record Header := mkHeader { hd_App : Z; hd_Height : Z; hd_ChainID : string }.

(** The module's store: raw keys and values. *)
Abbreviation Store := (gmap bytes bytes) (only parsing).

Definition UpgradeKey : bytes := [0].
Definition FirstSignalKey : bytes := [0].

(** [stakingKeeper.GetValidator]. *)
Inductive validator_lookup :=
| ValidatorFound (bonded : bool)
| NoValidatorFound
| LookupError (e : error).

#[global] Instance validator_lookup_eq_dec : EqDecision validator_lookup.
Proof. solve_decision. Defined.

(** A validator as [IterateValidators] shows it: operator string and moniker. *)
Record ValidatorI := mkValidatorI { GetOperator : bytes; GetMoniker : string }.

Class StakingKeeper := {
  GetLastValidatorPower : bytes → result Z;
  GetLastTotalPower : result Z;
  GetValidator : bytes → validator_lookup;
  AllValidators : result (list ValidatorI);
  ValAddressFromBech32 : bytes → option bytes;
}.

(** The power of an address, zero when the lookup fails. *)
Definition last_power `{StakingKeeper} (addr : bytes) : Z :=
  match GetLastValidatorPower addr with Ok p => p | _ => 0 end.

(** Powers are non-negative and add up to at most the total. *)
Class StakingLaws `{StakingKeeper} := {
  last_power_nonneg addr : 0 <= last_power addr;
  last_power_total addrs total : NoDup addrs → GetLastTotalPower = Ok total →
    zsum (map last_power addrs) <= total;
}.

Class UpgradeCodec := {
  marshal : Upgrade → bytes;
  unmarshal : bytes → result Upgrade;
}.
Class UpgradeCodecLaws `{UpgradeCodec} := { unmarshal_marshal u : unmarshal (marshal u) = Ok u }.

(** ** Versions as bytes *)

Definition VersionToBytes (version : Z) : bytes := be_bytes 8 version.

Definition VersionFromBytes (version : bytes) : Z :=
  if negb (length version =? 8)%nat then 0 else be_decode version.

Lemma version_roundtrip v : u64 v → VersionFromBytes (VersionToBytes v) = v.
Proof.
  intros Hv. unfold VersionFromBytes, VersionToBytes. rewrite length_be_bytes. cbn.
  apply be_decode_bytes. unfold u64, two64 in Hv. lia.
Qed.

(** ** Upgrade delays *)

Definition TestChainID : string := "test".
Definition CortoChainID : string := "corto-1".
Definition MochaChainID : string := "mocha-5".
Definition TestUpgradeHeightDelay : Z := 3.
Definition CortoUpgradeHeightDelay : Z := 33231.
Definition MochaUpgradeHeightDelay : Z := 66462.
Definition MainnetUpgradeHeightDelay : Z := 232616.

Definition GetUpgradeHeightDelay (chainID : string) : Z :=
  if String.eqb chainID TestChainID then TestUpgradeHeightDelay
  else if String.eqb chainID CortoChainID then CortoUpgradeHeightDelay
  else if String.eqb chainID MochaChainID then MochaUpgradeHeightDelay
  else MainnetUpgradeHeightDelay.

Section Keeper.
Context `{SK : StakingKeeper} `{UC : UpgradeCodec} `{DO : DecOps} `{AC : AddressCodec}.

(** ** The store *)

Definition getUpgrade (st : Store) : result (option Upgrade) :=
  match st !! UpgradeKey with
  | None => Ok None
  | Some value =>
      match unmarshal value with
      | Ok u => Ok (Some u)
      | Err e => Panic e
      | Panic p => Panic p
      end
  end.

Definition setUpgrade (st : Store) (upgrade : Upgrade) : Store := <[UpgradeKey := marshal upgrade]> st.

Definition IsUpgradePending (st : Store) : result bool :=
  u ← getUpgrade st; Ok (bool_decide (is_Some u)).

Definition SetValidatorVersion (st : Store) (valAddress : bytes) (version : Z) : Store :=
  <[valAddress := VersionToBytes version]> st.

Definition DeleteValidatorVersion (st : Store) (valAddress : bytes) : Store := delete valAddress st.

(** [store.Iterator(types.FirstSignalKey, nil)]. *)
Definition signal_entries (st : Store) : list (bytes * bytes) :=
  filter (λ kv, bytes_le FirstSignalKey kv.1) (sorted_entries st).

(** ** Threshold *)

Definition defaultSignalThreshold : result dec := dec_Quo (dec_NewDec 5) (dec_NewDec 6).

Definition Threshold (version : Z) : result dec := defaultSignalThreshold.

Definition GetVotingPowerThreshold (hd : Header) : result Z :=
  totalVotingPower ← GetLastTotalPower;
  thresholdFraction ← Threshold (hd_App hd);
  Ok (dec_TruncateInt (dec_Ceil (dec_MulInt thresholdFraction totalVotingPower))).

(** ** Tallying *)

Fixpoint tally_loop (threshold : Z) (l : list (bytes * bytes)) (versionToPower : gmap Z Z) (st : Store)
    : result (Store * (bool * Z)) :=
  match l with
  | [] => Ok (st, (false, 0))
  | (key, value) :: l' =>
      if bool_decide (key = UpgradeKey) then tally_loop threshold l' versionToPower st
      else match GetValidator key with
      | LookupError e => Err e
      | NoValidatorFound => tally_loop threshold l' versionToPower (DeleteValidatorVersion st key)
      | ValidatorFound false => tally_loop threshold l' versionToPower st
      | ValidatorFound true =>
          power ← GetLastValidatorPower key;
          let version := VersionFromBytes value in
          let newPower := match versionToPower !! version with
                          | None => power
                          | Some old => wrap_i64 (old + power)
                          end in
          if threshold <=? newPower then Ok (st, (true, version))
          else tally_loop threshold l' (<[version := newPower]> versionToPower) st
      end
  end.

Definition TallyVotingPower (st : Store) (threshold : Z) : result (Store * (bool * Z)) :=
  tally_loop threshold (signal_entries st) ∅ st.

(** [math.Int.Int64] panics out of range. *)
Definition Int_Int64 (n : Z) : result Z :=
  if (- two63 <=? n) && (n <? two63) then Ok n else Panic "Int64() out of bound".

(** ** Messages *)

Record MsgSignalVersion := mkMsgSignalVersion { sv_ValidatorAddress : bytes; sv_Version : Z }.

Definition MsgSignalVersion_ValidateBasic (msg : MsgSignalVersion) : result unit :=
  match ValAddressFromBech32 (sv_ValidatorAddress msg) with Some _ => Ok tt | None => Err "invalid address" end.

Definition MsgTryUpgrade_ValidateBasic (signer : bytes) : result unit :=
  match AccAddressFromBech32 signer with Some _ => Ok tt | None => Err "invalid address" end.

Definition SignalVersion (hd : Header) (st : Store) (req : MsgSignalVersion) : result Store :=
  pending ← IsUpgradePending st;
  _ ← ensure (negb pending) "ErrUpgradePending";
  valAddr ← of_option "invalid address" (ValAddressFromBech32 (sv_ValidatorAddress req));
  _ ← ensure (negb (sv_Version req <? hd_App hd)) "ErrInvalidSignalVersion";
  match GetValidator valAddr with
  | ValidatorFound _ => Ok (SetValidatorVersion st valAddr (sv_Version req))
  | NoValidatorFound => Err "validator does not exist"
  | LookupError e => Err e
  end.

Definition TryUpgrade (hd : Header) (st : Store) : result Store :=
  pending ← IsUpgradePending st;
  _ ← ensure (negb pending) "ErrUpgradePending";
  threshold ← GetVotingPowerThreshold hd;
  threshold ← Int_Int64 threshold;
  '(st', (hasQuorum, version)) ← TallyVotingPower st threshold;
  if (hasQuorum : bool) then
    _ ← ensure (negb (version <=? hd_App hd)) "ErrInvalidUpgradeVersion";
    Ok (setUpgrade st' (mkUpgrade version (wrap_i64 (hd_Height hd + GetUpgradeHeightDelay (hd_ChainID hd)))))
  else Ok st'.

(** ** Queries *)

(** [math.Int.Uint64] panics out of range. *)
Definition Int_Uint64 (n : Z) : result Z :=
  if (0 <=? n) && (n <? two64) then Ok n else Panic "Uint64() out of bounds".

Fixpoint version_tally_loop (version : Z) (l : list (bytes * bytes)) (acc : Z) : result Z :=
  match l with
  | [] => Ok acc
  | (key, value) :: l' =>
      if bool_decide (key = UpgradeKey) then version_tally_loop version l' acc
      else
        power ← GetLastValidatorPower key;
        version_tally_loop version l' (if VersionFromBytes value =? version then acc + power else acc)
  end.

Record VersionTallyResponse := mkVersionTallyResponse {
  vt_VotingPower : Z;
  vt_ThresholdPower : Z;
  vt_TotalVotingPower : Z;
}.

Definition VersionTally (hd : Header) (st : Store) (version : Z) : result VersionTallyResponse :=
  totalVotingPower ← GetLastTotalPower;
  currentVotingPower ← version_tally_loop version (signal_entries st) 0;
  threshold ← GetVotingPowerThreshold hd;
  v ← Int_Uint64 currentVotingPower;
  t ← Int_Uint64 threshold;
  total ← Int_Uint64 totalVotingPower;
  Ok (mkVersionTallyResponse v t total).

(** The callback of [GetMissingValidators] on one validator: whether its
    moniker is appended. *)
Definition is_missing (st : Store) (version : Z) (validator : ValidatorI) : bool :=
  match ValAddressFromBech32 (GetOperator validator) with
  | None => false
  | Some valAddr =>
      match GetLastValidatorPower valAddr with
      | Ok power =>
          if power <=? 0 then false
          else match st !! valAddr with
               | None => true
               | Some votedVersionBytes => negb (VersionFromBytes votedVersionBytes =? version)
               end
      | _ => false
      end
  end.

Definition GetMissingValidators (st : Store) (version : Z) : result (list string) :=
  vals ← AllValidators;
  Ok (map GetMoniker (List.filter (is_missing st version) vals)).

Definition GetUpgrade (st : Store) : result (option Upgrade) := getUpgrade st.

(** ** Executing an upgrade *)

Definition ShouldUpgrade (height : Z) (st : Store) : result (bool * Upgrade) :=
  u ← getUpgrade st;
  match u with
  | None => Ok (false, mkUpgrade 0 0)
  | Some upgrade => if UpgradeHeight upgrade <=? height then Ok (true, upgrade) else Ok (false, mkUpgrade 0 0)
  end.

Definition ResetTally (st : Store) : Store :=
  fold_left (λ st kv, delete kv.1 st) (sorted_entries st) st.

(** ** The tally, declaratively *)

(** What an entry contributes to a version: the power of a bonded validator. *)
Definition weight (version : Z) (kv : bytes * bytes) : Z :=
  if decide (kv.1 ≠ UpgradeKey ∧ GetValidator kv.1 = ValidatorFound true ∧ VersionFromBytes kv.2 = version)
  then last_power kv.1 else 0.

(** The bonded voting power that signals for a version. *)
Definition signalled (st : Store) (version : Z) : Z := zsum (map (weight version) (signal_entries st)).

(** No staking lookup the tally makes fails. *)
Definition lookups_succeed (l : list (bytes * bytes)) : Prop :=
  ∀ kv, kv ∈ l → (∀ e, GetValidator kv.1 ≠ LookupError e) ∧
    (GetValidator kv.1 = ValidatorFound true → is_ok (GetLastValidatorPower kv.1) = true).

Context `{SL : !StakingLaws}.

Lemma weight_nonneg v kv : 0 <= weight v kv.
Proof. unfold weight. case_decide; [apply last_power_nonneg|lia]. Qed.

Lemma weights_nonneg v l : 0 <= zsum (map (weight v) l).
Proof. apply zsum_nonneg, Forall_map, Forall_forall. intros kv _. apply weight_nonneg. Qed.

Lemma weights_total v l total :
  NoDup l.*1 → GetLastTotalPower = Ok total → zsum (map (weight v) l) <= total.
Proof.
  intros Hn Ht. etrans; [|apply (last_power_total l.*1 total Hn Ht)].
  clear Hn. induction l as [|kv l IH]; [done|].
  change ((kv :: l).*1) with (kv.1 :: l.*1). cbn [map]. rewrite !zsum_cons.
  assert (weight v kv <= last_power kv.1); [|lia].
  unfold weight. case_decide; [lia|apply last_power_nonneg].
Qed.

(** Two versions together cannot exceed the total. *)
Lemma two_weights_total v1 v2 l total :
  v1 ≠ v2 → NoDup l.*1 → GetLastTotalPower = Ok total →
  zsum (map (weight v1) l) + zsum (map (weight v2) l) <= total.
Proof.
  intros Hne Hn Ht. etrans; [|apply (last_power_total l.*1 total Hn Ht)].
  clear Hn. induction l as [|kv l IH]; [done|].
  change ((kv :: l).*1) with (kv.1 :: l.*1). cbn [map]. rewrite !zsum_cons.
  assert (weight v1 kv + weight v2 kv <= last_power kv.1); [|lia].
  pose proof (last_power_nonneg kv.1). unfold weight. repeat case_decide; lia.
Qed.

(** The accumulated powers of the entries visited so far. *)
Definition tallied (m : gmap Z Z) (pre : list (bytes * bytes)) : Prop :=
  ∀ v, default 0 (m !! v) = zsum (map (weight v) pre).

Lemma weights_snoc v pre kv : zsum (map (weight v) (pre ++ [kv])) = zsum (map (weight v) pre) + weight v kv.
Proof. rewrite map_app, zsum_app. cbn [map]. rewrite zsum_cons. change (zsum []) with 0. lia. Qed.

Lemma weight_zero v kv :
  kv.1 = UpgradeKey ∨ GetValidator kv.1 ≠ ValidatorFound true → weight v kv = 0.
Proof. intros H. unfold weight. rewrite decide_False; [done|]. tauto. Qed.

Lemma tallied_skip m pre kv :
  tallied m pre → kv.1 = UpgradeKey ∨ GetValidator kv.1 ≠ ValidatorFound true → tallied m (pre ++ [kv]).
Proof. intros Ht Hz v. rewrite weights_snoc, (weight_zero v kv Hz), (Ht v). lia. Qed.

Lemma tallied_add m pre key value p :
  tallied m pre → key ≠ UpgradeKey → GetValidator key = ValidatorFound true → GetLastValidatorPower key = Ok p →
  tallied (<[VersionFromBytes value := default 0 (m !! VersionFromBytes value) + p]> m) (pre ++ [(key, value)]).
Proof.
  intros Ht Hk Hv Hp v. rewrite weights_snoc.
  assert (weight v (key, value) = if decide (VersionFromBytes value = v) then p else 0) as ->.
  { unfold weight, last_power. cbn [fst snd]. rewrite Hp. repeat case_decide; tauto. }
  rewrite <- (Ht v). destruct (decide (VersionFromBytes value = v)) as [<-|Hne].
  - by rewrite lookup_insert_eq.
  - rewrite lookup_insert_ne by done. lia.
Qed.

(** Only signals of validators that no longer exist are removed. *)
Definition pruned (st st' : Store) : Prop :=
  ∀ k, st' !! k = st !! k ∨ (st' !! k = None ∧ k ≠ UpgradeKey ∧ GetValidator k = NoValidatorFound).

Lemma pruned_delete st st' k :
  k ≠ UpgradeKey → GetValidator k = NoValidatorFound → pruned (DeleteValidatorVersion st k) st' → pruned st st'.
Proof.
  intros Hk Hv Hp k'. destruct (Hp k') as [Heq|?]; [|by right].
  unfold DeleteValidatorVersion in Heq. destruct (decide (k' = k)) as [->|Hne].
  - right. rewrite lookup_delete_eq in Heq. done.
  - left. by rewrite lookup_delete_ne in Heq.
Qed.

(** One reading of the loop for both outcomes. *)
Lemma tally_loop_spec threshold total l : ∀ pre m st,
  GetLastTotalPower = Ok total → total < two63 → 0 < threshold → NoDup (pre ++ l).*1 →
  lookups_succeed l → tallied m pre → (∀ v, default 0 (m !! v) < threshold) →
  ∃ st' q v, tally_loop threshold l m st = Ok (st', (q, v)) ∧ pruned st st' ∧
    if (q : bool) then threshold <= zsum (map (weight v) (pre ++ l))
    else ∀ v, zsum (map (weight v) (pre ++ l)) < threshold.
Proof.
  induction l as [|[key value] l IH]; intros pre m st Htot Hmax Hthr Hn Hlk Ht Hm; cbn [tally_loop].
  { exists st, false, 0. split_and!; [done|by left|]. intros v. rewrite app_nil_r, <- (Ht v). apply Hm. }
  rewrite (cons_middle (key, value) pre l) in *. rewrite (assoc_L (++)) in *.
  assert (lookups_succeed l) as Hlk' by (intros kv Hin; apply Hlk; by right).
  destruct (Hlk (key, value)) as [Hne Hpow]; [by left|]. cbn [fst] in Hne, Hpow.
  case_bool_decide as Hk.
  { apply IH; try done. apply tallied_skip; [done|by left]. }
  destruct (GetValidator key) as [[]| |e] eqn:Hv.
  - specialize (Hpow eq_refl). destruct (GetLastValidatorPower key) as [p| |] eqn:Hp; try done.
    cbn [mbind result_bind]. pose proof (tallied_add m pre key value p Ht Hk Hv Hp) as Ht'.
    set (v := VersionFromBytes value) in *.
    assert (default 0 (m !! v) + p = zsum (map (weight v) (pre ++ [(key, value)]))) as Hsum.
    { rewrite <- (Ht' v), lookup_insert_eq. done. }
    assert (zsum (map (weight v) (pre ++ [(key, value)])) <= total) as Hle.
    { apply weights_total; [|done]. rewrite fmap_app in Hn. by apply NoDup_app in Hn as (? & _ & _). }
    pose proof (weights_nonneg v (pre ++ [(key, value)])) as Hge.
    assert (match m !! v with Some old => wrap_i64 (old + p) | None => p end = default 0 (m !! v) + p) as ->.
    { destruct (m !! v); cbn in *; [|lia]. apply wrap_i64_id. unfold i64, two63 in *. lia. }
    destruct (Z.leb_spec threshold (default 0 (m !! v) + p)) as [Hq|Hq].
    + exists st, true, v. split_and!; [done|by left|]. rewrite map_app, zsum_app.
      pose proof (weights_nonneg v l). lia.
    + apply IH; try done. intros v'. destruct (decide (v = v')) as [<-|Hvne].
      * rewrite lookup_insert_eq. done.
      * rewrite lookup_insert_ne by done. apply Hm.
  - apply IH; try done. apply tallied_skip; [done|right; cbn; congruence].
  - destruct (IH (pre ++ [(key, value)]) m (DeleteValidatorVersion st key)) as (st' & q & v & Hrun & Hpr & Hres); try done.
    { apply tallied_skip; [done|right; cbn; congruence]. }
    exists st', q, v. split_and!; [done|by eapply pruned_delete|done].
  - by destruct (Hne e).
Qed.

(** ** The threshold is five sixths, rounded up *)

Context `{DL : !DecLaws} `{UCL : !UpgradeCodecLaws}.

Lemma signal_threshold : defaultSignalThreshold = Ok 833333333333333333.
Proof.
  unfold defaultSignalThreshold, dec_NewDec. destruct (dec_Quo_round (5 * precision) (6 * precision)) as (q & -> & _ & Hq);
    [done|done|]. f_equal. unfold precision in Hq. lia.
Qed.

Lemma threshold_exact hd total :
  GetLastTotalPower = Ok total → 0 <= total < 5 * 10 ^ 17 →
  ∃ t, GetVotingPowerThreshold hd = Ok t ∧ 6 * (t - 1) < 5 * total <= 6 * t.
Proof.
  intros Ht Hr. unfold GetVotingPowerThreshold, Threshold. rewrite Ht, signal_threshold. cbn [mbind result_bind].
  unfold dec_MulInt. set (d := 833333333333333333 * total).
  destruct (dec_Ceil_spec d) as (n & -> & Hn). eexists. split; [reflexivity|].
  assert (0 <= n) by (unfold d, precision in *; lia).
  rewrite dec_TruncateInt_spec by (unfold precision; lia).
  rewrite Z.div_mul by done. unfold d, precision in Hn. lia.
Qed.

Lemma getUpgrade_set st u : getUpgrade (setUpgrade st u) = Ok (Some u).
Proof. unfold getUpgrade, setUpgrade. rewrite lookup_insert_eq. by rewrite unmarshal_marshal. Qed.

Lemma NoDup_signal_entries st : NoDup (signal_entries st).*1.
Proof. apply NoDup_fst_filter, NoDup_fst_sorted_entries. Qed.

Lemma TallyVotingPower_spec st threshold total :
  GetLastTotalPower = Ok total → total < two63 → 0 < threshold → lookups_succeed (signal_entries st) →
  ∃ st' q v, TallyVotingPower st threshold = Ok (st', (q, v)) ∧ pruned st st' ∧
    if (q : bool) then threshold <= signalled st v else ∀ v, signalled st v < threshold.
Proof.
  intros Htot Hmax Hthr Hlk.
  apply (tally_loop_spec threshold total (signal_entries st) [] ∅ st); try done.
  apply NoDup_signal_entries.
Qed.

(** The state and staking data an upgrade is tried on. *)
Record try_ready (st : Store) (total : Z) : Prop := {
  tr_total : GetLastTotalPower = Ok total;
  tr_range : 0 < total < 5 * 10 ^ 17;
  tr_lookups : lookups_succeed (signal_entries st);
  tr_free : st !! UpgradeKey = None;
}.

Lemma TryUpgrade_spec hd st total : try_ready st total →
  ∃ st' (q : bool) v, pruned st st' ∧
    (if q then 5 * total <= 6 * signalled st v else ∀ v, 6 * signalled st v < 5 * total) ∧
    TryUpgrade hd st =
      if q then if v <=? hd_App hd then Err "ErrInvalidUpgradeVersion"
                else Ok (setUpgrade st' (mkUpgrade v (wrap_i64 (hd_Height hd + GetUpgradeHeightDelay (hd_ChainID hd)))))
      else Ok st'.
Proof.
  intros [Htot Hr Hlk Hfree]. destruct (threshold_exact hd total Htot) as (t & Ht & Hb); [lia|].
  destruct (TallyVotingPower_spec st t total Htot) as (st' & q & v & Hrun & Hpr & Hq); [unfold two63; lia|lia|done|].
  exists st', q, v. split; [done|]. split; [destruct q; [lia|intros v'; specialize (Hq v'); lia]|].
  unfold TryUpgrade, IsUpgradePending, getUpgrade. rewrite Hfree. cbn [mbind result_bind].
  rewrite bool_decide_false by (by intros [? ?]). cbn [negb ensure mbind result_bind]. rewrite Ht. cbn [mbind result_bind].
  unfold Int_Int64. rewrite (proj2 (Z.leb_le (- two63) t)), (proj2 (Z.ltb_lt t two63)) by (unfold two63; lia).
  cbn [andb mbind result_bind]. rewrite Hrun. cbn [mbind result_bind]. destruct q; [|done].
  by destruct (v <=? hd_App hd).
Qed.

Lemma signalled_unique st total v1 v2 :
  GetLastTotalPower = Ok total → 0 < total →
  5 * total <= 6 * signalled st v1 → 5 * total <= 6 * signalled st v2 → v1 = v2.
Proof.
  intros Htot Hpos H1 H2. destruct (decide (v1 = v2)) as [|Hne]; [done|].
  pose proof (two_weights_total v1 v2 _ total Hne (NoDup_signal_entries st) Htot). unfold signalled in *. lia.
Qed.

(** C40: TryUpgrade schedules an upgrade only to a newer version for which
    bonded validators with at least five sixths of the total voting power have
    signalled, at the height the chain's delay prescribes. *)
Theorem upgrade_needs_five_sixths hd st total st' u :
  try_ready st total → TryUpgrade hd st = Ok st' → getUpgrade st' = Ok (Some u) →
  5 * total <= 6 * signalled st (AppVersion u) ∧ hd_App hd < AppVersion u ∧
  UpgradeHeight u = wrap_i64 (hd_Height hd + GetUpgradeHeightDelay (hd_ChainID hd)).
Proof.
  intros Hr Hrun Hu. destruct (TryUpgrade_spec hd st total Hr) as (st1 & q & v & Hpr & Hq & Heq).
  rewrite Heq in Hrun. destruct q.
  - destruct (Z.leb_spec v (hd_App hd)); [done|]. apply Ok_inj in Hrun. subst st'.
    rewrite getUpgrade_set in Hu. apply Ok_inj in Hu. injection Hu as <-. done.
  - apply Ok_inj in Hrun. subst st1. unfold getUpgrade in Hu.
    destruct (Hpr UpgradeKey) as [Hk|(Hk & _)]; [rewrite Hk, (tr_free _ _ Hr) in Hu|rewrite Hk in Hu]; done.
Qed.

(** When bonded validators with at least five sixths of the voting power
    signal for a newer version, TryUpgrade schedules exactly that version. *)
Theorem five_sixths_schedule_upgrade hd st total v :
  try_ready st total → 5 * total <= 6 * signalled st v → hd_App hd < v →
  ∃ st', TryUpgrade hd st = Ok st' ∧
    getUpgrade st' = Ok (Some (mkUpgrade v (wrap_i64 (hd_Height hd + GetUpgradeHeightDelay (hd_ChainID hd))))).
Proof.
  intros Hr Hv Happ. destruct (TryUpgrade_spec hd st total Hr) as (st1 & q & v' & Hpr & Hq & Heq).
  destruct q; [|specialize (Hq v); lia].
  assert (v' = v) as ->. { eapply signalled_unique; [apply Hr|apply Hr|done|done]. }
  rewrite Heq, (proj2 (Z.leb_gt _ _) Happ). eexists. split; [reflexivity|]. apply getUpgrade_set.
Qed.

(** While an upgrade is pending no signal is recorded and no other upgrade
    is scheduled; the upgrade is executed from its height on and not before. *)
Theorem pending_upgrade_blocks hd st u msg height :
  getUpgrade st = Ok (Some u) →
  SignalVersion hd st msg = Err "ErrUpgradePending" ∧ TryUpgrade hd st = Err "ErrUpgradePending" ∧
  ShouldUpgrade height st =
    Ok (if UpgradeHeight u <=? height then (true, u) else (false, mkUpgrade 0 0)).
Proof.
  intros Hu. unfold SignalVersion, TryUpgrade, IsUpgradePending, ShouldUpgrade. rewrite Hu. cbn.
  split_and!; [done|done|]. by destruct (_ <=? _).
Qed.

Lemma fold_delete_lookup (l : list (bytes * bytes)) : ∀ (st : gmap bytes bytes) k,
  fold_left (λ st kv, delete kv.1 st) l st !! k = if decide (k ∈ l.*1) then None else st !! k.
Proof.
  induction l as [|[x y] l IH]; intros st k; cbn [fold_left].
  { rewrite decide_False; [done|]. apply not_elem_of_nil. }
  rewrite IH. change (((x, y) :: l).*1) with (x :: l.*1). cbn [fst].
  destruct (decide (k = x)) as [->|Hne].
  - rewrite lookup_delete_eq. rewrite (decide_True (P := x ∈ x :: l.*1)) by by left. by case_decide.
  - rewrite lookup_delete_ne by done. destruct (decide (k ∈ l.*1)) as [Hin|Hni].
    + rewrite decide_True; [done|]. by right.
    + rewrite decide_False; [done|]. by rewrite not_elem_of_cons.
Qed.

(** ResetTally leaves no signal and no pending upgrade. *)
Lemma reset_clears_store st : ResetTally st = ∅.
Proof.
  apply map_eq_iff. intros k. unfold ResetTally. rewrite fold_delete_lookup, lookup_empty.
  case_decide as Hk; [done|]. apply eq_None_not_Some. intros [v Hv]. apply Hk.
  apply list_elem_of_fmap. exists (k, v). split; [done|]. by apply elem_of_sorted_entries.
Qed.

(** A recorded signal is the validator's latest one, for a version not
    below the current one, and is what a tally reads back. *)
Theorem signal_version_recorded hd st msg st' :
  u64 (sv_Version msg) → SignalVersion hd st msg = Ok st' →
  ∃ addr, ValAddressFromBech32 (sv_ValidatorAddress msg) = Some addr ∧ hd_App hd <= sv_Version msg ∧
    (∃ bonded, GetValidator addr = ValidatorFound bonded) ∧
    (∃ value, st' !! addr = Some value ∧ VersionFromBytes value = sv_Version msg) ∧
    (∀ k, k ≠ addr → st' !! k = st !! k).
Proof.
  intros Hv H. unfold SignalVersion in H. inv_ok. exists r1. apply negb_true_iff, Z.ltb_ge in Hr2.
  destruct (GetValidator r1) as [b| |] eqn:Hval; try done. apply Ok_inj in H. subst st'.
  split_and!; [done|done|by exists b| |].
  - eexists. split; [apply lookup_insert_eq|]. by apply version_roundtrip.
  - intros k Hk. by apply lookup_insert_ne.
Qed.
End Keeper.

(** ** A concrete run *)

Module SignalExample.
Import DecModel.

Definition powers : list (bytes * Z) := [([1], 50); ([2], 35); ([3], 15)].

Definition power_of (a : bytes) : Z :=
  match list_find (λ e, e.1 = a) powers with Some (_, (_, p)) => p | None => 0 end.

#[local] Instance staking : StakingKeeper := {
  GetLastValidatorPower a := Ok (power_of a);
  GetLastTotalPower := Ok 100;
  GetValidator a := if bool_decide (power_of a = 0) then NoValidatorFound else ValidatorFound true;
  AllValidators := Ok [];
  ValAddressFromBech32 a := Some a;
}.

#[local] Instance codec : UpgradeCodec := {
  marshal u := [AppVersion u; UpgradeHeight u];
  unmarshal b := match b with [v; h] => Ok (mkUpgrade v h) | _ => Err "cannot decode" end;
}.

#[local] Instance codec_laws : UpgradeCodecLaws.
Proof. constructor. by intros []. Qed.

Lemma power_of_cases a :
  power_of a = (if decide (a = [1]) then 50 else 0) + (if decide (a = [2]) then 35 else 0)
               + (if decide (a = [3]) then 15 else 0).
Proof.
  unfold power_of, powers. cbn [list_find fst].
  repeat case_decide; subst; try done; cbn; repeat case_decide; subst; done.
Qed.

Lemma indicator_sum (x : bytes) (w : Z) addrs : 0 <= w → NoDup addrs →
  zsum (map (λ a, if decide (a = x) then w else 0) addrs) <= w.
Proof.
  intros Hw. induction 1 as [|a addrs Ha Hn IH]; [done|]. cbn [map]. rewrite zsum_cons.
  case_decide as E; [|lia]. subst a.
  assert (zsum (map (λ a, if decide (a = x) then w else 0) addrs) = 0) as ->; [|lia].
  clear Hn IH. induction addrs as [|b addrs IH]; [done|]. apply not_elem_of_cons in Ha as [Hne Ha].
  cbn [map]. rewrite zsum_cons, decide_False by congruence. rewrite IH by done. lia.
Qed.

#[local] Instance staking_laws : StakingLaws.
Proof.
  constructor; unfold last_power; cbn.
  - intros a. rewrite power_of_cases. repeat case_decide; lia.
  - intros addrs total Hn [= <-].
    assert (zsum (map power_of addrs)
      = zsum (map (λ a, if decide (a = [1]) then 50 else 0) addrs)
        + zsum (map (λ a, if decide (a = [2]) then 35 else 0) addrs)
        + zsum (map (λ a, if decide (a = [3]) then 15 else 0) addrs)) as Hs.
    { clear Hn. induction addrs as [|a addrs IH]; [done|]. cbn [map]. rewrite !zsum_cons, IH, power_of_cases. lia. }
    change (map (λ addr, power_of addr) addrs) with (map power_of addrs). rewrite Hs.
    pose proof (indicator_sum [1] 50 addrs ltac:(lia) Hn). pose proof (indicator_sum [2] 35 addrs ltac:(lia) Hn).
    pose proof (indicator_sum [3] 15 addrs ltac:(lia) Hn). lia.
Qed.

(** Validators 1 and 2 signal version 7, validator 3 version 8. *)
Definition st : gmap bytes bytes :=
  {[ [1] := VersionToBytes 7; [2] := VersionToBytes 7; [3] := VersionToBytes 8 ]}.
Definition hd : Header := mkHeader 6 1000 "test".
Definition st' : gmap bytes bytes := match TryUpgrade hd st with Ok s => s | _ => ∅ end.

Lemma ready : try_ready st 100.
Proof.
  constructor; [done|lia| |done]. intros kv _. cbn. split; [|done]. intros e. by case_bool_decide.
Qed.

Lemma try_run : TryUpgrade hd st = Ok st'.
Proof. vm_compute. reflexivity. Qed.

Lemma upgrade_needs_five_sixths_witness : 5 * 100 <= 6 * signalled st 7.
Proof.
  apply (upgrade_needs_five_sixths hd st 100 st' (mkUpgrade 7 1003) ready try_run). vm_compute. reflexivity.
Defined.

Lemma five_sixths_schedule_upgrade_witness :
  ∃ s, TryUpgrade hd st = Ok s ∧ getUpgrade s = Ok (Some (mkUpgrade 7 1003)).
Proof.
  apply (five_sixths_schedule_upgrade hd st 100 7 ready); [vm_compute; discriminate|vm_compute; reflexivity].
Defined.

Lemma pending_upgrade_blocks_witness : ShouldUpgrade 1002 st' = Ok (false, mkUpgrade 0 0).
Proof.
  apply (pending_upgrade_blocks hd st' (mkUpgrade 7 1003) (mkMsgSignalVersion [1] 9) 1002). vm_compute. reflexivity.
Defined.

Definition msg : MsgSignalVersion := mkMsgSignalVersion [3] 7.

Lemma signal_version_recorded_witness : hd_App hd <= 7.
Proof.
  destruct (signal_version_recorded hd st msg (SetValidatorVersion st [3] 7)) as (addr & _ & H & _);
    [vm_compute; split; [discriminate|reflexivity]|vm_compute; reflexivity|exact H].
Defined.
End SignalExample.
End Signal.
