(* ===== verification/Mint.v ===== *)
(** * x/mint: inflation

    [x/mint/types/minter.go], [x/mint/types/constants.go] and
    [x/mint/keeper/{abci,keeper,genesis}.go]. *)

From S2P Require Import Prelude Sdk SdkModel LegacyDec.
#[local] Open Scope Z_scope.

Module Mint.

(** ** Constants *)

Definition NanosecondsPerSecond : Z := 1000000000.
Definition SecondsPerMinute : Z := 60.
Definition MinutesPerHour : Z := 60.
Definition HoursPerDay : Z := 24.
(** [60 * 60 * 24 * 365.2425] is a whole number of seconds. *)
Definition SecondsPerYear : Z := SecondsPerMinute * MinutesPerHour * HoursPerDay * 3652425 / 10000.
Definition NanosecondsPerYear : Z := NanosecondsPerSecond * SecondsPerYear.

Definition InitialInflationRateAsDec : dec := dec_NewDecWithPrec 267 4.
Definition DisinflationRateAsDec : dec := dec_NewDecWithPrec 67 3.
Definition TargetInflationRateAsDec : dec := dec_NewDecWithPrec 15 3.

Definition ModuleName : string := "mint".

(** ** The minter *)

Record Minter := mkMinter {
  InflationRate : dec;
  AnnualProvisions : dec;
  PreviousBlockTime : option Z;
  Minter_BondDenom : string;
}.

Definition NewMinter (inflationRate annualProvisions : dec) (bondDenom : string) : Minter :=
  mkMinter inflationRate annualProvisions None bondDenom.

Definition DefaultMinter : Minter := NewMinter InitialInflationRateAsDec (dec_NewDec 0) "utia".

Definition Minter_Validate (m : Minter) : result unit :=
  _ ← ensure (negb (InflationRate m <? 0)) "inflation rate should be positive";
  _ ← ensure (negb (AnnualProvisions m <? 0)) "annual provisions should be positive";
  ensure (negb (String.eqb (Minter_BondDenom m) "")) "bond denom should not be empty string".

(** [t.Sub(u)] saturates at the range of an int64. *)
Definition time_Sub (t u : Z) : Z := Z.max (- two63) (Z.min (two63 - 1) (t - u)).

Definition yearsSinceGenesis (genesis current : Z) : Z :=
  if time_Before current genesis then 0 else Z.quot (time_Sub current genesis) NanosecondsPerYear.

(** [sdk.NewCoin] panics on a negative amount. *)
Definition NewCoin (denom : string) (amount : Z) : result Coin :=
  if amount <? 0 then Panic "negative coin amount" else Ok (mkCoin denom amount).

Section Minting.
Context `{DO : DecOps}.

Definition CalculateInflationRate (blockTime genesisTime : Z) : dec :=
  let years := yearsSinceGenesis genesisTime blockTime in
  let inflationRate :=
    dec_Mul InitialInflationRateAsDec
      (dec_Power (dec_Sub dec_OneDec DisinflationRateAsDec) (wrap_u64 years)) in
  if inflationRate <? TargetInflationRateAsDec then TargetInflationRateAsDec else inflationRate.

Definition CalculateBlockProvision (m : Minter) (current previous : Z) : result Coin :=
  _ ← ensure (negb (time_Before current previous)) "current time cannot be before previous time";
  let timeElapsed := time_Sub current previous in
  portionOfYear ← dec_Quo (dec_NewDec timeElapsed) (dec_NewDec NanosecondsPerYear);
  let blockProvision := dec_Mul (AnnualProvisions m) portionOfYear in
  NewCoin (Minter_BondDenom m) (dec_TruncateInt blockProvision).

(** ** The keeper *)

Class MintKeepers `{BK : BankKeeper} := {
  MintCoins : bank → string → Coin → result bank;
  StakingTokenSupply : bank → Z;
}.

(** Minting credits a module's account and nothing else. *)
Class MintLaws `{BK : BankKeeper} `{!MintKeepers} := {
  MintCoins_credit bk m c bk' : MintCoins bk m c = Ok bk' → ∀ a d,
    GetBalance bk' a d =
    GetBalance bk a d + (if bool_decide (a = GetModuleAddress m ∧ d = Denom c) then Amount c else 0);
}.

Context `{BK : BankKeeper} `{MK : !MintKeepers}.

Record State := mkState {
  s_minter : option Minter;
  s_genesisTime : option Z;
  s_bank : bank;
}.

Definition GetMinter (s : State) : result Minter :=
  match s_minter s with Some m => Ok m | None => Panic "stored minter should not have been nil" end.

Definition SetMinter (s : State) (m : Minter) : State := mkState (Some m) (s_genesisTime s) (s_bank s).

Definition GetGenesisTime (s : State) : result Z :=
  match s_genesisTime s with Some t => Ok t | None => Panic "stored genesis time should not have been nil" end.

Definition SetGenesisTime (s : State) (t : Z) : State := mkState (s_minter s) (Some t) (s_bank s).

(** The name of the fee collector's account is given to [NewKeeper]. *)
Context (feeCollectorName : string).

(** The keeper's aliases; [sdk.NewCoins] of a zero coin is empty. *)
Definition Keeper_MintCoins (bk : bank) (c : Coin) : result bank :=
  if Amount c =? 0 then Ok bk else MintCoins bk ModuleName c.

Definition SendCoinsToFeeCollector (bk : bank) (c : Coin) : result bank :=
  SendCoinsFromModuleToModule bk ModuleName feeCollectorName c.

Definition maybeUpdateMinter (ctx : Context) (s : State) : result State :=
  minter ← GetMinter s;
  genesisTime ← GetGenesisTime s;
  let newInflationRate := CalculateInflationRate (ctx_BlockTime ctx) genesisTime in
  if (newInflationRate =? InflationRate minter) && negb (AnnualProvisions minter =? 0) then Ok s
  else
    let totalSupply := StakingTokenSupply (s_bank s) in
    Ok (SetMinter s (mkMinter newInflationRate (dec_MulInt newInflationRate totalSupply)
                       (PreviousBlockTime minter) (Minter_BondDenom minter))).

(** The state and the coin minted, if any. *)
Definition mintBlockProvision (ctx : Context) (s : State) : result (State * option Coin) :=
  minter ← GetMinter s;
  match PreviousBlockTime minter with
  | None => Ok (s, None)
  | Some previous =>
      toMintCoin ← CalculateBlockProvision minter (ctx_BlockTime ctx) previous;
      bk ← Keeper_MintCoins (s_bank s) toMintCoin;
      bk ← SendCoinsToFeeCollector bk toMintCoin;
      Ok (mkState (s_minter s) (s_genesisTime s) bk, Some toMintCoin)
  end.

Definition setPreviousBlockTime (ctx : Context) (s : State) : result State :=
  minter ← GetMinter s;
  Ok (SetMinter s (mkMinter (InflationRate minter) (AnnualProvisions minter) (Some (ctx_BlockTime ctx))
                     (Minter_BondDenom minter))).

Definition BeginBlocker (ctx : Context) (s : State) : result State :=
  s ← maybeUpdateMinter ctx s;
  '(s, _) ← mintBlockProvision ctx s;
  setPreviousBlockTime ctx s.

(** ** Genesis *)

Definition ValidateGenesis (bondDenom : string) : result unit :=
  ensure (negb (String.eqb bondDenom "")) "bond denom cannot be empty".

Definition InitGenesis (ctx : Context) (s : State) (bondDenom : string) : State :=
  let minter := mkMinter (InflationRate DefaultMinter) (AnnualProvisions DefaultMinter)
                  (PreviousBlockTime DefaultMinter) bondDenom in
  SetGenesisTime (SetMinter s minter) (ctx_BlockTime ctx).

Definition ExportGenesis (s : State) : result string := m ← GetMinter s; Ok (Minter_BondDenom m).

(** ** Properties *)

Context `{DL : !DecLaws} `{BL : !BankLaws} `{ML : !MintLaws}.

Lemma year_positive : 0 < NanosecondsPerYear.
Proof. reflexivity. Qed.

Lemma years_nonneg g c : 0 <= yearsSinceGenesis g c < two64.
Proof.
  unfold yearsSinceGenesis, time_Before. destruct (Z.ltb_spec c g); [done|].
  unfold time_Sub. rewrite Z.quot_div_nonneg by (unfold two63; done || lia).
  split; [apply Z.div_pos; [unfold two63; lia|done]|].
  apply Z.div_lt_upper_bound; [done|]. change NanosecondsPerYear with 31556952000000000. unfold two63, two64. lia.
Qed.

(** A product with a factor of at most one does not exceed the other factor,
    and with the factor one is exact. *)
Lemma dec_Mul_unit a p : 0 <= a → 0 <= p <= dec_OneDec → 0 <= dec_Mul a p <= a ∧ dec_Mul a dec_OneDec = a.
Proof.
  intros Ha Hp. unfold dec_OneDec in *. destruct (dec_Mul_round a p) as [H0 H1]; [done|lia|].
  destruct (dec_Mul_round a precision) as [_ H2]; [done|done|].
  assert (precision = 10 ^ 18) as Hpr by done. split; [|nia]. split; [done|]. nia.
Qed.

(** The inflation rate always lies between the target and the initial
    rate, and is the initial rate throughout the first year. *)
Theorem inflation_rate_bounds blockTime genesisTime :
  TargetInflationRateAsDec <= CalculateInflationRate blockTime genesisTime <= InitialInflationRateAsDec ∧
  (blockTime - genesisTime < NanosecondsPerYear →
    CalculateInflationRate blockTime genesisTime = InitialInflationRateAsDec).
Proof.
  unfold CalculateInflationRate. pose proof (years_nonneg genesisTime blockTime) as Hy.
  rewrite wrap_u64_id by done. set (base := dec_Sub _ _).
  assert (0 <= base <= dec_OneDec) as Hb by (vm_compute; split; discriminate).
  pose proof (dec_Power_unit base _ Hb (proj1 Hy)) as Hp.
  destruct (dec_Mul_unit InitialInflationRateAsDec _ ltac:(vm_compute; discriminate) Hp) as [[_ Hle] Hone].
  assert (TargetInflationRateAsDec < InitialInflationRateAsDec) as Hti by reflexivity.
  split.
  - destruct (Z.ltb_spec (dec_Mul InitialInflationRateAsDec (dec_Power base (yearsSinceGenesis genesisTime blockTime)))
      TargetInflationRateAsDec); lia.
  - intros Hfirst. assert (yearsSinceGenesis genesisTime blockTime = 0) as ->.
    { unfold yearsSinceGenesis, time_Before. destruct (Z.ltb_spec blockTime genesisTime); [done|].
      apply Z.quot_small. unfold time_Sub. change NanosecondsPerYear with 31556952000000000 in *.
      unfold two63. lia. }
    rewrite dec_Power_zero, Hone. rewrite (proj2 (Z.ltb_ge _ _)); [done|lia].
Qed.

(** The provision of a block is the annual provisions' share of the time
    elapsed since the previous block, up to rounding: at most one unit more and
    at most two units less. *)
Theorem block_provision_bounds m current previous c :
  0 <= AnnualProvisions m < precision * precision → 0 <= current - previous < two63 →
  CalculateBlockProvision m current previous = Ok c →
  0 <= Amount c ∧ Denom c = Minter_BondDenom m ∧
  precision * NanosecondsPerYear * (Amount c - 1) <= AnnualProvisions m * (current - previous)
    <= precision * NanosecondsPerYear * (Amount c + 2).
Proof.
  intros [HA HA'] He H. unfold CalculateBlockProvision in H. inv_ok.
  assert (time_Sub current previous = current - previous) as Hsub by (unfold time_Sub, two63 in *; lia).
  rewrite Hsub in Hr0. set (e := current - previous) in *.
  destruct (dec_Quo_round (dec_NewDec e) (dec_NewDec NanosecondsPerYear)) as (q & Hq & Hq0 & Hq1).
  { unfold dec_NewDec, precision. lia. }
  { reflexivity. }
  rewrite Hq in Hr0. apply Ok_inj in Hr0. subst r0.
  set (A := AnnualProvisions m) in *. destruct (dec_Mul_round A q HA Hq0) as [Hm0 Hm1].
  set (M := dec_Mul A q) in *. unfold NewCoin in H. rewrite dec_TruncateInt_spec in H by done.
  pose proof (Z.div_mod M precision ltac:(done)) as Hdm. pose proof (Z.mod_pos_bound M precision ltac:(done)) as Hmb.
  assert (0 <= M / precision) as Hd0 by (apply Z.div_pos; done).
  rewrite (proj2 (Z.ltb_ge _ _) Hd0) in H. apply Ok_inj in H. subst c. cbn [Amount Denom].
  set (n := M / precision) in *. split_and!; [done|done| |];
  unfold dec_NewDec in Hq1; set (Y := NanosecondsPerYear) in *; assert (0 < Y) as HY by done;
    set (P := precision) in *; assert (0 < P) as HP by done.
  - assert (2 * (q * Y) <= 2 * (e * P) + Y) by nia.
    assert (2 * (A * q) + P >= 2 * (M * P)) by lia.
    assert (P * n <= M) by lia.
    assert (2 * P * (P * Y * n) <= A * (2 * (e * P) + Y) + P * Y) by nia. nia.
  - assert (2 * (e * P) <= 2 * (q * Y) + Y) by nia.
    assert (2 * (A * q) <= 2 * (M * P) + P) by lia.
    assert (M <= P * n + P - 1) by lia.
    assert (A * (2 * (e * P)) <= A * (2 * (q * Y) + Y)) by nia.
    assert (Y * (2 * (A * q)) <= Y * (2 * (M * P) + P)) by nia.
    assert (A * Y <= P * P * Y) by nia.
    assert (Y * P * M <= Y * P * (P * n + P - 1)) by nia. nia.
Qed.

Lemma maybeUpdateMinter_spec ctx s m g :
  s_minter s = Some m → s_genesisTime s = Some g →
  let rate := CalculateInflationRate (ctx_BlockTime ctx) g in
  maybeUpdateMinter ctx s =
    Ok (SetMinter s (mkMinter rate
      (if (rate =? InflationRate m) && negb (AnnualProvisions m =? 0) then AnnualProvisions m
       else dec_MulInt rate (StakingTokenSupply (s_bank s)))
      (PreviousBlockTime m) (Minter_BondDenom m))).
Proof.
  intros Hm Hg rate. unfold maybeUpdateMinter, GetMinter, GetGenesisTime. rewrite Hm, Hg. cbn -[CalculateInflationRate].
  fold rate. destruct (_ && _) eqn:E; [|done]. apply andb_prop in E as [Hr _]. apply Z.eqb_eq in Hr.
  rewrite Hr. f_equal. destruct s as [sm sg sb], m. cbn in *. by subst.
Qed.

Lemma mint_and_send bk c bk1 bk2 :
  0 <= Amount c → Keeper_MintCoins bk c = Ok bk1 → SendCoinsToFeeCollector bk1 c = Ok bk2 → ∀ a d,
  GetBalance bk2 a d = GetBalance bk a d +
    (if bool_decide (a = GetModuleAddress feeCollectorName ∧ d = Denom c) then Amount c else 0).
Proof.
  intros Hc H1 H2 a d. apply send_module_to_module in H2. rewrite H2. unfold Keeper_MintCoins in H1.
  destruct (Z.eqb_spec (Amount c) 0) as [Hz|_].
  - apply Ok_inj in H1. subst bk1. rewrite Hz. repeat case_bool_decide; lia.
  - rewrite (MintCoins_credit _ _ _ _ H1). lia.
Qed.

Lemma block_provision_nonneg m current previous c :
  CalculateBlockProvision m current previous = Ok c → 0 <= Amount c ∧ Denom c = Minter_BondDenom m.
Proof.
  unfold CalculateBlockProvision, NewCoin. intros H. inv_ok.
  case_match eqn:Hlt; [done|]. apply Ok_inj in H. subst c. apply Z.ltb_ge in Hlt. done.
Qed.

(** A successful [BeginBlocker] leaves the minter with the inflation rate
    of the block's year and the block's time, recomputes the annual provisions
    from the supply exactly when the rate changed or they were zero, and credits
    the fee collector, and nobody else, with the provision of the time since the
    previous block (nothing in the first block). *)
Theorem begin_blocker_mints_provision ctx s s' m g :
  s_minter s = Some m → s_genesisTime s = Some g → BeginBlocker ctx s = Ok s' →
  let rate := CalculateInflationRate (ctx_BlockTime ctx) g in
  let updated := mkMinter rate
    (if (rate =? InflationRate m) && negb (AnnualProvisions m =? 0) then AnnualProvisions m
     else dec_MulInt rate (StakingTokenSupply (s_bank s)))
    (Some (ctx_BlockTime ctx)) (Minter_BondDenom m) in
  s_minter s' = Some updated ∧ s_genesisTime s' = Some g ∧
  match PreviousBlockTime m with
  | None => s_bank s' = s_bank s
  | Some previous => ∃ c, CalculateBlockProvision updated (ctx_BlockTime ctx) previous = Ok c ∧ 0 <= Amount c ∧
      ∀ a d, GetBalance (s_bank s') a d = GetBalance (s_bank s) a d +
        (if bool_decide (a = GetModuleAddress feeCollectorName ∧ d = Minter_BondDenom m) then Amount c else 0)
  end.
Proof.
  intros Hm Hg H rate updated. unfold BeginBlocker in H. rewrite (maybeUpdateMinter_spec ctx s m g Hm Hg) in H.
  fold rate in H. change (mbind ?f (Ok ?a)) with (f a) in H. cbn beta in H.
  set (ap := if _ && _ then _ else _) in *.
  unfold mintBlockProvision, GetMinter, SetMinter in H. cbn in H.
  destruct (PreviousBlockTime m) as [previous|] eqn:Hp; inv_ok; subst; cbn in H; apply Ok_inj in H; subst s';
    cbn; [|done].
  split_and!; [done|done|].
  destruct (block_provision_nonneg _ _ _ _ Hr0) as [Hc Hd]. eexists. split_and!; [exact Hr0|done|].
  intros a d. rewrite (mint_and_send _ _ _ _ Hc Hr1 Hr2). by rewrite Hd.
Qed.
End Minting.

(** ** A concrete run *)

Module MintExample.
Import SdkModel DecModel.

#[export] Instance mint_keepers : MintKeepers := {
  MintCoins bk m c :=
    Ok (<[(string_bytes m, Denom c) := get_balance bk (string_bytes m) (Denom c) + Amount c]> bk);
  StakingTokenSupply bk := msum id bk;
}.

#[export] Instance mint_laws : MintLaws.
Proof.
  constructor. intros bk m c bk' H%Ok_inj a d. subst bk'. cbn [GetBalance GetModuleAddress bank_keeper].
  rewrite get_balance_insert. repeat case_bool_decide; destruct_and?; subst; try tauto; lia.
Qed.

Definition genesis : Z := 63000000000 * Second.
Definition at_time (t : Z) : Context := mkContext "celestia" t 5.
Definition state0 : State :=
  mkState (Some (mkMinter InitialInflationRateAsDec (dec_NewDec 26700000) (Some genesis) "utia"))
    (Some genesis) {[ (string_bytes "holder", "utia"%string) := 1000000000 ]}.
Definition now : Z := genesis + 24 * Hour.

Lemma inflation_rate_bounds_witness :
  TargetInflationRateAsDec <= CalculateInflationRate now genesis <= InitialInflationRateAsDec ∧
  CalculateInflationRate now genesis = InitialInflationRateAsDec.
Proof.
  destruct (inflation_rate_bounds now genesis) as [H1 H2]. split; [exact H1|]. apply H2. reflexivity.
Defined.

Definition provision : Coin := mkCoin "utia" 73102.

Lemma block_provision_bounds_witness :
  precision * NanosecondsPerYear * 73101 <= dec_NewDec 26700000 * (24 * Hour)
    <= precision * NanosecondsPerYear * 73104.
Proof.
  destruct (block_provision_bounds (mkMinter InitialInflationRateAsDec (dec_NewDec 26700000) None "utia")
    now genesis provision) as (_ & _ & H).
  - vm_compute. split; [discriminate|reflexivity].
  - vm_compute. split; [discriminate|reflexivity].
  - reflexivity.
  - exact H.
Defined.

Definition state1 : State := match BeginBlocker "fee_collector" (at_time now) state0 with Ok s => s | _ => state0 end.

Lemma state1_run : BeginBlocker "fee_collector" (at_time now) state0 = Ok state1.
Proof.
  unfold state1. destruct (BeginBlocker _ _ state0) eqn:E; [done| |];
    assert (is_ok (BeginBlocker "fee_collector" (at_time now) state0) = true) as Hok
      by (vm_cast_no_check (eq_refl true)); rewrite E in Hok; discriminate Hok.
Qed.

Lemma begin_blocker_mints_provision_witness :
  GetBalance (s_bank state1) (string_bytes "fee_collector") "utia" = 73102 ∧
  GetBalance (s_bank state1) (string_bytes "holder") "utia" = 1000000000.
Proof.
  destruct (begin_blocker_mints_provision "fee_collector" (at_time now) state0 state1
    (mkMinter InitialInflationRateAsDec (dec_NewDec 26700000) (Some genesis) "utia") genesis
    eq_refl eq_refl state1_run) as (_ & _ & c & Hc & _ & Hb).
  split; rewrite Hb; revert Hc; vm_compute; intros [= <-]; reflexivity.
Defined.
End MintExample.
End Mint.
