(* ===== verification/GoSquare.v ===== *)
(** * Interfaces of go-square and rsmt2d

    The packages that lay out blobs in a data square and erasure-code it are
    third-party code: the definitions that call them take the operations below
    as parameters, and the theorems take the laws stated beside them. *)

From S2P Require Import Prelude Sdk.
#[local] Open Scope Z_scope.

(** ** Shares and blobs ([share] and [inclusion])

    A namespace is represented by its bytes, of which the first is its
    version. *)

Definition ShareVersionZero : Z := 0.
Definition ShareVersionOne : Z := 1.
Definition ShareSize : Z := 512.

Class SharePackage := {
  Blob : Type;
  (** The accessors of [share.Blob]. *)
  blob_Namespace : Blob → bytes;
  blob_Data : Blob → bytes;
  blob_ShareVersion : Blob → Z;
  blob_Signer : Blob → bytes;
  blob_IsEmpty : Blob → bool;
  blob_Hash : Blob → bytes;
  (** Constructors: namespace and data; with a signer; the system blob of a
      payment promise from namespace, blob version, commitment and signer. *)
  share_NewV0Blob : bytes → bytes → result Blob;
  share_NewV1Blob : bytes → bytes → bytes → result Blob;
  share_NewV2Blob : bytes → Z → bytes → bytes → result Blob;
  Namespace_IsReserved : bytes → bool;
  SupportedBlobNamespaceVersions : list Z;
  (** Shares occupied by a blob of some size (with a signer in its first share
      or not) and by a transaction of some size. *)
  SparseSharesNeeded : Z → bool → Z;
  CompactSharesNeeded : Z → Z;
  (** Share commitments, under a subtree root threshold, hashed with
      [merkle.HashFromByteSlices]; the last argument of the parallel form is
      the number of workers. *)
  CreateCommitments : list Blob → Z → result (list bytes);
  CreateParallelCommitments : list Blob → Z → Z → result (list bytes);
  (** [square.IsPowerOfTwo]. *)
  IsPowerOfTwo : Z → bool;
}.

Definition Namespace_Version (ns : bytes) : Z := hd 0 ns.

(** The size of a SHA-256 digest. *)
Definition HashSize : nat := 32.

Class ShareLaws `{SharePackage} := {
  blob_IsEmpty_spec b : blob_IsEmpty b = (length (blob_Data b) =? 0)%nat;
  (** A share holds at least one byte of the data. *)
  SparseSharesNeeded_bounds size c : u32 size → 0 <= SparseSharesNeeded size c <= size;
  SparseSharesNeeded_mono size size' c : 0 <= size <= size' →
    SparseSharesNeeded size c <= SparseSharesNeeded size' c;
  CompactSharesNeeded_bounds size : u32 size → 0 <= CompactSharesNeeded size <= size;
  (** One commitment of the hash's size per blob, no panic for a positive
      threshold (the width of a subtree is a quotient by it), and the parallel
      form agrees with the sequential one. *)
  CreateCommitments_length bs t cs : CreateCommitments bs t = Ok cs → length cs = length bs;
  CreateCommitments_total bs t p : 0 < t → CreateCommitments bs t ≠ Panic p;
  CreateParallelCommitments_eq bs t n : CreateParallelCommitments bs t n = CreateCommitments bs t;
  IsPowerOfTwo_spec v : IsPowerOfTwo v = true ↔ ∃ k, 0 <= k ∧ v = 2 ^ k;
}.

(** ** Transactions with blobs ([tx]) *)

Section Types.
Context `{SharePackage}.

Record BlobTx := mkBlobTx { btx_Tx : bytes; btx_Blobs : list Blob }.
Record FibreTx := mkFibreTx { ftx_Tx : bytes; ftx_SystemBlob : Blob }.

(** [square.ClassifiedTx]: a raw transaction or a pay-for-fibre transaction
    with its system blob. *)
Inductive ClassifiedTx :=
| NewClassifiedTx (raw : bytes)
| ClassifiedFibreTx (tx : FibreTx).
End Types.

Class TxPackage `{SharePackage} := {
  (** [UnmarshalBlobTx] tells whether the bytes are a blob transaction at all
      ([None] when not) and otherwise decodes it or fails. *)
  UnmarshalBlobTx : bytes → option (result BlobTx);
  MarshalBlobTx : bytes → list Blob → result bytes;
}.

Class TxLaws `{TxPackage} := {
  UnmarshalBlobTx_no_panic raw r : UnmarshalBlobTx raw = Some r → ∀ p, r ≠ Panic p;
  MarshalBlobTx_no_panic t bs p : MarshalBlobTx t bs ≠ Panic p;
  (** Decoding inverts encoding. *)
  Unmarshal_MarshalBlobTx t bs raw : MarshalBlobTx t bs = Ok raw →
    UnmarshalBlobTx raw = Some (Ok (mkBlobTx t bs));
}.

(** ** The square ([square]) *)

Class SquarePackage `{TxPackage} := {
  Square : Type;
  Square_ToBytes : Square → list bytes;
  (** [Square.Size], the width of the square. *)
  Square_Size : Square → result Z;
  Builder : Type;
  (** Max square size and subtree root threshold. *)
  NewBuilder : Z → Z → result Builder;
  (** Appending reports whether the transaction fits; a transaction that does
      not fit or fails leaves the builder as it was. *)
  AppendTx : Builder → bytes → option Builder;
  AppendBlobTx : Builder → BlobTx → result (option Builder);
  AppendFibreTx : Builder → FibreTx → result (option Builder);
  RevertLastTx : Builder → result Builder;
  RevertLastBlobTx : Builder → result Builder;
  RevertLastPayForFibreTx : Builder → result Builder;
  Export : Builder → result Square;
  NewClassifiedFibreTx : FibreTx → result ClassifiedTx;
  Construct : list ClassifiedTx → Z → Z → result Square;
}.

Section Construct.
Context `{SquarePackage}.

(** Append classified transactions in order; [None] when one does not fit. *)
Definition append_classified (b : Builder) (c : ClassifiedTx) : result (option Builder) :=
  match c with
  | NewClassifiedTx raw =>
      match UnmarshalBlobTx raw with
      | Some (Ok bTx) => AppendBlobTx b bTx
      | Some (Err e) => Err e
      | Some (Panic p) => Panic p
      | None => Ok (AppendTx b raw)
      end
  | ClassifiedFibreTx f => AppendFibreTx b f
  end.

Inductive appends : Builder → list ClassifiedTx → Builder → Prop :=
| appends_nil b : appends b [] b
| appends_cons b b' b'' c cs :
    append_classified b c = Ok (Some b') → appends b' cs b'' → appends b (c :: cs) b''.

Lemma appends_app b1 b2 b3 cs ds : appends b1 cs b2 → appends b2 ds b3 → appends b1 (cs ++ ds) b3.
Proof. induction 1; cbn; [done|]. intros. econstructor; eauto. Qed.

Lemma appends_snoc b1 b2 b3 cs c :
  appends b1 cs b2 → append_classified b2 c = Ok (Some b3) → appends b1 (cs ++ [c]) b3.
Proof. intros Hcs Hc. eapply appends_app; [exact Hcs|]. econstructor; [exact Hc|constructor]. Qed.
End Construct.

(** The three kinds of transaction in the order a square holds them. *)
Definition tx_rank `{TxPackage} (c : ClassifiedTx) : nat :=
  match c with
  | NewClassifiedTx raw => match UnmarshalBlobTx raw with Some _ => 1 | None => 0 end
  | ClassifiedFibreTx _ => 2
  end.

Class SquareLaws `{SquarePackage} := {
  (** Reverting undoes the append before it. *)
  RevertLastTx_append b t b' : AppendTx b t = Some b' → RevertLastTx b' = Ok b;
  RevertLastBlobTx_append b t b' : AppendBlobTx b t = Ok (Some b') → RevertLastBlobTx b' = Ok b;
  RevertLastPayForFibreTx_append b t b' :
    AppendFibreTx b t = Ok (Some b') → RevertLastPayForFibreTx b' = Ok b;
  NewClassifiedFibreTx_spec f c : NewClassifiedFibreTx f = Ok c → c = ClassifiedFibreTx f;
  NewClassifiedFibreTx_total b f b' : AppendFibreTx b f = Ok (Some b') →
    NewClassifiedFibreTx f = Ok (ClassifiedFibreTx f);
  (** [Construct] of transactions in order of their kind is the export of a
      builder they were appended to. *)
  Construct_appends cs max thr b0 b : NewBuilder max thr = Ok b0 → appends b0 cs b →
    StronglySorted (λ c d, tx_rank c <= tx_rank d)%nat cs → Construct cs max thr = Export b;
}.

(** ** Erasure coding ([rsmt2d]) and Merkle trees *)

Class ErasureCoding := {
  EDS : Type;
  (** [rsmt2d.ComputeExtendedDataSquareWithBuffer] and
      [rsmt2d.ComputeExtendedDataSquare] with the default codec and a tree
      constructor for some square size. *)
  ComputeExtendedDataSquareWithBuffer : list bytes → result EDS;
  ComputeExtendedDataSquare : list bytes → Z → result EDS;
  eds_Width : EDS → Z;
  eds_RowRoots : EDS → result (list bytes);
  eds_ColRoots : EDS → result (list bytes);
  (** [merkle.HashFromByteSlices] of CometBFT. *)
  HashFromByteSlices : list bytes → bytes;
}.

(** The extended square has twice the width of the square, and as many columns
    as rows. *)
Class CodingLaws `{SquarePackage} `{ErasureCoding} := {
  ExtendedWidth sq n eds : Square_Size sq = Ok n →
    ComputeExtendedDataSquareWithBuffer (Square_ToBytes sq) = Ok eds →
    eds_Width eds = 2 * n ∧ 0 <= n < two32;
  ExtendedRoots eds rows cols : eds_RowRoots eds = Ok rows → eds_ColRoots eds = Ok cols →
    length cols = length rows;
}.
