(* ===== verification/PayForBlob.v ===== *)
(** * x/blob: paying for blobs

    [x/blob/types/{payforblob,params,genesis}.go] and [x/blob/keeper]: the
    message that pays for blobs, its stateless checks and gas, the module's
    parameters with their store, and the message handlers. *)

From S2P Require Import Prelude Sdk GoSquare FibreParams.
#[local] Open Scope Z_scope.

(** The gas meter of a context ([storetypes.GasMeter]). [ConsumeGas] panics when
    the limit is exceeded. *)
Class GasMeterOps := {
  GasMeter : Type;
  GasRemaining : GasMeter → Z;
  ConsumeGas : GasMeter → Z → result GasMeter;
}.

Class GasMeterLaws `{GasMeterOps} := {
  ConsumeGas_total m g : 0 <= g <= GasRemaining m →
    ∃ m', ConsumeGas m g = Ok m' ∧ GasRemaining m - g <= GasRemaining m' <= GasRemaining m;
  ConsumeGas_out m g : GasRemaining m < g < two64 → ∃ p, ConsumeGas m g = Panic p;
}.

Module Blob.

(** ** Constants *)

Definition PFBGasFixedCost : Z := 75000.
Definition BytesPerBlobInfo : Z := 70.
Definition GasPerBlobByte : Z := 8.
Definition TxSizeCostPerByte : Z := 10.
Definition SubtreeRootThreshold : Z := 64.
Definition SquareSizeUpperBound : Z := 512.
Definition DefaultGovMaxSquareSize : Z := 256.
Definition HashLength : nat := HashSize.

(** ** Data *)

Record MsgPayForBlobs := mkMsgPayForBlobs {
  pfb_Signer : bytes;
  pfb_Namespaces : list bytes;
  pfb_BlobSizes : list Z;
  pfb_ShareCommitments : list bytes;
  pfb_ShareVersions : list Z;
}.

(** The integer fields of the wire format. *)
Definition pfb_wire_ok (msg : MsgPayForBlobs) : Prop :=
  Forall u32 (pfb_BlobSizes msg) ∧ Forall u32 (pfb_ShareVersions msg).

Record Params := mkParams { p_GasPerBlobByte : Z; p_GovMaxSquareSize : Z }.

#[global] Instance Params_eq_dec : EqDecision Params.
Proof. solve_decision. Defined.

Record MsgUpdateBlobParams := mkMsgUpdateBlobParams { ubp_Authority : bytes; ubp_Params : Params }.

Inductive Event :=
| EventPayForBlobs (signer : bytes) (blobSizes : list Z) (namespaces : list bytes)
| EventUpdateBlobParams (signer : bytes) (params : Params).

Section Stateless.
Context `{SP : SharePackage} `{CR : Crypto} `{AC : AddressCodec}.

(** ** Namespaces and blobs *)

Definition ValidateBlobNamespace (ns : bytes) : result unit :=
  _ ← ensure (negb (Namespace_IsReserved ns)) "ErrReservedNamespace";
  ensure (bool_decide (Namespace_Version ns ∈ SupportedBlobNamespaceVersions)) "ErrInvalidNamespaceVersion".

Definition NewV0Blob (ns data : bytes) : result Blob :=
  _ ← ValidateBlobNamespace ns;
  share_NewV0Blob ns data.

Definition NewV1Blob (ns data signer : bytes) : result Blob :=
  _ ← ValidateBlobNamespace ns;
  share_NewV1Blob ns data signer.

Definition ValidateBlobs (blobs : list Blob) : result unit :=
  _ ← ensure (negb (length blobs =? 0)%nat) "ErrNoBlobs";
  each (λ blob,
    _ ← ensure (negb (blob_IsEmpty blob)) "ErrZeroBlobSize";
    ValidateBlobNamespace (blob_Namespace blob)) blobs.

(** A nil signer is [None]. *)
Definition ValidateBlobShareVersion (signer : option bytes) (blobs : list Blob) : result unit :=
  each (λ blob,
    if blob_ShareVersion blob =? ShareVersionOne then
      match signer with
      | None => Err "ErrInvalidBlobSigner"
      | Some s => ensure (bool_decide (blob_Signer blob = s)) "ErrInvalidBlobSigner"
      end
    else Ok tt) blobs.

(** [uint32(len(blob.Data()))]. *)
Definition blob_size (b : Blob) : Z := wrap_u32 (Z.of_nat (length (blob_Data b))).

Definition ExtractBlobComponents (pblobs : list Blob) : list bytes * list Z * list Z :=
  (map blob_Namespace pblobs, map blob_size pblobs, map (λ b, wrap_u32 (blob_ShareVersion b)) pblobs).

Definition namespacesToBytes (namespaces : list bytes) : list bytes := namespaces.

(** ** The message *)

Definition ValidateBasic (msg : MsgPayForBlobs) : result unit :=
  let n := length (pfb_Namespaces msg) in
  _ ← ensure (negb (n =? 0)%nat) "ErrNoNamespaces";
  _ ← ensure (negb (length (pfb_ShareVersions msg) =? 0)%nat) "ErrNoShareVersions";
  _ ← ensure (negb (length (pfb_BlobSizes msg) =? 0)%nat) "ErrNoBlobSizes";
  _ ← ensure (negb (length (pfb_ShareCommitments msg) =? 0)%nat) "ErrNoShareCommitments";
  _ ← ensure ((n =? length (pfb_ShareVersions msg))%nat && (n =? length (pfb_BlobSizes msg))%nat
              && (n =? length (pfb_ShareCommitments msg))%nat) "ErrMismatchedNumberOfPFBComponent";
  _ ← each (λ namespace,
        match NewNamespaceFromBytes namespace with
        | Ok _ => ValidateBlobNamespace namespace
        | Err _ => Err "ErrInvalidNamespace"
        | Panic p => Panic p
        end) (pfb_Namespaces msg);
  _ ← each (λ v, ensure ((v =? ShareVersionZero) || (v =? ShareVersionOne)) "ErrUnsupportedShareVersion")
        (pfb_ShareVersions msg);
  _ ← of_option "invalid signer" (AccAddressFromBech32 (pfb_Signer msg));
  each (λ commitment, ensure (length commitment =? HashLength)%nat "ErrInvalidShareCommitment")
    (pfb_ShareCommitments msg).

Definition NewMsgPayForBlobs (signerAddress : bytes) (blobs : list Blob) : result MsgPayForBlobs :=
  _ ← ValidateBlobs blobs;
  signerBytes ← of_option "invalid signer" (AccAddressFromBech32 signerAddress);
  _ ← ValidateBlobShareVersion (Some signerBytes) blobs;
  commitments ← CreateCommitments blobs SubtreeRootThreshold;
  let '(namespaces, sizes, shareVersions) := ExtractBlobComponents blobs in
  let msg := {| pfb_Signer := signerAddress;
                pfb_Namespaces := namespacesToBytes namespaces;
                pfb_ShareCommitments := commitments;
                pfb_BlobSizes := sizes;
                pfb_ShareVersions := shareVersions |} in
  _ ← ValidateBasic msg;
  Ok msg.

(** ** Gas *)

(** The loop over the blob sizes, which indexes the share versions. *)
Fixpoint total_shares (i : nat) (sizes shareVersions : list Z) (totalSharesUsed : Z) : result Z :=
  match sizes with
  | [] => Ok totalSharesUsed
  | size :: sizes' =>
      shareVersion ← index shareVersions i;
      let containsSigner := shareVersion =? ShareVersionOne in
      total_shares (S i) sizes' shareVersions
        (wrap_u64 (totalSharesUsed + wrap_u64 (SparseSharesNeeded size containsSigner)))
  end.

Definition GasToConsume (msg : MsgPayForBlobs) (gasPerByte : Z) : result Z :=
  totalSharesUsed ← total_shares 0 (pfb_BlobSizes msg) (pfb_ShareVersions msg) 0;
  Ok (wrap_u64 (wrap_u64 (totalSharesUsed * ShareSize) * gasPerByte)).

Definition Gas (msg : MsgPayForBlobs) (gasPerByte : Z) : result Z := GasToConsume msg gasPerByte.

Definition EstimateGas (msg : MsgPayForBlobs) (gasPerByte txSizeCost : Z) : result Z :=
  gas ← GasToConsume msg gasPerByte;
  let info := wrap_u64 (wrap_u64 (txSizeCost * BytesPerBlobInfo) * Z.of_nat (length (pfb_BlobSizes msg))) in
  Ok (wrap_u64 (wrap_u64 (gas + info) + PFBGasFixedCost)).

Definition DefaultEstimateGas (msg : MsgPayForBlobs) : result Z :=
  EstimateGas msg GasPerBlobByte TxSizeCostPerByte.

(** ** Parameters *)

Definition NewParams (gasPerBlobByte govMaxSquareSize : Z) : Params :=
  mkParams gasPerBlobByte govMaxSquareSize.

Definition DefaultParams : Params := NewParams GasPerBlobByte DefaultGovMaxSquareSize.

Definition validateGasPerBlobByte (v : any) : result unit :=
  match v with
  | AnyUint32 n => ensure (negb (n =? 0)) "gas per blob byte cannot be 0"
  | _ => Err "invalid parameter type"
  end.

Definition validateGovMaxSquareSize (v : any) : result unit :=
  match v with
  | AnyUint64 n =>
      _ ← ensure (negb (n =? 0)) "gov max square size cannot be zero";
      _ ← ensure (IsPowerOfTwo n) "gov max square size must be a power of two";
      ensure (n <=? SquareSizeUpperBound) "gov max square size exceeds the upper bound"
  | _ => Err "invalid parameter type"
  end.

Definition Params_Validate (p : Params) : result unit :=
  _ ← validateGasPerBlobByte (AnyUint32 (p_GasPerBlobByte p));
  validateGovMaxSquareSize (AnyUint64 (p_GovMaxSquareSize p)).

Definition ParamSetPairs (p : Params) : list (string * any * (any → result unit)) :=
  [ ("GasPerBlobByte", AnyUint32 (p_GasPerBlobByte p), validateGasPerBlobByte);
    ("GovMaxSquareSize", AnyUint64 (p_GovMaxSquareSize p), validateGovMaxSquareSize) ].
End Stateless.

(** ** The keeper

    The store holds the encoded parameters; the codec and the legacy subspace
    of the params module are parameters. [GetParamSet] panics when the subspace
    has no value. *)

Class ParamsCodec := {
  Params_Marshal : Params → bytes;
  Params_Unmarshal : bytes → result Params;
  subspace : Type;
  GetParamSet : subspace → result Params;
  SetParamSet : subspace → Params → result subspace;
}.

(** Protobuf omits fields that are zero, so only the zero message is empty. *)
Class ParamsCodecLaws `{ParamsCodec} := {
  Params_Unmarshal_Marshal p : u32 (p_GasPerBlobByte p) → u64 (p_GovMaxSquareSize p) →
    Params_Unmarshal (Params_Marshal p) = Ok p;
  Params_Marshal_empty p : Params_Marshal p = [] → p = mkParams 0 0;
}.

Section Keeper.
Context `{SP : SharePackage} `{CR : Crypto} `{AC : AddressCodec} `{PC : ParamsCodec} `{GM : GasMeterOps}.
Context `{EV : TypedEvents Event}.

(** The module's store, the legacy subspace and the emitted events. *)
Record World := mkWorld {
  w_params : option bytes;
  w_legacy : subspace;
  w_events : list Event;
}.

Definition EmitTypedEvent (w : World) (e : Event) : result World :=
  match TypedEventError e with
  | Some err => Err err
  | None => Ok (mkWorld (w_params w) (w_legacy w) (w_events w ++ [e]))
  end.

Definition GetParams (w : World) : result Params :=
  let bz := default [] (w_params w) in
  if (length bz =? 0)%nat then GetParamSet (w_legacy w)
  else match Params_Unmarshal bz with
       | Ok p => Ok p
       | Err e => Panic e      (* MustUnmarshal *)
       | Panic e => Panic e
       end.

Definition SetParams (w : World) (params : Params) : World :=
  mkWorld (Some (Params_Marshal params)) (w_legacy w) (w_events w).

Definition SetParamsLegacy (w : World) (params : Params) : result World :=
  l ← SetParamSet (w_legacy w) params;
  Ok (mkWorld (w_params w) l (w_events w)).

(** [PayForBlobs] changes the gas meter and the events. *)
Definition PayForBlobs (w : World) (gas : GasMeter) (msg : MsgPayForBlobs) : result (World * GasMeter) :=
  gasToConsume ← GasToConsume msg GasPerBlobByte;
  gas' ← ConsumeGas gas gasToConsume;
  w' ← EmitTypedEvent w (EventPayForBlobs (pfb_Signer msg) (pfb_BlobSizes msg) (pfb_Namespaces msg));
  Ok (w', gas').

Definition UpdateBlobParams (authority : bytes) (w : World) (msg : MsgUpdateBlobParams) : result World :=
  _ ← ensure (bool_decide (ubp_Authority msg = authority)) "ErrUnauthorized";
  _ ← (match Params_Validate (ubp_Params msg) with Err _ => Err "ErrInvalidRequest" | r => r end);
  EmitTypedEvent (SetParams w (ubp_Params msg)) (EventUpdateBlobParams (ubp_Authority msg) (ubp_Params msg)).

Definition InitGenesis (w : World) (genState : Params) : result World :=
  _ ← Params_Validate genState;
  Ok (SetParams w genState).

Definition ExportGenesis (w : World) : result Params := GetParams w.

(** The query handler; a nil request is [None]. *)
Definition Params_query (w : World) (req : option unit) : result Params :=
  match req with
  | None => Err "invalid request"
  | Some _ => GetParams w
  end.

Definition MigrateParams (w : World) : result World :=
  params ← GetParamSet (w_legacy w);
  _ ← Params_Validate params;
  Ok (SetParams w params).

(** [app.MaxEffectiveSquareSize], also [getMaxSquareSize] of the blob
    decorators: [int] of an unsigned 64-bit parameter. *)
Definition GetSquareSizeUpperBound (chainID : string) : Z := SquareSizeUpperBound.

Definition MaxEffectiveSquareSize (chainID : string) (w : World) : result Z :=
  params ← GetParams w;
  Ok (Z.min (wrap_i64 (p_GovMaxSquareSize params)) (GetSquareSizeUpperBound chainID)).

(** [app.getGovMaxSquareBytes]. *)
Definition getGovMaxSquareBytes (w : World) : result Z :=
  params ← GetParams w;
  Ok (wrap_u64 (wrap_u64 (p_GovMaxSquareSize params * p_GovMaxSquareSize params) * ShareSize)).
End Keeper.

(** ** Facts *)

Section Facts.
Context `{SP : SharePackage} `{CR : Crypto} `{AC : AddressCodec}.

Record pfb_ok (msg : MsgPayForBlobs) : Prop := {
  ok_nonempty : length (pfb_Namespaces msg) ≠ 0%nat;
  ok_versions : length (pfb_ShareVersions msg) = length (pfb_Namespaces msg);
  ok_sizes : length (pfb_BlobSizes msg) = length (pfb_Namespaces msg);
  ok_commitments : length (pfb_ShareCommitments msg) = length (pfb_Namespaces msg);
  ok_namespaces : Forall (λ ns, NewNamespaceFromBytes ns = Ok tt ∧ ValidateBlobNamespace ns = Ok tt)
                    (pfb_Namespaces msg);
  ok_share_versions : Forall (λ v, v = ShareVersionZero ∨ v = ShareVersionOne) (pfb_ShareVersions msg);
  ok_signer : is_Some (AccAddressFromBech32 (pfb_Signer msg));
  ok_digests : Forall (λ c, length c = HashLength) (pfb_ShareCommitments msg);
}.

(** [ValidateBasic] accepts exactly the well-formed messages. *)
Lemma ValidateBasic_Ok msg : ValidateBasic msg = Ok tt ↔ pfb_ok msg.
Proof.
  unfold ValidateBasic. split.
  - intros H. inv_ok. rewrite !andb_true_iff in Hr3. destruct Hr3 as [[Hv Hs] Hc].
    apply Nat.eqb_eq in Hv, Hs, Hc. apply negb_true_iff, Nat.eqb_neq in Hr.
    destruct r4, r5. apply each_Ok in Hr4; apply each_Ok in Hr5; apply each_Ok in H. constructor; try done.
    + eapply Forall_impl; [exact Hr4|]. intros ns Hns. cbn in Hns.
      by destruct (NewNamespaceFromBytes ns) as [[]| |].
    + eapply Forall_impl; [exact Hr5|]. intros v Hv'%ensure_Ok.
      apply orb_true_iff in Hv' as [?%Z.eqb_eq|?%Z.eqb_eq]; auto.
    + eapply Forall_impl; [exact H|]. intros c Hc'%ensure_Ok. by apply Nat.eqb_eq.
  - intros [Hne Hv Hs Hc Hns Hsv [a Ha] Hd]. rewrite Hv, Hs, Hc, Ha.
    apply Nat.eqb_neq in Hne. rewrite Hne, Nat.eqb_refl. cbn.
    rewrite (proj2 (each_Ok _ (pfb_Namespaces msg))); cbn.
    2:{ eapply Forall_impl; [exact Hns|]. intros ns [-> ->]. done. }
    rewrite (proj2 (each_Ok _ (pfb_ShareVersions msg))); cbn.
    2:{ eapply Forall_impl; [exact Hsv|]. by intros v [->| ->]. }
    apply each_Ok. eapply Forall_impl; [exact Hd|]. intros c ->. done.
Qed.

Lemma ValidateBlobNamespace_no_panic ns : no_panic (ValidateBlobNamespace ns).
Proof. unfold ValidateBlobNamespace. no_panic. Qed.
#[local] Hint Resolve ValidateBlobNamespace_no_panic : panics.

Lemma ValidateBlobs_no_panic blobs : no_panic (ValidateBlobs blobs).
Proof. unfold ValidateBlobs. no_panic. apply no_panic_each. intros. no_panic. Qed.

Lemma ValidateBasic_no_panic msg :
  (∀ ns, no_panic (NewNamespaceFromBytes ns)) → no_panic (ValidateBasic msg).
Proof.
  intros Hns. unfold ValidateBasic. no_panic; apply no_panic_each; intros; no_panic.
  case_match eqn:E; no_panic. by apply Hns in E.
Qed.

(** ** Gas without overflow *)

(** The shares the blobs of a message occupy, in unbounded integers. *)
Definition shares_of (msg : MsgPayForBlobs) : Z :=
  zsum (zip_with (λ size v, SparseSharesNeeded size (v =? ShareVersionOne))
          (pfb_BlobSizes msg) (pfb_ShareVersions msg)).

Context `{SL : !ShareLaws}.

Lemma wrap_shares size c : u32 size → wrap_u64 (SparseSharesNeeded size c) = SparseSharesNeeded size c.
Proof. intros Hs. pose proof (SparseSharesNeeded_bounds size c Hs). apply wrap_u64_id. fits. Qed.

Lemma shares_bound sizes versions : Forall u32 sizes →
  let s := zsum (zip_with (λ size v, SparseSharesNeeded size (v =? ShareVersionOne)) sizes versions) in
  0 <= s <= two32 * Z.of_nat (length sizes).
Proof.
  intros Hs. revert versions. induction Hs as [|size sizes Hsz _ IH]; intros [|v versions]; cbn [zip_with length].
  1-3: unfold two32; cbn; lia.
  cbn zeta. rewrite zsum_cons. specialize (IH versions). cbn zeta in IH.
  pose proof (SparseSharesNeeded_bounds size (v =? ShareVersionOne) Hsz). fits.
Qed.

Lemma total_shares_exact sizes versions i acc :
  Forall u32 sizes → length sizes = length (drop i versions) → 0 <= acc →
  acc + two32 * Z.of_nat (length sizes) < two64 →
  total_shares i sizes versions acc =
    Ok (acc + zsum (zip_with (λ size v, SparseSharesNeeded size (v =? ShareVersionOne)) sizes (drop i versions))).
Proof.
  intros Hs. revert i acc. induction Hs as [|size sizes Hsz Hs IH]; intros i acc Hl Ha Hb; cbn [total_shares].
  { cbn. f_equal. lia. }
  destruct (drop i versions) as [|v rest] eqn:Hd; [done|]. cbn [zip_with length] in *. rewrite zsum_cons.
  assert (versions !! i = Some v) as Hv.
  { rewrite <- (Nat.add_0_r i), <- lookup_drop, Hd. done. }
  unfold index. rewrite Hv. cbn. pose proof (SparseSharesNeeded_bounds size (v =? ShareVersionOne) Hsz).
  assert (drop (S i) versions = rest) as Hd'.
  { replace (S i) with (i + 1)%nat by lia. rewrite <- drop_drop, Hd. done. }
  rewrite wrap_shares, wrap_u64_id by fits. rewrite IH; rewrite ?Hd'; try lia; try fits.
  f_equal. lia.
Qed.

(** Far more blobs than a transaction of the maximal size can declare. *)
Definition max_blobs : Z := 2 ^ 20.

Lemma GasToConsume_exact msg :
  pfb_wire_ok msg → length (pfb_BlobSizes msg) = length (pfb_ShareVersions msg) →
  Z.of_nat (length (pfb_BlobSizes msg)) < max_blobs →
  GasToConsume msg GasPerBlobByte = Ok (shares_of msg * ShareSize * GasPerBlobByte) ∧
  0 <= shares_of msg * ShareSize * GasPerBlobByte < two64.
Proof.
  intros [Hs _] Hl Hn. unfold GasToConsume, shares_of, max_blobs in *.
  rewrite total_shares_exact; [|done|by rewrite drop_0|lia|fits]. cbn [mbind result_bind].
  rewrite drop_0. pose proof (shares_bound (pfb_BlobSizes msg) (pfb_ShareVersions msg) Hs) as Hb. cbn zeta in Hb.
  rewrite Z.add_0_l. set (t := zsum _) in *. unfold ShareSize, GasPerBlobByte.
  rewrite (wrap_u64_id (t * 512)) by fits. rewrite wrap_u64_id by fits. split; [done|fits].
Qed.

Lemma DefaultEstimateGas_exact msg :
  pfb_wire_ok msg → length (pfb_BlobSizes msg) = length (pfb_ShareVersions msg) →
  Z.of_nat (length (pfb_BlobSizes msg)) < max_blobs / 2 →
  DefaultEstimateGas msg =
    Ok (shares_of msg * ShareSize * GasPerBlobByte
        + TxSizeCostPerByte * BytesPerBlobInfo * Z.of_nat (length (pfb_BlobSizes msg)) + PFBGasFixedCost).
Proof.
  intros Hw Hl Hn. unfold DefaultEstimateGas, EstimateGas. change (max_blobs / 2) with (2 ^ 19) in Hn.
  destruct (GasToConsume_exact msg Hw Hl) as [-> _]; [unfold max_blobs; lia|]. cbn [mbind result_bind].
  unfold shares_of. destruct Hw as [Hs _].
  pose proof (shares_bound (pfb_BlobSizes msg) (pfb_ShareVersions msg) Hs) as Hb. cbn zeta in Hb.
  set (t := zsum _) in *. unfold TxSizeCostPerByte, BytesPerBlobInfo, PFBGasFixedCost, ShareSize, GasPerBlobByte.
  rewrite (wrap_u64_id (10 * 70)) by fits. rewrite (wrap_u64_id (10 * 70 * _)) by fits.
  rewrite (wrap_u64_id (t * 512 * 8 + _)) by fits. rewrite wrap_u64_id by fits. f_equal.
Qed.
End Facts.

(** ** The parameters stay valid *)

Section ParamsFacts.
Context `{SP : SharePackage} `{CR : Crypto} `{AC : AddressCodec} `{PC : ParamsCodec} `{GM : GasMeterOps}.
Context `{EV : TypedEvents Event} `{SL : !ShareLaws} `{PCL : !ParamsCodecLaws}.

Definition params_valid (p : Params) : Prop :=
  0 < p_GasPerBlobByte p < two32 ∧ ∃ k, 0 <= k <= 9 ∧ p_GovMaxSquareSize p = 2 ^ k.

Definition params_wire (p : Params) : Prop := u32 (p_GasPerBlobByte p) ∧ u64 (p_GovMaxSquareSize p).

Lemma blob_Params_Validate_Ok p : params_wire p → Params_Validate p = Ok tt ↔ params_valid p.
Proof.
  intros [Hg Hs]. unfold Params_Validate, validateGasPerBlobByte, validateGovMaxSquareSize, params_valid. split.
  - intros H. inv_ok. apply negb_true_iff, Z.eqb_neq in Hr, Hr0. apply IsPowerOfTwo_spec in Hr1 as (k & Hk & Hp).
    apply Z.leb_le in H. split; [fits|]. exists k. split; [|done]. split; [done|].
    destruct (Z.le_gt_cases k 9) as [|Hgt]; [done|]. exfalso.
    assert (2 ^ 10 <= 2 ^ k) by (apply Z.pow_le_mono_r; lia). unfold SquareSizeUpperBound in H. lia.
  - intros [Hg' (k & Hk & Hp)].
    assert (1 <= 2 ^ k <= 512).
    { split; [apply (Z.pow_le_mono_r 2 0); lia|]. change 512 with (2 ^ 9). apply Z.pow_le_mono_r; lia. }
    rewrite (proj2 (Z.eqb_neq (p_GasPerBlobByte p) 0)), (proj2 (Z.eqb_neq (p_GovMaxSquareSize p) 0)) by lia.
    cbn. rewrite (proj2 (IsPowerOfTwo_spec _)) by (exists k; lia). cbn.
    by rewrite (proj2 (Z.leb_le _ _)) by (unfold SquareSizeUpperBound; lia).
Qed.

Lemma blob_GetParams_SetParams w p : params_wire p → params_valid p → GetParams (SetParams w p) = Ok p.
Proof.
  intros [Hg Hs] [Hg' _]. unfold GetParams, SetParams; cbn.
  destruct (Nat.eqb_spec (length (Params_Marshal p)) 0) as [He%nil_length_inv|].
  - apply Params_Marshal_empty in He as ->. cbn in Hg'. lia.
  - by rewrite Params_Unmarshal_Marshal.
Qed.

(** The handlers that run after the chain's genesis. *)
Inductive step (authority : bytes) : World → World → Prop :=
| step_pay w gas msg w' gas' : PayForBlobs w gas msg = Ok (w', gas') → step authority w w'
| step_update w msg w' : params_wire (ubp_Params msg) →
    UpdateBlobParams authority w msg = Ok w' → step authority w w'
| step_migrate w w' : (∀ p, GetParamSet (w_legacy w) = Ok p → params_wire p) →
    MigrateParams w = Ok w' → step authority w w'.

Definition params_inv (w : World) : Prop := ∃ p, GetParams w = Ok p ∧ params_valid p.

Lemma params_inv_set w p : params_wire p → Params_Validate p = Ok tt → params_inv (SetParams w p).
Proof. intros Hw Hv%blob_Params_Validate_Ok; [|done]. exists p. split; [|done]. by apply blob_GetParams_SetParams. Qed.

Lemma emit_params w e w' : EmitTypedEvent w e = Ok w' → GetParams w' = GetParams w.
Proof. unfold EmitTypedEvent. case_match; intros Hw; inv_ok. by subst w'. Qed.

Lemma step_params_inv authority w w' : step authority w w' → params_inv w → params_inv w'.
Proof.
  destruct 1 as [w gas msg w' gas' H|w msg w' Hw H|w w' Hw H]; intros Hi.
  - unfold PayForBlobs in H. inv_ok. injection H as -> ->. apply emit_params in Hr1.
    unfold params_inv in *. by rewrite Hr1.
  - unfold UpdateBlobParams in H. inv_ok. apply emit_params in H. unfold params_inv. rewrite H.
    apply params_inv_set; [done|]. destruct (Params_Validate (ubp_Params msg)) as [[]| |]; done.
  - unfold MigrateParams in H. inv_ok. subst w'. destruct r0. apply params_inv_set; auto.
Qed.

Lemma reachable_params_inv authority w w' : rtc (step authority) w w' → params_inv w → params_inv w'.
Proof. induction 1; eauto using step_params_inv. Qed.

(** With valid parameters the size of the square needs no cap and the byte
    count does not wrap. *)
Lemma square_size_of_inv chainID w : params_inv w →
  ∃ k, 0 <= k <= 9 ∧ MaxEffectiveSquareSize chainID w = Ok (2 ^ k) ∧
    getGovMaxSquareBytes w = Ok (2 ^ k * 2 ^ k * ShareSize).
Proof.
  intros (p & Hp & _ & k & Hk & Hs). exists k. split; [done|].
  unfold MaxEffectiveSquareSize, getGovMaxSquareBytes. rewrite Hp. cbn [mbind result_bind]. rewrite Hs.
  assert (1 <= 2 ^ k <= 512).
  { split; [apply (Z.pow_le_mono_r 2 0); lia|]. change 512 with (2 ^ 9). apply Z.pow_le_mono_r; lia. }
  unfold GetSquareSizeUpperBound, SquareSizeUpperBound, ShareSize. rewrite wrap_i64_id, Z.min_l by fits.
  rewrite (wrap_u64_id (2 ^ k * 2 ^ k)) by (unfold u64, two64; nia).
  rewrite wrap_u64_id by (unfold u64, two64; nia). done.
Qed.
End ParamsFacts.
End Blob.
