(* ===== verification/Messages.v ===== *)
(** * Messages, transactions and their decoding

    The messages the application inspects, [app/encoding] (the transaction
    decoder), [x/blob/types/blob_tx.go] (validation of blob transactions),
    [x/fibre/types/classified_tx.go] (classification for the square) and the
    shape checks of [app/check_tx.go] and [app/process_proposal.go]. *)

From S2P Require Import Prelude Sdk GoSquare FibreParams FibrePromise PayForBlob.
Import Blob.
#[local] Open Scope Z_scope.

(** ** Messages *)

(** The parts of [consensustypes.MsgUpdateParams]: block, evidence and
    validator parameters, each possibly absent. *)
Record EvidenceParams := mkEvidenceParams {
  ev_MaxAgeNumBlocks : Z; ev_MaxAgeDuration : Z; ev_MaxBytes : Z;
}.
#[global] Instance EvidenceParams_eq_dec : EqDecision EvidenceParams.
Proof. solve_decision. Defined.

Record ConsensusUpdate := mkConsensusUpdate {
  cu_Block : option (Z * Z);
  cu_Evidence : option EvidenceParams;
  cu_Validator : option (list string);
}.

(** An [sdk.Msg]. The containers [authz.MsgExec] and [govv1.MsgSubmitProposal]
    hold a list of [Any] values; an [Any] that does not hold a message is
    [None]. *)
Inductive Msg :=
| MPayForBlobs (m : MsgPayForBlobs)
| MPayForFibre (m : MsgPayForFibre)
| MExec (grantee : bytes) (msgs : list (option Msg))
| MSubmitProposal (proposer : bytes) (msgs : list (option Msg))
| MBankUpdateParams (SendEnabled : list (string * bool)) (DefaultSendEnabled : bool)
| MStakingUpdateParams (BondDenom : string) (UnbondingTime : Z)
| MConsensusUpdateParams (params : ConsensusUpdate)
| MOther (typeURL : string) (value : bytes).

Definition URLMsgPayForBlobs : string := "/celestia.blob.v1.MsgPayForBlobs".
Definition MsgPayForFibreTypeURL : string := "/celestia.fibre.v1.MsgPayForFibre".

(** [sdk.MsgTypeURL]. *)
Definition MsgTypeURL (m : Msg) : string :=
  match m with
  | MPayForBlobs _ => URLMsgPayForBlobs
  | MPayForFibre _ => MsgPayForFibreTypeURL
  | MExec _ _ => "/cosmos.authz.v1beta1.MsgExec"
  | MSubmitProposal _ _ => "/cosmos.gov.v1.MsgSubmitProposal"
  | MBankUpdateParams _ _ => "/cosmos.bank.v1beta1.MsgUpdateParams"
  | MStakingUpdateParams _ _ => "/cosmos.staking.v1beta1.MsgUpdateParams"
  | MConsensusUpdateParams _ => "/cosmos.consensus.v1.MsgUpdateParams"
  | MOther url _ => url
  end.

(** [MsgExec.GetMessages] and [MsgSubmitProposal.GetMsgs]. *)
Definition unpack (anys : list (option Msg)) : result (list Msg) :=
  of_option "messages contains a value that is not an sdk.Msg" (mapM id anys).

(** Induction over messages and the messages inside them. *)
Section Msg_ind.
Context (P : Msg → Prop).
Definition all_some (anys : list (option Msg)) : Prop := Forall (from_option P True) anys.
Hypothesis H1 : ∀ m, P (MPayForBlobs m).
Hypothesis H2 : ∀ m, P (MPayForFibre m).
Hypothesis H3 : ∀ g l, all_some l → P (MExec g l).
Hypothesis H4 : ∀ g l, all_some l → P (MSubmitProposal g l).
Hypothesis H5 : ∀ s d, P (MBankUpdateParams s d).
Hypothesis H6 : ∀ b u, P (MStakingUpdateParams b u).
Hypothesis H7 : ∀ c, P (MConsensusUpdateParams c).
Hypothesis H8 : ∀ u v, P (MOther u v).

Fixpoint Msg_ind' (m : Msg) : P m :=
  let fix go (l : list (option Msg)) : all_some l :=
    match l with
    | [] => Forall_nil_2 _
    | o :: l' =>
        Forall_cons_2 _ _ _
          (match o return from_option P True o with Some m' => Msg_ind' m' | None => I end) (go l')
    end in
  match m with
  | MPayForBlobs m => H1 m
  | MPayForFibre m => H2 m
  | MExec g l => H3 g l (go l)
  | MSubmitProposal g l => H4 g l (go l)
  | MBankUpdateParams s d => H5 s d
  | MStakingUpdateParams b u => H6 b u
  | MConsensusUpdateParams c => H7 c
  | MOther u v => H8 u v
  end.
End Msg_ind.

(** ** Transactions *)

(** [signing.SignatureData]; nil data is [None]. *)
Inductive SignatureData :=
| SingleSignatureData (sig : bytes)
| MultiSignatureData (sigs : list (option SignatureData)).

Record PubKey := mkPubKey { pk_Key : bytes; pk_IsMultisig : bool }.

Record SignatureV2 := mkSignatureV2 {
  sig_PubKey : option PubKey;
  sig_Data : option SignatureData;
  sig_Sequence : Z;
}.

(** An [sdk.Tx]. The fee and gas are present when it is an [sdk.FeeTx], the
    signatures when it is a [SigVerifiableTx], whose [GetSignaturesV2] may fail
    or panic. *)
Record Tx := mkTx {
  tx_Msgs : list Msg;
  tx_FeeTx : option (list Coin * Z);
  tx_SigTx : option (result (list SignatureV2));
}.

(** ** Shape of a transaction *)

Definition is_pff (m : Msg) : bool := match m with MPayForFibre _ => true | _ => false end.
Definition is_pfb (m : Msg) : bool := match m with MPayForBlobs _ => true | _ => false end.

Definition msgTypes (sdkTx : Tx) : list string := map MsgTypeURL (tx_Msgs sdkTx).

Definition countMsgPayForFibre (sdkTx : Tx) : nat := length (filter is_pff (tx_Msgs sdkTx)).

Fixpoint hasPFB (msgs : list Msg) : option MsgPayForBlobs :=
  match msgs with
  | [] => None
  | MPayForBlobs pfb :: _ => Some pfb
  | _ :: msgs' => hasPFB msgs'
  end.

Definition payForFibreMsg (tx : Tx) : option MsgPayForFibre :=
  match tx_Msgs tx with
  | [MPayForFibre pff] => Some pff
  | _ => None
  end.

Section Shape.
Context `{CR : Crypto}.

Definition validatePayForFibreTxShape (tx : Tx) : result unit :=
  each (λ msg,
    match msg with
    | MPayForFibre pff =>
        _ ← ensure (length (tx_Msgs tx) <=? 1)%nat "ErrInvalidPayForFibreTx";
        match PaymentPromise_ValidateBasic (pff_PaymentPromise pff) with
        | Err _ => Err "ErrInvalidPayForFibreTx"
        | r => r
        end
    | _ => Ok tt
    end) (tx_Msgs tx).
End Shape.

(** ** The wire formats

    The SDK's decoder and protobuf types and CometBFT's index wrapper. A
    message in a transaction body is a type URL with its encoded value. *)
Class TxCodec := {
  DefaultTxDecoder : bytes → result Tx;
  UnmarshalIndexWrapper : bytes → option bytes;
  TxRaw_Unmarshal : bytes → option bytes;
  TxBody_Unmarshal : bytes → option (list (string * bytes));
  MsgPayForFibre_Unmarshal : bytes → option MsgPayForFibre;
  bech32_DecodeToBase256 : bytes → option bytes;
}.

(** An encoded message and its decoded form: the URL names the type. *)
Definition unpacks `{TxCodec} (any : string * bytes) (msg : Msg) : Prop :=
  any.1 = MsgTypeURL msg ∧
  (∀ m, msg = MPayForFibre m → MsgPayForFibre_Unmarshal any.2 = Some m) ∧
  (any.1 = MsgPayForFibreTypeURL → is_pff msg = true).

Class TxCodecLaws `{TxCodec} := {
  DefaultTxDecoder_no_panic b : no_panic (DefaultTxDecoder b);
  (** The decoder reads the messages of the body of the raw transaction. *)
  DefaultTxDecoder_body b tx : DefaultTxDecoder b = Ok tx →
    ∃ body anys, TxRaw_Unmarshal b = Some body ∧ TxBody_Unmarshal body = Some anys ∧
      Forall2 unpacks anys (tx_Msgs tx);
}.

Section Decoder.
Context `{SP : SharePackage} `{TP : !TxPackage} `{TC : TxCodec}.

(** ** [app/encoding]: the transaction decoder *)

Definition TxDecoder_t := bytes → result Tx.

Definition indexWrapperDecoder (decoder : TxDecoder_t) : TxDecoder_t := λ txBytes,
  match UnmarshalIndexWrapper txBytes with
  | None => decoder txBytes
  | Some wrapped =>
      sdkTx ← decoder wrapped;
      _ ← ensure (length (tx_Msgs sdkTx) =? 1)%nat "ErrMultiMsgIndexWrapper";
      match tx_Msgs sdkTx with
      | MPayForBlobs _ :: _ => Ok sdkTx
      | _ => Err "ErrNonPFBIndexWrapper"
      end
  end.

Definition blobTxDecoder (decoder : TxDecoder_t) : TxDecoder_t := λ txBytes,
  match UnmarshalBlobTx txBytes with
  | Some r => blobTx ← r; decoder (btx_Tx blobTx)
  | None => decoder txBytes
  end.

Definition rejectEmptyTxDecoder (decoder : TxDecoder_t) : TxDecoder_t := λ txBytes,
  if (length txBytes =? 0)%nat then Err "ErrEmptyTx" else decoder txBytes.

(** The decoder [MakeConfig] installs. *)
Definition TxDecoder : TxDecoder_t :=
  rejectEmptyTxDecoder (blobTxDecoder (indexWrapperDecoder DefaultTxDecoder)).

(** ** [app/blob_tx_canonical.go] *)

Definition blobTxIsCanonical (raw : bytes) (btx : BlobTx) : bool :=
  match MarshalBlobTx (btx_Tx btx) (btx_Blobs btx) with
  | Ok canonical => bool_decide (raw = canonical)
  | _ => false
  end.

Context `{CR : Crypto} `{AC : AddressCodec}.

(** ** [x/blob/types/blob_tx.go] *)

(** The comparisons of what the message declares with the blobs. *)
Definition match_namespaces (namespaces : list bytes) (blobs : list Blob) : result unit :=
  each_i (λ i ns,
    _ ← NewNamespaceFromBytes ns;
    blob ← index blobs i;
    ensure (bool_decide (blob_Namespace blob = ns)) "ErrNamespaceMismatch") 0 namespaces.

Definition match_versions (blobs : list Blob) (versions : list Z) : result unit :=
  each_i (λ i blob,
    v ← index versions i;
    ensure (v =? wrap_u32 (blob_ShareVersion blob)) "ErrShareVersionMismatch") 0 blobs.

Definition match_commitments (declared calculated : list bytes) : result unit :=
  each_i (λ i commitment,
    c ← index calculated i;
    ensure (bool_decide (c = commitment)) "ErrInvalidShareCommitment") 0 declared.

(** A nil blob transaction is [None]. *)
Definition ValidateBlobTxSkipCommitment (bTx : option BlobTx) : result MsgPayForBlobs :=
  match bTx with
  | None => Err "ErrNoBlobs"
  | Some bTx =>
      sdkTx ← TxDecoder (btx_Tx bTx);
      match tx_Msgs sdkTx with
      | [MPayForBlobs msgPFB] =>
          _ ← ValidateBasic msgPFB;
          let sizes := map blob_size (btx_Blobs bTx) in
          _ ← ValidateBlobs (btx_Blobs bTx);
          signer ← of_option "invalid signer" (AccAddressFromBech32 (pfb_Signer msgPFB));
          _ ← each (λ blob,
                if blob_ShareVersion blob =? ShareVersionOne
                then ensure (bool_decide (blob_Signer blob = signer)) "ErrInvalidBlobSigner"
                else Ok tt) (btx_Blobs bTx);
          _ ← ensure (bool_decide (sizes = pfb_BlobSizes msgPFB)) "ErrBlobSizeMismatch";
          _ ← match_namespaces (pfb_Namespaces msgPFB) (btx_Blobs bTx);
          _ ← match_versions (btx_Blobs bTx) (pfb_ShareVersions msgPFB);
          Ok msgPFB
      | [_] => Err "ErrNoPFB"
      | _ => Err "ErrMultipleMsgsInBlobTx"
      end
  end.

(** The number of workers stands for [runtime.NumCPU()*2]. *)
Definition ValidateBlobTx (workers : Z) (bTx : option BlobTx) (subtreeRootThreshold : Z) : result unit :=
  msgPFB ← ValidateBlobTxSkipCommitment bTx;
  let blobs := match bTx with Some b => btx_Blobs b | None => [] end in
  calculatedCommitments ←
    (match CreateParallelCommitments blobs subtreeRootThreshold workers with
     | Err _ => Err "ErrCalculateCommitment"
     | r => r
     end);
  match_commitments (pfb_ShareCommitments msgPFB) calculatedCommitments.

(** ** [x/fibre/types/classified_tx.go] *)

Definition SystemBlob (msg : MsgPayForFibre) : result Blob :=
  let promise := pff_PaymentPromise msg in
  _ ← NewNamespaceFromBytes (pb_Namespace promise);
  signerBytes ← of_option "decoding signer address in MsgPayForFibre" (bech32_DecodeToBase256 (pff_Signer msg));
  share_NewV2Blob (pb_Namespace promise) (pb_BlobVersion promise) (pb_Commitment promise) signerBytes.

(** [None] when the bytes are not a pay-for-fibre transaction. *)
Definition TryParseFibreTx (txBytes : bytes) : option (result FibreTx) :=
  match UnmarshalBlobTx txBytes with
  | Some _ => None
  | None =>
      match TxRaw_Unmarshal txBytes with
      | None => None
      | Some bodyBytes =>
          match TxBody_Unmarshal bodyBytes with
          | Some [(typeUrl, value)] =>
              if String.eqb typeUrl MsgPayForFibreTypeURL then
                Some (match MsgPayForFibre_Unmarshal value with
                      | None => Err "unmarshalling MsgPayForFibre"
                      | Some msg =>
                          systemBlob ← SystemBlob msg;
                          Ok (mkFibreTx txBytes systemBlob)
                      end)
              else None
          | _ => None
          end
      end
  end.

Context `{SQ : !SquarePackage}.

Definition ClassifyTx (rawTx : bytes) : result ClassifiedTx :=
  match TryParseFibreTx rawTx with
  | None => Ok (NewClassifiedTx rawTx)
  | Some r => fibreTx ← r; NewClassifiedFibreTx fibreTx
  end.

Fixpoint ClassifyTxs (txs : list bytes) : result (list ClassifiedTx) :=
  match txs with
  | [] => Ok []
  | rawTx :: txs' => c ← ClassifyTx rawTx; cs ← ClassifyTxs txs'; Ok (c :: cs)
  end.
End Decoder.

(** ** Facts *)

(** What a validated blob transaction looks like: one message, which describes
    each blob exactly. *)
Section BlobTxFacts.
Context `{SP : SharePackage} `{TP : !TxPackage} `{TC : TxCodec} `{CR : Crypto} `{AC : AddressCodec}.

(** Blob [i] of the transaction is the one the message declares at [i]. *)
Record describes (msg : MsgPayForBlobs) (blobs : list Blob) : Prop := {
  de_ok : pfb_ok msg;
  de_blobs : ValidateBlobs blobs = Ok tt;
  de_sizes : map blob_size blobs = pfb_BlobSizes msg;
  de_namespaces : map blob_Namespace blobs = pfb_Namespaces msg;
  de_versions : map (λ b, wrap_u32 (blob_ShareVersion b)) blobs = pfb_ShareVersions msg;
  de_signer : ∃ a, AccAddressFromBech32 (pfb_Signer msg) = Some a ∧
    Forall (λ b, blob_ShareVersion b = ShareVersionOne → blob_Signer b = a) blobs;
}.

Lemma list_eq_map {A B} (f : A → B) (l : list A) (k : list B) :
  length l = length k → (∀ j b, k !! j = Some b → ∃ a, l !! j = Some a ∧ f a = b) → map f l = k.
Proof.
  intros Hl Hk. apply list_eq. intros j.
  destruct (k !! j) as [b|] eqn:Hb.
  - apply Hk in Hb as (a & Ha & <-). change (map f l) with (f <$> l). by rewrite list_lookup_fmap, Ha.
  - apply lookup_ge_None_2. rewrite length_map, Hl. by apply lookup_ge_None_1.
Qed.

Lemma match_namespaces_Ok namespaces blobs : length blobs = length namespaces →
  Forall (λ ns, NewNamespaceFromBytes ns = Ok tt) namespaces →
  match_namespaces namespaces blobs = Ok tt ↔ map blob_Namespace blobs = namespaces.
Proof.
  intros Hl Hns. unfold match_namespaces. rewrite each_i_Ok. split.
  - intros H. apply list_eq_map; [done|]. intros j ns Hj. apply H in Hj. cbn in Hj. inv_ok.
    apply bool_decide_eq_true in Hj. eauto.
  - intros <- j ns Hj. cbn. rewrite Forall_lookup in Hns. rewrite (Hns j ns Hj). cbn.
    change (map blob_Namespace blobs) with (blob_Namespace <$> blobs) in Hj.
    rewrite list_lookup_fmap in Hj. apply fmap_Some in Hj as (b & Hb & ->).
    unfold index. rewrite Hb. cbn. by rewrite bool_decide_true.
Qed.

Lemma match_versions_Ok versions blobs : length blobs = length versions →
  match_versions blobs versions = Ok tt ↔ map (λ b, wrap_u32 (blob_ShareVersion b)) blobs = versions.
Proof.
  intros Hl. unfold match_versions. rewrite each_i_Ok. split.
  - intros H. apply list_eq_map; [done|]. intros j v Hj.
    destruct (lookup_lt_is_Some_2 blobs j) as [b Hb]; [rewrite Hl; by eapply lookup_lt_Some|].
    exists b. split; [done|]. specialize (H j b Hb). cbn in H. inv_ok. apply Z.eqb_eq in H.
    rewrite Hr in Hj. by injection Hj as <-.
  - intros <- j b Hj. cbn. unfold index. change (map ?f ?l) with (f <$> l).
    rewrite list_lookup_fmap, Hj. cbn. by rewrite Z.eqb_refl.
Qed.

Lemma match_commitments_Ok declared calculated : length calculated = length declared →
  match_commitments declared calculated = Ok tt ↔ calculated = declared.
Proof.
  intros Hl. unfold match_commitments. rewrite each_i_Ok. split.
  - intros H. rewrite <- (map_id calculated). apply list_eq_map; [done|]. intros j c Hj.
    apply H in Hj. cbn in Hj. inv_ok. apply bool_decide_eq_true in Hj. eauto.
  - intros -> j c Hj. cbn. unfold index. rewrite Hj. cbn. by rewrite bool_decide_true.
Qed.

(** The checks without the commitments accept exactly the transactions with
    one message that describes the blobs. *)
Lemma SkipCommitment_Ok bTx msg :
  ValidateBlobTxSkipCommitment (Some bTx) = Ok msg ↔
  (∃ tx, TxDecoder (btx_Tx bTx) = Ok tx ∧ tx_Msgs tx = [MPayForBlobs msg]) ∧ describes msg (btx_Blobs bTx).
Proof.
  unfold ValidateBlobTxSkipCommitment. split.
  - intros H. inv_ok. destruct (tx_Msgs r) as [|[m| | | | | | |] [|]] eqn:Hm; try discriminate H. inv_ok. subst m.
    destruct r0, r1, r3, r5, r6. apply ValidateBasic_Ok in Hr0 as Hok. apply bool_decide_eq_true in Hr4.
    split; [eauto|]. destruct (Hok) as [H1 H2 H3 H4 H5 H6 H7 H8].
    assert (length (btx_Blobs bTx) = length (pfb_BlobSizes msg)) as Hl by by rewrite <- Hr4, length_map.
    constructor; try done.
    + apply match_namespaces_Ok; [congruence| |done]. eapply Forall_impl; [exact H5|]. by intros ? [? _].
    + apply match_versions_Ok; [congruence|done].
    + exists r2. split; [done|]. apply each_Ok in Hr3. eapply Forall_impl; [exact Hr3|].
      intros b Hb Hv. cbn in Hb. apply Z.eqb_eq in Hv. rewrite Hv in Hb. apply ensure_Ok, bool_decide_eq_true in Hb. done.
  - intros [(tx & -> & Hm) [Hok Hb Hs Hn Hv (a & Ha & Hsig)]]. cbn. rewrite Hm.
    rewrite (proj2 (ValidateBasic_Ok msg) Hok), Hb, Ha. cbn.
    assert (length (btx_Blobs bTx) = length (pfb_BlobSizes msg)) as Hl by by rewrite <- Hs, length_map.
    rewrite (proj2 (each_Ok _ (btx_Blobs bTx))); cbn.
    2:{ eapply Forall_impl; [exact Hsig|]. intros b Hsb. case_match eqn:E; [|done].
        apply Z.eqb_eq, Hsb in E. by rewrite bool_decide_true. }
    rewrite bool_decide_true by done. cbn.
    assert (match_namespaces (pfb_Namespaces msg) (btx_Blobs bTx) = Ok tt) as ->.
    { apply match_namespaces_Ok; [by rewrite <- Hn, length_map| |done].
      eapply Forall_impl; [apply (ok_namespaces _ Hok)|]. by intros ? [? _]. }
    assert (match_versions (btx_Blobs bTx) (pfb_ShareVersions msg) = Ok tt) as ->; [|done].
    apply match_versions_Ok; [by rewrite <- Hv, length_map|done].
Qed.

Context `{SL : !ShareLaws}.

(** Full validation also compares the commitments. *)
Lemma ValidateBlobTx_Ok workers bTx threshold :
  ValidateBlobTx workers (Some bTx) threshold = Ok tt ↔
  ∃ msg, ValidateBlobTxSkipCommitment (Some bTx) = Ok msg ∧
    CreateCommitments (btx_Blobs bTx) threshold = Ok (pfb_ShareCommitments msg).
Proof.
  unfold ValidateBlobTx. rewrite CreateParallelCommitments_eq. split.
  - intros H. inv_ok. exists r. split; [done|]. destruct (CreateCommitments _ _) as [cs| |] eqn:E; inv_ok; subst.
    apply match_commitments_Ok in H as ->; [done|].
    apply SkipCommitment_Ok in Hr as [_ [Hok _ Hs _ _ _]]. apply CreateCommitments_length in E.
    rewrite E, (ok_commitments _ Hok), <- (ok_sizes _ Hok), <- Hs. by rewrite length_map.
  - intros (msg & -> & ->). cbn. by apply match_commitments_Ok.
Qed.
End BlobTxFacts.

(** ** The decoder and the classification agree *)

Section ClassifyFacts.
Context `{SP : SharePackage} `{TP : !TxPackage} `{TC : TxCodec} `{TCL : !TxCodecLaws} `{TL : !TxLaws}.
Context `{CR : Crypto} `{AC : AddressCodec}.

Lemma TxDecoder_no_panic b : no_panic (TxDecoder b).
Proof.
  assert (∀ c, no_panic (indexWrapperDecoder DefaultTxDecoder c)) as Hd.
  { intros c. unfold indexWrapperDecoder. case_match; no_panic; auto using DefaultTxDecoder_no_panic.
    repeat case_match; no_panic. }
  unfold TxDecoder, rejectEmptyTxDecoder, blobTxDecoder. case_match; no_panic.
  case_match eqn:E; [|apply Hd]. apply no_panic_bind; [|auto]. intros p Hp. by eapply UnmarshalBlobTx_no_panic in Hp.
Qed.

(** A plain transaction without blobs payments is decoded by the SDK alone. *)
Lemma TxDecoder_plain raw tx :
  UnmarshalBlobTx raw = None → TxDecoder raw = Ok tx → hasPFB (tx_Msgs tx) = None →
  DefaultTxDecoder raw = Ok tx.
Proof.
  unfold TxDecoder, rejectEmptyTxDecoder, blobTxDecoder, indexWrapperDecoder. intros -> H Hp.
  case_match; [done|]. case_match; [|done]. inv_ok.
  destruct (tx_Msgs r) as [|[m| | | | | | |] ms] eqn:Hm; try discriminate H. inv_ok. subst r. by rewrite Hm in Hp.
Qed.

Lemma TryParseFibreTx_spec raw tx :
  UnmarshalBlobTx raw = None → DefaultTxDecoder raw = Ok tx →
  TryParseFibreTx raw =
    (λ m, systemBlob ← SystemBlob m; Ok (mkFibreTx raw systemBlob)) <$> payForFibreMsg tx.
Proof.
  intros Hb Hd. destruct (DefaultTxDecoder_body raw tx Hd) as (body & anys & Hraw & Hbody & Hm).
  unfold TryParseFibreTx, payForFibreMsg. rewrite Hb, Hraw, Hbody.
  destruct Hm as [|[u v] msg anys msgs (Hu & Hv & Ht) Hm]; [done|]. cbn in Hu, Hv, Ht.
  destruct Hm as [|]; [|by repeat case_match]. destruct (String.eqb_spec u MsgPayForFibreTypeURL) as [E|E].
  - specialize (Ht E). destruct msg; try done. cbn. by rewrite (Hv _ eq_refl).
  - destruct msg; try done.
Qed.
End ClassifyFacts.
