(* ===== verification/DataAvailability.v ===== *)
(** * Data availability headers

    [pkg/da/data_availability_header.go]: extension of the shares of a square,
    the header with its memoized hash, and the construction of the extended
    square of a block for every application version. *)

From S2P Require Import Prelude Sdk GoSquare FibrePromise PayForBlob Messages.
Import Blob.
#[local] Open Scope Z_scope.

Module DA.

(** [appconsts.MinSquareSize] and the bounds on the width of a header. *)
Definition MinSquareSize : Z := 1.
Definition maxExtendedSquareWidth : Z := SquareSizeUpperBound * 2.
Definition minExtendedSquareWidth : Z := MinSquareSize * 2.

(** Constants of [appconsts/v5]. *)
Definition v5_SquareSizeUpperBound : Z := 128.
Definition v5_SubtreeRootThreshold : Z := 64.

(** [Construct] and [ToBytes] of versions 2 and 3 of go-square, and
    [square.Size] of version 4 on a number of shares. *)
Class OldSquares := {
  squarev2_Construct : list bytes → Z → Z → result (list bytes);
  squarev3_Construct : list bytes → Z → Z → result (list bytes);
  square_Size : Z → result Z;
  (** [squarev4.EmptySquare], as bytes. *)
  EmptySquare : list bytes;
  (** [types.ValidateHash] of CometBFT. *)
  ValidateHash : bytes → result unit;
}.

(** The header; [dah_hash] is the memoized result of [Hash], empty when it has
    not been computed. *)
Record DataAvailabilityHeader := mkDAH {
  RowRoots : list bytes;
  ColumnRoots : list bytes;
  dah_hash : bytes;
}.

Section DA.
Context `{EC : ErasureCoding}.

(** [copy(dst[lo:hi], src)] onto nil entries: the first entries of [src], padded
    with empty ones. *)
Definition copy_fit (n : nat) (src : list bytes) : list bytes :=
  take n src ++ replicate (n - length src) [].

(** [Hash] returns the hash and the header with the hash memoized; a nil header
    is [None]. *)
Definition Hash (dah : option DataAvailabilityHeader) : bytes * option DataAvailabilityHeader :=
  match dah with
  | None => (HashFromByteSlices [], None)
  | Some dah =>
      if negb (length (dah_hash dah) =? 0)%nat then (dah_hash dah, Some dah) else
      let rowsCount := length (RowRoots dah) in
      let slices := copy_fit rowsCount (RowRoots dah) ++ copy_fit rowsCount (ColumnRoots dah) in
      let h := HashFromByteSlices slices in
      (h, Some (mkDAH (RowRoots dah) (ColumnRoots dah) h))
  end.

Definition NewDataAvailabilityHeader (eds : EDS) : result DataAvailabilityHeader :=
  rowRoots ← eds_RowRoots eds;
  colRoots ← eds_ColRoots eds;
  let dah := mkDAH rowRoots colRoots [] in
  Ok (default dah (Hash (Some dah)).2).

Definition Equals (dah to : option DataAvailabilityHeader) : bool :=
  bool_decide ((Hash dah).1 = (Hash to).1).

Definition IsZero (dah : option DataAvailabilityHeader) : bool :=
  match dah with
  | None => true
  | Some dah => (length (ColumnRoots dah) =? 0)%nat || (length (RowRoots dah) =? 0)%nat
  end.

Definition SquareSize (dah : DataAvailabilityHeader) : Z := Z.of_nat (length (RowRoots dah)) / 2.

Context `{OS : OldSquares}.

Definition ValidateBasic_DAH (dah : option DataAvailabilityHeader) : result unit :=
  match dah with
  | None => Err "nil data availability header is not valid"
  | Some d =>
      let rows := Z.of_nat (length (RowRoots d)) in
      let cols := Z.of_nat (length (ColumnRoots d)) in
      _ ← ensure (negb ((cols <? minExtendedSquareWidth) || (rows <? minExtendedSquareWidth)))
            "minimum valid DataAvailabilityHeader";
      _ ← ensure (negb ((maxExtendedSquareWidth <? cols) || (maxExtendedSquareWidth <? rows)))
            "maximum valid DataAvailabilityHeader";
      _ ← ensure (cols =? rows) "unequal number of row and column roots";
      ValidateHash (Hash dah).1
  end.

(** The protobuf message carries the two lists of roots. *)
Definition DAH_ToProto (dah : option DataAvailabilityHeader) : result (list bytes * list bytes) :=
  match dah with
  | None => Err "nil DataAvailabilityHeader"
  | Some d => Ok (RowRoots d, ColumnRoots d)
  end.

(** [ValidateBasic] memoizes the hash in the header it returns. *)
Definition DataAvailabilityHeaderFromProto (dahp : option (list bytes * list bytes))
    : result DataAvailabilityHeader :=
  match dahp with
  | None => Err "nil DataAvailabilityHeader"
  | Some (rows, cols) =>
      let dah := mkDAH rows cols [] in
      _ ← ValidateBasic_DAH (Some dah);
      Ok (default dah (Hash (Some dah)).2)
  end.

Context `{SP : SharePackage}.

(** ** Extension *)

Definition ExtendShares (s : list bytes) : result EDS :=
  let n := Z.of_nat (length s) in
  _ ← ensure (IsPowerOfTwo n) "number of shares is not a power of 2";
  squareSize ← square_Size n;
  ComputeExtendedDataSquare s squareSize.

Definition ExtendSharesWithTreePool (s : list bytes) : result EDS :=
  _ ← ensure (IsPowerOfTwo (Z.of_nat (length s))) "number of shares is not a power of 2";
  ComputeExtendedDataSquareWithBuffer s.

Definition MinShares : list bytes := EmptySquare.

(** Both calls panic on an error. *)
Definition must {A} (r : result A) : result A := match r with Err e => Panic e | r => r end.

Definition MinDataAvailabilityHeader : result DataAvailabilityHeader :=
  eds ← must (ExtendShares MinShares);
  must (NewDataAvailabilityHeader eds).

Context `{TP : !TxPackage} `{TC : TxCodec} `{CR : Crypto} `{SQ : !SquarePackage}.

(** The switch on the application version, shared by the two constructors. *)
Definition construct_with (extend : list bytes → result EDS) (txs : list bytes) (appVersion maxSquareSize : Z)
    : result EDS :=
  if appVersion =? 0 then Err "app version cannot be 0"
  else if appVersion <=? 5 then
    let max := if maxSquareSize <? 0 then v5_SquareSizeUpperBound else maxSquareSize in
    square ← squarev2_Construct txs max v5_SubtreeRootThreshold;
    extend square
  else if appVersion <=? 7 then
    let max := if maxSquareSize <? 0 then SquareSizeUpperBound else maxSquareSize in
    square ← squarev3_Construct txs max SubtreeRootThreshold;
    extend square
  else
    let max := if maxSquareSize <? 0 then SquareSizeUpperBound else maxSquareSize in
    classifiedTxs ← ClassifyTxs txs;
    square ← Construct classifiedTxs max SubtreeRootThreshold;
    extend (Square_ToBytes square).

Definition ConstructEDS (txs : list bytes) (appVersion maxSquareSize : Z) : result EDS :=
  construct_with ExtendShares txs appVersion maxSquareSize.

Definition ConstructEDSWithTreePool (txs : list bytes) (appVersion maxSquareSize : Z) : result EDS :=
  construct_with ExtendSharesWithTreePool txs appVersion maxSquareSize.
End DA.

(** ** Facts *)

Section Facts.
Context `{EC : ErasureCoding} `{OS : OldSquares}.

Lemma copy_fit_full l : copy_fit (length l) l = l.
Proof. unfold copy_fit. rewrite take_ge, Nat.sub_diag by done. by rewrite app_nil_r. Qed.

(** The memoized header hashes to the same value as the fresh one. *)
Lemma Hash_memo dah : (Hash (Hash (Some dah)).2).1 = (Hash (Some dah)).1.
Proof.
  unfold Hash at 2 3. case_match eqn:E; [cbn; by rewrite E|]. cbn.
  by case_match.
Qed.

Lemma Hash_fresh rows cols : length cols = length rows →
  (Hash (Some (mkDAH rows cols []))).1 = HashFromByteSlices (rows ++ cols).
Proof.
  intros Hl. cbn [Hash dah_hash length Nat.eqb negb RowRoots ColumnRoots fst]. rewrite copy_fit_full, <- Hl. by rewrite copy_fit_full.
Qed.

(** What a header decoded from its protobuf message satisfies. *)
Lemma DAH_FromProto_Ok rows cols d :
  DataAvailabilityHeaderFromProto (Some (rows, cols)) = Ok d →
  RowRoots d = rows ∧ ColumnRoots d = cols ∧ length cols = length rows ∧
  minExtendedSquareWidth <= Z.of_nat (length rows) <= maxExtendedSquareWidth ∧
  (Hash (Some d)).1 = HashFromByteSlices (rows ++ cols).
Proof.
  unfold DataAvailabilityHeaderFromProto, ValidateBasic_DAH. intros H. inv_ok. clear Hr. subst d.
  cbn [RowRoots ColumnRoots] in *. apply Z.eqb_eq, Nat2Z.inj in Hr2.
  apply negb_true_iff, orb_false_iff in Hr0 as [_ Hmin%Z.ltb_ge].
  apply negb_true_iff, orb_false_iff in Hr1 as [_ Hmax%Z.ltb_ge].
  repeat split; try done. rewrite <- Hash_fresh by done.
  exact (Hash_memo (mkDAH rows cols [])).
Qed.

(** Decoding the encoding of a valid header gives back its roots. *)
Lemma FromProto_ToProto d p : ValidateBasic_DAH (Some (mkDAH (RowRoots d) (ColumnRoots d) [])) = Ok tt →
  DAH_ToProto (Some d) = Ok p →
  ∃ d', DataAvailabilityHeaderFromProto (Some p) = Ok d' ∧ RowRoots d' = RowRoots d ∧ ColumnRoots d' = ColumnRoots d.
Proof.
  intros Hv Hp. cbn in Hp. inv_ok. subst p. unfold DataAvailabilityHeaderFromProto. rewrite Hv. cbn.
  eexists. split; [reflexivity|]. done.
Qed.
End Facts.
End DA.
