(* ===== verification/Minfee.v ===== *)
(** * x/minfee: the network minimum gas price

    [x/minfee/keeper] and [x/minfee/types]: the parameter, its store, the
    handler that updates it, genesis and migration; and the fee check of
    [app/ante/fee.go] that enforces it. *)

From S2P Require Import Prelude Sdk LegacyDec.
#[local] Open Scope Z_scope.

Module Minfee.

(** The parameter, [nil] decimals aside. *)
Record Params := mkParams { p_NetworkMinGasPrice : dec }.

(** [appconsts.DefaultNetworkMinGasPrice] (0.000001) and
    [appconsts.DefaultMinGasPrice] (0.004). *)
Definition DefaultNetworkMinGasPrice : dec := dec_NewDecWithPrec 1 6.
Definition DefaultMinGasPrice_micro : Z := 4000.

Definition NewParams (networkMinGasPrice : dec) : Params := mkParams networkMinGasPrice.
Definition DefaultParams : Params := mkParams DefaultNetworkMinGasPrice.

Definition Params_Validate (p : Params) : result unit := Ok tt.

Record GenesisState := mkGenesisState { gs_NetworkMinGasPrice : dec; gs_Params : Params }.

Definition DefaultGenesis : GenesisState := mkGenesisState DefaultNetworkMinGasPrice DefaultParams.

Definition ValidateGenesis (genesis : GenesisState) : result unit :=
  _ ← ensure (negb ((gs_NetworkMinGasPrice genesis <? 0) || (gs_NetworkMinGasPrice genesis =? 0)))
        "network min gas price cannot be negative or zero";
  Params_Validate (gs_Params genesis).

(** The value of the legacy parameter may have any type. *)
Inductive any_param := ADec (d : dec) | AOther.
Definition validateMinGasPrice (i : any_param) : result unit :=
  match i with ADec _ => Ok tt | AOther => Err "invalid parameter type" end.
Definition ParamSetPairs (p : Params) : list (string * any_param * (any_param → result unit)) :=
  [("NetworkMinGasPrice", ADec (p_NetworkMinGasPrice p), validateMinGasPrice)].

(** ** The keeper *)

Record MsgUpdateMinfeeParams := mkMsgUpdateMinfeeParams { ump_Authority : bytes; ump_Params : Params }.
Record Event := EventUpdateMinfeeParams { ev_Signer : bytes; ev_Params : Params }.

(** The codec of the store and the legacy subspace. *)
Class ParamsCodec := {
  Params_Marshal : Params → bytes;
  Params_Unmarshal : bytes → result Params;
  subspace : Type;
  GetParamSet : subspace → result Params;
}.

(** The price is encoded as text, so an encoding is not empty. *)
Class ParamsCodecLaws `{ParamsCodec} := {
  Params_Unmarshal_Marshal p : Params_Unmarshal (Params_Marshal p) = Ok p;
  Params_Marshal_nonempty p : Params_Marshal p ≠ [];
}.

Section Keeper.
Context `{PC : ParamsCodec} `{EV : TypedEvents Event}.

Record World := mkWorld { w_params : option bytes; w_legacy : subspace; w_events : list Event }.

Definition GetParams (w : World) : result Params :=
  let bz := default [] (w_params w) in
  if (length bz =? 0)%nat then GetParamSet (w_legacy w)
  else match Params_Unmarshal bz with Err e => Panic e | r => r end.

Definition SetParams (w : World) (params : Params) : World :=
  mkWorld (Some (Params_Marshal params)) (w_legacy w) (w_events w).

Definition EmitTypedEvent (w : World) (e : Event) : result World :=
  match TypedEventError e with
  | Some err => Err err
  | None => Ok (mkWorld (w_params w) (w_legacy w) (w_events w ++ [e]))
  end.

Definition UpdateMinfeeParams (authority : bytes) (w : World) (msg : MsgUpdateMinfeeParams) : result World :=
  _ ← ensure (bool_decide (ump_Authority msg = authority)) "ErrUnauthorized";
  _ ← (match Params_Validate (ump_Params msg) with Err _ => Err "ErrInvalidRequest" | r => r end);
  EmitTypedEvent (SetParams w (ump_Params msg)) (EventUpdateMinfeeParams (ump_Authority msg) (ump_Params msg)).

Definition InitGenesis (w : World) (genState : GenesisState) : result World :=
  _ ← Params_Validate (gs_Params genState);
  Ok (SetParams w (gs_Params genState)).

Definition ExportGenesis (w : World) : result GenesisState :=
  params ← GetParams w;
  Ok (mkGenesisState (p_NetworkMinGasPrice params) params).

Definition MigrateParams (w : World) : result World :=
  params ← GetParamSet (w_legacy w);
  _ ← Params_Validate params;
  Ok (SetParams w (NewParams (p_NetworkMinGasPrice params))).

Definition NetworkMinGasPrice_query (w : World) : result dec :=
  params ← GetParams w; Ok (p_NetworkMinGasPrice params).

Definition Params_query (w : World) (req : option unit) : result Params :=
  match req with None => Err "invalid request" | Some _ => GetParams w end.
End Keeper.

(** ** The fee check *)

(** [Coins.AmountOf] of a fee and of a list of gas prices. *)
Class FeeOps := {
  coins_AmountOf : list Coin → string → Z;
  deccoins_AmountOf : list (string * dec) → string → dec;
}.

Definition priorityScalingFactor : Z := 1000000.
Definition BondDenom : string := "utia".

Definition IsInt64 (z : Z) : bool := bool_decide (i64 z).
#[global] Instance i64_dec z : Decision (i64 z).
Proof. unfold i64. apply _. Defined.

Section Fee.
Context `{DO : DecOps} `{FO : FeeOps}.

Definition verifyMinFee (fee gas : Z) (minGasPrice : dec) (errMsg : error) : result unit :=
  let minFee := dec_Ceil (dec_MulInt minGasPrice gas) in
  if fee <? dec_TruncateInt minFee then Err errMsg else Ok tt.

(** [c.Amount.Mul(...).QuoRaw(gas)] panics when [gas] is zero and truncates. *)
Fixpoint getTxPriority_loop (fee : list Coin) (gas priority : Z) : result Z :=
  match fee with
  | [] => Ok priority
  | c :: fee' =>
      if gas =? 0 then Panic "division by zero" else
      let p := Z.quot (Amount c * priorityScalingFactor) gas in
      if negb (IsInt64 p) then getTxPriority_loop fee' gas priority
      else getTxPriority_loop fee' gas (if (priority =? 0) || (p <? priority) then p else priority)
  end.

Definition getTxPriority (fee : list Coin) (gas : Z) : result Z := getTxPriority_loop fee gas 0.

(** The arguments are the mode of the context, the node's minimum gas prices,
    the fee and gas of the transaction (when it is an [sdk.FeeTx]) and the
    network minimum gas price. The result is the fee and the priority; the
    sample sent to telemetry converts the fee with [Int64], which panics when it
    does not fit. *)
Definition ValidateTxFee (isCheckTx : bool) (minGasPrices : list (string * dec))
    (feeTx : option (list Coin * Z)) (networkMinGasPrice : result dec) : result (list Coin * Z) :=
  match feeTx with
  | None => Err "Tx must be a FeeTx"
  | Some (fees, gas) =>
      let fee := coins_AmountOf fees BondDenom in
      _ ← (if isCheckTx then
             let minGasPrice := if (0 <? length minGasPrices)%nat
                                then deccoins_AmountOf minGasPrices BondDenom
                                else dec_NewDecWithPrec DefaultMinGasPrice_micro 6 in
             if minGasPrice =? 0 then Ok tt
             else verifyMinFee fee gas minGasPrice "insufficient minimum gas price for this node"
           else Ok tt);
      price ← networkMinGasPrice;
      _ ← verifyMinFee fee gas price "insufficient gas price for the network";
      priority ← getTxPriority fees (wrap_i64 gas);
      if IsInt64 fee then Ok (fees, priority) else Panic "Int64() out of bound"
  end.
End Fee.

(** ** Facts *)

Section Facts.
Context `{DO : DecOps} `{FO : FeeOps} `{DL : !DecLaws}.

(** The required fee is the price of the gas rounded up to a whole unit. *)
Lemma verifyMinFee_Ok fee gas price e : 0 <= gas → 0 <= price →
  verifyMinFee fee gas price e = Ok tt ↔ price * gas <= fee * precision.
Proof.
  intros Hg Hp. unfold verifyMinFee, dec_MulInt.
  destruct (dec_Ceil_spec (price * gas)) as (n & Hn & Hlo & Hhi). rewrite Hn.
  assert (0 < precision) as Hpp by done. assert (0 <= n) by nia.
  rewrite dec_TruncateInt_spec, Z.div_mul by nia.
  destruct (Z.ltb_spec fee n); split; [done| |intros _; nia|done].
  intros Hf. exfalso. nia.
Qed.

Lemma priority_loop_bounds fees gas acc r : 0 < gas → 0 <= acc →
  Forall (λ c, 0 <= Amount c) fees → getTxPriority_loop fees gas acc = Ok r → 0 <= r.
Proof.
  intros Hg Ha Hf. revert acc Ha. induction Hf as [|c fees Hc Hf IH]; intros acc Ha; cbn; [by intros [= <-]|].
  rewrite (proj2 (Z.eqb_neq gas 0)) by lia. case_match; [by apply IH|]. apply IH. case_match; [|done].
  apply Z.quot_pos; [unfold priorityScalingFactor; lia|done].
Qed.

Lemma priority_total fees gas acc : gas ≠ 0 → ∃ r, getTxPriority_loop fees gas acc = Ok r.
Proof.
  intros Hg. revert acc. induction fees as [|c fees IH]; intros acc; cbn; [eauto|].
  rewrite (proj2 (Z.eqb_neq gas 0)) by done. by case_match.
Qed.
End Facts.

Section KeeperFacts.
Context `{PC : ParamsCodec} `{EV : TypedEvents Event} `{PCL : !ParamsCodecLaws}.

Lemma minfee_GetParams_SetParams w p : GetParams (SetParams w p) = Ok p.
Proof.
  unfold GetParams, SetParams; cbn.
  destruct (Nat.eqb_spec (length (Params_Marshal p)) 0) as [He%nil_length_inv|].
  - by apply Params_Marshal_nonempty in He.
  - by rewrite Params_Unmarshal_Marshal.
Qed.

(** The price after an update is the one of the message. *)
Lemma UpdateMinfeeParams_Ok authority w msg w' : UpdateMinfeeParams authority w msg = Ok w' →
  ump_Authority msg = authority ∧ GetParams w' = Ok (ump_Params msg).
Proof.
  unfold UpdateMinfeeParams, EmitTypedEvent. intros Hu. inv_ok. apply bool_decide_eq_true in Hr.
  split; [done|]. case_match; inv_ok. subst w'. exact (minfee_GetParams_SetParams w (ump_Params msg)).
Qed.

(** A state exports a genesis that is valid exactly when the price is positive. *)
Lemma export_valid w p : GetParams w = Ok p →
  ∃ gs, ExportGenesis w = Ok gs ∧ (ValidateGenesis gs = Ok tt ↔ 0 < p_NetworkMinGasPrice p).
Proof.
  intros Hp. unfold ExportGenesis. rewrite Hp. cbn. eexists. split; [done|].
  unfold ValidateGenesis, Params_Validate; cbn. unfold ensure.
  destruct (Z.ltb_spec (p_NetworkMinGasPrice p) 0), (Z.eqb_spec (p_NetworkMinGasPrice p) 0); cbn;
    split; intros; try done; lia.
Qed.
End KeeperFacts.
End Minfee.
