(* ===== verification/Ante.v ===== *)
(** * The ante handler

    [app/ante], [x/blob/ante] and [x/fibre/ante]: the decorators of this
    repository, the governance parameter filters of [app/param_filters.go], and
    the chain [NewAnteHandler] builds from them and the decorators of the SDK. *)

From S2P Require Import Prelude Sdk LegacyDec GoSquare FibreParams FibrePromise PayForBlob Messages Minfee.
From Stdlib Require Import Ascii.
Import Blob.
#[local] Open Scope Z_scope.

(** Validate the messages an unpacked container holds, in order. *)
Definition each_some (f : Msg → result unit) : list (option Msg) → result unit :=
  fix go l :=
    match l with
    | [] => Ok tt
    | Some m :: l' => _ ← f m; go l'
    | None :: l' => go l'
    end.

(** ** Nested messages: [app/ante/nested_msg.go] *)

Definition rejectWrapped (msgs : list Msg) : result unit :=
  each (λ msg,
    match msg with
    | MPayForBlobs _ => Err "MsgPayForBlobs inside a container is not supported"
    | MPayForFibre _ => Err "MsgPayForFibre inside a container is not supported"
    | MExec _ _ => Err "MsgExec inside a container is not supported"
    | MSubmitProposal _ _ => Err "MsgSubmitProposal inside a container is not supported"
    | _ => Ok tt
    end) msgs.

Definition checkNested (tx : Tx) : result unit :=
  each (λ msg,
    match msg with
    | MExec _ anys | MSubmitProposal _ anys => nested ← unpack anys; rejectWrapped nested
    | _ => Ok tt
    end) (tx_Msgs tx).

(** ** Parameter filters: [app/ante/params.go] and [app/param_filters.go] *)

Definition ParamFilter := Msg → result unit.

Definition bankParamFilter : ParamFilter := λ msg,
  match msg with
  | MBankUpdateParams sendEnabled defaultSendEnabled =>
      ensure (negb ((0 <? length sendEnabled)%nat || negb defaultSendEnabled))
        "modification of SendEnabled is not allowed"
  | _ => Err "ErrInvalidType"
  end.

Definition UnbondingTime : Z := 337 * Hour.

Definition stakingParamFilter : ParamFilter := λ msg,
  match msg with
  | MStakingUpdateParams bondDenom unbondingTime =>
      _ ← ensure (String.eqb bondDenom FibreParams.BondDenom) "invalid bond denom";
      ensure (unbondingTime =? UnbondingTime) "invalid unbonding time"
  | _ => Err "ErrInvalidType"
  end.

Definition MaxAgeDuration : Z := 337 * Hour.
Definition MaxAgeNumBlocks : Z := 404400.

(** CometBFT's default consensus parameters, and [ToProtoConsensusParams] of
    the SDK, which fails when a part is absent. *)
Class ConsensusDefaults := {
  DefaultValidatorParams : list string;
  DefaultEvidenceMaxBytes : Z;
  ToProtoConsensusParams : ConsensusUpdate → result (EvidenceParams * list string);
}.

Class ConsensusLaws `{ConsensusDefaults} := {
  ToProtoConsensusParams_Ok u ev val : ToProtoConsensusParams u = Ok (ev, val) →
    cu_Evidence u = Some ev ∧ cu_Validator u = Some val;
}.

Section Filters.
Context `{CD : ConsensusDefaults}.

Definition EvidenceParams_app : EvidenceParams :=
  mkEvidenceParams MaxAgeNumBlocks MaxAgeDuration DefaultEvidenceMaxBytes.

Definition consensusParamFilter : ParamFilter := λ msg,
  match msg with
  | MConsensusUpdateParams update =>
      updateParams ← ToProtoConsensusParams update;
      let '(evidence, validator) := updateParams in
      _ ← ensure (bool_decide (validator = DefaultValidatorParams)) "invalid validator parameters";
      ensure (bool_decide (evidence = EvidenceParams_app)) "invalid evidence parameters"
  | _ => Err "ErrInvalidType"
  end.

(** The map from type URLs to filters. *)
Definition GovParamFilters (url : string) : option ParamFilter :=
  if String.eqb url "/cosmos.bank.v1beta1.MsgUpdateParams" then Some bankParamFilter
  else if String.eqb url "/cosmos.staking.v1beta1.MsgUpdateParams" then Some stakingParamFilter
  else if String.eqb url "/cosmos.consensus.v1.MsgUpdateParams" then Some consensusParamFilter
  else None.
End Filters.

Section ParamFilters.
Context (paramFilters : string → option ParamFilter).

(** The body of the loop of [validateMsgs] for one message. A container's
    messages are unpacked first, must not be empty, and are validated in turn. *)
Fixpoint validateMsg (msg : Msg) : result unit :=
  match msg with
  | MExec _ anys | MSubmitProposal _ anys =>
      _ ← unpack anys;
      _ ← ensure (negb (length anys =? 0)%nat) "must include at least one message";
      each_some validateMsg anys
  | _ =>
      match paramFilters (MsgTypeURL msg) with
      | Some paramFilter => paramFilter msg
      | None => Ok tt
      end
  end.

Definition validateMsgs (msgs : list Msg) : result unit :=
  _ ← ensure (negb (length msgs =? 0)%nat) "must include at least one message";
  each validateMsg msgs.

Definition checkParams (tx : Tx) : result unit :=
  each (λ m,
    match m with
    | MExec _ anys | MSubmitProposal _ anys => msgs ← unpack anys; validateMsgs msgs
    | _ => Ok tt
    end) (tx_Msgs tx).
End ParamFilters.

(** ** Gas and size of blobs: [x/blob/ante] *)

Section BlobAnte.
Context `{SP : SharePackage}.

Definition validateEnoughGas (msg : MsgPayForBlobs) (gasPerByte txGas : Z) : result unit :=
  gasToConsume ← Gas msg gasPerByte;
  ensure (gasToConsume <=? txGas) "not enough gas to pay for blobs".

(** The loop of [validatePFBHasEnoughGas] for one message, over the nested
    messages of an [authz.MsgExec] too. *)
Fixpoint msgHasEnoughGas (gasPerByte txGas : Z) (m : Msg) : result unit :=
  match m with
  | MExec _ anys =>
      _ ← unpack anys;
      each_some (msgHasEnoughGas gasPerByte txGas) anys
  | MPayForBlobs pfb => validateEnoughGas pfb gasPerByte txGas
  | _ => Ok tt
  end.

Definition validatePFBHasEnoughGas (msgs : list Msg) (gasPerByte txGas : Z) : result unit :=
  each (msgHasEnoughGas gasPerByte txGas) msgs.

(** The sum over the blobs in [int], a 64-bit integer. *)
Fixpoint sharesNeeded_loop (i : nat) (sizes versions : list Z) (sum : Z) : result Z :=
  match sizes with
  | [] => Ok sum
  | blobSize :: sizes' =>
      shareVersion ← index versions i;
      let containsSigner := shareVersion =? ShareVersionOne in
      sharesNeeded_loop (S i) sizes' versions (wrap_i64 (sum + SparseSharesNeeded blobSize containsSigner))
  end.

Definition getSharesNeeded (txSize : Z) (msg : MsgPayForBlobs) : result Z :=
  sharesNeeded_loop 0 (pfb_BlobSizes msg) (pfb_ShareVersions msg) (CompactSharesNeeded txSize).

Fixpoint msgFits (txSize maxBlobShares : Z) (m : Msg) : result unit :=
  match m with
  | MExec _ anys =>
      _ ← unpack anys;
      each_some (msgFits txSize maxBlobShares) anys
  | MPayForBlobs pfb =>
      sharesNeeded ← getSharesNeeded txSize pfb;
      ensure (sharesNeeded <=? maxBlobShares) "ErrBlobsTooLarge"
  | _ => Ok tt
  end.

Definition BlobShare_validateMsgs (msgs : list Msg) (txSize maxBlobShares : Z) : result unit :=
  each (msgFits txSize maxBlobShares) msgs.

Definition getMaxBlobShares (squareSize : Z) : Z := wrap_i64 (squareSize * squareSize).
End BlobAnte.

(** The text of a message in the format [%T{%s}]: its Go type and the
    [String] method of its generated type. *)
Class MsgFormat := { Sprintf_TS : Msg → string }.

(** ** Handlers and decorators

    A handler runs on the state (the store and the node's cache of verified
    pay-for-fibre transactions) and on a context. A handler that fails has
    still written to the state. *)

Section Handlers.
Context `{GM : GasMeterOps} {store : Type}.

Record AState := mkAState { a_store : store; a_pffSigCache : gset bytes }.

(** The fields of [sdk.Context] the handlers read; the gas meter is the current
    state of the meter the context points to. *)
Record Ctx := mkCtx {
  c_block : Context;
  c_IsCheckTx : bool;
  c_IsReCheckTx : bool;
  c_TxBytes : bytes;
  c_MinGasPrices : list (string * Z);
  c_GasMeter : GasMeter;
}.

Definition WithGasMeter (ctx : Ctx) (gm : GasMeter) : Ctx :=
  mkCtx (c_block ctx) (c_IsCheckTx ctx) (c_IsReCheckTx ctx) (c_TxBytes ctx) (c_MinGasPrices ctx) gm.
Definition WithTxBytes (ctx : Ctx) (b : bytes) : Ctx :=
  mkCtx (c_block ctx) (c_IsCheckTx ctx) (c_IsReCheckTx ctx) b (c_MinGasPrices ctx) (c_GasMeter ctx).

(** The outcome: the context, the context and an error, or a panic. *)
Inductive AnteResult :=
| Continue (ctx : Ctx)
| Fail (ctx : Ctx) (e : error)
| Boom (why : error).

Definition AnteHandler : Type := AState → Ctx → Tx → bool → AState * AnteResult.
Definition Decorator : Type := AnteHandler → AnteHandler.

(** [sdk.ChainAnteDecorators]. *)
Definition ChainAnteDecorators (ds : list Decorator) : AnteHandler :=
  foldr (λ d next, d next) (λ st ctx _ _, (st, Continue ctx)) ds.

(** A check without effects before [next]. *)
Definition guard (check : AState → Ctx → Tx → result unit) : Decorator := λ next st ctx tx simulate,
  match check st ctx tx with
  | Ok _ => next st ctx tx simulate
  | Err e => (st, Fail ctx e)
  | Panic p => (st, Boom p)
  end.

(** Charging gas before [next]. *)
Definition charge (gas : Z) : Decorator := λ next st ctx tx simulate,
  match ConsumeGas (c_GasMeter ctx) gas with
  | Ok gm => next st (WithGasMeter ctx gm) tx simulate
  | Err e => (st, Fail ctx e)
  | Panic p => (st, Boom p)
  end.

(** *** [app/ante/panic.go] *)

Definition newline : string := String.String (ascii_of_nat 10) EmptyString.

Definition FormatTx `{MsgFormat} (tx : Tx) : string :=
  newline +:+ "caused by transaction:" +:+ newline
  +:+ String.concat EmptyString (map (λ msg, Sprintf_TS msg +:+ newline) (tx_Msgs tx)).

(** The panic is recovered and raised again with the transaction's text. *)
Definition HandlePanicDecorator `{MsgFormat} : Decorator := λ next st ctx tx simulate,
  match next st ctx tx simulate with
  | (st', Boom r) => (st', Boom (r +:+ FormatTx tx))
  | res => res
  end.

(** *** [app/ante/nested_msg.go] and [app/ante/params.go] *)

Definition NestedMsgDecorator : Decorator := guard (λ _ _ tx, checkNested tx).

Definition ParamFilterDecorator (paramFilters : string → option ParamFilter) : Decorator :=
  guard (λ _ _ tx, checkParams paramFilters tx).

(** *** [x/fibre/ante/ante.go] *)

Definition payForFibreMessage (tx : Tx) : option MsgPayForFibre := payForFibreMsg tx.

Definition FibreSignatureGasDecorator : Decorator := λ next st ctx tx simulate,
  match payForFibreMessage tx with
  | Some msg =>
      charge (EstimateGasForPayForFibreSignatureVerification
                (Z.of_nat (length (pff_ValidatorSignatures msg)))) next st ctx tx simulate
  | None => next st ctx tx simulate
  end.

(** [app/pff_sig_cache.go]: the cache holds hashes of transactions. *)
Section SigCache.
Context `{CR : Crypto}.
Definition pffSigCacheKey (tx : bytes) : bytes := sha256 tx.
Definition IsCached (c : gset bytes) (tx : bytes) : bool := bool_decide (pffSigCacheKey tx ∈ c).
Definition Cache (c : gset bytes) (tx : bytes) : gset bytes := {[pffSigCacheKey tx]} ∪ c.
Definition Delete (c : gset bytes) (tx : bytes) : gset bytes := c ∖ {[pffSigCacheKey tx]}.

(** The keeper's check runs with an infinite gas meter, so it does not change
    the context's. *)
Definition FibreSignatureVerificationDecorator
    (ValidatePayForFibreSignatures : store → Ctx → MsgPayForFibre → result unit) : Decorator :=
  λ next st ctx tx simulate,
    match payForFibreMessage tx with
    | None => next st ctx tx simulate
    | Some msg =>
        if simulate then next st ctx tx simulate else
        let rawTx := c_TxBytes ctx in
        if (0 <? length rawTx)%nat && IsCached (a_pffSigCache st) rawTx then next st ctx tx simulate else
        match ValidatePayForFibreSignatures (a_store st) ctx msg with
        | Err e => (st, Fail ctx e)
        | Panic p => (st, Boom p)
        | Ok _ =>
            let st' := if (0 <? length rawTx)%nat
                       then mkAState (a_store st) (Cache (a_pffSigCache st) rawTx) else st in
            next st' ctx tx simulate
        end
    end.
End SigCache.

(** *** [x/blob/ante] *)

Section BlobDecorators.
Context `{SP : SharePackage} `{PC : !ParamsCodec}.
Context (blob_of : store → Blob.World).

Definition MinGasPFBDecorator : Decorator := λ next st ctx tx simulate,
  if c_IsReCheckTx ctx then next st ctx tx simulate
  else if ctx_BlockHeight (c_block ctx) =? 0 then next st ctx tx simulate
  else guard (λ _ ctx tx, validatePFBHasEnoughGas (tx_Msgs tx) GasPerBlobByte (GasRemaining (c_GasMeter ctx)))
         next st ctx tx simulate.

Definition BlobShareDecorator : Decorator := λ next st ctx tx simulate,
  if negb (c_IsCheckTx ctx) then next st ctx tx simulate
  else guard (λ st ctx tx,
         let size := Z.of_nat (length (c_TxBytes ctx)) in
         _ ← ensure (size <? two32) "ErrBlobsTooLarge";
         squareSize ← MaxEffectiveSquareSize (ctx_ChainID (c_block ctx)) (blob_of (a_store st));
         BlobShare_validateMsgs (tx_Msgs tx) (wrap_u32 size) (getMaxBlobShares squareSize)) next st ctx tx simulate.
End BlobDecorators.

(** *** [app/ante/tx_size_gas.go] *)

(** The recursion is on the data inside the option. *)
Fixpoint incomplete_data (data : SignatureData) : bool :=
  match data with
  | SingleSignatureData sig => (length sig =? 0)%nat
  | MultiSignatureData sigs =>
      (length sigs =? 0)%nat
      || existsb (λ o, match o with None => true | Some d => incomplete_data d end) sigs
  end.

Definition isIncompleteSignature (data : option SignatureData) : bool :=
  match data with None => true | Some d => incomplete_data d end.

(** The length of a simulated signature under a public key, encoded with
    amino, and the signature limit of the auth module are parameters. *)
Section TxSize.
Context (StdSignatureSize : PubKey → Z) (TxSigLimit : store → Z) (simSecp256k1Pubkey : PubKey).

Definition simulated_size (st : store) (sig : SignatureV2) : Z :=
  let pubkey := default simSecp256k1Pubkey (sig_PubKey sig) in
  let txBytes := wrap_u64 (StdSignatureSize pubkey + 6) in
  if pk_IsMultisig pubkey then wrap_u64 (txBytes * TxSigLimit st) else txBytes.

(** Gas for each signature that is not filled in yet. *)
Fixpoint charge_signatures (sigs : list SignatureV2) (st : store) (gm : GasMeter) : result GasMeter :=
  match sigs with
  | [] => Ok gm
  | sig :: sigs' =>
      if isIncompleteSignature (sig_Data sig) then
        gm' ← ConsumeGas gm (wrap_u64 (TxSizeCostPerByte * simulated_size st sig));
        charge_signatures sigs' st gm'
      else charge_signatures sigs' st gm
  end.

Definition ConsumeTxSizeGasDecorator : Decorator := λ next st ctx tx simulate,
  match tx_SigTx tx with
  | None => (st, Fail ctx "invalid tx type")
  | Some getSignaturesV2 =>
      charge (wrap_u64 (TxSizeCostPerByte * Z.of_nat (length (c_TxBytes ctx))))
        (λ st ctx tx simulate,
           if (simulate : bool) then
             match (sigs ← getSignaturesV2; charge_signatures sigs (a_store st) (c_GasMeter ctx)) with
             | Ok gm => next st (WithGasMeter ctx gm) tx simulate
             | Err e => (st, Fail ctx e)
             | Panic p => (st, Boom p)
             end
           else next st ctx tx simulate) st ctx tx simulate
  end.
End TxSize.
End Handlers.

Arguments AState : clear implicits.
Arguments Ctx {_}.
Arguments AnteResult {_}.
Arguments AnteHandler {_} _.
Arguments Decorator {_} _.

(** ** The chain [NewAnteHandler] *)

(** The decorators of the SDK, the circuit breaker and IBC. *)
Class SdkDecorators `{GasMeterOps} (store : Type) := {
  SetUpContextDecorator : Decorator store;
  CircuitBreakerDecorator : Decorator store;
  ExtensionOptionsDecorator : Decorator store;
  ValidateBasicDecorator : Decorator store;
  TxTimeoutHeightDecorator : Decorator store;
  ValidateMemoDecorator : Decorator store;
  DeductFeeDecorator : (AState store → Ctx → Tx → result (list Coin * Z)) → Decorator store;
  SetPubKeyDecorator : Decorator store;
  ValidateSigCountDecorator : Decorator store;
  SigGasConsumeDecorator : Decorator store;
  SigVerificationDecorator : Decorator store;
  IncrementSequenceDecorator : Decorator store;
  RedundantRelayDecorator : Decorator store;
}.

Section NewAnteHandler.
Context `{GM : GasMeterOps} {store : Type} `{SD : !SdkDecorators store} `{MF : MsgFormat}.
Context `{SP : SharePackage} `{PC : !ParamsCodec} `{MPC : !Minfee.ParamsCodec} `{CR : Crypto}.
Context `{DO : DecOps} `{FO : Minfee.FeeOps}.
Context (blob_of : store → Blob.World) (minfee_of : store → Minfee.World).
Context (ValidatePayForFibreSignatures : store → Ctx → MsgPayForFibre → result unit).
Context (StdSignatureSize : PubKey → Z) (TxSigLimit : store → Z) (simSecp256k1Pubkey : PubKey).

(** The fee checker passed to the SDK's fee decorator. *)
Definition ValidateTxFeeWrapper (st : AState store) (ctx : Ctx) (tx : Tx) : result (list Coin * Z) :=
  Minfee.ValidateTxFee (c_IsCheckTx ctx) (c_MinGasPrices ctx) (tx_FeeTx tx)
    (params ← Minfee.GetParams (minfee_of (a_store st)); Ok (Minfee.p_NetworkMinGasPrice params)).

Definition ante_decorators (paramFilters : string → option ParamFilter) : list (Decorator store) :=
  [ HandlePanicDecorator;
    SetUpContextDecorator;
    CircuitBreakerDecorator;
    ExtensionOptionsDecorator;
    ValidateBasicDecorator;
    TxTimeoutHeightDecorator;
    ValidateMemoDecorator;
    ConsumeTxSizeGasDecorator StdSignatureSize TxSigLimit simSecp256k1Pubkey;
    DeductFeeDecorator ValidateTxFeeWrapper;
    SetPubKeyDecorator;
    ValidateSigCountDecorator;
    SigGasConsumeDecorator;
    SigVerificationDecorator;
    NestedMsgDecorator;
    FibreSignatureGasDecorator;
    MinGasPFBDecorator;
    BlobShareDecorator blob_of;
    FibreSignatureVerificationDecorator ValidatePayForFibreSignatures;
    ParamFilterDecorator paramFilters;
    IncrementSequenceDecorator;
    RedundantRelayDecorator ].

Definition NewAnteHandler (paramFilters : string → option ParamFilter) : AnteHandler store :=
  ChainAnteDecorators (ante_decorators paramFilters).
End NewAnteHandler.
