(* ===== verification/AnteProofs.v ===== *)
(** * What the ante handler guarantees

    Lemmas on the decorators and on the chain: messages inside containers, the
    parameter filters, gas and size of blobs, and the cache of verified
    pay-for-fibre transactions. *)

From S2P Require Import Prelude Sdk LegacyDec GoSquare FibreParams FibrePromise PayForBlob Messages Minfee Ante.
Import Blob.
#[local] Open Scope Z_scope.

(** ** Messages inside containers *)

(** The messages a container holds directly. *)
Definition children (m : Msg) : list (option Msg) :=
  match m with MExec _ l | MSubmitProposal _ l => l | _ => [] end.

(** [m] occurs in [top] at some depth of nesting. *)
Inductive inside (m : Msg) : Msg → Prop :=
| inside_here top : Some m ∈ children top → inside m top
| inside_deeper c top : inside m c → Some c ∈ children top → inside m top.

(** Messages that may be wrapped. *)
Definition wrappable (m : Msg) : Prop :=
  match m with
  | MPayForBlobs _ | MPayForFibre _ | MExec _ _ | MSubmitProposal _ _ => False
  | _ => True
  end.

Lemma unpack_Ok anys msgs : unpack anys = Ok msgs ↔ anys = map Some msgs.
Proof.
  unfold unpack. rewrite of_option_Ok. revert msgs. induction anys as [|o anys IH]; intros msgs; cbn.
  { split; [by intros [= <-]|]. destruct msgs; [done|]. by intros [=]. }
  destruct o as [m|]; cbn; [|split; [done|by destruct msgs]]. split.
  - intros H. apply bind_Some in H as (l & Hl & [= <-]). apply IH in Hl as ->. done.
  - destruct msgs as [|m' msgs]; [done|]. intros [= -> ->]. by rewrite (proj2 (IH msgs) eq_refl).
Qed.

Lemma each_some_Ok f anys : each_some f anys = Ok tt ↔ ∀ m, Some m ∈ anys → f m = Ok tt.
Proof.
  induction anys as [|o anys IH]; cbn; [split; [intros _ m Hm; by apply not_elem_of_nil in Hm|done]|].
  assert (∀ g : Msg → Prop, (∀ m, Some m ∈ o :: anys → g m) ↔ (∀ m, o = Some m → g m) ∧ ∀ m, Some m ∈ anys → g m) as Hc.
  { intros g. setoid_rewrite elem_of_cons. naive_solver. }
  rewrite Hc, <- IH. destruct o as [m|].
  - rewrite bind_Ok. split.
    + intros ([] & Hm & Hl). split; [by intros m' [= <-]|done].
    + intros [Hm Hl]. exists tt. auto.
  - naive_solver.
Qed.

Lemma checkNested_sound tx top m :
  checkNested tx = Ok tt → top ∈ tx_Msgs tx → inside m top → wrappable m.
Proof.
  unfold checkNested. intros H Ht Hin. apply each_Ok in H. rewrite Forall_forall in H. specialize (H top Ht).
  assert (∀ c, Some c ∈ children top → wrappable c) as Hc.
  { intros c Hc. assert (∃ nested, unpack (children top) = Ok nested ∧ rejectWrapped nested = Ok tt) as (nested & Hu & Hr).
    { destruct top; cbn in Hc |- *; try (by apply not_elem_of_nil in Hc); inv_ok; eauto. }
    apply unpack_Ok in Hu. rewrite Hu in Hc. apply list_elem_of_fmap in Hc as (c' & [= <-] & Hc).
    unfold rejectWrapped in Hr. apply each_Ok in Hr. rewrite Forall_forall in Hr. specialize (Hr c Hc).
    by destruct c. }
  destruct Hin as [top Hm|c top Hm Hct]; [by apply Hc|].
  apply Hc in Hct. assert (∃ x, Some x ∈ children c) as [x Hx] by (destruct Hm; eauto).
  destruct c; try done; by apply not_elem_of_nil in Hx.
Qed.

Section Params.
Context (paramFilters : string → option ParamFilter).

Lemma validateMsg_children m c :
  validateMsg paramFilters m = Ok tt → Some c ∈ children m → validateMsg paramFilters c = Ok tt.
Proof.
  intros H Hc. destruct m; cbn in Hc; try (by apply not_elem_of_nil in Hc); cbn in H; inv_ok;
    by eapply each_some_Ok in H.
Qed.

Lemma validateMsg_inside m top :
  inside m top → validateMsg paramFilters top = Ok tt → validateMsg paramFilters m = Ok tt.
Proof. induction 1; eauto using validateMsg_children. Qed.

(** A filter applies to every message inside a container, at any depth. *)
Lemma checkParams_sound tx top m f :
  checkParams paramFilters tx = Ok tt → top ∈ tx_Msgs tx → inside m top →
  wrappable m → paramFilters (MsgTypeURL m) = Some f → f m = Ok tt.
Proof.
  unfold checkParams. intros H Ht Hin Hw Hf. apply each_Ok in H. rewrite Forall_forall in H. specialize (H top Ht).
  assert (∀ c, Some c ∈ children top → validateMsg paramFilters c = Ok tt) as Hc.
  { intros c Hc. assert (∃ msgs, unpack (children top) = Ok msgs ∧ validateMsgs paramFilters msgs = Ok tt) as (msgs & Hu & Hv).
    { destruct top; cbn in Hc |- *; try (by apply not_elem_of_nil in Hc); inv_ok; eauto. }
    apply unpack_Ok in Hu. rewrite Hu in Hc. apply list_elem_of_fmap in Hc as (c' & [= <-] & Hc).
    unfold validateMsgs in Hv. inv_ok. apply each_Ok in Hv. rewrite Forall_forall in Hv. auto. }
  assert (validateMsg paramFilters m = Ok tt) as Hm.
  { destruct Hin as [top Hm|c top Hm Hct]; [by apply Hc|]. eapply validateMsg_inside; eauto. }
  destruct m; try done; cbn in Hm; cbn in Hf; by rewrite Hf in Hm.
Qed.

(** Containers hold at least one message, at any depth. *)
Lemma validateMsg_nonempty m : validateMsg paramFilters m = Ok tt →
  match m with MExec _ l | MSubmitProposal _ l => l ≠ [] | _ => True end.
Proof. intros H. destruct m; try done; cbn in H; inv_ok; by destruct msgs. Qed.
End Params.

(** ** Gas of blobs *)

Section Gas.
Context `{SP : SharePackage}.

Lemma enough_gas msgs gasPerByte txGas pfb :
  validatePFBHasEnoughGas msgs gasPerByte txGas = Ok tt → MPayForBlobs pfb ∈ msgs →
  ∃ g, GasToConsume pfb gasPerByte = Ok g ∧ g <= txGas.
Proof.
  unfold validatePFBHasEnoughGas. intros H Hm. apply each_Ok in H. rewrite Forall_forall in H. specialize (H _ Hm).
  cbn in H. unfold validateEnoughGas, Gas in H. inv_ok. apply Z.leb_le in H. eauto.
Qed.

Lemma fits_square msgs txSize maxBlobShares pfb :
  BlobShare_validateMsgs msgs txSize maxBlobShares = Ok tt → MPayForBlobs pfb ∈ msgs →
  ∃ n, getSharesNeeded txSize pfb = Ok n ∧ n <= maxBlobShares.
Proof.
  unfold BlobShare_validateMsgs. intros H Hm. apply each_Ok in H. rewrite Forall_forall in H. specialize (H _ Hm).
  cbn in H. inv_ok. apply Z.leb_le in H. eauto.
Qed.

Context `{SL : !ShareLaws}.

Lemma sharesNeeded_exact sizes versions i acc :
  Forall u32 sizes → length sizes = length (drop i versions) → 0 <= acc →
  acc + two32 * Z.of_nat (length sizes) < two63 →
  sharesNeeded_loop i sizes versions acc =
    Ok (acc + zsum (zip_with (λ size v, SparseSharesNeeded size (v =? ShareVersionOne)) sizes (drop i versions))).
Proof.
  intros Hs. revert i acc. induction Hs as [|size sizes Hsz Hs IH]; intros i acc Hl Ha Hb; cbn [sharesNeeded_loop].
  { cbn. f_equal. lia. }
  destruct (drop i versions) as [|v rest] eqn:Hd; [done|]. cbn [zip_with length] in *. rewrite zsum_cons.
  assert (versions !! i = Some v) as Hv by (rewrite <- (Nat.add_0_r i), <- lookup_drop, Hd; done).
  unfold index. rewrite Hv. cbn. pose proof (SparseSharesNeeded_bounds size (v =? ShareVersionOne) Hsz).
  assert (drop (S i) versions = rest) as Hd'.
  { replace (S i) with (i + 1)%nat by lia. rewrite <- drop_drop, Hd. done. }
  rewrite wrap_i64_id by fits. rewrite IH; rewrite ?Hd'; try lia; try fits. f_equal. lia.
Qed.
End Gas.

(** ** The chain *)

Section Chain.
Context `{GM : GasMeterOps} {store : Type}.

(** The parts of a context that decorators hand on unchanged. *)
Definition same_env (c d : Ctx) : Prop :=
  c_block c = c_block d ∧ c_IsCheckTx c = c_IsCheckTx d ∧ c_IsReCheckTx c = c_IsReCheckTx d ∧
  c_TxBytes c = c_TxBytes d ∧ c_MinGasPrices c = c_MinGasPrices d.

#[global] Instance same_env_equiv : Equivalence same_env.
Proof.
  unfold same_env. split.
  - intros c. auto.
  - intros c d (?&?&?&?&?). auto 6.
  - intros c d e (?&?&?&?&?) (?&?&?&?&?). repeat split; etrans; eauto.
Qed.

(** A part of the state that is not the fee payer's: the parameters of the
    modules, say. *)
Section View.
Context {P : Type} (view : AState store → P).

(** The rest of the chain was called, on the same transaction, environment and
    view of the state, and accepted. *)
Definition reaches (next : AnteHandler store) st ctx tx simulate : Prop :=
  ∃ st1 ctx1 st2 ctx2, view st1 = view st ∧ same_env ctx ctx1 ∧ next st1 ctx1 tx simulate = (st2, Continue ctx2).

(** A decorator that accepts has reached the rest of the chain. *)
Definition passes (d : Decorator store) : Prop :=
  ∀ next st ctx tx simulate st' ctx', d next st ctx tx simulate = (st', Continue ctx') → reaches next st ctx tx simulate.

Lemma reached (next : AnteHandler store) st0 ctx0 st ctx tx simulate st' ctx' :
  next st ctx tx simulate = (st', Continue ctx') → view st = view st0 → same_env ctx0 ctx →
  reaches next st0 ctx0 tx simulate.
Proof. unfold reaches. eauto 8. Qed.
#[local] Hint Resolve reached : core.
#[local] Hint Extern 0 (same_env _ _) => solve [reflexivity | repeat split] : core.

Lemma passes_guard check : passes (guard check).
Proof. intros next st ctx tx sim st' ctx'. unfold guard. case_match; [|done..]. eauto. Qed.

Lemma passes_charge gas : passes (charge gas).
Proof. intros next st ctx tx sim st' ctx'. unfold charge. case_match; [|done..]. eauto. Qed.

Lemma passes_HandlePanic `{MF : MsgFormat} : passes HandlePanicDecorator.
Proof.
  intros next st ctx tx sim st' ctx'. unfold HandlePanicDecorator. intros Hn.
  destruct (next st ctx tx sim) as [st2 []] eqn:E; [|done..]. eauto.
Qed.

Lemma passes_FibreSignatureGas : passes FibreSignatureGasDecorator.
Proof.
  intros next st ctx tx sim st' ctx'. unfold FibreSignatureGasDecorator. case_match; [apply passes_charge|]. eauto.
Qed.

Lemma passes_TxSize size limit sim_key : passes (ConsumeTxSizeGasDecorator size limit sim_key).
Proof.
  intros next st ctx tx sim st' ctx'. unfold ConsumeTxSizeGasDecorator. case_match; [|done].
  intros Hn. apply passes_charge in Hn as (st1 & ctx1 & st2 & ctx2 & Hv & He & Hn). destruct sim; cbn in Hn.
  - case_match; [|done..]. eapply reached; [exact Hn|done|]. by etrans.
  - eauto.
Qed.

Lemma passes_SigVerification `{CR : Crypto} v :
  (∀ s c c', view (mkAState s c) = view (mkAState s c')) → passes (FibreSignatureVerificationDecorator v).
Proof.
  intros Hv next st ctx tx sim st' ctx'. unfold FibreSignatureVerificationDecorator. intros Hn.
  repeat case_match; try discriminate Hn; eauto. eapply reached; [exact Hn| |done]. destruct st. apply Hv.
Qed.

Lemma passes_MinGasPFB `{SP : SharePackage} : passes MinGasPFBDecorator.
Proof.
  intros next st ctx tx sim st' ctx'. unfold MinGasPFBDecorator. repeat case_match; [eauto..|apply passes_guard].
Qed.

Lemma passes_BlobShare `{SP : SharePackage} `{PC : !ParamsCodec} blob_of : passes (BlobShareDecorator blob_of).
Proof.
  intros next st ctx tx sim st' ctx'. unfold BlobShareDecorator. case_match; [eauto|apply passes_guard].
Qed.

(** Every decorator of an accepting chain was reached and accepted. *)
Lemma chain_reaches ds1 d ds2 st ctx tx simulate st' ctx' : Forall passes ds1 →
  ChainAnteDecorators (ds1 ++ d :: ds2) st ctx tx simulate = (st', Continue ctx') →
  reaches (d (ChainAnteDecorators ds2)) st ctx tx simulate.
Proof.
  intros Hp. revert st ctx st' ctx'. induction Hp as [|p ds1 Hp _ IH]; intros st ctx st' ctx' H.
  { eapply reached; [exact H|done|done]. }
  apply Hp in H as (st1 & ctx1 & st2 & ctx2 & Hv & He & H).
  apply IH in H as (st3 & ctx3 & st4 & ctx4 & Hv' & He' & H).
  eapply reached; [exact H|congruence|by etrans].
Qed.
End View.

(** A decorator that keeps more keeps less. *)
Lemma passes_weaken {P Q} (view : AState store → P) (f : P → Q) d : passes view d → passes (λ st, f (view st)) d.
Proof.
  intros Hp next st ctx tx sim st' ctx' H. apply Hp in H as (st1 & ctx1 & st2 & ctx2 & Hv & He & H).
  eapply reached; [exact H|by rewrite Hv|done].
Qed.

(** An accepting guard has made its check. *)
Lemma guard_accepts check next (st : AState store) ctx tx simulate st' ctx' :
  guard check next st ctx tx simulate = (st', Continue ctx') → check st ctx tx = Ok tt.
Proof. unfold guard. by destruct (check st ctx tx) as [[]| |]. Qed.

(** What the decorators that may skip their check have checked. *)
Lemma MinGasPFB_accepts `{SP : SharePackage} (next : AnteHandler store) st ctx tx simulate st' ctx' :
  MinGasPFBDecorator next st ctx tx simulate = (st', Continue ctx') →
  c_IsReCheckTx ctx = false → ctx_BlockHeight (c_block ctx) ≠ 0 →
  validatePFBHasEnoughGas (tx_Msgs tx) GasPerBlobByte (GasRemaining (c_GasMeter ctx)) = Ok tt.
Proof.
  unfold MinGasPFBDecorator. intros H Hc Hh. rewrite Hc, (proj2 (Z.eqb_neq _ _) Hh) in H. by apply guard_accepts in H.
Qed.

Lemma BlobShare_accepts `{SP : SharePackage} `{PC : !ParamsCodec} (blob_of : store → Blob.World) next st ctx tx simulate st' ctx' :
  BlobShareDecorator blob_of next st ctx tx simulate = (st', Continue ctx') → c_IsCheckTx ctx = true →
  ∃ size, MaxEffectiveSquareSize (ctx_ChainID (c_block ctx)) (blob_of (a_store st)) = Ok size ∧
    BlobShare_validateMsgs (tx_Msgs tx) (Z.of_nat (length (c_TxBytes ctx))) (getMaxBlobShares size) = Ok tt.
Proof.
  unfold BlobShareDecorator. intros H Hc. rewrite Hc in H. apply guard_accepts in H. inv_ok. apply Z.ltb_lt in Hr.
  exists r0. split; [done|]. unfold wrap_u32 in H. by rewrite Z.mod_small in H by fits.
Qed.

Lemma SigVerification_accepts `{CR : Crypto} verify next (st : AState store) ctx tx st' ctx' msg :
  FibreSignatureVerificationDecorator verify next st ctx tx false = (st', Continue ctx') →
  payForFibreMsg tx = Some msg →
  IsCached (a_pffSigCache st) (c_TxBytes ctx) = true ∨ verify (a_store st) ctx msg = Ok tt.
Proof.
  unfold FibreSignatureVerificationDecorator, payForFibreMessage. intros H Hm. rewrite Hm in H.
  destruct (_ && _) eqn:E; [apply andb_prop in E as [_ E]; by left|].
  destruct (verify _ _ _) as [[]| |]; [by right|done..].
Qed.
End Chain.

(** ** The cache of verified signatures is transparent

    With a cache that only holds transactions whose signatures verify, the
    decorator behaves as one without a cache, up to the cache itself. *)
Section CacheTransparency.
Context `{GM : GasMeterOps} {store : Type} `{CR : Crypto}.
Context (verify : store → Ctx → MsgPayForFibre → result unit).
Context (decode : bytes → result Tx).

(** One of the transactions [seen] differs from [raw] and has its digest. *)
Definition seen_collision (seen : list bytes) (raw : bytes) : Prop :=
  ∃ raw', raw' ∈ seen ∧ raw' ≠ raw ∧ sha256 raw' = sha256 raw.

(** Every entry of the cache was made for a transaction of [seen] that carries
    signatures that verify in [s]. *)
Definition cache_sound (seen : list bytes) (s : store) (cache : gset bytes) : Prop :=
  ∀ key, key ∈ cache → ∃ raw, raw ∈ seen ∧ key = pffSigCacheKey raw ∧
    ∀ ctx tx msg, decode raw = Ok tx → payForFibreMsg tx = Some msg → verify s ctx msg = Ok tt.

Definition without_cache : Decorator store := λ next st ctx tx simulate,
  match payForFibreMsg tx with
  | Some msg =>
      if (simulate : bool) then next st ctx tx simulate else
      match verify (a_store st) ctx msg with
      | Ok _ => next st ctx tx simulate
      | Err e => (st, Fail ctx e)
      | Panic p => (st, Boom p)
      end
  | None => next st ctx tx simulate
  end.

(** The outcome and the store, without the cache. *)
Definition visible (r : AState store * AnteResult) : store * AnteResult := (a_store r.1, r.2).

Lemma cached_verifies seen s cache raw ctx tx msg :
  cache_sound seen s cache → IsCached cache raw = true → decode raw = Ok tx → payForFibreMsg tx = Some msg →
  verify s ctx msg = Ok tt ∨ seen_collision seen raw.
Proof.
  unfold IsCached. intros Hs Hc%bool_decide_eq_true Hd Hm. apply Hs in Hc as (raw' & Hin & Hk & Hv).
  destruct (decide (raw' = raw)) as [->|Hne]; [left; eauto|]. right. exists raw'. auto.
Qed.

Lemma SigVerification_transparent seen (next : AnteHandler store) st ctx tx simulate :
  (∀ st1 st2 ctx tx simulate, a_store st1 = a_store st2 →
     visible (next st1 ctx tx simulate) = visible (next st2 ctx tx simulate)) →
  cache_sound seen (a_store st) (a_pffSigCache st) → decode (c_TxBytes ctx) = Ok tx →
  visible (FibreSignatureVerificationDecorator verify next st ctx tx simulate)
    = visible (without_cache next st ctx tx simulate) ∨ seen_collision seen (c_TxBytes ctx).
Proof.
  intros Hnext Hs Hd. unfold FibreSignatureVerificationDecorator, without_cache, payForFibreMessage.
  destruct (payForFibreMsg tx) as [msg|] eqn:Hm; [|by left]. destruct simulate; [by left|].
  destruct (_ && _) eqn:E.
  - apply andb_prop in E as [_ E]. destruct (cached_verifies _ _ _ _ ctx tx msg Hs E Hd Hm) as [->|]; auto.
  - left. destruct (verify _ _ _); [|done..]. apply Hnext. by case_match.
Qed.

(** Verifying a transaction keeps the cache sound when the outcome does not
    depend on the context. *)
Lemma Cache_sound seen s cache raw tx msg :
  cache_sound seen s cache → decode raw = Ok tx → payForFibreMsg tx = Some msg →
  (∀ ctx, verify s ctx msg = Ok tt) → cache_sound (raw :: seen) s (Cache cache raw).
Proof.
  unfold Cache. intros Hs Hd Hm Hv key [->%elem_of_singleton|Hk]%elem_of_union.
  2:{ apply Hs in Hk as (raw' & Hin & Hk). exists raw'. split; [by right|done]. }
  exists raw. split; [left|]. split; [done|]. intros ctx tx' msg' Hd' Hm'. assert (tx' = tx) as -> by congruence.
  assert (msg' = msg) as -> by congruence. apply Hv.
Qed.
End CacheTransparency.

(** ** What an accepted transaction has passed *)

(** Each decorator of the SDK ends by calling the rest of the chain on its
    transaction, without changing the part of the state in [view]; outside
    simulation the fee decorator accepts only when its checker does. *)
Class SdkDecoratorLaws `{SD : SdkDecorators store} {P : Type} (view : AState store → P) := {
  sdk_passes : Forall (passes view)
    [SetUpContextDecorator; CircuitBreakerDecorator; ExtensionOptionsDecorator; ValidateBasicDecorator;
     TxTimeoutHeightDecorator; ValidateMemoDecorator; SetPubKeyDecorator; ValidateSigCountDecorator;
     SigGasConsumeDecorator; SigVerificationDecorator; IncrementSequenceDecorator; RedundantRelayDecorator];
  DeductFee_passes checker : passes view (DeductFeeDecorator checker);
  DeductFee_checks checker next st ctx tx st' ctx' :
    DeductFeeDecorator checker next st ctx tx false = (st', Continue ctx') →
    ∃ r, checker st ctx tx = Ok r;
}.

Section Accepted.
Context `{GM : GasMeterOps} {store : Type} `{SD : !SdkDecorators store} `{MF : MsgFormat}.
Context `{SP : SharePackage} `{PC : !ParamsCodec} `{MPC : !Minfee.ParamsCodec} `{CR : Crypto}.
Context `{DO : DecOps} `{FO : Minfee.FeeOps}.
Context (blob_of : store → Blob.World) (minfee_of : store → Minfee.World).
Context (verify : store → Ctx → MsgPayForFibre → result unit).
Context (StdSignatureSize : PubKey → Z) (TxSigLimit : store → Z) (simKey : PubKey).
Context (paramFilters : string → option ParamFilter).

(** The part of the store that the verification of validator signatures reads
    (the staking module's historical records). *)
Context {History : Type} (history_of : store → History).
Hypothesis verify_reads : ∀ s s' c c' msg, history_of s = history_of s' → verify s c msg = verify s' c' msg.

(** The parameters and the history, and the cache too. *)
Definition params_view (st : AState store) : Blob.World * Minfee.World * History :=
  (blob_of (a_store st), minfee_of (a_store st), history_of (a_store st)).
Definition full_view (st : AState store) : Blob.World * Minfee.World * History * gset bytes :=
  (params_view st, a_pffSigCache st).

Context `{SDL : !SdkDecoratorLaws full_view}.

Let decorators := ante_decorators blob_of minfee_of verify StdSignatureSize TxSigLimit simKey paramFilters.

(** Up to the verification of validator signatures (position 17). *)
Lemma ante_passes : Forall (passes full_view) (take 17 decorators).
Proof.
  pose proof (sdk_passes (view := full_view)) as H. rewrite !Forall_cons in H. destruct_and!.
  unfold decorators, ante_decorators, NestedMsgDecorator, ParamFilterDecorator. cbn [take].
  repeat first
    [ apply Forall_nil_2
    | apply Forall_cons_2;
      [ solve [ auto using passes_HandlePanic, passes_TxSize, DeductFee_passes, passes_guard,
                  passes_FibreSignatureGas, passes_MinGasPFB, passes_BlobShare ] |] ].
Qed.

Lemma ante_reaches i d st ctx tx simulate st' ctx' : (i <= 17)%nat → decorators !! i = Some d →
  NewAnteHandler blob_of minfee_of verify StdSignatureSize TxSigLimit simKey paramFilters st ctx tx simulate
    = (st', Continue ctx') →
  ∃ next, reaches full_view (d next) st ctx tx simulate.
Proof.
  intros Hle Hi H. unfold NewAnteHandler in H. fold decorators in H.
  rewrite <- (take_drop_middle decorators i d Hi) in H. apply (chain_reaches full_view) in H; [eauto|].
  pose proof ante_passes as Hp.  apply (Forall_take _ i) in Hp.
  rewrite take_take in Hp. by rewrite Nat.min_l in Hp by done.
Qed.

(** The parameter filters come after the signatures. *)
Lemma ante_reaches_params st ctx tx simulate st' ctx' :
  NewAnteHandler blob_of minfee_of verify StdSignatureSize TxSigLimit simKey paramFilters st ctx tx simulate
    = (st', Continue ctx') → checkParams paramFilters tx = Ok tt.
Proof.
  intros H. unfold NewAnteHandler in H. fold decorators in H.
  rewrite <- (take_drop_middle decorators 18 _ eq_refl) in H.
  apply (chain_reaches params_view) in H as (st1 & ctx1 & st2 & ctx2 & _ & _ & H).
  - unfold ParamFilterDecorator in H. by apply guard_accepts in H.
  - rewrite (take_S_r decorators 17 _ eq_refl). apply Forall_app. split.
    + pose proof ante_passes as Hp.  eapply Forall_impl; [exact Hp|].
      intros d. apply (passes_weaken full_view fst).
    + constructor; [|done]. by apply passes_SigVerification.
Qed.

(** The checks of this repository that an accepted transaction has passed. *)
Record accepted (st : AState store) (ctx : Ctx) (tx : Tx) (simulate : bool) : Prop := {
  acc_nested : checkNested tx = Ok tt;
  acc_params : checkParams paramFilters tx = Ok tt;
  acc_gas : c_IsReCheckTx ctx = false → ctx_BlockHeight (c_block ctx) ≠ 0 →
    ∃ gm, validatePFBHasEnoughGas (tx_Msgs tx) GasPerBlobByte (GasRemaining gm) = Ok tt;
  acc_size : c_IsCheckTx ctx = true →
    ∃ size, MaxEffectiveSquareSize (ctx_ChainID (c_block ctx)) (blob_of (a_store st)) = Ok size ∧
      BlobShare_validateMsgs (tx_Msgs tx) (Z.of_nat (length (c_TxBytes ctx))) (getMaxBlobShares size) = Ok tt;
  acc_fee : simulate = false → ∃ r, ValidateTxFeeWrapper minfee_of st ctx tx = Ok r;
  acc_signatures : ∀ msg, simulate = false → payForFibreMsg tx = Some msg →
    IsCached (a_pffSigCache st) (c_TxBytes ctx) = true ∨ verify (a_store st) ctx msg = Ok tt;
}.

Lemma NewAnteHandler_accepts st ctx tx simulate st' ctx' :
  NewAnteHandler blob_of minfee_of verify StdSignatureSize TxSigLimit simKey paramFilters st ctx tx simulate
    = (st', Continue ctx') →
  accepted st ctx tx simulate.
Proof.
  intros H. constructor.
  - destruct (ante_reaches 13 _ _ _ _ _ _ _ ltac:(lia) eq_refl H) as (n & s1 & c1 & s2 & c2 & _ & _ & Hd).
    unfold NestedMsgDecorator in Hd. by apply guard_accepts in Hd.
  - by eapply ante_reaches_params.
  - intros Hr Hh. destruct (ante_reaches 15 _ _ _ _ _ _ _ ltac:(lia) eq_refl H) as (n & s1 & c1 & s2 & c2 & _ & (He&_&Hr'&_) & Hd).
    apply MinGasPFB_accepts in Hd; [eauto|congruence|congruence].
  - intros Hc. destruct (ante_reaches 16 _ _ _ _ _ _ _ ltac:(lia) eq_refl H) as (n & s1 & c1 & s2 & c2 & Hv & (He&Hc'&_&Hb&_) & Hd).
    apply BlobShare_accepts in Hd as (size & Hsz & Hd); [|congruence]. rewrite <- He in Hsz. rewrite <- Hb in Hd.
    injection Hv as Hv _ _ _. rewrite Hv in Hsz. eauto.
  - intros ->. destruct (ante_reaches 8 _ _ _ _ _ _ _ ltac:(lia) eq_refl H) as (n & s1 & c1 & s2 & c2 & Hv & (_&Hc&_&_&Hp) & Hd).
    apply (DeductFee_checks (view := full_view)) in Hd as [r Hd]. exists r. injection Hv as _ Hv _ _.
    unfold ValidateTxFeeWrapper in *. by rewrite Hc, Hp, <- Hv.
  - intros msg -> Hm. destruct (ante_reaches 17 _ _ _ _ _ _ _ ltac:(lia) eq_refl H) as (n & s1 & c1 & s2 & c2 & Hv & (_&_&_&Hb&_) & Hd).
    injection Hv as _ _ Hh Hca. rewrite <- Hca, Hb.
    destruct (SigVerification_accepts verify _ _ _ _ _ _ msg Hd Hm) as [|Hok]; [by left|right].
    by rewrite (verify_reads (a_store st) (a_store s1) ctx c1) by done.
Qed.
End Accepted.
