(* ===== verification/Proposal.v ===== *)
(** * Block proposals

    [app/filtered_square_builder.go], [app/prepare_proposal.go],
    [app/process_proposal.go], [app/pff_execution.go], [app/check_tx.go] and
    [app/pfb_tx_cache.go]: how a proposer filters the transactions of a block,
    how validators check a proposal, and how transactions enter the mempool. *)

From S2P Require Import Prelude Sdk GoSquare FibreParams FibrePromise PayForBlob Messages DataAvailability Ante.
Import Blob.
#[local] Open Scope Z_scope.

Definition MaxTxSize : Z := 8388608.
Definition MaxSDKMessages : Z := 600.
Definition MaxPFBMessages : Z := 200.
Definition MaxPayForFibreMessages : Z := 200.

Definition len {A} (l : list A) : Z := Z.of_nat (length l).

(** [coretypes.ComputeProtoSizeForTxs] of CometBFT: the size of a list of
    transactions in the encoded block. *)
Class ProtoSize := { ComputeProtoSizeForTxs : list bytes → Z }.

(** Each transaction adds its framed size. *)
Class ProtoSizeLaws `{ProtoSize} := {
  ProtoSize_nil : ComputeProtoSizeForTxs [] = 0;
  ProtoSize_cons tx txs :
    ComputeProtoSizeForTxs (tx :: txs) = ComputeProtoSizeForTxs [tx] + ComputeProtoSizeForTxs txs;
  ProtoSize_bounds tx : 0 <= ComputeProtoSizeForTxs [tx] <= 2 * len tx + 32;
}.

(** ** The transaction cache: [app/pfb_tx_cache.go]

    A map from the hash of a transaction to the hash of its blobs. *)

Section TxCache.
Context `{SP : SharePackage} `{CR : Crypto}.

Abbreviation TxCache := (gmap bytes bytes) (only parsing).

Definition getTxKey (tx : bytes) : bytes := sha256 tx.

Definition getBlobsHash (blobs : list Blob) : bytes := sha256 (concat (map blob_Hash blobs)).

Definition Exists (c : TxCache) (tx : bytes) (blobs : list Blob) : bool :=
  match c !! getTxKey tx with
  | None => false
  | Some cachedBlobHash => bool_decide (cachedBlobHash = getBlobsHash blobs)
  end.

Definition Set_ (c : TxCache) (tx : bytes) (blobs : list Blob) : TxCache :=
  <[getTxKey tx := getBlobsHash blobs]> c.

Definition RemoveTransaction (c : TxCache) (tx : bytes) : TxCache := delete (getTxKey tx) c.

Definition Size (c : TxCache) : nat := size c.
End TxCache.

Section Proposal.
Context `{SP : SharePackage} `{TP : !TxPackage} `{TC : TxCodec} `{CR : Crypto} `{AC : AddressCodec}.
Context `{SQ : !SquarePackage} `{EC : ErasureCoding} `{GM : GasMeterOps} `{PS : ProtoSize} `{PC : !ParamsCodec}.
Context {store : Type} (blob_of : store → Blob.World).

(** [runtime.NumCPU()*2], the workers of the parallel commitments. *)
Context (workers : Z).

Definition ValidateBlobTxWithCache (txCache : gmap bytes bytes) (blobTx : BlobTx) : bool * result unit :=
  if Exists txCache (btx_Tx blobTx) (btx_Blobs blobTx)
  then (true, _ ← ValidateBlobTxSkipCommitment (Some blobTx); Ok tt)
  else (false, ValidateBlobTx workers (Some blobTx) SubtreeRootThreshold).

(** ** Executing messages: [app/pff_execution.go]

    A handler of the message router runs on the store and a context and may
    consume gas. A nil router is [None]. *)

Definition MsgHandler : Type := store → Ctx → Msg → result (store * Ctx).
Definition MessageRouter : Type := Msg → option MsgHandler.

Fixpoint run_msgs (router : MessageRouter) (msgs : list Msg) (s : store) (ctx : Ctx) : result store :=
  match msgs with
  | [] => Ok s
  | msg :: msgs' =>
      handler ← of_option "no message handler found" (router msg);
      r ← handler s ctx msg;
      let '(s', ctx') := r in
      run_msgs router msgs' s' ctx'
  end.

(** A panic is recovered and reported as an error; the writes are kept only
    when every message succeeds. *)
Definition executeTxMsgs (st : AState store) (ctx : Ctx) (sdkTx : Tx) (router : option MessageRouter)
    : AState store * result unit :=
  match router with
  | None => (st, Ok tt)
  | Some router =>
      match run_msgs router (tx_Msgs sdkTx) (a_store st) ctx with
      | Ok s => (mkAState s (a_pffSigCache st), Ok tt)
      | Err e => (st, Err e)
      | Panic p => (st, Err "recovered panic while executing messages")
      end
  end.

(** ** Filtering: [app/filtered_square_builder.go] *)

Context (handler : AnteHandler store) (msgRouter : option MessageRouter).

(** The cumulative size of the admitted transactions stays within the limit; a
    limit that is not positive is no limit. *)
Fixpoint max_bytes_loop (txs : list bytes) (currentTxBytes maxTxBytes : Z) : list bytes :=
  match txs with
  | [] => []
  | tx :: txs' =>
      let txProtoSize := ComputeProtoSizeForTxs [tx] in
      if maxTxBytes <? wrap_i64 (currentTxBytes + txProtoSize) then max_bytes_loop txs' currentTxBytes maxTxBytes
      else tx :: max_bytes_loop txs' (wrap_i64 (currentTxBytes + txProtoSize)) maxTxBytes
  end.

Definition filterByMaxBytes (txs : list bytes) (maxTxBytes : Z) : list bytes :=
  if 0 <? maxTxBytes then max_bytes_loop txs 0 maxTxBytes else txs.

(** The separated transactions: plain, blob (decoded and raw, in step), and
    pay-for-fibre. A transaction that a decoder rejects is dropped. *)
Record Separated := mkSeparated {
  normalTxs : list bytes;
  blobTxs : list BlobTx;
  rawBlobTxs : list bytes;
  payForFibreTxs : list bytes;
}.

Definition add_normal (t : bytes) (s : Separated) : Separated :=
  mkSeparated (t :: normalTxs s) (blobTxs s) (rawBlobTxs s) (payForFibreTxs s).
Definition add_blob (b : BlobTx) (t : bytes) (s : Separated) : Separated :=
  mkSeparated (normalTxs s) (b :: blobTxs s) (t :: rawBlobTxs s) (payForFibreTxs s).
Definition add_fibre (t : bytes) (s : Separated) : Separated :=
  mkSeparated (normalTxs s) (blobTxs s) (rawBlobTxs s) (t :: payForFibreTxs s).

Fixpoint separateTxs (rawTxs : list bytes) : Separated :=
  match rawTxs with
  | [] => mkSeparated [] [] [] []
  | rawTx :: rawTxs' =>
      let rest := separateTxs rawTxs' in
      if MaxTxSize <? len rawTx then rest else
      match UnmarshalBlobTx rawTx with
      | Some (Ok bTx) => if blobTxIsCanonical rawTx bTx then add_blob bTx rawTx rest else rest
      | Some _ => rest
      | None =>
          match TxDecoder rawTx with
          | Ok sdkTx =>
              if (0 <? countMsgPayForFibre sdkTx)%nat then
                match validatePayForFibreTxShape sdkTx with
                | Ok _ => add_fibre rawTx rest
                | _ => rest
                end
              else add_normal rawTx rest
          | _ => rest
          end
      end
  end.

(** The state of a loop of [Fill]: the state and context the ante handler has
    produced, the square's builder, the messages counted, and the slice that is
    compacted in place together with the number of entries kept. *)
Record FillState := mkFillState {
  f_st : AState store;
  f_ctx : Ctx;
  f_builder : Builder;
  f_count : Z;
  f_slice : list bytes;
  f_n : nat;
}.

Definition set_ctx (fs : FillState) (ctx : Ctx) : FillState :=
  mkFillState (f_st fs) ctx (f_builder fs) (f_count fs) (f_slice fs) (f_n fs).

(** [s[i] = v]. *)
Definition store_at (s : list bytes) (i : nat) (v : bytes) : result (list bytes) :=
  if (i <? length s)%nat then Ok (<[i := v]> s) else Panic "index out of range".

(** A failed revert is only logged. *)
Definition revert_or_log (b : Builder) (r : result Builder) : result Builder :=
  match r with Err _ => Ok b | r => r end.

(** One iteration over the plain transactions. *)
Definition normal_step (tx : bytes) (fs : FillState) : result FillState :=
  match TxDecoder tx with
  | Panic p => Panic p
  | Err _ => Ok fs
  | Ok sdkTx =>
      let ctx := WithTxBytes (f_ctx fs) tx in
      if MaxSDKMessages <? f_count fs + len (tx_Msgs sdkTx) then Ok (set_ctx fs ctx) else
      match AppendTx (f_builder fs) tx with
      | None => Ok (set_ctx fs ctx)
      | Some builder =>
          match handler (f_st fs) ctx sdkTx false with
          | (st, Boom p) => Panic p
          | (st, Fail ctx' e) =>
              builder' ← revert_or_log builder (RevertLastTx builder);
              Ok (mkFillState st ctx' builder' (f_count fs) (f_slice fs) (f_n fs))
          | (st, Continue ctx') =>
              slice ← store_at (f_slice fs) (f_n fs) tx;
              Ok (mkFillState st ctx' builder (f_count fs + len (tx_Msgs sdkTx)) slice (S (f_n fs)))
          end
      end
  end.

(** [for _, tx := range normalTxs]: the element is read from the slice the loop
    writes to. *)
Fixpoint normal_loop (k i : nat) (fs : FillState) : result FillState :=
  match k with
  | O => Ok fs
  | S k' =>
      tx ← index (f_slice fs) i;
      fs' ← normal_step tx fs;
      normal_loop k' (S i) fs'
  end.

(** One iteration over the blob transactions, [i] being the index of [tx]. *)
Definition blob_step (i : nat) (tx : BlobTx) (fs : FillState) : result FillState :=
  match TxDecoder (btx_Tx tx) with
  | Panic p => Panic p
  | Err _ => Ok fs
  | Ok sdkTx =>
      let ctx := WithTxBytes (f_ctx fs) (btx_Tx tx) in
      if MaxPFBMessages <? f_count fs + len (tx_Msgs sdkTx) then Ok (set_ctx fs ctx) else
      match AppendBlobTx (f_builder fs) tx with
      | Panic p => Panic p
      | Err _ => Ok (set_ctx fs ctx)
      | Ok None => Ok (set_ctx fs ctx)
      | Ok (Some builder) =>
          match handler (f_st fs) ctx sdkTx false with
          | (st, Boom p) => Panic p
          | (st, Fail ctx' e) =>
              builder' ← revert_or_log builder (RevertLastBlobTx builder);
              Ok (mkFillState st ctx' builder' (f_count fs) (f_slice fs) (f_n fs))
          | (st, Continue ctx') =>
              raw ← index (f_slice fs) i;
              slice ← store_at (f_slice fs) (f_n fs) raw;
              Ok (mkFillState st ctx' builder (f_count fs + len (tx_Msgs sdkTx)) slice (S (f_n fs)))
          end
      end
  end.

Fixpoint blob_loop (i : nat) (txs : list BlobTx) (fs : FillState) : result FillState :=
  match txs with
  | [] => Ok fs
  | tx :: txs' => fs' ← blob_step i tx fs; blob_loop (S i) txs' fs'
  end.

(** The loop of [processFibreTxsForSquare]: every transaction runs on a branch
    of the store, which is dropped unless the transaction is kept; the
    signature cache is not part of the store. *)
Record FibreState := mkFibreState {
  fb_st : AState store;
  fb_builder : Builder;
  fb_count : Z;
  fb_kept : list bytes;
}.

Definition drop_branch (fs : FibreState) (st : AState store) (builder : Builder) : FibreState :=
  mkFibreState (mkAState (a_store (fb_st fs)) (a_pffSigCache st)) builder (fb_count fs) (fb_kept fs).

Definition fibre_step (ctx : Ctx) (rawTx : bytes) (fs : FibreState) : result FibreState :=
  match TryParseFibreTx rawTx with
  | None => Ok fs
  | Some (Panic p) => Panic p
  | Some (Err _) => Ok fs
  | Some (Ok fibreTx) =>
      match TxDecoder rawTx with
      | Panic p => Panic p
      | Err _ => Ok fs
      | Ok sdkTx =>
          if MaxPayForFibreMessages <? fb_count fs + len (tx_Msgs sdkTx) then Ok fs else
          let txCtx := WithTxBytes ctx rawTx in
          match AppendFibreTx (fb_builder fs) fibreTx with
          | Panic p => Panic p
          | Err _ => Ok fs
          | Ok None => Ok fs
          | Ok (Some builder) =>
              match handler (fb_st fs) txCtx sdkTx false with
              | (st, Boom p) => Panic p
              | (st, Fail _ e) =>
                  builder' ← revert_or_log builder (RevertLastPayForFibreTx builder);
                  Ok (drop_branch fs st builder')
              | (st, Continue txCtx') =>
                  match executeTxMsgs st txCtx' sdkTx msgRouter with
                  | (st', Ok _) =>
                      Ok (mkFibreState st' builder (fb_count fs + len (tx_Msgs sdkTx)) (fb_kept fs ++ [rawTx]))
                  | (st', Err _) =>
                      builder' ← revert_or_log builder (RevertLastPayForFibreTx builder);
                      Ok (drop_branch fs st' builder')
                  | (_, Panic p) => Panic p
                  end
              end
          end
      end
  end.

Definition processFibreTxsForSquare (ctx : Ctx) (txs : list bytes) (fs : FibreState) : result FibreState :=
  fold_res (λ fs rawTx, fibre_step ctx rawTx fs) txs fs.

(** [Fill] returns the kept transactions and the builder it filled. *)
Definition Fill (builder : Builder) (st : AState store) (ctx : Ctx) (txs : list bytes) (maxTxBytes : Z)
    : result (list bytes * Builder) :=
  let sep := separateTxs (filterByMaxBytes txs maxTxBytes) in
  n ← normal_loop (length (normalTxs sep)) 0 (mkFillState st ctx builder 0 (normalTxs sep) 0);
  b ← blob_loop 0 (blobTxs sep) (mkFillState (f_st n) (f_ctx n) (f_builder n) 0 (rawBlobTxs sep) 0);
  f ← processFibreTxsForSquare (f_ctx b) (payForFibreTxs sep) (mkFibreState (f_st b) (f_builder b) 0 []);
  Ok (take (f_n n) (f_slice n) ++ take (f_n b) (f_slice b) ++ fb_kept f, fb_builder f).

(** ** Preparing a proposal: [app/prepare_proposal.go] *)

Record Proposal := mkProposal {
  prop_Txs : list bytes;
  prop_SquareSize : Z;
  prop_DataRootHash : bytes;
}.

Definition PrepareProposalHandler (st : AState store) (ctx : Ctx) (txs : list bytes) (maxTxBytes : Z)
    : result Proposal :=
  maxSquareSize ← MaxEffectiveSquareSize (ctx_ChainID (c_block ctx)) (blob_of (a_store st));
  builder ← NewBuilder maxSquareSize SubtreeRootThreshold;
  filled ← Fill builder st ctx txs maxTxBytes;
  let '(kept, builder) := filled in
  dataSquare ← Export builder;
  eds ← DA.ExtendSharesWithTreePool (Square_ToBytes dataSquare);
  dah ← DA.NewDataAvailabilityHeader eds;
  squareSize ← Square_Size dataSquare;
  Ok (mkProposal kept (wrap_u64 squareSize) (DA.Hash (Some dah)).1).

(** ** Processing a proposal: [app/process_proposal.go] *)

Record ProcState := mkProcState {
  ps_st : AState store;
  ps_ctx : Ctx;
  ps_sdk : Z;
  ps_pfb : Z;
  ps_pff : Z;
}.

(** One transaction; an error is the reason of a rejection. *)
Definition process_tx (txCache : gmap bytes bytes) (ps : ProcState) (rawTx : bytes) : result ProcState :=
  _ ← ensure (len rawTx <=? MaxTxSize) "ErrTxExceedsMaxSize";
  blobTx ← (match UnmarshalBlobTx rawTx with
            | None => Ok None
            | Some r =>
                blobTx ← r;
                _ ← ensure (blobTxIsCanonical rawTx blobTx) "blob tx is not canonically encoded";
                Ok (Some blobTx)
            end);
  let sdkTxBytes := match blobTx with Some b => btx_Tx b | None => rawTx end in
  sdkTx ← TxDecoder sdkTxBytes;
  let ctx := WithTxBytes (ps_ctx ps) sdkTxBytes in
  match blobTx with
  | None =>
      let msgs := tx_Msgs sdkTx in
      _ ← ensure (negb (bool_decide (is_Some (hasPFB msgs)))) "tx has PFB but is not a blob tx";
      _ ← validatePayForFibreTxShape sdkTx;
      let isPFF := bool_decide (is_Some (payForFibreMsg sdkTx)) in
      let pff := if isPFF then ps_pff ps + 1 else ps_pff ps in
      let sdk := if isPFF then ps_sdk ps else ps_sdk ps + len msgs in
      _ ← ensure (negb (isPFF && (0 <? MaxPayForFibreMessages) && (MaxPayForFibreMessages <? pff)))
            "block exceeds max PayForFibre message count";
      _ ← ensure (isPFF || (sdk <=? MaxSDKMessages)) "block exceeds max SDK message count";
      match handler (ps_st ps) ctx sdkTx false with
      | (_, Boom p) => Panic p
      | (_, Fail _ e) => Err "failure to increment sequence"
      | (st, Continue ctx') =>
          if isPFF then
            match executeTxMsgs st ctx' sdkTx msgRouter with
            | (st', Ok _) => Ok (mkProcState st' ctx' sdk (ps_pfb ps) pff)
            | (_, Err _) => Err "fibre settlement failed"
            | (_, Panic p) => Panic p
            end
          else Ok (mkProcState st ctx' sdk (ps_pfb ps) pff)
      end
  | Some blobTx =>
      _ ← (ValidateBlobTxWithCache txCache blobTx).2;
      let pfb := ps_pfb ps + len (tx_Msgs sdkTx) in
      _ ← ensure (pfb <=? MaxPFBMessages) "block exceeds max PFB message count";
      match handler (ps_st ps) ctx sdkTx false with
      | (_, Boom p) => Panic p
      | (_, Fail _ e) => Err "ante handler validation failed"
      | (st, Continue ctx') => Ok (mkProcState st ctx' (ps_sdk ps) pfb (ps_pff ps))
      end
  end.

Definition process (txCache : gmap bytes bytes) (st : AState store) (ctx : Ctx) (req : Proposal) : result unit :=
  ps ← fold_res (process_tx txCache) (prop_Txs req) (mkProcState st ctx 0 0 0);
  classifiedTxs ← ClassifyTxs (prop_Txs req);
  maxSquareSize ← MaxEffectiveSquareSize (ctx_ChainID (c_block (ps_ctx ps))) (blob_of (a_store (ps_st ps)));
  dataSquare ← Construct classifiedTxs maxSquareSize SubtreeRootThreshold;
  eds ← DA.ExtendSharesWithTreePool (Square_ToBytes dataSquare);
  _ ← ensure (wrap_u64 (eds_Width eds) / 2 =? prop_SquareSize req) "proposed square size differs";
  dah ← DA.NewDataAvailabilityHeader eds;
  ensure (bool_decide ((DA.Hash (Some dah)).1 = prop_DataRootHash req)) "proposed data root differs".

(** The response is accept or reject; a panic is recovered and rejects. *)
Inductive Response := accept | reject.

Definition ProcessProposalHandler (txCache : gmap bytes bytes) (st : AState store) (ctx : Ctx) (req : Proposal)
    : Response :=
  match process txCache st ctx req with
  | Ok _ => accept
  | Err _ => reject
  | Panic _ => reject
  end.
End Proposal.
