(* ===== verification/ProposalProofs.v ===== *)
(** * Agreement of preparing and processing a proposal

    The loops of [Fill] and of [ProcessProposalHandler] run side by side: the
    transactions a proposer keeps are processed with the same outcome, and the
    square built on the way is the one the validators construct. *)

From S2P Require Import Prelude Sdk FibreParams FibrePromise GoSquare PayForBlob Messages DataAvailability Ante AnteProofs Proposal.
#[local] Open Scope Z_scope.

Import Blob.

Lemma fold_res_snoc {A S} (f : S → A → result S) l x s s' s'' :
  fold_res f l s = Ok s' → f s' x = Ok s'' → fold_res f (l ++ [x]) s = Ok s''.
Proof.
  revert s. induction l as [|y l IH]; intros s H Hx; cbn in *.
  - apply Ok_inj in H as ->. by rewrite Hx.
  - apply bind_Ok in H as (s1 & -> & H). cbn. eauto.
Qed.

(** ** In-place compaction

    Overwriting position [n] of a slice leaves the part behind the reading
    position as it was. *)
Section Compaction.
Context {A : Type}.
Implicit Types (l : list A).

Lemma drop_insert_le l n i x : (n < i)%nat → drop i (<[n := x]> l) = drop i l.
Proof. intros Hn. by rewrite drop_insert_lt by lia. Qed.

Lemma take_insert_snoc l n x : (n < length l)%nat → take (S n) (<[n := x]> l) = take n l ++ [x].
Proof.
  intros Hn. rewrite (take_S_r _ _ x) by by apply list_lookup_insert_eq.
  by rewrite take_insert_ge by lia.
Qed.

Lemma drop_cons_lookup l i x k : drop i l = x :: k → l !! i = Some x ∧ drop (S i) l = k.
Proof.
  intros Hd. split.
  - rewrite <- (Nat.add_0_r i), <- lookup_drop, Hd. done.
  - replace (S i) with (i + 1)%nat by lia. rewrite <- drop_drop, Hd. done.
Qed.
End Compaction.

Section Agreement.
Context `{SP : SharePackage} `{TP : !TxPackage} `{TC : TxCodec} `{CR : Crypto} `{AC : AddressCodec}.
Context `{SQ : !SquarePackage} `{EC : ErasureCoding} `{GM : GasMeterOps} `{PS : ProtoSize} `{PC : !ParamsCodec}.
Context `{SL : !ShareLaws} `{TL : !TxLaws} `{TCL : !TxCodecLaws} `{SQL : !SquareLaws}.
Context {store : Type} (blob_of : store → Blob.World) (workers : Z).
Context (handler : AnteHandler store) (msgRouter : option (MessageRouter (store := store))).

(** What the handler reads of the context beside the transaction's bytes. *)
Definition base_env (c d : Ctx) : Prop :=
  c_block c = c_block d ∧ c_IsCheckTx c = c_IsCheckTx d ∧ c_IsReCheckTx c = c_IsReCheckTx d ∧
  c_MinGasPrices c = c_MinGasPrices d.

#[local] Instance base_env_equiv : Equivalence base_env.
Proof.
  unfold base_env. split.
  - intros c. auto.
  - intros c d (?&?&?&?). auto.
  - intros c d e (?&?&?&?) (?&?&?&?). repeat split; etrans; eauto.
Qed.

(** What the proposer's and the validators' runs need of the ante handler and
    of the message router. [ag_inv] is the invariant of a node's signature
    cache, under which an accepted transaction is accepted by every node,
    [ag_seen] delimits the transactions it speaks of, and [ag_view] is the part
    of the store it depends on, which the handlers do not change. *)
Class AnteAgreement := {
  ag_inv : AState store → Prop;
  ag_seen : bytes → Prop;
  ag_View : Type;
  ag_view : store → ag_View;
  ag_replay st st2 c d tx st' c' : ag_seen (c_TxBytes c) →
    TxDecoder (c_TxBytes c) = Ok tx → handler st c tx false = (st', Continue c') →
    a_store st2 = a_store st → ag_inv st → ag_inv st2 → base_env c d → c_TxBytes c = c_TxBytes d →
    ∃ st2', handler st2 d tx false = (st2', Continue c') ∧ a_store st2' = a_store st' ∧ ag_inv st2';
  ag_inv_step st c tx st' r : ag_seen (c_TxBytes c) → TxDecoder (c_TxBytes c) = Ok tx →
    handler st c tx false = (st', r) → ag_inv st → ag_inv st';
  ag_env st c tx st' c' : handler st c tx false = (st', Continue c') → base_env c c';
  ag_env_fail st c tx st' c' e : handler st c tx false = (st', Fail c' e) → base_env c c';
  ag_view_step st c tx st' r : handler st c tx false = (st', r) → ag_view (a_store st') = ag_view (a_store st);
  ag_view_exec st c tx st' : executeTxMsgs st c tx msgRouter = (st', Ok tt) →
    ag_view (a_store st') = ag_view (a_store st);
  ag_view_blob s s' : ag_view s = ag_view s' → blob_of s = blob_of s';
  ag_inv_view st s' : ag_view s' = ag_view (a_store st) → ag_inv st → ag_inv (mkAState s' (a_pffSigCache st));
}.

(** The bytes of a transaction that the ante handler sees. *)
Definition sdk_bytes (raw : bytes) : bytes :=
  match UnmarshalBlobTx raw with Some (Ok bTx) => btx_Tx bTx | _ => raw end.

(** A failing handler has written nothing. *)
Definition clean_failures : Prop :=
  ∀ st c tx st' c' e, handler st c tx false = (st', Fail c' e) → a_store st' = a_store st.

(** What [CheckTx] has established for a transaction of the mempool. *)
Definition checked (raw : bytes) : Prop :=
  (∀ bTx, UnmarshalBlobTx raw = Some (Ok bTx) →
     ValidateBlobTx workers (Some bTx) SubtreeRootThreshold = Ok tt) ∧
  (∀ tx, UnmarshalBlobTx raw = None → TxDecoder raw = Ok tx → hasPFB (tx_Msgs tx) = None).

(** ** The three kinds of transaction *)

Definition normal_ok (raw : bytes) : Prop :=
  len raw <= MaxTxSize ∧ UnmarshalBlobTx raw = None ∧
  ∃ tx, TxDecoder raw = Ok tx ∧ countMsgPayForFibre tx = 0%nat.

Definition blob_ok (bTx : BlobTx) (raw : bytes) : Prop :=
  len raw <= MaxTxSize ∧ UnmarshalBlobTx raw = Some (Ok bTx) ∧ blobTxIsCanonical raw bTx = true.

Definition fibre_ok (raw : bytes) : Prop :=
  len raw <= MaxTxSize ∧ UnmarshalBlobTx raw = None ∧
  ∃ tx, TxDecoder raw = Ok tx ∧ (0 < countMsgPayForFibre tx)%nat ∧ validatePayForFibreTxShape tx = Ok tt.

Lemma separateTxs_spec raws :
  Forall normal_ok (normalTxs (separateTxs raws)) ∧
  Forall2 blob_ok (blobTxs (separateTxs raws)) (rawBlobTxs (separateTxs raws)) ∧
  Forall fibre_ok (payForFibreTxs (separateTxs raws)).
Proof.
  induction raws as [|raw raws (IHn & IHb & IHf)]; [done|]. cbn [separateTxs].
  destruct (Z.ltb_spec MaxTxSize (len raw)) as [|Hl]; [done|].
  destruct (UnmarshalBlobTx raw) as [[bTx| |]|] eqn:Hu; [|done|done|].
  - destruct (blobTxIsCanonical raw bTx) eqn:Hc; [|done]. cbn. repeat split; try done.
    constructor; [|done]. repeat split; done.
  - destruct (TxDecoder raw) as [tx| |] eqn:Hd; [|done..].
    destruct (Nat.ltb_spec 0 (countMsgPayForFibre tx)) as [Hc|Hc].
    + destruct (validatePayForFibreTxShape tx) as [[]| |] eqn:Hs; [|done..]. cbn. repeat split; try done.
      constructor; [|done]. repeat split; eauto.
    + cbn. repeat split; try done. constructor; [|done]. repeat split; try done. exists tx. split; [done|lia].
Qed.

Lemma separateTxs_subset raws raw :
  raw ∈ normalTxs (separateTxs raws) ++ rawBlobTxs (separateTxs raws) ++ payForFibreTxs (separateTxs raws) →
  raw ∈ raws.
Proof.
  rewrite !elem_of_app. induction raws as [|r raws IH]; [cbn; tauto|]. cbn [separateTxs]. rewrite elem_of_cons.
  repeat case_match; cbn; rewrite ?elem_of_cons; tauto.
Qed.

Lemma no_pff tx : countMsgPayForFibre tx = 0%nat →
  payForFibreMsg tx = None ∧ validatePayForFibreTxShape tx = Ok tt.
Proof.
  unfold countMsgPayForFibre, payForFibreMsg, validatePayForFibreTxShape. intros Hc.
  assert (∀ m, m ∈ tx_Msgs tx → is_pff m = false) as Hn.
  { intros m Hm. destruct (is_pff m) eqn:E; [|done]. apply length_zero_iff_nil in Hc.
    assert (m ∈ filter is_pff (tx_Msgs tx)) as Hf; [|rewrite Hc in Hf; by apply not_elem_of_nil in Hf].
    apply list_elem_of_filter. by rewrite E. }
  split.
  - destruct (tx_Msgs tx) as [|[] []]; done.
  - apply each_Ok, Forall_forall. intros m Hm. apply Hn in Hm. by destruct m.
Qed.

(** A transaction with a pay-for-fibre message of the right shape has no other. *)
Lemma pff_shape tx : (0 < countMsgPayForFibre tx)%nat → validatePayForFibreTxShape tx = Ok tt →
  ∃ pff, tx_Msgs tx = [MPayForFibre pff] ∧ PaymentPromise_ValidateBasic (pff_PaymentPromise pff) = Ok tt.
Proof.
  unfold countMsgPayForFibre, validatePayForFibreTxShape. intros Hc Hs. apply each_Ok in Hs.
  destruct (filter is_pff (tx_Msgs tx)) as [|m l] eqn:Hf; [cbn in Hc; lia|].
  assert (m ∈ filter is_pff (tx_Msgs tx)) as Hm by (rewrite Hf; left).
  apply list_elem_of_filter in Hm as [Hp Hm]. rewrite Forall_forall in Hs. apply Hs in Hm as Hs'.
  destruct m as [|pff| | | | | |]; try done. inv_ok. apply Nat.leb_le in Hr.
  exists pff. destruct (tx_Msgs tx) as [|m' [|]]; [by apply not_elem_of_nil in Hm| |cbn in Hr; lia].
  apply list_elem_of_singleton in Hm as <-. split; [done|]. by destruct (PaymentPromise_ValidateBasic _) as [[]| |].
Qed.

(** ** The runs side by side *)

Context `{AG : !AnteAgreement} (Hclean : clean_failures).

(** A transaction of the mempool, within the scope of the interface. *)
Definition eligible (raw : bytes) : Prop := checked raw ∧ ag_seen (sdk_bytes raw).

Context (txCache : gmap bytes bytes) (st0 st0' : AState store) (ctx0 ctx0' : Ctx) (b0 : Builder).

Abbreviation process_tx := (process_tx workers handler msgRouter txCache) (only parsing).

(** The proposer has reached the state [st] and [ctx] with the square [builder]
    by keeping [txs]; the validator has processed them and reached [ps]. *)
Record linked (st : AState store) (ctx : Ctx) (builder : Builder) (rank : nat)
    (txs : list bytes) (ps : ProcState) (cs : list ClassifiedTx) : Prop := {
  lk_store : a_store (ps_st ps) = a_store st;
  lk_inv : ag_inv (ps_st ps);
  lk_inv_proposer : ag_inv st;
  lk_env : base_env ctx (ps_ctx ps);
  lk_process : fold_res process_tx txs (mkProcState st0' ctx0' 0 0 0) = Ok ps;
  lk_classify : ClassifyTxs txs = Ok cs;
  lk_appends : appends b0 cs builder;
  lk_sorted : StronglySorted (λ c d, tx_rank c <= tx_rank d)%nat cs;
  lk_rank : Forall (λ c, tx_rank c <= rank)%nat cs;
  lk_params : blob_of (a_store st) = blob_of (a_store st0);
  lk_block : c_block ctx = c_block ctx0;
}.

Lemma ClassifyTxs_snoc txs cs raw c :
  ClassifyTxs txs = Ok cs → ClassifyTx raw = Ok c → ClassifyTxs (txs ++ [raw]) = Ok (cs ++ [c]).
Proof.
  revert cs. induction txs as [|t txs IH]; intros cs H Hc; cbn in *.
  - apply Ok_inj in H as <-. rewrite Hc. done.
  - inv_ok. subst cs. rewrite Hr. cbn. erewrite IH by eauto. done.
Qed.

Lemma sorted_snoc rank cs c : StronglySorted (λ c d, tx_rank c <= tx_rank d)%nat cs →
  Forall (λ c, tx_rank c <= rank)%nat cs → (rank <= tx_rank c)%nat →
  StronglySorted (λ c d, tx_rank c <= tx_rank d)%nat (cs ++ [c]).
Proof.
  intros Hs Hr Hc. induction Hs as [|d cs Hs IH Hd]; cbn; [repeat constructor|].
  apply Forall_cons in Hr as [Hdr Hr]. constructor; [by apply IH|].
  apply Forall_app. split; [done|]. constructor; [lia|done].
Qed.

(** The proposer drops a transaction. *)
Lemma linked_drop st ctx builder rank txs ps cs st' ctx' rank' :
  linked st ctx builder rank txs ps cs → a_store st' = a_store st → ag_inv st' → base_env ctx ctx' →
  (rank <= rank')%nat → linked st' ctx' builder rank' txs ps cs.
Proof.
  intros [] Hs Hi He Hr. constructor; try done; try congruence.
  - etrans; [symmetry; exact He|done].
  - eapply Forall_impl; [eassumption|]. cbn. lia.
  - destruct He as [He _]. congruence.
Qed.

(** The proposer keeps a transaction that the validator processes. *)
Lemma linked_keep st ctx builder rank txs ps cs raw st1 ctx1 builder1 ps1 c :
  linked st ctx builder rank txs ps cs →
  process_tx ps raw = Ok ps1 → ClassifyTx raw = Ok c → append_classified builder c = Ok (Some builder1) →
  tx_rank c = rank → a_store (ps_st ps1) = a_store st1 → ag_inv (ps_st ps1) → ag_inv st1 →
  base_env ctx1 (ps_ctx ps1) → base_env ctx ctx1 → ag_view (a_store st1) = ag_view (a_store st) →
  linked st1 ctx1 builder1 rank (txs ++ [raw]) ps1 (cs ++ [c]).
Proof.
  intros [] Hp Hc Ha Hr Hs Hi Hi' He Hee Hb%ag_view_blob. constructor; try done; try congruence.
  - by eapply fold_res_snoc.
  - by apply ClassifyTxs_snoc.
  - by eapply appends_snoc.
  - eapply sorted_snoc; eauto. lia.
  - apply Forall_app. split; [done|]. constructor; [lia|done].
  - destruct Hee as [Hee _]. congruence.
Qed.

Lemma base_env_WithTxBytes c b : base_env c (WithTxBytes c b).
Proof. done. Qed.
#[local] Hint Resolve base_env_WithTxBytes : core.
#[local] Hint Extern 0 (base_env ?c ?c) => reflexivity : core.

(** The validator's handler accepts what the proposer's accepted. *)
Lemma replay st ctx builder rank txs ps cs b tx st1 ctx1 :
  linked st ctx builder rank txs ps cs → ag_seen b → TxDecoder b = Ok tx →
  handler st (WithTxBytes ctx b) tx false = (st1, Continue ctx1) →
  ∃ st2, handler (ps_st ps) (WithTxBytes (ps_ctx ps) b) tx false = (st2, Continue ctx1) ∧
    a_store st2 = a_store st1 ∧ ag_inv st2 ∧ ag_inv st1 ∧ base_env ctx ctx1 ∧
    ag_view (a_store st1) = ag_view (a_store st).
Proof.
  intros L Hseen Hd Hh. destruct (ag_replay st (ps_st ps) (WithTxBytes ctx b) (WithTxBytes (ps_ctx ps) b) tx st1 ctx1)
    as (st2 & H2 & Hs & Hi); [done|done|done|apply L|apply L|apply L| |done|].
  { apply (lk_env _ _ _ _ _ _ _ L). }
  exists st2. assert (ag_inv st1) by (eapply ag_inv_step; [| |exact Hh|apply L]; done).
  repeat split; try done; try (by apply ag_env in Hh as (?&?&?&?)). by apply ag_view_step in Hh.
Qed.

(** ** The loops over plain and blob transactions

    The kept entries of the slice follow the transactions [pre] kept before. *)
Record fill_linked (pre : list bytes) (rank : nat) (fs : FillState) (ps : ProcState) : Prop := {
  fl_linked : ∃ cs, linked (f_st fs) (f_ctx fs) (f_builder fs) rank (pre ++ take (f_n fs) (f_slice fs)) ps cs;
  fl_pff : ps_pff ps = 0;
}.

(** What a step of a loop does to the slice. *)
Definition compacts (fs fs1 : FillState (store := store)) : Prop :=
  length (f_slice fs1) = length (f_slice fs) ∧ (f_n fs1 <= S (f_n fs))%nat ∧
  ∀ i, (f_n fs < i)%nat → drop i (f_slice fs1) = drop i (f_slice fs).

Lemma compacts_same fs fs1 : f_slice fs1 = f_slice fs → f_n fs1 = f_n fs → compacts fs fs1.
Proof. intros Hs Hn. unfold compacts. rewrite Hs, Hn. auto with lia. Qed.

Lemma store_at_Ok sl n v sl' : store_at sl n v = Ok sl' → (n < length sl)%nat ∧ sl' = <[n := v]> sl.
Proof. unfold store_at. destruct (Nat.ltb_spec n (length sl)); [|done]. by intros [= <-]. Qed.

Lemma compacts_store fs n' sl st ctx b cnt v : f_n fs = n' → store_at (f_slice fs) n' v = Ok sl →
  compacts fs (mkFillState st ctx b cnt sl (S n')) ∧ take (S n') sl = take n' (f_slice fs) ++ [v].
Proof.
  intros <- (Hn & ->)%store_at_Ok. split; [|by apply take_insert_snoc].
  unfold compacts; cbn. rewrite length_insert. repeat split; [done|]. intros i Hi. by apply drop_insert_le.
Qed.

(** A transaction that is skipped before the handler runs. *)
Lemma fill_skip pre rank fs ps ctx : fill_linked pre rank fs ps → base_env (f_ctx fs) ctx →
  fill_linked pre rank (set_ctx fs ctx) ps ∧ compacts fs (set_ctx fs ctx).
Proof.
  intros [[cs L] Hp] He. split; [|by apply compacts_same]. split; [|done]. exists cs. cbn.
  eapply linked_drop; [done|done|apply L|done|done].
Qed.

(** A transaction that the handler rejects, with its append undone. *)
Lemma fill_fail pre rank fs ps ctx b tx st1 ctx1 e : fill_linked pre rank fs ps → base_env (f_ctx fs) ctx →
  ag_seen b → TxDecoder b = Ok tx →
  handler (f_st fs) (WithTxBytes ctx b) tx false = (st1, Fail ctx1 e) →
  let fs1 := mkFillState st1 ctx1 (f_builder fs) (f_count fs) (f_slice fs) (f_n fs) in
  fill_linked pre rank fs1 ps ∧ compacts fs fs1.
Proof.
  intros [[cs L] Hp] He Hseen Hd Hh fs1. split; [|by apply compacts_same]. split; [|done]. exists cs. cbn.
  eapply linked_drop; [done|by eapply Hclean|eapply ag_inv_step; [| |exact Hh|apply L]; done| |done].
  apply ag_env_fail in Hh. etrans; [exact He|]. etrans; [apply base_env_WithTxBytes|exact Hh].
Qed.

(** The validator's treatment of a plain transaction. *)
Lemma process_normal ps raw tx st1 ctx1 :
  normal_ok raw → checked raw → TxDecoder raw = Ok tx → ps_sdk ps + len (tx_Msgs tx) <= MaxSDKMessages →
  handler (ps_st ps) (WithTxBytes (ps_ctx ps) raw) tx false = (st1, Continue ctx1) →
  process_tx ps raw = Ok (mkProcState st1 ctx1 (ps_sdk ps + len (tx_Msgs tx)) (ps_pfb ps) (ps_pff ps)) ∧
  ClassifyTx raw = Ok (NewClassifiedTx raw) ∧ tx_rank (NewClassifiedTx raw) = 0%nat.
Proof.
  intros (Hl & Hu & tx' & Hd' & Hc) [_ Hck] Hd Hn Hh. assert (tx' = tx) as -> by congruence.
  specialize (Hck tx Hu Hd). destruct (no_pff tx Hc) as [Hp Hs]. split; [|split].
  - unfold Proposal.process_tx. rewrite (proj2 (Z.leb_le _ _) Hl). cbn. rewrite Hu. cbn. rewrite Hd. cbn.
    rewrite Hck, Hp, Hs. cbn. rewrite (proj2 (Z.leb_le _ _) Hn). cbn. by rewrite Hh.
  - unfold ClassifyTx. rewrite (TryParseFibreTx_spec raw tx Hu (TxDecoder_plain raw tx Hu Hd Hck)), Hp. done.
  - cbn. by rewrite Hu.
Qed.

Lemma normal_step_linked raw fs fs1 ps :
  normal_ok raw → eligible raw → fill_linked [] 0 fs ps → f_count fs = ps_sdk ps →
  normal_step handler raw fs = Ok fs1 →
  compacts fs fs1 ∧ ∃ ps1, fill_linked [] 0 fs1 ps1 ∧ f_count fs1 = ps_sdk ps1 ∧ ps_pfb ps1 = ps_pfb ps.
Proof.
  intros Hn [Hck Hseen] L Hc Hstep. unfold normal_step in Hstep.
  assert (sdk_bytes raw = raw) as Hsb by (unfold sdk_bytes; by destruct Hn as (_ & -> & _)).
  rewrite Hsb in Hseen.
  destruct (TxDecoder raw) as [tx| |] eqn:Hd; [|by apply Ok_inj in Hstep as <-; split; [by apply compacts_same|eauto]|done].
  destruct (Z.ltb_spec MaxSDKMessages (f_count fs + len (tx_Msgs tx))) as [|Hcnt].
  { apply Ok_inj in Hstep as <-. destruct (fill_skip [] 0 fs ps (WithTxBytes (f_ctx fs) raw) L) as [L1 C1]; eauto. }
  destruct (AppendTx (f_builder fs) raw) as [b|] eqn:Ha.
  2:{ apply Ok_inj in Hstep as <-. destruct (fill_skip [] 0 fs ps (WithTxBytes (f_ctx fs) raw) L) as [L1 C1]; eauto. }
  destruct (handler _ _ _ _) as [st1 [ctx1|ctx1 e|]] eqn:Hh; [| |done].
  - inv_ok. subst fs1. destruct (compacts_store fs _ r st1 ctx1 b (f_count fs + len (tx_Msgs tx)) raw eq_refl Hr) as [C1 Ht].
    split; [exact C1|]. destruct L as [[cs L] Hpff].
    destruct (replay _ _ _ _ _ _ _ _ _ _ _ L Hseen Hd Hh) as (st2 & H2 & Hs2 & Hi2 & Hi1 & He2 & Hb2).
    destruct (process_normal ps raw tx st2 ctx1) as (Hp & Hcl & Hrk); [done..|lia|done|].
    exists (mkProcState st2 ctx1 (ps_sdk ps + len (tx_Msgs tx)) (ps_pfb ps) (ps_pff ps)). split; [|by cbn; rewrite Hc]. split; [|done].
    exists (cs ++ [NewClassifiedTx raw]). cbn [f_st f_ctx f_builder f_n f_slice].
    rewrite Ht, app_assoc. eapply linked_keep; eauto; [|done]. cbn. destruct Hn as (_ & -> & _). by rewrite Ha.
  - rewrite (RevertLastTx_append _ _ _ Ha) in Hstep. cbn in Hstep. apply Ok_inj in Hstep as <-.
    destruct (fill_fail [] 0 fs ps (f_ctx fs) raw tx st1 ctx1 e L) as [L1 C1]; eauto.
Qed.

Lemma normal_loop_linked l i fs fs1 ps :
  Forall (λ raw, normal_ok raw ∧ eligible raw) l → drop i (f_slice fs) = l → (f_n fs <= i)%nat →
  fill_linked [] 0 fs ps → f_count fs = ps_sdk ps →
  normal_loop handler (length l) i fs = Ok fs1 →
  ∃ ps1, fill_linked [] 0 fs1 ps1 ∧ ps_pfb ps1 = ps_pfb ps.
Proof.
  intros Hl. revert i fs ps. induction Hl as [|raw l [Hn Hck] _ IH]; intros i fs ps Hd Hi L Hc H; cbn in H.
  { apply Ok_inj in H as <-. eauto. }
  inv_ok. apply drop_cons_lookup in Hd as [Hx Hd]. assert (r = raw) as -> by congruence.
  apply (normal_step_linked raw fs r0 ps) in Hr0 as [(Hlen & Hn' & Hdrop) (ps1 & L1 & Hc1 & Hp1)]; [|done..].
  destruct (IH (S i) r0 ps1) as (ps2 & L2 & Hp2); [rewrite Hdrop by lia; done|lia|done..|].
  exists ps2. split; [done|congruence].
Qed.

(** The validator's treatment of a blob transaction: the cache of validated
    transactions is irrelevant for one that is valid. *)
Lemma cache_irrelevant bTx :
  ValidateBlobTx workers (Some bTx) SubtreeRootThreshold = Ok tt →
  (ValidateBlobTxWithCache workers txCache bTx).2 = Ok tt.
Proof.
  intros Hv. unfold ValidateBlobTxWithCache. case_match; cbn [snd]; [|done].
  apply ValidateBlobTx_Ok in Hv as (msg & -> & _). done.
Qed.

Lemma process_blob ps raw bTx tx st1 ctx1 :
  blob_ok bTx raw → checked raw → TxDecoder (btx_Tx bTx) = Ok tx → ps_pfb ps + len (tx_Msgs tx) <= MaxPFBMessages →
  handler (ps_st ps) (WithTxBytes (ps_ctx ps) (btx_Tx bTx)) tx false = (st1, Continue ctx1) →
  process_tx ps raw = Ok (mkProcState st1 ctx1 (ps_sdk ps) (ps_pfb ps + len (tx_Msgs tx)) (ps_pff ps)) ∧
  ClassifyTx raw = Ok (NewClassifiedTx raw) ∧ tx_rank (NewClassifiedTx raw) = 1%nat.
Proof.
  intros (Hl & Hu & Hcan) [Hck _] Hd Hn Hh. specialize (Hck bTx Hu). split; [|split].
  - unfold Proposal.process_tx. rewrite (proj2 (Z.leb_le _ _) Hl). cbn. rewrite Hu. cbn. rewrite Hcan. cbn.
    rewrite Hd. cbn. rewrite (cache_irrelevant bTx Hck). cbn. rewrite (proj2 (Z.leb_le _ _) Hn). cbn. by rewrite Hh.
  - unfold ClassifyTx, TryParseFibreTx. by rewrite Hu.
  - cbn. by rewrite Hu.
Qed.

Lemma blob_step_linked pre i raw bTx fs fs1 ps :
  blob_ok bTx raw → eligible raw → f_slice fs !! i = Some raw → fill_linked pre 1 fs ps → f_count fs = ps_pfb ps →
  blob_step handler i bTx fs = Ok fs1 →
  compacts fs fs1 ∧ ∃ ps1, fill_linked pre 1 fs1 ps1 ∧ f_count fs1 = ps_pfb ps1.
Proof.
  intros Hb [Hck Hseen] Hi L Hc Hstep. unfold blob_step in Hstep.
  assert (sdk_bytes raw = btx_Tx bTx) as Hsb by (unfold sdk_bytes; by destruct Hb as (_ & -> & _)).
  rewrite Hsb in Hseen.
  destruct (TxDecoder (btx_Tx bTx)) as [tx| |] eqn:Hd; [|by apply Ok_inj in Hstep as <-; split; [by apply compacts_same|eauto]|done].
  destruct (fill_skip pre 1 fs ps (WithTxBytes (f_ctx fs) (btx_Tx bTx)) L) as [Ls Cs]; [done|].
  destruct (Z.ltb_spec MaxPFBMessages (f_count fs + len (tx_Msgs tx))) as [|Hcnt].
  { apply Ok_inj in Hstep as <-. eauto. }
  destruct (AppendBlobTx (f_builder fs) bTx) as [[b|]| |] eqn:Ha; [|apply Ok_inj in Hstep as <-; eauto..|done].
  destruct (handler _ _ _ _) as [st1 [ctx1|ctx1 e|]] eqn:Hh; [| |done].
  - apply bind_Ok in Hstep as (raw' & Hr' & Hstep). inv_ok. subst fs1. assert (raw' = raw) as -> by congruence.
    destruct (compacts_store fs _ r st1 ctx1 b (f_count fs + len (tx_Msgs tx)) raw eq_refl Hr) as [C1 Ht].
    split; [exact C1|]. destruct L as [[cs L] Hpff].
    destruct (replay _ _ _ _ _ _ _ _ _ _ _ L Hseen Hd Hh) as (st2 & H2 & Hs2 & Hi2 & Hi1 & He2 & Hb2).
    destruct (process_blob ps raw bTx tx st2 ctx1) as (Hp & Hcl & Hrk); [done..|lia|done|].
    exists (mkProcState st2 ctx1 (ps_sdk ps) (ps_pfb ps + len (tx_Msgs tx)) (ps_pff ps)).
    split; [|by cbn; rewrite Hc]. split; [|done].
    exists (cs ++ [NewClassifiedTx raw]). cbn [f_st f_ctx f_builder f_n f_slice].
    rewrite Ht, app_assoc. eapply linked_keep; eauto; [|done]. cbn. destruct Hb as (_ & -> & _). by rewrite Ha.
  - rewrite (RevertLastBlobTx_append _ _ _ Ha) in Hstep. cbn in Hstep. apply Ok_inj in Hstep as <-.
    destruct (fill_fail pre 1 fs ps (f_ctx fs) (btx_Tx bTx) tx st1 ctx1 e L) as [L1 C1]; eauto.
Qed.

Lemma blob_loop_linked pre l raws i fs fs1 ps :
  Forall2 blob_ok l raws → Forall eligible raws → drop i (f_slice fs) = raws → (f_n fs <= i)%nat →
  fill_linked pre 1 fs ps → f_count fs = ps_pfb ps →
  blob_loop handler i l fs = Ok fs1 → ∃ ps1, fill_linked pre 1 fs1 ps1.
Proof.
  intros Hl. revert i fs ps. induction Hl as [|bTx raw l raws Hb _ IH]; intros i fs ps Hck Hd Hi L Hc H; cbn in H.
  { apply Ok_inj in H as <-. eauto. }
  inv_ok. apply Forall_cons in Hck as [Hck Hcks]. apply drop_cons_lookup in Hd as [Hx Hd].
  apply (blob_step_linked pre i raw bTx fs r ps) in Hr as [(Hlen & Hn' & Hdrop) (ps1 & L1 & Hc1)]; [|done..].
  apply (IH (S i) r ps1); [done|rewrite Hdrop by lia; done|lia|done..].
Qed.

(** ** The loop over pay-for-fibre transactions *)

Lemma execute_same st st2 ctx tx st' : a_store st2 = a_store st →
  executeTxMsgs st ctx tx msgRouter = (st', Ok tt) →
  executeTxMsgs st2 ctx tx msgRouter = (mkAState (a_store st') (a_pffSigCache st2), Ok tt).
Proof.
  intros Hs. unfold executeTxMsgs. destruct msgRouter as [router|].
  - rewrite Hs. destruct (run_msgs router _ _ _); intros [= <-]; done.
  - intros [= <-]. rewrite <- Hs. by destruct st2.
Qed.

Lemma execute_cache st ctx tx st' : executeTxMsgs st ctx tx msgRouter = (st', Ok tt) →
  st' = mkAState (a_store st') (a_pffSigCache st).
Proof. unfold executeTxMsgs. repeat case_match; intros [= <-]; [done|by destruct st]. Qed.

Lemma process_fibre ps raw tx st1 ctx1 st2 :
  fibre_ok raw → TxDecoder raw = Ok tx → ps_pff ps + len (tx_Msgs tx) <= MaxPayForFibreMessages →
  handler (ps_st ps) (WithTxBytes (ps_ctx ps) raw) tx false = (st1, Continue ctx1) →
  executeTxMsgs st1 ctx1 tx msgRouter = (st2, Ok tt) →
  process_tx ps raw = Ok (mkProcState st2 ctx1 (ps_sdk ps) (ps_pfb ps) (ps_pff ps + len (tx_Msgs tx))).
Proof.
  intros (Hl & Hu & tx' & Hd' & Hc & Hs) Hd Hn Hh Hx. assert (tx' = tx) as -> by congruence.
  destruct (pff_shape tx Hc Hs) as (pff & Hm & _). unfold Proposal.process_tx.
  rewrite (proj2 (Z.leb_le _ _) Hl). cbn. rewrite Hu. cbn. rewrite Hd. cbn. rewrite Hs.
  assert (payForFibreMsg tx = Some pff) as Hp by (unfold payForFibreMsg; by rewrite Hm). rewrite Hp.
  assert (len (tx_Msgs tx) = 1) as H1 by by rewrite Hm. rewrite H1 in Hn |- *. rewrite Hm. cbn.
  rewrite (proj2 (Z.ltb_ge _ _) Hn). cbn. rewrite Hh. cbn. by rewrite Hx.
Qed.

(** The state of the loop linked to the validator's. *)
Definition fibre_linked (pre : list bytes) (ctx : Ctx) (fs : FibreState) (ps : ProcState) : Prop :=
  fb_count fs = ps_pff ps ∧ ∃ cs, linked (fb_st fs) ctx (fb_builder fs) 2 (pre ++ fb_kept fs) ps cs.

Lemma fibre_drop pre ctx fs ps st : fibre_linked pre ctx fs ps → ag_inv st →
  ag_view (a_store st) = ag_view (a_store (fb_st fs)) →
  fibre_linked pre ctx (drop_branch fs st (fb_builder fs)) ps.
Proof.
  intros [Hc [cs L]] Hi Hv. split; [done|]. exists cs. cbn. eapply linked_drop; try done. by apply ag_inv_view.
Qed.

Lemma fibre_step_linked pre ctx raw fs fs1 ps :
  fibre_ok raw → eligible raw → fibre_linked pre ctx fs ps → fibre_step handler msgRouter ctx raw fs = Ok fs1 →
  ∃ ps1, fibre_linked pre ctx fs1 ps1.
Proof.
  intros Hok [_ Hseen] L Hstep. unfold fibre_step in Hstep.
  assert (sdk_bytes raw = raw) as Hsb by (unfold sdk_bytes; by destruct Hok as (_ & -> & _)).
  rewrite Hsb in Hseen.
  destruct (TryParseFibreTx raw) as [[ft| |]|] eqn:Hp; [|apply Ok_inj in Hstep as <-; eauto|done|apply Ok_inj in Hstep as <-; eauto].
  destruct (TxDecoder raw) as [tx| |] eqn:Hd; [|apply Ok_inj in Hstep as <-; eauto|done].
  destruct (Z.ltb_spec MaxPayForFibreMessages (fb_count fs + len (tx_Msgs tx))) as [|Hcnt];
    [apply Ok_inj in Hstep as <-; eauto|].
  destruct (AppendFibreTx (fb_builder fs) ft) as [[b|]| |] eqn:Ha; [|apply Ok_inj in Hstep as <-; eauto..|done].
  destruct (handler _ _ _ _) as [st1 [ctx1|ctx1 e|]] eqn:Hh; [| |done].
  2:{ rewrite (RevertLastPayForFibreTx_append _ _ _ Ha) in Hstep. cbn in Hstep. apply Ok_inj in Hstep as <-.
      exists ps. apply fibre_drop; [done| |by eapply ag_view_step]. destruct L as [_ [cs L]]. eapply ag_inv_step; [| |exact Hh|apply L]; done. }
  destruct (executeTxMsgs st1 ctx1 tx msgRouter) as [st2 [[]| |]] eqn:Hx; [| |done].
  2:{ rewrite (RevertLastPayForFibreTx_append _ _ _ Ha) in Hstep. cbn in Hstep. apply Ok_inj in Hstep as <-.
      assert (st2 = st1) as -> by (unfold executeTxMsgs in Hx; repeat case_match; by injection Hx).
      exists ps. apply fibre_drop; [done| |by eapply ag_view_step]. destruct L as [_ [cs L]].
      eapply ag_inv_step; [| |exact Hh|apply L]; done. }
  apply Ok_inj in Hstep as <-. destruct L as [Hc [cs L]].
  destruct (replay _ _ _ _ _ _ _ _ _ _ _ L Hseen Hd Hh) as (st3 & H3 & Hs3 & Hi3 & Hi1 & He3 & Hb3).
  pose proof (execute_same _ _ _ _ _ Hs3 Hx) as Hx3.
  pose proof (process_fibre ps raw tx st3 ctx1 _ Hok Hd ltac:(lia) H3 Hx3) as Hproc.
  match type of Hproc with _ = Ok ?ps1 => exists ps1 end.
  split; [by cbn; rewrite Hc|]. exists (cs ++ [ClassifiedFibreTx ft]). cbn [fb_st fb_builder fb_kept].
  rewrite app_assoc. eapply linked_keep; [exact L|exact Hproc| |cbn; by rewrite Ha|done|done| | | |done|].
  - unfold ClassifyTx. rewrite Hp. cbn. by eapply NewClassifiedFibreTx_total.
  - cbn. apply ag_inv_view; [|done]. by rewrite Hs3, (ag_view_exec _ _ _ _ Hx).
  - rewrite (execute_cache _ _ _ _ Hx). apply ag_inv_view; [|done]. by apply ag_view_exec in Hx.
  - cbn. done.
  - apply ag_view_exec in Hx. congruence.
Qed.

Lemma fibre_loop_linked pre ctx l fs fs1 ps :
  Forall (λ raw, fibre_ok raw ∧ eligible raw) l → fibre_linked pre ctx fs ps →
  processFibreTxsForSquare handler msgRouter ctx l fs = Ok fs1 → ∃ ps1, fibre_linked pre ctx fs1 ps1.
Proof.
  unfold processFibreTxsForSquare. intros Hl. revert fs ps. induction Hl as [|raw l [Hok Hel] _ IH]; intros fs ps L H; cbn in H.
  { apply Ok_inj in H as <-. eauto. }
  inv_ok. apply (fibre_step_linked pre ctx raw fs r ps) in Hr as [ps1 L1]; [|done..]. eauto.
Qed.

(** ** The whole of [Fill] *)

Lemma max_bytes_loop_subset txs cur max raw : raw ∈ max_bytes_loop txs cur max → raw ∈ txs.
Proof.
  revert cur. induction txs as [|t txs IH]; intros cur; cbn; [done|].
  case_match; rewrite ?elem_of_cons; [eauto|]. intros [->|H']; eauto.
Qed.

Lemma filterByMaxBytes_subset txs max raw : raw ∈ filterByMaxBytes txs max → raw ∈ txs.
Proof. unfold filterByMaxBytes. case_match; [apply max_bytes_loop_subset|done]. Qed.

Lemma Fill_linked txs max kept builder :
  Forall eligible txs → a_store st0' = a_store st0 → ag_inv st0 → ag_inv st0' → base_env ctx0 ctx0' →
  Fill handler msgRouter b0 st0 ctx0 txs max = Ok (kept, builder) →
  ∃ st ctx ps cs, linked st ctx builder 2 kept ps cs.
Proof.
  intros Hck Hs Hi0 Hi He. unfold Fill. set (raws := filterByMaxBytes txs max).
  destruct (separateTxs_spec raws) as (Hn & Hb & Hf). intros H. inv_ok. injection H as <- <-.
  assert (∀ raw, raw ∈ normalTxs (separateTxs raws) ++ rawBlobTxs (separateTxs raws) ++ payForFibreTxs (separateTxs raws)
            → eligible raw) as Hsub.
  { intros raw Hraw%separateTxs_subset%filterByMaxBytes_subset. by eapply Forall_forall in Hck. }
  apply (normal_loop_linked _ _ _ _ (mkProcState st0' ctx0' 0 0 0)) in Hr
    as (ps1 & [[cs1 L1] Hp1] & Hpfb1); cycle 1; [|done|done| |done|].
  { apply Forall_forall. intros raw Hraw. split; [by eapply Forall_forall in Hn|]. apply Hsub, elem_of_app. by left. }
  { split; [|done]. exists []. constructor; cbn; try done; try constructor. }
  set (pre := take (f_n r) (f_slice r)) in *.
  apply (blob_loop_linked pre _ _ _ _ _ ps1 Hb) in Hr0 as (ps2 & [[cs2 L2] Hp2]); cycle 1; [|done|done| |done|].
  { apply Forall_forall. intros raw Hraw. apply Hsub. rewrite !elem_of_app. auto. }
  { split; [|done]. exists cs1. cbn. rewrite app_nil_r. eapply linked_drop; [exact L1|done|apply L1|done|lia]. }
  apply (fibre_loop_linked (pre ++ take (f_n r0) (f_slice r0)) _ _ _ _ ps2) in Hr1 as (ps3 & _ & cs3 & L3); cycle 1.
  { apply Forall_forall. intros raw Hraw. split; [by eapply Forall_forall in Hf|]. apply Hsub. rewrite !elem_of_app. auto. }
  { split; [done|]. exists cs2. cbn. rewrite app_nil_r. eapply linked_drop; [exact L2|done|apply L2|done|lia]. }
  rewrite <- app_assoc in L3. eauto.
Qed.
End Agreement.

(** ** The whole of both handlers *)

Section Handlers.
Context `{SP : SharePackage} `{TP : !TxPackage} `{TC : TxCodec} `{CR : Crypto} `{AC : AddressCodec}.
Context `{SQ : !SquarePackage} `{EC : ErasureCoding} `{GM : GasMeterOps} `{PS : ProtoSize} `{PC : !ParamsCodec}.
Context `{SL : !ShareLaws} `{TL : !TxLaws} `{TCL : !TxCodecLaws} `{SQL : !SquareLaws} `{CL : !CodingLaws}.
Context {store : Type} (blob_of : store → Blob.World) (workers : Z).
Context (handler : AnteHandler store) (msgRouter : option (MessageRouter (store := store))).

Lemma prepare_process_clean `{AG : !AnteAgreement blob_of handler msgRouter}
    txCache st st' ctx ctx' txs max prop : clean_failures handler →
  Forall (eligible blob_of workers handler msgRouter) txs →
  a_store st' = a_store st → ag_inv blob_of handler msgRouter st → ag_inv blob_of handler msgRouter st' →
  base_env ctx ctx' →
  PrepareProposalHandler blob_of handler msgRouter st ctx txs max = Ok prop →
  ProcessProposalHandler blob_of workers handler msgRouter txCache st' ctx' prop = accept.
Proof.
  intros Hcl Hck Hs Hi0 Hi He. unfold PrepareProposalHandler. intros H. inv_ok. destruct r1 as [kept builder].
  inv_ok. subst prop.
  destruct (Fill_linked blob_of workers _ _ Hcl txCache _ _ _ _ _ _ _ _ _ Hck Hs Hi0 Hi He Hr1) as (st1 & ctx1 & ps & cs & [L1 L2 L0 L3 L4 L5 L6 L7 L8 L9 L10]).
  unfold ProcessProposalHandler, process. cbn [prop_Txs prop_SquareSize prop_DataRootHash].
  rewrite L4. cbn [mbind result_bind]. rewrite L5. cbn [mbind result_bind].
  destruct L3 as [L3 _]. rewrite <- L3, L10, L1, L9, Hr. cbn [mbind result_bind].
  rewrite (Construct_appends _ _ _ _ _ Hr0 L6 L7), Hr2. cbn [mbind result_bind]. rewrite Hr3. cbn [mbind result_bind].
  unfold DA.ExtendSharesWithTreePool in Hr3. apply bind_Ok in Hr3 as (u & _ & Hr3).
  destruct (ExtendedWidth _ _ _ Hr5 Hr3) as [Hw Hb].
  rewrite !wrap_u64_id by (rewrite ?Hw; fits). rewrite Hw, Z.mul_comm, Z.div_mul, Z.eqb_refl by lia. cbn [ensure mbind result_bind].
  rewrite Hr4. cbn [mbind result_bind]. by rewrite bool_decide_true.
Qed.
End Handlers.

(** ** A branch of the store for every transaction

    The handler run on a branch of the store that is dropped when it fails, as
    [processFibreTxsForSquare] runs it. *)
Section Branches.
Context `{SP : SharePackage} `{TP : !TxPackage} `{TC : TxCodec} `{CR : Crypto} `{AC : AddressCodec}.
Context `{SQ : !SquarePackage} `{EC : ErasureCoding} `{GM : GasMeterOps} `{PS : ProtoSize} `{PC : !ParamsCodec}.
Context `{SL : !ShareLaws} `{TL : !TxLaws} `{TCL : !TxCodecLaws} `{SQL : !SquareLaws} `{CL : !CodingLaws}.
Context {store : Type} (blob_of : store → Blob.World) (workers : Z).
Context (handler : AnteHandler store) (msgRouter : option (MessageRouter (store := store))).

Definition on_branch : AnteHandler store := λ st ctx tx simulate,
  match handler st ctx tx simulate with
  | (st', Fail ctx' e) => (mkAState (a_store st) (a_pffSigCache st'), Fail ctx' e)
  | r => r
  end.

Lemma on_branch_clean : clean_failures on_branch.
Proof. intros st c tx st' c' e. unfold on_branch. repeat case_match; intros [= <-]; done. Qed.

Lemma on_branch_Continue st c tx sim st' c' :
  on_branch st c tx sim = (st', Continue c') ↔ handler st c tx sim = (st', Continue c').
Proof. unfold on_branch. by repeat case_match. Qed.

#[local] Instance on_branch_agreement `{AG : !AnteAgreement blob_of handler msgRouter} :
  AnteAgreement blob_of on_branch msgRouter.
Proof.
  refine {| ag_inv := ag_inv blob_of handler msgRouter; ag_seen := ag_seen blob_of handler msgRouter;
            ag_view := ag_view blob_of handler msgRouter |}.
  - intros st st2 c d tx st' c' Ho Hd Hh Hs H1 H2 He Hb. apply on_branch_Continue in Hh.
    destruct (ag_replay blob_of handler msgRouter st st2 c d tx st' c' Ho Hd Hh Hs H1 H2 He Hb) as (st2' & Hh2 & Hr).
    exists st2'. by rewrite on_branch_Continue.
  - intros st c tx st' r Ho Hd Hh Hi. unfold on_branch in Hh. destruct (handler st c tx false) as [st1 r1] eqn:E.
    pose proof (ag_inv_step _ _ _ st c tx st1 r1 Ho Hd E Hi) as Hi1. pose proof (ag_view_step _ _ _ st c tx st1 r1 E) as Hv.
    destruct r1; injection Hh as <- <-; try done. by apply ag_inv_view.
  - intros st c tx st' c' Hh. apply on_branch_Continue in Hh. by eapply ag_env.
  - intros st c tx st' c' e Hh. unfold on_branch in Hh. repeat case_match; simplify_eq. by eapply ag_env_fail.
  - intros st c tx st' r Hh. unfold on_branch in Hh. destruct (handler st c tx false) as [st1 r1] eqn:E.
    destruct r1; injection Hh as <- <-; try done; by eapply ag_view_step.
  - intros st c tx st' Hx. by eapply ag_view_exec.
  - apply ag_view_blob.
  - apply ag_inv_view.
Defined.

(** A validator never goes on after a failure, so it does not notice. *)
Lemma process_tx_on_branch txCache ps raw ps' :
  process_tx workers on_branch msgRouter txCache ps raw = Ok ps' →
  process_tx workers handler msgRouter txCache ps raw = Ok ps'.
Proof.
  unfold process_tx, on_branch. intros H. do 3 (apply bind_Ok in H as (? & -> & H); cbn [mbind result_bind]).
  repeat (apply bind_Ok in H as (? & -> & H); cbn [mbind result_bind]) || idtac.
  case_match; repeat (apply bind_Ok in H as (? & -> & H); cbn [mbind result_bind]);
    destruct (handler _ _ _ _) as [? []]; done.
Qed.

Lemma process_on_branch txCache st ctx req :
  ProcessProposalHandler blob_of workers on_branch msgRouter txCache st ctx req = accept →
  ProcessProposalHandler blob_of workers handler msgRouter txCache st ctx req = accept.
Proof.
  unfold ProcessProposalHandler, process. intros H.
  destruct (fold_res (process_tx workers on_branch msgRouter txCache) _ _) as [ps| |] eqn:E; [|done..].
  assert (fold_res (process_tx workers handler msgRouter txCache) (prop_Txs req) (mkProcState st ctx 0 0 0) = Ok ps) as ->;
    [|exact H].
  clear H. revert E. generalize (mkProcState st ctx 0 0 0). induction (prop_Txs req) as [|raw txs IH]; intros ps0 E; [done|].
  cbn in E |- *. apply bind_Ok in E as (ps1 & E1 & E). apply process_tx_on_branch in E1 as ->. by apply IH.
Qed.

(** A proposal whose transactions are those a proposer with branches keeps is
    accepted by every node with the same store. *)
Lemma prepare_process_agree `{AG : !AnteAgreement blob_of handler msgRouter} txCache st st' ctx ctx' txs max prop :
  Forall (λ raw, checked workers raw ∧ ag_seen blob_of handler msgRouter (sdk_bytes raw)) txs →
  a_store st' = a_store st → ag_inv blob_of handler msgRouter st → ag_inv blob_of handler msgRouter st' →
  base_env ctx ctx' →
  PrepareProposalHandler blob_of on_branch msgRouter st ctx txs max = Ok prop →
  ProcessProposalHandler blob_of workers handler msgRouter txCache st' ctx' prop = accept.
Proof.
  intros Hck Hs Hi0 Hi He Hp. apply process_on_branch.
  eapply (prepare_process_clean _ _ on_branch _ (AG := on_branch_agreement)); eauto using on_branch_clean.
Qed.
End Branches.

(** ** The size of a filled block

    The transactions that [Fill] keeps are among those it was given and stay
    within the limit on their encoded size. *)

Import Blob.

(** ** The byte filter *)

Section MaxBytes.
Context `{PS : ProtoSize} `{PSL : !ProtoSizeLaws}.

(** Sizes far beyond any transaction, for which the counter does not wrap. *)
Definition small_tx (tx : bytes) : Prop := len tx < 2 ^ 60.

Definition framed (tx : bytes) : Z := ComputeProtoSizeForTxs [tx].

Lemma ProtoSize_sum txs : ComputeProtoSizeForTxs txs = zsum (map framed txs).
Proof.
  induction txs as [|tx txs IH]; [apply ProtoSize_nil|]. cbn [map]. rewrite zsum_cons, ProtoSize_cons, IH. done.
Qed.

Lemma framed_nonneg tx : 0 <= framed tx.
Proof. apply ProtoSize_bounds. Qed.

Lemma ProtoSize_submseteq txs txs' : txs ⊆+ txs' → ComputeProtoSizeForTxs txs <= ComputeProtoSizeForTxs txs'.
Proof.
  rewrite !ProtoSize_sum. intros [rest Hp]%submseteq_Permutation.
  rewrite (zsum_Permutation _ _ (Permutation_map framed Hp)), map_app, zsum_app.
  assert (0 <= zsum (map framed rest)); [|lia]. apply zsum_nonneg, Forall_map, Forall_forall.
  intros tx _. apply framed_nonneg.
Qed.

Lemma max_bytes_loop_sublist txs cur max : sublist (max_bytes_loop txs cur max) txs.
Proof.
  revert cur. induction txs as [|tx txs IH]; intros cur; cbn; [constructor|].
  case_match; [by apply sublist_cons|by apply sublist_skip].
Qed.

Lemma max_bytes_loop_bound txs cur max :
  Forall small_tx txs → 0 <= cur <= max → max < 2 ^ 62 →
  cur + ComputeProtoSizeForTxs (max_bytes_loop txs cur max) <= max.
Proof.
  intros Hs. revert cur. induction Hs as [|tx txs Ht _ IH]; intros cur Hc Hm; cbn [max_bytes_loop].
  { rewrite ProtoSize_nil. lia. }
  pose proof (ProtoSize_bounds tx) as Hb. unfold small_tx, len in Ht.
  change (ComputeProtoSizeForTxs [tx]) with (framed tx) in *. unfold len in Hb.
  rewrite wrap_i64_id by (unfold i64, two63; lia).
  destruct (Z.ltb_spec max (cur + framed tx)); [by apply IH|].
  rewrite ProtoSize_cons. fold (framed tx). specialize (IH (cur + framed tx)). lia.
Qed.

Lemma filterByMaxBytes_sublist txs max : sublist (filterByMaxBytes txs max) txs.
Proof. unfold filterByMaxBytes. case_match; [apply max_bytes_loop_sublist|done]. Qed.
End MaxBytes.

Section Fill.
Context `{SP : SharePackage} `{TP : !TxPackage} `{TC : TxCodec} `{CR : Crypto} `{AC : AddressCodec}.
Context `{SQ : !SquarePackage} `{GM : GasMeterOps} `{PS : ProtoSize}.
Context {store : Type} (handler : AnteHandler store) (msgRouter : option (MessageRouter (store := store))).

(** Every transaction goes to at most one of the three lists. *)
Lemma separateTxs_submseteq raws :
  normalTxs (separateTxs raws) ++ rawBlobTxs (separateTxs raws) ++ payForFibreTxs (separateTxs raws) ⊆+ raws.
Proof.
  induction raws as [|raw raws IH]; [done|]. cbn [separateTxs].
  repeat case_match; cbn [add_normal add_blob add_fibre normalTxs rawBlobTxs payForFibreTxs];
    try (by apply submseteq_cons).
  - rewrite <- app_comm_cons, <- Permutation_middle. by apply submseteq_skip.
  - rewrite <- !Permutation_middle. by apply submseteq_skip.
  - rewrite <- app_comm_cons. by apply submseteq_skip.
Qed.

(** ** The loops keep a part of the slice they compact *)

(** One iteration keeps the element or not, and leaves the rest of the slice. *)
Definition keeps (raw : bytes) (fs fs1 : FillState (store := store)) : Prop :=
  compacts fs fs1 ∧
  (take (f_n fs1) (f_slice fs1) = take (f_n fs) (f_slice fs) ∨
   take (f_n fs1) (f_slice fs1) = take (f_n fs) (f_slice fs) ++ [raw]).

Lemma keeps_same raw fs fs1 : f_slice fs1 = f_slice fs → f_n fs1 = f_n fs → keeps raw fs fs1.
Proof. intros Hs Hn. split; [by apply compacts_same|]. rewrite Hs, Hn. by left. Qed.

Lemma keeps_store raw fs st ctx b cnt sl : store_at (f_slice fs) (f_n fs) raw = Ok sl →
  keeps raw fs (mkFillState st ctx b cnt sl (S (f_n fs))).
Proof.
  intros H. destruct (compacts_store fs _ sl st ctx b cnt raw eq_refl H) as [Hc Ht]. split; [done|]. by right.
Qed.

#[local] Hint Resolve keeps_same keeps_store : core.

Lemma normal_step_keeps raw fs fs1 : normal_step handler raw fs = Ok fs1 → keeps raw fs fs1.
Proof.
  unfold normal_step. intros H. repeat case_match; try discriminate H; inv_ok; subst fs1; auto.
Qed.

Lemma blob_step_keeps i raw tx fs fs1 : f_slice fs !! i = Some raw → blob_step handler i tx fs = Ok fs1 → keeps raw fs fs1.
Proof.
  unfold blob_step. intros Hi H. repeat case_match; try discriminate H; inv_ok; subst fs1; auto.
  rewrite Hi in Hr. injection Hr as <-. auto.
Qed.

(** What is kept and what is still to come is part of the original slice. *)
Definition remains (i : nat) (fs : FillState (store := store)) (slice : list bytes) : Prop :=
  (f_n fs <= i)%nat ∧ length (f_slice fs) = length slice ∧
  sublist (take (f_n fs) (f_slice fs) ++ drop i (f_slice fs)) slice.

Lemma keeps_remains i raw fs fs1 slice :
  remains i fs slice → f_slice fs !! i = Some raw → keeps raw fs fs1 → remains (S i) fs1 slice.
Proof.
  intros (Hn & Hl & Hs) Hi ((Hl1 & Hn1 & Hd) & Ht). split; [lia|]. split; [congruence|].
  rewrite (Hd (S i)) by lia. rewrite (drop_S _ _ _ Hi) in Hs. etrans; [|exact Hs]. destruct Ht as [->| ->].
  - apply sublist_app; [done|]. by apply sublist_cons.
  - by rewrite <- app_assoc.
Qed.

Lemma remains_end i fs slice : remains i fs slice → sublist (take (f_n fs) (f_slice fs)) slice.
Proof. intros (_ & _ & Hs). etrans; [|exact Hs]. apply sublist_inserts_r. done. Qed.

Lemma normal_loop_keeps k i fs fs1 slice : remains i fs slice →
  normal_loop handler k i fs = Ok fs1 → sublist (take (f_n fs1) (f_slice fs1)) slice.
Proof.
  revert i fs. induction k as [|k IH]; intros i fs Hr H; cbn in H.
  { apply Ok_inj in H as <-. by eapply remains_end. }
  apply bind_Ok in H as (raw & Hraw%index_Ok & H). apply bind_Ok in H as (fs2 & Hstep & H).
  eapply IH; [|exact H]. eauto using keeps_remains, normal_step_keeps.
Qed.

Lemma blob_loop_keeps txs i fs fs1 slice : remains i fs slice → (i + length txs <= length slice)%nat →
  blob_loop handler i txs fs = Ok fs1 → sublist (take (f_n fs1) (f_slice fs1)) slice.
Proof.
  revert i fs. induction txs as [|tx txs IH]; intros i fs Hr Hl H; cbn in H.
  { apply Ok_inj in H as <-. by eapply remains_end. }
  apply bind_Ok in H as (fs2 & Hstep & H). cbn in Hl.
  destruct (lookup_lt_is_Some_2 (f_slice fs) i) as [raw Hraw]; [destruct Hr as (_ & -> & _); lia|].
  eapply IH; [| |exact H]; [eauto using keeps_remains, blob_step_keeps|lia].
Qed.

Lemma fibre_step_kept ctx raw fs fs1 : fibre_step handler msgRouter ctx raw fs = Ok fs1 →
  fb_kept fs1 = fb_kept fs ∨ fb_kept fs1 = fb_kept fs ++ [raw].
Proof.
  unfold fibre_step. intros H. repeat case_match; try discriminate H; inv_ok; subst fs1; cbn; auto.
Qed.

Lemma fibre_loop_kept ctx txs fs fs1 : processFibreTxsForSquare handler msgRouter ctx txs fs = Ok fs1 →
  sublist (fb_kept fs1) (fb_kept fs ++ txs).
Proof.
  unfold processFibreTxsForSquare. revert fs. induction txs as [|raw txs IH]; intros fs H; cbn in H.
  { apply Ok_inj in H as <-. by rewrite app_nil_r. }
  apply bind_Ok in H as (fs2 & Hstep%fibre_step_kept & H). etrans; [by apply IH|].
  destruct Hstep as [->| ->]; [|by rewrite <- app_assoc]. apply sublist_app; [done|]. by apply sublist_cons.
Qed.

(** ** The whole of [Fill] *)

Lemma separateTxs_lengths raws : length (blobTxs (separateTxs raws)) = length (rawBlobTxs (separateTxs raws)).
Proof. induction raws as [|raw raws IH]; [done|]. cbn [separateTxs]. repeat case_match; cbn; auto. Qed.

Lemma Fill_submseteq b st ctx txs max kept b' : Fill handler msgRouter b st ctx txs max = Ok (kept, b') →
  kept ⊆+ filterByMaxBytes txs max.
Proof.
  unfold Fill. set (raws := filterByMaxBytes txs max). intros H.
  apply bind_Ok in H as (n & Hn & H). apply bind_Ok in H as (bl & Hb & H). apply bind_Ok in H as (f & Hf & H).
  apply Ok_inj in H. injection H as <- _.
  apply (normal_loop_keeps _ _ _ _ (normalTxs (separateTxs raws))) in Hn;
    [|split; [done|]; split; [done|]; by rewrite drop_0].
  apply (blob_loop_keeps _ _ _ _ (rawBlobTxs (separateTxs raws))) in Hb;
    [|split; [done|]; split; [done|]; by rewrite drop_0|cbn; by rewrite separateTxs_lengths].
  apply fibre_loop_kept in Hf. cbn in Hf. etrans; [|apply separateTxs_submseteq].
  by repeat apply submseteq_app; apply sublist_submseteq.
Qed.
End Fill.
