(* ===== verification/AnteAgreement.v ===== *)
(** * The ante handler satisfies the interface of the proposal handlers

    [NewAnteHandler] accepts on one node what it accepted on another with the
    same store: the decorators of this repository are functions of the store,
    the context and the transaction, and the cache of verified signatures only
    skips checks that would succeed. *)

From S2P Require Import Prelude Sdk LegacyDec GoSquare FibreParams FibrePromise PayForBlob Messages Minfee DataAvailability Ante AnteProofs Proposal ProposalProofs.
Import Blob.
#[local] Open Scope Z_scope.

Create HintDb ante.

Section Instance.
Context `{SP : SharePackage} `{TP : !TxPackage} `{TC : TxCodec} `{GM : GasMeterOps} {store : Type} `{SD : !SdkDecorators store} `{MF : MsgFormat}.
Context `{PC : !ParamsCodec} `{MPC : !Minfee.ParamsCodec} `{CR : Crypto} `{DO : DecOps} `{FO : Minfee.FeeOps}.
Context (blob_of : store → Blob.World) (minfee_of : store → Minfee.World).
Context (verify : store → Ctx → MsgPayForFibre → result unit).
Context (StdSignatureSize : PubKey → Z) (TxSigLimit : store → Z) (simKey : PubKey).
Context (paramFilters : string → option ParamFilter).

(** The part of the store that the verification of validator signatures reads
    (the staking module's historical records). *)
Context {History : Type} (history_of : store → History).
Hypothesis verify_reads : ∀ s s' c c' msg, history_of s = history_of s' → verify s c msg = verify s' c' msg.

(** The transactions that occur on the nodes, among which SHA-256 has no
    collision. *)
Context (occurs : bytes → Prop).
Hypothesis no_collision : ∀ a b, occurs a → occurs b → sha256 a = sha256 b → a = b.

(** Every cached transaction carries signatures that verify. *)
Definition sigcache_ok (st : AState store) : Prop :=
  ∀ key, key ∈ a_pffSigCache st → ∃ raw, occurs raw ∧ key = pffSigCacheKey raw ∧
    ∀ ctx tx msg, TxDecoder raw = Ok tx → payForFibreMsg tx = Some msg → verify (a_store st) ctx msg = Ok tt.

Lemma sigcache_ok_history st s' : history_of s' = history_of (a_store st) → sigcache_ok st →
  sigcache_ok (mkAState s' (a_pffSigCache st)).
Proof.
  intros Hs Hok key Hk. apply Hok in Hk as (raw & Ho & Hk & Hv). exists raw. repeat split; try done.
  intros ctx tx msg Hd Hm. cbn. by rewrite (verify_reads _ _ ctx ctx msg Hs), (Hv ctx tx msg).
Qed.

(** Two nodes reach the same outcome and the same store. *)
Definition same_outcome (r1 r2 : AState store * AnteResult) : Prop :=
  a_store r2.1 = a_store r1.1 ∧ r2.2 = r1.2 ∧ sigcache_ok r1.1 ∧ sigcache_ok r2.1.

Definition respects (h : AnteHandler store) : Prop := ∀ st st2 ctx tx simulate,
  occurs (c_TxBytes ctx) → TxDecoder (c_TxBytes ctx) = Ok tx → a_store st2 = a_store st → sigcache_ok st → sigcache_ok st2 →
  same_outcome (h st ctx tx simulate) (h st2 ctx tx simulate).

(** A decorator that is a function of the store and the context. *)
Definition lawful (d : Decorator store) : Prop := ∀ next, respects next → respects (d next).

(** The blob parameters, the staking history and the environment of the context
    are handed on. *)
Definition view (s : store) : Blob.World * History := (blob_of s, history_of s).

Definition frames (h : AnteHandler store) : Prop := ∀ st ctx tx simulate,
  let r := h st ctx tx simulate in
  view (a_store r.1) = view (a_store st) ∧
  match r.2 with Continue c | Fail c _ => base_env ctx c | Boom _ => True end.

Definition framing (d : Decorator store) : Prop := ∀ next, frames next → frames (d next).

Let sdk_plain : list (Decorator store) :=
  [CircuitBreakerDecorator; ExtensionOptionsDecorator; ValidateBasicDecorator; TxTimeoutHeightDecorator;
   ValidateMemoDecorator; SetPubKeyDecorator; ValidateSigCountDecorator; SigGasConsumeDecorator;
   SigVerificationDecorator; IncrementSequenceDecorator; RedundantRelayDecorator].

(** What the SDK's decorators are assumed to be: they leave the blob parameters,
    the staking history and the environment alone; and they are functions of
    the store and the context, of which the first installs a fresh gas meter. *)
Class SdkFramingLaws := {
  sdk_framing : Forall framing (SetUpContextDecorator :: sdk_plain);
  DeductFee_framing checker : framing (DeductFeeDecorator checker);
}.

Class SdkAgreementLaws := {
  sdk_framing_laws :: SdkFramingLaws;
  sdk_lawful : Forall lawful sdk_plain;
  DeductFee_lawful checker :
    (∀ st st2 ctx tx, a_store st2 = a_store st → checker st2 ctx tx = checker st ctx tx) →
    lawful (DeductFeeDecorator checker);
  SetUpContext_fresh next : respects next → ∀ st st2 c d tx simulate,
    occurs (c_TxBytes c) → TxDecoder (c_TxBytes c) = Ok tx → a_store st2 = a_store st → sigcache_ok st → sigcache_ok st2 →
    base_env c d → c_TxBytes c = c_TxBytes d →
    same_outcome (SetUpContextDecorator next st c tx simulate) (SetUpContextDecorator next st2 d tx simulate);
}.

(** ** The decorators of this repository *)

Lemma same_stop st st2 (r : AnteResult) : a_store st2 = a_store st → sigcache_ok st → sigcache_ok st2 →
  same_outcome (st, r) (st2, r).
Proof. done. Qed.
#[local] Hint Resolve same_stop : core.

Lemma lawful_guard check :
  (∀ st st2 ctx tx, a_store st2 = a_store st → check st2 ctx tx = check st ctx tx) → lawful (guard check).
Proof.
  intros Hc next Hn st st2 ctx tx sim Ho Hd Hs H1 H2. unfold guard. rewrite (Hc st st2 ctx tx Hs).
  case_match; eauto.
Qed.

Lemma lawful_charge gas : lawful (charge gas).
Proof. intros next Hn st st2 ctx tx sim Ho Hd Hs H1 H2. unfold charge. case_match; eauto. Qed.

Lemma lawful_FibreSignatureGas : lawful FibreSignatureGasDecorator.
Proof.
  intros next Hn st st2 ctx tx sim Ho Hd Hs H1 H2. unfold FibreSignatureGasDecorator.
  case_match; [by apply lawful_charge|eauto].
Qed.

Lemma lawful_MinGasPFB : lawful MinGasPFBDecorator.
Proof.
  intros next Hn st st2 ctx tx sim Ho Hd Hs H1 H2. unfold MinGasPFBDecorator.
  repeat case_match; [eauto..|by apply lawful_guard].
Qed.

Lemma lawful_BlobShare : lawful (BlobShareDecorator blob_of).
Proof.
  intros next Hn st st2 ctx tx sim Ho Hd Hs H1 H2. unfold BlobShareDecorator.
  case_match; [eauto|]. apply lawful_guard; try done. intros st' st2' ctx' tx' Hs'. by rewrite Hs'.
Qed.

Lemma lawful_TxSize : lawful (ConsumeTxSizeGasDecorator StdSignatureSize TxSigLimit simKey).
Proof.
  intros next Hn st st2 ctx tx sim Ho Hd Hs H1 H2. unfold ConsumeTxSizeGasDecorator. case_match; [|eauto].
  apply lawful_charge; try done. intros st' st2' ctx' tx' sim' Ho' Hd' Hs' H1' H2'. rewrite Hs'.
  destruct sim'; [|eauto]. case_match; eauto.
Qed.

Lemma lawful_SigVerification : lawful (FibreSignatureVerificationDecorator verify).
Proof.
  intros next Hn st st2 ctx tx sim Ho Hd Hs H1 H2. unfold FibreSignatureVerificationDecorator, payForFibreMessage.
  destruct (payForFibreMsg tx) as [msg|] eqn:Hm; [|by apply Hn]. destruct sim; [by apply Hn|].
  assert (∀ st', sigcache_ok st' → IsCached (a_pffSigCache st') (c_TxBytes ctx) = true →
            verify (a_store st') ctx msg = Ok tt) as Hcached.
  { intros st' Hok Hc%bool_decide_eq_true. apply Hok in Hc as (raw & Hr & Hk & Hv). unfold pffSigCacheKey in Hk.
    apply no_collision in Hk as <-; eauto. }
  assert (∀ st', sigcache_ok st' → verify (a_store st') ctx msg = Ok tt →
            sigcache_ok (mkAState (a_store st') (Cache (a_pffSigCache st') (c_TxBytes ctx)))) as Hnew.
  { intros st' Hok Hv key. cbn. unfold Cache. intros [->%elem_of_singleton|Hk]%elem_of_union; [|by apply Hok].
    exists (c_TxBytes ctx). split; [done|]. split; [done|]. intros ctx' tx' msg' Hd' Hm'. assert (tx' = tx) as -> by congruence.
    assert (msg' = msg) as -> by congruence. by rewrite (verify_reads (a_store st') (a_store st') ctx' ctx). }
  assert (verify (a_store st2) ctx msg = verify (a_store st) ctx msg) as Hvv by (apply verify_reads; by rewrite Hs).
  rewrite Hvv. pose proof (Hcached st H1) as Hc1. pose proof (Hcached st2 H2) as Hc2. rewrite Hvv in Hc2.
  destruct (0 <? length (c_TxBytes ctx))%nat; cbn [andb].
  - destruct (IsCached (a_pffSigCache st) _), (IsCached (a_pffSigCache st2) _);
      destruct (verify (a_store st) ctx msg) as [[]| |] eqn:Hv; try (by specialize (Hc1 eq_refl));
      try (by specialize (Hc2 eq_refl)); try (by apply same_stop); apply Hn; cbn; auto; try (by apply Hnew);
      try (by apply Hnew; [|rewrite Hvv]).
  - destruct (verify (a_store st) ctx msg) as [[]| |]; eauto.
Qed.

(** ** Frames *)

Lemma base_env_refl c : base_env c c.
Proof. repeat split. Qed.
#[local] Hint Resolve base_env_refl : core.

Lemma framing_guard check : framing (guard check).
Proof. intros next Hn st ctx tx sim. unfold guard. case_match; [apply Hn|by split..]. Qed.

Lemma framing_charge gas : framing (charge gas).
Proof. intros next Hn st ctx tx sim. unfold charge. case_match; [apply (Hn st (WithGasMeter ctx _))|by split..]. Qed.

Lemma framing_HandlePanic : framing HandlePanicDecorator.
Proof.
  intros next Hn st ctx tx sim. unfold HandlePanicDecorator. specialize (Hn st ctx tx sim).
  destruct (next st ctx tx sim) as [st' []]; done.
Qed.

Lemma framing_FibreSignatureGas : framing FibreSignatureGasDecorator.
Proof.
  intros next Hn st ctx tx sim. unfold FibreSignatureGasDecorator. case_match; [by apply framing_charge|apply Hn].
Qed.

Lemma framing_MinGasPFB : framing MinGasPFBDecorator.
Proof.
  intros next Hn st ctx tx sim. unfold MinGasPFBDecorator. destruct (c_IsReCheckTx ctx); [apply Hn|].
  destruct (_ =? 0); [apply Hn|by apply framing_guard].
Qed.

Lemma framing_BlobShare : framing (BlobShareDecorator blob_of).
Proof.
  intros next Hn st ctx tx sim. unfold BlobShareDecorator.
  destruct (negb _); [apply Hn|by apply framing_guard].
Qed.

Lemma framing_TxSize : framing (ConsumeTxSizeGasDecorator StdSignatureSize TxSigLimit simKey).
Proof.
  intros next Hn st ctx tx sim. unfold ConsumeTxSizeGasDecorator. case_match; [|by split].
  apply framing_charge. intros st' ctx' tx' sim'. destruct sim'; [|apply Hn].
  case_match; [apply (Hn st' (WithGasMeter ctx' _))|by split..].
Qed.

Lemma framing_SigVerification : framing (FibreSignatureVerificationDecorator verify).
Proof.
  intros next Hn st ctx tx sim. unfold FibreSignatureVerificationDecorator.
  destruct (payForFibreMessage tx) as [msg|]; [|apply Hn]. destruct sim; [apply Hn|].
  destruct (_ && _); [apply Hn|]. destruct (verify _ _ _); [|by split..].
  destruct (_ <? _)%nat; [|apply Hn]. exact (Hn (mkAState _ _) ctx tx false).
Qed.

(** ** The chain *)

Lemma chain_respects ds : Forall lawful ds → respects (ChainAnteDecorators ds).
Proof. induction 1 as [|d ds Hd _ IH]; [|exact (Hd _ IH)]. intros st st2 ctx tx sim _ _ Hs H1 H2. by apply same_stop. Qed.

Lemma chain_frames ds : Forall framing ds → frames (ChainAnteDecorators ds).
Proof. induction 1 as [|d ds Hd _ IH]; [|exact (Hd _ IH)]. intros st ctx tx sim. by split. Qed.

Let decorators := ante_decorators blob_of minfee_of verify StdSignatureSize TxSigLimit simKey paramFilters.
Let newAnteHandler := NewAnteHandler blob_of minfee_of verify StdSignatureSize TxSigLimit simKey paramFilters.

#[local] Hint Resolve lawful_guard lawful_FibreSignatureGas lawful_MinGasPFB lawful_BlobShare lawful_TxSize
  lawful_SigVerification framing_guard framing_HandlePanic framing_FibreSignatureGas framing_MinGasPFB
  framing_BlobShare framing_TxSize framing_SigVerification : ante.

Section Framing.
Context `{SFL : !SdkFramingLaws}.
#[local] Hint Resolve DeductFee_framing : ante.

Lemma decorators_framing : Forall framing decorators.
Proof.
  pose proof sdk_framing as H. unfold sdk_plain in H. rewrite !Forall_cons in H. destruct_and!.
  unfold decorators, ante_decorators, NestedMsgDecorator, ParamFilterDecorator.
  repeat first [apply Forall_nil_2 | apply Forall_cons_2; [solve [auto with ante]|]].
Qed.

(** The handler leaves the viewed parts of the store and the environment alone. *)
Lemma NewAnteHandler_frames : frames newAnteHandler.
Proof. exact (chain_frames _ decorators_framing). Qed.
End Framing.

Context `{SAL : !SdkAgreementLaws}.

Lemma decorators_lawful : Forall lawful (drop 2 decorators).
Proof.
  pose proof sdk_lawful as H. unfold sdk_plain in H. rewrite !Forall_cons in H. destruct_and!.
  assert (lawful (DeductFeeDecorator (ValidateTxFeeWrapper minfee_of))).
  { apply DeductFee_lawful. intros st st2 ctx tx Hs. unfold ValidateTxFeeWrapper. by rewrite Hs. }
  unfold decorators, ante_decorators, NestedMsgDecorator, ParamFilterDecorator. cbn [drop].
  repeat first [apply Forall_nil_2 | apply Forall_cons_2; [solve [auto with ante]|]].
Qed.

(** Two nodes with one store and good caches agree on every transaction. *)
Lemma NewAnteHandler_agrees st st2 c d tx simulate :
  occurs (c_TxBytes c) → TxDecoder (c_TxBytes c) = Ok tx →
  a_store st2 = a_store st → sigcache_ok st → sigcache_ok st2 →
  base_env c d → c_TxBytes c = c_TxBytes d →
  same_outcome (newAnteHandler st c tx simulate) (newAnteHandler st2 d tx simulate).
Proof.
  intros Ho Hd Hs H1 H2 He Hb.
  pose proof (SetUpContext_fresh _ (chain_respects _ decorators_lawful) st st2 c d tx simulate Ho Hd Hs H1 H2 He Hb) as Hf.
  change (newAnteHandler) with (HandlePanicDecorator (SetUpContextDecorator (ChainAnteDecorators (drop 2 decorators)))).
  unfold HandlePanicDecorator.
  destruct (SetUpContextDecorator _ st c tx simulate) as [st' r], (SetUpContextDecorator _ st2 d tx simulate) as [st2' r2].
  destruct Hf as (Hs' & Hr & H1' & H2'). cbn in *. subst r2. by destruct r.
Qed.

(** The states of a node as far as its cache of verified signatures goes: the
    cache starts empty, the ante handler fills it, transactions of a block are
    removed, and the store moves on to one in which the cached transactions
    still verify, that is, which still has the historical records they were
    verified with. *)
Inductive node_state : AState store → Prop :=
| node_start s : node_state (mkAState s ∅)
| node_ante st ctx tx simulate : node_state st → occurs (c_TxBytes ctx) → TxDecoder (c_TxBytes ctx) = Ok tx →
    node_state (newAnteHandler st ctx tx simulate).1
| node_remove st raw : node_state st → node_state (mkAState (a_store st) (Delete (a_pffSigCache st) raw))
| node_commit st s' : node_state st →
    (∀ raw ctx tx msg, pffSigCacheKey raw ∈ a_pffSigCache st → TxDecoder raw = Ok tx → payForFibreMsg tx = Some msg →
       verify (a_store st) ctx msg = Ok tt → verify s' ctx msg = Ok tt) →
    node_state (mkAState s' (a_pffSigCache st)).

Lemma node_state_ok st : node_state st → sigcache_ok st.
Proof.
  induction 1 as [s|st ctx tx sim _ IH Ho Hd|st raw _ IH|st s' _ IH Hk].
  - intros key Hk. cbn in Hk. by apply elem_of_empty in Hk.
  - by destruct (NewAnteHandler_agrees st st ctx ctx tx sim Ho Hd eq_refl IH IH (base_env_refl ctx) eq_refl) as (_ & _ & ? & _).
  - intros key Hin. cbn in Hin. unfold Delete in Hin. apply elem_of_difference in Hin as [Hin _]. by apply IH.
  - intros key Hin. cbn in *. apply IH in Hin as Hv. destruct Hv as (raw & Ho & -> & Hv). exists raw.
    split_and!; [done|done|]. intros ctx tx msg Hd Hm. by eapply Hk, Hv.
Qed.

#[export] Instance NewAnteHandler_agreement (msgRouter : option (MessageRouter (store := store))) :
  (∀ st c tx st', executeTxMsgs st c tx msgRouter = (st', Ok tt) → view (a_store st') = view (a_store st)) →
  AnteAgreement blob_of newAnteHandler msgRouter.
Proof.
  intros Hrouter.
  assert (∀ st c tx st' r, newAnteHandler st c tx false = (st', r) →
    view (a_store st') = view (a_store st) ∧
    match r with Continue c' | Fail c' _ => base_env c c' | Boom _ => True end) as Hfr.
  { intros st c tx st' r Hh. pose proof (NewAnteHandler_frames st c tx false) as Hf. by rewrite Hh in Hf. }
  refine {| ag_inv := sigcache_ok; ag_seen := occurs; ag_view := view |}.
  - intros st st2 c d tx st' c' Ho Hd Hh Hs H1 H2 He Hb.
    pose proof (NewAnteHandler_agrees st st2 c d tx false Ho Hd Hs H1 H2 He Hb) as (Ha & Hr & _ & Hi).
    rewrite Hh in Ha, Hr. destruct (newAnteHandler st2 d tx false) as [st2' r2]. cbn in *. subst r2. eauto.
  - intros st c tx st' r Ho Hd Hh Hi.
    pose proof (NewAnteHandler_agrees st st c c tx false Ho Hd eq_refl Hi Hi (base_env_refl c) eq_refl) as (_ & _ & Hi' & _).
    by rewrite Hh in Hi'.
  - intros st c tx st' c' Hh. apply Hfr in Hh as [_ He]. exact He.
  - intros st c tx st' c' e Hh. apply Hfr in Hh as [_ He]. exact He.
  - intros st c tx st' r Hh. by apply Hfr in Hh as [Hb _].
  - exact Hrouter.
  - by intros s s' [= ? _].
  - intros st s' [= _ ?]. by apply sigcache_ok_history.
Defined.
End Instance.
