(* ===== verification/CheckTx.v ===== *)
(** * Admission to the mempool and the cache of validated transactions

    [app/check_tx.go] and the pruning of [FinalizeBlock] in [app/app.go], over
    the cache of [app/pfb_tx_cache.go]. *)

From S2P Require Import Prelude Sdk GoSquare FibreParams FibrePromise PayForBlob Messages Ante AnteProofs Proposal ProposalProofs.
Import Blob.
#[local] Open Scope Z_scope.

(** [abci.RequestCheckTx] and [abci.ResponseCheckTx]: code, signer and sequence. *)
Inductive CheckTxType := CheckTxType_New | CheckTxType_Recheck | CheckTxType_Other.
Record RequestCheckTx := mkRequestCheckTx { req_Tx : bytes; req_Type : CheckTxType }.
Record ResponseCheckTx := mkResponseCheckTx { res_Code : Z; res_Address : bytes; res_Sequence : Z }.

Definition CodeTypeOK : Z := 0.

(** The SDK's [errors.ABCIInfo] gives every error a code. *)
Class AbciErrors := { ABCIInfo_code : error → Z }.
Class AbciErrorsLaws `{AbciErrors} := { ABCIInfo_not_ok e : ABCIInfo_code e ≠ CodeTypeOK }.

(** The [CheckTx] of the SDK's [BaseApp], over its own state. *)
Class BaseAppOps := {
  base : Type;
  BaseApp_CheckTx : base → RequestCheckTx → base * (ResponseCheckTx * option error);
}.

Section CheckTx.
Context `{SP : SharePackage} `{TP : !TxPackage} `{TC : TxCodec} `{CR : Crypto} `{AC : AddressCodec}.
Context `{AE : AbciErrors} `{BA : BaseAppOps} (workers : Z).

Record Node := mkNode { n_txCache : gmap bytes bytes; n_base : base }.

Definition responseCheckTxWithEvents (err : error) : ResponseCheckTx :=
  mkResponseCheckTx (ABCIInfo_code err) [] 0.

(** A panic of [GetSignaturesV2] or of the key's address is recovered. *)
Definition signerDataFromTx (tx : Tx) : result (bytes * Z) :=
  match tx_SigTx tx with
  | None => Err "tx does not implement SigVerifiableTx"
  | Some getSignaturesV2 =>
      match (sigs ← getSignaturesV2;
             match sigs with
             | [] => Err "tx contains no signatures"
             | sig :: _ =>
                 match sig_PubKey sig with
                 | None => Err "tx signer has no associated pubkey"
                 | Some pk => addr ← PubKey_Address (pk_Key pk); Ok (addr, sig_Sequence sig)
                 end
             end) with
      | Panic _ => Err "failed to get signer data"
      | r => r
      end
  end.

Definition CheckTx_result : Type := Node * (ResponseCheckTx * option error).

Definition forwardCheckTx (n : Node) (req : RequestCheckTx) (sdkTx : Tx) : CheckTx_result :=
  let '(b, (res, err)) := BaseApp_CheckTx (n_base n) req in
  let n' := mkNode (n_txCache n) b in
  match err with
  | Some e => (n', (res, Some e))
  | None =>
      if negb (res_Code res =? CodeTypeOK) then (n', (res, None)) else
      match signerDataFromTx sdkTx with
      | Ok (signerAddr, signerSeq) => (n', (mkResponseCheckTx (res_Code res) signerAddr signerSeq, None))
      | Err e | Panic e => (n', (responseCheckTxWithEvents e, Some e))
      end
  end.

(** A failure, with the error also returned to the caller or not. *)
Definition fail (n : Node) (e : error) : CheckTx_result := (n, (responseCheckTxWithEvents e, Some e)).
Definition fail_quietly (n : Node) (e : error) : CheckTx_result := (n, (responseCheckTxWithEvents e, None)).

Definition handleBlobCheckTx (n : Node) (req : RequestCheckTx) (btx : BlobTx) : CheckTx_result :=
  let baseReq := mkRequestCheckTx (btx_Tx btx) (req_Type req) in
  let forward n :=
    match TxDecoder (btx_Tx btx) with
    | Ok sdkTx => forwardCheckTx n baseReq sdkTx
    | Err e | Panic e => fail n e
    end in
  match req_Type req with
  | CheckTxType_New =>
      match ValidateBlobTx workers (Some btx) SubtreeRootThreshold with
      | Ok _ => forward (mkNode (Set_ (n_txCache n) (btx_Tx btx) (btx_Blobs btx)) (n_base n))
      | Err e | Panic e => fail n e
      end
  | CheckTxType_Recheck => forward n
  | CheckTxType_Other => fail n "unknown RequestCheckTx type"
  end.

(** The error of [UnmarshalBlobTx] for a padded encoding. *)
Definition blobtx_ErrNonCanonicalBlobTx : error := "ErrNonCanonicalBlobTx".

Definition CheckTx (n : Node) (req : RequestCheckTx) : CheckTx_result :=
  let tx := req_Tx req in
  if MaxTxSize <? len tx then fail_quietly n "ErrTxExceedsMaxSize" else
  match UnmarshalBlobTx tx with
  | Some (Ok btx) =>
      if blobTxIsCanonical tx btx then handleBlobCheckTx n req btx
      else fail_quietly n "ErrNonCanonicalBlobTx"
  | Some (Err e) | Some (Panic e) =>
      if String.eqb e blobtx_ErrNonCanonicalBlobTx then fail_quietly n "ErrNonCanonicalBlobTx" else fail n e
  | None =>
      match TxDecoder tx with
      | Err e | Panic e => fail n e
      | Ok sdkTx =>
          match hasPFB (tx_Msgs sdkTx) with
          | Some _ => fail_quietly n "ErrNoBlobs"
          | None =>
              if MaxSDKMessages <? len (tx_Msgs sdkTx) then fail_quietly n "ErrTxExceedsMaxSDKMessages" else
              match validatePayForFibreTxShape sdkTx with
              | Ok _ => forwardCheckTx n req sdkTx
              | Err e | Panic e => fail_quietly n e
              end
          end
      end
  end.

(** The pruning at the end of [FinalizeBlock]: both caches forget the block's
    transactions. *)
Definition prune_caches (txCache : gmap bytes bytes) (pffSigCache : gset bytes) (txs : list bytes)
    : gmap bytes bytes * gset bytes :=
  fold_left (λ c tx, (RemoveTransaction c.1 tx, Delete c.2 tx)) txs (txCache, pffSigCache).

(** ** Facts *)

(** A transaction is admitted when the response has the code of success. *)
Definition admitted (r : CheckTx_result) : Prop := r.2.2 = None ∧ res_Code r.2.1 = CodeTypeOK.

Context `{AEL : !AbciErrorsLaws}.

Lemma fail_not_admitted n e : ¬ admitted (fail n e).
Proof. by intros [? _]. Qed.

Lemma fail_quietly_not_admitted n e : ¬ admitted (fail_quietly n e).
Proof. intros [_ H]. by apply ABCIInfo_not_ok in H. Qed.

#[local] Hint Resolve fail_not_admitted fail_quietly_not_admitted : core.

(** What admission of a new transaction establishes. *)
Lemma CheckTx_checked n raw : admitted (CheckTx n (mkRequestCheckTx raw CheckTxType_New)) →
  len raw <= MaxTxSize ∧ checked workers raw.
Proof.
  unfold CheckTx, checked. cbn [req_Tx]. intros H.
  destruct (Z.ltb_spec MaxTxSize (len raw)) as [|Hl]; [by apply fail_quietly_not_admitted in H|]. split; [done|].
  destruct (UnmarshalBlobTx raw) as [[btx|e|p]|] eqn:Hu.
  - split; [|done]. intros bTx [= <-].
    destruct (blobTxIsCanonical raw btx); [|by apply fail_quietly_not_admitted in H].
    unfold handleBlobCheckTx in H. cbn [req_Type] in H.
    destruct (ValidateBlobTx workers (Some btx) SubtreeRootThreshold) as [[]| |]; [done|by apply fail_not_admitted in H..].
  - done.
  - done.
  - split; [done|]. intros tx _ Hd. rewrite Hd in H. by destruct (hasPFB (tx_Msgs tx)); [apply fail_quietly_not_admitted in H|].
Qed.

(** ** The cache of validated transactions *)

(** The caches a node can have, with the transactions it was asked to check so
    far: empty at the start, filled by [CheckTx] and pruned after blocks. *)
Inductive node_cache : list bytes → gmap bytes bytes → Prop :=
| cache_start : node_cache [] ∅
| cache_check hist n req : node_cache hist (n_txCache n) →
    node_cache (req_Tx req :: hist) (n_txCache (CheckTx n req).1)
| cache_prune hist c sigs txs : node_cache hist c → node_cache hist (prune_caches c sigs txs).1.

(** Every entry of the cache was made for a transaction among [hist] that
    passed full validation. *)
Definition cache_ok (hist : list bytes) (c : gmap bytes bytes) : Prop :=
  ∀ k h, c !! k = Some h → ∃ raw old,
    raw ∈ hist ∧ UnmarshalBlobTx raw = Some (Ok old) ∧
    k = getTxKey (btx_Tx old) ∧ h = getBlobsHash (btx_Blobs old) ∧
    ValidateBlobTx workers (Some old) SubtreeRootThreshold = Ok tt.

Lemma forwardCheckTx_cache n req tx : n_txCache (forwardCheckTx n req tx).1 = n_txCache n.
Proof. unfold forwardCheckTx. by repeat case_match. Qed.

Lemma cache_ok_more hist raw c : cache_ok hist c → cache_ok (raw :: hist) c.
Proof.
  intros Hc k h Hk. apply Hc in Hk as (raw' & old & Hin & Hk). exists raw', old. split; [by right|done].
Qed.

Lemma Set_cache_ok hist c raw bTx u : cache_ok hist c → UnmarshalBlobTx raw = Some (Ok bTx) →
  ValidateBlobTx workers (Some bTx) SubtreeRootThreshold = Ok u →
  cache_ok (raw :: hist) (Set_ c (btx_Tx bTx) (btx_Blobs bTx)).
Proof.
  intros Hc Hu Hv k h. unfold Set_. rewrite lookup_insert_Some.
  intros [[<- <-]|[_ Hk]]; [|by apply (cache_ok_more hist raw c Hc)].
  exists raw, bTx. destruct u. split; [left|done].
Qed.

Lemma CheckTx_cache_ok hist n req : cache_ok hist (n_txCache n) →
  cache_ok (req_Tx req :: hist) (n_txCache (CheckTx n req).1).
Proof.
  intros Hc. unfold CheckTx, handleBlobCheckTx.
  repeat case_match; cbn [fst fail fail_quietly n_txCache]; rewrite ?forwardCheckTx_cache; cbn [n_txCache];
    eauto using cache_ok_more, Set_cache_ok.
Qed.

Lemma prune_cache_ok hist txs c s : cache_ok hist c → cache_ok hist (prune_caches c s txs).1.
Proof.
  unfold prune_caches. revert c s. induction txs as [|tx txs IH]; intros c s Hc; cbn; [done|]. apply IH.
  intros k h. unfold RemoveTransaction. rewrite lookup_delete_Some. intros [_ Hk]. by apply Hc.
Qed.

Lemma node_cache_ok hist c : node_cache hist c → cache_ok hist c.
Proof.
  induction 1; auto using CheckTx_cache_ok, prune_cache_ok. intros k h. by rewrite lookup_empty.
Qed.

(** The strings that the cache hashes for two transactions collide: their
    transaction bytes or the concatenated digests of their blobs under SHA-256,
    or two blobs in the same place under [blob.Hash]. *)
Definition collides (old bTx : BlobTx) : Prop :=
  (btx_Tx old ≠ btx_Tx bTx ∧ sha256 (btx_Tx old) = sha256 (btx_Tx bTx)) ∨
  (concat (map blob_Hash (btx_Blobs old)) ≠ concat (map blob_Hash (btx_Blobs bTx)) ∧
   sha256 (concat (map blob_Hash (btx_Blobs old))) = sha256 (concat (map blob_Hash (btx_Blobs bTx)))) ∨
  (∃ i a b, btx_Blobs old !! i = Some a ∧ btx_Blobs bTx !! i = Some b ∧ a ≠ b ∧ blob_Hash a = blob_Hash b).

Lemma collides_irrefl bTx : ¬ collides bTx bTx.
Proof. intros [[? _]|[[? _]|(i & a & b & Ha & Hb & Hne & _)]]; [done..|]. congruence. Qed.

(** Some transaction the node checked collides with [bTx]. *)
Definition history_collides (hist : list bytes) (bTx : BlobTx) : Prop :=
  ∃ raw old, raw ∈ hist ∧ UnmarshalBlobTx raw = Some (Ok old) ∧ collides old bTx.

(** Blob digests have one size. *)
Hypothesis blob_Hash_length : ∀ b, length (blob_Hash b) = HashSize.

Lemma concat_hashes_inj (l1 l2 : list Blob) :
  concat (map blob_Hash l1) = concat (map blob_Hash l2) → map blob_Hash l1 = map blob_Hash l2.
Proof.
  revert l2. induction l1 as [|a l1 IH]; intros [|b l2]; cbn; [done| | |].
  - intros H. symmetry in H. apply app_eq_nil in H as [H _]. pose proof (blob_Hash_length b) as Hb. by rewrite H in Hb.
  - intros H. apply app_eq_nil in H as [H _]. pose proof (blob_Hash_length a) as Hb. by rewrite H in Hb.
  - intros H. apply app_inj_1 in H as [-> H]; [|by rewrite !blob_Hash_length]. f_equal. by apply IH.
Qed.

Lemma map_hash_inj `{!EqDecision Blob} (l1 l2 : list Blob) :
  map blob_Hash l1 = map blob_Hash l2 →
  l1 = l2 ∨ ∃ i a b, l1 !! i = Some a ∧ l2 !! i = Some b ∧ a ≠ b ∧ blob_Hash a = blob_Hash b.
Proof.
  revert l2. induction l1 as [|a l1 IH]; intros [|b l2]; cbn; try done; [by left|].
  intros [= Hab Hl]. destruct (decide (a = b)) as [->|Hne]; [|right; by exists O, a, b].
  apply IH in Hl as [->|(i & x & y & ?)]; [by left|]. right. by exists (S i), x, y.
Qed.

(** A hit in a good cache is a transaction that passes full validation. *)
Lemma cache_hit_valid `{!EqDecision Blob} hist c bTx :
  cache_ok hist c → Exists c (btx_Tx bTx) (btx_Blobs bTx) = true →
  ValidateBlobTx workers (Some bTx) SubtreeRootThreshold = Ok tt ∨ history_collides hist bTx.
Proof.
  unfold Exists. intros Hc. destruct (c !! _) as [h|] eqn:Hk; [|done]. intros Hh%bool_decide_eq_true.
  apply Hc in Hk as (raw & old & Hin & Hu & Hkey & Hh' & Hv). rewrite Hh in Hh'.
  unfold getTxKey in Hkey. unfold getBlobsHash in Hh'.
  assert (collides old bTx → ValidateBlobTx workers (Some bTx) SubtreeRootThreshold = Ok tt ∨ history_collides hist bTx)
    as Hcol by (intros; right; by exists raw, old).
  destruct (decide (btx_Tx old = btx_Tx bTx)) as [Ht|Hne]; [|apply Hcol; by left].
  destruct (decide (concat (map blob_Hash (btx_Blobs old)) = concat (map blob_Hash (btx_Blobs bTx)))) as [Hb|Hne];
    [|apply Hcol; right; by left].
  apply concat_hashes_inj, map_hash_inj in Hb as [Hb|]; [|apply Hcol; by right; right].
  left. destruct bTx, old; cbn in *. by subst.
Qed.

Context `{SL : !ShareLaws}.

(** Validation through the cache has the outcome of the full validation. *)
Lemma cached_validation `{!EqDecision Blob} hist c bTx : node_cache hist c →
  (ValidateBlobTxWithCache workers c bTx).2 = ValidateBlobTx workers (Some bTx) SubtreeRootThreshold ∨
  history_collides hist bTx.
Proof.
  intros Hc%node_cache_ok. unfold ValidateBlobTxWithCache.
  destruct (Exists c (btx_Tx bTx) (btx_Blobs bTx)) eqn:E; cbn [snd]; [|by left].
  destruct (cache_hit_valid hist c bTx Hc E) as [Hv|]; [left|by right].
  rewrite Hv. apply ValidateBlobTx_Ok in Hv as (msg & -> & _). done.
Qed.
End CheckTx.
