(* ===== verification/BlockValidity.v ===== *)
(** * Valid blocks

    An abstract specification of a valid block, in terms of the decoded
    messages and the interfaces of go-square and rsmt2d, and the proof that
    [ProcessProposalHandler] accepts exactly the valid ones. The first section
    reads the loop of the handler as a relation; the second states the
    specification and relates the two. *)

From S2P Require Import Prelude Sdk GoSquare FibreParams FibrePromise PayForBlob Messages DataAvailability Ante Proposal.
From S2P Require Import ProposalProofs CheckTx.
Import Blob.
#[local] Open Scope Z_scope.

Section Validity.
Context `{SP : SharePackage} `{TP : !TxPackage} `{TC : TxCodec} `{CR : Crypto} `{AC : AddressCodec}.
Context `{SQ : !SquarePackage} `{EC : ErasureCoding} `{GM : GasMeterOps} `{PC : !ParamsCodec}.
Context {store : Type} (blob_of : store → Blob.World) (workers : Z).
Context (handler : AnteHandler store) (msgRouter : option (MessageRouter (store := store))).
Context (txCache : gmap bytes bytes).

(** ** One transaction *)

(** A transaction that the loop of the handler gets through, and its effect. *)
Inductive processed_tx : AState store → Ctx → bytes → AState store → Ctx → Prop :=
| processed_plain st ctx raw tx st' ctx' :
    len raw <= MaxTxSize → UnmarshalBlobTx raw = None → TxDecoder raw = Ok tx →
    hasPFB (tx_Msgs tx) = None → validatePayForFibreTxShape tx = Ok tt → payForFibreMsg tx = None →
    handler st (WithTxBytes ctx raw) tx false = (st', Continue ctx') →
    processed_tx st ctx raw st' ctx'
| processed_fibre st ctx raw tx pff st' ctx' st'' :
    len raw <= MaxTxSize → UnmarshalBlobTx raw = None → TxDecoder raw = Ok tx →
    tx_Msgs tx = [MPayForFibre pff] → validatePayForFibreTxShape tx = Ok tt →
    handler st (WithTxBytes ctx raw) tx false = (st', Continue ctx') →
    executeTxMsgs st' ctx' tx msgRouter = (st'', Ok tt) →
    processed_tx st ctx raw st'' ctx'
| processed_blob st ctx raw bTx tx st' ctx' :
    len raw <= MaxTxSize → UnmarshalBlobTx raw = Some (Ok bTx) → blobTxIsCanonical raw bTx = true →
    TxDecoder (btx_Tx bTx) = Ok tx → (ValidateBlobTxWithCache workers txCache bTx).2 = Ok tt →
    handler st (WithTxBytes ctx (btx_Tx bTx)) tx false = (st', Continue ctx') →
    processed_tx st ctx raw st' ctx'.

(** ** A sequence of transactions and the limits of a block *)

Inductive processed_txs : AState store → Ctx → list bytes → AState store → Ctx → Prop :=
| processed_nil st ctx : processed_txs st ctx [] st ctx
| processed_cons st ctx raw st1 ctx1 txs st2 ctx2 :
    processed_tx st ctx raw st1 ctx1 → processed_txs st1 ctx1 txs st2 ctx2 → processed_txs st ctx (raw :: txs) st2 ctx2.

(** The messages a transaction counts as: blob payments, promises, others. *)
Definition pfb_count (raw : bytes) : Z :=
  match UnmarshalBlobTx raw with
  | Some (Ok bTx) => match TxDecoder (btx_Tx bTx) with Ok tx => len (tx_Msgs tx) | _ => 0 end
  | _ => 0
  end.

Definition pff_count (raw : bytes) : Z :=
  match UnmarshalBlobTx raw, TxDecoder raw with
  | None, Ok tx => match payForFibreMsg tx with Some _ => 1 | None => 0 end
  | _, _ => 0
  end.

Definition sdk_count (raw : bytes) : Z :=
  match UnmarshalBlobTx raw, TxDecoder raw with
  | None, Ok tx => match payForFibreMsg tx with Some _ => 0 | None => len (tx_Msgs tx) end
  | _, _ => 0
  end.

Record processed_block (st : AState store) (ctx : Ctx) (req : Proposal) : Prop := {
  vb_txs : ∃ st' ctx' cs max sq eds dah,
    processed_txs st ctx (prop_Txs req) st' ctx' ∧
    ClassifyTxs (prop_Txs req) = Ok cs ∧
    MaxEffectiveSquareSize (ctx_ChainID (c_block ctx')) (blob_of (a_store st')) = Ok max ∧
    Construct cs max SubtreeRootThreshold = Ok sq ∧
    DA.ExtendSharesWithTreePool (Square_ToBytes sq) = Ok eds ∧
    DA.NewDataAvailabilityHeader eds = Ok dah ∧
    wrap_u64 (eds_Width eds) / 2 = prop_SquareSize req ∧
    (DA.Hash (Some dah)).1 = prop_DataRootHash req;
  vb_sdk : zsum (map sdk_count (prop_Txs req)) <= MaxSDKMessages;
  vb_pfb : zsum (map pfb_count (prop_Txs req)) <= MaxPFBMessages;
  vb_pff : zsum (map pff_count (prop_Txs req)) <= MaxPayForFibreMessages;
}.

(** ** The loop of the handler *)

Definition within (ps : ProcState (store := store)) : Prop :=
  ps_sdk ps <= MaxSDKMessages ∧ ps_pfb ps <= MaxPFBMessages ∧ ps_pff ps <= MaxPayForFibreMessages.

Definition counted (ps ps' : ProcState (store := store)) (raw : bytes) : Prop :=
  ps_sdk ps' = ps_sdk ps + sdk_count raw ∧ ps_pfb ps' = ps_pfb ps + pfb_count raw ∧
  ps_pff ps' = ps_pff ps + pff_count raw.

Lemma payForFibreMsg_Some tx pff : payForFibreMsg tx = Some pff ↔ tx_Msgs tx = [MPayForFibre pff].
Proof. unfold payForFibreMsg. split; [|by intros ->]. repeat case_match; by intros [= <-]. Qed.

(** Evaluate the counts of a transaction with known decodings. *)
Ltac eval_count Hu Hd C := rewrite Hu in C; try rewrite Hd in C; cbn in C.

(** Processing one transaction is checking its validity and counting it. *)
Lemma process_tx_spec ps raw ps' : within ps →
  process_tx workers handler msgRouter txCache ps raw = Ok ps' ↔
  processed_tx (ps_st ps) (ps_ctx ps) raw (ps_st ps') (ps_ctx ps') ∧ counted ps ps' raw ∧ within ps'.
Proof.
  intros (W1 & W2 & W3). unfold process_tx, counted, sdk_count, pfb_count, pff_count. split.
  - intros H. inv_ok. apply Z.leb_le in Hr. destruct (UnmarshalBlobTx raw) as [r2|] eqn:Hu.
    + inv_ok. subst r2 r0. inv_ok. apply Z.leb_le in Hr2. destruct r0.
      destruct (handler _ _ _ _) as [st1 [ctx1| |]] eqn:Hh; try discriminate H. inv_ok. subst ps'. cbn.
      rewrite Hr1. split; [by econstructor|]. repeat split; try lia; done.
    + inv_ok. subst r0. cbn in *. rewrite Hr1. inv_ok. apply negb_true_iff, bool_decide_eq_false in Hr0.
      destruct (hasPFB (tx_Msgs r1)) eqn:Hp; [exfalso; eauto|]. destruct r2.
      destruct (payForFibreMsg r1) as [pff|] eqn:Hf; cbn in *.
      * destruct (handler _ _ _ _) as [st1 [ctx1| |]] eqn:Hh; try discriminate H.
        destruct (executeTxMsgs _ _ _ _) as [st2 [[]| |]] eqn:Hx; try discriminate H. inv_ok. subst ps'. cbn.
        apply payForFibreMsg_Some in Hf. split; [by econstructor|].
        apply negb_true_iff, Z.ltb_ge in Hr3. repeat split; try lia; done.
      * destruct (handler _ _ _ _) as [st1 [ctx1| |]] eqn:Hh; try discriminate H. inv_ok. subst ps'. cbn.
        split; [by econstructor|]. apply Z.leb_le in Hr4. repeat split; try lia; done.
  - destruct ps as [st ctx n1 n2 n3], ps' as [st' ctx' m1 m2 m3]. cbn in *.
    intros (V & (C1 & C2 & C3) & L1 & L2 & L3). cbn in *.
    destruct V as [st ctx raw tx st' ctx' Hl Hu Hd Hp Hs Hf Hh
                  |st ctx raw tx pff st' ctx' st'' Hl Hu Hd Hm Hs Hh Hx
                  |st ctx raw bTx tx st' ctx' Hl Hu Hc Hd Hv Hh].
    + eval_count Hu Hd C1; eval_count Hu Hd C2; eval_count Hu Hd C3. rewrite ?Hf in C1; rewrite ?Hf in C3. rewrite (proj2 (Z.leb_le _ _) Hl), Hu. cbn. rewrite Hd. cbn. rewrite Hp, Hs, Hf. cbn.
      rewrite (proj2 (Z.leb_le _ _)) by lia. cbn. rewrite Hh. do 2 f_equal; lia.
    + assert (payForFibreMsg tx = Some pff) as Hf by by apply payForFibreMsg_Some.
      eval_count Hu Hd C1; eval_count Hu Hd C2; eval_count Hu Hd C3. rewrite ?Hf in C1; rewrite ?Hf in C3. rewrite (proj2 (Z.leb_le _ _) Hl), Hu. cbn. rewrite Hd. cbn. rewrite Hs, Hf, Hm. cbn.
      rewrite (proj2 (Z.ltb_ge _ _)) by lia. cbn. rewrite Hh, Hx. do 2 f_equal; lia.
    + eval_count Hu Hd C1; eval_count Hu Hd C2; eval_count Hu Hd C3. rewrite (proj2 (Z.leb_le _ _) Hl), Hu. cbn. rewrite Hc. cbn. rewrite Hd. cbn. rewrite Hv. cbn.
      rewrite (proj2 (Z.leb_le _ _)) by lia. cbn. rewrite Hh. do 2 f_equal; lia.
Qed.

Lemma counts_nonneg raw : 0 <= sdk_count raw ∧ 0 <= pfb_count raw ∧ 0 <= pff_count raw.
Proof. unfold sdk_count, pfb_count, pff_count, len. repeat split; repeat case_match; lia. Qed.

Lemma total_nonneg txs :
  0 <= zsum (map sdk_count txs) ∧ 0 <= zsum (map pfb_count txs) ∧ 0 <= zsum (map pff_count txs).
Proof.
  repeat split; apply zsum_nonneg, Forall_map, Forall_forall; intros raw _; cbn;
    pose proof (counts_nonneg raw); lia.
Qed.

Definition totals (ps ps' : ProcState (store := store)) (txs : list bytes) : Prop :=
  ps_sdk ps' = ps_sdk ps + zsum (map sdk_count txs) ∧ ps_pfb ps' = ps_pfb ps + zsum (map pfb_count txs) ∧
  ps_pff ps' = ps_pff ps + zsum (map pff_count txs).

Lemma process_txs_spec txs ps ps' : within ps →
  fold_res (process_tx workers handler msgRouter txCache) txs ps = Ok ps' ↔
  processed_txs (ps_st ps) (ps_ctx ps) txs (ps_st ps') (ps_ctx ps') ∧ totals ps ps' txs ∧ within ps'.
Proof.
  revert ps. induction txs as [|raw txs IH]; intros ps W; cbn [fold_res].
  - unfold totals; cbn. split.
    + intros <-%Ok_inj. split; [constructor|]. repeat split; try lia; apply W.
    + intros (V & (H1 & H2 & H3) & _). destruct ps, ps'; cbn in *. inversion V; subst. f_equal. f_equal; lia.
  - unfold totals; cbn [map]. rewrite !zsum_cons, bind_Ok. split.
    + intros (ps1 & H1 & H2). apply process_tx_spec in H1 as (V1 & (C1 & C2 & C3) & W1); [|done].
      apply IH in H2 as (V2 & (D1 & D2 & D3) & W2); [|done]. split; [by econstructor|]. repeat split; try lia; apply W2.
    + intros (V & (C1 & C2 & C3) & W'). inversion V as [|? ? ? st1 ctx1 ? ? ? V1 V2]; subst.
      pose proof (counts_nonneg raw). pose proof (total_nonneg txs). destruct W as (?&?&?), (W') as (?&?&?).
      exists (mkProcState st1 ctx1 (ps_sdk ps + sdk_count raw) (ps_pfb ps + pfb_count raw) (ps_pff ps + pff_count raw)).
      rewrite process_tx_spec by done. unfold counted, within; cbn. split; [repeat split; try lia; done|].
      apply IH; [unfold within; cbn; lia|]. cbn. unfold totals; cbn. repeat split; try lia; done.
Qed.

(** The handler accepts exactly what passes its loop and the comparisons after it. *)
Lemma process_iff st ctx req :
  ProcessProposalHandler blob_of workers handler msgRouter txCache st ctx req = accept ↔ processed_block st ctx req.
Proof.
  assert (within (mkProcState st ctx 0 0 0)) as W by done.
  unfold ProcessProposalHandler. transitivity (process blob_of workers handler msgRouter txCache st ctx req = Ok tt).
  { destruct (process _ _ _ _ _ _ _ _) as [[]| |]; done. }
  unfold process. split.
  - intros H. inv_ok. apply process_txs_spec in Hr as (V & (C1 & C2 & C3) & W1); [|done]. cbn in *.
    apply Z.eqb_eq in Hr4. apply bool_decide_eq_true in H. destruct W1 as (?&?&?).
    constructor; [|lia..]. eexists _, _, _, _, _, _, _. eauto 10.
  - intros [(st' & ctx' & cs & max & sq & eds & dah & V & Hcs & Hmax & Hsq & Heds & Hdah & Hsize & Hroot) L1 L2 L3].
    assert (fold_res (process_tx workers handler msgRouter txCache) (prop_Txs req) (mkProcState st ctx 0 0 0) =
      Ok (mkProcState st' ctx' (zsum (map sdk_count (prop_Txs req))) (zsum (map pfb_count (prop_Txs req)))
            (zsum (map pff_count (prop_Txs req))))) as ->.
    { apply process_txs_spec; [done|]. unfold totals, within; cbn. repeat split; try lia; done. }
    cbn [mbind result_bind ps_ctx ps_st]. rewrite Hcs. cbn [mbind result_bind]. rewrite Hmax. cbn [mbind result_bind].
    rewrite Hsq. cbn [mbind result_bind]. rewrite Heds. cbn [mbind result_bind]. rewrite Hsize, Z.eqb_refl. cbn [ensure mbind result_bind].
    rewrite Hdah. cbn [mbind result_bind]. by rewrite bool_decide_true.
Qed.
End Validity.

(** ** The specification *)

Section Specification.
Context `{SP : SharePackage} `{TP : !TxPackage} `{TC : TxCodec} `{CR : Crypto} `{AC : AddressCodec}.
Context `{SQ : !SquarePackage} `{EC : ErasureCoding} `{GM : GasMeterOps} `{PC : !ParamsCodec}.
Context {store : Type} (blob_of : store → Blob.World).
Context (handler : AnteHandler store) (msgRouter : option (MessageRouter (store := store))).

(** The SDK transaction that some bytes stand for: they are not empty, possibly
    the envelope of a blob transaction, possibly in an index wrapper, which only
    a single payment for blobs may have. *)
Definition decodes_to (b : bytes) (tx : Tx) : Prop :=
  b ≠ [] ∧ ∃ inner,
    ((UnmarshalBlobTx b = None ∧ inner = b) ∨ (∃ bTx, UnmarshalBlobTx b = Some (Ok bTx) ∧ inner = btx_Tx bTx)) ∧
    ((UnmarshalIndexWrapper inner = None ∧ DefaultTxDecoder inner = Ok tx) ∨
     (∃ wrapped pfb, UnmarshalIndexWrapper inner = Some wrapped ∧ DefaultTxDecoder wrapped = Ok tx ∧
        tx_Msgs tx = [MPayForBlobs pfb])).

(** A message that pays for no blob and no promise. *)
Definition no_payment (m : Msg) : Prop :=
  match m with MPayForBlobs _ | MPayForFibre _ => False | _ => True end.

(** A promise of the right shape. *)
Record promise_shape (p : PromiseProto) : Prop := {
  sh_chain : pb_ChainId p ≠ EmptyString;
  sh_namespace : length (pb_Namespace p) = 29%nat ∧ NewNamespaceFromBytes (pb_Namespace p) = Ok tt ∧
    Namespace_ValidateForBlob (pb_Namespace p) = Ok tt;
  sh_size : pb_BlobSize p ≠ 0;
  sh_commitment : length (pb_Commitment p) = 32%nat;
  sh_version : pb_BlobVersion p = 0;
  sh_height : 0 < pb_Height p;
  sh_time : pb_CreationTimestamp p ≠ zero_time;
  sh_key : length (pb_SignerPublicKey p) = 33%nat;
  sh_signature : pb_Signature p ≠ [];
}.

(** A message that pays for exactly these blobs: their namespaces, which are
    open to users, sizes, share versions, signer and commitments, in order. *)
Record pays_for (msg : MsgPayForBlobs) (blobs : list Blob) : Prop := {
  pf_some : blobs ≠ [];
  pf_namespaces : map blob_Namespace blobs = pfb_Namespaces msg;
  pf_open : Forall (λ ns, NewNamespaceFromBytes ns = Ok tt ∧ Namespace_IsReserved ns = false ∧
      Namespace_Version ns ∈ SupportedBlobNamespaceVersions) (pfb_Namespaces msg);
  pf_data : Forall (λ b, blob_Data b ≠ []) blobs;
  pf_sizes : map (λ b, Z.of_nat (length (blob_Data b)) mod 2 ^ 32) blobs = pfb_BlobSizes msg;
  pf_versions : map (λ b, blob_ShareVersion b mod 2 ^ 32) blobs = pfb_ShareVersions msg;
  pf_known : Forall (λ v, v = 0 ∨ v = 1) (pfb_ShareVersions msg);
  pf_signer : ∃ a, AccAddressFromBech32 (pfb_Signer msg) = Some a ∧
    Forall (λ b, blob_ShareVersion b = 1 → blob_Signer b = a) blobs;
  pf_commitments : CreateCommitments blobs 64 = Ok (pfb_ShareCommitments msg);
  pf_digests : Forall (λ c, length c = 32%nat) (pfb_ShareCommitments msg);
}.

(** Executing a promise's message: the router's handler succeeds on the store
    that the ante handler left; a node without a router executes nothing. *)
Definition settles (s : store) (ctx : Ctx) (pff : MsgPayForFibre) (s' : store) : Prop :=
  match msgRouter with
  | None => s' = s
  | Some router => ∃ h ctx', router (MPayForFibre pff) = Some h ∧ h s ctx (MPayForFibre pff) = Ok (s', ctx')
  end.

(** What a transaction is counted as. *)
Inductive kind := Plain (msgs : Z) | Payment | Promise.

(** A transaction that may appear in a block, what it counts as, how it enters
    the square, and the state it leaves. *)
Inductive valid_tx : AState store → Ctx → bytes → kind → ClassifiedTx → AState store → Ctx → Prop :=
| valid_plain st ctx raw tx st' ctx' :
    Z.of_nat (length raw) <= 8388608 → UnmarshalBlobTx raw = None → decodes_to raw tx →
    Forall no_payment (tx_Msgs tx) →
    handler st (WithTxBytes ctx raw) tx false = (st', Continue ctx') →
    valid_tx st ctx raw (Plain (Z.of_nat (length (tx_Msgs tx)))) (NewClassifiedTx raw) st' ctx'
| valid_promise st ctx raw tx pff signer systemBlob c st' ctx' s :
    Z.of_nat (length raw) <= 8388608 → UnmarshalBlobTx raw = None → decodes_to raw tx →
    tx_Msgs tx = [MPayForFibre pff] → promise_shape (pff_PaymentPromise pff) →
    handler st (WithTxBytes ctx raw) tx false = (st', Continue ctx') →
    settles (a_store st') ctx' pff s →
    bech32_DecodeToBase256 (pff_Signer pff) = Some signer →
    share_NewV2Blob (pb_Namespace (pff_PaymentPromise pff)) (pb_BlobVersion (pff_PaymentPromise pff))
      (pb_Commitment (pff_PaymentPromise pff)) signer = Ok systemBlob →
    NewClassifiedFibreTx (mkFibreTx raw systemBlob) = Ok c →
    valid_tx st ctx raw Promise c (mkAState s (a_pffSigCache st')) ctx'
| valid_payment st ctx raw bTx tx msg st' ctx' :
    Z.of_nat (length raw) <= 8388608 → UnmarshalBlobTx raw = Some (Ok bTx) →
    MarshalBlobTx (btx_Tx bTx) (btx_Blobs bTx) = Ok raw → decodes_to (btx_Tx bTx) tx →
    tx_Msgs tx = [MPayForBlobs msg] → pays_for msg (btx_Blobs bTx) →
    handler st (WithTxBytes ctx (btx_Tx bTx)) tx false = (st', Continue ctx') →
    valid_tx st ctx raw Payment (NewClassifiedTx raw) st' ctx'.

Inductive valid_txs : AState store → Ctx → list bytes → list kind → list ClassifiedTx → AState store → Ctx → Prop :=
| valid_nil st ctx : valid_txs st ctx [] [] [] st ctx
| valid_cons st ctx raw k c st1 ctx1 raws ks cs st2 ctx2 :
    valid_tx st ctx raw k c st1 ctx1 → valid_txs st1 ctx1 raws ks cs st2 ctx2 →
    valid_txs st ctx (raw :: raws) (k :: ks) (c :: cs) st2 ctx2.

Definition plain_msgs (k : kind) : Z := match k with Plain n => n | _ => 0 end.
Definition payments (k : kind) : Z := match k with Payment => 1 | _ => 0 end.
Definition promises (k : kind) : Z := match k with Promise => 1 | _ => 0 end.

(** Valid transactions within the limits of a block, whose square, of at most
    the governed size and 512, has the proposed size and, erasure-coded, the
    proposed data root. *)
Definition valid_block (st : AState store) (ctx : Ctx) (req : Proposal) : Prop :=
  ∃ st' ctx' ks cs params sq n eds rows cols,
    valid_txs st ctx (prop_Txs req) ks cs st' ctx' ∧
    zsum (map plain_msgs ks) <= 600 ∧ zsum (map payments ks) <= 200 ∧ zsum (map promises ks) <= 200 ∧
    GetParams (blob_of (a_store st')) = Ok params ∧
    Construct cs (Z.min (wrap_i64 (p_GovMaxSquareSize params)) 512) 64 = Ok sq ∧
    0 <= n ∧ Z.of_nat (length (Square_ToBytes sq)) = 2 ^ n ∧
    ComputeExtendedDataSquareWithBuffer (Square_ToBytes sq) = Ok eds ∧
    eds_RowRoots eds = Ok rows ∧ eds_ColRoots eds = Ok cols ∧
    prop_SquareSize req = (eds_Width eds mod 2 ^ 64) / 2 ∧
    prop_DataRootHash req = HashFromByteSlices (rows ++ cols).

(** *** The checks of the code and their descriptions *)

Lemma TxDecoder_iff b tx : TxDecoder b = Ok tx ↔ decodes_to b tx.
Proof.
  assert (∀ inner, indexWrapperDecoder DefaultTxDecoder inner = Ok tx ↔
    (UnmarshalIndexWrapper inner = None ∧ DefaultTxDecoder inner = Ok tx) ∨
    (∃ wrapped pfb, UnmarshalIndexWrapper inner = Some wrapped ∧ DefaultTxDecoder wrapped = Ok tx ∧
       tx_Msgs tx = [MPayForBlobs pfb])) as Hw.
  { intros inner. unfold indexWrapperDecoder. destruct (UnmarshalIndexWrapper inner) as [w|]; [|naive_solver].
    split.
    - intros H. inv_ok. apply Nat.eqb_eq in Hr0. destruct (tx_Msgs r) as [|[pfb| | | | | | |] [|]] eqn:Hm; try done.
      inv_ok. subst r. right. by exists w, pfb.
    - intros [[? _]|(w' & pfb & [= <-] & -> & Hm)]; [done|]. cbn. by rewrite Hm. }
  unfold TxDecoder, rejectEmptyTxDecoder, blobTxDecoder, decodes_to.
  destruct b as [|x b]; [split; [done|by intros []]|]. cbn [length Nat.eqb].
  destruct (UnmarshalBlobTx (x :: b)) as [r|].
  - rewrite bind_Ok. setoid_rewrite Hw. split.
    + intros (bTx & -> & H). split; [done|]. exists (btx_Tx bTx). split; [right; by exists bTx|done].
    + intros (_ & inner & [[? _]|(bTx & [= ->] & ->)] & Hi); [done|]. by exists bTx.
  - rewrite Hw. split.
    + intros H. split; [done|]. exists (x :: b). split; [by left|done].
    + intros (_ & inner & [[_ ->]|(bTx & ? & _)] & Hi); done.
Qed.

Lemma promise_shape_iff p : PaymentPromise_ValidateBasic p = Ok tt ↔ promise_shape p.
Proof.
  unfold PaymentPromise_ValidateBasic, validateBlobVersion, time_IsZero. split.
  - intros H. inv_ok.
    repeat match goal with
    | E : negb _ = true |- _ => apply negb_true_iff in E
    | E : (_ =? _)%nat = true |- _ => apply Nat.eqb_eq in E
    | E : (_ =? _)%nat = false |- _ => apply Nat.eqb_neq in E
    | E : (_ =? _) = true |- _ => apply Z.eqb_eq in E
    | E : (_ =? _) = false |- _ => apply Z.eqb_neq in E
    | E : (_ <? _) = true |- _ => apply Z.ltb_lt in E
    | E : String.eqb _ _ = false |- _ => apply String.eqb_neq in E
    end.
    destruct r2, r3. constructor; try done. by intros E; rewrite E in H.
  - intros [H1 (H2 & H3 & H4) H5 H6 H7 H8 H9 H10 H11].
    rewrite (proj2 (String.eqb_neq _ _) H1), H2, H3, H4. cbn [negb ensure mbind result_bind Nat.eqb NamespaceSize].
    rewrite (proj2 (Z.eqb_neq _ _) H5), H6, H7, (proj2 (Z.ltb_lt _ _) H8), (proj2 (Z.eqb_neq _ _) H9), H10.
    cbn. by destruct (pb_Signature p).
Qed.

(** The messages of a plain transaction. *)
Lemma no_payment_iff tx :
  (hasPFB (tx_Msgs tx) = None ∧ validatePayForFibreTxShape tx = Ok tt ∧ payForFibreMsg tx = None) ↔
  Forall no_payment (tx_Msgs tx).
Proof.
  assert (∀ msgs, hasPFB msgs = None ↔ Forall (λ m, is_pfb m = false) msgs) as Hpfb.
  { induction msgs as [|m msgs IH]; [done|]. rewrite Forall_cons. destruct m; cbn; rewrite ?IH; naive_solver. }
  rewrite Hpfb. split.
  - intros (H1 & H2 & H3). apply each_Ok in H2. rewrite Forall_forall in *. intros m Hm. specialize (H1 _ Hm).
    specialize (H2 _ Hm). destruct m as [|pff| | | | | |]; try done. cbn in H2. inv_ok. apply Nat.leb_le in Hr.
    unfold payForFibreMsg in H3. destruct (tx_Msgs tx) as [|m' [|]]; [by apply not_elem_of_nil in Hm| |cbn in Hr; lia].
    apply list_elem_of_singleton in Hm as <-. done.
  - intros H. split; [eapply Forall_impl; [exact H|]; by intros []|].
    destruct (no_pff tx) as [H3 H2]; [|done]. unfold countMsgPayForFibre.
    destruct (filter is_pff (tx_Msgs tx)) as [|m l] eqn:Hf; [done|]. exfalso.
    assert (m ∈ filter is_pff (tx_Msgs tx)) as Hm by (rewrite Hf; left).
    apply list_elem_of_filter in Hm as [Hp Hm]. rewrite Forall_forall in H. apply H in Hm. by destruct m.
Qed.

(** The shape of a transaction with one promise. *)
Lemma one_promise_iff tx pff : tx_Msgs tx = [MPayForFibre pff] →
  validatePayForFibreTxShape tx = Ok tt ↔ promise_shape (pff_PaymentPromise pff).
Proof.
  intros Hm. rewrite <- promise_shape_iff. unfold validatePayForFibreTxShape. rewrite Hm, each_Ok, Forall_singleton. cbn.
  by destruct (PaymentPromise_ValidateBasic _) as [[]| |].
Qed.

Lemma settles_iff st ctx tx pff st' : tx_Msgs tx = [MPayForFibre pff] →
  executeTxMsgs st ctx tx msgRouter = (st', Ok tt) ↔
  ∃ s, settles (a_store st) ctx pff s ∧ st' = mkAState s (a_pffSigCache st).
Proof.
  intros Hm. unfold executeTxMsgs, settles. rewrite Hm. destruct msgRouter as [router|].
  2:{ split; [intros [= <-]; exists (a_store st); by destruct st|]. intros (s & -> & ->). by destruct st. }
  cbn [run_msgs]. destruct (router (MPayForFibre pff)) as [h|]; cbn [of_option mbind result_bind].
  - destruct (h _ _ _) as [[s ctx']| |] eqn:Hh; cbn; split.
    + intros [= <-]. exists s. split; [by exists h, ctx'|done].
    + intros (s' & (h' & c' & [= <-] & Hh') & ->). rewrite Hh in Hh'. by injection Hh' as -> ->.
    + done.
    + intros (s' & (h' & c' & [= <-] & Hh') & ->). congruence.
    + done.
    + intros (s' & (h' & c' & [= <-] & Hh') & ->). congruence.
  - split; [done|]. by intros (s & (h & c & ? & _) & _).
Qed.

Context `{SL : !ShareLaws}.

Lemma pays_for_iff msg blobs :
  describes msg blobs ∧ CreateCommitments blobs SubtreeRootThreshold = Ok (pfb_ShareCommitments msg) ↔
  pays_for msg blobs.
Proof.
  split.
  - intros [[[K1 K2 K3 K4 K5 K6 K7 K8] Hb Hs Hn Hv Hsg] Hc]. unfold ValidateBlobs in Hb. inv_ok.
    apply negb_true_iff, Nat.eqb_neq in Hr. apply each_Ok in Hb. constructor; try done.
    + by intros ->.
    + eapply Forall_impl; [exact K5|]. intros ns [Hk Hk']. unfold ValidateBlobNamespace in Hk'. inv_ok.
      apply bool_decide_eq_true in Hk'. apply negb_true_iff in Hr0. done.
    + eapply Forall_impl; [exact Hb|]. intros b Hb' E. cbn beta in Hb'. by rewrite blob_IsEmpty_spec, E in Hb'.
  - intros [H1 H2 H3 H4 H5 H6 H7 (a & Ha & Hsig) H9 H10].
    assert (Hlen : length (pfb_Namespaces msg) = length blobs) by by rewrite <- H2, length_map.
    split; [|done]. constructor; try done.
    + constructor; try done.
      * rewrite Hlen. by destruct blobs.
      * by rewrite Hlen, <- H6, length_map.
      * by rewrite Hlen, <- H5, length_map.
      * rewrite Hlen. by apply CreateCommitments_length in H9.
      * eapply Forall_impl; [exact H3|]. intros ns (Hk & Hr & Hin). split; [done|].
        unfold ValidateBlobNamespace. rewrite Hr. cbn. by rewrite bool_decide_true.
    + unfold ValidateBlobs. destruct blobs as [|b0 blobs]; [done|]. cbn [length Nat.eqb negb ensure mbind result_bind].
      apply each_Ok. rewrite Forall_forall in *. intros b Hin.
      rewrite blob_IsEmpty_spec. specialize (H4 b Hin). destruct (blob_Data b) eqn:E; [done|]. cbn [length Nat.eqb negb ensure mbind result_bind].
      rewrite Forall_forall in H3. destruct (H3 (blob_Namespace b)) as (_ & Hr & Hv). { rewrite <- H2. apply list_elem_of_fmap. eauto. }
      unfold ValidateBlobNamespace. rewrite Hr. cbn. by rewrite bool_decide_true.
    + eauto.
Qed.

(** *** Transactions *)

Context `{TL : !TxLaws} `{TCL : !TxCodecLaws} (workers : Z) (txCache : gmap bytes bytes).

(** The cache has the outcome of the full validation for the blob transaction
    in some bytes. *)
Definition cache_faithful (raw : bytes) : Prop := ∀ bTx, UnmarshalBlobTx raw = Some (Ok bTx) →
  (ValidateBlobTxWithCache workers txCache bTx).2 = ValidateBlobTx workers (Some bTx) SubtreeRootThreshold.

Notation processed_tx := (processed_tx workers handler msgRouter txCache).
Notation processed_txs := (processed_txs workers handler msgRouter txCache).

Lemma canonical_iff raw bTx : blobTxIsCanonical raw bTx = true ↔ MarshalBlobTx (btx_Tx bTx) (btx_Blobs bTx) = Ok raw.
Proof.
  unfold blobTxIsCanonical. destruct (MarshalBlobTx _ _) as [c| |]; [|done..]. rewrite bool_decide_eq_true. naive_solver.
Qed.

Lemma classify_payment raw bTx : UnmarshalBlobTx raw = Some (Ok bTx) → ClassifyTx raw = Ok (NewClassifiedTx raw).
Proof. intros Hu. unfold ClassifyTx, TryParseFibreTx. by rewrite Hu. Qed.

Lemma classify_decoded raw tx : UnmarshalBlobTx raw = None → TxDecoder raw = Ok tx → hasPFB (tx_Msgs tx) = None →
  ClassifyTx raw = match payForFibreMsg tx with
    | Some msg => systemBlob ← SystemBlob msg; NewClassifiedFibreTx (mkFibreTx raw systemBlob)
    | None => Ok (NewClassifiedTx raw)
    end.
Proof.
  intros Hu Hd Hp. unfold ClassifyTx. rewrite (TryParseFibreTx_spec raw tx Hu (TxDecoder_plain raw tx Hu Hd Hp)).
  destruct (payForFibreMsg tx) as [msg|]; [|done]. cbn. by destruct (SystemBlob msg).
Qed.

Lemma SystemBlob_iff pff b : promise_shape (pff_PaymentPromise pff) →
  SystemBlob pff = Ok b ↔ ∃ signer, bech32_DecodeToBase256 (pff_Signer pff) = Some signer ∧
    share_NewV2Blob (pb_Namespace (pff_PaymentPromise pff)) (pb_BlobVersion (pff_PaymentPromise pff))
      (pb_Commitment (pff_PaymentPromise pff)) signer = Ok b.
Proof.
  intros [_ (_ & Hn & _) _ _ _ _ _ _ _]. unfold SystemBlob. rewrite Hn. cbn [mbind result_bind].
  destruct (bech32_DecodeToBase256 _) as [s|]; cbn; naive_solver.
Qed.

(** What the code processes and classifies is what the specification allows. *)
Lemma processed_tx_valid st ctx raw c st' ctx' : cache_faithful raw →
  processed_tx st ctx raw st' ctx' ∧ ClassifyTx raw = Ok c ↔ ∃ k, valid_tx st ctx raw k c st' ctx'.
Proof.
  intros Hcache. split.
  - intros [P Hcl]. revert Hcache Hcl. destruct P as
      [st0 ctx0 raw0 tx st1 ctx1 Hl Hu Hd Hp Hs Hf Hh|st0 ctx0 raw0 tx pff st1 ctx1 st2 Hl Hu Hd Hm Hs Hh Hx
      |st0 ctx0 raw0 bTx tx st1 ctx1 Hl Hu Hc Hd Hv Hh]; intros Hcache Hcl.
    + rewrite (classify_decoded _ _ Hu Hd Hp), Hf in Hcl. apply Ok_inj in Hcl as <-. eexists.
      apply valid_plain; try done; [by apply TxDecoder_iff|by apply no_payment_iff].
    + assert (payForFibreMsg tx = Some pff) as Hf by by apply payForFibreMsg_Some.
      assert (hasPFB (tx_Msgs tx) = None) as Hp by by rewrite Hm.
      rewrite (classify_decoded _ _ Hu Hd Hp), Hf in Hcl. apply bind_Ok in Hcl as (b & Hb & Hcl).
      apply (one_promise_iff _ _ Hm) in Hs. apply (SystemBlob_iff _ _ Hs) in Hb as (signer & Hsg & Hb).
      apply (settles_iff _ _ _ _ _ Hm) in Hx as (s & Hset & ->). eexists.
      eapply valid_promise; try done. by apply TxDecoder_iff.
    + rewrite (classify_payment _ _ Hu) in Hcl. apply Ok_inj in Hcl as <-. rewrite (Hcache _ Hu) in Hv.
      apply ValidateBlobTx_Ok in Hv as (msg & Hskip & Hcom). apply SkipCommitment_Ok in Hskip as [(tx' & Hd' & Hm) Hde].
      assert (tx' = tx) as -> by congruence. eexists. eapply valid_payment; try done;
        [by apply canonical_iff|by apply TxDecoder_iff|by apply pays_for_iff].
  - intros [k V]. revert Hcache. destruct V as [st ctx raw tx st' ctx' Hl Hu Hd%TxDecoder_iff Hn Hh
      |st ctx raw tx pff signer b c st' ctx' s Hl Hu Hd%TxDecoder_iff Hm Hsh Hh Hset Hsg Hb Hc
      |st ctx raw bTx tx msg st' ctx' Hl Hu Hc%canonical_iff Hd%TxDecoder_iff Hm Hpay Hh]; intros Hcache.
    + apply no_payment_iff in Hn as (Hp & Hs & Hf). split; [by eapply processed_plain|].
      by rewrite (classify_decoded _ _ Hu Hd Hp), Hf.
    + assert (payForFibreMsg tx = Some pff) as Hf by by apply payForFibreMsg_Some.
      assert (hasPFB (tx_Msgs tx) = None) as Hp by by rewrite Hm. split.
      * eapply processed_fibre; try done; [by apply (one_promise_iff _ _ Hm)|]. apply (settles_iff _ _ _ _ _ Hm). eauto.
      * rewrite (classify_decoded _ _ Hu Hd Hp), Hf. rewrite (proj2 (SystemBlob_iff pff b Hsh)) by eauto. done.
    + split; [|by apply classify_payment in Hu]. eapply processed_blob; try done. rewrite (Hcache _ Hu).
      apply pays_for_iff in Hpay as [Hde Hcom]. apply ValidateBlobTx_Ok. exists msg. split; [|done].
      apply SkipCommitment_Ok. eauto.
Qed.

(** The counters of the code count what the specification counts. *)
Lemma valid_tx_counts st ctx raw k c st' ctx' : valid_tx st ctx raw k c st' ctx' →
  sdk_count raw = plain_msgs k ∧ pfb_count raw = payments k ∧ pff_count raw = promises k.
Proof.
  unfold sdk_count, pfb_count, pff_count.
  intros [st0 ctx0 raw0 tx st1 ctx1 Hl Hu Hd%TxDecoder_iff Hn Hh
      |st0 ctx0 raw0 tx pff signer b c0 st1 ctx1 s Hl Hu Hd%TxDecoder_iff Hm Hsh Hh Hset Hsg Hb Hc
      |st0 ctx0 raw0 bTx tx msg st1 ctx1 Hl Hu Hc Hd%TxDecoder_iff Hm Hpay Hh]; rewrite Hu, Hd.
  - apply no_payment_iff in Hn as (_ & _ & ->). done.
  - rewrite (proj2 (payForFibreMsg_Some tx pff) Hm). done.
  - by rewrite Hm.
Qed.

Lemma processed_txs_valid raws st ctx cs st' ctx' : Forall cache_faithful raws →
  processed_txs st ctx raws st' ctx' ∧ ClassifyTxs raws = Ok cs ↔ ∃ ks, valid_txs st ctx raws ks cs st' ctx'.
Proof.
  intros Hc. revert st ctx cs. induction Hc as [|raw raws Hraw Hc IH]; intros st ctx cs; cbn [ClassifyTxs].
  - split.
    + intros [V [= <-]]. inversion V; subst. exists []. constructor.
    + intros [ks V]. inversion V; subst. split; [constructor|done].
  - split.
    + intros [V Hcl]. inversion V as [|? ? ? st1 ctx1 ? ? ? V1 V2]; subst. apply bind_Ok in Hcl as (c & Hc1 & Hcl).
      apply bind_Ok in Hcl as (cs' & Hc2 & Hcl). apply Ok_inj in Hcl as <-.
      destruct (proj1 (processed_tx_valid st ctx raw c st1 ctx1 Hraw) (conj V1 Hc1)) as [k K].
      destruct (proj1 (IH st1 ctx1 cs') (conj V2 Hc2)) as [ks Ks]. exists (k :: ks). by econstructor.
    + intros [ks V]. inversion V as [|? ? ? k c st1 ctx1 ? ks' cs' ? ? V1 V2]; subst.
      destruct (proj2 (processed_tx_valid st ctx raw c st1 ctx1 Hraw) (ex_intro _ k V1)) as [P1 C1].
      destruct (proj2 (IH st1 ctx1 cs') (ex_intro _ ks' V2)) as [P2 C2].
      split; [by econstructor|]. by rewrite C1, C2.
Qed.

Lemma valid_txs_counts st ctx raws ks cs st' ctx' : valid_txs st ctx raws ks cs st' ctx' →
  map sdk_count raws = map plain_msgs ks ∧ map pfb_count raws = map payments ks ∧ map pff_count raws = map promises ks.
Proof.
  induction 1 as [|st ctx raw k c st1 ctx1 raws ks cs st2 ctx2 V _ (H1 & H2 & H3)]; [done|]. cbn.
  apply valid_tx_counts in V as (-> & -> & ->). by rewrite H1, H2, H3.
Qed.

(** *** Blocks *)

Context `{CDL : !CodingLaws}.

(** The data root is the Merkle root over the roots of rows and columns. *)
Lemma data_root_iff eds h :
  (∃ dah, DA.NewDataAvailabilityHeader eds = Ok dah ∧ (DA.Hash (Some dah)).1 = h) ↔
  ∃ rows cols, eds_RowRoots eds = Ok rows ∧ eds_ColRoots eds = Ok cols ∧ h = HashFromByteSlices (rows ++ cols).
Proof.
  unfold DA.NewDataAvailabilityHeader. destruct (eds_RowRoots eds) as [rows| |] eqn:Hr; cbn [mbind result_bind]; [|naive_solver..].
  destruct (eds_ColRoots eds) as [cols| |] eqn:Hc; cbn [mbind result_bind]; [|naive_solver..].
  assert ((DA.Hash (Some (default (DA.mkDAH rows cols []) (DA.Hash (Some (DA.mkDAH rows cols []))).2))).1 =
    HashFromByteSlices (rows ++ cols)) as Hh.
  { rewrite <- DA.Hash_fresh by by eapply ExtendedRoots. exact (DA.Hash_memo (DA.mkDAH rows cols [])). }
  split.
  - intros (dah & [= <-] & <-). by exists rows, cols.
  - intros (rows' & cols' & [= <-] & [= <-] & ->). eexists. split; [done|exact Hh].
Qed.

Lemma extend_iff shares eds : DA.ExtendSharesWithTreePool shares = Ok eds ↔
  (∃ n, 0 <= n ∧ Z.of_nat (length shares) = 2 ^ n) ∧ ComputeExtendedDataSquareWithBuffer shares = Ok eds.
Proof.
  unfold DA.ExtendSharesWithTreePool. rewrite <- IsPowerOfTwo_spec. destruct (IsPowerOfTwo _); cbn; naive_solver.
Qed.

Lemma max_size_iff chain w max : MaxEffectiveSquareSize chain w = Ok max ↔
  ∃ params, GetParams w = Ok params ∧ max = Z.min (wrap_i64 (p_GovMaxSquareSize params)) 512.
Proof. unfold MaxEffectiveSquareSize. destruct (GetParams w); cbn; naive_solver. Qed.

(** The handler accepts exactly the valid blocks. *)
Lemma process_valid_block st ctx req : Forall cache_faithful (prop_Txs req) →
  ProcessProposalHandler blob_of workers handler msgRouter txCache st ctx req = accept ↔ valid_block st ctx req.
Proof.
  intros Hcache. rewrite process_iff. split.
  - intros [(st' & ctx' & cs & max & sq & eds & dah & V & Hcs & Hmax & Hsq & Heds & Hdah & Hsize & Hroot) L1 L2 L3].
    destruct (proj1 (processed_txs_valid _ st ctx cs st' ctx' Hcache) (conj V Hcs)) as [ks Ks].
    destruct (valid_txs_counts _ _ _ _ _ _ _ Ks) as (E1 & E2 & E3). rewrite E1 in L1. rewrite E2 in L2. rewrite E3 in L3.
    apply max_size_iff in Hmax as (params & Hp & ->). apply extend_iff in Heds as [(n & Hn & Hl) Heds].
    destruct (proj1 (data_root_iff eds (prop_DataRootHash req))) as (rows & cols & Hr & Hc & Hh); [by exists dah|].
    exists st', ctx', ks, cs, params, sq, n, eds, rows, cols. done.
  - intros (st' & ctx' & ks & cs & params & sq & n & eds & rows & cols & V & L1 & L2 & L3 & Hp & Hsq & Hn & Hl & Heds & Hr & Hc & Hsize & Hroot).
    destruct (valid_txs_counts _ _ _ _ _ _ _ V) as (E1 & E2 & E3).
    destruct (proj2 (processed_txs_valid _ st ctx cs st' ctx' Hcache) (ex_intro _ ks V)) as [P Hcs].
    destruct (proj2 (data_root_iff eds (prop_DataRootHash req))) as (dah & Hdah & Hh); [by exists rows, cols|].
    constructor; [|rewrite ?E1, ?E2, ?E3; done..].
    exists st', ctx', cs, (Z.min (wrap_i64 (p_GovMaxSquareSize params)) 512), sq, eds, dah.
    split_and!; try done; [apply max_size_iff; eauto|apply extend_iff; eauto].
Qed.
End Specification.
