(* ===== verification/SquareModel.v ===== *)
(** * A concrete square

    Simple executable instances of the interfaces of [GoSquare], of the gas
    meter and of the codecs, with proofs of their laws. They show that the laws
    are satisfiable and are the environment of the concrete runs. *)

From S2P Require Import Prelude Sdk SdkModel LegacyDec GoSquare FibreParams FibrePromise PayForBlob Messages Minfee DataAvailability Ante Proposal CheckTx.
Import SdkModel Blob.
#[local] Open Scope Z_scope.

Module SquareModel.

(** ** Blobs: 478 bytes of data to a share *)

Record MBlob := mkMBlob { mb_ns : bytes; mb_data : bytes; mb_version : Z; mb_signer : bytes }.

#[export] Instance MBlob_eq_dec : EqDecision MBlob.
Proof. solve_decision. Defined.

Definition shares (size : Z) : Z := if size <=? 0 then 0 else (size + 477) / 478.

Definition digest (b : bytes) : bytes := take 32 (b ++ repeat 0 32).

Definition is_power_of_two (v : Z) : bool := (0 <? v) && (2 ^ Z.log2 v =? v).

#[export] Instance share_package : SharePackage := {
  Blob := MBlob;
  blob_Namespace := mb_ns;
  blob_Data := mb_data;
  blob_ShareVersion := mb_version;
  blob_Signer := mb_signer;
  blob_IsEmpty b := (length (mb_data b) =? 0)%nat;
  blob_Hash b := digest (mb_ns b ++ mb_data b);
  share_NewV0Blob ns data := Ok (mkMBlob ns data 0 []);
  share_NewV1Blob ns data signer := Ok (mkMBlob ns data 1 signer);
  share_NewV2Blob ns v commitment signer := Ok (mkMBlob ns (v :: commitment) 2 signer);
  Namespace_IsReserved ns := Namespace_Version ns =? 255;
  SupportedBlobNamespaceVersions := [0; 1];
  SparseSharesNeeded size _ := shares size;
  CompactSharesNeeded := shares;
  CreateCommitments bs _ := Ok (map (λ b, digest (mb_data b)) bs);
  CreateParallelCommitments bs _ _ := Ok (map (λ b, digest (mb_data b)) bs);
  IsPowerOfTwo := is_power_of_two;
}.

Lemma shares_bounds size : 0 <= size → 0 <= shares size <= size.
Proof.
  intros Hs. unfold shares. destruct (Z.leb_spec size 0); [lia|]. split; [apply Z.div_pos; lia|].
  apply Z.div_le_upper_bound; lia.
Qed.

#[export] Instance share_laws : ShareLaws.
Proof.
  constructor; cbn.
  - done.
  - intros size _ [Hs _]. by apply shares_bounds.
  - intros s s' _ Hs. unfold shares. destruct (Z.leb_spec s 0), (Z.leb_spec s' 0); try lia.
    + apply Z.div_pos; lia.
    + apply Z.div_le_mono; lia.
  - intros size [Hs _]. by apply shares_bounds.
  - intros bs t cs [= <-]. by rewrite length_map.
  - done.
  - done.
  - intros v. unfold is_power_of_two. rewrite andb_true_iff, Z.ltb_lt, Z.eqb_eq. split.
    + intros [Hv He]. exists (Z.log2 v). split; [apply Z.log2_nonneg|done].
    + intros (k & Hk & ->). split; [by apply Z.pow_pos_nonneg|]. by rewrite Z.log2_pow2.
Qed.

(** ** Blob transactions: a tag and length-prefixed fields *)

Definition enc (b : bytes) : bytes := Z.of_nat (length b) :: b.
Definition dec_field (l : bytes) : option (bytes * bytes) :=
  match l with
  | [] => None
  | n :: l' => Some (take (Z.to_nat n) l', drop (Z.to_nat n) l')
  end.

Definition enc_blob (b : MBlob) : bytes := enc (mb_ns b) ++ enc (mb_data b) ++ enc [mb_version b] ++ enc (mb_signer b).
Definition dec_blob (l : bytes) : option (MBlob * bytes) :=
  '(ns, l1) ← dec_field l; '(data, l2) ← dec_field l1; '(v, l3) ← dec_field l2; '(signer, l4) ← dec_field l3;
  Some (mkMBlob ns data (hd 0 v) signer, l4).

Fixpoint dec_blobs (n : nat) (l : bytes) : option (list MBlob) :=
  match n with
  | O => Some []
  | S n' => '(b, l') ← dec_blob l; bs ← dec_blobs n' l'; Some (b :: bs)
  end.

Definition marshal (t : bytes) (bs : list MBlob) : bytes :=
  200 :: enc t ++ Z.of_nat (length bs) :: concat (map enc_blob bs).

Definition dec_tx (l : bytes) : option BlobTx :=
  match dec_field l with
  | Some (t, n :: l') => (λ bs, mkBlobTx t bs) <$> dec_blobs (Z.to_nat n) l'
  | _ => None
  end.

Definition unmarshal (raw : bytes) : option (result BlobTx) :=
  match raw with
  | 200 :: l => Some (of_option "malformed" (dec_tx l))
  | _ => None
  end.

#[export] Instance tx_package : TxPackage := {
  UnmarshalBlobTx := unmarshal;
  MarshalBlobTx t bs := Ok (marshal t bs);
}.

Lemma dec_enc b l : dec_field (enc b ++ l) = Some (b, l).
Proof.
  cbn. rewrite Nat2Z.id, take_app_length, drop_app_length. done.
Qed.

Lemma dec_enc_blob b l : dec_blob (enc_blob b ++ l) = Some (b, l).
Proof.
  unfold dec_blob, enc_blob. rewrite <- !app_assoc. rewrite dec_enc. cbn [mbind option_bind].
  rewrite dec_enc. cbn [mbind option_bind]. rewrite dec_enc. cbn [mbind option_bind]. rewrite dec_enc. by destruct b.
Qed.

Lemma dec_enc_blobs bs : dec_blobs (length bs) (concat (map enc_blob bs)) = Some bs.
Proof. induction bs as [|b bs IH]; [done|]. cbn [map concat length dec_blobs]. by rewrite dec_enc_blob; cbn; rewrite IH. Qed.

Lemma unmarshal_marshal t bs : unmarshal (marshal t bs) = Some (Ok (mkBlobTx t bs)).
Proof.
  unfold unmarshal, marshal, dec_tx. rewrite dec_enc. by rewrite Nat2Z.id, dec_enc_blobs.
Qed.

#[export] Instance tx_laws : TxLaws.
Proof.
  constructor; cbn.
  - intros raw r Hu p ->. unfold unmarshal in Hu. repeat case_match; try done.
    injection Hu as Hu. unfold of_option in Hu. by case_match.
  - done.
  - intros t bs raw [= <-]. apply unmarshal_marshal.
Qed.

(** ** A builder with room for as many transactions as the square has shares *)

Inductive Item := ITx (raw : bytes) | IBlob (t : BlobTx) | IFibre (t : FibreTx).

Record MBuilder := mkMBuilder { mbu_capacity : nat; mbu_items : list Item }.

Definition push (b : MBuilder) (i : Item) : option MBuilder :=
  if (length (mbu_items b) <? mbu_capacity b)%nat
  then Some (mkMBuilder (mbu_capacity b) (mbu_items b ++ [i])) else None.

Definition pop (b : MBuilder) : result MBuilder := Ok (mkMBuilder (mbu_capacity b) (removelast (mbu_items b))).

Definition item_bytes (i : Item) : bytes :=
  match i with
  | ITx raw => enc raw
  | IBlob t => enc (marshal (btx_Tx t) (btx_Blobs t))
  | IFibre t => enc (ftx_Tx t) ++ enc_blob (ftx_SystemBlob t)
  end.

Definition push_classified (b : MBuilder) (c : ClassifiedTx) : result (option MBuilder) :=
  match c with
  | NewClassifiedTx raw =>
      match UnmarshalBlobTx raw with
      | Some (Ok bTx) => Ok (push b (IBlob bTx))
      | Some (Err e) => Err e
      | Some (Panic p) => Panic p
      | None => Ok (push b (ITx raw))
      end
  | ClassifiedFibreTx f => Ok (push b (IFibre f))
  end.

Definition construct (cs : list ClassifiedTx) (max : Z) : result (list Item) :=
  b ← fold_res (λ b c, o ← push_classified b c; of_option "does not fit" o) cs (mkMBuilder (Z.to_nat (max * max)) []);
  Ok (mbu_items b).

#[export] Instance square_package : SquarePackage := {
  Square := list Item;
  Square_ToBytes sq := [concat (map item_bytes sq)];
  Square_Size _ := Ok 1;
  Builder := MBuilder;
  NewBuilder max _ := Ok (mkMBuilder (Z.to_nat (max * max)) []);
  AppendTx b t := push b (ITx t);
  AppendBlobTx b t := Ok (push b (IBlob t));
  AppendFibreTx b t := Ok (push b (IFibre t));
  RevertLastTx := pop;
  RevertLastBlobTx := pop;
  RevertLastPayForFibreTx := pop;
  Export b := Ok (mbu_items b);
  NewClassifiedFibreTx f := Ok (ClassifiedFibreTx f);
  Construct cs max _ := construct cs max;
}.

Lemma pop_push b i b' : push b i = Some b' → pop b' = Ok b.
Proof.
  unfold push, pop. case_match; [|done]. intros [= <-]. cbn. rewrite removelast_last. by destruct b.
Qed.

Lemma appends_fold b cs b' : appends b cs b' →
  fold_res (λ b c, o ← push_classified b c; of_option "does not fit" o) cs b = Ok b'.
Proof.
  induction 1 as [|b b' b'' c cs Hc _ IH]; [done|]. cbn [fold_res].
  assert (push_classified b c = Ok (Some b')) as -> by exact Hc. exact IH.
Qed.

#[export] Instance square_laws : SquareLaws.
Proof.
  constructor; cbn.
  - intros b t b'. apply pop_push.
  - intros b t b' [= Hp]. by eapply pop_push.
  - intros b t b' [= Hp]. by eapply pop_push.
  - by intros f c [= <-].
  - done.
  - intros cs max thr b0 b [= <-] Ha _. unfold construct. by rewrite (appends_fold _ _ _ Ha).
Qed.

(** ** A square of one share, extended by repetition *)

#[export] Instance erasure_coding : ErasureCoding := {
  EDS := list bytes;
  ComputeExtendedDataSquareWithBuffer s := Ok (s ++ s);
  ComputeExtendedDataSquare s _ := Ok (s ++ s);
  eds_Width e := Z.of_nat (length e);
  eds_RowRoots e := Ok (map digest e);
  eds_ColRoots e := Ok (map digest e);
  HashFromByteSlices l := concat (map enc l);
}.

#[export] Instance old_squares : DA.OldSquares := {
  DA.squarev2_Construct txs _ _ := Ok txs;
  DA.squarev3_Construct txs _ _ := Ok txs;
  DA.square_Size n := Ok (Z.sqrt n);
  DA.EmptySquare := [[]];
  DA.ValidateHash _ := Ok tt;
}.

#[export] Instance coding_laws : CodingLaws.
Proof.
  constructor; cbn.
  - intros sq n eds [= <-] [= <-]. by cbn.
  - intros eds rows cols [= <-] [= <-]. done.
Qed.

(** ** Gas, sizes, codecs *)

#[export] Instance gas_meter : GasMeterOps := {
  GasMeter := Z;
  GasRemaining m := m;
  ConsumeGas m g := if g <=? m then Ok (m - g) else Panic "out of gas";
}.

#[export] Instance gas_laws : GasMeterLaws.
Proof.
  constructor; cbn.
  - intros m g Hg. rewrite (proj2 (Z.leb_le _ _)) by lia. exists (m - g). split; [done|lia].
  - intros m g Hg. rewrite (proj2 (Z.leb_gt _ _)) by lia. eauto.
Qed.

#[export] Instance proto_size : ProtoSize := { ComputeProtoSizeForTxs txs := zsum (map (λ t, len t + 2) txs) }.

#[export] Instance proto_size_laws : ProtoSizeLaws.
Proof. constructor; cbn; unfold zsum, len; cbn; intros; lia. Qed.

#[export] Instance blob_params_codec : ParamsCodec := {
  Params_Marshal p := if bool_decide (p = mkParams 0 0) then [] else [p_GasPerBlobByte p; p_GovMaxSquareSize p];
  Params_Unmarshal b :=
    match b with
    | [] => Ok (mkParams 0 0)
    | [g; s] => Ok (mkParams g s)
    | _ => Err "malformed"
    end;
  subspace := option Params;
  GetParamSet o := match o with Some p => Ok p | None => Panic "parameter not set" end;
  SetParamSet _ p := Ok (Some p);
}.

#[export] Instance blob_params_laws : ParamsCodecLaws.
Proof.
  constructor; cbn.
  - intros p _ _. case_bool_decide as E; [by rewrite E|]. by destruct p.
  - intros p. by case_bool_decide.
Qed.

#[export] Instance minfee_codec : Minfee.ParamsCodec := {
  Minfee.Params_Marshal p := [Minfee.p_NetworkMinGasPrice p];
  Minfee.Params_Unmarshal b := match b with [d] => Ok (Minfee.mkParams d) | _ => Err "malformed" end;
  Minfee.subspace := option Minfee.Params;
  Minfee.GetParamSet o := match o with Some p => Ok p | None => Panic "parameter not set" end;
}.

#[export] Instance minfee_laws : Minfee.ParamsCodecLaws.
Proof. constructor; [by intros []|done]. Qed.

#[export] Instance fee_ops : Minfee.FeeOps := {
  Minfee.coins_AmountOf cs d := zsum (map (λ c, if String.eqb (Denom c) d then Amount c else 0) cs);
  Minfee.deccoins_AmountOf cs d := zsum (map (λ c, if String.eqb c.1 d then c.2 else 0) cs);
}.

#[export] Instance consensus_defaults : ConsensusDefaults := {
  DefaultValidatorParams := ["ed25519"];
  DefaultEvidenceMaxBytes := 1048576;
  ToProtoConsensusParams u :=
    match cu_Evidence u, cu_Validator u with
    | Some e, Some v => Ok (e, v)
    | _, _ => Err "all parameters must be present"
    end;
}.

#[export] Instance consensus_laws : ConsensusLaws.
Proof. constructor. intros u e v. cbn. destruct (cu_Evidence u), (cu_Validator u); try done. by intros [= -> ->]. Qed.

#[export] Instance abci_errors : AbciErrors := { ABCIInfo_code _ := 1 }.
#[export] Instance abci_errors_laws : AbciErrorsLaws.
Proof. by constructor. Qed.

#[export] Instance msg_format : MsgFormat := { Sprintf_TS := MsgTypeURL }.
End SquareModel.
