(* ===== verification/ChainModel.v ===== *)
(** * A concrete chain

    A store with one account, simple versions of the SDK's decorators, a small
    set of transactions and the runs of the handlers on them. *)

From S2P Require Import Prelude Sdk SdkModel LegacyDec FibreParams FibrePromise FibreKeeper FibreLedger FibreMsgServer FibreExample ValidatorSet.
From S2P Require Import GoSquare PayForBlob Messages Minfee DataAvailability Ante AnteProofs Proposal ProposalProofs AnteAgreement CheckTx SquareModel.
Import SdkModel DecModel Blob SquareModel.
#[local] Open Scope Z_scope.

Module ChainModel.

(** ** The store *)

Record MStore := mkMStore {
  ms_fibre : FibreMsgServer.World;
  ms_blob : Blob.World;
  ms_minfee : Minfee.World;
  ms_history : list StakingValidator;
  ms_pubkey : bool;
  ms_sequence : Z;
}.

Definition with_fibre (s : MStore) (w : FibreMsgServer.World) : MStore :=
  mkMStore w (ms_blob s) (ms_minfee s) (ms_history s) (ms_pubkey s) (ms_sequence s).
Definition with_pubkey (s : MStore) : MStore :=
  mkMStore (ms_fibre s) (ms_blob s) (ms_minfee s) (ms_history s) true (ms_sequence s).
Definition with_sequence (s : MStore) (n : Z) : MStore :=
  mkMStore (ms_fibre s) (ms_blob s) (ms_minfee s) (ms_history s) (ms_pubkey s) n.

(** ** The SDK's decorators *)

Definition signatures (tx : Tx) : list SignatureV2 :=
  match tx_SigTx tx with Some (Ok sigs) => sigs | _ => [] end.

Definition update (f : MStore → Tx → MStore) : Decorator MStore := λ next st ctx tx simulate,
  next (mkAState (f (a_store st) tx) (a_pffSigCache st)) ctx tx simulate.

Definition set_up : Decorator MStore := λ next st ctx tx simulate,
  match tx_FeeTx tx with
  | None => (st, Fail (WithGasMeter ctx 0) "Tx must be a GasTx")
  | Some (_, gas) => next st (WithGasMeter ctx gas) tx simulate
  end.

Definition deduct_fee (checker : AState MStore → Ctx → Tx → result (list Coin * Z)) : Decorator MStore :=
  λ next st ctx tx simulate,
    if (simulate : bool) then next st ctx tx simulate
    else guard (λ st ctx tx, _ ← checker st ctx tx; Ok tt) next st ctx tx simulate.

(** The account learns a public key that comes with a signature. *)
Definition set_pubkey (s : MStore) (tx : Tx) : MStore :=
  if existsb (λ sig, bool_decide (is_Some (sig_PubKey sig))) (signatures tx) then with_pubkey s else s.

(** The account has a key, and the signatures carry its sequence. *)
Definition check_signatures (st : AState MStore) (ctx : Ctx) (tx : Tx) : result unit :=
  _ ← ensure (ms_pubkey (a_store st)) "pubkey on account not set";
  each (λ sig, ensure (sig_Sequence sig =? ms_sequence (a_store st)) "account sequence mismatch") (signatures tx).

Definition bump (s : MStore) (tx : Tx) : MStore := with_sequence s (ms_sequence s + 1).

#[export] Instance sdk_decorators : SdkDecorators MStore := {
  SetUpContextDecorator := set_up;
  CircuitBreakerDecorator next := next;
  ExtensionOptionsDecorator next := next;
  ValidateBasicDecorator next := next;
  TxTimeoutHeightDecorator next := next;
  ValidateMemoDecorator next := next;
  DeductFeeDecorator := deduct_fee;
  SetPubKeyDecorator := update set_pubkey;
  ValidateSigCountDecorator next := next;
  SigGasConsumeDecorator next := next;
  SigVerificationDecorator := guard check_signatures;
  IncrementSequenceDecorator := update bump;
  RedundantRelayDecorator next := next;
}.

(** ** Validator signatures, against the history in the store *)

Definition comet_of (history : list StakingValidator) : CometBFT := {|
  NewValidator := @NewValidator SignatureExample.comet;
  NewValidatorSet := @NewValidatorSet SignatureExample.comet;
  GetHistoricalInfo h := if h =? 10 then Ok history else Err "not found";
|}.

Definition verify (s : MStore) (ctx : Ctx) (msg : MsgPayForFibre) : result unit :=
  ValidatePayForFibreSignatures (CB := comet_of (ms_history s)) msg.

(** ** The message router: promises are settled by x/fibre *)

Definition pay_handler (s : MStore) (ctx : Ctx) (msg : Msg) : result (MStore * Ctx) :=
  match msg with
  | MPayForFibre m => w ← PayForFibre (c_block ctx) (ms_fibre s) m; Ok (with_fibre s w, ctx)
  | _ => Err "unknown message"
  end.

Definition router : MessageRouter (store := MStore) := λ msg,
  match msg with MPayForFibre _ => Some pay_handler | _ => None end.

(** ** The transactions *)

Definition account : bytes := [5].
Definition account_key : PubKey := mkPubKey [5] false.

Definition mk (msgs : list Msg) (key : option PubKey) (sequence : Z) : Tx :=
  mkTx msgs (Some ([mkCoin "utia" 100000], 500000))
    (Some (Ok [mkSignatureV2 key (Some (SingleSignatureData [1])) sequence])).

Definition blob0 : MBlob := mkMBlob (0 :: repeat 1 28) [1; 2; 3] 0 [].
Definition blob1 : MBlob := mkMBlob (0 :: repeat 2 28) [4; 5] 1 account.

Definition pfb : MsgPayForBlobs :=
  mkMsgPayForBlobs account (map mb_ns [blob0; blob1]) [3; 2] (map (λ b, digest (mb_data b)) [blob0; blob1]) [0; 1].

Definition pff : MsgPayForFibre := mkMsgPayForFibre [1] (FibreExample.promise 0) [[1]; [2]].

Definition send : Msg := MOther "/cosmos.bank.v1beta1.MsgSend" [1].

(** The bytes of the transactions: a transfer, a payment for blobs, a promise;
    then a transfer with a wrong sequence and one without a public key. *)
Definition table (b : bytes) : option Tx :=
  match b with
  | [1] => Some (mk [send] (Some account_key) 0)
  | [2] => Some (mk [MPayForBlobs pfb] (Some account_key) 1)
  | [3] => Some (mk [MPayForFibre pff] (Some account_key) 2)
  | [4] => Some (mk [send] (Some account_key) 9)
  | [5] => Some (mk [send] None 0)
  | _ => None
  end.

#[export] Instance tx_codec : TxCodec := {
  DefaultTxDecoder b := of_option "tx parse error" (table b);
  UnmarshalIndexWrapper _ := None;
  TxRaw_Unmarshal b := Some b;
  TxBody_Unmarshal b := (λ tx, map (λ m, (MsgTypeURL m, b)) (tx_Msgs tx)) <$> table b;
  MsgPayForFibre_Unmarshal b := table b ≫= payForFibreMsg;
  bech32_DecodeToBase256 b := Some b;
}.

Lemma table_inv b tx : table b = Some tx →
  (b, tx) ∈ [([1], mk [send] (Some account_key) 0); ([2], mk [MPayForBlobs pfb] (Some account_key) 1);
             ([3], mk [MPayForFibre pff] (Some account_key) 2); ([4], mk [send] (Some account_key) 9);
             ([5], mk [send] None 0)].
Proof. unfold table. repeat case_match; try done; intros [= <-]; subst; set_solver. Qed.

#[export] Instance tx_codec_laws : TxCodecLaws.
Proof.
  constructor; cbn.
  - intros b p. unfold of_option. by case_match.
  - intros b tx Hd%of_option_Ok. exists b, (map (λ m, (MsgTypeURL m, b)) (tx_Msgs tx)). rewrite Hd. split_and!; [done..|].
    apply table_inv in Hd. rewrite !elem_of_cons in Hd.
    destruct Hd as [[= -> ->]|[[= -> ->]|[[= -> ->]|[[= -> ->]|[[= -> ->]|Hd%elem_of_nil]]]]]; [..|done];
      (constructor; [|constructor]); split_and!; try done; by intros m [= <-].
Qed.

Definition blob_tx : bytes := marshal [2] [blob0; blob1].

(** ** The state at block 11 *)

Definition store0 (pubkey : bool) : MStore :=
  mkMStore FibreExample.world3
    (Blob.mkWorld (Some [8; 64]) None [])
    (Minfee.mkWorld (Some [Minfee.DefaultNetworkMinGasPrice]) None [])
    SignatureExample.info pubkey 0.

Definition state0 : AState MStore := mkAState (store0 true) ∅.
Definition ctx0 : Ctx := mkCtx (FibreExample.ctx_at 6 11) false false [] [] 0.

Definition StdSignatureSize (k : PubKey) : Z := 64.
Definition TxSigLimit (s : MStore) : Z := 7.

Definition handler : AnteHandler MStore :=
  NewAnteHandler ms_blob ms_minfee verify StdSignatureSize TxSigLimit account_key GovParamFilters.

Definition prepared (st : AState MStore) (txs : list bytes) : result Proposal :=
  PrepareProposalHandler ms_blob handler (Some router) st ctx0 txs 100000.

Definition processed (st : AState MStore) (p : Proposal) : Response :=
  ProcessProposalHandler ms_blob 4 handler (Some router) ∅ st ctx0 p.

(** ** The laws of the decorators *)

Lemma passes_id {P} (view : AState MStore → P) : passes view (λ next, next).
Proof. intros next st ctx tx sim st' ctx' H. by eapply reached. Qed.

Lemma passes_update {P} (view : AState MStore → P) f :
  (∀ st tx, view (mkAState (f (a_store st) tx) (a_pffSigCache st)) = view st) → passes view (update f).
Proof. intros Hf next st ctx tx sim st' ctx' H. eapply reached; [exact H|apply Hf|done]. Qed.

Lemma set_pubkey_keeps s tx : ms_blob (set_pubkey s tx) = ms_blob s ∧ ms_minfee (set_pubkey s tx) = ms_minfee s ∧
  ms_history (set_pubkey s tx) = ms_history s ∧ ms_fibre (set_pubkey s tx) = ms_fibre s.
Proof. unfold set_pubkey. by case_match. Qed.

#[export] Instance sdk_decorator_laws : SdkDecoratorLaws (full_view ms_blob ms_minfee ms_history).
Proof.
  constructor; cbn -[full_view].
  - repeat first [apply Forall_nil_2 | apply Forall_cons_2]; try apply passes_id; try apply passes_guard.
    + intros next st ctx tx sim st' ctx'. unfold set_up. repeat case_match; [|done]. intros Hn.
      eapply reached; [exact Hn|done|repeat split].
    + apply passes_update. intros st tx. destruct (set_pubkey_keeps (a_store st) tx) as (H1 & H2 & H3 & _).
      unfold full_view, params_view. cbn. by rewrite H1, H2, H3.
    + by apply passes_update.
  - intros checker next st ctx tx sim st' ctx'. unfold deduct_fee. case_match; [apply passes_id|apply passes_guard].
  - intros checker next st ctx tx st' ctx' H. apply guard_accepts in H. inv_ok. eauto.
Qed.

Lemma verify_reads s s' c c' msg : ms_history s = ms_history s' → verify s c msg = verify s' c' msg.
Proof. intros H. unfold verify. by rewrite H. Qed.

(** A part of the store that includes the history and is left alone. *)
Section Agreement.
Context (occurs : bytes → Prop) {H : Type} (kept : MStore → H).
Hypothesis kept_history : ∀ s s', kept s = kept s' → ms_history s = ms_history s'.
Hypothesis kept_pubkey : ∀ s tx, kept (set_pubkey s tx) = kept s.
Hypothesis kept_bump : ∀ s tx, kept (bump s tx) = kept s.

Lemma verify_kept s s' c c' msg : kept s = kept s' → verify s c msg = verify s' c' msg.
Proof. intros Hk. by apply verify_reads, kept_history. Qed.

#[local] Abbreviation lawful := (lawful verify occurs) (only parsing).
#[local] Abbreviation framing := (framing ms_blob kept) (only parsing).

Lemma lawful_update f : (∀ s tx, kept (f s tx) = kept s) → lawful (update f).
Proof.
  intros Hf next Hn st st2 ctx tx sim Ho Hd Hs H1 H2. unfold update. apply Hn; cbn; try done; [by rewrite Hs| |];
    eapply sigcache_ok_history; eauto using verify_kept.
Qed.

Lemma framing_update f : (∀ s tx, kept (f s tx) = kept s ∧ ms_blob (f s tx) = ms_blob s) →
  framing (update f).
Proof.
  intros Hf next Hn st ctx tx sim. unfold update.
  destruct (Hn (mkAState (f (a_store st) tx) (a_pffSigCache st)) ctx tx sim) as [Hv Hc]. split; [|exact Hc].
  rewrite Hv. unfold view. cbn. by destruct (Hf (a_store st) tx) as [-> ->].
Qed.

Lemma framing_set_up : framing set_up.
Proof.
  intros next Hn st ctx tx sim. unfold set_up.
  destruct (tx_FeeTx tx) as [[fees gas]|]; [apply (Hn st (WithGasMeter ctx gas))|by split].
Qed.

Lemma lawful_deduct_fee checker :
  (∀ st st2 ctx tx, a_store st2 = a_store st → checker st2 ctx tx = checker st ctx tx) → lawful (deduct_fee checker).
Proof.
  intros Hc next Hn st st2 ctx tx sim Ho Hd Hs H1 H2. unfold deduct_fee. destruct sim; [by apply Hn|].
  apply lawful_guard; try done. intros ? ? ? ? He. by rewrite (Hc _ _ _ _ He).
Qed.

Lemma framing_deduct_fee checker : framing (deduct_fee checker).
Proof.
  intros next Hn st ctx tx sim. unfold deduct_fee. destruct sim; [apply Hn|by apply framing_guard].
Qed.

Lemma framing_laws : SdkFramingLaws ms_blob kept.
Proof.
  constructor; cbn; [|apply framing_deduct_fee].
  repeat first [apply Forall_nil_2 | apply Forall_cons_2]; try exact (λ next Hn, Hn); [apply framing_set_up| |apply framing_guard|].
  - apply framing_update. intros s tx. split; [done|apply set_pubkey_keeps].
  - apply framing_update. intros s tx. split; [done|reflexivity].
Qed.

Lemma agreement_laws : SdkAgreementLaws ms_blob verify kept occurs.
Proof.
  constructor; cbn.
  - apply framing_laws.
  - repeat first [apply Forall_nil_2 | apply Forall_cons_2]; try exact (λ next Hn, Hn); try by apply lawful_update.
    apply lawful_guard. intros st st2 ctx tx Hs. unfold check_signatures. by rewrite Hs.
  - apply lawful_deduct_fee.
  - intros next Hn st st2 c d tx sim Ho Hd Hs H1 H2 (He1 & He2 & He3 & He4) Hb. unfold set_up.
    assert (∀ gas, WithGasMeter c gas = WithGasMeter d gas) as Heq.
    { intros gas. unfold WithGasMeter. by rewrite He1, He2, He3, He4, Hb. }
    destruct (tx_FeeTx tx) as [[fees gas]|].
    + rewrite <- Heq. by apply Hn.
    + rewrite Heq. by apply same_stop.
Qed.
End Agreement.

#[export] Instance history_agreement occurs : SdkAgreementLaws ms_blob verify ms_history occurs.
Proof. apply agreement_laws; try done. intros s tx. apply set_pubkey_keeps. Qed.

(** The decorators leave the store of x/fibre alone. *)
Definition fibre_store (s : MStore) : FibreKeeper.Store := FibreMsgServer.w_store (ms_fibre s).

#[export] Instance fibre_framing : SdkFramingLaws ms_blob fibre_store.
Proof.
  apply framing_laws; unfold fibre_store; [|done]. intros s tx. by destruct (set_pubkey_keeps s tx) as (_ & _ & _ & ->).
Qed.

Lemma router_frames st c tx st' : executeTxMsgs st c tx (Some router) = (st', Ok tt) →
  view ms_blob ms_history (a_store st') = view ms_blob ms_history (a_store st).
Proof.
  unfold executeTxMsgs. destruct (run_msgs router (tx_Msgs tx) (a_store st) c) as [s| |] eqn:E; intros [= <-]. cbn.
  revert E. generalize (a_store st). revert c. induction (tx_Msgs tx) as [|m msgs IH]; intros c s0 E; cbn in E.
  { by apply Ok_inj in E as ->. }
  apply bind_Ok in E as (h & Hh%of_option_Ok & E). apply bind_Ok in E as ([s1 c1] & Hr & E).
  rewrite (IH _ _ E). destruct m; try done. injection Hh as <-. cbn in Hr. apply bind_Ok in Hr as (w & _ & Hr).
  apply Ok_inj in Hr. by injection Hr as <- _.
Qed.

(** The SDK's own check of a transaction admits everything. *)
#[export] Instance base_app : BaseAppOps := {
  base := unit;
  BaseApp_CheckTx b _ := (b, (mkResponseCheckTx CodeTypeOK [] 0, None));
}.
End ChainModel.
