(* ===== verification/BlobProperties.v ===== *)
(** * Properties of blob payments

    The message and the transaction that pay for blobs, the parameters of
    x/blob and x/minfee, and data availability headers. *)

From S2P Require Import Prelude Sdk SdkModel LegacyDec GoSquare FibreParams FibrePromise PayForBlob Messages Minfee DataAvailability.
From S2P Require Import Ante AnteProofs Proposal CheckTx SquareModel ChainModel.
Import Blob.
#[local] Open Scope Z_scope.

Section BlobTransactions.
Context `{SP : SharePackage} `{TP : !TxPackage} `{TC : TxCodec} `{CR : Crypto} `{AC : AddressCodec}.
Context `{SL : !ShareLaws}.

(** A message created for some blobs describes them. *)
Lemma NewMsgPayForBlobs_describes signer blobs msg : NewMsgPayForBlobs signer blobs = Ok msg →
  describes msg blobs ∧ CreateCommitments blobs SubtreeRootThreshold = Ok (pfb_ShareCommitments msg) ∧
  pfb_Signer msg = signer.
Proof.
  unfold NewMsgPayForBlobs, ExtractBlobComponents, namespacesToBytes. intros H. inv_ok. subst msg.
  destruct r, r1, r3. split; [|done].
  constructor; cbn; try done; [by apply ValidateBasic_Ok|].
  exists r0. split; [done|]. apply each_Ok in Hr1. eapply Forall_impl; [exact Hr1|].
  intros b Hb Hv. cbn in Hb. rewrite Hv in Hb. cbn in Hb. by apply ensure_Ok, bool_decide_eq_true in Hb.
Qed.

(** C22: the checks of a blob transaction accept it exactly when its inner
    transaction has one message, that message is a well-formed
    [MsgPayForBlobs], and it declares for each blob, in order, its namespace,
    size, share version, the signer of a version-one blob, and the commitment
    computed from the blob. *)
Theorem blob_tx_valid_iff workers bTx :
  ValidateBlobTx workers (Some bTx) SubtreeRootThreshold = Ok tt ↔
  ∃ tx msg, TxDecoder (btx_Tx bTx) = Ok tx ∧ tx_Msgs tx = [MPayForBlobs msg] ∧
    describes msg (btx_Blobs bTx) ∧
    CreateCommitments (btx_Blobs bTx) SubtreeRootThreshold = Ok (pfb_ShareCommitments msg).
Proof.
  rewrite ValidateBlobTx_Ok. setoid_rewrite SkipCommitment_Ok. split.
  - intros (msg & ((tx & Hd & Hm) & Hdesc) & Hc). eauto 8.
  - intros (tx & msg & Hd & Hm & Hdesc & Hc). eauto 8.
Qed.

(** A message that a client creates for its blobs makes a transaction that
    every node accepts together with those blobs. *)
Theorem created_payment_validates workers signer blobs msg t tx :
  NewMsgPayForBlobs signer blobs = Ok msg → TxDecoder t = Ok tx → tx_Msgs tx = [MPayForBlobs msg] →
  ValidateBlobTx workers (Some (mkBlobTx t blobs)) SubtreeRootThreshold = Ok tt.
Proof.
  intros (Hd & Hc & _)%NewMsgPayForBlobs_describes Ht Hm. apply ValidateBlobTx_Ok. exists msg. split; [|done].
  apply SkipCommitment_Ok. eauto.
Qed.

Context `{TL : !TxLaws} `{TCL : !TxCodecLaws}.
Hypothesis namespace_total : ∀ ns, no_panic (NewNamespaceFromBytes ns).

(** The indexed comparisons stay in range on lists of one length. *)
Lemma match_namespaces_no_panic namespaces blobs : length blobs = length namespaces →
  no_panic (match_namespaces namespaces blobs).
Proof.
  intros Hl. apply no_panic_each_i. intros j ns Hj%lookup_lt_Some. no_panic; auto. apply no_panic_index. cbn. lia.
Qed.

Lemma match_versions_no_panic blobs versions : length blobs = length versions →
  no_panic (match_versions blobs versions).
Proof.
  intros Hl. apply no_panic_each_i. intros j b Hj%lookup_lt_Some. no_panic. apply no_panic_index. cbn. lia.
Qed.

Lemma match_commitments_no_panic declared calculated : length calculated = length declared →
  no_panic (match_commitments declared calculated).
Proof.
  intros Hl. apply no_panic_each_i. intros j c Hj%lookup_lt_Some. no_panic. apply no_panic_index. cbn. lia.
Qed.

Lemma SkipCommitment_no_panic bTx : no_panic (ValidateBlobTxSkipCommitment bTx).
Proof.
  unfold ValidateBlobTxSkipCommitment. destruct bTx as [bTx|]; [|done].
  apply no_panic_bind; [apply TxDecoder_no_panic|]. intros tx _.
  destruct (tx_Msgs tx) as [|[msg| | | | | | |] [|]]; [done| |done..].
  apply no_panic_bind; [by apply ValidateBasic_no_panic|]. intros [] Hok%ValidateBasic_Ok.
  apply no_panic_bind; [apply ValidateBlobs_no_panic|]. intros _ _.
  apply no_panic_bind; [apply no_panic_of_option|]. intros signer _.
  apply no_panic_bind; [apply no_panic_each; intros b _; case_match; no_panic|]. intros _ _.
  apply no_panic_bind; [apply no_panic_ensure|]. intros [] Hs%ensure_Ok%bool_decide_eq_true.
  assert (length (btx_Blobs bTx) = length (pfb_Namespaces msg)) as Hl
    by (rewrite <- (ok_sizes _ Hok), <- Hs; by rewrite length_map).
  apply no_panic_bind; [by apply match_namespaces_no_panic|]. intros _ _.
  apply no_panic_bind; [|done]. apply match_versions_no_panic. by rewrite (ok_versions _ Hok).
Qed.

(** C23: validating a blob transaction never panics, whatever the transaction,
    the message and the blobs are: the indexes into the lists of the message
    stay in range, so every malformed transaction is an error. The threshold of
    the subtree roots is any positive one; the application passes 64. *)
Theorem blob_tx_validation_never_panics workers bTx threshold : 0 < threshold →
  no_panic (ValidateBlobTx workers bTx threshold).
Proof.
  intros Hpos. unfold ValidateBlobTx. apply no_panic_bind; [apply SkipCommitment_no_panic|]. intros msg Hm.
  destruct bTx as [bTx|]; [|done]. rewrite CreateParallelCommitments_eq.
  destruct (CreateCommitments (btx_Blobs bTx) threshold) as [cs| |p] eqn:E; [|done|by apply CreateCommitments_total in E].
  apply CreateCommitments_length in E. apply SkipCommitment_Ok in Hm as (_ & [Hok _ Hs _ _ _]).
  apply match_commitments_no_panic. rewrite E, (ok_commitments _ Hok), <- (ok_sizes _ Hok), <- Hs. by rewrite length_map.
Qed.
End BlobTransactions.

(** ** Gas *)

Section Gas.
Context `{SP : SharePackage} `{CR : Crypto} `{AC : AddressCodec} `{SL : !ShareLaws} `{GM : GasMeterOps}.

(** C36: a created message has lists of one length with the widths of the wire
    format, declares a commitment of the size of a digest for every blob, and
    its estimated gas is the exact sum of the shares, the bytes of the blob
    descriptions and the fixed cost, without wrap-around. *)
Theorem created_payment_well_formed signer blobs msg :
  NewMsgPayForBlobs signer blobs = Ok msg → Z.of_nat (length blobs) < max_blobs / 2 →
  pfb_ok msg ∧ pfb_wire_ok msg ∧
  DefaultEstimateGas msg =
    Ok (shares_of msg * ShareSize * GasPerBlobByte
        + TxSizeCostPerByte * BytesPerBlobInfo * Z.of_nat (length blobs) + PFBGasFixedCost).
Proof.
  intros ([Hok _ Hs _ Hv _] & _)%NewMsgPayForBlobs_describes Hn.
  assert (pfb_wire_ok msg) as Hw.
  { split; [rewrite <- Hs|rewrite <- Hv]; apply Forall_map, Forall_forall; intros b _; cbn;
      [unfold blob_size|]; unfold u32, wrap_u32; apply Z.mod_pos_bound; reflexivity. }
  assert (length (pfb_BlobSizes msg) = length blobs) as Hl by by rewrite <- Hs, length_map.
  split; [done|]. split; [done|]. rewrite <- Hl. apply DefaultEstimateGas_exact; [done| |by rewrite Hl].
  by rewrite (ok_sizes _ Hok), (ok_versions _ Hok).
Qed.

Context `{PC : !ParamsCodec} `{EV : TypedEvents Blob.Event} `{GL : !GasMeterLaws}.
Hypothesis events_encode : ∀ e : Blob.Event, TypedEventError e = None.

Lemma GasToConsume_range msg price g : GasToConsume msg price = Ok g → 0 <= g < two64.
Proof. unfold GasToConsume. intros H. inv_ok. subst g. apply Z.mod_pos_bound. reflexivity. Qed.

(** The gas check of the ante handler is exact: a payment passes it on some
    gas meter exactly when the handler [PayForBlobs] succeeds on that meter
    instead of running out of gas. *)
Theorem gas_check_exact w gas msg :
  validatePFBHasEnoughGas [MPayForBlobs msg] GasPerBlobByte (GasRemaining gas) = Ok tt ↔
  ∃ w' gas', PayForBlobs w gas msg = Ok (w', gas').
Proof.
  unfold validatePFBHasEnoughGas. rewrite each_Ok, Forall_singleton. cbn [msgHasEnoughGas].
  unfold validateEnoughGas, PayForBlobs, Gas.
  destruct (GasToConsume msg GasPerBlobByte) as [g| |] eqn:Hg; cbn; [|by split; [|intros (?&?&?)]..].
  apply GasToConsume_range in Hg. rewrite ensure_Ok, Z.leb_le. split.
  - intros Hle. destruct (ConsumeGas_total gas g) as (gas' & -> & _); [lia|]. cbn.
    unfold EmitTypedEvent. rewrite events_encode. cbn. eauto.
  - intros (w' & gas' & H). destruct (Z.le_gt_cases g (GasRemaining gas)) as [|Hgt]; [done|].
    destruct (ConsumeGas_out gas g) as [p Hp]; [lia|]. by rewrite Hp in H.
Qed.
End Gas.

(** ** Parameters *)

Section Params.
Context `{SP : SharePackage} `{CR : Crypto} `{AC : AddressCodec} `{PC : ParamsCodec} `{GM : GasMeterOps}.
Context `{EV : TypedEvents Blob.Event} `{SL : !ShareLaws} `{PCL : !ParamsCodecLaws}.

(** After a genesis that is imported, whatever messages and migrations
    x/blob executes, the square size of a block is a power of two of at most
    512 taken from the parameters without capping, and the number of bytes of
    a maximal square does not wrap. *)
Theorem square_size_always_valid authority w0 genesis w w' chainID : params_wire genesis →
  InitGenesis w0 genesis = Ok w → rtc (step authority) w w' →
  ∃ p k, GetParams w' = Ok p ∧ 0 < p_GasPerBlobByte p ∧ 0 <= k <= 9 ∧ p_GovMaxSquareSize p = 2 ^ k ∧
    MaxEffectiveSquareSize chainID w' = Ok (2 ^ k) ∧ getGovMaxSquareBytes w' = Ok (2 ^ k * 2 ^ k * ShareSize).
Proof.
  unfold InitGenesis. intros Hw Hg Hs. inv_ok. subst w. destruct r.
  apply reachable_params_inv in Hs as Hi; [|by apply params_inv_set].
  destruct (square_size_of_inv chainID w' Hi) as (k & Hk & Hmax & Hb).
  destruct Hi as (p & Hp & [Hpos _] & k' & Hk' & Hpk). exists p, k'.
  assert (k = k') as ->.
  { unfold MaxEffectiveSquareSize in Hmax. rewrite Hp in Hmax. cbn [mbind result_bind] in Hmax.
    apply Ok_inj in Hmax. rewrite Hpk in Hmax.
    assert (1 <= 2 ^ k' <= 512).
    { split; [apply (Z.pow_le_mono_r 2 0); lia|]. change 512 with (2 ^ 9). apply Z.pow_le_mono_r; lia. }
    unfold GetSquareSizeUpperBound, SquareSizeUpperBound in Hmax. rewrite wrap_i64_id, Z.min_l in Hmax by fits.
    apply (Z.pow_inj_r 2); lia. }
  split_and!; try done; lia.
Qed.
End Params.

(** ** Data availability headers *)

Section Headers.
Context `{EC : ErasureCoding} `{OS : DA.OldSquares}.

(** Two different lists of roots with one Merkle root. *)
Definition merkle_collision : Prop :=
  ∃ a b : list bytes, a ≠ b ∧ HashFromByteSlices a = HashFromByteSlices b.

(** The hash of a data availability header received from a peer commits to
    all of its roots: two headers that decode and compare as equal have the
    same row roots and column roots, or their roots are a collision of the
    Merkle tree. *)
Theorem header_hash_commits rows cols d rows' cols' d' :
  DA.DataAvailabilityHeaderFromProto (Some (rows, cols)) = Ok d →
  DA.DataAvailabilityHeaderFromProto (Some (rows', cols')) = Ok d' →
  DA.Equals (Some d) (Some d') = true →
  (rows = rows' ∧ cols = cols') ∨ merkle_collision.
Proof.
  intros (_ & _ & Hl & _ & Hh)%DA.DAH_FromProto_Ok (_ & _ & Hl' & _ & Hh')%DA.DAH_FromProto_Ok He%bool_decide_eq_true.
  rewrite Hh, Hh' in He. destruct (decide (rows ++ cols = rows' ++ cols')) as [Heq|Hne]; [left|right; by eexists _, _].
  apply app_inj_1; [|done]. apply (f_equal length) in Heq. rewrite !length_app in Heq. lia.
Qed.
End Headers.

(** ** Concrete runs *)

Module BlobExample.
Import SdkModel SquareModel ChainModel.

(** X/minfee accepts a parameter update that its genesis validation
    rejects: after governance sets a network minimum gas price of zero the
    exported genesis is invalid. *)
Theorem minfee_update_breaks_exported_genesis :
  ∃ (w w' : Minfee.World) gs,
    Minfee.GetParams w = Ok Minfee.DefaultParams ∧
    Minfee.UpdateMinfeeParams [9] w (Minfee.mkMsgUpdateMinfeeParams [9] (Minfee.mkParams 0)) = Ok w' ∧
    Minfee.ExportGenesis w' = Ok gs ∧
    Minfee.ValidateGenesis gs = Err "network min gas price cannot be negative or zero".
Proof.
  exists (ms_minfee (store0 true)). eexists _, _. split_and!; reflexivity.
Qed.


Definition blobs : list Blob := [blob0; blob1].

Lemma pfb_created : NewMsgPayForBlobs account blobs = Ok pfb.
Proof. vm_compute. reflexivity. Qed.

Lemma blob_tx_valid_iff_witness : ∃ tx msg,
  TxDecoder [2] = Ok tx ∧ tx_Msgs tx = [MPayForBlobs msg] ∧ describes msg blobs ∧
  CreateCommitments blobs SubtreeRootThreshold = Ok (pfb_ShareCommitments msg).
Proof. apply (blob_tx_valid_iff 4 (mkBlobTx [2] blobs)). vm_compute. reflexivity. Defined.

Lemma created_payment_validates_witness :
  ValidateBlobTx 4 (Some (mkBlobTx [2] blobs)) SubtreeRootThreshold = Ok tt.
Proof.
  apply (created_payment_validates 4 account blobs pfb [2] (mk [MPayForBlobs pfb] (Some account_key) 1)).
  - apply pfb_created.
  - reflexivity.
  - reflexivity.
Defined.

Lemma namespaces_total ns : no_panic (NewNamespaceFromBytes ns).
Proof. apply no_panic_ensure. Qed.

Lemma blob_tx_validation_never_panics_witness :
  no_panic (ValidateBlobTx 4 (Some (mkBlobTx [2] (take 1 blobs))) SubtreeRootThreshold).
Proof. apply (blob_tx_validation_never_panics namespaces_total). reflexivity. Defined.

Lemma created_payment_well_formed_witness : pfb_ok pfb ∧ pfb_wire_ok pfb ∧ DefaultEstimateGas pfb = Ok 84592.
Proof. apply (created_payment_well_formed account blobs pfb pfb_created). reflexivity. Defined.

Definition meter : GasMeter := 8192.
Definition empty_world : Blob.World := Blob.mkWorld None None [].
Definition params_world : Blob.World := Blob.mkWorld (Some [8; 256]) None [].
Definition updated_world : Blob.World :=
  Blob.mkWorld (Some [8; 128]) None [EventUpdateBlobParams [9] (mkParams 8 128)].

Lemma events_encode (e : Blob.Event) : TypedEventError e = None.
Proof. reflexivity. Qed.

Lemma gas_check_exact_witness : ∃ w' gas',
  PayForBlobs empty_world meter pfb = Ok (w', gas').
Proof.
  apply (gas_check_exact events_encode empty_world meter pfb). vm_compute. reflexivity.
Defined.

Lemma square_size_always_valid_witness : ∃ p k,
  GetParams updated_world = Ok p ∧ 0 < p_GasPerBlobByte p ∧ 0 <= k <= 9 ∧
  p_GovMaxSquareSize p = 2 ^ k ∧
  MaxEffectiveSquareSize "celestia" updated_world = Ok (2 ^ k) ∧
  getGovMaxSquareBytes updated_world = Ok (2 ^ k * 2 ^ k * ShareSize).
Proof.
  apply (square_size_always_valid [9] empty_world DefaultParams params_world).
  - by vm_compute.
  - vm_compute. reflexivity.
  - apply rtc_once. eapply (step_update _ _ (mkMsgUpdateBlobParams [9] (mkParams 8 128))).
    + by vm_compute.
    + vm_compute. reflexivity.
Defined.

Lemma header_hash_commits_witness :
  ([[1]; [2]] = [[1]; [2]] ∧ [[3]; [4]] = [[3]; [4]]) ∨ merkle_collision.
Proof.
  eapply (header_hash_commits [[1]; [2]] [[3]; [4]]).
  - vm_compute. reflexivity.
  - vm_compute. reflexivity.
  - vm_compute. reflexivity.
Defined.
End BlobExample.
