(* ===== verification/AnteProperties.v ===== *)
(** * Properties of the ante handler

    What a transaction accepted by [NewAnteHandler] satisfies, and the
    transparency of the cache of verified signatures. *)

From S2P Require Import Prelude Sdk SdkModel LegacyDec GoSquare FibreParams FibrePromise PayForBlob Messages Minfee.
From S2P Require Import Ante AnteProofs Proposal SquareModel ChainModel.
Import Blob.
#[local] Open Scope Z_scope.

Section Accepted.
Context `{GM : GasMeterOps} {store : Type} `{SD : !SdkDecorators store} `{MF : MsgFormat}.
Context `{SP : SharePackage} `{PC : !ParamsCodec} `{MPC : !Minfee.ParamsCodec} `{CR : Crypto}.
Context `{DO : DecOps} `{FO : Minfee.FeeOps} `{CD : ConsensusDefaults}.
Context (blob_of : store → Blob.World) (minfee_of : store → Minfee.World).
Context (verify : store → Ctx → MsgPayForFibre → result unit).
Context (StdSignatureSize : PubKey → Z) (TxSigLimit : store → Z) (simKey : PubKey).
Context {History : Type} (history_of : store → History).
Hypothesis verify_reads : ∀ s s' c c' msg, history_of s = history_of s' → verify s c msg = verify s' c' msg.
Context `{SDL : !SdkDecoratorLaws (full_view blob_of minfee_of history_of)}.

Let newAnteHandler := NewAnteHandler blob_of minfee_of verify StdSignatureSize TxSigLimit simKey GovParamFilters.

Lemma accepts st ctx tx simulate st' ctx' : newAnteHandler st ctx tx simulate = (st', Continue ctx') →
  accepted blob_of minfee_of verify GovParamFilters st ctx tx simulate.
Proof. by apply (NewAnteHandler_accepts _ _ _ _ _ _ _ history_of verify_reads). Qed.

(** C25: in a transaction that the ante handler accepts no message that is
    wrapped in an authz execution or a governance proposal pays for blobs or
    for fibre, and no container is wrapped in another, at any depth. *)
Theorem accepted_tx_nests_no_payment st ctx tx simulate st' ctx' top m :
  newAnteHandler st ctx tx simulate = (st', Continue ctx') →
  top ∈ tx_Msgs tx → inside m top → wrappable m.
Proof. intros [Hn _ _ _ _ _]%accepts. by apply checkNested_sound. Qed.

(** The parameters that governance may not change. *)
Definition respects_hardcoded (m : Msg) : Prop :=
  match m with
  | MBankUpdateParams sendEnabled defaultSendEnabled => sendEnabled = [] ∧ defaultSendEnabled = true
  | MStakingUpdateParams bondDenom unbondingTime => bondDenom = "utia" ∧ unbondingTime = 337 * Hour
  | MConsensusUpdateParams update =>
      cu_Evidence update = Some (mkEvidenceParams 404400 (337 * Hour) DefaultEvidenceMaxBytes) ∧
      cu_Validator update = Some DefaultValidatorParams
  | _ => True
  end.

Context `{CDL : !ConsensusLaws}.

Lemma filters_sound m f : GovParamFilters (MsgTypeURL m) = Some f → f m = Ok tt → respects_hardcoded m.
Proof.
  destruct m as [| | | |se d|bd ut|u|url v]; try done; intros [= <-] H; cbn in H |- *.
  - apply ensure_Ok, negb_true_iff, orb_false_iff in H as [H1 H2]. split; [by destruct se|by destruct d].
  - inv_ok. by apply String.eqb_eq in Hr; apply Z.eqb_eq in H.
  - inv_ok. destruct r as [ev val]. inv_ok. apply bool_decide_eq_true in H. apply bool_decide_eq_true in Hr0.
    apply ToProtoConsensusParams_Ok in Hr as [-> ->]. by subst.
Qed.

(** Whatever a proposal or an authz execution in an accepted transaction
    wraps, at any depth, it leaves the hard-coded parameters alone: transfers
    stay enabled, the bond denomination, the unbonding time, the evidence and
    the validator parameters keep their values. *)
Theorem accepted_tx_keeps_hardcoded_parameters st ctx tx simulate st' ctx' top m :
  newAnteHandler st ctx tx simulate = (st', Continue ctx') →
  top ∈ tx_Msgs tx → inside m top → respects_hardcoded m.
Proof.
  intros [Hn Hp _ _ _ _]%accepts Ht Hin. pose proof (checkNested_sound _ _ _ Hn Ht Hin) as Hw.
  destruct (GovParamFilters (MsgTypeURL m)) as [f|] eqn:Hf.
  - eapply filters_sound; [exact Hf|]. by eapply checkParams_sound.
  - destruct m; done.
Qed.

Context `{DL : !DecLaws}.

(** C26: an accepted transaction pays at least the network's minimum gas price
    for the gas it may use, and one that enters the mempool also the node's
    minimum: the configured price, or 0.004utia per unit of gas when no minimum
    is configured, as by default. The comparison is exact, without rounding in
    its favour. *)
Theorem accepted_tx_pays_minimum_fee st ctx tx st' ctx' fees gas params :
  newAnteHandler st ctx tx false = (st', Continue ctx') →
  tx_FeeTx tx = Some (fees, gas) → 0 <= gas →
  Minfee.GetParams (minfee_of (a_store st)) = Ok params → 0 <= Minfee.p_NetworkMinGasPrice params →
  let fee := Minfee.coins_AmountOf fees "utia" in
  Minfee.p_NetworkMinGasPrice params * gas <= fee * precision ∧
  (c_IsCheckTx ctx = true → c_MinGasPrices ctx = [] → 4 * gas <= fee * 1000) ∧
  (c_IsCheckTx ctx = true → c_MinGasPrices ctx ≠ [] →
   0 <= Minfee.deccoins_AmountOf (c_MinGasPrices ctx) "utia" →
   Minfee.deccoins_AmountOf (c_MinGasPrices ctx) "utia" * gas <= fee * precision).
Proof.
  intros [_ _ _ _ Hfee _]%accepts Htx Hgas Hp Hpos fee. destruct (Hfee eq_refl) as [r Hr]. clear Hfee.
  unfold ValidateTxFeeWrapper, Minfee.ValidateTxFee in Hr. rewrite Htx, Hp in Hr. cbn [mbind result_bind] in Hr.
  apply bind_Ok in Hr as ([] & Hnode & Hr). apply bind_Ok in Hr as ([] & Hnet & _). split_and!.
  - by eapply Minfee.verifyMinFee_Ok.
  - intros Hc Hl. rewrite Hc, Hl in Hnode. cbn [length Nat.ltb Nat.leb] in Hnode.
    change (dec_NewDecWithPrec Minfee.DefaultMinGasPrice_micro 6) with 4000000000000000 in Hnode.
    cbn [Z.eqb] in Hnode. apply Minfee.verifyMinFee_Ok in Hnode; [|done..].
    change precision with 1000000000000000000 in Hnode. change (Minfee.coins_AmountOf fees Minfee.BondDenom) with fee in Hnode. lia.
  - intros Hc Hne Hpr. rewrite Hc in Hnode. destruct (c_MinGasPrices ctx) as [|p l] eqn:Hl; [done|]. cbn [length Nat.ltb Nat.leb] in Hnode.
    unfold fee. change "utia" with Minfee.BondDenom in *. destruct (Z.eqb_spec (Minfee.deccoins_AmountOf (p :: l) Minfee.BondDenom) 0) as [E|E].
    + rewrite E. apply Minfee.verifyMinFee_Ok in Hnet; [|done..]. nia.
    + by eapply Minfee.verifyMinFee_Ok.
Qed.
End Accepted.

(** ** The cache of verified signatures *)

Section Cache.
Context `{GM : GasMeterOps} {store : Type} `{CR : Crypto}.
Context (verify : store → Ctx → MsgPayForFibre → result unit) (decode : bytes → result Tx).

(** The cache of verified pay-for-fibre transactions is transparent: as
    long as it only holds transactions whose signatures verify, the decorator
    has the outcome and leaves the store of one that verifies every
    transaction, unless a different transaction it has seen has the SHA-256
    digest of this one. *)
Theorem signature_cache_transparent seen (next : AnteHandler store) st ctx tx simulate :
  (∀ st1 st2 ctx tx simulate, a_store st1 = a_store st2 →
     visible (next st1 ctx tx simulate) = visible (next st2 ctx tx simulate)) →
  cache_sound verify decode seen (a_store st) (a_pffSigCache st) → decode (c_TxBytes ctx) = Ok tx →
  visible (FibreSignatureVerificationDecorator verify next st ctx tx simulate)
    = visible (without_cache verify next st ctx tx simulate) ∨ seen_collision seen (c_TxBytes ctx).
Proof. apply SigVerification_transparent. Qed.
End Cache.

(** ** Concrete runs *)

Module AnteExample.
Import SdkModel DecModel SquareModel ChainModel.

(** A proposal that updates the staking parameters with the values they have
    and sends coins. *)
Definition update_staking : Msg := MStakingUpdateParams "utia" (337 * Hour).
Definition proposal : Msg := MSubmitProposal account [Some update_staking; Some send].
Definition proposal_tx : Tx := mk [proposal] (Some account_key) 0.

Definition outcome := handler state0 ctx0 proposal_tx false.
Definition final_ctx : Ctx := match outcome.2 with Continue c => c | _ => ctx0 end.

Lemma accepted_run : handler state0 ctx0 proposal_tx false = (outcome.1, Continue final_ctx).
Proof.
  unfold final_ctx. fold outcome. assert (match outcome.2 with Continue _ => true | _ => false end = true) as H
    by vm_cast_no_check (eq_refl true).
  destruct outcome as [st [c| |]]; done.
Qed.

Lemma inside_proposal m : m = update_staking ∨ m = send → inside m proposal.
Proof. intros [->| ->]; apply inside_here; cbn; set_solver. Qed.

Lemma accepted_tx_nests_no_payment_witness : wrappable send.
Proof.
  refine (accepted_tx_nests_no_payment _ _ _ _ _ _ _ verify_reads _ _ _ _ _ _ proposal send accepted_run _ _).
  - left.
  - apply inside_proposal. by right.
Defined.

Lemma accepted_tx_keeps_hardcoded_parameters_witness : "utia" = "utia" ∧ 337 * Hour = 337 * Hour.
Proof.
  refine (accepted_tx_keeps_hardcoded_parameters _ _ _ _ _ _ _ verify_reads _ _ _ _ _ _ proposal update_staking
            accepted_run _ _).
  - left.
  - apply inside_proposal. by left.
Defined.

(** The same transaction entering the mempool of a node without a configured
    minimum. *)
Definition check_ctx : Ctx := mkCtx (c_block ctx0) true false [] [] 0.
Definition check_outcome := handler state0 check_ctx proposal_tx false.
Definition checked_ctx : Ctx := match check_outcome.2 with Continue c => c | _ => check_ctx end.

Lemma checked_run : handler state0 check_ctx proposal_tx false = (check_outcome.1, Continue checked_ctx).
Proof.
  unfold checked_ctx. fold check_outcome. assert (match check_outcome.2 with Continue _ => true | _ => false end = true) as H
    by vm_cast_no_check (eq_refl true).
  destruct check_outcome as [st [c| |]]; done.
Qed.

Lemma accepted_tx_pays_minimum_fee_witness :
  Minfee.DefaultNetworkMinGasPrice * 500000 <= 100000 * precision ∧ 4 * 500000 <= 100000 * 1000.
Proof.
  destruct (accepted_tx_pays_minimum_fee _ _ _ _ _ _ _ verify_reads state0 check_ctx proposal_tx _ _
    [mkCoin "utia" 100000] 500000 Minfee.DefaultParams checked_run) as (Hnet & Hdef & _).
  - reflexivity.
  - lia.
  - reflexivity.
  - by vm_compute.
  - split; [exact Hnet|exact (Hdef eq_refl eq_refl)].
Defined.

(** A cache that holds the promise of the example. *)
Definition cached : AState MStore := mkAState (store0 true) {[ pffSigCacheKey [3] ]}.

Lemma cached_sound : cache_sound verify TxDecoder [[3]] (a_store cached) (a_pffSigCache cached).
Proof.
  intros key Hk. cbn in Hk. apply elem_of_singleton in Hk as ->. exists [3]. split; [left|]. split; [done|]. intros ctx tx msg [= <-] [= <-].
  apply (FibreExample.FibreExample.from_ok_run tt). vm_cast_no_check (eq_refl true).
Qed.

Lemma signature_cache_transparent_witness :
  visible (FibreSignatureVerificationDecorator verify (λ st ctx _ _, (st, Continue ctx)) cached
             (WithTxBytes ctx0 [3]) (mk [MPayForFibre pff] (Some account_key) 2) false)
    = visible (without_cache verify (λ st ctx _ _, (st, Continue ctx)) cached
             (WithTxBytes ctx0 [3]) (mk [MPayForFibre pff] (Some account_key) 2) false).
Proof.
  destruct (signature_cache_transparent verify TxDecoder [[3]] (λ st ctx _ _, (st, Continue ctx)) cached
    (WithTxBytes ctx0 [3]) (mk [MPayForFibre pff] (Some account_key) 2) false) as [H|(raw & ->%list_elem_of_singleton & Hne & _)].
  - intros st1 st2 ctx tx sim Hs. unfold visible. cbn. by rewrite Hs.
  - apply cached_sound.
  - reflexivity.
  - exact H.
  - by destruct Hne.
Defined.
End AnteExample.
