(* ===== verification/BlockSettlement.v ===== *)
(** * Settlement of promises within a block

    A block that [ProcessProposalHandler] accepts settles its pay-for-fibre
    transactions one after the other through x/fibre, each on the store the
    previous one left. *)

From S2P Require Import Prelude Sdk GoSquare FibreParams FibreKeys FibrePromise FibreKeeper FibreLedger FibreMsgServer FibreInvariant FibreTrace.
From S2P Require Import PayForBlob Messages DataAvailability Ante Proposal BlockValidity.
#[local] Open Scope Z_scope.

Section Settlement.
Context `{TF : TimeFormat} `{TFL : !TimeFormatLaws} `{CO : CoinOps} `{CL : !CoinLaws} `{AC : AddressCodec}.
Context `{BK : BankKeeper} `{BL : !BankLaws} `{CR : Crypto} `{CRL : !CryptoLaws} `{EV : TypedEvents FibreMsgServer.Event}.
Context `{SP : SharePackage} `{TP : !TxPackage} `{TC : TxCodec} `{SQ : !SquarePackage} `{EC : ErasureCoding}.
Context `{GM : GasMeterOps} `{PC : !Blob.ParamsCodec} (signer_len : nat).
Context {store : Type} (fibre_of : store → FibreMsgServer.World) (workers : Z).
Context (handler : AnteHandler store) (router : MessageRouter (store := store)) (txCache : gmap bytes bytes).

(** The ante handler keeps x/fibre's store and the block; the router executes
    the message with x/fibre; sizes on the wire are 32-bit. *)
Hypothesis ante_keeps : ∀ st c tx st' c', handler st c tx false = (st', Continue c') →
  w_store (fibre_of (a_store st')) = w_store (fibre_of (a_store st)) ∧ c_block c' = c_block c.
Hypothesis router_pays : ∀ m, ∃ h, router (MPayForFibre m) = Some h ∧ ∀ s c s' c',
  h s c (MPayForFibre m) = Ok (s', c') → PayForFibre (c_block c) (fibre_of s) m = Ok (fibre_of s').
Hypothesis sizes_u32 : ∀ raw tx m, TxDecoder raw = Ok tx → payForFibreMsg tx = Some m →
  u32 (pb_BlobSize (pff_PaymentPromise m)).

(** The hash of the promise a transaction settles. *)
Definition promise_of (raw : bytes) : option bytes :=
  match UnmarshalBlobTx raw, TxDecoder raw with
  | None, Ok tx =>
      match payForFibreMsg tx with
      | Some m => match promiseHash (pff_PaymentPromise m) with Ok h => Some h | _ => None end
      | None => None
      end
  | _, _ => None
  end.

Definition processed (s : store) (h : bytes) : Prop := is_Some (GetProcessedPayment (w_store (fibre_of s)) h).

(** The state at the start of a transaction. *)
Definition consistent (s : store) (c : Ctx) : Prop :=
  store_inv signer_len (w_store (fibre_of s)) ∧ time_ok (ctx_BlockTime (c_block c)).

Lemma GetProcessedPayment_set st p h :
  is_Some (GetProcessedPayment (SetProcessedPayment st p) h) ↔
  h = pay_PaymentPromiseHash p ∨ is_Some (GetProcessedPayment st h).
Proof.
  unfold GetProcessedPayment, SetProcessedPayment. cbn. unfold pay_primary_key.
  destruct (decide (h = pay_PaymentPromiseHash p)) as [->|Hne].
  - rewrite lookup_insert_eq. split; [by left|done].
  - rewrite lookup_insert_ne by (by intros [=]). tauto.
Qed.

(** Settling records the promise, which was not recorded before. *)
Lemma PayForFibre_records c w m w' : store_inv signer_len (w_store w) → time_ok (ctx_BlockTime c) →
  u32 (pb_BlobSize (pff_PaymentPromise m)) → PayForFibre c w m = Ok w' →
  ∃ h, promiseHash (pff_PaymentPromise m) = Ok h ∧ store_inv signer_len (w_store w') ∧
    GetProcessedPayment (w_store w) h = None ∧
    ∀ h', is_Some (GetProcessedPayment (w_store w') h') ↔ h' = h ∨ is_Some (GetProcessedPayment (w_store w) h').
Proof.
  intros Hi Ht Hsz Hp. destruct (PayForFibre_settled signer_len _ _ _ _ Hi Hsz Hp) as (h & f & s & a & Hset & _).
  pose proof (settled_new _ _ _ _ _ _ _ _ _ _ Hset) as Hnew.
  destruct Hset as [_ Hh (st' & Hi' & Hpd & Hst) _]. exists h. rewrite Hst.
  assert (∀ x, GetProcessedPayment st' x = GetProcessedPayment (w_store w) x) as Hsame.
  { intros x. unfold GetProcessedPayment. by rewrite (proj1 (proj2 (pd_promises _ _ _ _ _ _ Hpd))). }
  split; [done|]. split; [|split; [done|]].
  - apply store_inv_record; [done|done|]. by rewrite Hsame.
  - intros h'. by rewrite GetProcessedPayment_set, Hsame.
Qed.

(** A valid transaction records exactly the promise it carries. *)
Lemma processed_tx_records st c raw st' c' :
  processed_tx workers handler (Some router) txCache st c raw st' c' → consistent (a_store st) c →
  consistent (a_store st') c' ∧
  (∀ h, promise_of raw = Some h → ¬ processed (a_store st) h) ∧
  ∀ h, processed (a_store st') h ↔ promise_of raw = Some h ∨ processed (a_store st) h.
Proof.
  intros V [Hi Ht].
  assert (∀ st1 c1 tx st2 c2 b, handler st1 (WithTxBytes c1 b) tx false = (st2, Continue c2) →
    store_inv signer_len (w_store (fibre_of (a_store st1))) → time_ok (ctx_BlockTime (c_block c1)) →
    consistent (a_store st2) c2 ∧ ∀ h, processed (a_store st2) h ↔ processed (a_store st1) h) as Hante.
  { intros st1 c1 tx st2 c2 b [Hw Hb]%ante_keeps Hi1 Ht1. unfold consistent, processed. by rewrite Hw, Hb. }
  destruct V as [st c raw tx st' c' Hl Hu Hd Hp Hs Hf Hh
                |st c raw tx pff st' c' st'' Hl Hu Hd Hm Hs Hh Hx
                |st c raw bTx tx st' c' Hl Hu Hc Hd Hv Hh].
  - destruct (Hante _ _ _ _ _ _ Hh Hi Ht) as [Hc Hk]. split; [done|]. unfold promise_of. rewrite Hu, Hd, Hf.
    split; [done|]. intros h. rewrite Hk. naive_solver.
  - destruct (Hante _ _ _ _ _ _ Hh Hi Ht) as [[Hi' Ht'] Hk].
    assert (payForFibreMsg tx = Some pff) as Hf by by apply payForFibreMsg_Some.
    unfold executeTxMsgs in Hx. rewrite Hm in Hx. cbn [run_msgs] in Hx.
    destruct (router_pays pff) as (hd & Hr & Hpay). rewrite Hr in Hx. cbn in Hx.
    destruct (hd (a_store st') c' (MPayForFibre pff)) as [[s2 c2]| |] eqn:Hrun; cbn in Hx; try discriminate Hx.
    injection Hx as <-. cbn. apply Hpay in Hrun.
    destruct (PayForFibre_records _ _ _ _ Hi' Ht' (sizes_u32 _ _ _ Hd Hf) Hrun) as (h & Hh' & Hi2 & Hnew & Hrec).
    split; [done|]. unfold promise_of. rewrite Hu, Hd, Hf, Hh'. split.
    + intros h' [= <-]. rewrite <- Hk. unfold processed. rewrite Hnew. by intros [? ?].
    + intros h'. unfold processed at 1. rewrite Hrec. fold (processed (a_store st') h'). rewrite Hk. naive_solver.
  - destruct (Hante _ _ _ _ _ _ Hh Hi Ht) as [Hc' Hk]. split; [done|]. unfold promise_of. rewrite Hu.
    split; [done|]. intros h. rewrite Hk. naive_solver.
Qed.

(** *** The promises settled before the block *)

(** The promise a transaction settles. *)
Definition settled_promise (raw : bytes) : option PromiseProto :=
  match UnmarshalBlobTx raw, TxDecoder raw with
  | None, Ok tx => pff_PaymentPromise <$> payForFibreMsg tx
  | _, _ => None
  end.

(** A store that remembers every promise of a list without repetitions. *)
Definition replay_safe (st : Store) (log : list PromiseProto) : Prop :=
  store_inv signer_len st ∧ NoDup log ∧ Forall (remembered st) log.

Lemma PayForFibre_replay_safe c w m w' log : replay_safe (w_store w) log → time_ok (ctx_BlockTime c) →
  u32 (pb_BlobSize (pff_PaymentPromise m)) → PayForFibre c w m = Ok w' →
  replay_safe (w_store w') (pff_PaymentPromise m :: log).
Proof.
  intros (Hi & Hn & Hr) Ht Hsz Hp.
  destruct (PayForFibre_records _ _ _ _ Hi Ht Hsz Hp) as (_ & _ & Hi' & _).
  destruct (PayForFibre_settled signer_len _ _ _ _ Hi Hsz Hp) as (h & f & s & a & Hset & _).
  destruct (settled_remembers _ _ _ _ _ _ _ _ _ _ Hset) as [Hp' Hold]. split_and!; [done| |].
  - apply NoDup_cons. split; [|done]. intros Hin. rewrite Forall_forall in Hr. apply Hr in Hin.
    by apply (valid_not_remembered _ _ _ _ _ _ _ (se_valid _ _ _ _ _ _ _ _ _ _ Hset)) in Hin.
  - constructor; [done|]. by eapply Forall_impl.
Qed.

Lemma processed_tx_replay_safe st c raw st' c' log :
  processed_tx workers handler (Some router) txCache st c raw st' c' →
  time_ok (ctx_BlockTime (c_block c)) → replay_safe (w_store (fibre_of (a_store st))) log →
  time_ok (ctx_BlockTime (c_block c')) ∧
  replay_safe (w_store (fibre_of (a_store st'))) (option_list (settled_promise raw) ++ log).
Proof.
  intros V Ht Hs. destruct V as [st c raw tx st' c' Hl Hu Hd Hp Hsh Hf Hh
                |st c raw tx pff st' c' st'' Hl Hu Hd Hm Hsh Hh Hx
                |st c raw bTx tx st' c' Hl Hu Hc Hd Hv Hh];
    apply ante_keeps in Hh as [Hw Hb]; rewrite Hb; split; try done; unfold settled_promise; rewrite Hu.
  - by rewrite Hd, Hf, Hw.
  - assert (payForFibreMsg tx = Some pff) as Hf by by apply payForFibreMsg_Some.
    unfold executeTxMsgs in Hx. rewrite Hm in Hx. cbn [run_msgs] in Hx.
    destruct (router_pays pff) as (hd & Hr & Hpay). rewrite Hr in Hx. cbn in Hx.
    destruct (hd (a_store st') c' (MPayForFibre pff)) as [[s2 c2]| |] eqn:Hrun; cbn in Hx; try discriminate Hx.
    injection Hx as <-. cbn [a_store]. apply Hpay in Hrun. rewrite Hd, Hf. cbn.
    eapply PayForFibre_replay_safe in Hrun; [exact Hrun|by rewrite Hw|by rewrite Hb|by eapply sizes_u32].
  - by rewrite Hw.
Qed.

Lemma processed_txs_replay_safe st c txs st' c' log :
  processed_txs workers handler (Some router) txCache st c txs st' c' →
  time_ok (ctx_BlockTime (c_block c)) → replay_safe (w_store (fibre_of (a_store st))) log →
  replay_safe (w_store (fibre_of (a_store st'))) (reverse (omap settled_promise txs) ++ log).
Proof.
  intros V. revert log. induction V as [st c|st c raw st1 c1 txs st2 c2 V Vs IH]; intros log Ht Hs; [done|].
  destruct (processed_tx_replay_safe _ _ _ _ _ _ V Ht Hs) as [Ht1 Hs1]. specialize (IH _ Ht1 Hs1).
  assert (omap settled_promise (raw :: txs) = option_list (settled_promise raw) ++ omap settled_promise txs) as ->
    by (cbn; by destruct (settled_promise raw)).
  rewrite reverse_app, <- app_assoc. by destruct (settled_promise raw).
Qed.

(** Over a sequence of transactions. *)
Lemma processed_txs_record st c txs st' c' :
  processed_txs workers handler (Some router) txCache st c txs st' c' → consistent (a_store st) c →
  NoDup (omap promise_of txs) ∧ (∀ h, h ∈ omap promise_of txs → ¬ processed (a_store st) h) ∧
  ∀ h, processed (a_store st') h ↔ h ∈ omap promise_of txs ∨ processed (a_store st) h.
Proof.
  induction 1 as [st c|st c raw st1 c1 txs st2 c2 V Vs IH]; intros Hc.
  { cbn. split; [constructor|]. split; [by intros h Hh%elem_of_nil|]. intros h. rewrite elem_of_nil. naive_solver. }
  destruct (processed_tx_records _ _ _ _ _ V Hc) as (Hc1 & Hnew & Hrec).
  destruct (IH Hc1) as (Hnd & Hnews & Hrecs). cbn. destruct (promise_of raw) as [h0|] eqn:Hp.
  - assert (processed (a_store st1) h0) as H0 by (apply Hrec; by left).
    split_and!.
    + constructor; [|done]. intros Hin. by apply (Hnews h0 Hin).
    + intros h [->|Hin]%elem_of_cons; [by apply Hnew|]. intros Hpr. apply (Hnews h Hin), Hrec. by right.
    + intros h. rewrite Hrecs, Hrec, elem_of_cons. naive_solver.
  - split_and!; [done| |].
    + intros h Hin Hpr. apply (Hnews h Hin), Hrec. by right.
    + intros h. rewrite Hrecs, Hrec. naive_solver.
Qed.
End Settlement.
