(* ===== verification/ProposalProperties.v ===== *)
(** * Properties of block proposals

    Preparing and processing proposals, admission to the mempool and the caches
    of a node. *)

From S2P Require Import Prelude Sdk SdkModel LegacyDec GoSquare FibreParams FibreKeys FibrePromise FibreKeeper FibreLedger FibreMsgServer FibreInvariant FibreBeginBlock FibreTrace FibreExample ValidatorSet.
From S2P Require Import PayForBlob Messages Minfee DataAvailability Ante AnteProofs Proposal ProposalProofs AnteAgreement BlockValidity CheckTx.
From S2P Require Import BlockSettlement SquareModel ChainModel ProposalProofs.
Import Blob.
#[local] Open Scope Z_scope.

(** ** Processing *)

Section Process.
Context `{SP : SharePackage} `{TP : !TxPackage} `{TC : TxCodec} `{CR : Crypto} `{AC : AddressCodec}.
Context `{SQ : !SquarePackage} `{EC : ErasureCoding} `{GM : GasMeterOps} `{PC : !ParamsCodec}.
Context `{SL : !ShareLaws} `{TL : !TxLaws} `{TCL : !TxCodecLaws} `{CDL : !CodingLaws} `{AE : AbciErrors} `{BA : BaseAppOps}.
Context `{BD : !EqDecision Blob} {store : Type} (blob_of : store → Blob.World) (workers : Z).
Context (handler : AnteHandler store) (msgRouter : option (MessageRouter (store := store))).
Hypothesis blob_Hash_length : ∀ b, length (blob_Hash b) = HashSize.

(** C3: a validator accepts a proposal exactly when it is a valid block: each
    transaction, on the state the previous ones left, is a plain one without
    payments that passes the ante handler, a single well-formed promise that is
    then settled, or a canonically encoded blob transaction whose one message
    pays for exactly its blobs; the messages of each kind stay within their
    limits; and the square built from the classified transactions has the
    proposed size and data root. The validator's cache holds what it checked
    before, none of which collides with a transaction of the block on the
    strings the cache hashes. *)
Theorem proposal_accepted_iff_valid_block hist txCache st ctx req :
  node_cache workers hist txCache →
  (∀ raw bTx, raw ∈ prop_Txs req → UnmarshalBlobTx raw = Some (Ok bTx) → ¬ history_collides hist bTx) →
  ProcessProposalHandler blob_of workers handler msgRouter txCache st ctx req = accept ↔
  valid_block blob_of handler msgRouter st ctx req.
Proof.
  intros Hn Hc. refine (process_valid_block _ _ _ _ _ _ _ _ _). apply Forall_forall. intros raw Hin bTx Hu.
  destruct (cached_validation workers blob_Hash_length hist txCache bTx Hn) as [|H]; [done|].
  by destruct (Hc raw bTx Hin Hu).
Qed.

(** The light parser that sorts transactions for the square agrees with
    the decoder: a plain transaction without a blob payment is treated as a
    pay-for-fibre transaction, with the system blob of its promise, exactly
    when the decoded transaction consists of one such message. *)
Theorem classification_agrees_with_decoder raw tx :
  UnmarshalBlobTx raw = None → TxDecoder raw = Ok tx → hasPFB (tx_Msgs tx) = None →
  ClassifyTx raw =
    match payForFibreMsg tx with
    | Some msg => systemBlob ← SystemBlob msg; NewClassifiedFibreTx (mkFibreTx raw systemBlob)
    | None => Ok (NewClassifiedTx raw)
    end.
Proof. apply classify_decoded. Qed.
End Process.

(** ** Settlement *)

Section Settlement.
Context `{TF : TimeFormat} `{TFL : !TimeFormatLaws} `{CO : CoinOps} `{CL : !CoinLaws} `{AC : AddressCodec}.
Context `{BK : BankKeeper} `{BL : !BankLaws} `{CR : Crypto} `{CRL : !CryptoLaws} `{EV : TypedEvents FibreMsgServer.Event}.
Context `{SP : SharePackage} `{TP : !TxPackage} `{TC : TxCodec} `{SQ : !SquarePackage} `{EC : ErasureCoding}.
Context `{GM : GasMeterOps} `{PC : !Blob.ParamsCodec} `{MPC : !Minfee.ParamsCodec} `{DO : DecOps} `{FO : Minfee.FeeOps}.
Context {store : Type} `{SD : !SdkDecorators store} `{MF : MsgFormat} (signer_len : nat) (authority : bytes).
Context (blob_of : store → Blob.World) (minfee_of : store → Minfee.World) (fibre_of : store → FibreMsgServer.World).
Context (verify : store → Ctx → MsgPayForFibre → result unit).
Context (StdSignatureSize : PubKey → Z) (TxSigLimit : store → Z) (simKey : PubKey).
Context (paramFilters : string → option ParamFilter) (workers : Z).
Context (router : MessageRouter (store := store)) (txCache : gmap bytes bytes).

(** The SDK's decorators leave the store of x/fibre alone; the SDK's router
    hands a payment to the handler of x/fibre; sizes on the wire are 32-bit. *)
Context `{SFL : !SdkFramingLaws blob_of (λ s, w_store (fibre_of s))}.
Hypothesis router_pays : ∀ m, ∃ h, router (MPayForFibre m) = Some h ∧ ∀ s c s' c',
  h s c (MPayForFibre m) = Ok (s', c') → PayForFibre (c_block c) (fibre_of s) m = Ok (fibre_of s').
Hypothesis sizes_u32 : ∀ raw tx m, TxDecoder raw = Ok tx → payForFibreMsg tx = Some m →
  u32 (pb_BlobSize (pff_PaymentPromise m)).

Let newAnteHandler := NewAnteHandler blob_of minfee_of verify StdSignatureSize TxSigLimit simKey paramFilters.

Lemma ante_keeps_fibre st c tx st' c' : newAnteHandler st c tx false = (st', Continue c') →
  w_store (fibre_of (a_store st')) = w_store (fibre_of (a_store st)) ∧ c_block c' = c_block c.
Proof.
  intros H. destruct (NewAnteHandler_frames blob_of minfee_of verify StdSignatureSize TxSigLimit simKey paramFilters
    (λ s, w_store (fibre_of s)) st c tx false) as [Hv He].
  change (NewAnteHandler _ _ _ _ _ _ _ st c tx false) with (newAnteHandler st c tx false) in Hv, He. rewrite H in Hv, He.
  split; [exact (f_equal snd Hv)|]. by destruct He as [-> _].
Qed.

(** C5: in every state that x/fibre reaches, a proposal that a validator
    accepts settles no promise twice and none that was ever settled before,
    across pruning of the records and changes of the parameters: its promises
    and all promises settled since genesis are pairwise different. Their hashes
    differ as well and are not recorded before the block. *)
Theorem accepted_block_settles_promises_once chain st ctx req :
  module_registered → reachable signer_len authority chain →
  w_store (ch_world chain) = w_store (fibre_of (a_store st)) → block_time_ok (ctx_BlockTime (c_block ctx)) →
  ProcessProposalHandler blob_of workers newAnteHandler (Some router) txCache st ctx req = accept →
  NoDup (omap settled_promise (prop_Txs req) ++ ch_settled chain) ∧
  NoDup (omap promise_of (prop_Txs req)) ∧
  ∀ h, h ∈ omap promise_of (prop_Txs req) → GetProcessedPayment (w_store (fibre_of (a_store st))) h = None.
Proof.
  intros Hreg [Hw Hn Hr]%(reachable_chain_inv signer_len authority) Hst Ht Hacc; [|done].
  apply process_iff in Hacc as [(st' & c' & cs & max & sq & eds & dah & V & _) _ _ _].
  assert (store_inv signer_len (w_store (fibre_of (a_store st)))) as Hi by (rewrite <- Hst; apply Hw).
  destruct (block_time_instants _ _ Ht (si_params _ _ Hi)) as [Ht' _].
  destruct (processed_txs_replay_safe signer_len fibre_of workers newAnteHandler router txCache ante_keeps_fibre
    router_pays sizes_u32 _ _ _ _ _ (ch_settled chain) V Ht') as (_ & Hnd & _).
  { split_and!; [done|done|by rewrite <- Hst]. }
  destruct (processed_txs_record signer_len fibre_of workers newAnteHandler router txCache ante_keeps_fibre router_pays
    sizes_u32 _ _ _ _ _ V (conj Hi Ht')) as (Hnd' & Hnew & _).
  split_and!; [by rewrite reverse_Permutation in Hnd|done|].
  intros h Hh%Hnew. unfold processed in Hh. by apply eq_None_not_Some.
Qed.
End Settlement.

(** ** Preparing *)

Section Fill.
Context `{SP : SharePackage} `{TP : !TxPackage} `{TC : TxCodec} `{CR : Crypto} `{AC : AddressCodec}.
Context `{SQ : !SquarePackage} `{GM : GasMeterOps} `{PS : ProtoSize} `{PSL : !ProtoSizeLaws}.
Context {store : Type} (handler : AnteHandler store) (msgRouter : option (MessageRouter (store := store))).

(** The transactions a proposer keeps are among those it was offered,
    none more often than it was offered, and their encoded size stays within
    the limit of the request; the counter of the filter does not wrap. *)
Theorem filled_block_within_max_bytes b st ctx txs max kept b' :
  Fill handler msgRouter b st ctx txs max = Ok (kept, b') → Forall small_tx txs → 0 < max < 2 ^ 62 →
  kept ⊆+ txs ∧ ComputeProtoSizeForTxs kept <= max.
Proof.
  intros Hk%Fill_submseteq Hs Hm. split.
  - etrans; [exact Hk|]. apply sublist_submseteq, filterByMaxBytes_sublist.
  - apply ProtoSize_submseteq in Hk. etrans; [exact Hk|]. unfold filterByMaxBytes.
    rewrite (proj2 (Z.ltb_lt 0 max)) by lia. pose proof (max_bytes_loop_bound txs 0 max Hs). lia.
Qed.
End Fill.

(** ** Admission and caches *)

Section Mempool.
Context `{SP : SharePackage} `{TP : !TxPackage} `{TC : TxCodec} `{CR : Crypto} `{AC : AddressCodec}.
Context `{AE : AbciErrors} `{BA : BaseAppOps} `{AEL : !AbciErrorsLaws} (workers : Z).

Context `{SL : !ShareLaws} `{BD : !EqDecision Blob}.
Hypothesis blob_Hash_length : ∀ b, length (blob_Hash b) = HashSize.

(** C24: validating a blob transaction through the node's cache, which skips
    the commitments of a transaction it has seen, has the outcome of the full
    validation, errors included, whatever the node has checked and pruned
    before; the exception is a transaction that the node checked and that
    collides with this one on the strings the cache hashes. *)
Theorem cached_validation_equivalent hist c bTx : node_cache workers hist c →
  (ValidateBlobTxWithCache workers c bTx).2 = ValidateBlobTx workers (Some bTx) SubtreeRootThreshold ∨
  history_collides hist bTx.
Proof. by apply cached_validation. Qed.
End Mempool.

(** ** Agreement of proposer and validators *)

Section Agreement.
Context `{SP : SharePackage} `{TP : !TxPackage} `{TC : TxCodec} `{CR : Crypto} `{AC : AddressCodec}.
Context `{SQ : !SquarePackage} `{EC : ErasureCoding} `{GM : GasMeterOps} `{PS : ProtoSize} `{PC : !ParamsCodec}.
Context `{SL : !ShareLaws} `{TL : !TxLaws} `{TCL : !TxCodecLaws} `{SQL : !SquareLaws} `{CL : !CodingLaws}.
Context {store : Type} `{SD : !SdkDecorators store} `{MF : MsgFormat} `{MPC : !Minfee.ParamsCodec}.
Context `{DO : DecOps} `{FO : Minfee.FeeOps} `{AE : AbciErrors} `{BA : BaseAppOps} `{AEL : !AbciErrorsLaws}.
Context (blob_of : store → Blob.World) (minfee_of : store → Minfee.World).
Context (verify : store → Ctx → MsgPayForFibre → result unit).
Context (StdSignatureSize : PubKey → Z) (TxSigLimit : store → Z) (simKey : PubKey).
Context (paramFilters : string → option ParamFilter) (workers : Z).
Context {History : Type} (history_of : store → History) (occurs : bytes → Prop).
Hypothesis verify_reads : ∀ s s' c c' msg, history_of s = history_of s' → verify s c msg = verify s' c' msg.
Hypothesis no_collision : ∀ a b, occurs a → occurs b → sha256 a = sha256 b → a = b.
Context `{SAL : !SdkAgreementLaws blob_of verify history_of occurs}.
Context (msgRouter : option (MessageRouter (store := store))).
Hypothesis router_frames : ∀ st c tx st', executeTxMsgs st c tx msgRouter = (st', Ok tt) →
  view blob_of history_of (a_store st') = view blob_of history_of (a_store st).

Let newAnteHandler := NewAnteHandler blob_of minfee_of verify StdSignatureSize TxSigLimit simKey paramFilters.
Let node := node_state blob_of minfee_of verify StdSignatureSize TxSigLimit simKey paramFilters occurs.

Lemma node_ok st : node st → sigcache_ok verify occurs st.
Proof. by apply (node_state_ok _ _ _ _ _ _ _ history_of verify_reads _ no_collision). Qed.

(** C4: a proposal prepared from admitted transactions is accepted by every
    validator with the same store, whatever its cache of validated blob
    transactions holds, when the cache of verified signatures of the proposer
    and of the validator is one that the ante handler filled on that node and
    the historical records of the cached promises are still in the store, and
    when the transactions dropped while filtering left no writes behind that
    mattered: the proposal is the one prepared with every transaction on a
    branch of its own. *)
Theorem prepared_proposal_accepted txCache st st' ctx ctx' txs max prop :
  (∀ raw, raw ∈ txs → occurs (sdk_bytes raw) ∧
     ∃ n, admitted (CheckTx workers n (mkRequestCheckTx raw CheckTxType_New))) →
  a_store st' = a_store st → node st → node st' → base_env ctx ctx' →
  PrepareProposalHandler blob_of newAnteHandler msgRouter st ctx txs max = Ok prop →
  PrepareProposalHandler blob_of (on_branch newAnteHandler) msgRouter st ctx txs max = Ok prop →
  ProcessProposalHandler blob_of workers newAnteHandler msgRouter txCache st' ctx' prop = accept.
Proof.
  intros Htxs Hs H1%node_ok H2%node_ok He _ Hp.
  pose (AG := NewAnteHandler_agreement blob_of minfee_of verify StdSignatureSize TxSigLimit simKey paramFilters
                history_of verify_reads occurs no_collision msgRouter router_frames).
  apply (prepare_process_agree _ _ _ _ (AG := AG) txCache st st' ctx ctx' txs max prop); try done.
  apply Forall_forall. intros raw (Ho & n & Hn)%Htxs. destruct (CheckTx_checked workers n raw Hn). done.
Qed.
End Agreement.

(** ** Concrete runs *)

#[export] Instance Proposal_eq_dec : EqDecision Proposal.
Proof. solve_decision. Defined.

Module ProposalExample.
Import SdkModel DecModel SquareModel ChainModel FibreExample.FibreExample.

(** A transfer, a payment for blobs and a promise, in the order of the mempool. *)
Definition txs : list bytes := [blob_tx; [3]; [1]].
Definition no_proposal : Proposal := mkProposal [] 0 [].
Definition prop : Proposal := from_ok no_proposal (prepared state0 txs).

Lemma prepared_run : prepared state0 txs = Ok prop.
Proof. apply from_ok_run. vm_cast_no_check (eq_refl true). Qed.

Lemma branch_run : PrepareProposalHandler ms_blob (on_branch handler) (Some router) state0 ctx0 txs 100000 = Ok prop.
Proof.
  assert (bool_decide (from_ok no_proposal (PrepareProposalHandler ms_blob (on_branch handler) (Some router) state0
    ctx0 txs 100000) = prop) = true) as <-%bool_decide_eq_true by vm_cast_no_check (eq_refl true).
  apply from_ok_run. vm_cast_no_check (eq_refl true).
Qed.

(** The proposal holds them sorted by kind. *)
Lemma prop_txs : prop_Txs prop = [[1]; blob_tx; [3]].
Proof. refine (proj1 (bool_decide_eq_true _) _). vm_cast_no_check (eq_refl true). Qed.

Definition occurs (b : bytes) : Prop := b ∈ [[1]; [2]; [3]].

Definition node : Node := mkNode ∅ tt.

Lemma admitted_by_check raw : (let r := CheckTx 4 node (mkRequestCheckTx raw CheckTxType_New) in
    (match r.2.2 with None => true | _ => false end) && (res_Code r.2.1 =? CodeTypeOK)) = true →
  admitted (CheckTx 4 node (mkRequestCheckTx raw CheckTxType_New)).
Proof. cbn zeta. intros [H1 H2%Z.eqb_eq]%andb_prop. split; [|done]. by destruct (CheckTx _ _ _).2.2. Qed.

Lemma txs_admitted raw : raw ∈ txs → occurs (sdk_bytes raw) ∧
  ∃ n, admitted (CheckTx 4 n (mkRequestCheckTx raw CheckTxType_New)).
Proof.
  unfold occurs. intros H. split.
  - unfold txs in H. rewrite !elem_of_cons, elem_of_nil in H. destruct H as [->|[->|[->|[]]]].
    + unfold sdk_bytes, blob_tx. cbn [UnmarshalBlobTx tx_package]. rewrite unmarshal_marshal. cbn. set_solver.
    + cbn. set_solver.
    + cbn. set_solver.
  - exists node. apply admitted_by_check.
    unfold txs in H. rewrite !elem_of_cons, elem_of_nil in H. destruct H as [->|[->|[->|[]]]];
      vm_cast_no_check (eq_refl true).
Qed.

(** Another node, whose ante handler has verified the promise in the mempool,
    after the two transactions before it. *)
Definition mempool : AState MStore :=
  mkAState (mkMStore (ms_fibre (store0 true)) (ms_blob (store0 true)) (ms_minfee (store0 true))
              (ms_history (store0 true)) true 2) ∅.
Definition promise_tx : Tx := mk [MPayForFibre pff] (Some account_key) 2.
Definition ran : AState MStore := (handler mempool (WithTxBytes ctx0 [3]) promise_tx false).1.
Definition state1 : AState MStore := mkAState (store0 true) (a_pffSigCache ran).

Lemma ran_cached : pffSigCacheKey [3] ∈ a_pffSigCache ran.
Proof. refine (proj1 (bool_decide_eq_true _) _). vm_cast_no_check (eq_refl true). Qed.

Lemma ran_history : ms_history (a_store ran) = ms_history (store0 true).
Proof.
  pose proof (NewAnteHandler_frames ms_blob ms_minfee verify StdSignatureSize TxSigLimit account_key GovParamFilters
    ms_history (SFL := sdk_framing_laws ms_blob verify ms_history occurs) mempool (WithTxBytes ctx0 [3]) promise_tx false) as [Hv _].
  exact (f_equal snd Hv).
Qed.

Lemma state1_node : node_state ms_blob ms_minfee verify StdSignatureSize TxSigLimit account_key GovParamFilters occurs state1.
Proof.
  apply (node_commit _ _ _ _ _ _ _ _ ran).
  - apply node_ante; [apply node_start|unfold occurs; cbn; set_solver|reflexivity].
  - intros raw ctx tx msg _ _ _ Hv. by rewrite (verify_reads _ (a_store ran) ctx ctx) by (by rewrite ran_history).
Qed.

Lemma prepared_proposal_accepted_witness :
  ProcessProposalHandler ms_blob 4 handler (Some router) ∅ state1 ctx0 prop = accept.
Proof.
  refine (prepared_proposal_accepted ms_blob ms_minfee verify StdSignatureSize TxSigLimit account_key GovParamFilters 4
    ms_history occurs verify_reads _ (Some router) router_frames ∅ state0 state1 ctx0 ctx0 txs 100000 prop
    txs_admitted _ _ _ _ _ _).
  - done.
  - reflexivity.
  - apply node_start.
  - apply state1_node.
  - by repeat split.
  - apply prepared_run.
  - apply branch_run.
Defined.

(** Without branches the transactions dropped while filtering matter: a
    transfer with a wrong sequence stores the public key of its account before
    it is rejected, the next transfer, which carries no key, is then kept, and
    the node that proposed the block rejects it. *)
Theorem filtering_leaks_writes_of_rejected_tx :
  ∃ prop, prepared (mkAState (store0 false) ∅) [[4]; [5]] = Ok prop ∧ prop_Txs prop = [[5]] ∧
    processed (mkAState (store0 false) ∅) prop = reject.
Proof.
  exists (from_ok no_proposal (prepared (mkAState (store0 false) ∅) [[4]; [5]])). split_and!.
  - apply from_ok_run. vm_cast_no_check (eq_refl true).
  - refine (proj1 (bool_decide_eq_true _) _). vm_cast_no_check (eq_refl true).
  - assert (match processed (mkAState (store0 false) ∅)
        (from_ok no_proposal (prepared (mkAState (store0 false) ∅) [[4]; [5]])) with reject => true | _ => false end = true)
      as H by vm_cast_no_check (eq_refl true). by destruct (processed _ _).
Qed.

Lemma classification_agrees_with_decoder_witness :
  ClassifyTx [3] = (systemBlob ← SystemBlob pff; NewClassifiedFibreTx (mkFibreTx [3] systemBlob)).
Proof.
  apply (classification_agrees_with_decoder [3] (mk [MPayForFibre pff] (Some account_key) 2)); reflexivity.
Defined.

Lemma router_pays m : ∃ h, router (MPayForFibre m) = Some h ∧ ∀ s c s' c',
  h s c (MPayForFibre m) = Ok (s', c') → PayForFibre (c_block c) (ms_fibre s) m = Ok (ms_fibre s').
Proof.
  exists pay_handler. split; [done|]. intros s c s' c' H. unfold pay_handler in H. apply bind_Ok in H as (w & -> & H).
  apply Ok_inj in H. by injection H as <- _.
Qed.

Lemma sizes_u32 raw tx m : TxDecoder raw = Ok tx → payForFibreMsg tx = Some m →
  u32 (pb_BlobSize (pff_PaymentPromise m)).
Proof.
  intros Hd Hm. assert (∃ b, table b = Some tx) as [b Hb].
  { unfold TxDecoder, rejectEmptyTxDecoder, blobTxDecoder, indexWrapperDecoder in Hd. cbn in Hd.
    repeat case_match; inv_ok; try discriminate Hd; unfold of_option in *; repeat case_match; simplify_eq; eauto. }
  apply table_inv in Hb. rewrite !elem_of_cons in Hb.
  destruct Hb as [[= -> ->]|[[= -> ->]|[[= -> ->]|[[= -> ->]|[[= -> ->]|Hb%elem_of_nil]]]]]; try done.
  injection Hm as <-. by vm_compute.
Qed.

Lemma prop_accepted : ProcessProposalHandler ms_blob 4 handler (Some router) ∅ state0 ctx0 prop = accept.
Proof.
  assert (match ProcessProposalHandler ms_blob 4 handler (Some router) ∅ state0 ctx0 prop with
          | accept => true | _ => false end = true) as H by vm_cast_no_check (eq_refl true).
  by destruct (ProcessProposalHandler _ _ _ _ _ _ _ _).
Qed.

Lemma accepted_block_settles_promises_once_witness :
  NoDup (omap settled_promise (prop_Txs prop) ++ []) ∧ NoDup (omap promise_of (prop_Txs prop)) ∧
  ∀ h, h ∈ omap promise_of (prop_Txs prop) → GetProcessedPayment (w_store world3) h = None.
Proof.
  refine (accepted_block_settles_promises_once 33 gov ms_blob ms_minfee ms_fibre verify StdSignatureSize TxSigLimit
    account_key GovParamFilters 4 router ∅ (SFL := fibre_framing) router_pays sizes_u32 (mkChain world3 []) state0 ctx0 prop
    registered chain3_reachable eq_refl _ prop_accepted).
  apply (time_at 6 11). hours.
Defined.

Definition builder0 : Builder := mkMBuilder 4096 [].
Definition filled := from_ok ([], builder0) (Fill handler (Some router) builder0 state0 ctx0 txs 100000).

Lemma filled_block_within_max_bytes_witness : filled.1 ⊆+ txs ∧ ComputeProtoSizeForTxs filled.1 <= 100000.
Proof.
  apply (filled_block_within_max_bytes handler (Some router) builder0 state0 ctx0 txs 100000 filled.1 filled.2).
  - rewrite <- surjective_pairing. apply from_ok_run. vm_cast_no_check (eq_refl true).
  - repeat constructor.
  - lia.
Defined.

Lemma hash_length (b : Blob) : length (blob_Hash b) = HashSize.
Proof. cbn. unfold digest. rewrite length_take, length_app, repeat_length. unfold HashSize. lia. Qed.

(** The cache after checking the payment. *)
Definition checked_node : Node := (CheckTx 4 node (mkRequestCheckTx blob_tx CheckTxType_New)).1.

(** The payment that [blob_tx] encodes. *)
Definition payment : BlobTx := mkBlobTx (H := share_package) [2] [blob0; blob1].

Lemma checked_node_cache : node_cache 4 [blob_tx] (n_txCache checked_node).
Proof. apply (cache_check 4 [] node (mkRequestCheckTx blob_tx CheckTxType_New)), cache_start. Qed.

Lemma blob_tx_decodes : UnmarshalBlobTx blob_tx = Some (Ok payment).
Proof. apply unmarshal_marshal. Qed.

Lemma no_collision_with_checked : ¬ history_collides [blob_tx] payment.
Proof.
  intros (raw & old & ->%list_elem_of_singleton & Hu & Hc). rewrite blob_tx_decodes in Hu. injection Hu as <-.
  by apply collides_irrefl in Hc.
Qed.

Lemma proposal_accepted_iff_valid_block_witness :
  ProcessProposalHandler ms_blob 4 handler (Some router) (n_txCache checked_node) state0 ctx0 prop = accept ↔
  valid_block ms_blob handler (Some router) state0 ctx0 prop.
Proof.
  apply (proposal_accepted_iff_valid_block ms_blob 4 handler (Some router) hash_length [blob_tx]).
  - apply checked_node_cache.
  - intros raw bTx Hin Hu. rewrite prop_txs in Hin. rewrite !elem_of_cons, elem_of_nil in Hin.
    destruct Hin as [->|[->|[->|[]]]]; try discriminate Hu.
    rewrite blob_tx_decodes in Hu. injection Hu as <-. apply no_collision_with_checked.
Defined.

(** The prepared proposal is a valid block. *)
Lemma prop_valid_block : valid_block ms_blob handler (Some router) state0 ctx0 prop.
Proof.
  apply (process_valid_block ms_blob handler (Some router) 4 ∅); [|apply prop_accepted].
  apply Forall_forall. intros raw _ bTx Hu. done.
Qed.

Lemma cached_validation_equivalent_witness :
  (ValidateBlobTxWithCache 4 (n_txCache checked_node) payment).2 =
    ValidateBlobTx 4 (Some payment) SubtreeRootThreshold.
Proof.
  destruct (cached_validation_equivalent 4 hash_length [blob_tx] (n_txCache checked_node)
    payment checked_node_cache) as [H|H]; [exact H|by apply no_collision_with_checked in H].
Defined.
End ProposalExample.
