(* ===== verification/Disk.v ===== *)
(** * Disks

    The interfaces of the packages the fibre store keeps its data in: the file
    system of [pebble/v2/vfs] and the key-value store [pebble/v2]. An operation
    takes the state of the disk and returns its outcome with the new state, so
    a call that fails keeps what it did before. [DiskLaws] states the documented
    effects on two views of the disk, the files by path and the pairs of the
    database. The monad [IO] and the triples [{{ P }} m {{ Q }}] are for the code
    that calls them. *)

From S2P Require Import Prelude.
#[local] Open Scope Z_scope.

(** ** Calls with state *)

Definition IO (W A : Type) : Type := W → result A * W.

#[global] Instance io_ret {W} : MRet (IO W) := λ A a w, (Ok a, w).
#[global] Instance io_bind {W} : MBind (IO W) := λ A B f m w,
  match m w with
  | (Ok a, w') => f a w'
  | (Err e, w') => (Err e, w')
  | (Panic p, w') => (Panic p, w')
  end.

(** A computation without effects, and the error a call returned as a value
    (a panic is not caught). *)
Definition pure {W A} (r : result A) : IO W A := λ w, (r, w).

Definition attempt {W A} (m : IO W A) : IO W (error + A) := λ w,
  match m w with
  | (Ok a, w') => (Ok (inr a), w')
  | (Err e, w') => (Ok (inl e), w')
  | (Panic p, w') => (Panic p, w')
  end.

(** Results of foreign calls. *)
Definition io_unit {W} (m : W → option error * W) : IO W unit := λ w,
  match m w with (None, w') => (Ok tt, w') | (Some e, w') => (Err e, w') end.
Definition io_sum {W A} (m : W → (error + A) * W) : IO W A := λ w,
  match m w with (inr a, w') => (Ok a, w') | (inl e, w') => (Err e, w') end.

(** Run every step of a loop whose body may return early with an error. *)
Fixpoint io_fold {W A S} (f : S → A → IO W S) (l : list A) (s : S) : IO W S :=
  match l with
  | [] => mret s
  | a :: l' => s' ← f s a; io_fold f l' s'
  end.

(** ** Triples

    From a state that satisfies [P], the outcome and the new state satisfy
    [Q]. *)

Definition triple {W A} (P : W → Prop) (m : IO W A) (Q : result A → W → Prop) : Prop :=
  ∀ w, P w → Q (m w).1 (m w).2.

#[warnings="-closed-notation-not-level-0"]
Notation "'{{' P '}}' m '{{' Q '}}'" := (triple P m Q)
  (at level 90, P at level 200, m at level 200, Q at level 200).

(** The outcomes other than a value pass through a bind. *)
Definition failed {A B} (r : result A) : result B :=
  match r with Ok _ => Err "" | Err e => Err e | Panic p => Panic p end.

Section Triples.
Context {W : Type}.
Implicit Types P : W → Prop.

Lemma triple_ret {A} P (a : A) Q : (∀ w, P w → Q (Ok a) w) → {{ P }} mret a {{ Q }}.
Proof. intros H w Hw. by apply H. Qed.

Lemma triple_pure {A} P (r : result A) Q : (∀ w, P w → Q r w) → {{ P }} pure r {{ Q }}.
Proof. intros H w Hw. by apply H. Qed.

Lemma triple_bind {A B} P (m : IO W A) (f : A → IO W B) R Q :
  {{ P }} m {{ R }} →
  (∀ a, {{ λ w, R (Ok a) w }} f a {{ Q }}) →
  (∀ r w, (∀ a, r ≠ Ok a) → R r w → Q (failed r) w) →
  {{ P }} m ≫= f {{ Q }}.
Proof.
  intros Hm Hf He w Hw. specialize (Hm w Hw). cbn. unfold mbind, io_bind.
  destruct (m w) as [[a|e|p] w'] eqn:E; cbn in *.
  - by apply Hf.
  - by apply (He (Err e)).
  - by apply (He (Panic p)).
Qed.

Lemma triple_attempt {A} P (m : IO W A) Q :
  {{ P }} m {{ λ r w, match r with
                     | Ok a => Q (Ok (inr a)) w
                     | Err e => Q (Ok (inl e)) w
                     | Panic p => Q (Panic p) w
                     end }} →
  {{ P }} attempt m {{ Q }}.
Proof. intros Hm w Hw. specialize (Hm w Hw). unfold attempt. by destruct (m w) as [[a|e|p] w']. Qed.

Lemma triple_weaken {A} P P' (m : IO W A) Q Q' :
  {{ P' }} m {{ Q' }} → (∀ w, P w → P' w) → (∀ r w, Q' r w → Q r w) → {{ P }} m {{ Q }}.
Proof. intros Hm HP HQ w Hw. by apply HQ, Hm, HP. Qed.

Lemma triple_run {A} P (m : IO W A) Q w r w' :
  {{ P }} m {{ Q }} → P w → m w = (r, w') → Q r w'.
Proof. intros Hm HP E. specialize (Hm w HP). by rewrite E in Hm. Qed.

(** The usual postcondition: a condition on the value, one on the error, and no
    panic. *)
Definition outcome {A} (R : A → W → Prop) (E : error → W → Prop) (r : result A) (w : W) : Prop :=
  match r with Ok a => R a w | Err e => E e w | Panic _ => False end.

Lemma outcome_ret {A} P (a : A) R E : (∀ w, P w → R a w) → {{ P }} mret a {{ outcome R E }}.
Proof. intros H w Hw. by apply H. Qed.

Lemma outcome_err {A} P e (R : A → W → Prop) E : (∀ w, P w → E e w) → {{ P }} pure (Err e) {{ outcome R E }}.
Proof. intros H w Hw. by apply H. Qed.

Lemma outcome_bind {A B} P (m : IO W A) (f : A → IO W B) R Q (E : error → W → Prop) :
  {{ P }} m {{ outcome R E }} → (∀ a, {{ R a }} f a {{ outcome Q E }}) → {{ P }} m ≫= f {{ outcome Q E }}.
Proof.
  intros Hm Hf. eapply triple_bind; [exact Hm|exact Hf|].
  intros [a|e|p] w Hr; cbn; [by destruct (Hr a)| |]; done.
Qed.

Lemma outcome_attempt {A} P (m : IO W A) R E E' :
  {{ P }} m {{ outcome R E }} →
  {{ P }} attempt m {{ outcome (λ s w, match s with inr a => R a w | inl e => E e w end) E' }}.
Proof. intros Hm. apply triple_attempt. intros w Hw. specialize (Hm w Hw). by destruct (m w) as [[a|e|p] w']. Qed.

Lemma outcome_weaken {A} P P' (m : IO W A) R R' (E E' : error → W → Prop) :
  {{ P' }} m {{ outcome R' E' }} → (∀ w, P w → P' w) → (∀ a w, R' a w → R a w) → (∀ e w, E' e w → E e w) →
  {{ P }} m {{ outcome R E }}.
Proof. intros Hm HP HR HE. eapply triple_weaken; [exact Hm|exact HP|]. intros [a|e|p] w; cbn; auto. Qed.

Lemma outcome_fold {A S} (I : S → W → Prop) E (f : S → A → IO W S) l :
  (∀ s a, a ∈ l → {{ I s }} f s a {{ outcome I E }}) → ∀ s, {{ I s }} io_fold f l s {{ outcome I E }}.
Proof.
  induction l as [|a l IH]; intros Hf s; cbn; [by apply outcome_ret|].
  eapply outcome_bind; [apply Hf; by left|]. intros s'. apply IH. intros s'' b Hb. apply Hf. by right.
Qed.
End Triples.

(** ** File systems and key-value stores *)

(** [os.ErrNotExist]. *)
Definition ErrNotExist : error := "file does not exist".

(** What an [io.Reader] delivers: bytes, then an error other than [io.EOF] or
    the end of the stream. *)
Record Stream := mkStream { st_data : bytes; st_end : option error }.

(** [vfs.FS]. Writing and closing name the file by the path it was created
    with; opening a file yields the stream its reads deliver. *)
Class Vfs (W : Type) := {
  vfs_MkdirAll : bytes → W → option error * W;
  vfs_Create : bytes → W → option error * W;
  vfs_Write : bytes → bytes → W → option error * W;
  vfs_Close : bytes → W → option error * W;
  vfs_Rename : bytes → bytes → W → option error * W;
  vfs_Remove : bytes → W → option error * W;
  vfs_RemoveAll : bytes → W → option error * W;
  vfs_Stat : bytes → W → (error + Z) * W;
  vfs_Open : bytes → W → (error + Stream) * W;
  vfs_List : bytes → W → (error + list bytes) * W;
  vfs_AvailBytes : bytes → W → (error + Z) * W;
}.

Inductive BatchOp :=
| BSet (key value : bytes)
| BDelete (key : bytes).

#[global] Instance BatchOp_eq_dec : EqDecision BatchOp.
Proof. solve_decision. Defined.

(** [pebble.DB]. [db_Get] reports [pebble.ErrNotFound] as [None]; [db_Batch] is
    the call that adds one operation to a batch, [db_Commit] applies a batch;
    [db_Iter] yields the pairs an iterator visits, with the error it stopped
    at. *)
Class Pebble (W : Type) := {
  db_Get : bytes → W → (error + option bytes) * W;
  db_Delete : bytes → W → option error * W;
  db_Batch : BatchOp → W → option error * W;
  db_Commit : list BatchOp → W → option error * W;
  db_Iter : bytes → option bytes → W → (error + list (bytes * bytes) * option error) * W;
}.

Definition batch_apply (m : gmap bytes bytes) (op : BatchOp) : gmap bytes bytes :=
  match op with BSet k v => <[k:=v]> m | BDelete k => delete k m end.

(** The pairs of a range of keys, in the order of the keys. *)
Definition in_range (lower : bytes) (upper : option bytes) (k : bytes) : Prop :=
  bytes_le lower k ∧ from_option (bytes_lt k) True upper.

#[global] Instance in_range_dec lower upper k : Decision (in_range lower upper k).
Proof. unfold in_range. destruct upper; cbn; apply _. Defined.

Definition key_range (lower : bytes) (upper : option bytes) (m : gmap bytes bytes) : list (bytes * bytes) :=
  filter (λ kv, in_range lower upper kv.1) (sorted_entries m).

(** [filepath.Join] of a cleaned directory and a name. *)
Definition slash : Z := 47.
Definition Join (dir name : bytes) : bytes := dir ++ slash :: name.
Definition below (dir path : bytes) : Prop := (dir ++ [slash]) `prefix_of` path.

#[global] Instance below_dec dir path : Decision (below dir path).
Proof. unfold below. apply _. Defined.

(** The error of a call on a path: there is no file, or a fault. *)
Definition lacks (err : error) (file : option bytes) (fault : Prop) : Prop :=
  err = ErrNotExist ∧ file = None ∨ err ≠ ErrNotExist ∧ fault.

(** The documented effects. A call that fails changes nothing, except that a
    file being written may be left in any state and a failed removal of a tree
    may have removed part of it. A call fails only for want of its file, or on a
    disk that can be [faulty]. *)
Class DiskLaws (W : Type) `{Vfs W} `{Pebble W} := {
  files : W → gmap bytes bytes;
  kvs : W → gmap bytes bytes;
  faulty : Prop;

  vfs_MkdirAll_law d w :
    let '(e, w') := vfs_MkdirAll d w in
    kvs w' = kvs w ∧ files w' = files w ∧ (e = None ∨ faulty);
  vfs_Create_law p w :
    let '(e, w') := vfs_Create p w in
    kvs w' = kvs w ∧ delete p (files w') = delete p (files w) ∧
    (e = None ∧ files w' = <[p:=[]]> (files w) ∨ is_Some e ∧ faulty);
  vfs_Write_law p b w :
    let '(e, w') := vfs_Write p b w in
    kvs w' = kvs w ∧ delete p (files w') = delete p (files w) ∧
    (∀ c, files w !! p = Some c → e = None ∧ files w' = <[p:=c ++ b]> (files w) ∨ is_Some e ∧ faulty);
  vfs_Close_law p w :
    let '(e, w') := vfs_Close p w in
    kvs w' = kvs w ∧ delete p (files w') = delete p (files w) ∧
    (e = None ∧ files w' = files w ∨ is_Some e ∧ faulty);
  vfs_Rename_law p q w :
    let '(e, w') := vfs_Rename p q w in
    kvs w' = kvs w ∧
    match e with
    | None => ∃ c, files w !! p = Some c ∧ files w' = <[q:=c]> (delete p (files w))
    | Some _ => files w' = files w ∧ (is_Some (files w !! p) → faulty)
    end;
  vfs_Remove_law p w :
    let '(e, w') := vfs_Remove p w in
    kvs w' = kvs w ∧
    match e with
    | None => is_Some (files w !! p) ∧ files w' = delete p (files w)
    | Some err => files w' = files w ∧ lacks err (files w !! p) faulty
    end;
  vfs_RemoveAll_law d w :
    let '(e, w') := vfs_RemoveAll d w in
    kvs w' = kvs w ∧ files w' ⊆ files w ∧
    (∀ p, ¬ below d p → files w' !! p = files w !! p) ∧
    (e = None ∧ (∀ p, below d p → files w' !! p = None) ∨ is_Some e ∧ faulty);
  vfs_Stat_law p w :
    let '(r, w') := vfs_Stat p w in
    kvs w' = kvs w ∧ files w' = files w ∧
    match r with
    | inr n => ∃ c, files w !! p = Some c ∧ n = Z.of_nat (length c)
    | inl err => lacks err (files w !! p) faulty
    end;
  vfs_Open_law p w :
    let '(r, w') := vfs_Open p w in
    kvs w' = kvs w ∧ files w' = files w ∧
    match r with
    | inr s => ∃ c, files w !! p = Some c ∧ st_data s `prefix_of` c ∧
        (st_end s = None ∧ st_data s = c ∨ is_Some (st_end s) ∧ faulty)
    | inl err => lacks err (files w !! p) faulty
    end;
  vfs_List_law d w :
    let '(r, w') := vfs_List d w in
    kvs w' = kvs w ∧ files w' = files w ∧
    match r with
    | inr names => NoDup names ∧ ∀ n, n ∈ names ↔ (slash ∉ n) ∧ is_Some (files w !! Join d n)
    | inl _ => faulty
    end;
  vfs_AvailBytes_law p w :
    files (vfs_AvailBytes p w).2 = files w ∧ kvs (vfs_AvailBytes p w).2 = kvs w;

  db_Get_law k w :
    let '(r, w') := db_Get k w in
    kvs w' = kvs w ∧ files w' = files w ∧ match r with inr v => v = kvs w !! k | inl _ => faulty end;
  db_Delete_law k w :
    let '(e, w') := db_Delete k w in
    files w' = files w ∧ match e with None => kvs w' = delete k (kvs w) | Some _ => kvs w' = kvs w ∧ faulty end;
  db_Batch_law op w :
    let '(e, w') := db_Batch op w in
    files w' = files w ∧ kvs w' = kvs w ∧ (e = None ∨ faulty);
  db_Commit_law ops w :
    let '(e, w') := db_Commit ops w in
    files w' = files w ∧
    match e with None => kvs w' = foldl batch_apply (kvs w) ops | Some _ => kvs w' = kvs w ∧ faulty end;
  db_Iter_law lo hi w :
    let '(r, w') := db_Iter lo hi w in
    kvs w' = kvs w ∧ files w' = files w ∧
    match r with
    | inr (l, None) => l = key_range lo hi (kvs w)
    | inr (l, Some _) => l `prefix_of` key_range lo hi (kvs w) ∧ faulty
    | inl _ => faulty
    end;
}.
