(* ===== verification/ShardCodec.v ===== *)
(** * The shard file format

    [fibre/store_codec.go]: shards are written as length-prefixed binary, all
    integers big-endian, and read back from a stream with limits on every
    length. [shardBinarySize] predicts the size without writing. *)

From S2P Require Import Prelude Disk.
#[local] Open Scope Z_scope.

(** ** Data: [types.BlobRow] and [types.BlobShard]

    The rows of a shard are pointers, which may be nil. *)

Record BlobRow := mkBlobRow { row_Index : Z; row_Data : bytes; row_Proof : list bytes }.
Record BlobShard := mkBlobShard { sh_Rows : list (option BlobRow); sh_Rlcs : bytes }.

#[global] Instance BlobRow_eq_dec : EqDecision BlobRow.
Proof. solve_decision. Defined.
#[global] Instance BlobShard_eq_dec : EqDecision BlobShard.
Proof. solve_decision. Defined.

Definition shardCodecVersion : Z := 1.

(** [binary.BigEndian.AppendUint32] of a [uint32] conversion: the low 32 bits. *)
Definition put_u32 (n : Z) : bytes := be_bytes 4 n.
Definition put_len {A} (l : list A) : bytes := put_u32 (Z.of_nat (length l)).

(** ** Writing *)

Section Write.
Context {W : Type} (Write : bytes → IO W unit).

Definition write_segment (seg : bytes) : IO W unit :=
  _ ← Write (put_len seg); Write seg.

Definition write_row (row : option BlobRow) : IO W unit :=
  match row with
  | None => pure (Err "nil row in shard")
  | Some row =>
      _ ← Write (put_u32 (row_Index row) ++ put_len (row_Data row));
      _ ← Write (row_Data row);
      _ ← Write (put_len (row_Proof row));
      io_fold (λ _, write_segment) (row_Proof row) tt
  end.

Definition writeShardBinary (shard : BlobShard) : IO W unit :=
  _ ← Write (put_u32 shardCodecVersion ++ put_len (sh_Rlcs shard));
  _ ← Write (sh_Rlcs shard);
  _ ← Write (put_len (sh_Rows shard));
  io_fold (λ _, write_row) (sh_Rows shard) tt.
End Write.

(** ** The size of the written file, in int64 *)

Definition row_size (row : BlobRow) (size : Z) : Z :=
  foldl (λ size seg, wrap_i64 (size + (4 + Z.of_nat (length seg))))
    (wrap_i64 (size + (4 + 4 + Z.of_nat (length (row_Data row)) + 4))) (row_Proof row).

(** A nil row is dereferenced. *)
Definition shardBinarySize (shard : BlobShard) : result Z :=
  fold_res (λ size row,
      match row with
      | None => Panic "invalid memory address or nil pointer dereference"
      | Some row => Ok (row_size row size)
      end)
    (sh_Rows shard) (4 + 4 + Z.of_nat (length (sh_Rlcs shard)) + 4).

(** ** Reading *)

Definition shardLengthLimit : Z := Z.shiftl 1 30.
Definition maxShardRows : Z := Z.shiftl 1 16.
Definition maxRowProofSegments : Z := 64.

(** [io.ReadFull(r, buf)] of [n] bytes. *)
Definition ReadFull (n : nat) (r : Stream) : result (bytes * Stream) :=
  if (n <=? length (st_data r))%nat
  then Ok (take n (st_data r), mkStream (drop n (st_data r)) (st_end r))
  else match st_end r with
       | Some e => Err e
       | None => if (length (st_data r) =? 0)%nat then Err "EOF" else Err "unexpected EOF"
       end.

Definition readUint32 (r : Stream) : result (Z * Stream) :=
  '(b, r) ← ReadFull 4 r; Ok (be_decode b, r).

Definition readBytes (n : Z) (r : Stream) : result (bytes * Stream) :=
  if n >? shardLengthLimit then Err "length exceeds shard limit"
  else if n =? 0 then Ok ([], r)
  else ReadFull (Z.to_nat n) r.

(** A loop of [n] reads. *)
Fixpoint read_n {A} (read : Stream → result (A * Stream)) (n : nat) (r : Stream) : result (list A * Stream) :=
  match n with
  | O => Ok ([], r)
  | S n' => '(a, r) ← read r; '(l, r) ← read_n read n' r; Ok (a :: l, r)
  end.

Definition read_segment (r : Stream) : result (bytes * Stream) :=
  '(segLen, r) ← readUint32 r; readBytes segLen r.

Definition read_row (r : Stream) : result (option BlobRow * Stream) :=
  '(index, r) ← readUint32 r;
  '(dataLen, r) ← readUint32 r;
  '(data, r) ← readBytes dataLen r;
  '(numProof, r) ← readUint32 r;
  '(proof, r) ←
    (if 0 <? numProof then
       _ ← ensure (negb (numProof >? maxRowProofSegments)) "num proof exceeds limit";
       read_n read_segment (Z.to_nat numProof) r
     else Ok ([], r));
  Ok (Some (mkBlobRow index data proof), r).

Definition readShardBinary (r : Stream) : result (BlobShard * Stream) :=
  '(version, r) ← readUint32 r;
  _ ← ensure (version =? shardCodecVersion) "unsupported shard codec version";
  '(rlcsLen, r) ← readUint32 r;
  '(rlcs, r) ← readBytes rlcsLen r;
  '(numRows, r) ← readUint32 r;
  _ ← ensure (negb (numRows >? maxShardRows)) "num rows exceeds limit";
  '(rows, r) ← read_n read_row (Z.to_nat numRows) r;
  Ok (mkBlobShard rows rlcs, r).

(** [readShardFile]: the sentinel [ErrStoreNotFound] of the package is told
    apart from the errors of the file system; the read buffer is not
    observable. *)
Inductive ReadError :=
| NotFound
| ReadFailed (e : error).

Definition readShardFile {W} `{Vfs W} (path : bytes) : IO W (ReadError + BlobShard) :=
  opened ← attempt (io_sum (vfs_Open path));
  match opened with
  | inl err => mret (inl (if String.eqb err ErrNotExist then NotFound else ReadFailed err))
  | inr f =>
      match readShardBinary f with
      | Ok (shard, _) => mret (inr shard)
      | Err e => mret (inl (ReadFailed e))
      | Panic p => pure (Panic p)
      end
  end.

(** ** The bytes of a shard *)

Definition enc_segment (seg : bytes) : bytes := put_len seg ++ seg.
Definition enc_row (row : BlobRow) : bytes :=
  put_u32 (row_Index row) ++ put_len (row_Data row) ++ row_Data row ++
  put_len (row_Proof row) ++ concat (map enc_segment (row_Proof row)).
Definition enc_shard (rows : list BlobRow) (rlcs : bytes) : bytes :=
  put_u32 shardCodecVersion ++ put_len rlcs ++ rlcs ++ put_len rows ++ concat (map enc_row rows).

(** What the format can carry. *)
Record row_fits (row : BlobRow) : Prop := {
  rf_index : u32 (row_Index row);
  rf_data : Z.of_nat (length (row_Data row)) <= shardLengthLimit;
  rf_proof : Z.of_nat (length (row_Proof row)) <= maxRowProofSegments;
  rf_segments : Forall (λ seg, Z.of_nat (length seg) <= shardLengthLimit) (row_Proof row);
}.
Record shard_fits (rows : list BlobRow) (rlcs : bytes) : Prop := {
  sf_rlcs : Z.of_nat (length rlcs) <= shardLengthLimit;
  sf_count : Z.of_nat (length rows) <= maxShardRows;
  sf_rows : Forall row_fits rows;
}.

(** *** Reading what was written *)

Lemma ReadFull_app n b rest e : length b = n →
  ReadFull n (mkStream (b ++ rest) e) = Ok (b, mkStream rest e).
Proof.
  intros <-. unfold ReadFull. cbn [st_data st_end]. rewrite length_app.
  destruct (Nat.leb_spec (length b) (length b + length rest)); [|lia].
  by rewrite take_app_length, drop_app_length.
Qed.

Lemma readUint32_put n rest e : u32 n →
  readUint32 (mkStream (put_u32 n ++ rest) e) = Ok (n, mkStream rest e).
Proof.
  intros Hn. unfold readUint32, put_u32. rewrite ReadFull_app by apply length_be_bytes.
  cbn. rewrite be_decode_bytes; [done|]. revert Hn. unfold u32, two32. by intros.
Qed.

Lemma readBytes_app b rest e : Z.of_nat (length b) <= shardLengthLimit →
  readBytes (Z.of_nat (length b)) (mkStream (b ++ rest) e) = Ok (b, mkStream rest e).
Proof.
  intros Hb. unfold readBytes. rewrite Z.gtb_ltb.
  destruct (Z.ltb_spec shardLengthLimit (Z.of_nat (length b))); [lia|].
  destruct (Z.eqb_spec (Z.of_nat (length b)) 0); [by destruct b|].
  by rewrite ReadFull_app by lia.
Qed.

Lemma limit_u32 {A} (l : list A) : Z.of_nat (length l) <= shardLengthLimit → u32 (Z.of_nat (length l)).
Proof. unfold shardLengthLimit, u32, two32. rewrite Z.shiftl_mul_pow2 by lia. lia. Qed.

Lemma read_segment_enc seg rest e : Z.of_nat (length seg) <= shardLengthLimit →
  read_segment (mkStream (enc_segment seg ++ rest) e) = Ok (seg, mkStream rest e).
Proof.
  intros Hs. unfold read_segment, enc_segment, put_len. rewrite <- app_assoc, readUint32_put by by apply limit_u32.
  cbn. by apply readBytes_app.
Qed.

Lemma read_n_enc {A B} (read : Stream → result (B * Stream)) (enc : A → bytes) (f : A → B) (l : list A) rest e :
  (∀ a rest, a ∈ l → read (mkStream (enc a ++ rest) e) = Ok (f a, mkStream rest e)) →
  read_n read (length l) (mkStream (concat (map enc l) ++ rest) e) = Ok (map f l, mkStream rest e).
Proof.
  induction l as [|a l IH]; intros Hr; cbn; [done|].
  rewrite <- app_assoc, Hr by by left. cbn. rewrite IH; [done|]. intros b rest' Hb. apply Hr. by right.
Qed.

Lemma read_row_enc row rest e : row_fits row →
  read_row (mkStream (enc_row row ++ rest) e) = Ok (Some row, mkStream rest e).
Proof.
  intros [Hi Hd Hp Hs]. unfold read_row, enc_row. rewrite <- !app_assoc.
  rewrite readUint32_put by done. cbn [mbind result_bind].
  unfold put_len at 1. rewrite readUint32_put by by apply limit_u32. cbn [mbind result_bind].
  rewrite readBytes_app by done. cbn [mbind result_bind].
  unfold put_len. rewrite readUint32_put by (unfold u32, two32; unfold maxRowProofSegments in Hp; lia).
  cbn [mbind result_bind]. rewrite Z.gtb_ltb.
  destruct (Z.ltb_spec maxRowProofSegments (Z.of_nat (length (row_Proof row)))); [lia|]. cbn [negb ensure].
  destruct (Z.ltb_spec 0 (Z.of_nat (length (row_Proof row)))) as [_|H0].
  - cbn [mbind result_bind ensure]. rewrite Nat2Z.id, (read_n_enc _ _ id).
    + cbn. rewrite map_id. by destruct row.
    + intros seg rest' Hin. apply read_segment_enc. by eapply Forall_forall in Hs.
  - destruct (row_Proof row) as [|x l] eqn:E; [|cbn in H0; lia]. cbn. destruct row; cbn in *; by subst.
Qed.

Lemma readShardBinary_enc rows rlcs rest e : shard_fits rows rlcs →
  readShardBinary (mkStream (enc_shard rows rlcs ++ rest) e) =
  Ok (mkBlobShard (map Some rows) rlcs, mkStream rest e).
Proof.
  intros [Hr Hc Hrows]. unfold readShardBinary, enc_shard. rewrite <- !app_assoc.
  rewrite readUint32_put by (unfold u32, two32, shardCodecVersion; lia). cbn [mbind result_bind].
  rewrite Z.eqb_refl. cbn [ensure]. unfold put_len at 1. cbn [mbind result_bind].
  rewrite readUint32_put by by apply limit_u32. cbn [mbind result_bind].
  rewrite readBytes_app by done. cbn [mbind result_bind].
  unfold put_len. rewrite readUint32_put by (unfold u32, two32; unfold maxShardRows in Hc; rewrite Z.shiftl_mul_pow2 in Hc; lia).
  cbn [mbind result_bind]. rewrite Z.gtb_ltb.
  destruct (Z.ltb_spec maxShardRows (Z.of_nat (length rows))); [lia|]. cbn [negb ensure mbind result_bind].
  rewrite Nat2Z.id, (read_n_enc _ _ Some); [done|].
  intros row rest' Hin. apply read_row_enc. by eapply Forall_forall in Hrows.
Qed.

(** *** Reading more than was needed

    A read that succeeds on a stream does the same on every longer stream. *)

Definition monotone {A} (read : Stream → result (A * Stream)) : Prop :=
  ∀ d e a r, read (mkStream d e) = Ok (a, r) →
  ∃ rest, r = mkStream rest e ∧ ∀ more e', read (mkStream (d ++ more) e') = Ok (a, mkStream (rest ++ more) e').

Lemma monotone_ReadFull n : monotone (ReadFull n).
Proof.
  intros d e a r. unfold ReadFull. cbn [st_data st_end].
  destruct (Nat.leb_spec n (length d)) as [Hn|]; [|destruct e; [|destruct (_ =? _)%nat]; discriminate].
  intros [= <- <-]. exists (drop n d). split; [done|]. intros more e'. rewrite length_app.
  destruct (Nat.leb_spec n (length d + length more)); [|lia]. by rewrite take_app_le, drop_app_le by lia.
Qed.

Lemma monotone_ret {A} (a : A) : monotone (λ r, Ok (a, r)).
Proof. intros d e a' r [= <- <-]. by exists d. Qed.

Lemma monotone_bind {A B} (m : Stream → result (A * Stream)) (f : A → Stream → result (B * Stream)) :
  monotone m → (∀ a, monotone (f a)) → monotone (λ r, '(a, r) ← m r; f a r).
Proof.
  intros Hm Hf d e b r H. apply bind_Ok in H as ([a r1] & Ha & Hb).
  apply Hm in Ha as (rest & -> & Ha). apply Hf in Hb as (rest' & -> & Hb).
  exists rest'. split; [done|]. intros more e'. rewrite Ha. cbn. apply Hb.
Qed.

Lemma monotone_ensure {A} b e (f : Stream → result (A * Stream)) :
  monotone f → monotone (λ r, _ ← ensure b e; f r).
Proof. intros Hf. destruct b; [exact Hf|by intros d e' a r]. Qed.

Lemma monotone_readUint32 : monotone readUint32.
Proof. apply monotone_bind; [apply monotone_ReadFull|]. intros b. apply monotone_ret. Qed.

Lemma monotone_readBytes n : monotone (readBytes n).
Proof.
  unfold readBytes. destruct (_ >? _); [by intros d e a r|]. destruct (_ =? _); [apply monotone_ret|].
  apply monotone_ReadFull.
Qed.

Lemma monotone_read_n {A} (read : Stream → result (A * Stream)) n : monotone read → monotone (read_n read n).
Proof.
  intros Hr. induction n as [|n IH]; cbn; [apply monotone_ret|].
  apply monotone_bind; [done|]. intros a. apply monotone_bind; [done|]. intros l. apply monotone_ret.
Qed.

Lemma monotone_read_segment : monotone read_segment.
Proof. apply monotone_bind; [apply monotone_readUint32|]. intros n. apply monotone_readBytes. Qed.

Lemma monotone_read_row : monotone read_row.
Proof.
  unfold read_row. apply monotone_bind; [apply monotone_readUint32|]. intros index.
  apply monotone_bind; [apply monotone_readUint32|]. intros dataLen.
  apply monotone_bind; [apply monotone_readBytes|]. intros data.
  apply monotone_bind; [apply monotone_readUint32|]. intros numProof.
  apply (monotone_bind (λ r, if 0 <? numProof then _ else _)); [|intros proof; apply monotone_ret].
  destruct (0 <? numProof); [|apply monotone_ret].
  apply monotone_ensure, monotone_read_n, monotone_read_segment.
Qed.

Lemma monotone_readShardBinary : monotone readShardBinary.
Proof.
  unfold readShardBinary. apply monotone_bind; [apply monotone_readUint32|]. intros version.
  apply monotone_ensure, monotone_bind; [apply monotone_readUint32|]. intros rlcsLen.
  apply monotone_bind; [apply monotone_readBytes|]. intros rlcs.
  apply monotone_bind; [apply monotone_readUint32|]. intros numRows.
  apply monotone_ensure, monotone_bind; [apply monotone_read_n, monotone_read_row|]. intros rows. apply monotone_ret.
Qed.

(** Reading any part of an encoded shard yields that shard or fails. *)
Lemma read_part rows rlcs d e shard r : shard_fits rows rlcs → d `prefix_of` enc_shard rows rlcs →
  readShardBinary (mkStream d e) = Ok (shard, r) → shard = mkBlobShard (map Some rows) rlcs.
Proof.
  intros Hf [more Hd] H. apply monotone_readShardBinary in H as (rest & _ & H). specialize (H more None).
  rewrite <- Hd in H. pose proof (readShardBinary_enc rows rlcs [] None Hf) as R. rewrite app_nil_r in R. congruence.
Qed.

Lemma no_panic_ReadFull n r : no_panic (ReadFull n r).
Proof. unfold ReadFull. destruct (_ <=? _)%nat; [done|]. destruct (st_end r); [done|]. by destruct (_ =? _)%nat. Qed.

Lemma no_panic_read_n {A} (read : Stream → result (A * Stream)) n r :
  (∀ r, no_panic (read r)) → no_panic (read_n read n r).
Proof.
  intros Hr. revert r. induction n as [|n IH]; intros r; cbn; [done|].
  apply no_panic_bind; [done|]. intros [a r'] _. apply no_panic_bind; [done|]. by intros [l r''] _.
Qed.

Lemma no_panic_readUint32 r : no_panic (readUint32 r).
Proof. apply no_panic_bind; [apply no_panic_ReadFull|]. by intros [b r'] _. Qed.

Lemma no_panic_readBytes n r : no_panic (readBytes n r).
Proof. unfold readBytes. destruct (_ >? _); [done|]. destruct (_ =? _); [done|]. apply no_panic_ReadFull. Qed.

Lemma no_panic_read_row r : no_panic (read_row r).
Proof.
  apply no_panic_bind; [apply no_panic_readUint32|]. intros [index r1] _.
  apply no_panic_bind; [apply no_panic_readUint32|]. intros [dataLen r2] _.
  apply no_panic_bind; [apply no_panic_readBytes|]. intros [data r3] _.
  apply no_panic_bind; [apply no_panic_readUint32|]. intros [numProof r4] _.
  apply no_panic_bind; [|by intros [proof r5] _]. destruct (0 <? numProof); [|done].
  apply no_panic_bind; [apply no_panic_ensure|]. intros _ _. apply no_panic_read_n. intros r5.
  apply no_panic_bind; [apply no_panic_readUint32|]. intros [n r6] _. apply no_panic_readBytes.
Qed.

(** Reading a corrupt file fails with an error. *)
Lemma no_panic_readShardBinary r : no_panic (readShardBinary r).
Proof.
  apply no_panic_bind; [apply no_panic_readUint32|]. intros [version r1] _.
  apply no_panic_bind; [apply no_panic_ensure|]. intros _ _.
  apply no_panic_bind; [apply no_panic_readUint32|]. intros [rlcsLen r2] _.
  apply no_panic_bind; [apply no_panic_readBytes|]. intros [rlcs r3] _.
  apply no_panic_bind; [apply no_panic_readUint32|]. intros [numRows r4] _.
  apply no_panic_bind; [apply no_panic_ensure|]. intros _ _.
  apply no_panic_bind; [apply no_panic_read_n, no_panic_read_row|]. by intros [rows r5] _.
Qed.

(** *** What is written, and its size *)

Section Sink.
(** A writer whose successful writes append to a view of the state, and whose
    failures establish [E]. *)
Context {W : Type} (Write : bytes → IO W unit) (view : bytes → W → Prop) (E : error → W → Prop).
Context (Hwrite : ∀ c b, {{ view c }} Write b {{ outcome (λ _, view (c ++ b)) E }}).

Let wrote (c : bytes) : result unit → W → Prop := outcome (λ _, view c) E.

Lemma wrote_bind c c' (m : IO W unit) (f : unit → IO W unit) P :
  {{ P }} m {{ wrote c }} → {{ view c }} f tt {{ wrote c' }} → {{ P }} m ≫= f {{ wrote c' }}.
Proof. intros Hm Hf. eapply outcome_bind; [exact Hm|intros []; exact Hf]. Qed.

Lemma wrote_fold {A} (f : A → IO W unit) (enc : A → bytes) (l : list A) : ∀ c,
  (∀ a c, a ∈ l → {{ view c }} f a {{ wrote (c ++ enc a) }}) →
  {{ view c }} io_fold (λ _, f) l tt {{ wrote (c ++ concat (map enc l)) }}.
Proof.
  induction l as [|a l IH]; intros c Hf; cbn.
  - rewrite app_nil_r. by apply triple_ret.
  - eapply wrote_bind; [apply Hf; by left|]. rewrite app_assoc. apply IH. intros b c' Hb. apply Hf. by right.
Qed.

Lemma write_row_spec row c : {{ view c }} write_row Write (Some row) {{ wrote (c ++ enc_row row) }}.
Proof.
  unfold write_row, enc_row. eapply wrote_bind; [apply Hwrite|]. eapply wrote_bind; [apply Hwrite|].
  eapply wrote_bind; [apply Hwrite|]. rewrite !app_assoc. apply wrote_fold.
  intros seg c' _. unfold write_segment, enc_segment. rewrite app_assoc. eapply wrote_bind; apply Hwrite.
Qed.

Lemma writeShardBinary_spec rows rlcs c :
  {{ view c }} writeShardBinary Write (mkBlobShard (map Some rows) rlcs)
  {{ wrote (c ++ enc_shard rows rlcs) }}.
Proof.
  unfold writeShardBinary, enc_shard. cbn [sh_Rows sh_Rlcs].
  eapply wrote_bind; [apply Hwrite|]. eapply wrote_bind; [apply Hwrite|].
  eapply wrote_bind; [apply Hwrite|]. rewrite !app_assoc.
  unfold put_len at 2. rewrite length_map. fold (put_len rows).
  set (d := _ ++ put_len rows). clearbody d. revert d.
  induction rows as [|row rows IH]; intros d; cbn.
  - rewrite app_nil_r. by apply triple_ret.
  - eapply wrote_bind; [apply write_row_spec|]. rewrite app_assoc. apply IH.
Qed.
End Sink.

(** A shard without nil rows is given by
    its list of rows. *)
Lemma shard_rows shard : Forall is_Some (sh_Rows shard) →
  ∃ rows, shard = mkBlobShard (map Some rows) (sh_Rlcs shard).
Proof.
  destruct shard as [rs rlcs]; cbn. intros HF. induction HF as [|o rs [row ->] HF (rows & [= ->])].
  - by exists [].
  - by exists (row :: rows).
Qed.

Definition segment_length (seg : bytes) : Z := 4 + Z.of_nat (length seg).

Lemma length_enc_segments segs :
  Z.of_nat (length (concat (map enc_segment segs))) = zsum (map segment_length segs).
Proof.
  induction segs as [|seg segs IH]; [done|]. cbn [map concat zsum foldr]. fold (zsum (map segment_length segs)).
  rewrite length_app, Nat2Z.inj_add, IH. unfold enc_segment, segment_length, put_len, put_u32.
  rewrite length_app, length_be_bytes. lia.
Qed.

Lemma fold_sizes (segs : list bytes) : ∀ size,
  0 <= size → size + zsum (map segment_length segs) < two63 →
  foldl (λ size seg, wrap_i64 (size + (4 + Z.of_nat (length seg)))) size segs =
  size + zsum (map segment_length segs).
Proof.
  induction segs as [|seg segs IH]; intros size H0 Hb; cbn; [lia|].
  cbn in Hb. fold (zsum (map segment_length segs)) in *.
  assert (0 <= zsum (map segment_length segs)).
  { apply zsum_nonneg, Forall_map, Forall_forall. intros x _. unfold segment_length. lia. }
  unfold segment_length at 1 in Hb. rewrite wrap_i64_id by fits. rewrite IH; unfold segment_length in *; cbn in *; lia.
Qed.

Lemma row_size_exact row size :
  0 <= size → size + Z.of_nat (length (enc_row row)) < two63 →
  row_size row size = size + Z.of_nat (length (enc_row row)).
Proof.
  unfold row_size, enc_row, put_len, put_u32. rewrite !length_app, !length_be_bytes, !Nat2Z.inj_add, length_enc_segments.
  intros H0 Hb. assert (0 <= zsum (map segment_length (row_Proof row))).
  { apply zsum_nonneg, Forall_map, Forall_forall. intros x _. unfold segment_length. lia. }
  rewrite wrap_i64_id by fits. rewrite fold_sizes; lia.
Qed.

Lemma sizes_exact rows : ∀ size,
  0 <= size → size + Z.of_nat (length (concat (map enc_row rows))) < two63 →
  fold_res (λ size row,
      match row with
      | None => Panic "invalid memory address or nil pointer dereference"
      | Some row => Ok (row_size row size)
      end) (map Some rows) size = Ok (size + Z.of_nat (length (concat (map enc_row rows)))).
Proof.
  induction rows as [|row rows IH]; intros size H0 Hb; cbn; [f_equal; lia|].
  cbn in Hb. rewrite length_app in *. rewrite row_size_exact by lia. rewrite IH by lia. f_equal. lia.
Qed.

Lemma shardBinarySize_exact rows rlcs : Z.of_nat (length (enc_shard rows rlcs)) < two63 →
  shardBinarySize (mkBlobShard (map Some rows) rlcs) = Ok (Z.of_nat (length (enc_shard rows rlcs))).
Proof.
  unfold enc_shard, put_len, put_u32. rewrite !length_app, !length_be_bytes. intros Hb.
  unfold shardBinarySize. cbn [sh_Rows sh_Rlcs]. rewrite sizes_exact by lia. f_equal. lia.
Qed.
