(* ===== verification/Timestamp.v ===== *)
(** * Timestamps of the prune index

    [formatTimestamp] of [fibre/store.go] renders an instant with the layout
    [200601021504] of the standard library. The calendar is the proleptic
    Gregorian one; the lemmas show that the rendering orders instants by their
    minute. *)

From S2P Require Import Prelude Sdk.
#[local] Open Scope Z_scope.

(** ** Dates *)

(** Days before the year [y + 1], counted from 1 January of year 1. *)
Definition days_before (y : Z) : Z := 365 * y + y / 4 - y / 100 + y / 400.

(** The year of a day (less one): an estimate from the mean year, corrected. *)
Definition year_of (n : Z) : Z :=
  let y := n * 400 / 146097 in
  if days_before (y + 1) <=? n then y + 1 else if n <? days_before y then y - 1 else y.

Definition leap (y : Z) : bool := days_before (y + 1) - days_before y =? 366.

(** Month and day of month for the [d]-th day of a year. *)
Definition month_day (lp : bool) (d : Z) : Z * Z :=
  let l := Z.b2z lp in
  if d <? 31 then (1, d + 1) else if d <? 59 + l then (2, d - 31 + 1)
  else if d <? 90 + l then (3, d - 59 - l + 1) else if d <? 120 + l then (4, d - 90 - l + 1)
  else if d <? 151 + l then (5, d - 120 - l + 1) else if d <? 181 + l then (6, d - 151 - l + 1)
  else if d <? 212 + l then (7, d - 181 - l + 1) else if d <? 243 + l then (8, d - 212 - l + 1)
  else if d <? 273 + l then (9, d - 243 - l + 1) else if d <? 304 + l then (10, d - 273 - l + 1)
  else if d <? 334 + l then (11, d - 304 - l + 1) else (12, d - 334 - l + 1).

(** ** Decimal digits *)

(** Exactly [w] digits, and [appendInt] of the time package: at least [w]. *)
Fixpoint dec (w : nat) (x : Z) : bytes :=
  match w with
  | O => []
  | S w' => dec w' (x / 10) ++ [48 + x mod 10]
  end.

Fixpoint ndigits (fuel : nat) (x : Z) : nat :=
  match fuel with
  | O => 1
  | S f => if x <? 10 then 1 else S (ndigits f (x / 10))
  end.

Definition appendInt (x : Z) (w : nat) : bytes :=
  let d := dec (Nat.max w (ndigits (Z.to_nat (Z.log2 (Z.abs x))) (Z.abs x))) (Z.abs x) in
  if x <? 0 then 45 :: d else d.

(** [formatTimestamp(t.UTC())]. *)
Definition formatTimestamp (t : Z) : bytes :=
  let m := t / Minute in
  let n := m / 1440 in
  let y := year_of n in
  let '(month, day) := month_day (leap y) (n - days_before y) in
  appendInt (y + 1) 4 ++ appendInt month 2 ++ appendInt day 2 ++
  appendInt (m mod 1440 / 60) 2 ++ appendInt (m mod 60) 2.

(** ** Ordering *)

(** Linear arithmetic with division by constants. *)
#[local] Ltac Zify.zify_post_hook ::= Z.div_mod_to_equations.

Lemma year_of_spec n : 0 <= n → days_before (year_of n) <= n < days_before (year_of n + 1).
Proof.
  intros Hn. unfold year_of. set (y := n * 400 / 146097).
  assert (0 <= y) by (apply Z.div_pos; lia).
  assert (146097 * y <= n * 400 < 146097 * y + 146097) by (subst y; lia). clearbody y.
  destruct (Z.leb_spec (days_before (y + 1)) n); [|destruct (Z.ltb_spec n (days_before y))];
    unfold days_before in *; lia.
Qed.

Lemma days_before_mono y z : y <= z → days_before y <= days_before z.
Proof. unfold days_before. lia. Qed.

Lemma year_length y : days_before (y + 1) - days_before y = 365 + Z.b2z (leap y).
Proof. unfold leap. destruct (Z.eqb_spec (days_before (y + 1) - days_before y) 366); unfold days_before in *; cbn; lia. Qed.

Lemma year_of_mono n1 n2 : 0 <= n1 <= n2 → year_of n1 <= year_of n2.
Proof.
  intros Hn. pose proof (year_of_spec n1). pose proof (year_of_spec n2).
  destruct (Z.le_gt_cases (year_of n1) (year_of n2)) as [|Hgt]; [done|].
  pose proof (days_before_mono (year_of n2 + 1) (year_of n1)). lia.
Qed.

(** A date as a number that orders like the date. *)
Definition date_code (n : Z) : Z :=
  let y := year_of n in
  let '(month, day) := month_day (leap y) (n - days_before y) in
  (y + 1) * 10 ^ 4 + month * 10 ^ 2 + day.

Ltac month_cases :=
  repeat match goal with |- context [?a <? ?b] => destruct (Z.ltb_spec a b) end.

Lemma month_day_range lp d : 0 <= d < 365 + Z.b2z lp →
  1 <= (month_day lp d).1 <= 12 ∧ 1 <= (month_day lp d).2 <= 31.
Proof. intros Hd. unfold month_day. destruct lp; cbn [Z.b2z] in *; month_cases; cbn; lia. Qed.

Lemma month_day_mono lp d1 d2 : 0 <= d1 < d2 →
  d2 < 365 + Z.b2z lp →
  (month_day lp d1).1 * 10 ^ 2 + (month_day lp d1).2 < (month_day lp d2).1 * 10 ^ 2 + (month_day lp d2).2.
Proof.
  intros H1 H2. assert (∀ d, 0 <= d < 365 + Z.b2z lp →
    let '(m, k) := month_day lp d in
    (m * 10 ^ 2 + k < (month_day lp (d + 1)).1 * 10 ^ 2 + (month_day lp (d + 1)).2)) as Hstep.
  { intros d Hd. unfold month_day. destruct lp; cbn [Z.b2z] in *; month_cases; cbn; lia. }
  assert (∀ k : nat, d1 + 1 + Z.of_nat k < 365 + Z.b2z lp →
    (month_day lp d1).1 * 10 ^ 2 + (month_day lp d1).2 <
    (month_day lp (d1 + 1 + Z.of_nat k)).1 * 10 ^ 2 + (month_day lp (d1 + 1 + Z.of_nat k)).2) as Hk.
  { induction k as [|k IH]; intros Hk.
    - rewrite Z.add_0_r. specialize (Hstep d1). destruct (month_day lp d1). apply Hstep. lia.
    - etrans; [apply IH; lia|]. replace (d1 + 1 + Z.of_nat (S k)) with (d1 + 1 + Z.of_nat k + 1) by lia.
      specialize (Hstep (d1 + 1 + Z.of_nat k)). destruct (month_day lp (d1 + 1 + Z.of_nat k)). apply Hstep. lia. }
  specialize (Hk (Z.to_nat (d2 - d1 - 1))). rewrite Z2Nat.id in Hk by lia.
  replace (d1 + 1 + (d2 - d1 - 1)) with d2 in Hk by lia. apply Hk. lia.
Qed.

Lemma date_code_eq n : date_code n =
  (year_of n + 1) * 10 ^ 4 + ((month_day (leap (year_of n)) (n - days_before (year_of n))).1 * 10 ^ 2 +
  (month_day (leap (year_of n)) (n - days_before (year_of n))).2).
Proof. unfold date_code. destruct (month_day _ _). cbn [fst snd]. lia. Qed.

Lemma day_in_year n : 0 <= n → 0 <= n - days_before (year_of n) < 365 + Z.b2z (leap (year_of n)).
Proof. intros Hn. pose proof (year_of_spec n Hn). pose proof (year_length (year_of n)). lia. Qed.

Lemma date_code_mono n1 n2 : 0 <= n1 < n2 → date_code n1 < date_code n2.
Proof.
  intros Hn. rewrite !date_code_eq.
  pose proof (day_in_year n1 ltac:(lia)) as D1. pose proof (day_in_year n2 ltac:(lia)) as D2.
  pose proof (month_day_range _ _ D1). pose proof (month_day_range _ _ D2).
  destruct (Z.eq_dec (year_of n1) (year_of n2)) as [E|Hne].
  - rewrite E in *. pose proof (month_day_mono (leap (year_of n2)) (n1 - days_before (year_of n2)) (n2 - days_before (year_of n2))). lia.
  - pose proof (year_of_mono n1 n2). lia.
Qed.

Definition stamp_code (t : Z) : Z :=
  date_code (t / Minute / 1440) * 10 ^ 4 + (t / Minute mod 1440 / 60) * 10 ^ 2 + t / Minute mod 60.

Lemma stamp_code_mono t u : 0 <= t → t / Minute < u / Minute → stamp_code t < stamp_code u.
Proof.
  intros Ht Hlt. unfold stamp_code.
  assert (0 <= t / Minute) by (apply Z.div_pos; [done|]; unfold Minute, Second; lia).
  generalize dependent (t / Minute). generalize dependent (u / Minute). intros b a Hab Ha. clear Ht t u.
  pose proof (date_code_mono (a / 1440) (b / 1440)).
  assert (a / 1440 < b / 1440 ∨ a / 1440 = b / 1440 ∧ a mod 1440 < b mod 1440) as [|[E ?]] by lia; [lia|].
  rewrite E. assert (a mod 60 = a mod 1440 mod 60) as -> by lia. assert (b mod 60 = b mod 1440 mod 60) as -> by lia.
  lia.
Qed.

(** *** Digits *)

Lemma length_dec w x : length (dec w x) = w.
Proof. revert x. induction w as [|w IH]; intros x; [done|]. cbn. rewrite length_app, IH. cbn. lia. Qed.

Lemma dec_app v : ∀ w x y, 0 <= y < 10 ^ Z.of_nat v → dec (w + v) (x * 10 ^ Z.of_nat v + y) = dec w x ++ dec v y.
Proof.
  induction v as [|v IH]; intros w x y Hy.
  - rewrite Nat.add_0_r, app_nil_r. f_equal. cbn in *. lia.
  - rewrite Nat.add_succ_r. cbn [dec]. rewrite Nat2Z.inj_succ, Z.pow_succ_r in * by lia.
    rewrite app_assoc, <- IH by lia. do 2 f_equal; [f_equal|]; lia.
Qed.

Lemma dec_mono w x y : 0 <= x < y → y < 10 ^ Z.of_nat w → bytes_lt (dec w x) (dec w y).
Proof.
  revert x y. induction w as [|w IH]; intros x y Hxy Hy; [cbn in Hy; lia|].
  cbn [dec]. rewrite Nat2Z.inj_succ, Z.pow_succ_r in Hy by lia.
  destruct (Z.eq_dec (x / 10) (y / 10)) as [E|Hne].
  - rewrite E. unfold bytes_lt. rewrite bytes_cmp_app. cbn [bytes_cmp].
    assert ((48 + x mod 10 ?= 48 + y mod 10) = Lt) as ->; [|done]. apply Z.compare_lt_iff. lia.
  - apply bytes_lt_head; [by rewrite !length_dec|]. apply IH; lia.
Qed.

Lemma ndigits_le w : ∀ fuel x, 0 <= x < 10 ^ Z.of_nat (S w) → (ndigits fuel x <= S w)%nat.
Proof.
  induction w as [|w IH]; intros [|f] x Hx; cbn [ndigits]; [lia| |lia|];
    destruct (Z.ltb_spec x 10); try lia.
  - apply le_n_S, IH. rewrite Nat2Z.inj_succ, Z.pow_succ_r in Hx by lia. lia.
Qed.

Lemma appendInt_dec x w : 0 <= x < 10 ^ Z.of_nat (S w) → appendInt x (S w) = dec (S w) x.
Proof.
  intros Hx. unfold appendInt. destruct (Z.ltb_spec x 0); [lia|]. rewrite Z.abs_eq by lia.
  rewrite Nat.max_l; [done|]. by apply ndigits_le.
Qed.

Lemma year_limit n : 0 <= n < 3652059 → 0 <= year_of n < 9999.
Proof. intros Hn. pose proof (year_of_spec n). unfold days_before in *. lia. Qed.

Lemma stamp_day t : time_ok t → 0 <= t / Minute / 1440 < 3652059.
Proof.
  unfold time_ok, time_limit. intros Ht.
  assert (t / Minute / 1440 = t / (24 * Hour)) as ->.
  { rewrite Z.div_div by (unfold Minute, Second; lia). reflexivity. }
  assert (0 < 24 * Hour) by (unfold Hour, Minute, Second; lia).
  split; [apply Z.div_pos; lia|]. apply Z.div_lt_upper_bound; lia.
Qed.

Lemma format_stamp t : time_ok t → formatTimestamp t = dec 12 (stamp_code t) ∧ 0 <= stamp_code t < 10 ^ 12.
Proof.
  intros Ht. pose proof (stamp_day t Ht) as Hn. unfold formatTimestamp, stamp_code, date_code.
  set (n := t / Minute / 1440) in *. set (m := t / Minute) in *.
  pose proof (year_limit n Hn). pose proof (month_day_range _ _ (day_in_year n ltac:(lia))) as Hmd.
  destruct (month_day _ _) as [mo d]. cbn [fst snd] in Hmd.
  assert (0 <= m mod 1440 / 60 < 24) by lia. assert (0 <= m mod 60 < 60) by lia.
  rewrite !appendInt_dec by (cbn; lia). split; [|lia].
  rewrite <- (dec_app 2 2), <- (dec_app 4 2), <- (dec_app 6 2), <- (dec_app 8 4) by (cbn; lia).
  f_equal. cbn. lia.
Qed.

Lemma length_formatTimestamp t : time_ok t → length (formatTimestamp t) = 12%nat.
Proof. intros Ht. rewrite (proj1 (format_stamp t Ht)). apply length_dec. Qed.

Lemma formatTimestamp_lt t u : time_ok t → time_ok u →
  bytes_lt (formatTimestamp t) (formatTimestamp u) ↔ t / Minute < u / Minute.
Proof.
  intros Ht Hu. destruct (format_stamp t Ht) as [-> Bt]. destruct (format_stamp u Hu) as [-> Bu].
  split; intros Hlt.
  - destruct (Z.lt_trichotomy (t / Minute) (u / Minute)) as [|[E|Hgt]]; [done| |].
    + unfold stamp_code in Hlt. rewrite E in Hlt. by apply bytes_lt_irrefl in Hlt.
    + exfalso. eapply bytes_lt_asym; [exact Hlt|]. apply dec_mono; [|exact (proj2 Bt)].
      destruct Hu. pose proof (stamp_code_mono u t). lia.
  - apply dec_mono; [|exact (proj2 Bu)]. destruct Ht. pose proof (stamp_code_mono t u). lia.
Qed.

(** 29 February 2024, 12:34 UTC; 31 December 1999, 23:59 UTC. *)
Example stamp_leap_day :
  formatTimestamp ((738944 * 1440 + 12 * 60 + 34) * Minute) = [50; 48; 50; 52; 48; 50; 50; 57; 49; 50; 51; 52].
Proof. reflexivity. Qed.
Example stamp_century :
  formatTimestamp (730118 * 1440 * Minute + 1439 * Minute + 59 * Second) = [49; 57; 57; 57; 49; 50; 51; 49; 50; 51; 53; 57].
Proof. reflexivity. Qed.
