(* ===== verification/ShardStore.v ===== *)
(** * The shard store

    [fibre/store.go]: shard payloads are flat files named after the commitment
    and the promise hash; the database holds the promise, a marker per shard and
    an index by prune time. [Put] stages a file, renames it into place and then
    commits the three keys; [PruneBefore] walks the index in time order. Every
    call of the file system and of the database may fail. *)

From S2P Require Import Prelude Sdk FibrePromise FibreCache FibreBlobId Disk ShardCodec Timestamp.
From Stdlib Require Import Ascii.
#[local] Open Scope Z_scope.

(** The bytes of a string literal. *)
Definition str (s : string) : bytes := map (λ c, Z.of_nat (nat_of_ascii c)) (String.list_ascii_of_string s).

(** [strings.Split(s, "/")]. *)
Fixpoint split_slash (s : bytes) : list bytes :=
  match s with
  | [] => [[]]
  | c :: s' =>
      if c =? slash then [] :: split_slash s'
      else match split_slash s' with
           | part :: parts => (c :: part) :: parts
           | [] => [[c]]
           end
  end.

(** [gogoproto.Marshal] and [gogoproto.Unmarshal] of a promise. *)
Class PromiseCodec := {
  Marshal : PromiseProto → result bytes;
  Unmarshal : bytes → result PromiseProto;
}.

(** Marshaling returns and a marshaled promise is read back. *)
Class PromiseCodecLaws `{PromiseCodec} := {
  Marshal_returns pb : no_panic (Marshal pb);
  Unmarshal_returns b : no_panic (Unmarshal b);
  Unmarshal_Marshal pb b : Marshal pb = Ok b → Unmarshal b = Ok pb;
}.

(** ** Keys *)

Definition promiseKey (promiseHash : bytes) : bytes := str "/pp/" ++ hex_EncodeToString promiseHash.

Definition shard_prefix (commitment : bytes) : bytes := str "/shard/" ++ Commitment_String commitment ++ str "/".

Definition shardKey (commitment promiseHash : bytes) : bytes :=
  shard_prefix commitment ++ hex_EncodeToString promiseHash.

Definition prune_prefix : bytes := str "/prune/".

Definition pruneKey (pruneAt : Z) (commitment promiseHash : bytes) : bytes :=
  prune_prefix ++ formatTimestamp pruneAt ++ str "/" ++ Commitment_String commitment ++ str "/" ++
  hex_EncodeToString promiseHash.

#[global] Arguments str : simpl never.
#[global] Arguments promiseKey : simpl never.
#[global] Arguments shard_prefix : simpl never.
#[global] Arguments shardKey : simpl never.
#[global] Arguments prune_prefix : simpl never.
#[global] Arguments pruneKey : simpl never.

(** The loop runs backwards over the bytes, here forwards over the reversed
    list. *)
Fixpoint bump (r : bytes) : option bytes :=
  match r with
  | [] => None
  | b :: r' =>
      let b' := (b + 1) mod 256 in
      if negb (b' =? 0) then Some (b' :: r') else cons b' <$> bump r'
  end.

Definition prefixUpperBound (prefix : bytes) : option bytes := reverse <$> bump (reverse prefix).

Definition parsePruneKey (key : bytes) : option (bytes * bytes) :=
  match split_slash key with
  | [_; _; _; p3; p4] =>
      match CommitmentFromString p3 with
      | Ok commitment =>
          match hex_DecodeString p4 with
          | Some promiseHash => Some (commitment, promiseHash)
          | None => None
          end
      | _ => None
      end
  | _ => None
  end.

(** [errors.Join]. *)
Definition errors_Join (e1 : option error) (e2 : error) : option error :=
  match e1 with None => Some e2 | Some e1 => Some (String.append e1 (String.String "010"%char e2)) end.

(** ** Configuration *)

Record StoreConfig := mkStoreConfig { cfg_Path : bytes }.

Definition StoreConfig_Validate (cfg : StoreConfig) : result unit :=
  ensure (negb (length (cfg_Path cfg) =? 0)%nat) "store path is required".

Section Store.
Context `{CR : Crypto} `{PC : PromiseCodec} {W : Type} `{FS : !Vfs W} `{DB : !Pebble W}.
Context (cfg : StoreConfig).

Definition shardsDir : bytes := Join (cfg_Path cfg) (str "shards").
Definition stagingDir : bytes := Join (cfg_Path cfg) (str "staging").

Definition shard_name (commit promiseHash : bytes) : bytes :=
  Commitment_String commit ++ str "-" ++ hex_EncodeToString promiseHash.

Definition shardFilePath (commit promiseHash : bytes) : bytes := Join shardsDir (shard_name commit promiseHash).

(** A deferred or best-effort call whose error is dropped. *)
Definition ignore {A} (m : IO W A) : IO W unit := _ ← attempt m; mret tt.

(** [fmt.Errorf("...: %w", err)]: the outer message. *)
Definition wrap_err {A} (msg : error) (m : IO W A) : IO W A :=
  r ← attempt m; match r with inl _ => pure (Err msg) | inr a => mret a end.

(** ** Buffered writing

    [bufio.Writer] of 1 MiB over the file [path]: a write that does not fit
    fills and flushes the buffer, and what is left after that is buffered, or
    written through when it is larger than the buffer. *)

Definition bufio_size : nat := Pos.to_nat (2 ^ 20).

Definition file_Write (path b : bytes) : IO (bytes * W) unit := λ '(buf, w),
  let '(r, w') := io_unit (vfs_Write path b) w in (r, (buf, w')).

Definition set_buffer (b : bytes) : IO (bytes * W) unit := λ '(_, w), (Ok tt, (b, w)).

Definition bufio_rest (path p : bytes) : IO (bytes * W) unit :=
  if (length p <=? bufio_size)%nat then set_buffer p else file_Write path p.

Definition bufio_Write (path p : bytes) : IO (bytes * W) unit := λ '(buf, w),
  if (length p <=? bufio_size - length buf)%nat then (Ok tt, (buf ++ p, w))
  else match buf with
       | [] => file_Write path p (buf, w)
       | _ =>
           let room := (bufio_size - length buf)%nat in
           (_ ← file_Write path (buf ++ take room p);
            _ ← set_buffer [];
            bufio_rest path (drop room p)) (buf, w)
       end.

(** [Flush] of an empty buffer does nothing. *)
Definition bufio_Flush (path : bytes) : IO (bytes * W) unit := λ '(buf, w),
  match buf with
  | [] => (Ok tt, (buf, w))
  | _ => (_ ← file_Write path buf; set_buffer []) (buf, w)
  end.

Definition buffered {A} (m : IO (bytes * W) A) : IO W A := λ w,
  let '(r, (_, w')) := m ([], w) in (r, w').

(** ** Put *)

(** [rand.Read] is a reading of the call. The writer of the file lives until
    the flush, so writing and flushing are one buffered block. *)
Definition writeTmpShard (rnd : error + bytes) (shard : BlobShard) : IO W bytes :=
  match rnd with
  | inl _ => pure (Err "generating tmp name")
  | inr name =>
      let tmp := Join stagingDir (hex_EncodeToString name) in
      _ ← wrap_err "creating tmp shard file" (io_unit (vfs_Create tmp));
      wrote ← attempt (buffered (_ ← writeShardBinary (bufio_Write tmp) shard; bufio_Flush tmp));
      match wrote with
      | inl err =>
          _ ← ignore (io_unit (vfs_Close tmp));
          _ ← ignore (io_unit (vfs_Remove tmp));
          pure (Err err)
      | inr _ =>
          closed ← attempt (io_unit (vfs_Close tmp));
          match closed with
          | inl err => _ ← ignore (io_unit (vfs_Remove tmp)); pure (Err err)
          | inr _ => mret tmp
          end
      end
  end.

Definition hasShardMarker (commit promiseHash : bytes) : IO W bool :=
  r ← attempt (io_sum (db_Get (shardKey commit promiseHash)));
  mret (match r with inr (Some _) => true | _ => false end).

(** [ctx.Err()] at the last safe point is a reading of the call. *)
Definition commitAndPublish (ctxErr : option error) (promise : PaymentPromise) (promiseHash tmp : bytes) (pruneAt : Z)
  : IO W unit :=
  promiseProto ← wrap_err "converting payment promise to proto" (pure (ToProto promise));
  ppData ← wrap_err "marshaling payment promise" (pure (Marshal promiseProto));
  let commitment := Commitment promise in
  let set_pp := BSet (promiseKey promiseHash) ppData in
  let set_marker := BSet (shardKey commitment promiseHash) [] in
  let set_prune := BSet (pruneKey pruneAt commitment promiseHash) [] in
  _ ← wrap_err "putting payment promise" (io_unit (db_Batch set_pp));
  _ ← wrap_err "putting shard marker" (io_unit (db_Batch set_marker));
  _ ← wrap_err "putting prune index" (io_unit (db_Batch set_prune));
  match ctxErr with
  | Some _ => pure (Err "aborting store commit")
  | None =>
      let shardPath := shardFilePath commitment promiseHash in
      _ ← wrap_err "renaming shard tmp to final" (io_unit (vfs_Rename tmp shardPath));
      committed ← attempt (io_unit (db_Commit [set_pp; set_marker; set_prune]));
      match committed with
      | inr _ => mret tt
      | inl _ =>
          marker ← hasShardMarker commitment promiseHash;
          _ ← (if negb marker then ignore (io_unit (vfs_Remove shardPath)) else mret tt);
          pure (Err "committing metadata")
      end
  end.

(** What a call of [Put] reads from its surroundings: the state of the context
    at its two checks, and the random name. *)
Record PutEnv := mkPutEnv { pe_ctx1 : option error; pe_ctx2 : option error; pe_rnd : error + bytes }.

Definition Put (env : PutEnv) (promise : PaymentPromise) (shard : BlobShard) (pruneAt : Z) : IO W unit :=
  match pe_ctx1 env with
  | Some _ => pure (Err "aborting store put")
  | None =>
      promiseHash ← wrap_err "getting promise hash" (pure (Hash promise));
      tmp ← wrap_err "writing shard tmp" (writeTmpShard (pe_rnd env) shard);
      r ← attempt (commitAndPublish (pe_ctx2 env) promise promiseHash tmp pruneAt);
      match r with
      | inl err => _ ← ignore (io_unit (vfs_Remove tmp)); pure (Err err)
      | inr _ => mret tt
      end
  end.

(** ** Lookups *)

Fixpoint get_loop (commitment : bytes) (prefix : bytes) (l : list (bytes * bytes)) (rerr : option error)
  : IO W (option BlobShard * option error) :=
  match l with
  | [] => mret (None, rerr)
  | (key, _) :: l' =>
      match hex_DecodeString (drop (length prefix) key) with
      | None => get_loop commitment prefix l' (errors_Join rerr "decoding promise hash from shard key")
      | Some promiseHash =>
          r ← readShardFile (shardFilePath commitment promiseHash);
          match r with
          | inr shard => mret (Some shard, rerr)
          | inl NotFound =>
              _ ← ignore (io_unit (db_Delete (shardKey commitment promiseHash)));
              get_loop commitment prefix l' rerr
          | inl (ReadFailed _) => get_loop commitment prefix l' (errors_Join rerr "reading shard file")
          end
      end
  end.

(** The sentinel of [Get]. *)
Definition ErrStoreNotFound : error := "no shard found in store".

Definition Get (commitment : bytes) : IO W BlobShard :=
  let prefix := shard_prefix commitment in
  '(l, iterErr) ← wrap_err "creating iterator" (io_sum (db_Iter prefix (prefixUpperBound prefix)));
  '(found, rerr) ← get_loop commitment prefix l None;
  match found, iterErr, rerr with
  | Some shard, _, _ => mret shard
  | None, Some _, _ => pure (Err "iterating shards")
  | None, None, Some err => pure (Err err)
  | None, None, None => pure (Err ErrStoreNotFound)
  end.

Definition Has (commitment promiseHash : bytes) : IO W bool :=
  marker ← wrap_err "checking if shard exists failed" (io_sum (db_Get (shardKey commitment promiseHash)));
  match marker with
  | None => mret false
  | Some _ =>
      r ← attempt (io_sum (vfs_Stat (shardFilePath commitment promiseHash)));
      match r with
      | inl err => if String.eqb err ErrNotExist then mret false else pure (Err "stat shard file")
      | inr _ => mret true
      end
  end.

(** [ctxErr] is the reading of [ctx.Err()] for each file; the value [err] the
    source returns there is the nil error of the stat. *)
Fixpoint size_loop (ctxErr : bytes → option error) (names : list bytes) (totalSize : Z) : IO W Z :=
  match names with
  | [] => mret totalSize
  | name :: names' =>
      r ← attempt (io_sum (vfs_Stat (Join shardsDir name)));
      match r with
      | inl err =>
          if String.eqb err ErrNotExist then size_loop ctxErr names' totalSize
          else pure (Err "stat shard file")
      | inr size =>
          match ctxErr name with
          | Some _ => mret 0
          | None => size_loop ctxErr names' (wrap_i64 (totalSize + size))
          end
      end
  end.

Definition Size (ctxErr : bytes → option error) : IO W Z :=
  names ← wrap_err "accessing shards dir" (io_sum (vfs_List shardsDir));
  size_loop ctxErr names 0.

Definition DiskAvailable : IO W Z :=
  avail ← wrap_err "getting disk usage" (io_sum (vfs_AvailBytes (cfg_Path cfg)));
  mret (wrap_i64 avail).

Definition GetPaymentPromise (promiseHash : bytes) : IO W PaymentPromise :=
  data ← wrap_err "getting payment promise" (io_sum (db_Get (promiseKey promiseHash)));
  match data with
  | None => pure (Err "getting payment promise")
  | Some data =>
      ppProto ← wrap_err "unmarshaling payment promise" (pure (Unmarshal data));
      wrap_err "converting from proto" (pure (FromProto (Some ppProto)))
  end.

(** ** Pruning *)

Record PruneResult := mkPruneResult { pr_pruned : Z; pr_bytes : Z; pr_err : option error }.

Definition commit_prune (batch : list BatchOp) (pruned prunedBytes : Z) : IO W PruneResult :=
  r ← attempt (io_unit (db_Commit batch));
  mret (mkPruneResult pruned prunedBytes (match r with inl _ => Some "committing batch" | inr _ => None end)).

(** The size of the file of an entry, 0 when it is missing. *)
Definition prune_stat (path : bytes) : IO W (option Z) :=
  r ← attempt (io_sum (vfs_Stat path));
  mret (match r with
        | inr size => Some size
        | inl err => if String.eqb err ErrNotExist then Some 0 else None
        end).

Definition prune_remove (path : bytes) : IO W bool :=
  r ← attempt (io_unit (vfs_Remove path));
  mret (match r with inr _ => true | inl err => String.eqb err ErrNotExist end).

(** Add the deletions of an entry to the batch, or report the first that
    fails. *)
Fixpoint batch_all (ops : list (BatchOp * error)) : IO W (option error) :=
  match ops with
  | [] => mret None
  | (op, msg) :: ops' =>
      r ← attempt (io_unit (db_Batch op));
      match r with inl _ => mret (Some msg) | inr _ => batch_all ops' end
  end.

Definition prune_deletes (key commitment promiseHash : bytes) : list (BatchOp * error) :=
  [(BDelete key, "deleting prune index");
   (BDelete (shardKey commitment promiseHash), "deleting shard marker"%string);
   (BDelete (promiseKey promiseHash), "deleting payment promise"%string)].

(** [iterErr] is the error the iterator stopped at, seen only when the loop
    reaches it. *)
Fixpoint prune_loop (iterErr : option error) (beforeStr : bytes) (l : list (bytes * bytes))
    (batch : list BatchOp) (pruned prunedBytes : Z) : IO W PruneResult :=
  match l with
  | [] =>
      match iterErr with
      | Some _ => mret (mkPruneResult pruned prunedBytes (Some "iterating prune index"))
      | None => commit_prune batch pruned prunedBytes
      end
  | (key, _) :: l' =>
      if (length key <? 19)%nat then pure (Panic "slice bounds out of range")
      else if bool_decide (bytes_le beforeStr (take 12 (drop 7 key)))
      then commit_prune batch pruned prunedBytes
      else match parsePruneKey key with
           | None => prune_loop iterErr beforeStr l' batch pruned prunedBytes
           | Some (commitment, promiseHash) =>
               let path := shardFilePath commitment promiseHash in
               size ← prune_stat path;
               match size with
               | None => mret (mkPruneResult pruned prunedBytes (Some "getting shard file stats"))
               | Some size =>
                   removed ← prune_remove path;
                   if negb removed then mret (mkPruneResult pruned prunedBytes (Some "removing shard file"))
                   else
                     failed ← batch_all (prune_deletes key commitment promiseHash);
                     match failed with
                     | Some msg => mret (mkPruneResult pruned prunedBytes (Some msg))
                     | None =>
                         prune_loop iterErr beforeStr l'
                           (batch ++ map fst (prune_deletes key commitment promiseHash))
                           (wrap_i64 (pruned + 1)) (wrap_i64 (prunedBytes + size))
                     end
               end
           end
  end.

Definition PruneBefore (before : Z) : IO W PruneResult :=
  r ← attempt (io_sum (db_Iter prune_prefix (prefixUpperBound prune_prefix)));
  match r with
  | inl _ => mret (mkPruneResult 0 0 (Some "creating iterator"))
  | inr (l, iterErr) => prune_loop iterErr (formatTimestamp before) l [] 0 0
  end.

(** ** Opening *)

Definition resetStaging : IO W Z :=
  entries ← attempt (io_sum (vfs_List stagingDir));
  match entries with
  | inl err =>
      if negb (String.eqb err ErrNotExist) then pure (Err "reading staging")
      else _ ← wrap_err "removing staging" (io_unit (vfs_RemoveAll stagingDir));
           _ ← wrap_err "recreating staging" (io_unit (vfs_MkdirAll stagingDir));
           mret 0
  | inr entries =>
      _ ← wrap_err "removing staging" (io_unit (vfs_RemoveAll stagingDir));
      _ ← wrap_err "recreating staging" (io_unit (vfs_MkdirAll stagingDir));
      mret (Z.of_nat (length entries))
  end.

Definition reconcile : IO W unit := _ ← resetStaging; mret tt.

(** [pebble.Open] and the closing of the database after a failed reconcile are
    calls of the database that keep its contents: they are the reading
    [opened]. *)
Definition openStore (opened : option error) : IO W unit :=
  _ ← wrap_err "validating store config" (pure (StoreConfig_Validate cfg));
  _ ← wrap_err "creating shards directory" (io_unit (vfs_MkdirAll shardsDir));
  _ ← wrap_err "creating staging directory" (io_unit (vfs_MkdirAll stagingDir));
  match opened with
  | Some _ => pure (Err "opening pebble database")
  | None => wrap_err "reconciling store" reconcile
  end.
End Store.
