(* ===== verification/ShardStoreKeys.v ===== *)
(** * Keys and paths of the shard store

    The keys of [ShardStore] determine what they were built from, the families
    do not overlap, prefix scans see exactly the keys of their prefix, and the
    prune index is ordered by time. *)

From S2P Require Import Prelude Sdk FibrePromise FibreCache FibreBlobId Disk ShardCodec Timestamp ShardStore.
#[local] Open Scope Z_scope.

(** ** Hexadecimal strings *)

Lemma length_hex b : length (hex_EncodeToString b) = (2 * length b)%nat.
Proof.
  unfold hex_EncodeToString. induction b as [|x b IH]; [done|]. cbn [map concat]. rewrite length_app, IH. cbn. lia.
Qed.

Lemma hex_inj a b : Forall byte_ok a → Forall byte_ok b → hex_EncodeToString a = hex_EncodeToString b → a = b.
Proof. intros Ha Hb E. apply (f_equal hex_DecodeString) in E. rewrite !hex_roundtrip in E by done. congruence. Qed.

Lemma hex_digit_range n : 0 <= n < 16 → 48 <= hex_digit n <= 102.
Proof. unfold hex_digit. destruct (Z.ltb_spec n 10); lia. Qed.

Lemma hex_no_slash b : Forall byte_ok b → slash ∉ hex_EncodeToString b.
Proof.
  unfold hex_EncodeToString, slash. induction 1 as [|x b Hx _ IH]; cbn [map concat]; [set_solver|].
  unfold byte_ok in Hx. pose proof (hex_digit_range (x / 16)). pose proof (hex_digit_range (x mod 16)).
  rewrite elem_of_app. intros [Hin|Hin]; [|contradiction].
  apply elem_of_cons in Hin as [E|Hin]; [|apply elem_of_cons in Hin as [E|Hin]; [|set_solver]].
  - pose proof (Z.div_lt_upper_bound x 16 16). pose proof (Z.div_pos x 16). lia.
  - pose proof (Z.mod_pos_bound x 16). lia.
Qed.

(** ** Digits *)

Lemma dec_range w x c : c ∈ dec w x → 48 <= c < 58.
Proof.
  revert x. induction w as [|w IH]; intros x; cbn; [set_solver|].
  rewrite elem_of_app, list_elem_of_singleton. intros [Hin| ->]; [eauto|].
  pose proof (Z.mod_pos_bound x 10). lia.
Qed.

Lemma stamp_no_slash t : time_ok t → slash ∉ formatTimestamp t.
Proof. intros Ht Hin. rewrite (proj1 (format_stamp t Ht)) in Hin. apply dec_range in Hin. unfold slash in Hin. lia. Qed.

(** ** Well-formed identifiers *)

(** A commitment of 32 bytes and a promise hash. *)
Record id_ok (c h : bytes) : Prop := {
  id_commitment : length c = CommitmentSize;
  id_commitment_bytes : Forall byte_ok c;
  id_hash_bytes : Forall byte_ok h;
}.

Lemma app_inj_len {A} (a b c d : list A) : length a = length c → a ++ b = c ++ d → a = c ∧ b = d.
Proof. intros Hl E. by apply app_inj_1. Qed.

(** Two identifiers rendered around a separator. *)
Lemma ids_inj sep c h c' h' : id_ok c h → id_ok c' h' →
  Commitment_String c ++ sep ++ hex_EncodeToString h = Commitment_String c' ++ sep ++ hex_EncodeToString h' →
  c = c' ∧ h = h'.
Proof.
  intros [L1 C1 H1] [L2 C2 H2] E. unfold Commitment_String in E.
  apply app_inj_len in E as [E1 E2]; [|by rewrite !length_hex, L1, L2].
  apply app_inv_head in E2. split; by apply hex_inj.
Qed.

Lemma shardFilePath_inj cfg c h c' h' : id_ok c h → id_ok c' h' →
  shardFilePath cfg c h = shardFilePath cfg c' h' → c = c' ∧ h = h'.
Proof.
  intros Hi Hi' E. unfold shardFilePath, Join in E. apply app_inv_head in E. injection E as E. by apply ids_inj in E.
Qed.

Lemma shardKey_inj c h c' h' : id_ok c h → id_ok c' h' → shardKey c h = shardKey c' h' → c = c' ∧ h = h'.
Proof.
  intros Hi Hi' E. unfold shardKey, shard_prefix in E. rewrite <- !app_assoc in E.
  apply app_inv_head in E. by apply ids_inj in E.
Qed.

Lemma promiseKey_inj h h' : Forall byte_ok h → Forall byte_ok h' → promiseKey h = promiseKey h' → h = h'.
Proof. intros Hh Hh' E. unfold promiseKey in E. apply app_inv_head in E. by apply hex_inj. Qed.

(** The families of keys differ in their second or third byte. *)
Lemma promiseKey_not_shardKey h c h' : promiseKey h ≠ shardKey c h'.
Proof. unfold promiseKey, shardKey, shard_prefix. cbn. discriminate. Qed.

Lemma promiseKey_not_pruneKey h t c h' : promiseKey h ≠ pruneKey t c h'.
Proof. unfold promiseKey, pruneKey, prune_prefix. cbn. discriminate. Qed.

Lemma shardKey_not_pruneKey c h t c' h' : shardKey c h ≠ pruneKey t c' h'.
Proof. unfold shardKey, shard_prefix, pruneKey, prune_prefix. cbn. discriminate. Qed.

Lemma prune_prefix_not_promise h : ¬ prune_prefix `prefix_of` promiseKey h.
Proof. intros [k E]. unfold promiseKey, prune_prefix in E. cbn in E. discriminate. Qed.

Lemma prune_prefix_not_shard c h : ¬ prune_prefix `prefix_of` shardKey c h.
Proof. intros [k E]. unfold shardKey, shard_prefix, prune_prefix in E. cbn in E. discriminate. Qed.

Lemma pruneKey_prefix t c h : prune_prefix `prefix_of` pruneKey t c h.
Proof. unfold pruneKey. by eexists. Qed.

Lemma shardKey_prefix c h : shard_prefix c `prefix_of` shardKey c h.
Proof. unfold shardKey. by eexists. Qed.

Lemma shard_prefix_not_promise c h : ¬ shard_prefix c `prefix_of` promiseKey h.
Proof. intros [k E]. unfold promiseKey, shard_prefix in E. cbn in E. discriminate. Qed.

Lemma shard_prefix_not_prune c t c' h : ¬ shard_prefix c `prefix_of` pruneKey t c' h.
Proof. intros [k E]. unfold pruneKey, prune_prefix, shard_prefix in E. cbn in E. discriminate. Qed.

(** A marker under the prefix of a commitment belongs to it. *)
Lemma shard_prefix_inv c c' h' : length c = CommitmentSize → Forall byte_ok c → id_ok c' h' →
  shard_prefix c `prefix_of` shardKey c' h' → c = c'.
Proof.
  intros L C [L' C' _] [k E]. unfold shardKey, shard_prefix, Commitment_String in E. rewrite <- !app_assoc in E.
  apply app_inv_head in E. apply app_inj_len in E as [E _]; [|by rewrite !length_hex, L, L']. by apply hex_inj.
Qed.

Lemma pruneKey_stamp t c h : time_ok t → take 12 (drop 7 (pruneKey t c h)) = formatTimestamp t.
Proof.
  intros Ht. unfold pruneKey, prune_prefix. change (str "/prune/") with [47; 112; 114; 117; 110; 101; 47].
  cbn [app drop]. rewrite <- (length_formatTimestamp t Ht). apply take_app_length.
Qed.

Lemma pruneKey_length t c h : time_ok t → (19 <= length (pruneKey t c h))%nat.
Proof.
  intros Ht. unfold pruneKey, prune_prefix. rewrite !length_app, length_formatTimestamp by done.
  change (length (str "/prune/")) with 7%nat. lia.
Qed.

(** ** Parsing the prune index *)

Lemma split_slash_one a : slash ∉ a → split_slash a = [a].
Proof.
  induction a as [|x a IH]; intros Ha; [done|]. cbn. apply not_elem_of_cons in Ha as [Hx Ha].
  destruct (Z.eqb_spec x slash); [done|]. by rewrite IH.
Qed.

Lemma split_slash_app a b : slash ∉ a → split_slash (a ++ slash :: b) = a :: split_slash b.
Proof.
  induction a as [|x a IH]; intros Ha; cbn; [done|]. apply not_elem_of_cons in Ha as [Hx Ha].
  destruct (Z.eqb_spec x slash); [done|]. by rewrite IH.
Qed.

Lemma prune_no_slash : slash ∉ str "prune".
Proof.
  change (slash ∉ [112; 114; 117; 110; 101]). rewrite !not_elem_of_cons. unfold slash.
  repeat split; try lia. apply not_elem_of_nil.
Qed.

Lemma split_pruneKey t c h : time_ok t → id_ok c h →
  split_slash (pruneKey t c h) = [[]; str "prune"; formatTimestamp t; Commitment_String c; hex_EncodeToString h].
Proof.
  intros Ht [_ C H].
  change (pruneKey t c h) with ([] ++ slash :: (str "prune" ++ slash :: (formatTimestamp t ++ slash ::
    (Commitment_String c ++ slash :: hex_EncodeToString h)))).
  rewrite split_slash_app by set_solver. rewrite split_slash_app by apply prune_no_slash.
  rewrite split_slash_app by by apply stamp_no_slash. rewrite split_slash_app by by apply hex_no_slash.
  by rewrite split_slash_one by by apply hex_no_slash.
Qed.

Lemma parse_pruneKey t c h : time_ok t → id_ok c h → parsePruneKey (pruneKey t c h) = Some (c, h).
Proof.
  intros Ht Hi. unfold parsePruneKey. rewrite split_pruneKey by done. destruct Hi as [L C H].
  unfold CommitmentFromString, Commitment_String. rewrite hex_roundtrip by done. cbn [of_option mbind result_bind].
  rewrite L, Nat.eqb_refl. cbn [ensure mbind result_bind]. by rewrite copy_exact, hex_roundtrip.
Qed.

Lemma pruneKey_inj t c h t' c' h' : time_ok t → id_ok c h → time_ok t' → id_ok c' h' →
  pruneKey t c h = pruneKey t' c' h' → c = c' ∧ h = h'.
Proof.
  intros Ht Hi Ht' Hi' E. pose proof (parse_pruneKey t c h Ht Hi) as P. rewrite E, parse_pruneKey in P by done.
  by injection P.
Qed.

(** ** Prefix scans *)

Lemma prefixUpperBound_last p b : 0 <= b < 255 → prefixUpperBound (p ++ [b]) = Some (p ++ [b + 1]).
Proof.
  intros Hb. unfold prefixUpperBound. rewrite reverse_snoc. cbn [bump]. rewrite Z.mod_small by lia.
  destruct (Z.eqb_spec (b + 1) 0); [lia|]. cbn [negb fmap option_fmap option_map]. by rewrite reverse_cons, reverse_involutive.
Qed.

Lemma in_prefix_range p b k : 0 <= b < 255 →
  in_range (p ++ [b]) (prefixUpperBound (p ++ [b])) k ↔ (p ++ [b]) `prefix_of` k.
Proof.
  intros Hb. rewrite prefixUpperBound_last by done. unfold in_range. cbn [from_option]. split.
  - revert k. induction p as [|x p IH]; intros k [Hle Hlt].
    + destruct k as [|y k]; [unfold bytes_le in Hle; by cbn in Hle|].
      unfold bytes_le, bytes_lt in *. cbn in Hle, Hlt.
      destruct (Z.compare_spec b y), (Z.compare_spec y (b + 1)); try lia; subst; try by exists k.
      all: try done; destruct k; done || lia.
    + destruct k as [|y k]; [unfold bytes_le in Hle; by cbn in Hle|].
      unfold bytes_le, bytes_lt in *. cbn in Hle, Hlt.
      destruct (Z.compare_spec x y), (Z.compare_spec y x); try lia; subst; try done.
      cbn. apply prefix_cons. by apply IH.
  - intros [s ->]. rewrite <- app_assoc. split.
    + unfold bytes_le. rewrite <- (app_nil_r (p ++ [b])), <- app_assoc, bytes_cmp_app. cbn.
      rewrite Z.compare_refl. by destruct s.
    + unfold bytes_lt. rewrite bytes_cmp_app. cbn. assert ((b ?= b + 1) = Lt) as ->; [|done].
      apply Z.compare_lt_iff. lia.
Qed.

(** The two prefixes of the store end with a slash. *)
Lemma scan_prune k : in_range prune_prefix (prefixUpperBound prune_prefix) k ↔ prune_prefix `prefix_of` k.
Proof. change prune_prefix with ([47; 112; 114; 117; 110; 101] ++ [47]). apply in_prefix_range. lia. Qed.

Lemma scan_shard c k :
  in_range (shard_prefix c) (prefixUpperBound (shard_prefix c)) k ↔ shard_prefix c `prefix_of` k.
Proof.
  unfold shard_prefix. change (str "/") with [47]. rewrite app_assoc. apply in_prefix_range. lia.
Qed.

Lemma elem_of_key_range lo hi m k v : (k, v) ∈ key_range lo hi m ↔ m !! k = Some v ∧ in_range lo hi k.
Proof. unfold key_range. rewrite list_elem_of_filter, elem_of_sorted_entries. cbn. tauto. Qed.

Lemma Sorted_key_range lo hi m : StronglySorted entry_le (key_range lo hi m).
Proof. apply StronglySorted_filter_list, Sorted_entries. Qed.

Lemma NoDup_key_range lo hi m : NoDup (key_range lo hi m).*1.
Proof. apply NoDup_fst_filter, NoDup_fst_sorted_entries. Qed.

(** ** Order of the index *)

Lemma pruneKey_le_stamp t c h t' c' h' : time_ok t → time_ok t' →
  bytes_le (pruneKey t c h) (pruneKey t' c' h') → bytes_le (formatTimestamp t) (formatTimestamp t').
Proof.
  intros Ht Ht' Hle. apply bytes_le_not_lt. intros Hlt. apply bytes_le_not_lt in Hle. apply Hle.
  unfold bytes_lt, pruneKey. rewrite bytes_cmp_app. apply bytes_lt_head; [|done].
  by rewrite !length_formatTimestamp.
Qed.

(** ** Places of files *)

Lemma shard_not_staging cfg c h : ¬ below (stagingDir cfg) (shardFilePath cfg c h).
Proof.
  intros [k E]. unfold shardFilePath, shardsDir, stagingDir, Join in E. rewrite <- !app_assoc in E.
  apply app_inv_head in E. cbn in E. discriminate.
Qed.

Lemma staging_below cfg name : below (stagingDir cfg) (Join (stagingDir cfg) name).
Proof. unfold below, Join. exists name. by rewrite <- app_assoc. Qed.

Lemma shard_below cfg c h : below (shardsDir cfg) (shardFilePath cfg c h).
Proof. unfold below, shardFilePath, Join. exists (shard_name c h). by rewrite <- app_assoc. Qed.

Lemma staging_not_shards cfg p : below (stagingDir cfg) p → ¬ below (shardsDir cfg) p.
Proof.
  intros [k ->] [k' E]. unfold shardsDir, stagingDir, Join in E. rewrite <- !app_assoc in E.
  apply app_inv_head in E. cbn in E. discriminate.
Qed.
