(* ===== verification/ShardStoreProofs.v ===== *)
(** * Operations of the shard store

    What each operation of [ShardStore] does to the files and keys of the disk,
    for every way its calls can fail. *)

From S2P Require Import Prelude Sdk FibrePromise FibreCache FibreBlobId Disk ShardCodec Timestamp ShardStore ShardStoreKeys.
#[local] Open Scope Z_scope.

Create HintDb store.

Section StoreProofs.
Context `{CR : Crypto} `{PC : PromiseCodec} `{PL : !PromiseCodecLaws} {W : Type} `{FS : !Vfs W} `{DB : !Pebble W} `{DL : !DiskLaws W}.
Context (cfg : StoreConfig).

(** The contents of the disk. *)
Definition holds (F K : gmap bytes bytes) (w : W) : Prop := files w = F ∧ kvs w = K.

(** Equal up to files in staging. *)
Definition staged (F F' : gmap bytes bytes) : Prop := ∀ p, ¬ below (stagingDir cfg) p → F' !! p = F !! p.
Definition holds_staged (F K : gmap bytes bytes) (w : W) : Prop := ∃ F', staged F F' ∧ holds F' K w.

Lemma staged_refl F : staged F F.
Proof. done. Qed.

Lemma holds_staged_refl F K w : holds F K w → holds_staged F K w.
Proof. intros. by exists F. Qed.

Lemma staged_delete F F' p : below (stagingDir cfg) p → delete p F' = delete p F → staged F F'.
Proof.
  intros Hp E q Hq. assert (p ≠ q) by by intros ->.
  rewrite <- (lookup_delete_ne F' p q), <- (lookup_delete_ne F p q) by done. by rewrite E.
Qed.

Lemma staged_trans F F' F'' : staged F F' → staged F' F'' → staged F F''.
Proof. intros H1 H2 p Hp. by rewrite H2, H1. Qed.

Lemma staged_insert F p c : below (stagingDir cfg) p → staged F (<[p:=c]> F).
Proof. intros Hp q Hq. apply lookup_insert_ne. by intros ->. Qed.

#[local] Hint Resolve staged_refl holds_staged_refl : store.

(** A call of a faulty disk failed, and changed at most files in staging. *)
Definition failed_in F K (_ : error) (w : W) : Prop := faulty ∧ holds_staged F K w.

(** ** Calls *)

Lemma wrap_err_spec {A} P msg (m : IO W A) R E E' :
  {{ P }} m {{ outcome R E }} → (∀ e w, E e w → E' msg w) → {{ P }} wrap_err msg m {{ outcome R E' }}.
Proof.
  intros Hm HE. unfold wrap_err. eapply outcome_bind; [by apply outcome_attempt|].
  intros [e|a]; [apply outcome_err; eauto|by apply outcome_ret].
Qed.

Lemma ignore_spec {A} P (m : IO W A) Q E :
  {{ P }} m {{ outcome (λ _, Q) (λ _, Q) }} → {{ P }} ignore m {{ outcome (λ _, Q) E }}.
Proof.
  intros Hm. unfold ignore. eapply outcome_bind; [by apply outcome_attempt|]. intros [e|a]; by apply outcome_ret.
Qed.

Lemma pure_spec {A} (r : result A) (P : W → Prop) :
  no_panic r → {{ P }} pure r {{ outcome (λ a w, r = Ok a ∧ P w) (λ _, P) }}.
Proof. intros Hr w Hw. destruct r as [a|e|p]; [done..|]. by destruct (Hr p). Qed.

Lemma create_spec F K p : below (stagingDir cfg) p →
  {{ holds F K }} io_unit (vfs_Create p)
  {{ outcome (λ _ w, holds (<[p:=[]]> F) K w) (failed_in F K) }}.
Proof.
  intros Hp w [<- <-]. unfold io_unit. pose proof (vfs_Create_law p w) as L.
  destruct (vfs_Create p w) as [[e|] w']; cbn; destruct L as (HK & HF & [[? HO]|[[? ?] ?]]); try done.
  split; [done|]. exists (files w'). by split; [eapply staged_delete|split].
Qed.

(** A file in staging that is being written. *)
Definition writing (F K : gmap bytes bytes) (tmp c : bytes) (w : W) : Prop :=
  ∃ F', staged F F' ∧ F' !! tmp = Some c ∧ holds F' K w.

Lemma write_spec F K tmp c b : below (stagingDir cfg) tmp →
  {{ writing F K tmp c }} io_unit (vfs_Write tmp b)
  {{ outcome (λ _, writing F K tmp (c ++ b)) (failed_in F K) }}.
Proof.
  intros Hp w (F' & HF & Hc & <- & <-). unfold io_unit. pose proof (vfs_Write_law tmp b w) as L.
  destruct (vfs_Write tmp b w) as [[e|] w']; cbn; destruct L as (HK & HD & HO);
    destruct (HO c Hc) as [[? HO']|[[? ?] ?]]; try done; clear HO.
  - split; [done|]. exists (files w'). split; [|by split]. eapply staged_trans; [exact HF|]. by eapply staged_delete.
  - exists (files w'). split; [|split; [|by split]].
    + eapply staged_trans; [exact HF|]. rewrite HO'. by apply staged_insert.
    + rewrite HO'. apply lookup_insert_eq.
Qed.

Lemma close_spec F K tmp c : below (stagingDir cfg) tmp →
  {{ writing F K tmp c }} io_unit (vfs_Close tmp)
  {{ outcome (λ _, writing F K tmp c) (failed_in F K) }}.
Proof.
  intros Hp w (F' & HF & Hc & <- & <-). unfold io_unit. pose proof (vfs_Close_law tmp w) as L.
  destruct (vfs_Close tmp w) as [[e|] w']; cbn; destruct L as (HK & HD & [[? HO]|[[? ?] ?]]); try done.
  - split; [done|]. exists (files w'). split; [|by split]. eapply staged_trans; [exact HF|]. by eapply staged_delete.
  - exists (files w). split; [done|]. by split.
Qed.

Lemma staged_op F K (op : W → option error * W) :
  (∀ w, kvs (op w).2 = kvs w ∧ ∃ p, below (stagingDir cfg) p ∧ delete p (files (op w).2) = delete p (files w)) →
  {{ holds_staged F K }} io_unit op {{ outcome (λ _, holds_staged F K) (λ _, holds_staged F K) }}.
Proof.
  intros Hop w (F' & HF & <- & <-). unfold io_unit. destruct (Hop w) as (HK & p & Hp & HD).
  destruct (op w) as [[e|] w']; cbn in *; (exists (files w'); split; [|by split]);
    (eapply staged_trans; [exact HF|]; by eapply staged_delete).
Qed.

Lemma close_staged F K tmp : below (stagingDir cfg) tmp →
  {{ holds_staged F K }} io_unit (vfs_Close tmp) {{ outcome (λ _, holds_staged F K) (λ _, holds_staged F K) }}.
Proof.
  intros Hp. apply staged_op. intros w. pose proof (vfs_Close_law tmp w) as L.
  destruct (vfs_Close tmp w) as [e w']; cbn. destruct L as (HK & HD & _). eauto.
Qed.

Lemma remove_staged F K tmp : below (stagingDir cfg) tmp →
  {{ holds_staged F K }} io_unit (vfs_Remove tmp) {{ outcome (λ _, holds_staged F K) (λ _, holds_staged F K) }}.
Proof.
  intros Hp. apply staged_op. intros w. pose proof (vfs_Remove_law tmp w) as L.
  destruct (vfs_Remove tmp w) as [[e|] w']; cbn; destruct L as (HK & HD); split; try done; exists tmp; split; try done.
  - by destruct HD as [-> _].
  - destruct HD as [_ ->]. by rewrite delete_delete_eq.
Qed.

(** ** Staging a shard *)

Definition is_inr {A B} (x : A + B) : Prop := match x with inr _ => True | inl _ => False end.

(** A buffered writer has the prefix of the contents in the file and the rest
    in the buffer. *)
Definition buffering F K tmp (c : bytes) (s : bytes * W) : Prop :=
  ∃ d, c = d ++ s.1 ∧ writing F K tmp d s.2.

Let buffer_failed F K : error → bytes * W → Prop := λ e s, failed_in F K e s.2.

Let at_buffer F K tmp (buf d : bytes) (s : bytes * W) : Prop := s.1 = buf ∧ writing F K tmp d s.2.

Lemma file_Write_spec F K tmp buf d b : below (stagingDir cfg) tmp →
  {{ at_buffer F K tmp buf d }} file_Write tmp b
  {{ outcome (λ _, at_buffer F K tmp buf (d ++ b)) (buffer_failed F K) }}.
Proof.
  intros Hp [buf' w] [E Hw]. cbn in E. subst buf'. unfold file_Write.
  pose proof (write_spec F K tmp d b Hp w Hw) as Hs.
  by destruct (io_unit (vfs_Write tmp b) w) as [[[]|e|p] w'].
Qed.

Lemma set_buffer_spec F K tmp buf d b :
  {{ at_buffer F K tmp buf d }} set_buffer b {{ outcome (λ _, at_buffer F K tmp b d) (buffer_failed F K) }}.
Proof. by intros [buf' w] [_ Hw]. Qed.

Lemma at_buffer_buffering F K tmp buf d s : at_buffer F K tmp buf d s → buffering F K tmp (d ++ buf) s.
Proof. intros [<- Hw]. by exists d. Qed.

Lemma bufio_rest_spec F K tmp d b : below (stagingDir cfg) tmp →
  {{ at_buffer F K tmp [] d }} bufio_rest tmp b {{ outcome (λ _, buffering F K tmp (d ++ b)) (buffer_failed F K) }}.
Proof.
  intros Hp. unfold bufio_rest. destruct (_ <=? _)%nat.
  - eapply outcome_weaken; [apply set_buffer_spec|done|intros ?; apply at_buffer_buffering|done].
  - eapply outcome_weaken; [by apply file_Write_spec|done| |done].
    intros ? s Hs. apply at_buffer_buffering in Hs. by rewrite app_nil_r in Hs.
Qed.

Lemma bufio_Write_spec F K tmp c b : below (stagingDir cfg) tmp →
  {{ buffering F K tmp c }} bufio_Write tmp b {{ outcome (λ _, buffering F K tmp (c ++ b)) (buffer_failed F K) }}.
Proof.
  intros Hp [buf w] (d & -> & Hw). cbn [fst snd] in *. unfold bufio_Write.
  destruct (Nat.leb_spec (length b) (bufio_size - length buf)) as [|_].
  { exists d. by rewrite <- app_assoc. }
  destruct buf as [|x buf].
  - rewrite app_nil_r. eapply (outcome_weaken (at_buffer F K tmp [] d)); [by apply file_Write_spec|done| |done|done].
    intros ? s Hs. apply at_buffer_buffering in Hs. by rewrite app_nil_r in Hs.
  - set (room := (bufio_size - length (x :: buf))%nat). revert Hw. generalize (x :: buf). intros pre Hw.
    enough ({{ at_buffer F K tmp pre d }}
      _ ← file_Write tmp (pre ++ take room b); _ ← set_buffer []; bufio_rest tmp (drop room b)
      {{ outcome (λ _, buffering F K tmp ((d ++ pre) ++ b)) (buffer_failed F K) }}) as Ht by by apply (Ht (pre, w)).
    eapply outcome_bind; [by apply file_Write_spec|]. intros [].
    eapply outcome_bind; [apply set_buffer_spec|]. intros [].
    assert ((d ++ pre) ++ b = (d ++ pre ++ take room b) ++ drop room b) as ->
      by (rewrite <- !app_assoc, take_drop; done).
    by apply bufio_rest_spec.
Qed.

Lemma bufio_Flush_spec F K tmp c : below (stagingDir cfg) tmp →
  {{ buffering F K tmp c }} bufio_Flush tmp {{ outcome (λ _ s, writing F K tmp c s.2) (buffer_failed F K) }}.
Proof.
  intros Hp [buf w] (d & -> & Hw). cbn [fst snd] in *. unfold bufio_Flush. destruct buf as [|x buf].
  { by rewrite app_nil_r. }
  revert Hw. generalize (x :: buf). intros pre Hw.
  enough ({{ at_buffer F K tmp pre d }} _ ← file_Write tmp pre; set_buffer []
    {{ outcome (λ _ s, writing F K tmp (d ++ pre) s.2) (buffer_failed F K) }}) as Ht by by apply (Ht (pre, w)).
  eapply outcome_bind; [by apply file_Write_spec|]. intros [].
  eapply outcome_weaken; [apply set_buffer_spec|done| |done]. by intros ? s [_ Hs].
Qed.

Lemma buffered_spec {A} (m : IO (bytes * W) A) P (R : A → W → Prop) E :
  {{ λ s, s.1 = [] ∧ P s.2 }} m {{ outcome (λ a s, R a s.2) (λ e s, E e s.2) }} →
  {{ P }} buffered m {{ outcome R E }}.
Proof.
  intros Hm w Hw. specialize (Hm ([], w) (conj eq_refl Hw)). unfold buffered.
  by destruct (m ([], w)) as [[a|e|p] [buf w']].
Qed.

Definition shard_bytes (shard : BlobShard) : bytes := enc_shard (omap id (sh_Rows shard)) (sh_Rlcs shard).

Lemma omap_Some {A} (l : list A) : omap id (map Some l) = l.
Proof. induction l as [|a l IH]; [done|]. cbn. by rewrite IH. Qed.

Lemma write_file_spec F K tmp shard : below (stagingDir cfg) tmp → Forall is_Some (sh_Rows shard) →
  {{ writing F K tmp [] }} buffered (_ ← writeShardBinary (bufio_Write tmp) shard; bufio_Flush tmp)
  {{ outcome (λ _, writing F K tmp (shard_bytes shard)) (failed_in F K) }}.
Proof.
  intros Hp Hs. apply shard_rows in Hs as [rows ->]. unfold shard_bytes. cbn [sh_Rows sh_Rlcs]. rewrite omap_Some.
  apply buffered_spec. eapply outcome_bind.
  - eapply outcome_weaken;
      [apply (writeShardBinary_spec (bufio_Write tmp) (buffering F K tmp) (buffer_failed F K)) with (c := [])| |by intros ? ? H; exact H|done].
    + intros c b. by apply bufio_Write_spec.
    + intros [buf w] [E Hw]. cbn in E. subst buf. by exists [].
  - intros []. by apply bufio_Flush_spec.
Qed.

Lemma writeTmpShard_spec F K rnd shard : Forall is_Some (sh_Rows shard) →
  {{ holds F K }} writeTmpShard cfg rnd shard
  {{ outcome (λ tmp w, below (stagingDir cfg) tmp ∧ writing F K tmp (shard_bytes shard) w)
             (λ _ w, (is_inr rnd → faulty) ∧ holds_staged F K w) }}.
Proof.
  intros Hs. unfold writeTmpShard. destruct rnd as [e|name].
  { apply outcome_err. intros w Hw. split; [done|]. eauto with store. }
  pose proof (staging_below cfg (hex_EncodeToString name)) as Hp. set (tmp := Join _ _) in *.
  eapply outcome_bind; [eapply wrap_err_spec; [by apply create_spec|by intros ? ? [? ?]]|]. intros [].
  eapply outcome_bind.
  { eapply outcome_attempt, outcome_weaken; [by apply write_file_spec| |done|done].
    intros w Hw. exists (<[tmp:=[]]> F). split; [by apply staged_insert|]. split; [apply lookup_insert_eq|done]. }
  intros [e|[]].
  - intros w [Hf Hw]. revert w Hw.
    eapply outcome_bind; [by apply ignore_spec, close_staged|]. intros [].
    eapply outcome_bind; [by apply ignore_spec, remove_staged|]. intros []. by apply outcome_err.
  - eapply outcome_bind; [by apply outcome_attempt, close_spec|]. intros [e|[]].
    + intros w [Hf Hw]. revert w Hw.
      eapply outcome_bind; [by apply ignore_spec, remove_staged|]. intros []. by apply outcome_err.
    + by apply outcome_ret.
Qed.

(** ** Publishing *)

Lemma batch_spec F K op :
  {{ holds F K }} io_unit (db_Batch op) {{ outcome (λ _, holds F K) (λ _ w, faulty ∧ holds F K w) }}.
Proof.
  intros w [<- <-]. unfold io_unit. pose proof (db_Batch_law op w) as L.
  by destruct (db_Batch op w) as [[e|] w']; destruct L as (? & ? & [?|?]).
Qed.

Lemma commit_spec F K ops :
  {{ holds F K }} io_unit (db_Commit ops)
  {{ outcome (λ _, holds F (foldl batch_apply K ops)) (λ _ w, faulty ∧ holds F K w) }}.
Proof.
  intros w [<- <-]. unfold io_unit. pose proof (db_Commit_law ops w) as L.
  destruct (db_Commit ops w) as [[e|] w']; destruct L as (HF & HK); [by destruct HK|done].
Qed.

Lemma get_spec F K k :
  {{ holds F K }} io_sum (db_Get k) {{ outcome (λ v w, v = K !! k ∧ holds F K w) (λ _ w, faulty ∧ holds F K w) }}.
Proof.
  intros w [<- <-]. unfold io_sum. pose proof (db_Get_law k w) as L.
  by destruct (db_Get k w) as [[e|v] w']; destruct L as (? & ? & ?).
Qed.

Lemma rename_spec F K p q :
  {{ holds F K }} io_unit (vfs_Rename p q)
  {{ outcome (λ _ w, ∃ c, F !! p = Some c ∧ holds (<[q:=c]> (delete p F)) K w)
             (λ _ w, (is_Some (F !! p) → faulty) ∧ holds F K w) }}.
Proof.
  intros w [<- <-]. unfold io_unit. pose proof (vfs_Rename_law p q w) as L.
  destruct (vfs_Rename p q w) as [[e|] w']; destruct L as (HK & HF); cbn; [by destruct HF|].
  destruct HF as (c & Hc & HF). by exists c.
Qed.

Lemma remove_spec F K p :
  {{ holds F K }} io_unit (vfs_Remove p)
  {{ outcome (λ _ w, is_Some (F !! p) ∧ holds (delete p F) K w)
             (λ e w, lacks e (F !! p) faulty ∧ holds F K w) }}.
Proof.
  intros w [<- <-]. unfold io_unit. pose proof (vfs_Remove_law p w) as L.
  by destruct (vfs_Remove p w) as [[e|] w']; destruct L as (HK & HF & HE).
Qed.

Lemma stat_spec F K p :
  {{ holds F K }} io_sum (vfs_Stat p)
  {{ outcome (λ n w, (∃ c, F !! p = Some c ∧ n = Z.of_nat (length c)) ∧ holds F K w)
             (λ e w, lacks e (F !! p) faulty ∧ holds F K w) }}.
Proof.
  intros w [<- <-]. unfold io_sum. pose proof (vfs_Stat_law p w) as L.
  by destruct (vfs_Stat p w) as [[e|n] w']; destruct L as (HK & HF & HE).
Qed.

(** The keys a published shard has. *)
Definition published (K : gmap bytes bytes) (h ppData c : bytes) (pruneAt : Z) : gmap bytes bytes :=
  <[pruneKey pruneAt c h := []]> (<[shardKey c h := []]> (<[promiseKey h := ppData]> K)).

(** Equal outside staging and the file of one shard. *)
Definition same_but (F F' : gmap bytes bytes) (path : bytes) : Prop :=
  ∀ p, ¬ below (stagingDir cfg) p → p ≠ path → F' !! p = F !! p.

(** What a failed publication may leave: the old file, or after a fault the new
    one or none. *)
Definition unpublished (F K : gmap bytes bytes) (path d : bytes) (w : W) : Prop :=
  ∃ F', holds F' K w ∧ same_but F F' path ∧ 
    (F' !! path = F !! path ∨ faulty ∧ (F' !! path = Some d ∨ F' !! path = None)).

Lemma staged_unpublished F K c h d w :
  holds_staged F K w → unpublished F K (shardFilePath cfg c h) d w.
Proof.
  intros (F' & HF & Hw). exists F'. split; [done|]. split; [intros p Hp _; by apply HF|].
  left. apply HF, shard_not_staging.
Qed.

Lemma hasShardMarker_spec F K c h E :
  {{ holds F K }} hasShardMarker c h {{ outcome (λ _, holds F K) E }}.
Proof.
  unfold hasShardMarker. eapply outcome_bind; [apply outcome_attempt, get_spec|].
  intros [e|[v|]]; apply outcome_ret; intros w Hw; by destruct Hw.
Qed.

Lemma commitAndPublish_spec F K ctxErr promise h tmp pruneAt d :
  below (stagingDir cfg) tmp →
  let c := Commitment promise in
  let path := shardFilePath cfg c h in
  let publishable := ctxErr = None ∧ ∃ pb ppData, ToProto promise = Ok pb ∧ Marshal pb = Ok ppData in
  {{ writing F K tmp d }} commitAndPublish cfg ctxErr promise h tmp pruneAt
  {{ outcome (λ _ w, ∃ F' pb ppData, ToProto promise = Ok pb ∧ Marshal pb = Ok ppData ∧
                holds F' (published K h ppData c pruneAt) w ∧ same_but F F' path ∧ F' !! path = Some d)
             (λ _ w, (publishable → faulty) ∧ unpublished F K path d w) }}.
Proof.
  intros Hp c path publishable w (F' & HF & Hd & Hw). unfold commitAndPublish. fold c.
  assert (∀ w, holds F' K w → unpublished F K path d w) as Hu.
  { intros w' Hw'. apply staged_unpublished. by exists F'. }
  enough ({{ holds F' K }} commitAndPublish cfg ctxErr promise h tmp pruneAt
    {{ outcome (λ _ w, ∃ F' pb ppData, ToProto promise = Ok pb ∧ Marshal pb = Ok ppData ∧
                holds F' (published K h ppData c pruneAt) w ∧ same_but F F' path ∧ F' !! path = Some d)
             (λ _ w, (publishable → faulty) ∧ unpublished F K path d w) }}) as Ht by by apply Ht.
  clear w Hw. unfold commitAndPublish. fold c. fold path.
  eapply outcome_bind.
  { eapply wrap_err_spec with (R := λ pb w, ToProto promise = Ok pb ∧ holds F' K w)
                              (E := λ _ w, (∀ pb, ToProto promise ≠ Ok pb) ∧ holds F' K w).
    - intros w Hw. unfold ToProto. by destruct (SignerKey promise).
    - intros e w [Hn Hw]. split; [|by apply Hu]. intros (_ & pb & pp & Hpb & _). by destruct (Hn pb). }
  intros pb w [Hpb Hw]. revert w Hw. eapply outcome_bind.
  { eapply wrap_err_spec with (R := λ pp w, Marshal pb = Ok pp ∧ holds F' K w)
                              (E := λ _ w, (∀ pp, Marshal pb ≠ Ok pp) ∧ holds F' K w).
    - intros w Hw. unfold pure. cbn. pose proof (Marshal_returns pb) as Hn. destruct (Marshal pb) as [pp|e|p]; cbn; try done.
      by destruct (Hn p).
    - intros e w [Hn Hw]. split; [|by apply Hu]. intros (_ & pb' & pp & Hpb' & Hpp). destruct (Hn pp). congruence. }
  intros pp w (Hpp & Hw). revert w Hw.
  assert (∀ (e : error) w, faulty ∧ holds F' K w → (publishable → faulty) ∧ unpublished F K path d w) as Hb
    by (intros _ w [? ?]; auto).
  eapply outcome_bind; [eapply wrap_err_spec; [apply batch_spec|exact Hb]|]. intros [].
  eapply outcome_bind; [eapply wrap_err_spec; [apply batch_spec|exact Hb]|]. intros [].
  eapply outcome_bind; [eapply wrap_err_spec; [apply batch_spec|exact Hb]|]. intros [].
  destruct ctxErr; [apply outcome_err; intros w Hw; split; [by intros [? _]|by apply Hu]|].
  eapply outcome_bind; [eapply wrap_err_spec; [apply rename_spec|]|].
  { intros e w [Hf Hw]. split; [intros _; apply Hf; eauto|by apply Hu]. }
  intros [] w (d' & Hd' & Hw).
  rewrite Hd in Hd'. injection Hd' as <-. revert w Hw.
  set (F2 := <[path:=d]> (delete tmp F')).
  assert (same_but F F2 path) as Hsame.
  { intros p Hq Hne. unfold F2. rewrite lookup_insert_ne, lookup_delete_ne; [by apply HF| |done]. by intros <-. }
  assert (F2 !! path = Some d) as Hpath by apply lookup_insert_eq.
  eapply outcome_bind; [apply outcome_attempt, commit_spec|]. intros [e|[]].
  - intros w [Hf Hw]. revert w Hw. eapply outcome_bind; [apply hasShardMarker_spec|]. intros marker.
    eapply (outcome_bind _ _ _ (λ _, unpublished F K path d)).
    + destruct marker; cbn [negb].
      * apply outcome_ret. intros w Hw. exists F2. auto 10.
      * apply ignore_spec. eapply outcome_weaken; [apply remove_spec|done| |].
        -- intros ? w [_ Hw]. exists (delete path F2). split; [done|]. split; [|right; split; [done|right; apply lookup_delete_eq]].
           intros p Hq Hne. rewrite lookup_delete_ne by done. by apply Hsame.
        -- intros ? w [_ Hw]. exists F2. auto 10.
    + intros []. by apply outcome_err.
  - apply outcome_ret. intros w Hw. exists F2, pb, pp. split; [done|]. split; [done|]. split; [exact Hw|]. done.
Qed.

(** The conditions of [Put] on its surroundings. *)
Definition put_ready (env : PutEnv) (promise : PaymentPromise) : Prop :=
  pe_ctx1 env = None ∧ pe_ctx2 env = None ∧ is_inr (pe_rnd env) ∧
  ∃ pb ppData, ToProto promise = Ok pb ∧ Marshal pb = Ok ppData.

Lemma Put_spec F K env promise shard pruneAt h : Hash promise = Ok h → Forall is_Some (sh_Rows shard) →
  let c := Commitment promise in
  let path := shardFilePath cfg c h in
  {{ holds F K }} Put cfg env promise shard pruneAt
  {{ outcome (λ _ w, ∃ F' pb ppData, ToProto promise = Ok pb ∧ Marshal pb = Ok ppData ∧
                holds F' (published K h ppData c pruneAt) w ∧ same_but F F' path ∧
                F' !! path = Some (shard_bytes shard))
             (λ _ w, (put_ready env promise → faulty) ∧ unpublished F K path (shard_bytes shard) w) }}.
Proof.
  intros Hh Hs c path. unfold Put.
  assert (∀ w, holds_staged F K w → unpublished F K path (shard_bytes shard) w) as Hu
    by (intros w; apply staged_unpublished).
  destruct (pe_ctx1 env) eqn:E1.
  { apply outcome_err. intros w Hw. split; [intros (? & _); congruence|eauto with store]. }
  rewrite Hh. eapply outcome_bind.
  { eapply (wrap_err_spec _ _ _ (λ h' w, h' = h ∧ holds F K w) (λ _ _, False)); [by intros w Hw|done]. }
  intros h' w (-> & Hw). revert w Hw.
  eapply outcome_bind.
  { eapply wrap_err_spec; [by apply writeTmpShard_spec|]. intros e w [Hf Hw].
    split; [intros (_ & _ & Hr & _); auto|by apply Hu]. }
  intros tmp w (Hp & Hw). revert w Hw.
  eapply outcome_bind; [by apply outcome_attempt, commitAndPublish_spec|]. intros [e|[]].
  - intros w [Hf Hw]. revert w Hw.
    eapply (outcome_bind _ _ _ (λ _, unpublished F K path (shard_bytes shard))).
    2: { intros []. apply outcome_err. intros w Hw. split; [intros (_ & ? & _ & ?); auto|done]. }
    apply ignore_spec. intros w (F' & Hw & Hsame & Hcase).
    eapply (triple_weaken (holds F' K)); [apply remove_spec|done| |exact Hw].
    intros [[]|e'|p] w'; cbn; [| |done].
    + intros [_ Hw']. exists (delete tmp F'). split; [done|].
      assert (∀ p, ¬ below (stagingDir cfg) p → delete tmp F' !! p = F' !! p) as Hd.
      { intros p Hq. apply lookup_delete_ne. by intros <-. }
      split; [intros p Hq Hne; rewrite Hd by done; by apply Hsame|]. by rewrite Hd by apply shard_not_staging.
    + intros [_ Hw']. by exists F'.
  - by apply outcome_ret.
Qed.

(** ** Lookups *)

Definition marked (K : gmap bytes bytes) (c h : bytes) : Prop := is_Some (K !! shardKey c h).
Definition stored (F K : gmap bytes bytes) (c h : bytes) : Prop :=
  marked K c h ∧ is_Some (F !! shardFilePath cfg c h).

Lemma Has_spec F K c h :
  {{ holds F K }} Has cfg c h
  {{ outcome (λ b w, (b = true ↔ stored F K c h) ∧ holds F K w) (λ _ w, faulty ∧ holds F K w) }}.
Proof.
  unfold Has. eapply outcome_bind; [by eapply wrap_err_spec; [apply get_spec|]|].
  intros [v|] w [Hk Hw]; revert w Hw.
  2: { apply outcome_ret. intros w Hw. split; [|done]. unfold stored, marked. rewrite <- Hk.
       split; [done|]. by intros [[? ?] _]. }
  eapply outcome_bind; [apply outcome_attempt, stat_spec|]. intros [e|n] w Hw.
  - destruct Hw as [Hl Hw]. revert w Hw. destruct (String.eqb_spec e ErrNotExist) as [->|Hne].
    + apply outcome_ret. intros w Hw. split; [|done]. destruct Hl as [[_ HF]|[? _]]; [|done].
      unfold stored. rewrite HF. split; [done|]. by intros [_ [? ?]].
    + apply outcome_err. intros w Hw. by destruct Hl as [[? _]|[_ ?]].
  - destruct Hw as [(d & HF & _) Hw]. cbn. split; [|done]. split; [|done]. intros _.
    unfold stored, marked. rewrite <- Hk, HF. eauto.
Qed.

(** The contents of a file that reads back as a shard. *)
Definition readable (d : bytes) (shard : BlobShard) : Prop :=
  ∃ rows rlcs, shard_fits rows rlcs ∧ d = enc_shard rows rlcs ∧ shard = mkBlobShard (map Some rows) rlcs.

Lemma readable_inj d s s' : readable d s → readable d s' → s = s'.
Proof.
  intros (rows & rlcs & Hf & -> & ->) (rows' & rlcs' & Hf' & E & ->).
  pose proof (readShardBinary_enc rows rlcs [] None Hf) as R.
  pose proof (readShardBinary_enc rows' rlcs' [] None Hf') as R'. rewrite <- E in R'. congruence.
Qed.

Definition files_ok (F : gmap bytes bytes) : Prop :=
  ∀ c h d, id_ok c h → F !! shardFilePath cfg c h = Some d → ∃ shard, readable d shard.

Lemma readShardFile_spec F K c h E : files_ok F → id_ok c h →
  {{ holds F K }} readShardFile (shardFilePath cfg c h)
  {{ outcome (λ r w, holds F K w ∧
       match r with
       | inr shard => ∃ d, F !! shardFilePath cfg c h = Some d ∧ readable d shard
       | inl NotFound => F !! shardFilePath cfg c h = None
       | inl (ReadFailed _) => faulty
       end) E }}.
Proof.
  intros HF Hi w [<- <-]. unfold readShardFile, attempt, io_sum, mbind, io_bind.
  pose proof (vfs_Open_law (shardFilePath cfg c h) w) as L.
  destruct (vfs_Open _ w) as [[e|s] w']; destruct L as (HK & HF' & L); cbn.
  - destruct (String.eqb_spec e ErrNotExist) as [->|Hne]; cbn; (split; [done|]); destruct L as [[? ?]|[? ?]]; done.
  - destruct L as (d & Hd & Hpre & Hend). destruct (HF c h d Hi Hd) as (shard & rows & rlcs & Hf & -> & ->).
    pose proof (no_panic_readShardBinary s) as Hnp.
    destruct (readShardBinary s) as [[shard' r]|e|p] eqn:R; cbn; [| |by destruct (Hnp p)]; (split; [done|]).
    + exists (enc_shard rows rlcs). split; [done|]. exists rows, rlcs. split; [done|]. split; [done|].
      destruct s as [part e]. by eapply read_part.
    + destruct Hend as [[He Hd']|[_ ?]]; [|done]. destruct s as [part e']. cbn in *. subst.
      pose proof (readShardBinary_enc rows rlcs [] None Hf) as R'. rewrite app_nil_r in R'. congruence.
Qed.

Lemma delete_spec F K k :
  {{ holds F K }} io_unit (db_Delete k) {{ outcome (λ _, holds F (delete k K)) (λ _ w, faulty ∧ holds F K w) }}.
Proof.
  intros w [<- <-]. unfold io_unit. pose proof (db_Delete_law k w) as L.
  destruct (db_Delete k w) as [[e|] w']; destruct L as (? & L); [by destruct L|done].
Qed.

Lemma iter_spec F K lo hi :
  {{ holds F K }} io_sum (db_Iter lo hi)
  {{ outcome (λ le w, holds F K w ∧
       match le.2 with
       | None => le.1 = key_range lo hi K
       | Some _ => le.1 `prefix_of` key_range lo hi K ∧ faulty
       end) (λ _ w, faulty ∧ holds F K w) }}.
Proof.
  intros w [<- <-]. unfold io_sum. pose proof (db_Iter_law lo hi w) as L.
  by destruct (db_Iter lo hi w) as [[e|[l [e|]]] w']; destruct L as (? & ? & ?).
Qed.

(** The keys of the database come from the three families. *)
Definition key_ok (k : bytes) : Prop :=
  (∃ h, Forall byte_ok h ∧ k = promiseKey h) ∨
  (∃ c h, id_ok c h ∧ k = shardKey c h) ∨
  (∃ t c h, time_ok t ∧ id_ok c h ∧ k = pruneKey t c h).
Definition keys_ok (K : gmap bytes bytes) : Prop := ∀ k, is_Some (K !! k) → key_ok k.

(** What a lookup may change: markers of the commitment without a file. *)
Definition dropped (F : gmap bytes bytes) (c : bytes) (K K' : gmap bytes bytes) : Prop :=
  ∀ k, K' !! k = K !! k ∨
       K' !! k = None ∧ ∃ h, id_ok c h ∧ k = shardKey c h ∧ F !! shardFilePath cfg c h = None.

Lemma dropped_refl F c K : dropped F c K K.
Proof. by left. Qed.

Lemma dropped_delete F c K K' h : dropped F c K K' → id_ok c h → F !! shardFilePath cfg c h = None →
  dropped F c K (delete (shardKey c h) K').
Proof.
  intros Hd Hi HF k. destruct (decide (k = shardKey c h)) as [->|Hne].
  - right. split; [apply lookup_delete_eq|]. eauto.
  - rewrite lookup_delete_ne by done. apply Hd.
Qed.

(** The entries of a scan of the markers of [c]. *)
Definition marker_of (c : bytes) (kv : bytes * bytes) : Prop := ∃ h, id_ok c h ∧ kv.1 = shardKey c h.
Definition missing (F : gmap bytes bytes) (c : bytes) (kv : bytes * bytes) : Prop :=
  ∀ h, id_ok c h → kv.1 = shardKey c h → F !! shardFilePath cfg c h = None.

Lemma missing_one F c h v : id_ok c h → F !! shardFilePath cfg c h = None → missing F c (shardKey c h, v).
Proof. intros Hi HF h' Hi' E. cbn in E. apply shardKey_inj in E as [_ <-]; done. Qed.

Lemma errors_Join_Some e1 e2 : is_Some (errors_Join e1 e2).
Proof. destruct e1; eauto. Qed.

Definition found_in (F : gmap bytes bytes) (c : bytes) (l : list (bytes * bytes)) (shard : BlobShard) : Prop :=
  ∃ pre h v post d, l = pre ++ (shardKey c h, v) :: post ∧ id_ok c h ∧
    F !! shardFilePath cfg c h = Some d ∧ readable d shard ∧ (¬ faulty → Forall (missing F c) pre).

Lemma found_in_cons F c h v l shard :
  id_ok c h → (¬ faulty → F !! shardFilePath cfg c h = None) → found_in F c l shard →
  found_in F c ((shardKey c h, v) :: l) shard.
Proof.
  intros Hi HF (pre & h' & v' & post & d & -> & ?&?&?& Hm).
  exists ((shardKey c h, v) :: pre), h', v', post, d. repeat (split; [done|]).
  intros Hn. constructor; [apply missing_one; auto|auto].
Qed.

Lemma get_loop_spec F c K0 l E : files_ok F → Forall (marker_of c) l → ∀ K rerr,
  dropped F c K0 K →
  {{ holds F K }} get_loop cfg c (shard_prefix c) l rerr
  {{ outcome (λ fr w, ∃ K', dropped F c K0 K' ∧ holds F K' w ∧
       match fr.1 with
       | Some shard => found_in F c l shard
       | None => fr.2 = rerr ∧ Forall (missing F c) l ∨ is_Some fr.2 ∧ faulty
       end) E }}.
Proof.
  intros HF. induction 1 as [|[key v] l (h & Hi & Hk) Hl IH]; intros K rerr Hd; cbn [get_loop].
  { apply outcome_ret. intros w Hw. exists K. split; [done|]. split; [done|]. left. split; [done|constructor]. }
  cbn in Hk. subst key. 
  assert (drop (length (shard_prefix c)) (shardKey c h) = hex_EncodeToString h) as -> by apply drop_app_length.
  rewrite hex_roundtrip by apply Hi.
  eapply outcome_bind; [by apply readShardFile_spec|]. intros [[|e]|shard] w [Hw Hr]; revert w Hw.
  - eapply outcome_bind with (R := λ _ w, ∃ K', dropped F c K0 K' ∧ holds F K' w).
    { apply ignore_spec. eapply outcome_weaken; [apply delete_spec|done| |].
      - intros ? w Hw. exists (delete (shardKey c h) K). split; [by apply dropped_delete|done].
      - intros ? w [_ Hw]. exists K. auto. }
    intros [] w (K' & Hd' & Hw). revert w Hw. eapply outcome_weaken; [by apply (IH K' rerr)|done| |done].
    intros [[shard|] rerr'] w (K2 & Hd2 & Hw & Hres); exists K2; (split; [done|]); (split; [done|]); cbn in *.
    + by apply found_in_cons.
    + destruct Hres as [[-> Hm]|?]; [left|by right]. split; [done|]. constructor; [by apply missing_one|done].
  - eapply outcome_weaken; [by apply (IH K (errors_Join rerr "reading shard file"))|done| |done].
    intros [[shard|] rerr'] w (K2 & Hd2 & Hw & Hres); exists K2; (split; [done|]); (split; [done|]); cbn in *.
    + by apply found_in_cons.
    + right. destruct Hres as [[-> _]|?]; [|done]. split; [apply errors_Join_Some|done].
  - apply outcome_ret. intros w Hw. exists K. split; [done|]. split; [done|]. destruct Hr as (d & Hd' & Hs).
    exists [], h, v, l, d. auto.
Qed.

Lemma markers_of_scan K c : length c = CommitmentSize → Forall byte_ok c → keys_ok K →
  Forall (marker_of c) (key_range (shard_prefix c) (prefixUpperBound (shard_prefix c)) K).
Proof.
  intros L C HK. apply Forall_forall. intros [k v] Hin. apply elem_of_key_range in Hin as [Hk Hr].
  apply scan_shard in Hr. destruct (HK k) as [(h & _ & ->)|[(c' & h & Hi & ->)|(t & c' & h & _ & _ & ->)]]; [eauto| | |].
  - by apply shard_prefix_not_promise in Hr.
  - assert (c = c') as <- by by eapply shard_prefix_inv. by exists h.
  - by apply shard_prefix_not_prune in Hr.
Qed.

Lemma marked_in_scan K c h : marked K c h →
  ∃ v, (shardKey c h, v) ∈ key_range (shard_prefix c) (prefixUpperBound (shard_prefix c)) K.
Proof.
  intros [v Hv]. exists v. apply elem_of_key_range. split; [done|]. apply scan_shard, shardKey_prefix.
Qed.

(** [Get] returns the stored shard whose key comes first, or reports that there
    is none; anything else needs a fault. *)
Lemma Get_spec F K c : length c = CommitmentSize → Forall byte_ok c → keys_ok K → files_ok F →
  {{ holds F K }} Get cfg c
  {{ outcome (λ shard w, (∃ K', dropped F c K K' ∧ holds F K' w) ∧
       ∃ h d, id_ok c h ∧ marked K c h ∧ F !! shardFilePath cfg c h = Some d ∧ readable d shard ∧
         (¬ faulty → ∀ h', id_ok c h' → stored F K c h' → bytes_le (shardKey c h) (shardKey c h')))
     (λ e w, (∃ K', dropped F c K K' ∧ holds F K' w) ∧
       (e = ErrStoreNotFound ∧ (∀ h, id_ok c h → ¬ stored F K c h) ∨ faulty)) }}.
Proof.
  intros L C HK HF. unfold Get. eapply outcome_bind.
  { eapply wrap_err_spec; [apply iter_spec|]. intros e w [Hf Hw]. split; [|by right]. exists K. split; [apply dropped_refl|done]. }
  intros [l iterErr] w [Hw Hl]. revert w Hw. cbn [fst snd] in Hl.
  set (scan := key_range _ _ K) in *.
  assert (l `prefix_of` scan ∧ (l = scan ∨ faulty)) as [Hpre Hall].
  { destruct iterErr; [by destruct Hl; auto|]. subst. auto. }
  pose proof (markers_of_scan K c L C HK) as Hm. fold scan in Hm.
  eapply outcome_bind.
  { eapply get_loop_spec; [done| |apply dropped_refl]. destruct Hpre as [post Hp]. rewrite Hp in Hm.
    by apply Forall_app in Hm as [? _]. }
  intros [found rerr] w (K' & Hd & Hw & Hres). cbn in Hres. cbn. destruct found as [shard|].
  - apply (outcome_ret (holds F K')); [|done]. intros w' Hw'. split; [by exists K'|].
    destruct Hres as (pre & h & v & post & d & -> & Hi & HFd & Hs & Hmiss). exists h, d.
    destruct Hpre as [rest Hscan]. rewrite <- app_assoc in Hscan. cbn in Hscan.
    assert ((shardKey c h, v) ∈ scan) as Hin by (rewrite Hscan; set_solver).
    apply elem_of_key_range in Hin as [Hk _]. split; [done|]. split; [by exists v|]. split; [done|]. split; [done|].
    intros Hn h' Hi' [Hm' HF']. destruct (marked_in_scan K c h' Hm') as [v' Hin']. fold scan in Hin'.
    rewrite Hscan in Hin'. apply elem_of_app in Hin' as [Hin'|Hin'].
    + specialize (Hmiss Hn). eapply Forall_forall in Hmiss; [|exact Hin'].
      rewrite (Hmiss h') in HF' by done. by destruct HF'.
    + apply elem_of_cons in Hin' as [E|Hin'].
      * apply (f_equal fst) in E. cbn in E. rewrite E. apply bytes_le_lteq. by right.
      * pose proof (Sorted_key_range (shard_prefix c) (prefixUpperBound (shard_prefix c)) K) as Hs'. fold scan in Hs'.
        rewrite Hscan in Hs'. apply (StronglySorted_suffix _ ((shardKey c h, v) :: post ++ rest)) in Hs'; [|by exists pre].
        apply StronglySorted_inv in Hs' as [_ Hs']. eapply Forall_forall in Hs'; [|exact Hin']. exact Hs'.
  - assert (∃ e, (match iterErr, rerr with
                  | Some _, _ => pure (Err "iterating shards")
                  | None, Some err => pure (Err err)
                  | None, None => pure (Err ErrStoreNotFound)
                  end : IO W BlobShard) w = (Err e, w) ∧
      (e = ErrStoreNotFound ∧ (∀ h, id_ok c h → ¬ stored F K c h) ∨ faulty)) as (e & -> & He).
    { destruct iterErr; [eexists; split; [done|]; right; by destruct Hl|].
      destruct rerr as [err|]; (eexists; split; [done|]); destruct Hres as [[E Hmiss]|[? ?]]; try discriminate; auto.
      left. split; [done|]. intros h Hi [Hmk HFh]. destruct (marked_in_scan K c h Hmk) as [v Hin]. fold scan in Hin.
      rewrite <- Hl in Hin. eapply Forall_forall in Hmiss; [|exact Hin].
      rewrite (Hmiss h) in HFh by done. by destruct HFh. }
    cbn. split; [by exists K'|done].
Qed.
End StoreProofs.
