(* ===== verification/ShardStorePrune.v ===== *)
(** * Pruning the shard store

    [PruneBefore] removes exactly the entries whose prune time lies in an
    earlier minute than the cutoff, and reports the bytes it freed. *)

From S2P Require Import Prelude Sdk FibrePromise FibreCache FibreBlobId Disk ShardCodec Timestamp ShardStore ShardStoreKeys ShardStoreProofs.
#[local] Open Scope Z_scope.

Section Pruning.
Context `{CR : Crypto} `{PC : PromiseCodec} `{PL : !PromiseCodecLaws} {W : Type} `{FS : !Vfs W} `{DB : !Pebble W} `{DL : !DiskLaws W}.
Context (cfg : StoreConfig).

(** ** Bytes on disk *)

(** The total size of the files below the directory of shards. *)
Definition in_shards (F : gmap bytes bytes) : gmap bytes bytes := filter (λ kv, below (shardsDir cfg) kv.1) F.
Definition stored_bytes (F : gmap bytes bytes) : Z := msum (λ d, Z.of_nat (length d)) (in_shards F).

Lemma stored_bytes_nonneg F : 0 <= stored_bytes F.
Proof. apply msum_nonneg. lia. Qed.

Lemma in_shards_lookup F p : below (shardsDir cfg) p → in_shards F !! p = F !! p.
Proof.
  intros Hp. unfold in_shards. destruct (F !! p) as [d|] eqn:E.
  - by apply map_lookup_filter_Some.
  - apply map_lookup_filter_None. by left.
Qed.

Lemma stored_bytes_delete F p : below (shardsDir cfg) p →
  stored_bytes (delete p F) = stored_bytes F - default 0 ((λ d, Z.of_nat (length d)) <$> F !! p).
Proof.
  intros Hp. unfold stored_bytes, in_shards. rewrite map_filter_delete. fold (in_shards F).
  rewrite <- (in_shards_lookup F p Hp). destruct (in_shards F !! p) as [d|] eqn:E; cbn.
  - by apply (msum_delete (λ d, Z.of_nat (length d))).
  - rewrite delete_id by done. lia.
Qed.

Lemma stored_bytes_ext F F' : (∀ p, below (shardsDir cfg) p → F' !! p = F !! p) → stored_bytes F' = stored_bytes F.
Proof.
  intros H. unfold stored_bytes. f_equal. apply map_eq. intros p. unfold in_shards.
  apply option_eq. intros d. rewrite !map_lookup_filter_Some. cbn. split; intros [Hd Hp]; rewrite H in * by done; done.
Qed.

Lemma stored_bytes_insert F p d : below (shardsDir cfg) p →
  stored_bytes (<[p:=d]> F) =
  stored_bytes F - default 0 ((λ d, Z.of_nat (length d)) <$> F !! p) + Z.of_nat (length d).
Proof.
  intros Hp. rewrite <- insert_delete_eq. unfold stored_bytes at 1, in_shards.
  rewrite map_filter_insert_True by done. rewrite (msum_insert (λ d, Z.of_nat (length d))).
  - fold (in_shards (delete p F)). fold (stored_bytes (delete p F)). rewrite stored_bytes_delete by done. lia.
  - apply map_lookup_filter_None. left. apply lookup_delete_eq.
Qed.

(** ** Entries of the index *)

Definition Entry : Type := (Z * bytes * bytes)%type.
Definition entry_key (e : Entry) : bytes := let '(t, c, h) := e in pruneKey t c h.
Definition entry_path (e : Entry) : bytes := let '(t, c, h) := e in shardFilePath cfg c h.
Definition entry_deletes (e : Entry) : list BatchOp :=
  let '(t, c, h) := e in map fst (prune_deletes (pruneKey t c h) c h).
Definition entry_ok (e : Entry) : Prop := let '(t, c, h) := e in time_ok t ∧ id_ok c h.

(** An entry whose prune time lies before the cutoff [b]. *)
Definition entry_due (K : gmap bytes bytes) (b : Z) (e : Entry) : Prop :=
  let '(t, c, h) := e in time_ok t ∧ id_ok c h ∧ is_Some (K !! pruneKey t c h) ∧ t / Minute < b / Minute.

Definition delete_files (F : gmap bytes bytes) (paths : list bytes) : gmap bytes bytes :=
  foldl (λ F p, delete p F) F paths.

Lemma delete_files_snoc F l p : delete_files F (l ++ [p]) = delete p (delete_files F l).
Proof. unfold delete_files. by rewrite foldl_app. Qed.

Lemma delete_files_lookup F l p : delete_files F l !! p = if decide (p ∈ l) then None else F !! p.
Proof.
  induction l as [|q l IH] using rev_ind; [by rewrite decide_False by set_solver|].
  rewrite delete_files_snoc. destruct (decide (p = q)) as [->|Hne].
  - rewrite lookup_delete_eq, decide_True by set_solver. done.
  - rewrite lookup_delete_ne, IH by done. destruct (decide (p ∈ l)).
    + rewrite decide_True by set_solver. done.
    + rewrite decide_False by set_solver. done.
Qed.

Definition batch_of (l : list Entry) : list BatchOp := concat (map entry_deletes l).

Lemma batch_of_snoc l e : batch_of (l ++ [e]) = batch_of l ++ entry_deletes e.
Proof. unfold batch_of. by rewrite map_app, concat_app; cbn; rewrite app_nil_r. Qed.

(** A batch of deletions removes the keys it names. *)
Lemma batch_deletes K ops k : Forall (λ op, ∃ k, op = BDelete k) ops →
  foldl batch_apply K ops !! k = if decide (BDelete k ∈ ops) then None else K !! k.
Proof.
  induction ops as [|op ops IH] using rev_ind; intros HF; [by rewrite decide_False by set_solver|].
  apply Forall_app in HF as [HF [[k' ->] _]%Forall_cons]. rewrite foldl_app. cbn.
  destruct (decide (k = k')) as [->|Hne].
  - rewrite lookup_delete_eq, decide_True by set_solver. done.
  - rewrite lookup_delete_ne, IH by done. destruct (decide (BDelete k ∈ ops)).
    + rewrite decide_True by set_solver. done.
    + rewrite decide_False; [done|]. rewrite elem_of_app, list_elem_of_singleton. naive_solver.
Qed.

Lemma batch_of_deletes l : Forall (λ op, ∃ k, op = BDelete k) (batch_of l).
Proof.
  unfold batch_of. induction l as [|[[t c] h] l IH]; cbn; [constructor|]. repeat (constructor; [eauto|]). done.
Qed.

Lemma elem_of_batch l k : BDelete k ∈ batch_of l ↔
  ∃ t c h, (t, c, h) ∈ l ∧ (k = pruneKey t c h ∨ k = shardKey c h ∨ k = promiseKey h).
Proof.
  unfold batch_of. induction l as [|[[t c] h] l IH]; cbn.
  { split; [set_solver|]. intros (? & ? & ? & ? & _). set_solver. }
  rewrite !elem_of_cons, IH. split.
  - intros [[= ->]|[[= ->]|[[= ->]|(t' & c' & h' & Hin & Hk)]]]; [exists t, c, h; set_solver..|].
    exists t', c', h'. split; [by right|done].
  - intros (t' & c' & h' & Hin & Hk). apply elem_of_cons in Hin as [[= -> -> ->]|Hin]; [naive_solver|].
    right. right. right. eauto.
Qed.

(** ** The effect of a pass *)

Record pass (F0 K : gmap bytes bytes) (b : Z) (r : PruneResult) (F' K' : gmap bytes bytes)
    (done gone : list Entry) : Prop := {
  pass_due : Forall (entry_due K b) gone;
  pass_done : done `prefix_of` gone;
  pass_files : F' = delete_files F0 (map entry_path gone);
  pass_count : pr_pruned r = Z.of_nat (length done);
  pass_freed : pr_bytes r = stored_bytes F0 - stored_bytes (delete_files F0 (map entry_path done));
  pass_ok : pr_err r = None → gone = done ∧ K' = foldl batch_apply K (batch_of done);
  pass_err : is_Some (pr_err r) → K' = K ∧ faulty;
}.

(** The entries of a scan. *)
Definition scanned (K : gmap bytes bytes) (kv : bytes * bytes) : Prop :=
  K !! kv.1 = Some kv.2 ∧ ∃ e, entry_ok e ∧ kv.1 = entry_key e.

Definition covered (K : gmap bytes bytes) (b : Z) (l : list (bytes * bytes)) (done : list Entry) : Prop :=
  ∀ kv e, kv ∈ l → kv.1 = entry_key e → entry_due K b e → ∃ e', e' ∈ done ∧ entry_key e' = entry_key e.

Context (F0 K : gmap bytes bytes) (b : Z) (Hb : time_ok b) (Hbytes : stored_bytes F0 < two63).

Let now (done : list Entry) : gmap bytes bytes := delete_files F0 (map entry_path done).
Let freed (done : list Entry) : Z := stored_bytes F0 - stored_bytes (now done).

Lemma now_snoc done e : now (done ++ [e]) = delete (entry_path e) (now done).
Proof. unfold now. rewrite map_app. apply delete_files_snoc. Qed.

Lemma freed_snoc done t c h : freed (done ++ [(t, c, h)]) =
  freed done + default 0 ((λ d, Z.of_nat (length d)) <$> now done !! shardFilePath cfg c h).
Proof.
  unfold freed. rewrite now_snoc. cbn [entry_path]. rewrite stored_bytes_delete by apply shard_below. lia.
Qed.

Lemma freed_range done : i64 (freed done).
Proof.
  assert (0 <= freed done <= stored_bytes F0); [|fits].
  pose proof (stored_bytes_nonneg (now done)). split; [|unfold freed; lia].
  induction done as [|[[t c] h] done IH] using rev_ind; [unfold freed; cbn; lia|].
  rewrite freed_snoc. specialize (IH (stored_bytes_nonneg _)).
  destruct (now done !! shardFilePath cfg c h); cbn; lia.
Qed.

Lemma pass_failed done msg : Forall (entry_due K b) done → faulty →
  pass F0 K b (mkPruneResult (Z.of_nat (length done)) (freed done) (Some msg)) (now done) K done done.
Proof. intros Hd Hf. by split. Qed.

Lemma commit_prune_spec done : Forall (entry_due K b) done →
  {{ holds (now done) K }} commit_prune (batch_of done) (Z.of_nat (length done)) (freed done)
  {{ outcome (λ r w, ∃ F' K', holds F' K' w ∧ pass F0 K b r F' K' done done) (λ _ _, False) }}.
Proof.
  intros Hd. unfold commit_prune. eapply outcome_bind; [apply outcome_attempt, commit_spec|].
  intros [e|[]]; apply outcome_ret; intros w Hw.
  - destruct Hw as [Hf Hw]. exists (now done), K. split; [done|]. by apply pass_failed.
  - exists (now done), (foldl batch_apply K (batch_of done)). split; [done|]. split; try done. by intros [? ?].
Qed.

Lemma prune_stat_spec F c h :
  {{ holds F K }} prune_stat (shardFilePath cfg c h)
  {{ outcome (λ s w, holds F K w ∧
       match s with
       | Some n => n = default 0 ((λ d, Z.of_nat (length d)) <$> F !! shardFilePath cfg c h)
       | None => faulty
       end) (λ _ _, False) }}.
Proof.
  unfold prune_stat. eapply outcome_bind; [apply outcome_attempt, stat_spec|]. intros [e|n] w Hw.
  - destruct Hw as [Hl Hw]. cbn. split; [done|].
    destruct (String.eqb_spec e ErrNotExist) as [->|Hne]; destruct Hl as [[? HF]|[? ?]]; try done. by rewrite HF.
  - destruct Hw as [(d & HF & ->) Hw]. cbn. split; [done|]. by rewrite HF.
Qed.

Lemma prune_remove_spec F c h :
  {{ holds F K }} prune_remove (shardFilePath cfg c h)
  {{ outcome (λ (ok : bool) w, if ok then holds (delete (shardFilePath cfg c h) F) K w else faulty ∧ holds F K w)
             (λ _ _, False) }}.
Proof.
  unfold prune_remove. eapply outcome_bind; [apply outcome_attempt, remove_spec|]. intros [e|[]] w Hw.
  - destruct Hw as [Hl Hw]. cbn. destruct (String.eqb_spec e ErrNotExist) as [->|Hne]; destruct Hl as [[? HF]|[? ?]]; try done.
    by rewrite delete_id.
  - by destruct Hw.
Qed.

Lemma batch_all_spec F ops :
  {{ holds F K }} batch_all ops
  {{ outcome (λ e w, holds F K w ∧ (is_Some e → faulty)) (λ _ _, False) }}.
Proof.
  induction ops as [|[op msg] ops IH]; cbn [batch_all].
  { apply outcome_ret. intros w Hw. split; [done|]. by intros [? ?]. }
  eapply outcome_bind; [apply outcome_attempt, batch_spec|]. intros [e|[]].
  - apply outcome_ret. by intros w [? ?].
  - exact IH.
Qed.

Lemma not_due_after kv l e : Forall (scanned K) (kv :: l) → StronglySorted entry_le (kv :: l) →
  entry_ok e → kv.1 = entry_key e → bytes_le (formatTimestamp b) (formatTimestamp e.1.1) →
  ∀ kv' e', kv' ∈ kv :: l → kv'.1 = entry_key e' → ¬ entry_due K b e'.
Proof.
  destruct e as [[t c] h]. intros HF Hs [Ht Hi] Hk Hle kv' [[t' c'] h'] Hin Hk' (Ht' & Hi' & _ & Hlt). cbn in Hle, Hk, Hk'.
  assert (bytes_le kv.1 kv'.1) as Hkk.
  { apply elem_of_cons in Hin as [->|Hin]; [apply bytes_le_lteq; by right|].
    apply StronglySorted_inv in Hs as [_ Hs]. by eapply Forall_forall in Hs. }
  rewrite Hk, Hk' in Hkk. apply pruneKey_le_stamp in Hkk; [|done..].
  assert (bytes_le (formatTimestamp b) (formatTimestamp t')) as Hb' by by etrans.
  apply bytes_le_not_lt in Hb'. apply Hb'. by apply formatTimestamp_lt.
Qed.

Lemma prune_pass_spec iterErr l post : (is_Some iterErr → faulty) → (iterErr = None → post = []) →
  Forall (scanned K) (l ++ post) → StronglySorted entry_le (l ++ post) → ∀ done,
  Forall (entry_due K b) done → Z.of_nat (length done + length l) < two63 →
  {{ holds (now done) K }}
    prune_loop cfg iterErr (formatTimestamp b) l (batch_of done) (Z.of_nat (length done)) (freed done)
  {{ outcome (λ r w, ∃ F' K' done' gone, holds F' K' w ∧ pass F0 K b r F' K' done' gone ∧
       done `prefix_of` done' ∧ (pr_err r = None → covered K b (l ++ post) done')) (λ _ _, False) }}.
Proof.
  intros Hit Hpost. induction l as [|[key v] l IH]; intros HF Hs done Hd Hlen; cbn [prune_loop].
  { destruct iterErr as [e|].
    - apply outcome_ret. intros w Hw. exists (now done), K, done, done. split; [done|].
      split; [apply pass_failed; eauto|]. by split.
    - eapply outcome_weaken; [by apply commit_prune_spec|done| |done]. intros r w (F' & K' & Hw & Hp).
      exists F', K', done, done. split; [done|]. split; [done|]. split; [done|].
      rewrite Hpost by done. intros _ kv e Hin. set_solver. }
  cbn [app] in HF, Hs |- *. pose proof HF as HF'. apply Forall_cons in HF' as [[HK ([[t c] h] & [Ht Hi] & Hk)] HFl].
  cbn in HK, Hk. subst key.
  destruct (Nat.ltb_spec (length (pruneKey t c h)) 19); [pose proof (pruneKey_length t c h Ht); lia|].
  rewrite pruneKey_stamp by done. case_bool_decide as Hle.
  { eapply outcome_weaken; [by apply commit_prune_spec|done| |done]. intros r w (F' & K' & Hw & Hp).
    exists F', K', done, done. split; [done|]. split; [done|]. split; [done|]. intros _ kv e Hin Hke Hdue.
    exfalso. eapply (not_due_after _ _ (t, c, h)); try done. }
  assert (t / Minute < b / Minute) as Hlt.
  { apply formatTimestamp_lt; [done..|]. destruct (decide (bytes_lt (formatTimestamp t) (formatTimestamp b))); [done|].
    destruct Hle. by apply bytes_le_not_lt. }
  rewrite parse_pruneKey by done.
  assert (Forall (entry_due K b) (done ++ [(t, c, h)])) as Hd'.
  { apply Forall_app. split; [done|]. constructor; [|constructor].
    split; [done|]. split; [done|]. split; [by exists v|done]. }
  eapply outcome_bind; [apply prune_stat_spec|]. intros [n|] w [Hw Hn]; revert w Hw.
  2: { apply outcome_ret. intros w Hw. exists (now done), K, done, done. split; [done|].
       split; [by apply pass_failed|]. by split. }
  eapply outcome_bind; [apply prune_remove_spec|]. intros [|]; cbn [negb].
  2: { apply outcome_ret. intros w [Hf Hw]. exists (now done), K, done, done. split; [done|].
       split; [by apply pass_failed|]. by split. }
  change (shardFilePath cfg c h) with (entry_path (t, c, h)). rewrite <- now_snoc.
  eapply outcome_bind; [apply batch_all_spec|]. intros [msg|] w [Hw Hf]; revert w Hw.
  - apply outcome_ret. intros w Hw. exists (now (done ++ [(t, c, h)])), K, done, (done ++ [(t, c, h)]).
    split; [done|]. split; [|by split]. split; try done; [by exists [(t, c, h)]|]. intros _. split; [done|]. apply Hf. eauto.
  - assert (wrap_i64 (freed done + n) = freed (done ++ [(t, c, h)])) as ->.
    { rewrite Hn, <- (freed_snoc done t). apply wrap_i64_id, freed_range. }
    assert (wrap_i64 (Z.of_nat (length done) + 1) = Z.of_nat (length (done ++ [(t, c, h)]))) as ->.
    { rewrite length_app. cbn [length] in *. rewrite wrap_i64_id by (cbn in Hlen; fits). lia. }
    change (map fst (prune_deletes (pruneKey t c h) c h)) with (entry_deletes (t, c, h)). rewrite <- batch_of_snoc.
    apply StronglySorted_inv in Hs as [Hs _].
    eapply outcome_weaken; [apply (IH HFl Hs); [done|]|done| |done].
    { rewrite length_app. cbn in *. lia. }
    intros r w (F' & K' & done' & gone & Hw & Hp & Hpre & Hcov). exists F', K', done', gone.
    split; [done|]. split; [done|]. split; [etrans; [|exact Hpre]; by exists [(t, c, h)]|].
    intros He kv e Hin Hke Hdue. apply elem_of_cons in Hin as [->|Hin]; [|by eapply Hcov].
    exists (t, c, h). split; [|done]. destruct Hpre as [rest ->]. set_solver.
Qed.
End Pruning.

Section PruneBefore.
Context `{CR : Crypto} `{PC : PromiseCodec} `{PL : !PromiseCodecLaws} {W : Type} `{FS : !Vfs W} `{DB : !Pebble W} `{DL : !DiskLaws W}.
Context (cfg : StoreConfig).

Lemma scan_entries K : keys_ok K →
  Forall (scanned K) (key_range prune_prefix (prefixUpperBound prune_prefix) K).
Proof.
  intros HK. apply Forall_forall. intros [k v] Hin. apply elem_of_key_range in Hin as [Hk Hr].
  apply scan_prune in Hr. split; [done|]. cbn.
  destruct (HK k) as [(h & _ & ->)|[(c & h & _ & ->)|(t & c & h & Ht & Hi & ->)]]; [eauto| | |].
  - by apply prune_prefix_not_promise in Hr.
  - by apply prune_prefix_not_shard in Hr.
  - by exists (t, c, h).
Qed.

Lemma length_key_range lo hi K : (length (key_range lo hi K) <= size K)%nat.
Proof.
  unfold key_range, sorted_entries. etrans; [apply length_filter|].
  rewrite (Permutation_length (merge_sort_Permutation entry_le (map_to_list K))). by rewrite length_map_to_list.
Qed.

(** A pass without error deletes every due entry; a pass with one was cut short
    by a fault and left the database as it was. *)
Lemma PruneBefore_spec F K b : keys_ok K → time_ok b → stored_bytes cfg F < two63 → Z.of_nat (size K) < two63 →
  {{ holds F K }} PruneBefore cfg b
  {{ outcome (λ r w, ∃ F' K' done gone, holds F' K' w ∧ pass cfg F K b r F' K' done gone ∧
       (pr_err r = None → ∀ e, entry_due K b e → ∃ e', e' ∈ done ∧ entry_key e' = entry_key e))
     (λ _ _, False) }}.
Proof.
  intros HK Hb Hbytes Hsize. unfold PruneBefore.
  assert (stored_bytes cfg F - stored_bytes cfg (delete_files F (map (entry_path cfg) [])) = 0) as H0 by (cbn; lia).
  eapply outcome_bind; [apply outcome_attempt, iter_spec|]. intros [e|[l iterErr]] w Hw.
  - destruct Hw as [Hf Hw]. cbn. exists F, K, [], []. split; [done|]. split; [|done].
    by split; cbn [pr_bytes pr_err pr_pruned].
  - destruct Hw as [Hw Hl]. cbn [fst snd] in Hl. revert w Hw.
    set (scan := key_range prune_prefix (prefixUpperBound prune_prefix) K) in *.
    assert (l `prefix_of` scan) as [post Hpre] by (destruct iterErr; [by destruct Hl|by rewrite Hl]).
    pose proof (scan_entries K HK) as Hs. pose proof (Sorted_key_range prune_prefix (prefixUpperBound prune_prefix) K) as Hsort.
    fold scan in Hs, Hsort. rewrite Hpre in Hs, Hsort.
    pose proof (λ H1 H2 H3 H4, prune_pass_spec cfg F K b Hb Hbytes iterErr l post H1 H2 H3 H4 []) as HL.
    cbv zeta beta in HL. rewrite H0 in HL. eapply outcome_weaken; [apply HL|done| |done]; clear HL.
    + intros [? ->]. by destruct Hl.
    + intros ->. rewrite Hl, <- (app_nil_r scan) in Hpre at 1. by apply app_inv_head in Hpre.
    + done.
    + done.
    + constructor.
    + pose proof (length_key_range prune_prefix (prefixUpperBound prune_prefix) K) as Hlen. fold scan in Hlen.
      rewrite Hpre, length_app in Hlen. cbn. lia.
    + intros r w (F' & K' & done & gone & Hw & Hp & _ & Hcov). exists F', K', done, gone. split; [done|]. split; [done|].
      intros He [[t c] h] Hdue. pose proof Hdue as (_ & _ & [v Hv] & _).
      apply (Hcov He (pruneKey t c h, v)); [|done|done]. rewrite <- Hpre.
      apply elem_of_key_range. split; [done|]. apply scan_prune, pruneKey_prefix.
Qed.
End PruneBefore.
