(* ===== verification/ShardStoreTrace.v ===== *)
(** * Histories of the shard store

    The operations of [fibre/store.go] as steps of one system: what the disk
    keeps across any sequence of them, and what keeps one shard in place until
    its prune time. Every call may fail on a faulty disk. *)

From S2P Require Import Prelude Sdk FibrePromise FibreCache FibreBlobId Disk ShardCodec Timestamp ShardStore ShardStoreKeys ShardStoreProofs ShardStorePrune.
#[local] Open Scope Z_scope.

(** The calls of the store, with what each reads from its surroundings. A store
    is opened again after it was closed, which keeps everything committed. *)
Inductive op :=
  | OpPut (env : PutEnv) (promise : PaymentPromise) (shard : BlobShard) (pruneAt : Z)
  | OpGet (commitment : bytes)
  | OpHas (commitment promiseHash : bytes)
  | OpSize (ctxErr : bytes → option error)
  | OpPromise (promiseHash : bytes)
  | OpPrune (before : Z)
  | OpOpen (opened : option error).

Section Trace.
Context `{CR : Crypto} `{PC : PromiseCodec} `{PL : !PromiseCodecLaws} {W : Type} `{FS : !Vfs W} `{DB : !Pebble W} `{DL : !DiskLaws W}.
Context (cfg : StoreConfig).

(** The disk after a call. *)
Definition run_op (o : op) (w : W) : W :=
  match o with
  | OpPut env promise shard pruneAt => (Put cfg env promise shard pruneAt w).2
  | OpGet c => (Get cfg c w).2
  | OpHas c h => (Has cfg c h w).2
  | OpSize ctxErr => (Size cfg ctxErr w).2
  | OpPromise h => (GetPaymentPromise h w).2
  | OpPrune b => (PruneBefore cfg b w).2
  | OpOpen opened => (openStore cfg opened w).2
  end.

(** A shard without nil rows that the format can carry. *)
Definition shard_ok (shard : BlobShard) : Prop :=
  ∃ rows, sh_Rows shard = map Some rows ∧ shard_fits rows (sh_Rlcs shard).

(** Arguments of the sizes the callers check. *)
Definition op_ok (o : op) : Prop :=
  match o with
  | OpPut env promise shard pruneAt =>
      (∃ h, Hash promise = Ok h ∧ id_ok (Commitment promise) h) ∧ shard_ok shard ∧ time_ok pruneAt
  | OpGet c => length c = CommitmentSize ∧ Forall byte_ok c
  | OpPrune b => time_ok b
  | _ => True
  end.

(** Counts of bytes and keys that fit an [int64]. *)
Definition small (w : W) : Prop := stored_bytes cfg (files w) < two63 ∧ Z.of_nat (size (kvs w)) < two63.

(** The form of the keys and files, and that every marker has an index entry,
    so that pruning finds its shard. *)
Record store_ok (w : W) : Prop := {
  ok_keys : keys_ok (kvs w);
  ok_files : files_ok cfg (files w);
  ok_index : ∀ c h, id_ok c h → marked (kvs w) c h → ∃ t, time_ok t ∧ is_Some (kvs w !! pruneKey t c h);
}.

(** ** Keys of a publication *)

Lemma published_lookup K h pp c t k : is_Some (published K h pp c t !! k) ↔
  is_Some (K !! k) ∨ k = promiseKey h ∨ k = shardKey c h ∨ k = pruneKey t c h.
Proof.
  unfold published. rewrite !lookup_insert_is_Some'. split; naive_solver.
Qed.

Lemma published_marked K h pp c t c' h' : id_ok c h → id_ok c' h' →
  marked (published K h pp c t) c' h' ↔ marked K c' h' ∨ c' = c ∧ h' = h.
Proof.
  intros Hi Hi'. unfold marked. rewrite published_lookup. split.
  - intros [H|[H|[H|H]]]; [by left| | |].
    + by apply (eq_sym (y := _)) , promiseKey_not_shardKey in H.
    + right. apply shardKey_inj in H as [-> ->]; done.
    + by apply shardKey_not_pruneKey in H.
  - intros [H|[-> ->]]; [by left|]. auto.
Qed.

Lemma published_index K h pp c t t' c' h' : id_ok c h → id_ok c' h' → time_ok t → time_ok t' →
  is_Some (published K h pp c t !! pruneKey t' c' h') → is_Some (K !! pruneKey t' c' h') ∨ c' = c ∧ h' = h.
Proof.
  intros Hi Hi' Ht Ht'. rewrite published_lookup. intros [H|[H|[H|H]]]; [by left| | |].
  - by apply (eq_sym (y := _)), promiseKey_not_pruneKey in H.
  - by apply (eq_sym (y := _)), shardKey_not_pruneKey in H.
  - right. by apply pruneKey_inj in H.
Qed.

(** ** Each operation *)

Lemma shard_ok_rows shard : shard_ok shard → Forall is_Some (sh_Rows shard) ∧ ∃ s, readable (shard_bytes shard) s ∧ s = shard.
Proof.
  destruct shard as [rs rlcs]. intros (rows & E & Hf). cbn in E, Hf. subst rs. split.
  - apply Forall_forall. intros r Hr. apply list_elem_of_fmap in Hr as (x & -> & _). done.
  - eexists. split; [|done]. exists rows, rlcs. unfold shard_bytes. cbn. by rewrite omap_Some.
Qed.

(** A call that only touches staging. *)
Lemma resetStaging_spec F K :
  {{ holds F K }} resetStaging cfg {{ outcome (λ _, holds_staged cfg F K) (λ _, holds_staged cfg F K) }}.
Proof.
  assert (∀ w, holds F K w → holds_staged cfg F K w) as H0 by apply holds_staged_refl.
  assert (∀ n : Z, {{ holds F K }} (_ ← wrap_err "removing staging" (io_unit (vfs_RemoveAll (stagingDir cfg)));
      _ ← wrap_err "recreating staging" (io_unit (vfs_MkdirAll (stagingDir cfg))); mret n)
    {{ outcome (λ _, holds_staged cfg F K) (λ _, holds_staged cfg F K) }}) as Hre.
  { intros n. eapply (outcome_bind _ _ _ (λ _, holds_staged cfg F K)).
    - apply (wrap_err_spec _ _ _ _ (λ _, holds_staged cfg F K)); [|done]. intros w [<- <-]. unfold io_unit.
      pose proof (vfs_RemoveAll_law (stagingDir cfg) w) as L. destruct (vfs_RemoveAll _ w) as [e w'].
      destruct L as (HK & _ & HF & _). assert (holds_staged cfg (files w) (kvs w) w') by (exists (files w'); split; [exact HF|done]).
      by destruct e.
    - intros []. eapply (outcome_bind _ _ _ (λ _, holds_staged cfg F K)); [|by intros []; apply outcome_ret].
      apply (wrap_err_spec _ _ _ _ (λ _, holds_staged cfg F K)); [|done]. intros w (F' & HF & <- & <-). unfold io_unit.
      pose proof (vfs_MkdirAll_law (stagingDir cfg) w) as L. destruct (vfs_MkdirAll _ w) as [e w'].
      destruct L as (HK & HF' & _). assert (holds_staged cfg F (kvs w) w') by (exists (files w'); split; [by rewrite HF'|done]).
      by destruct e. }
  assert ({{ holds F K }} io_sum (vfs_List (stagingDir cfg)) {{ outcome (λ _, holds F K) (λ _, holds F K) }}) as Hls.
  { intros w [<- <-]. unfold io_sum. pose proof (vfs_List_law (stagingDir cfg) w) as L.
    destruct (vfs_List _ w) as [[e|l] w']; by destruct L as (? & ? & _). }
  unfold resetStaging. eapply (outcome_bind _ _ _ (λ _, holds F K)).
  - eapply outcome_weaken; [apply (outcome_attempt _ _ (λ _, holds F K) (λ _, holds F K) (λ _, holds_staged cfg F K)), Hls|done|by intros [?|?]|done].
  - intros [e|l]; [|apply Hre]. destruct (negb _); [by apply outcome_err|apply Hre].
Qed.

Lemma holds_staged_trans F K m : (∀ F', {{ holds F' K }} m {{ outcome (λ _ : unit, holds_staged cfg F' K) (λ _, holds_staged cfg F' K) }}) →
  {{ holds_staged cfg F K }} m {{ outcome (λ _, holds_staged cfg F K) (λ _, holds_staged cfg F K) }}.
Proof.
  intros Hm w (F' & HF & Hw). specialize (Hm F' w Hw). destruct (m w) as [[[]|e|p] w']; cbn in *; [| |done];
    destruct Hm as (F2 & HF2 & ?); exists F2; (split; [by eapply staged_trans|done]).
Qed.

Lemma openStore_spec F K opened :
  {{ holds F K }} openStore cfg opened {{ outcome (λ _, holds_staged cfg F K) (λ _, holds_staged cfg F K) }}.
Proof.
  assert (∀ d, {{ holds_staged cfg F K }} io_unit (vfs_MkdirAll d) {{ outcome (λ _, holds_staged cfg F K) (λ _, holds_staged cfg F K) }}) as Hmk.
  { intros d w (F' & HF & <- & <-). unfold io_unit. pose proof (vfs_MkdirAll_law d w) as L. destruct (vfs_MkdirAll d w) as [e w'].
    destruct L as (HK & HF' & _). assert (holds_staged cfg F (kvs w) w') by (exists (files w'); split; [by rewrite HF'|done]). by destruct e. }
  unfold openStore. eapply (outcome_bind _ _ _ (λ _, holds_staged cfg F K)).
  { eapply (wrap_err_spec _ _ _ _ (λ _, holds_staged cfg F K)); [|done]. intros w Hw. apply (holds_staged_refl cfg) in Hw.
    unfold pure, StoreConfig_Validate, ensure. by destruct (negb _). }
  intros []. eapply outcome_bind; [by eapply wrap_err_spec; [apply Hmk|]|]. intros [].
  eapply outcome_bind; [by eapply wrap_err_spec; [apply Hmk|]|]. intros []. destruct opened; [by apply outcome_err|].
  eapply (wrap_err_spec _ _ _ _ (λ _, holds_staged cfg F K)); [|done].
  apply holds_staged_trans. intros F'. unfold reconcile. eapply outcome_bind; [apply resetStaging_spec|]. intros n. by apply outcome_ret.
Qed.

Lemma size_loop_spec F K ctxErr names : ∀ n,
  {{ holds F K }} size_loop cfg ctxErr names n {{ outcome (λ _, holds F K) (λ _, holds F K) }}.
Proof.
  induction names as [|x names IH]; intros n; cbn [size_loop]; [by apply outcome_ret|].
  eapply outcome_bind; [apply outcome_attempt, stat_spec|]. intros [e|s] w Hw; destruct Hw as [_ Hw]; revert w Hw.
  - destruct (String.eqb _ _); [apply IH|by apply outcome_err].
  - destruct (ctxErr x); [by apply outcome_ret|apply IH].
Qed.

Lemma Size_spec F K ctxErr : {{ holds F K }} Size cfg ctxErr {{ outcome (λ _, holds F K) (λ _, holds F K) }}.
Proof.
  unfold Size. eapply outcome_bind; [|intros names; apply size_loop_spec].
  eapply (wrap_err_spec _ _ _ _ (λ _, holds F K)); [|done]. intros w [<- <-]. unfold io_sum.
  pose proof (vfs_List_law (shardsDir cfg) w) as L. destruct (vfs_List _ w) as [[e|l] w']; by destruct L as (? & ? & _).
Qed.

(** A call that leaves the disk as it was, whatever it returns. *)
Lemma GetPaymentPromise_keeps F K h : {{ holds F K }} GetPaymentPromise h {{ λ _, holds F K }}.
Proof.
  unfold GetPaymentPromise. eapply (triple_bind _ _ _ (λ _, holds F K)); [|intros [d|]|done].
  - eapply (triple_weaken (holds F K)); [eapply wrap_err_spec with (E' := λ _, holds F K); [apply get_spec|by intros ? ? [_ ?]]|done|].
    by intros [v|e|p] w; [intros [_ ?]| |].
  - eapply (triple_bind _ _ _ (λ _, holds F K)); [|intros pb|done]; unfold wrap_err, attempt, pure, mbind, io_bind; intros w Hw;
      [by destruct (Unmarshal d)|by destruct (FromProto (Some pb))].
  - by apply triple_pure.
Qed.

(** ** Invariant *)

Lemma store_ok_intro F K w : holds F K w → keys_ok K → files_ok cfg F →
  (∀ c h, id_ok c h → marked K c h → ∃ t, time_ok t ∧ is_Some (K !! pruneKey t c h)) → store_ok w.
Proof. intros [<- <-] ? ? ?. by split. Qed.

Lemma store_ok_staged w w' : store_ok w → holds_staged cfg (files w) (kvs w) w' → store_ok w'.
Proof.
  intros [HK HF HI] (F' & HF' & Hw). eapply store_ok_intro; [exact Hw|done| |done].
  intros c h d Hi Hd. rewrite HF' in Hd by apply shard_not_staging. eauto.
Qed.

Lemma store_ok_same w w' : store_ok w → holds (files w) (kvs w) w' → store_ok w'.
Proof. intros Hs Hw. eapply store_ok_staged; [done|]. by apply holds_staged_refl. Qed.

(** The file of one shard replaced by a readable one, kept or removed. *)
Lemma files_ok_same_but F F' c h : files_ok cfg F → id_ok c h → same_but cfg F F' (shardFilePath cfg c h) →
  (∀ d, F' !! shardFilePath cfg c h = Some d → ∃ s, readable d s) → files_ok cfg F'.
Proof.
  intros HF Hi Hs Hd c' h' d' Hi' Hd'. destruct (decide (shardFilePath cfg c' h' = shardFilePath cfg c h)) as [E|E].
  - apply Hd. by rewrite <- E.
  - rewrite Hs in Hd'; [eauto|apply shard_not_staging|done].
Qed.

Lemma put_store_ok env promise shard pruneAt w : store_ok w → op_ok (OpPut env promise shard pruneAt) →
  store_ok (Put cfg env promise shard pruneAt w).2.
Proof.
  intros [HK HF HI] ((h & Hh & Hi) & Hs & Ht). destruct (shard_ok_rows shard Hs) as (Hr & s & Hrd & _).
  pose proof (Put_spec cfg (files w) (kvs w) env promise shard pruneAt h Hh Hr w (conj eq_refl eq_refl)) as H.
  destruct (Put _ _ _ _ _ w) as [[[]|e|p] w']; cbn in *; [| |done].
  - destruct H as (F' & pb & pp & _ & _ & Hw & Hsame & Hpath). eapply store_ok_intro; [exact Hw| | |].
    + intros k. rewrite published_lookup. intros [Hk|[->|[->| ->]]]; [by apply HK| | |].
      * left. exists h. split; [apply Hi|done].
      * right. left. by exists (Commitment promise), h.
      * right. right. by exists pruneAt, (Commitment promise), h.
    + eapply files_ok_same_but; eauto. intros d Hd. rewrite Hpath in Hd. injection Hd as <-. eauto.
    + intros c' h' Hi' Hm. apply published_marked in Hm; [|done..]. destruct Hm as [Hm|[-> ->]].
      * destruct (HI c' h' Hi' Hm) as (t & Hot & Hk). exists t. split; [done|]. apply published_lookup. by left.
      * exists pruneAt. split; [done|]. apply published_lookup. auto.
  - destruct H as (_ & F' & Hw & Hsame & Hpath). eapply store_ok_intro; [exact Hw|done| |done].
    eapply files_ok_same_but; eauto. intros d Hd. destruct Hpath as [E|[_ [E|E]]]; rewrite E in Hd; [eauto| |done].
    injection Hd as <-. eauto.
Qed.

Lemma dropped_marked F c K K' c' h' : dropped cfg F c K K' → marked K' c' h' → marked K c' h'.
Proof. intros Hd [v Hv]. destruct (Hd (shardKey c' h')) as [E|[E _]]; rewrite E in Hv; [by exists v|done]. Qed.

(** Pruning keeps a marker with its entries, or removes them all. *)
Lemma prune_keeps_index K gone t c h : id_ok c h → Forall entry_ok gone →
  marked (foldl batch_apply K (batch_of gone)) c h → is_Some (K !! pruneKey t c h) → time_ok t →
  is_Some (foldl batch_apply K (batch_of gone) !! pruneKey t c h).
Proof.
  intros Hi Hg [v Hm] Hk Ht. rewrite batch_deletes in Hm |- * by apply batch_of_deletes.
  destruct (decide (BDelete (shardKey c h) ∈ batch_of gone)) as [|Hn]; [done|].
  destruct (decide _) as [Hin|]; [|done]. exfalso. apply Hn. apply elem_of_batch in Hin as (t' & c' & h' & Hin & Hk').
  pose proof (proj1 (Forall_forall _ _) Hg _ Hin) as [Ht' Hi'].
  apply elem_of_batch. exists t', c', h'. split; [done|]. right. left. destruct Hk' as [E|[E|E]].
  - by apply pruneKey_inj in E as [-> ->].
  - by apply (eq_sym (y := _)), shardKey_not_pruneKey in E.
  - by apply (eq_sym (y := _)), promiseKey_not_pruneKey in E.
Qed.

Lemma due_ok K b l : Forall (entry_due K b) l → Forall entry_ok l.
Proof. intros H. eapply Forall_impl; [exact H|]. by intros [[t c] h] (? & ? & _). Qed.

Lemma prune_store_ok b w : store_ok w → time_ok b → small w → store_ok (PruneBefore cfg b w).2.
Proof.
  intros [HK HF HI] Hb [Hb1 Hb2].
  pose proof (PruneBefore_spec cfg (files w) (kvs w) b HK Hb Hb1 Hb2 w (conj eq_refl eq_refl)) as H.
  destruct (PruneBefore cfg b w) as [[r|e|p] w']; cbn in *; [|done|done].
  destruct H as (F' & K' & done & gone & Hw & Hp & _).
  assert (files_ok cfg F') as HF'.
  { intros c h d Hi Hd. rewrite (pass_files _ _ _ _ _ _ _ _ _ Hp), delete_files_lookup in Hd. case_decide; [discriminate|eauto]. }
  destruct (pr_err r) as [e|] eqn:E.
  - destruct (pass_err _ _ _ _ _ _ _ _ _ Hp) as [-> _]; [eauto|]. by eapply store_ok_intro.
  - destruct (pass_ok _ _ _ _ _ _ _ _ _ Hp E) as [-> ->].
    pose proof (due_ok _ _ _ (pass_due _ _ _ _ _ _ _ _ _ Hp)) as Hok. eapply store_ok_intro; [exact Hw| |done|].
    + intros k Hk. rewrite batch_deletes in Hk by apply batch_of_deletes. case_decide; [by destruct Hk|by apply HK].
    + intros c h Hi Hm. assert (marked (kvs w) c h) as Hm0.
      { destruct Hm as [v Hv]. rewrite batch_deletes in Hv by apply batch_of_deletes. case_decide; [done|by exists v]. }
      destruct (HI c h Hi Hm0) as (t & Ht & Hk). exists t. split; [done|]. by apply prune_keeps_index.
Qed.

Lemma get_store_ok c w : store_ok w → length c = CommitmentSize → Forall byte_ok c → store_ok (Get cfg c w).2.
Proof.
  intros Hs Hl Hc. pose proof Hs as [HK HF HI].
  pose proof (Get_spec cfg (files w) (kvs w) c Hl Hc HK HF w (conj eq_refl eq_refl)) as H.
  assert (∃ K', dropped cfg (files w) c (kvs w) K' ∧ holds (files w) K' (Get cfg c w).2) as (K' & Hd & Hw)
    by (destruct (Get cfg c w) as [[s|e|p] w']; cbn in *; by destruct H).
  eapply store_ok_intro; [exact Hw| |done|].
  - intros k [v Hv]. destruct (Hd k) as [E|[E _]]; rewrite E in Hv; [apply HK; by exists v|done].
  - intros c' h' Hi Hm. destruct (HI c' h' Hi) as (t & Ht & Hk); [by eapply dropped_marked|]. exists t. split; [done|].
    destruct (Hd (pruneKey t c' h')) as [E|[_ (h'' & _ & E & _)]]; [by rewrite E|].
    by apply (eq_sym (y := _)), shardKey_not_pruneKey in E.
Qed.

Lemma run_op_ok o w : store_ok w → op_ok o → small w → store_ok (run_op o w).
Proof.
  intros Hs Ho Hsm. destruct o as [env pr sh t|c|c h|ce|h|b|opened]; cbn [run_op op_ok] in *.
  - by apply put_store_ok.
  - destruct Ho. by apply get_store_ok.
  - eapply store_ok_same; [done|]. pose proof (Has_spec cfg (files w) (kvs w) c h w (conj eq_refl eq_refl)) as H.
    destruct (Has cfg c h w) as [[[]|e|p] w']; cbn in *; try done; by destruct H.
  - eapply store_ok_same; [done|]. pose proof (Size_spec (files w) (kvs w) ce w (conj eq_refl eq_refl)) as H.
    destruct (Size cfg ce w) as [[n|e|p] w']; cbn in *; done.
  - eapply store_ok_same; [done|]. apply (GetPaymentPromise_keeps (files w) (kvs w) h w (conj eq_refl eq_refl)).
  - by apply prune_store_ok.
  - eapply store_ok_staged; [done|]. pose proof (openStore_spec (files w) (kvs w) opened w (conj eq_refl eq_refl)) as H.
    destruct (openStore cfg opened w) as [[[]|e|p] w']; cbn in *; done.
Qed.

(** ** Histories *)

(** Calls in sequence, each with well-formed arguments and satisfying [P], on
    counts that fit. *)
Fixpoint run_ops (l : list op) (w : W) : W :=
  match l with [] => w | o :: l' => run_ops l' (run_op o w) end.
Fixpoint history (P : op → Prop) (l : list op) (w : W) : Prop :=
  match l with [] => True | o :: l' => P o ∧ op_ok o ∧ small w ∧ history P l' (run_op o w) end.

Lemma history_ok P l : ∀ w, store_ok w → history P l w → store_ok (run_ops l w).
Proof.
  induction l as [|o l IH]; intros w Hs; [done|]. intros (_ & Ho & Hsm & Hh). apply IH; [by apply run_op_ok|done].
Qed.

(** *** Retention *)

(** A shard is marked, its file holds [d], and no entry of the index prunes it
    before the minute of [T]. *)
Record retained (c h d : bytes) (T : Z) (w : W) : Prop := {
  rt_marked : marked (kvs w) c h;
  rt_file : files w !! shardFilePath cfg c h = Some d;
  rt_index : ∀ t, time_ok t → is_Some (kvs w !! pruneKey t c h) → T / Minute <= t / Minute;
}.

(** Calls that neither store the shard again nor prune past [T]. *)
Definition spares (c h : bytes) (T : Z) (o : op) : Prop :=
  match o with
  | OpPut _ promise _ _ => ∀ h', Hash promise = Ok h' → ¬ (Commitment promise = c ∧ h' = h)
  | OpPrune b => b / Minute <= T / Minute
  | _ => True
  end.

Lemma retained_holds c h d T F K w : holds F K w → marked K c h → F !! shardFilePath cfg c h = Some d →
  (∀ t, time_ok t → is_Some (K !! pruneKey t c h) → T / Minute <= t / Minute) → retained c h d T w.
Proof. intros [<- <-] ? ? ?. by split. Qed.

Lemma retained_staged c h d T w w' : retained c h d T w → holds_staged cfg (files w) (kvs w) w' → retained c h d T w'.
Proof.
  intros [Hm Hf Hi] (F' & HF & Hw). eapply retained_holds; [exact Hw|done| |done]. rewrite HF; [done|apply shard_not_staging].
Qed.

Lemma retained_same c h d T w w' : retained c h d T w → holds (files w) (kvs w) w' → retained c h d T w'.
Proof. intros Hr Hw. eapply retained_staged; [done|]. by apply holds_staged_refl. Qed.

Lemma put_retained c h d T env promise shard pruneAt w : id_ok c h → retained c h d T w →
  op_ok (OpPut env promise shard pruneAt) → spares c h T (OpPut env promise shard pruneAt) →
  retained c h d T (Put cfg env promise shard pruneAt w).2.
Proof.
  intros Hi [Hm Hf Hx] ((h' & Hh & Hi') & Hs & Ht) Hsp. specialize (Hsp h' Hh).
  destruct (shard_ok_rows shard Hs) as (Hr & _).
  assert (shardFilePath cfg c h ≠ shardFilePath cfg (Commitment promise) h') as Hne.
  { intros E. apply shardFilePath_inj in E as [-> ->]; [|done..]. by apply Hsp. }
  pose proof (Put_spec cfg (files w) (kvs w) env promise shard pruneAt h' Hh Hr w (conj eq_refl eq_refl)) as H.
  destruct (Put _ _ _ _ _ w) as [[[]|e|p] w']; cbn in *; [| |done].
  - destruct H as (F' & pb & pp & _ & _ & Hw & Hsame & _). eapply retained_holds; [exact Hw| | |].
    + apply published_marked; [done..|]. by left.
    + rewrite Hsame; [done|apply shard_not_staging|done].
    + intros t Ht' Hk. apply published_index in Hk; [|done..]. destruct Hk as [Hk|[-> ->]]; [by apply Hx|]. by destruct Hsp.
  - destruct H as (_ & F' & Hw & Hsame & _). eapply retained_holds; [exact Hw|done| |done].
    rewrite Hsame; [done|apply shard_not_staging|done].
Qed.

(** An entry that is due is not one of the shard. *)
Lemma not_due c h d T w b t : retained c h d T w → b / Minute <= T / Minute → ¬ entry_due (kvs w) b (t, c, h).
Proof. intros [_ _ Hx] Hb (Ht & _ & Hk & Hlt). specialize (Hx t Ht Hk). lia. Qed.

Lemma prune_retained c h d T b w : id_ok c h → store_ok w → retained c h d T w → time_ok b → small w → b / Minute <= T / Minute →
  retained c h d T (PruneBefore cfg b w).2.
Proof.
  intros Hi [HK HF _] Hr Hb [Hb1 Hb2] Hle. pose proof Hr as [Hm Hf Hx].
  pose proof (PruneBefore_spec cfg (files w) (kvs w) b HK Hb Hb1 Hb2 w (conj eq_refl eq_refl)) as H.
  destruct (PruneBefore cfg b w) as [[r|e|p] w']; cbn in *; [|done|done].
  destruct H as (F' & K' & done & gone & Hw & Hp & _). pose proof (pass_due _ _ _ _ _ _ _ _ _ Hp) as Hdue.
  assert (∀ t, (t, c, h) ∉ gone) as Hng by (intros t Hin; eapply not_due; [done..|]; by eapply Forall_forall in Hdue).
  assert (F' !! shardFilePath cfg c h = Some d) as Hf'.
  { rewrite (pass_files _ _ _ _ _ _ _ _ _ Hp), delete_files_lookup, decide_False; [exact Hf|].
    intros Hin. apply list_elem_of_fmap in Hin as ([[t c'] h'] & E & Hin). cbn in E.
    pose proof (proj1 (Forall_forall _ _) (due_ok _ _ _ Hdue) _ Hin) as [_ Hi'].
    apply shardFilePath_inj in E as [<- <-]; [|exact Hi|exact Hi']. by apply Hng in Hin. }
  destruct (pr_err r) as [e|] eqn:E.
  { destruct (pass_err _ _ _ _ _ _ _ _ _ Hp) as [-> _]; [eauto|]. by eapply retained_holds. }
  destruct (pass_ok _ _ _ _ _ _ _ _ _ Hp E) as [-> ->]. eapply retained_holds; [exact Hw| |exact Hf'|].
  - unfold marked. rewrite batch_deletes by apply batch_of_deletes. case_decide as Hin; [|exact Hm]. exfalso.
    apply elem_of_batch in Hin as (t & c' & h' & Hin & Hk). pose proof (proj1 (Forall_forall _ _) (due_ok _ _ _ Hdue) _ Hin) as [_ Hi'].
    destruct Hk as [Hk|[Hk|Hk]]; [by apply shardKey_not_pruneKey in Hk| |by apply (eq_sym (y := _)), promiseKey_not_shardKey in Hk].
    apply shardKey_inj in Hk as [<- <-]; [|exact Hi|exact Hi']. by apply Hng in Hin.
  - intros t Ht Hk. apply Hx; [exact Ht|]. rewrite batch_deletes in Hk by apply batch_of_deletes. case_decide; [by destruct Hk|exact Hk].
Qed.

Lemma run_op_retained c h d T o w : id_ok c h → store_ok w → retained c h d T w → op_ok o → small w → spares c h T o →
  retained c h d T (run_op o w).
Proof.
  intros Hi Hs Hr Ho Hsm Hsp. destruct o as [env pr sh t|c'|c' h'|ce|h'|b|opened]; cbn [run_op op_ok spares] in *.
  - by apply put_retained.
  - destruct Ho as [Hl Hc]. pose proof Hs as [HK HF HI].
    pose proof (Get_spec cfg (files w) (kvs w) c' Hl Hc HK HF w (conj eq_refl eq_refl)) as H.
    assert (∃ K', dropped cfg (files w) c' (kvs w) K' ∧ holds (files w) K' (Get cfg c' w).2) as (K' & Hd & Hw)
      by (destruct (Get cfg c' w) as [[s|e|p] w']; cbn in *; by destruct H).
    destruct Hr as [Hm Hf Hx]. eapply retained_holds; [exact Hw| |done|].
    + destruct (Hd (shardKey c h)) as [E|[_ (h'' & Hi' & E & HFn)]]; [unfold marked; by rewrite E|].
      apply shardKey_inj in E as [-> ->]; [congruence|done..].
    + intros t Ht Hk. apply Hx; [done|]. destruct (Hd (pruneKey t c h)) as [E|[E _]]; [by rewrite <- E|by rewrite E in Hk; destruct Hk].
  - eapply retained_same; [done|]. pose proof (Has_spec cfg (files w) (kvs w) c' h' w (conj eq_refl eq_refl)) as H.
    destruct (Has cfg c' h' w) as [[[]|e|p] w']; cbn in *; try done; by destruct H.
  - eapply retained_same; [done|]. pose proof (Size_spec (files w) (kvs w) ce w (conj eq_refl eq_refl)) as H.
    destruct (Size cfg ce w) as [[n|e|p] w']; cbn in *; done.
  - eapply retained_same; [done|]. apply (GetPaymentPromise_keeps (files w) (kvs w) h' w (conj eq_refl eq_refl)).
  - by apply prune_retained.
  - eapply retained_staged; [done|]. pose proof (openStore_spec (files w) (kvs w) opened w (conj eq_refl eq_refl)) as H.
    destruct (openStore cfg opened w) as [[[]|e|p] w']; cbn in *; done.
Qed.

Lemma history_retained c h d T l : id_ok c h → ∀ w, store_ok w → retained c h d T w → history (spares c h T) l w →
  retained c h d T (run_ops l w).
Proof.
  intros Hi. induction l as [|o l IH]; intros w Hs Hr; [done|]. intros (Hsp & Ho & Hsm & Hh).
  apply IH; [by apply run_op_ok|by apply run_op_retained|done].
Qed.

(** A call of [Put] that returned. *)
Lemma put_retains env promise shard pruneAt h T w w' : Hash promise = Ok h → id_ok (Commitment promise) h → time_ok pruneAt →
  shard_ok shard → Put cfg env promise shard pruneAt w = (Ok tt, w') →
  T / Minute <= pruneAt / Minute →
  (∀ t, time_ok t → is_Some (kvs w !! pruneKey t (Commitment promise) h) → T / Minute <= t / Minute) →
  retained (Commitment promise) h (shard_bytes shard) T w'.
Proof.
  intros Hh Hi Ht Hs HP HT Hx. destruct (shard_ok_rows shard Hs) as (Hr & _).
  pose proof (Put_spec cfg (files w) (kvs w) env promise shard pruneAt h Hh Hr w (conj eq_refl eq_refl)) as H.
  rewrite HP in H. cbn in H. destruct H as (F' & pb & pp & _ & _ & Hw & _ & Hpath). eapply retained_holds; [exact Hw| |done|].
  - apply published_marked; [done..|]. by right.
  - intros t Ht' Hk. destruct (decide (pruneKey t (Commitment promise) h = pruneKey pruneAt (Commitment promise) h)) as [E|E].
    + apply (f_equal (λ k, take 12 (drop 7 k))) in E. rewrite !pruneKey_stamp in E by done.
      destruct (Z.le_gt_cases (T / Minute) (t / Minute)); [done|].
      assert (bytes_lt (formatTimestamp t) (formatTimestamp pruneAt)) as Hl by (apply formatTimestamp_lt; [done..|lia]).
      rewrite E in Hl. by apply bytes_lt_irrefl in Hl.
    + apply Hx; [done|]. unfold published in Hk. rewrite lookup_insert_ne, lookup_insert_ne, lookup_insert_ne in Hk; [done|..].
      * apply promiseKey_not_pruneKey.
      * apply shardKey_not_pruneKey.
      * done.
Qed.
End Trace.
