(* ===== verification/DiskModel.v ===== *)
(** * A disk in memory

    An executable instance of the interfaces of [Disk]: two maps and a count of
    the calls made, with a schedule that says which calls fail. It satisfies
    [DiskLaws] for every schedule. *)

From S2P Require Import Prelude Disk.
#[local] Open Scope Z_scope.

Record Mem := mkMem { mem_files : gmap bytes bytes; mem_kvs : gmap bytes bytes; mem_calls : nat }.

Definition empty_mem : Mem := mkMem ∅ ∅ 0.

Definition io_error : error := "input/output error".

Section Model.
Context (fault : nat → bool).

Definition called (w : Mem) : Mem := mkMem (mem_files w) (mem_kvs w) (S (mem_calls w)).
Definition with_files (F : gmap bytes bytes) (w : Mem) : Mem := mkMem F (mem_kvs w) (mem_calls w).
Definition with_kvs (K : gmap bytes bytes) (w : Mem) : Mem := mkMem (mem_files w) K (mem_calls w).

Definition mem_unit (f : Mem → option error * Mem) (w : Mem) : option error * Mem :=
  if fault (mem_calls w) then (Some io_error, called w) else f (called w).
Definition mem_sum {A} (f : Mem → error + A) (w : Mem) : (error + A) * Mem :=
  (if fault (mem_calls w) then inl io_error else f w, called w).

(** The names of the files directly below a directory. *)
Definition strip (d p : bytes) : option bytes :=
  if decide (below d p)
  then let n := drop (S (length d)) p in if decide (slash ∈ n) then None else Some n
  else None.

#[global] Instance mem_vfs : Vfs Mem := {|
  vfs_MkdirAll d := mem_unit (λ w, (None, w));
  vfs_Create p := mem_unit (λ w, (None, with_files (<[p:=[]]> (mem_files w)) w));
  vfs_Write p b := mem_unit (λ w,
    match mem_files w !! p with
    | Some c => (None, with_files (<[p:=c ++ b]> (mem_files w)) w)
    | None => (Some ErrNotExist, w)
    end);
  vfs_Close p := mem_unit (λ w, (None, w));
  vfs_Rename p q := mem_unit (λ w,
    match mem_files w !! p with
    | Some c => (None, with_files (<[q:=c]> (delete p (mem_files w))) w)
    | None => (Some ErrNotExist, w)
    end);
  vfs_Remove p := mem_unit (λ w,
    match mem_files w !! p with
    | Some c => (None, with_files (delete p (mem_files w)) w)
    | None => (Some ErrNotExist, w)
    end);
  vfs_RemoveAll d := mem_unit (λ w, (None, with_files (filter (λ kv, ¬ below d kv.1) (mem_files w)) w));
  vfs_Stat p := mem_sum (λ w,
    match mem_files w !! p with Some c => inr (Z.of_nat (length c)) | None => inl ErrNotExist end);
  vfs_Open p := mem_sum (λ w,
    match mem_files w !! p with Some c => inr (mkStream c None) | None => inl ErrNotExist end);
  vfs_List d := mem_sum (λ w, inr (omap (strip d) (sorted_entries (mem_files w)).*1));
  vfs_AvailBytes d := mem_sum (λ w, inr (2 ^ 40));
|}.

#[global] Instance mem_pebble : Pebble Mem := {|
  db_Get k := mem_sum (λ w, inr (mem_kvs w !! k));
  db_Delete k := mem_unit (λ w, (None, with_kvs (delete k (mem_kvs w)) w));
  db_Batch op := mem_unit (λ w, (None, w));
  db_Commit ops := mem_unit (λ w, (None, with_kvs (foldl batch_apply (mem_kvs w) ops) w));
  db_Iter lo hi := mem_sum (λ w, inr (key_range lo hi (mem_kvs w), None));
|}.

Lemma strip_Some d p n : strip d p = Some n ↔ p = Join d n ∧ slash ∉ n.
Proof.
  unfold strip, below, Join. split.
  - destruct (decide _) as [[k ->]|]; [|done].
    assert (drop (S (length d)) ((d ++ [slash]) ++ k) = k) as ->.
    { apply drop_app_length'. rewrite length_app. cbn. lia. }
    destruct (decide (slash ∈ k)); [done|]. intros [= ->]. split; [|done]. by rewrite <- app_assoc.
  - intros [-> Hn]. assert (d ++ slash :: n = (d ++ [slash]) ++ n) as E by by rewrite <- app_assoc. rewrite E.
    rewrite decide_True by by exists n.
    assert (drop (S (length d)) ((d ++ [slash]) ++ n) = n) as ->.
    { apply drop_app_length'. rewrite length_app. cbn. lia. }
    by rewrite decide_False.
Qed.

Lemma strip_NoDup d (l : list bytes) : NoDup l → NoDup (omap (strip d) l).
Proof.
  induction 1 as [|p l Hp Hl IH]; [constructor|]. cbn. destruct (strip d p) as [n|] eqn:E; [|done].
  constructor; [|done]. intros Hin. apply list_elem_of_omap in Hin as (q & Hq & E').
  apply strip_Some in E as [-> _]. apply strip_Some in E' as [-> _]. done.
Qed.

Definition may_fault : Prop := ∃ n, fault n = true.

Ltac call := cbn; unfold mem_unit, mem_sum;
  match goal with w : Mem |- _ =>
    let E := fresh "E" in
    destruct (fault (mem_calls w)) eqn:E; cbn;
    [assert may_fault by (by eexists); assert (io_error ≠ ErrNotExist) by done|]
  end.

#[global] Instance mem_laws : DiskLaws Mem.
Proof.
  refine {| files := mem_files; kvs := mem_kvs; faulty := may_fault |}.
  - intros d w. call; auto.
  - intros p w. call; [by eauto 10|]. split; [done|]. split; [apply delete_insert_eq|]. by left.
  - intros p b w. call; [by eauto 10|]. destruct (mem_files w !! p) as [c|] eqn:E'; cbn.
    + split; [done|]. split; [apply delete_insert_eq|]. intros c' [= ->]. by left.
    + by split.
  - intros p w. call; [by eauto 10|]. by eauto.
  - intros p q w. call; [done|]. destruct (mem_files w !! p) as [c|] eqn:E'; cbn; [by eauto|].
    split; [done|]. split; [done|]. by intros [? ?].
  - intros p w. call; [split; [done|]; split; [done|]; by right|]. destruct (mem_files w !! p) as [c|] eqn:E'; cbn; [by eauto|].
    split; [done|]. split; [done|]. by left.
  - intros d w. call; [by eauto 10|]. split; [done|]. split; [apply map_filter_subseteq|]. split.
    + intros p Hp. destruct (mem_files w !! p) as [c|] eqn:E'; [by apply map_lookup_filter_Some|].
      apply map_lookup_filter_None. by left.
    + left. split; [done|]. intros p Hp. apply map_lookup_filter_None. right. intros c _ Hn. by apply Hn.
  - intros p w. call; [split; [done|]; split; [done|]; by right|]. split; [done|]. split; [done|].
    destruct (mem_files w !! p) as [c|] eqn:E'; [by exists c|by left].
  - intros p w. call; [split; [done|]; split; [done|]; by right|]. split; [done|]. split; [done|].
    destruct (mem_files w !! p) as [c|] eqn:E'; [exists c; cbn; auto|by left].
  - intros d w. call; [done|]. split; [done|]. split; [done|].
    split; [apply strip_NoDup, NoDup_fst_sorted_entries|]. intros n. rewrite list_elem_of_omap. split.
    + intros (p & Hp & Hn). apply strip_Some in Hn as [-> Hn]. split; [done|].
      apply list_elem_of_fmap in Hp as ([p' c] & -> & Hp). apply elem_of_sorted_entries in Hp. eauto.
    + intros [Hn [c Hc]]. exists (Join d n). split; [|by apply strip_Some]. apply list_elem_of_fmap.
      exists (Join d n, c). split; [done|]. by apply elem_of_sorted_entries.
  - intros p w. call; done.
  - intros k w. call; done.
  - intros k w. call; done.
  - intros op w. call; auto.
  - intros ops w. call; done.
  - intros lo hi w. call; done.
Defined.
End Model.

(** The disk on which every call succeeds. *)
Definition no_fault (n : nat) : bool := false.

Lemma no_fault_reliable : ¬ may_fault no_fault.
Proof. by intros [n ?]. Qed.
