(* ===== verification/Merkle.v ===== *)
(** * Merkle trees of the erasure code

    [pkg/rsema1d/merkle]: perfect binary trees kept as a flat heap, built level
    by level, with proofs read off the heap and roots recomputed from proofs.
    Node [i] of the model is the slice [nodes[i*NodeSize:(i+1)*NodeSize]] of the
    source. Loops that fan out to workers take the order in which their items
    ran. *)

From S2P Require Import Prelude Sdk.
#[local] Open Scope Z_scope.

Definition NodeSize : Z := 32.

(** ** Hashing: [merkle/hash.go] *)

Section Hash.
Context `{CR : Crypto}.

Definition hashLeaf (data : bytes) : bytes := sha256 (0 :: data).
Definition hashPair (left right : bytes) : bytes := sha256 (1 :: left ++ right).
End Hash.

(** ** Sizes: [merkle/tree.go] *)

Definition treeNodeCount (leaves : Z) : Z := if leaves =? 0 then 0 else 2 * leaves - 1.
Definition TreeBufferSize (leaves : Z) : Z := treeNodeCount leaves * NodeSize.

Definition nodeCount (len : Z) : result Z :=
  if (len =? 0) || negb (Z.rem len NodeSize =? 0) then Panic "Merkle node buffer must be a non-zero multiple of 32 bytes"
  else Ok (Z.quot len NodeSize).

Definition requirePow2 (leaves : Z) : result unit :=
  if leaves =? 0 then Panic "cannot build Merkle tree with 0 leaves"
  else if negb (Z.land leaves (leaves - 1) =? 0) then Panic "number of leaves must be a power of 2"
  else Ok tt.

Definition leavesFromBuf (len : Z) : result Z :=
  nodes ← nodeCount len;
  let leaves := Z.quot (nodes + 1) 2 in
  _ ← (if negb (treeNodeCount leaves =? nodes) then Panic "Merkle node buffer is not a full binary tree" else Ok tt);
  _ ← requirePow2 leaves;
  Ok leaves.

(** ** Fan-out: [merkle/parallel.go] *)

Definition hashGrain : Z := 256.
Definition proofGrain : Z := 32.

Definition splitWorkers (count workers grain : Z) : Z :=
  if workers <=? 1 then 1 else Z.min workers (Z.max 1 (Z.quot count grain)).

(** The bounds [(start, end)] of the chunks that run in goroutines. *)
Definition parallelChunks (count workers : nat) : list (nat * nat) :=
  let workers := Nat.min workers count in
  let chunk := ((count + workers - 1) / workers)%nat in
  let chunks := ((count + chunk - 1) / chunk)%nat in
  map (λ w, (w * chunk, Nat.min ((w + 1) * chunk) count)%nat) (seq 0 chunks).

(** ** Trees *)

Abbreviation Tree := (list bytes) (only parsing).

Section Tree.
Context `{CR : Crypto}.

(** A missing node would be an index panic; heaps of a validated size have all
    the nodes their loops touch. *)
Definition node (t : Tree) (i : nat) : bytes := nth i t [].

(** [order count] is the order in which the items of a loop of [count] items
    ran. *)
Definition parallelize {S} (order : nat → list nat) (count : nat) (fn : nat → S → S) (s : S) : S :=
  foldl (λ s i, fn i s) s (order count).

Definition hash_level (order : nat → list nat) (levelSize : nat) (t : Tree) : Tree :=
  let levelStart := (levelSize - 1)%nat in
  parallelize order levelSize (λ i t,
    let pos := (levelStart + i)%nat in
    <[pos := hashPair (node t (2 * pos + 1)) (node t (2 * pos + 2))]> t) t.

(** The level size is halved until it is 0; [fuel] bounds the halvings. *)
Fixpoint hash_levels (fuel : nat) (order : nat → list nat) (levelSize : nat) (t : Tree) : Tree :=
  match fuel with
  | O => t
  | S f => if (levelSize =? 0)%nat then t else hash_levels f order (levelSize / 2) (hash_level order levelSize t)
  end.

Definition hashNodes (order : nat → list nat) (n : nat) (t : Tree) : Tree := hash_levels n order (n / 2) t.

Definition NewTreeInto (order : nat → list nat) (bufLen : Z) (buf : Tree) (leaves : list bytes) : result Tree :=
  n ← leavesFromBuf bufLen;
  if negb (n =? Z.of_nat (length leaves)) then Panic "Merkle node buffer sized for other number of leaves"
  else
    let n := Z.to_nat n in
    let t := parallelize order n (λ i t, <[(n - 1 + i)%nat := hashLeaf (nth i leaves [])]> t) buf in
    Ok (hashNodes order n t).

Definition NewTree (order : nat → list nat) (leaves : list bytes) : result Tree :=
  let size := TreeBufferSize (Z.of_nat (length leaves)) in
  NewTreeInto order size (repeat (repeat 0 32) (Z.to_nat (treeNodeCount (Z.of_nat (length leaves))))) leaves.

(** The leaf callback as a function of the index; the scratch slice it recycles
    is overwritten before each use. *)
Definition NewTreeFuncInto (order : nat → list nat) (bufLen : Z) (buf : Tree) (leaf : nat → bytes) : result Tree :=
  n ← leavesFromBuf bufLen;
  let n := Z.to_nat n in
  let t := parallelize order n (λ i t, <[(n - 1 + i)%nat := hashLeaf (leaf i)]> t) buf in
  Ok (hashNodes order n t).

Definition Root (t : Tree) : bytes := node t 0.
Definition numLeaves (t : Tree) : nat := ((length t + 1) / 2)%nat.

(** [bits.Len(uint(n-1))] for [n > 1]. *)
Definition bits_Len (n : Z) : Z := if n <=? 0 then 0 else Z.log2 n + 1.
Definition depth (t : Tree) : nat :=
  let n := numLeaves t in if (n <=? 1)%nat then 0%nat else Z.to_nat (bits_Len (Z.of_nat n - 1)).

(** *** Roots without a tree: the working level is reduced in place *)

Definition reduce_step (t : Tree) (i : nat) : Tree := <[i := hashPair (node t (2 * i)) (node t (2 * i + 1))]> t.

Fixpoint reduce_levels (fuel levelSize : nat) (t : Tree) : Tree :=
  match fuel with
  | O => t
  | S f => if (levelSize <=? 1)%nat then t
           else reduce_levels f (levelSize / 2) (foldl reduce_step t (seq 0 (levelSize / 2)))
  end.

Definition RootFromFunc (bufLen : Z) (buf : Tree) (leaf : nat → bytes) : result bytes :=
  leaves ← nodeCount bufLen;
  _ ← requirePow2 leaves;
  let n := Z.to_nat leaves in
  let t := foldl (λ t i, <[i := hashLeaf (leaf i)]> t) buf (seq 0 n) in
  Ok (node (reduce_levels n n t) 0).

(** ** Proofs: [merkle/proof.go] *)

(** [dst] has one entry per level, and the walk writes each of them. *)
Fixpoint proof_walk (fuel : nat) (t : Tree) (pos : nat) : list bytes :=
  match fuel with
  | O => []
  | S f =>
      if (pos =? 0)%nat then []
      else let sibling := if (pos mod 2 =? 1)%nat then (pos + 1)%nat else (pos - 1)%nat in
           node t sibling :: proof_walk f t ((pos - 1) / 2)
  end.

Definition fillProof (t : Tree) (index : Z) : result (list bytes) :=
  let n := numLeaves t in
  _ ← ensure (negb ((index <? 0) || (Z.of_nat n <=? index))) "index out of range";
  let pos := (n - 1 + Z.to_nat index)%nat in
  Ok (proof_walk pos t pos).

Definition Proof (t : Tree) (index : Z) : result (list bytes) := fillProof t index.

(** The proofs handed to [yield] before the first failure, and the failure. *)
Fixpoint Proofs (t : Tree) (positions : list Z) : list (list bytes) * result unit :=
  match positions with
  | [] => ([], Ok tt)
  | pos :: positions' =>
      match fillProof t pos with
      | Ok proof => let '(l, r) := Proofs t positions' in (proof :: l, r)
      | Err e => ([], Err e)
      | Panic p => ([], Panic p)
      end
  end.

Fixpoint root_loop (current : bytes) (pos : Z) (proof : list bytes) : result bytes :=
  match proof with
  | [] => Ok current
  | siblingBytes :: proof' =>
      _ ← ensure (Z.of_nat (length siblingBytes) =? NodeSize) "proof sibling must be 32 bytes";
      let next := if Z.rem pos 2 =? 0 then hashPair current siblingBytes else hashPair siblingBytes current in
      root_loop next (Z.quot pos 2) proof'
  end.

Definition RootFromProof (leaf : bytes) (index : Z) (proof : list bytes) : result bytes :=
  root_loop (hashLeaf leaf) index proof.

Record ProofInput := mkProofInput { pi_Leaf : bytes; pi_Index : Z; pi_Path : list bytes }.

Definition input_root (i : ProofInput) : result bytes := RootFromProof (pi_Leaf i) (pi_Index i) (pi_Path i).

Definition reduceProofs (inputs : list ProofInput) : result bytes :=
  match inputs with
  | [] => Panic "index out of range"
  | first :: rest =>
      want ← input_root first;
      _ ← each (λ i, root ← input_root i; ensure (bool_decide (root = want)) "root mismatch") rest;
      Ok want
  end.

Definition slice {A} (l : list A) (start stop : nat) : list A := take (stop - start) (drop start l).

(** Every worker fills its own slot; the slots are read in order after the
    join. *)
Definition RootFromProofs (inputs : list ProofInput) (workers : Z) : result bytes :=
  if (length inputs =? 0)%nat then Err "no proof inputs"
  else
    let nw := splitWorkers (Z.of_nat (length inputs)) workers proofGrain in
    if nw <=? 1 then reduceProofs inputs
    else
      let slots := map (λ '(start, stop), reduceProofs (slice inputs start stop))
                       (parallelChunks (length inputs) (Z.to_nat nw)) in
      match slots with
      | [] => Panic "index out of range"
      | first :: _ =>
          want ← first;
          _ ← each (λ slot, root ← slot; ensure (bool_decide (root = want)) "proof chunk: root mismatch") slots;
          Ok want
      end.
End Tree.
