(* ===== verification/MerkleProofs.v ===== *)
(** * Correctness of the Merkle trees

    The heap a builder leaves is the same for every order of the parallel
    writes; the proof of a leaf leads back to the root; the in-place reduction
    computes the same root; two proofs of one position that reach the same root
    carry the same leaf, or hash two different strings to the same value. *)

From S2P Require Import Prelude Sdk Merkle.
#[local] Open Scope Z_scope.

(** The output of SHA-256. *)
Class Sha256Laws `{Crypto} := {
  sha256_length b : length (sha256 b) = 32%nat;
  sha256_bytes b : Forall byte_ok (sha256 b);
}.

(** ** Writing into a heap *)

Lemma length_writes (P : nat → nat) (g : nat → Tree → bytes) l : ∀ t,
  length (foldl (λ t i, <[P i := g i t]> t) t l) = length t.
Proof. induction l as [|i l IH]; intros t; cbn; [done|]. by rewrite IH, length_insert. Qed.

Lemma node_insert_eq (t : Tree) i x : (i < length t)%nat → node (<[i:=x]> t) i = x.
Proof. intros Hi. unfold node. apply nth_lookup_Some. by apply list_lookup_insert_eq. Qed.

Lemma node_insert_ne (t : Tree) i j x : i ≠ j → node (<[i:=x]> t) j = node t j.
Proof. intros Hne. unfold node. rewrite !nth_lookup. by rewrite list_lookup_insert_ne. Qed.

(** Writes at distinct places whose values do not depend on these places: each
    place gets the value it has for the initial heap, in any order. *)
Lemma writes_spec (P : nat → nat) (g : nat → Tree → bytes) (l : list nat) (t0 : Tree) :
  NoDup (map P l) → (∀ i, i ∈ l → (P i < length t0)%nat) →
  (∀ i t, i ∈ l → (∀ j, j ∉ map P l → node t j = node t0 j) → g i t = g i t0) →
  let t := foldl (λ t i, <[P i := g i t]> t) t0 l in
  (∀ i, i ∈ l → node t (P i) = g i t0) ∧ (∀ j, j ∉ map P l → node t j = node t0 j).
Proof.
  induction l as [|x l IH] using rev_ind; intros Hn Hlt Hg; [set_solver|]. cbv zeta.
  rewrite map_app in Hn. apply NoDup_app in Hn as (Hn & Hx & _). cbn in Hx.
  destruct IH as [IH1 IH2]; [done|intros i Hi; apply Hlt; set_solver| |].
  { intros i t Hi Ht. apply Hg; [set_solver|]. intros j Hj. apply Ht. rewrite map_app in Hj. set_solver. }
  rewrite foldl_app. cbn [foldl]. set (t := foldl _ t0 l) in *.
  assert (g x t = g x t0) as Egx.
  { apply Hg; [set_solver|]. intros j Hj. apply IH2. rewrite map_app in Hj. set_solver. }
  split.
  - intros i Hi. apply elem_of_app in Hi as [Hi|Hi].
    + rewrite node_insert_ne; [by apply IH1|]. intros E. apply (Hx (P i)); [|set_solver].
      apply list_elem_of_fmap. by exists i.
    + apply list_elem_of_singleton in Hi as ->. rewrite node_insert_eq; [done|].
      unfold t. rewrite length_writes. apply Hlt. set_solver.
  - intros j Hj. rewrite map_app in Hj. rewrite node_insert_ne by set_solver. apply IH2. set_solver.
Qed.

(** ** Powers of two *)

Lemma pow2_land d : 0 <= d → Z.land (2 ^ d) (2 ^ d - 1) = 0.
Proof.
  intros Hd. assert (2 ^ d - 1 = Z.ones d) as -> by (rewrite Z.ones_equiv; lia).
  rewrite Z.land_ones by done. apply Z.mod_same. lia.
Qed.

Lemma leavesFromBuf_pow2 d : 0 <= d → leavesFromBuf (TreeBufferSize (2 ^ d)) = Ok (2 ^ d).
Proof.
  intros Hd. assert (0 < 2 ^ d) by lia. unfold leavesFromBuf, TreeBufferSize, treeNodeCount, nodeCount, requirePow2, NodeSize.
  destruct (Z.eqb_spec (2 ^ d) 0); [lia|]. destruct (Z.eqb_spec ((2 * 2 ^ d - 1) * 32) 0); [lia|].
  rewrite Z.rem_mul, Z.quot_mul by lia. cbn [orb negb Z.eqb mbind result_bind].
  assert (Z.quot (2 * 2 ^ d - 1 + 1) 2 = 2 ^ d) as ->.
  { replace (2 * 2 ^ d - 1 + 1) with (2 ^ d * 2) by lia. by apply Z.quot_mul. }
  destruct (Z.eqb_spec (2 ^ d) 0); [lia|]. rewrite Z.eqb_refl. cbn [negb mbind result_bind].
  rewrite pow2_land by done. done.
Qed.

Section Correctness.
Context `{CR : Crypto}.

(** The order of the items of a loop: each item once. *)
Definition order_ok (order : nat → list nat) : Prop := ∀ n, order n ≡ₚ seq 0 n.

Lemma order_NoDup order n : order_ok order → NoDup (order n).
Proof. intros Ho. rewrite (Ho n). apply NoDup_seq. Qed.

Lemma order_elem order n i : order_ok order → i ∈ order n ↔ (i < n)%nat.
Proof. intros Ho. rewrite (Ho n), elem_of_seq. lia. Qed.

(** ** The heap property *)

(** The heap of [n] leaves. *)
Record heap (n : nat) (leaf : nat → bytes) (t : Tree) : Prop := {
  heap_length : length t = (2 * n - 1)%nat;
  heap_leaf i : (i < n)%nat → node t (n - 1 + i) = hashLeaf (leaf i);
  heap_inner pos : (pos < n - 1)%nat → node t pos = hashPair (node t (2 * pos + 1)) (node t (2 * pos + 2));
}.

(** Inner nodes are done from position [m - 1] on. *)
Definition done_from (n m : nat) (t : Tree) : Prop :=
  ∀ pos, (m - 1 <= pos < n - 1)%nat → node t pos = hashPair (node t (2 * pos + 1)) (node t (2 * pos + 2)).

Lemma hash_level_spec order n m t : order_ok order → (0 < m)%nat → (2 * m <= n)%nat → length t = (2 * n - 1)%nat →
  done_from n (2 * m) t →
  done_from n m (hash_level order m t) ∧
  length (hash_level order m t) = length t ∧
  ∀ j, (2 * m - 1 <= j)%nat → node (hash_level order m t) j = node t j.
Proof.
  intros Ho Hm Hn Hlen Hdone. unfold hash_level, parallelize.
  set (P := λ i, (m - 1 + i)%nat).
  set (g := λ i t, hashPair (node t (2 * P i + 1)) (node t (2 * P i + 2))).
  assert (∀ j, j ∈ map P (order m) ↔ (m - 1 <= j < 2 * m - 1)%nat) as HP.
  { intros j. rewrite list_elem_of_fmap. split.
    - intros (i & -> & Hi). apply order_elem in Hi; [|done]. unfold P. lia.
    - intros Hj. exists (j - (m - 1))%nat. split; [unfold P; lia|]. apply order_elem; [done|lia]. }
  destruct (writes_spec P g (order m) t) as [W1 W2].
  - apply NoDup_fmap_2_strong; [unfold P; lia|by apply order_NoDup].
  - intros i Hi. apply order_elem in Hi; [|done]. unfold P. lia.
  - intros i t' Hi Ht. apply order_elem in Hi; [|done]. unfold g. rewrite !Ht; [done|rewrite HP; unfold P; lia..].
  - change (foldl _ t (order m)) with (foldl (λ t i, <[P i := g i t]> t) t (order m)).
    set (t' := foldl _ t (order m)) in *. split; [|split].
    + intros pos Hpos. destruct (decide (pos < 2 * m - 1)%nat) as [Hlt|Hge].
      * specialize (W1 (pos - (m - 1))%nat). unfold P in W1 at 1. replace (m - 1 + (pos - (m - 1)))%nat with pos in W1 by lia.
        rewrite W1 by (apply order_elem; [done|lia]). unfold g, P.
        rewrite !W2 by (rewrite HP; lia). do 2 f_equal; lia.
      * rewrite !W2 by (rewrite HP; lia). apply Hdone. lia.
    + apply length_writes.
    + intros j Hj. apply W2. rewrite HP. lia.
Qed.

Lemma hash_levels_spec order n k : order_ok order → ∀ fuel t,
  (k < fuel)%nat → (2 * 2 ^ k <= n)%nat → length t = (2 * n - 1)%nat → done_from n (2 * 2 ^ k) t →
  let t' := hash_levels fuel order (2 ^ k) t in
  done_from n 1 t' ∧ length t' = length t ∧ ∀ j, (2 * 2 ^ k - 1 <= j)%nat → node t' j = node t j.
Proof.
  intros Ho. induction k as [|k IH]; intros [|fuel] t Hf Hn Hlen Hd; try lia; cbn [hash_levels].
  - change (2 ^ 0)%nat with 1%nat in *. cbn [Nat.eqb].
    destruct (hash_level_spec order n 1 t) as (H1 & H2 & H3); [done|lia..|done|].
    assert (hash_levels fuel order (1 / 2) (hash_level order 1 t) = hash_level order 1 t) as -> by by destruct fuel.
    done.
  - assert (2 ^ S k = 2 * 2 ^ k)%nat as E by (cbn; lia). rewrite E in *.
    pose proof (Nat.pow_nonzero 2 k). destruct (Nat.eqb_spec (2 * 2 ^ k) 0); [lia|].
    destruct (hash_level_spec order n (2 * 2 ^ k) t) as (H1 & H2 & H3); [done|lia..|done|].
    assert ((2 * 2 ^ k) / 2 = 2 ^ k)%nat as ->. { rewrite Nat.mul_comm. by apply Nat.div_mul. }
    destruct (IH fuel (hash_level order (2 * 2 ^ k) t)) as (I1 & I2 & I3); [lia|lia|lia|done|].
    split; [done|]. split; [lia|]. intros j Hj. rewrite I3 by lia. apply H3. lia.
Qed.

Lemma build_heap order d (leaf : nat → bytes) buf : order_ok order →
  let n := (2 ^ d)%nat in length buf = (2 * n - 1)%nat →
  heap n leaf (hashNodes order n (parallelize order n (λ i t, <[(n - 1 + i)%nat := hashLeaf (leaf i)]> t) buf)).
Proof.
  intros Ho n Hlen. assert (0 < n)%nat as Hn by (pose proof (Nat.pow_nonzero 2 d); lia).
  unfold parallelize. set (P := λ i, (n - 1 + i)%nat). set (g := λ i (_ : Tree), hashLeaf (leaf i)).
  destruct (writes_spec P g (order n) buf) as [W1 W2].
  { apply NoDup_fmap_2_strong; [unfold P; lia|by apply order_NoDup]. }
  { intros i Hi. apply order_elem in Hi; [|done]. unfold P. lia. }
  { done. }
  change (foldl _ buf (order n)) with (foldl (λ t i, <[P i := g i t]> t) buf (order n)).
  set (t := foldl _ buf (order n)) in *.
  assert (length t = (2 * n - 1)%nat) as Ht by (unfold t; rewrite length_writes; lia).
  assert (∀ i, (i < n)%nat → node t (n - 1 + i) = hashLeaf (leaf i)) as Hleaf.
  { intros i Hi. apply (W1 i). by apply order_elem. }
  unfold hashNodes. destruct d as [|d].
  - change n with 1%nat in *. assert (hash_levels 1 order (1 / 2) t = t) as -> by done.
    split; [lia| |lia]. intros i Hi. by rewrite Hleaf.
  - assert (n = 2 * 2 ^ d)%nat as En by (unfold n; cbn; lia).
    assert (n / 2 = 2 ^ d)%nat as ->. { rewrite En, Nat.mul_comm. by apply Nat.div_mul. }
    pose proof (Nat.pow_gt_lin_r 2 d ltac:(lia)).
    destruct (hash_levels_spec order n d Ho n t) as (H1 & H2 & H3); [lia|lia|done|intros pos Hp; lia|].
    split; [lia| |].
    + intros i Hi. rewrite H3 by lia. by apply Hleaf.
    + intros pos Hpos. apply H1. lia.
Qed.

Lemma NewTree_heap order leaves d : order_ok order → length leaves = (2 ^ d)%nat →
  ∃ t, NewTree order leaves = Ok t ∧ heap (2 ^ d) (λ i, nth i leaves []) t.
Proof.
  intros Ho Hlen. unfold NewTree, NewTreeInto. rewrite Hlen. rewrite Nat2Z.inj_pow. change (Z.of_nat 2) with 2.
  rewrite leavesFromBuf_pow2 by lia. cbn [mbind result_bind]. rewrite Z.eqb_refl. cbn [negb].
  assert (Z.to_nat (2 ^ Z.of_nat d) = 2 ^ d)%nat as En.
  { rewrite <- (Nat2Z.id (2 ^ d)). f_equal. by rewrite Nat2Z.inj_pow. }
  rewrite En. eexists. split; [done|]. apply build_heap; [done|]. rewrite repeat_length. unfold treeNodeCount.
  pose proof (Nat.pow_nonzero 2 d). destruct (Z.eqb_spec (2 ^ Z.of_nat d) 0); lia.
Qed.

(** A heap is determined by its leaves, so the order does not matter. *)
Lemma heap_node n leaf t t' : heap n leaf t → heap n leaf t' →
  ∀ k pos, (pos < 2 * n - 1)%nat → (2 * n - 1 - pos <= k)%nat → node t pos = node t' pos.
Proof.
  intros [L1 F1 I1] [L2 F2 I2] k. induction k as [|k IH]; intros pos Hp Hk; [lia|].
  destruct (decide (pos < n - 1)%nat) as [Hi|Hl].
  - rewrite I1, I2 by done. by rewrite !IH by lia.
  - replace pos with (n - 1 + (pos - (n - 1)))%nat by lia. by rewrite F1, F2 by lia.
Qed.

Lemma heap_unique n leaf t t' : heap n leaf t → heap n leaf t' → t = t'.
Proof.
  intros H H'. apply (nth_ext _ _ [] []); [by rewrite (heap_length _ _ _ H), (heap_length _ _ _ H')|].
  intros pos Hp. rewrite (heap_length _ _ _ H) in Hp. by eapply (heap_node n leaf t t' H H' (2 * n - 1)); lia.
Qed.

(** ** Proofs of leaves *)

Context `{SL : !Sha256Laws}.

Lemma heap_node_size n leaf t pos : heap n leaf t → (pos < 2 * n - 1)%nat → length (node t pos) = 32%nat.
Proof.
  intros Hh Hp. destruct (decide (pos < n - 1)%nat).
  - rewrite (heap_inner _ _ _ Hh) by done. apply sha256_length.
  - replace pos with (n - 1 + (pos - (n - 1)))%nat by lia. rewrite (heap_leaf _ _ _ Hh) by lia. apply sha256_length.
Qed.

(** Walking up from position [i] of the level of size [2^k]. *)
Lemma walk_root n leaf t : heap n leaf t → ∀ k fuel i, (2 ^ k <= n)%nat → (i < 2 ^ k)%nat → (k <= fuel)%nat →
  let pos := (2 ^ k - 1 + i)%nat in
  root_loop (node t pos) (Z.of_nat i) (proof_walk fuel t pos) = Ok (node t 0) ∧
  length (proof_walk fuel t pos) = k.
Proof.
  intros Hh k. induction k as [|k IH]; intros fuel i Hn Hi Hf.
  - change (2 ^ 0)%nat with 1%nat in *. assert (i = 0)%nat as -> by lia. by destruct fuel.
  - destruct fuel as [|fuel]; [lia|]. assert (2 ^ S k = 2 * 2 ^ k)%nat as E by (cbn; lia). rewrite E in *.
    pose proof (Nat.pow_nonzero 2 k). set (pos := (2 * 2 ^ k - 1 + i)%nat). cbn [proof_walk].
    destruct (Nat.eqb_spec pos 0); [lia|]. cbv zeta.
    set (sib := if (pos mod 2 =? 1)%nat then (pos + 1)%nat else (pos - 1)%nat).
    assert ((pos - 1) / 2 = 2 ^ k - 1 + i / 2)%nat as Epar.
    { unfold pos. replace (2 * 2 ^ k - 1 + i - 1)%nat with (i + (2 ^ k - 1) * 2)%nat by lia.
      rewrite Nat.div_add by lia. lia. }
    assert (i / 2 < 2 ^ k)%nat as Hi2 by (apply Nat.Div0.div_lt_upper_bound; lia).
    set (par := (2 ^ k - 1 + i / 2)%nat) in *.
    assert (node t par = hashPair (node t (2 * par + 1)) (node t (2 * par + 2))) as Hpar.
    { apply (heap_inner _ _ _ Hh). unfold par. lia. }
    cbn [root_loop length]. rewrite Epar.
    assert (sib < 2 * n - 1)%nat as Hsib.
    { unfold sib, pos. destruct (Nat.eqb_spec ((2 * 2 ^ k - 1 + i) mod 2) 1) as [Hm|Hm]; [|lia].
      assert (i ≠ 2 * 2 ^ k - 1)%nat; [|lia]. intros ->.
      replace (2 * 2 ^ k - 1 + (2 * 2 ^ k - 1))%nat with ((2 * 2 ^ k - 1) * 2)%nat in Hm by lia.
      rewrite Nat.Div0.mod_mul in Hm. lia. }
    rewrite (heap_node_size _ _ _ sib Hh Hsib). cbn [Z.of_nat Pos.of_succ_nat Pos.succ]. rewrite Z.eqb_refl.
    cbn [ensure mbind result_bind].
    assert (Z.quot (Z.of_nat i) 2 = Z.of_nat (i / 2)) as ->.
    { rewrite Z.quot_div_nonneg by lia. by rewrite Nat2Z.inj_div. }
    assert ((if Z.rem (Z.of_nat i) 2 =? 0 then hashPair (node t pos) (node t sib) else hashPair (node t sib) (node t pos))
            = node t par) as ->.
    { rewrite Hpar. rewrite Z.rem_mod_nonneg by lia. pose proof (Nat.div_mod_eq i 2) as Ei. change 2 with (Z.of_nat 2).
      rewrite <- Nat2Z.inj_mod. pose proof (Nat.mod_upper_bound i 2).
      assert (pos mod 2 = (i + 1) mod 2)%nat as Epm.
      { unfold pos. replace (2 * 2 ^ k - 1 + i)%nat with (i + 1 + (2 ^ k - 1) * 2)%nat by lia. apply Nat.Div0.mod_add. }
      destruct (decide (i mod 2 = 0)%nat) as [E0|E1].
      - rewrite E0. cbn [Z.of_nat Z.eqb]. f_equal; f_equal.
        + unfold pos, par. lia.
        + unfold sib. rewrite Epm, Nat.Div0.add_mod, E0. cbn. unfold pos, par. lia.
      - assert (i mod 2 = 1)%nat as E1' by lia. rewrite E1'. cbn [Z.of_nat Pos.of_succ_nat Z.eqb]. f_equal; f_equal.
        + unfold sib. rewrite Epm, Nat.Div0.add_mod, E1'. cbn. unfold pos, par. lia.
        + unfold pos, par. lia. }
    destruct (IH fuel (i / 2)%nat ltac:(lia) Hi2 ltac:(lia)) as [IH1 IH2]. fold par in IH1, IH2. split; [done|lia].
Qed.

Lemma numLeaves_heap n leaf t : (0 < n)%nat → heap n leaf t → numLeaves t = n.
Proof.
  intros Hn Hh. unfold numLeaves. rewrite (heap_length _ _ _ Hh).
  replace (2 * n - 1 + 1)%nat with (n * 2)%nat by lia. by apply Nat.div_mul.
Qed.

(** The proof of a leaf has one sibling per level and leads to the root. *)
Lemma proof_correct d leaf t i : heap (2 ^ d) leaf t → (i < 2 ^ d)%nat →
  ∃ path, Proof t (Z.of_nat i) = Ok path ∧ length path = d ∧
    RootFromProof (leaf i) (Z.of_nat i) path = Ok (Root t).
Proof.
  intros Hh Hi. pose proof (Nat.pow_nonzero 2 d). unfold Proof, fillProof.
  rewrite (numLeaves_heap (2 ^ d) leaf t) by (done || lia).
  destruct (Z.ltb_spec (Z.of_nat i) 0); [lia|]. destruct (Z.leb_spec (Z.of_nat (2 ^ d)) (Z.of_nat i)); [lia|].
  cbn [orb negb ensure mbind result_bind]. rewrite Nat2Z.id. eexists. split; [done|].
  pose proof (Nat.pow_gt_lin_r 2 d ltac:(lia)).
  destruct (walk_root (2 ^ d) leaf t Hh d (2 ^ d - 1 + i) i) as [R1 R2]; [lia..|].
  split; [done|]. unfold RootFromProof. by rewrite <- (heap_leaf _ _ _ Hh i Hi).
Qed.

(** ** Binding *)

(** The strings that are hashed on the way from a leaf to the root. *)
Fixpoint path_from (current : bytes) (pos : Z) (proof : list bytes) : list bytes :=
  current ::
  match proof with
  | [] => []
  | sibling :: proof' =>
      path_from (1 :: (if Z.rem pos 2 =? 0 then sha256 current ++ sibling else sibling ++ sha256 current))
        (Z.quot pos 2) proof'
  end.
Definition path_inputs (leaf : bytes) (index : Z) (proof : list bytes) : list bytes := path_from (0 :: leaf) index proof.

(** Two runs hash different strings to the same value at the same height. *)
Definition colliding (l l' : list bytes) : Prop := ∃ a b, (a, b) ∈ zip l l' ∧ a ≠ b ∧ sha256 a = sha256 b.

Lemma colliding_cons x x' l l' : colliding l l' → colliding (x :: l) (x' :: l').
Proof. intros (a & b & Hin & Hne). exists a, b. split; [by right|done]. Qed.

Lemma equal_or_colliding x x' l l' : sha256 x = sha256 x' → x = x' ∨ colliding (x :: l) (x' :: l').
Proof. intros E. destruct (decide (x = x')); [by left|right]. exists x, x'. split; [by left|done]. Qed.

Lemma root_loop_step current pos sibling proof r :
  root_loop (sha256 current) pos (sibling :: proof) = Ok r →
  length sibling = 32%nat ∧
  root_loop (sha256 (1 :: (if Z.rem pos 2 =? 0 then sha256 current ++ sibling else sibling ++ sha256 current)))
    (Z.quot pos 2) proof = Ok r.
Proof.
  cbn [root_loop]. intros H. apply bind_Ok in H as (u & Hu & H). apply ensure_Ok, Z.eqb_eq in Hu.
  split; [unfold NodeSize in Hu; lia|]. unfold hashPair in H. by destruct (Z.rem pos 2 =? 0).
Qed.

Lemma root_binding p : ∀ c c' p' pos r, length p = length p' →
  root_loop (sha256 c) pos p = Ok r → root_loop (sha256 c') pos p' = Ok r →
  c = c' ∧ p = p' ∨ colliding (path_from c pos p) (path_from c' pos p').
Proof.
  induction p as [|s p IH]; intros c c' [|s' p'] pos r Hl; try discriminate.
  - cbn. intros [= <-] [= E]. edestruct (equal_or_colliding c c' [] []) as [->|]; eauto.
  - injection Hl as Hl. intros H H'.
    apply root_loop_step in H as [Hs H]. apply root_loop_step in H' as [Hs' H'].
    cbn [path_from]. destruct (IH _ _ _ _ _ Hl H H') as [[E ->]|Hc]; [|right; by apply colliding_cons].
    assert (sha256 c = sha256 c' ∧ s = s') as [Ec ->].
    { injection E as E. destruct (Z.rem pos 2 =? 0).
      - apply app_inj_1 in E as [? ?]; [done|by rewrite !sha256_length].
      - apply app_inj_1 in E as [? ?]; [done|by rewrite Hs, Hs']. }
    edestruct (equal_or_colliding c c') as [->|Hc]; [exact Ec|by left|right; exact Hc].
Qed.

Lemma leaf_binding leaf leaf' index p p' r : length p = length p' →
  RootFromProof leaf index p = Ok r → RootFromProof leaf' index p' = Ok r →
  leaf = leaf' ∧ p = p' ∨ colliding (path_inputs leaf index p) (path_inputs leaf' index p').
Proof.
  intros Hl H H'. destruct (root_binding p _ _ p' index r Hl H H') as [[[= ->] ->]|Hc]; [by left|by right].
Qed.

(** *** Trees *)

(** The strings hashed by a tree, inner nodes first. *)
Definition tree_inputs (n : nat) (leaf : nat → bytes) (t : Tree) : list bytes :=
  map (λ pos, 1 :: node t (2 * pos + 1) ++ node t (2 * pos + 2)) (seq 0 (n - 1)) ++ map (λ i, 0 :: leaf i) (seq 0 n).

Lemma colliding_at (l l' : list bytes) i x x' : l !! i = Some x → l' !! i = Some x' → sha256 x = sha256 x' → x = x' ∨ colliding l l'.
Proof.
  intros Hx Hx' E. destruct (decide (x = x')); [by left|right]. exists x, x'. split; [|done].
  apply list_elem_of_lookup. exists i. rewrite lookup_zip_with, Hx, Hx'. done.
Qed.

Lemma tree_inputs_inner n leaf t pos : (pos < n - 1)%nat →
  tree_inputs n leaf t !! pos = Some (1 :: node t (2 * pos + 1) ++ node t (2 * pos + 2)).
Proof.
  intros H. unfold tree_inputs. rewrite lookup_app_l by (rewrite length_map, length_seq; lia).
  rewrite list_lookup_fmap, lookup_seq_lt by done. done.
Qed.

Lemma tree_inputs_leaf n leaf t i : (i < n)%nat → tree_inputs n leaf t !! (n - 1 + i)%nat = Some (0 :: leaf i).
Proof.
  intros H. unfold tree_inputs. rewrite lookup_app_r by (rewrite length_map, length_seq; lia).
  rewrite length_map, length_seq. replace (n - 1 + i - (n - 1))%nat with i by lia.
  rewrite list_lookup_fmap, lookup_seq_lt by done. done.
Qed.

(** Trees of one size with one root have the same leaves, or their hashed
    strings collide. *)
Lemma heap_binding n leaf leaf' t t' : heap n leaf t → heap n leaf' t' → Root t = Root t' →
  (∀ i, (i < n)%nat → leaf i = leaf' i) ∨ colliding (tree_inputs n leaf t) (tree_inputs n leaf' t').
Proof.
  intros Hh Hh' Hroot.
  assert (∀ m, (m <= 2 * n - 1)%nat → (∀ pos, (pos < m)%nat → node t pos = node t' pos) ∨
    colliding (tree_inputs n leaf t) (tree_inputs n leaf' t')) as Hnodes.
  { induction m as [|m IH]; intros Hm; [left; lia|]. destruct IH as [IH|]; [lia| |by right].
    destruct (decide (m = 0)%nat) as [->|Hm0]; [left; intros pos Hp; by assert (pos = 0)%nat as -> by lia|].
    set (p := ((m - 1) / 2)%nat). pose proof (Nat.div_mod_eq (m - 1) 2) as E. fold p in E.
    pose proof (Nat.mod_upper_bound (m - 1) 2 ltac:(lia)).
    assert (p < n - 1)%nat as Hp by lia. pose proof (IH p ltac:(lia)) as Ep.
    rewrite (heap_inner _ _ _ Hh p Hp), (heap_inner _ _ _ Hh' p Hp) in Ep.
    destruct (colliding_at _ _ p _ _ (tree_inputs_inner n leaf t p Hp) (tree_inputs_inner n leaf' t' p Hp) Ep) as [Eq|]; [left|by right].
    injection Eq as Eq. apply app_inj_1 in Eq as [E1 E2]; [|rewrite (heap_node_size n leaf), (heap_node_size n leaf'); (done || lia)].
    intros pos Hpos. destruct (decide (pos = m)) as [->|]; [|apply IH; lia].
    clearbody p. destruct (decide (m = 2 * p + 1)%nat) as [Em|]; [by rewrite Em|]. by assert (m = 2 * p + 2)%nat as Em by lia; rewrite Em. }
  destruct (Hnodes (2 * n - 1)%nat ltac:(lia)) as [Heq|]; [|by right]. clear Hnodes.
  assert (∀ m, (m <= n)%nat → (∀ i, (i < m)%nat → leaf i = leaf' i) ∨ colliding (tree_inputs n leaf t) (tree_inputs n leaf' t')) as Hl.
  { induction m as [|m IH]; intros Hm; [left; lia|]. destruct IH as [IH|]; [lia| |by right].
    pose proof (Heq (n - 1 + m)%nat ltac:(lia)) as Em. rewrite (heap_leaf _ _ _ Hh), (heap_leaf _ _ _ Hh') in Em by lia.
    destruct (colliding_at _ _ (n - 1 + m) _ _ (tree_inputs_leaf n leaf t m ltac:(lia)) (tree_inputs_leaf n leaf' t' m ltac:(lia)) Em)
      as [Eq|]; [left|by right].
    injection Eq as Eq. intros i Hi. destruct (decide (i = m)) as [->|]; [done|apply IH; lia]. }
  by apply Hl.
Qed.

(** ** In-place reduction *)

Lemma reduce_level_spec t m : (2 * m <= length t)%nat →
  length (foldl reduce_step t (seq 0 m)) = length t ∧
  ∀ i, node (foldl reduce_step t (seq 0 m)) i =
       if decide (i < m)%nat then hashPair (node t (2 * i)) (node t (2 * i + 1)) else node t i.
Proof.
  induction m as [|m IH]; intros Hm; [by split; [|intros i; rewrite decide_False by lia]|].
  destruct IH as [IL IN]; [lia|]. rewrite seq_S, foldl_app. cbn [foldl Nat.add]. unfold reduce_step at 1 3.
  split; [by rewrite length_insert|]. intros i. destruct (decide (i = m)) as [->|Hne].
  - rewrite node_insert_eq by lia. rewrite decide_True by lia. rewrite !IN. by rewrite !decide_False by lia.
  - rewrite node_insert_ne by done. rewrite IN. destruct (decide (i < m)%nat).
    + by rewrite decide_True by lia.
    + by rewrite decide_False by lia.
Qed.

Lemma reduce_levels_spec n leaf h : heap n leaf h → ∀ k fuel t, (2 ^ k <= n)%nat → (k < fuel)%nat →
  (2 ^ k <= length t)%nat → (∀ i, (i < 2 ^ k)%nat → node t i = node h (2 ^ k - 1 + i)) →
  node (reduce_levels fuel (2 ^ k) t) 0 = node h 0.
Proof.
  intros Hh k. induction k as [|k IH]; intros [|fuel] t Hn Hf Hl Ht; try lia; cbn [reduce_levels].
  - change (2 ^ 0)%nat with 1%nat in *. cbn [Nat.leb]. by rewrite Ht by lia.
  - assert (2 ^ S k = 2 * 2 ^ k)%nat as E by (cbn; lia). rewrite E in *. pose proof (Nat.pow_nonzero 2 k).
    destruct (Nat.leb_spec (2 * 2 ^ k) 1); [lia|].
    assert ((2 * 2 ^ k) / 2 = 2 ^ k)%nat as ->. { rewrite Nat.mul_comm. by apply Nat.div_mul. }
    destruct (reduce_level_spec t (2 ^ k)) as [RL RN]; [lia|]. apply IH; [lia|lia|lia|].
    intros i Hi. rewrite RN, decide_True, !Ht by lia. rewrite (heap_inner _ _ _ Hh (2 ^ k - 1 + i)) by lia. f_equal; f_equal; lia.
Qed.

Lemma RootFromFunc_root d leaf t buf : heap (2 ^ d) leaf t → length buf = (2 ^ d)%nat →
  RootFromFunc (2 ^ Z.of_nat d * NodeSize) buf leaf = Ok (Root t).
Proof.
  intros Hh Hlen. unfold RootFromFunc, nodeCount, requirePow2, NodeSize. assert (0 < 2 ^ Z.of_nat d) by lia.
  destruct (Z.eqb_spec (2 ^ Z.of_nat d * 32) 0); [lia|]. rewrite Z.rem_mul, Z.quot_mul by lia.
  cbn [orb negb Z.eqb mbind result_bind]. destruct (Z.eqb_spec (2 ^ Z.of_nat d) 0); [lia|].
  rewrite pow2_land by lia. cbn [Z.eqb negb mbind result_bind]. f_equal.
  assert (Z.to_nat (2 ^ Z.of_nat d) = 2 ^ d)%nat as ->.
  { rewrite <- (Nat2Z.id (2 ^ d)). f_equal. by rewrite Nat2Z.inj_pow. }
  pose proof (Nat.pow_gt_lin_r 2 d ltac:(lia)).
  destruct (writes_spec id (λ i _, hashLeaf (leaf i)) (seq 0 (2 ^ d)) buf) as [W1 _].
  { rewrite map_id. apply NoDup_seq. }
  { intros i Hi. apply elem_of_seq in Hi. cbn. lia. }
  { done. }
  apply (reduce_levels_spec (2 ^ d) leaf t Hh); [done|lia| |].
  - rewrite (length_writes id (λ i _, hashLeaf (leaf i))). lia.
  - intros i Hi. rewrite (heap_leaf _ _ _ Hh) by done. apply (W1 i). apply elem_of_seq. lia.
Qed.

(** ** Batches of proofs *)

Lemma reduceProofs_Ok inputs r :
  reduceProofs inputs = Ok r ↔ inputs ≠ [] ∧ Forall (λ i, input_root i = Ok r) inputs.
Proof.
  destruct inputs as [|first rest]; cbn [reduceProofs]; [split; [discriminate|by intros [? _]]|].
  rewrite bind_Ok. split.
  - intros (want & Hw & H). apply bind_Ok in H as ([] & He & [= <-]). split; [done|]. constructor; [done|].
    apply each_Ok in He. eapply Forall_impl; [exact He|]. intros i Hi. cbn in Hi.
    apply bind_Ok in Hi as (root & Hr & Hd). apply ensure_Ok, bool_decide_eq_true in Hd. by subst.
  - intros [_ HF]. apply Forall_cons in HF as [Hf HF]. exists r. split; [done|].
    assert (each (λ i, root ← input_root i; ensure (bool_decide (root = r)) "root mismatch") rest = Ok tt) as ->; [|done].
    apply each_Ok. eapply Forall_impl; [exact HF|]. intros i Hi. rewrite Hi. cbn. by rewrite bool_decide_true.
Qed.

Lemma slices_concat {A} (l : list A) chunk k :
  concat (map (λ w, slice l (w * chunk) (Nat.min ((w + 1) * chunk) (length l))) (seq 0 k)) = take (k * chunk) l.
Proof.
  induction k as [|k IH]; [done|]. rewrite seq_S, map_app, concat_app, IH. cbn [map concat Nat.add]. rewrite app_nil_r.
  unfold slice. assert (take (S k * chunk) l = take (k * chunk) l ++ take chunk (drop (k * chunk) l)) as ->.
  { rewrite take_take_drop. f_equal. lia. }
  f_equal. destruct (decide (length l <= k * chunk)%nat) as [Hle|Hgt].
  - rewrite drop_ge by lia. by rewrite !take_nil.
  - destruct (decide ((k + 1) * chunk <= length l)%nat).
    + f_equal. lia.
    + rewrite !take_ge; [done|rewrite length_drop; lia..].
Qed.

Lemma ceil_div_cover count chunk : (0 < chunk)%nat → (count <= (count + chunk - 1) / chunk * chunk)%nat.
Proof.
  intros Hc. pose proof (Nat.div_mod_eq (count + chunk - 1) chunk) as E.
  pose proof (Nat.mod_upper_bound (count + chunk - 1) chunk). lia.
Qed.

Lemma ceil_div_pos count workers : (0 < workers)%nat → (0 < count)%nat → (0 < (count + workers - 1) / workers)%nat.
Proof. intros Hw Hc. apply Nat.div_str_pos. lia. Qed.

(** The chunks partition the items, and none is empty. *)
Lemma chunks_partition {A} (l : list A) workers : l ≠ [] → (0 < workers)%nat →
  let parts := map (λ '(start, stop), slice l start stop) (parallelChunks (length l) workers) in
  concat parts = l ∧ parts ≠ [] ∧ Forall (λ part, part ≠ []) parts.
Proof.
  intros Hl Hw. unfold parallelChunks. set (count := length l).
  assert (0 < count)%nat as Hc by (destruct l; [done|cbn in *; lia]).
  set (workers' := Nat.min workers count). set (chunk := ((count + workers' - 1) / workers')%nat).
  assert (0 < chunk)%nat as Hch by (apply ceil_div_pos; lia).
  set (k := ((count + chunk - 1) / chunk)%nat). assert (0 < k)%nat as Hk by by apply ceil_div_pos.
  rewrite map_map. split; [|split].
  - etrans; [exact (slices_concat l chunk k)|]. apply take_ge. by apply ceil_div_cover.
  - destruct k; [lia|]. done.
  - apply Forall_map, Forall_forall. intros w Hin. apply elem_of_seq in Hin.
    assert (w * chunk < count)%nat as Hlt.
    { assert (w <= k - 1)%nat by lia. pose proof (Nat.div_mod_eq (count + chunk - 1) chunk) as E. fold k in E. nia. }
    intros Hnil. apply (f_equal length) in Hnil. unfold slice in Hnil. rewrite length_take, length_drop in Hnil.
    cbn in Hnil. fold count in Hnil. lia.
Qed.

Lemma Forall_concat {A} (P : A → Prop) (ls : list (list A)) : Forall P (concat ls) ↔ Forall (Forall P) ls.
Proof. induction ls as [|l ls IH]; cbn; [split; constructor|]. by rewrite Forall_app, Forall_cons, IH. Qed.

(** The batch check returns the common root, whatever the number of workers. *)
Lemma RootFromProofs_Ok inputs workers r :
  RootFromProofs inputs workers = Ok r ↔ inputs ≠ [] ∧ Forall (λ i, input_root i = Ok r) inputs.
Proof.
  unfold RootFromProofs. destruct (Nat.eqb_spec (length inputs) 0) as [E|E].
  { apply nil_length_inv in E as ->. split; [discriminate|by intros [? _]]. }
  assert (inputs ≠ []) as Hne by by destruct inputs.
  destruct (Z.leb_spec (splitWorkers (Z.of_nat (length inputs)) workers proofGrain) 1); [apply reduceProofs_Ok|].
  set (nw := splitWorkers _ _ _) in *.
  destruct (chunks_partition inputs (Z.to_nat nw)) as (Hcat & Hpne & Hparts); [done|lia|].
  set (parts := map (λ '(start, stop), slice inputs start stop) _) in *.
  assert (map (λ '(start, stop), reduceProofs (slice inputs start stop)) (parallelChunks (length inputs) (Z.to_nat nw))
          = map reduceProofs parts) as ->.
  { unfold parts. rewrite map_map. apply map_ext. by intros [? ?]. }
  destruct parts as [|first rest] eqn:Ep; [done|]. cbn [map].
  assert (inputs ≠ [] ∧ Forall (λ i, input_root i = Ok r) inputs ↔
          Forall (λ part, reduceProofs part = Ok r) (first :: rest)) as ->.
  { rewrite <- Hcat, Forall_concat. split.
    - intros [_ HF]. rewrite Forall_forall in *. intros part Hin. apply reduceProofs_Ok. auto.
    - intros HF. split; [by rewrite Hcat|]. eapply Forall_impl; [exact HF|]. intros part Hp. by apply reduceProofs_Ok in Hp as [_ ?]. }
  rewrite bind_Ok. split.
  - intros (want & Hw & Hx). apply bind_Ok in Hx as ([] & He & [= <-]). apply each_Ok in He.
    change (reduceProofs first :: map reduceProofs rest) with (map reduceProofs (first :: rest)) in He.
    rewrite Forall_map in He. eapply Forall_impl; [exact He|]. intros part Hp. cbn in Hp.
    apply bind_Ok in Hp as (root & Hr & Hd). apply ensure_Ok, bool_decide_eq_true in Hd. by subst.
  - intros HF. pose proof HF as [Hf _]%Forall_cons. exists r. split; [done|].
    assert (each (λ slot, root ← slot; ensure (bool_decide (root = r)) "proof chunk: root mismatch")
              (reduceProofs first :: map reduceProofs rest) = Ok tt) as ->; [|done].
    apply each_Ok. change (reduceProofs first :: map reduceProofs rest) with (map reduceProofs (first :: rest)).
    rewrite Forall_map. eapply Forall_impl; [exact HF|]. intros part ->. cbn. by rewrite bool_decide_true.
Qed.
End Correctness.
