(* ===== verification/Rlc.v ===== *)
(** * Random linear combinations

    [pkg/rsema1d/field] and [pkg/rsema1d/rlc]: elements of GF(2^128) as eight
    components over GF(2^16), the Leopard layout of symbols in bytes, the
    derivation of coefficients, and the combination of rows, computed a row at a
    time and in batches over transposed columns. The arithmetic of GF(2^16) is
    that of [klauspost/reedsolomon]. *)

From S2P Require Import Prelude Sdk Merkle.
#[local] Open Scope Z_scope.

(** ** GF(2^16): [reedsolomon.LowLevel] *)

(** [GF16MulSliceXor8] multiplies every symbol of a slice by eight scalars and
    adds the products to eight accumulators. *)
Class GF16 := {
  GF16Mul : Z → Z → Z;
  GF16MulSliceXor8 : list Z → bytes → list bytes → list bytes;
}.

(** ** [field/gf128.go] *)

Definition GF128Width : nat := 8.
Definition GF128Size : nat := 16.

Abbreviation GF128 := (list Z) (only parsing).

Definition Zero : GF128 := repeat 0 GF128Width.
Definition Add128 (a b : GF128) : GF128 := zip_with Z.lxor a b.
Definition Mul128 `{GF16} (scalar : Z) (vec : GF128) : GF128 := map (GF16Mul scalar) vec.

(** [binary.LittleEndian.PutUint16] and [Uint16]. *)
Definition put_u16 (x : Z) : bytes := [x mod 256; x / 256 mod 256].
Definition get_u16 (b : bytes) (off : nat) : Z := nth off b 0 + 256 * nth (off + 1) b 0.

Definition EncodeGF128 (g : GF128) : bytes := concat (map put_u16 g).
Definition DecodeGF128 (src : bytes) : result GF128 :=
  if (length src <? GF128Size)%nat then Panic "index out of range"
  else Ok (map (λ i, get_u16 src (i * 2)) (seq 0 GF128Width)).

Definition Equal128 (a b : GF128) : bool := bool_decide (a = b).

Definition HashToGF128 (data : bytes) : GF128 :=
  let firstHalf := map (λ i, get_u16 data (i * 2)) (seq 0 GF128Width) in
  let secondHalf := map (λ i, get_u16 data (16 + i * 2)) (seq 0 GF128Width) in
  Add128 firstHalf secondHalf.

(** ** [field/leopard.go] *)

Definition LeopardSymbolsPerChunk : nat := 32.
Definition LeopardChunkSize : nat := 64.

Definition GF16FromLeopard (slab : bytes) (r : nat) : Z :=
  let rb := (r / LeopardSymbolsPerChunk)%nat in
  let rr := (r mod LeopardSymbolsPerChunk)%nat in
  let off := (rb * LeopardChunkSize)%nat in
  Z.lor (Z.shiftl (nth (off + LeopardSymbolsPerChunk + rr) slab 0) 8) (nth (off + rr) slab 0).

(** One chunk: the low bytes of the symbols, then the high bytes. *)
Definition GF128ToLeopard (g : GF128) : bytes :=
  map (λ x, Z.land x 255) g ++ repeat 0 (LeopardSymbolsPerChunk - GF128Width) ++
  map (λ x, Z.shiftr x 8) g ++ repeat 0 (LeopardSymbolsPerChunk - GF128Width).

Definition GF128FromLeopard (src : bytes) : GF128 :=
  map (λ i, Z.lor (Z.shiftl (nth (LeopardSymbolsPerChunk + i) src 0) 8) (nth i src 0)) (seq 0 GF128Width).

(** ** [rlc/marshal.go] *)

Abbreviation Vector := (list (list Z)) (only parsing).

Definition Rlc_Marshal (values : Vector) : bytes := concat (map EncodeGF128 values).

Definition Rlc_Unmarshal (src : bytes) : result Vector :=
  _ ← ensure (length src mod GF128Size =? 0)%nat "GF128 byte length must be a multiple of 16";
  let n := (length src / GF128Size)%nat in
  fold_res (λ acc i, g ← DecodeGF128 (slice src (i * GF128Size) ((i + 1) * GF128Size)); Ok (acc ++ [g]))
    (seq 0 n) [].

(** ** [rlc/derive.go] *)

(** [binary.LittleEndian.PutUint32] of a [uint32] conversion. *)
Definition le_u32 (x : Z) : bytes := rev (be_bytes 4 x).

Section Derive.
Context `{CR : Crypto}.

Definition coefficient (seed : bytes) (i : nat) : GF128 := HashToGF128 (sha256 (seed ++ le_u32 (Z.of_nat i))).

Definition deriveRange (seed : bytes) (coeffs : Vector) (start stop : nat) : Vector :=
  foldl (λ coeffs i, <[i := coefficient seed i]> coeffs) coeffs (seq start (stop - start)).

(** The ranges of the workers, in the order in which they ran. *)
Definition derive_ranges (numSymbols workers : nat) : list (nat * nat) :=
  let chunk := ((numSymbols + workers - 1) / workers)%nat in
  map (λ w, (w * chunk, Nat.min (w * chunk + chunk) numSymbols)%nat) (seq 0 workers).

Definition deriveParallel (order : nat → list nat) (seed : bytes) (coeffs : Vector) (numSymbols workers : nat) : Vector :=
  foldl (λ coeffs w, let '(start, stop) := nth w (derive_ranges numSymbols workers) (0, 0)%nat in
                     deriveRange seed coeffs start stop) coeffs (order workers).

Definition minParallelSymbols : nat := 512.

Definition derive_seed (rowRoot : bytes) (k n rowSize : Z) : bytes :=
  sha256 (rowRoot ++ le_u32 k ++ le_u32 n ++ le_u32 rowSize).

Definition DeriveCoefficients (order : nat → list nat) (rowRoot : bytes) (k n : Z) (rowSize : nat) (workers : Z) : Vector :=
  let seed := derive_seed rowRoot k n (Z.of_nat rowSize) in
  let numSymbols := (rowSize / 2)%nat in
  let coeffs := repeat Zero numSymbols in
  let workers := Nat.min (Z.to_nat (Z.max workers 1)) numSymbols in
  if (workers =? 1)%nat || (numSymbols <? minParallelSymbols)%nat
  then deriveRange seed coeffs 0 numSymbols
  else deriveParallel order seed coeffs numSymbols workers.
End Derive.

(** ** [rlc/compute.go] *)

Section Compute.
Context `{GF : GF16}.

Definition chunkSize : nat := LeopardChunkSize.
Definition symbolsPerChunk : nat := LeopardSymbolsPerChunk.

Definition ComputeRow (row : bytes) (coeffs : Vector) : GF128 :=
  foldl (λ result c,
      foldl (λ result j,
          let symbolIndex := (c * symbolsPerChunk + j)%nat in
          let sym := GF16FromLeopard row symbolIndex in
          Add128 result (Mul128 sym (nth symbolIndex coeffs Zero)))
        result (seq 0 symbolsPerChunk))
    Zero (seq 0 (length row / chunkSize)).

Definition padToSymbolsPerChunk (rows : list bytes) : list bytes :=
  let K := length rows in
  let rem := (K mod symbolsPerChunk)%nat in
  if (rem =? 0)%nat then rows
  else rows ++ repeat (repeat 0 (length (nth 0 rows []))) (symbolsPerChunk - rem).

(** Column [j] of chunk [c]: for every block of 32 rows, the low bytes of
    symbol [j] of the rows and then the high bytes. *)
Definition column (rows : list bytes) (c j : nat) : bytes :=
  let chunkOff := (c * chunkSize)%nat in
  concat (map (λ rb,
      let block := slice rows (rb * symbolsPerChunk) ((rb + 1) * symbolsPerChunk) in
      map (λ row, nth (chunkOff + j) row 0) block ++
      map (λ row, nth (chunkOff + symbolsPerChunk + j) row 0) block)
    (seq 0 (length rows / symbolsPerChunk))).

Definition transposeChunk (rows : list bytes) (c : nat) : list bytes :=
  map (column rows c) (seq 0 symbolsPerChunk).

Definition mulXorGF128 (coeff : GF128) (col : bytes) (accs : list bytes) : list bytes :=
  GF16MulSliceXor8 coeff col accs.

Definition accumulateRLC (rows : list bytes) (coeffs : Vector) (chunkLo chunkHi : nat) : list bytes :=
  let stride := (2 * length rows)%nat in
  foldl (λ comps c,
      let cols := transposeChunk rows c in
      foldl (λ comps j, mulXorGF128 (nth (c * symbolsPerChunk + j) coeffs Zero) (nth j cols []) comps)
        comps (seq 0 symbolsPerChunk))
    (repeat (repeat 0 stride) GF128Width) (seq chunkLo (chunkHi - chunkLo)).

Definition gf128sFromColumns (comps : list bytes) (k : nat) : Vector :=
  map (λ r, map (λ comp, GF16FromLeopard (nth comp comps []) r) (seq 0 GF128Width)) (seq 0 k).

Definition chunkSpan (numChunks workers w : nat) : nat * nat :=
  let span := (numChunks / workers)%nat in
  let extra := (numChunks mod workers)%nat in
  let lo := (w * span + Nat.min w extra)%nat in
  (lo, if (w <? extra)%nat then (lo + span + 1)%nat else (lo + span)%nat).

(** [subtle.XORBytes] of the accumulators, component by component. *)
Definition xor_comps (a b : list bytes) : list bytes := zip_with (zip_with Z.lxor) a b.

Definition computeParallel (rows : list bytes) (coeffs : Vector) (numChunks workers : nat) : result (list bytes) :=
  let partials := map (λ w, let '(lo, hi) := chunkSpan numChunks workers w in accumulateRLC rows coeffs lo hi)
                      (seq 0 workers) in
  match partials with
  | [] => Panic "index out of range"
  | total :: rest => Ok (foldl xor_comps total rest)
  end.

Definition Compute (rows : list bytes) (coeffs : Vector) (workers : Z) : result Vector :=
  let origK := length rows in
  if (origK =? 0)%nat then Ok []
  else
    let padded := padToSymbolsPerChunk rows in
    let k := length padded in
    let numChunks := (length (nth 0 padded []) / chunkSize)%nat in
    let workers := Nat.min (Z.to_nat (Z.max workers 1)) numChunks in
    comps ← (if (workers =? 1)%nat then Ok (accumulateRLC padded coeffs 0 numChunks)
             else computeParallel padded coeffs numChunks workers);
    Ok (take origK (gf128sFromColumns comps k)).
End Compute.
