(* ===== verification/RlcProofs.v ===== *)
(** * Correctness of the random linear combinations

    The batched combination over transposed columns, with any number of
    workers, equals the combination computed a row at a time; the parallel
    derivation of coefficients equals the sequential one; the encodings of
    field elements are inverse to each other. *)

From S2P Require Import Prelude Sdk Merkle MerkleProofs Rlc.
#[local] Open Scope Z_scope.

Definition u16 (x : Z) : Prop := 0 <= x < 2 ^ 16.

(** ** Sums in GF(2^16) *)

Definition xsum {A} (f : A → Z) (l : list A) : Z := foldl (λ acc i, Z.lxor acc (f i)) 0 l.

Lemma xsum_foldl {A} (f : A → Z) l : ∀ z, foldl (λ acc i, Z.lxor acc (f i)) z l = Z.lxor z (xsum f l).
Proof.
  unfold xsum. induction l as [|i l IH]; intros z; cbn [foldl]; [by rewrite Z.lxor_0_r|].
  rewrite (IH (Z.lxor z (f i))), (IH (Z.lxor 0 (f i))), Z.lxor_0_l. by rewrite Z.lxor_assoc.
Qed.

Lemma xsum_app {A} (f : A → Z) l1 l2 : xsum f (l1 ++ l2) = Z.lxor (xsum f l1) (xsum f l2).
Proof. unfold xsum at 1. rewrite foldl_app. apply xsum_foldl. Qed.

Lemma xsum_cons {A} (f : A → Z) i l : xsum f (i :: l) = Z.lxor (f i) (xsum f l).
Proof. apply (xsum_app f [i] l). Qed.

Lemma xsum_ext {A} (f g : A → Z) l : (∀ i, i ∈ l → f i = g i) → xsum f l = xsum g l.
Proof.
  induction l as [|i l IH]; intros H; [done|]. rewrite !xsum_cons, H by by left.
  f_equal. apply IH. intros j Hj. apply H. by right.
Qed.

Lemma xsum_lxor {A} (f g : A → Z) l : xsum (λ i, Z.lxor (f i) (g i)) l = Z.lxor (xsum f l) (xsum g l).
Proof.
  induction l as [|i l IH]; [done|]. rewrite !xsum_cons, IH.
  apply Z.bits_inj'. intros n Hn. rewrite !Z.lxor_spec.
  by destruct (Z.testbit (f i) n), (Z.testbit (g i) n), (Z.testbit (xsum f l) n), (Z.testbit (xsum g l) n).
Qed.

Lemma xsum_zero {A} (l : list A) : xsum (λ _, 0) l = 0.
Proof. induction l as [|i l IH]; [done|]. by rewrite xsum_cons, IH. Qed.

(** Sums of sums may be taken in either order. *)
Lemma xsum_swap {A B} (f : A → B → Z) l m :
  xsum (λ a, xsum (f a) m) l = xsum (λ b, xsum (λ a, f a b) l) m.
Proof.
  induction l as [|a l IH]; [cbn; by rewrite xsum_zero|].
  rewrite xsum_cons, IH, <- xsum_lxor. apply xsum_ext. intros b _. by rewrite xsum_cons.
Qed.

(** ** Indices *)

Lemma seq_blocks lo n m : concat (map (λ c, map (λ j, (c * m + j)%nat) (seq 0 m)) (seq lo n)) = seq (lo * m) (n * m).
Proof.
  revert lo. induction n as [|n IH]; intros lo; [done|]. cbn [seq map concat Nat.mul].
  rewrite IH, seq_app. f_equal; [|f_equal; lia]. etrans; [apply (fmap_add_seq (lo * m) 0 m)|].
  by rewrite Nat.add_0_r.
Qed.

Lemma foldl_blocks {S} (f : S → nat → S) lo n m s :
  foldl (λ s c, foldl (λ s j, f s (c * m + j)%nat) s (seq 0 m)) s (seq lo n) = foldl f s (seq (lo * m) (n * m)).
Proof.
  rewrite <- seq_blocks. revert lo s. induction n as [|n IH]; intros lo s; [done|]. cbn [seq map concat foldl].
  rewrite foldl_app, IH. f_equal. generalize (seq 0 m). intros l. revert s. induction l as [|j l IHl]; intros s; cbn; [done|].
  apply IHl.
Qed.

(** Blocks of equal length. *)
Lemma nth_concat {A} (d : A) m (ls : list (list A)) i x : Forall (λ l, length l = m) ls → (x < m)%nat →
  nth (i * m + x) (concat ls) d = nth x (nth i ls []) d.
Proof.
  intros HF Hx. revert i. induction HF as [|l ls Hl HF IH]; intros i.
  - cbn [concat]. rewrite (nth_overflow []) by (cbn; lia). destruct i; cbn; by destruct x.
  - destruct i as [|i]; cbn [concat nth].
    + rewrite app_nth1 by lia. f_equal.
    + rewrite app_nth2 by lia. rewrite <- IH. f_equal. lia.
Qed.

Lemma length_concat_blocks {A} m (ls : list (list A)) : Forall (λ l, length l = m) ls →
  length (concat ls) = (length ls * m)%nat.
Proof. induction 1 as [|l ls Hl HF IH]; [done|]. cbn. rewrite length_app. lia. Qed.

Lemma nth_slice {A} (d : A) l a b i : (i < b - a)%nat → nth i (slice l a b) d = nth (a + i) l d.
Proof.
  intros Hi. unfold slice. rewrite !nth_lookup. by rewrite lookup_take_lt, lookup_drop by lia.
Qed.

Lemma nth_map_seq {A} (d : A) (f : nat → A) n i : (i < n)%nat → nth i (map f (seq 0 n)) d = f i.
Proof. intros Hi. apply nth_lookup_Some. rewrite list_lookup_fmap, lookup_seq_lt by done. done. Qed.

(** ** Symbols *)

Lemma byte_high_bits l n : byte_ok l → 8 <= n → Z.testbit l n = false.
Proof.
  intros Hl Hn. unfold byte_ok in Hl. rewrite <- (Z.mod_small l (2 ^ 8)) by lia. apply Z.mod_pow2_bits_high. lia.
Qed.

(** The symbol of a low and a high byte. *)
Definition sym_of (h l : Z) : Z := Z.lor (Z.shiftl h 8) l.

Lemma sym_of_bits h l n : byte_ok l → 0 <= n →
  Z.testbit (sym_of h l) n = if n <? 8 then Z.testbit l n else Z.testbit h (n - 8).
Proof.
  intros Hl Hn. unfold sym_of. rewrite Z.lor_spec, Z.shiftl_spec by done. destruct (Z.ltb_spec n 8).
  - by rewrite (Z.testbit_neg_r h) by lia.
  - by rewrite (byte_high_bits l n), orb_false_r by done.
Qed.

Lemma byte_lxor a b : byte_ok a → byte_ok b → byte_ok (Z.lxor a b).
Proof.
  unfold byte_ok. intros Ha Hb. assert (0 <= Z.lxor a b) by (apply Z.lxor_nonneg; lia). split; [done|].
  assert (Z.lxor a b mod 2 ^ 8 = Z.lxor a b) as <-; [|apply Z.mod_pos_bound; lia].
  apply Z.bits_inj'. intros n Hn. destruct (Z.lt_ge_cases n 8).
  - by rewrite Z.mod_pow2_bits_low.
  - rewrite Z.mod_pow2_bits_high by lia. by rewrite Z.lxor_spec, !byte_high_bits.
Qed.

Lemma sym_of_lxor h1 l1 h2 l2 : byte_ok l1 → byte_ok l2 →
  sym_of (Z.lxor h1 h2) (Z.lxor l1 l2) = Z.lxor (sym_of h1 l1) (sym_of h2 l2).
Proof.
  intros H1 H2. apply Z.bits_inj'. intros n Hn. rewrite Z.lxor_spec, !sym_of_bits by auto using byte_lxor.
  destruct (n <? 8); by rewrite Z.lxor_spec.
Qed.

Lemma sym_of_split x : sym_of (Z.shiftr x 8) (Z.land x 255) = x.
Proof.
  change 255 with (Z.ones 8). rewrite Z.land_ones by lia. apply Z.bits_inj'. intros n Hn.
  rewrite sym_of_bits; [|unfold byte_ok; apply Z.mod_pos_bound; lia|done]. destruct (Z.ltb_spec n 8).
  - by apply Z.mod_pow2_bits_low.
  - rewrite Z.shiftr_spec by lia. f_equal. lia.
Qed.

Lemma byte_nth b i : Forall byte_ok b → byte_ok (nth i b 0).
Proof.
  intros HF. destruct (nth_in_or_default i b 0) as [Hin| ->]; [|unfold byte_ok; lia].
  apply list_elem_of_In in Hin. by eapply Forall_forall in HF.
Qed.

(** ** GF(2^16)

    Multiplication is commutative and distributes over addition, which is
    exclusive or; the slice operation works symbol by symbol. *)

(** Accumulators of [len] bytes each. *)
Definition comps_ok (len : nat) (comps : list bytes) : Prop :=
  length comps = GF128Width ∧ Forall (λ b, length b = len ∧ Forall byte_ok b) comps.

Class GF16Laws `{GF16} := {
  GF16Mul_comm a b : u16 a → u16 b → GF16Mul a b = GF16Mul b a;
  GF16Mul_assoc a b c : u16 a → u16 b → u16 c → GF16Mul a (GF16Mul b c) = GF16Mul (GF16Mul a b) c;
  GF16Mul_lxor a b c : u16 a → u16 b → u16 c → GF16Mul a (Z.lxor b c) = Z.lxor (GF16Mul a b) (GF16Mul a c);
  GF16Mul_range a b : u16 a → u16 b → u16 (GF16Mul a b);
  GF16MulSliceXor8_comps s col comps len :
    length s = GF128Width → length col = len → (len mod LeopardChunkSize)%nat = 0%nat → Forall u16 s →
    Forall byte_ok col → comps_ok len comps → comps_ok len (GF16MulSliceXor8 s col comps);
  GF16MulSliceXor8_symbol s col comps len comp r :
    length s = GF128Width → length col = len → (len mod LeopardChunkSize)%nat = 0%nat → Forall u16 s →
    Forall byte_ok col → comps_ok len comps → (comp < GF128Width)%nat → (2 * r < len)%nat →
    GF16FromLeopard (nth comp (GF16MulSliceXor8 s col comps) []) r =
    Z.lxor (GF16FromLeopard (nth comp comps []) r) (GF16Mul (nth comp s 0) (GF16FromLeopard col r));
}.

Section Batched.
Context `{GF : GF16} `{GL : !GF16Laws}.

Lemma comps_nth len comps comp : comps_ok len comps → (comp < GF128Width)%nat →
  length (nth comp comps []) = len ∧ Forall byte_ok (nth comp comps []).
Proof.
  intros [Hl HF] Hc. destruct (lookup_lt_is_Some_2 comps comp) as [b Hb]; [lia|].
  rewrite (nth_lookup_Some _ _ [] _ Hb). by eapply Forall_lookup_1 in HF.
Qed.

Lemma comps_zero len : comps_ok len (repeat (repeat 0 len) GF128Width).
Proof.
  split; [apply repeat_length|]. apply Forall_forall. intros b Hb. apply list_elem_of_In, repeat_spec in Hb as ->.
  split; [apply repeat_length|]. apply Forall_forall. intros x Hx. apply list_elem_of_In, repeat_spec in Hx as ->.
  unfold byte_ok. lia.
Qed.

Lemma symbol_zero len comp r : GF16FromLeopard (nth comp (repeat (repeat 0 len) GF128Width) []) r = 0.
Proof.
  unfold GF16FromLeopard. assert (∀ i, nth i (nth comp (repeat (repeat 0 len) GF128Width) []) 0 = 0) as H.
  { intros i. destruct (nth_in_or_default comp (repeat (repeat 0 len) GF128Width) []) as [Hin| ->]; [|by destruct i].
    apply repeat_spec in Hin as ->. apply nth_repeat. }
  by rewrite !H.
Qed.

Lemma symbol_range slab r : Forall byte_ok slab → u16 (GF16FromLeopard slab r).
Proof.
  intros HF. unfold GF16FromLeopard.
  pose proof (byte_nth slab (r / LeopardSymbolsPerChunk * LeopardChunkSize + LeopardSymbolsPerChunk + r mod LeopardSymbolsPerChunk) HF) as Hh.
  pose proof (byte_nth slab (r / LeopardSymbolsPerChunk * LeopardChunkSize + r mod LeopardSymbolsPerChunk) HF) as Hl.
  revert Hh Hl. generalize (nth (r / LeopardSymbolsPerChunk * LeopardChunkSize + LeopardSymbolsPerChunk + r mod LeopardSymbolsPerChunk) slab 0).
  generalize (nth (r / LeopardSymbolsPerChunk * LeopardChunkSize + r mod LeopardSymbolsPerChunk) slab 0).
  intros l h Hh Hl. fold (sym_of h l). unfold u16. split.
  - apply Z.lor_nonneg. unfold byte_ok in *. split; [apply Z.shiftl_nonneg|]; lia.
  - assert (sym_of h l mod 2 ^ 16 = sym_of h l) as <-; [|apply Z.mod_pos_bound; lia].
    apply Z.bits_inj'. intros n Hn. destruct (Z.lt_ge_cases n 16).
    + by rewrite Z.mod_pow2_bits_low.
    + rewrite Z.mod_pow2_bits_high by lia. rewrite sym_of_bits by done. destruct (Z.ltb_spec n 8); [lia|].
      symmetry. apply byte_high_bits; [done|lia].
Qed.

(** Well-formed inputs: rows of equal length, coefficients of eight 16-bit
    components. *)
Definition coeff_ok (g : list Z) : Prop := length g = GF128Width ∧ Forall u16 g.
Definition row_ok (len : nat) (row : bytes) : Prop := length row = len ∧ Forall byte_ok row.

Lemma zero_ok : coeff_ok Zero.
Proof. split; [done|]. repeat constructor; unfold u16; lia. Qed.

Lemma coeff_nth coeffs i : Forall coeff_ok coeffs → coeff_ok (nth i coeffs Zero).
Proof.
  intros HF. destruct (nth_in_or_default i coeffs Zero) as [Hin| ->]; [|apply zero_ok].
  apply list_elem_of_In in Hin. by eapply Forall_forall in HF.
Qed.

Lemma coeff_component g i : coeff_ok g → u16 (nth i g 0).
Proof.
  intros [_ HF]. destruct (nth_in_or_default i g 0) as [Hin| ->]; [|unfold u16; lia].
  apply list_elem_of_In in Hin. by eapply Forall_forall in HF.
Qed.

(** *** Columns *)

Section Columns.
Context (rows : list bytes) (Hrows : (length rows mod symbolsPerChunk)%nat = 0%nat) (Hbytes : Forall (Forall byte_ok) rows).

Let window (c j rb : nat) : bytes :=
  let block := slice rows (rb * symbolsPerChunk) ((rb + 1) * symbolsPerChunk) in
  map (λ row, nth (c * chunkSize + j) row 0) block ++ map (λ row, nth (c * chunkSize + symbolsPerChunk + j) row 0) block.

Lemma block_length rb : (rb < length rows / symbolsPerChunk)%nat →
  length (slice rows (rb * symbolsPerChunk) ((rb + 1) * symbolsPerChunk)) = symbolsPerChunk.
Proof.
  intros Hrb. unfold slice. rewrite length_take, length_drop.
  pose proof (Nat.div_mod_eq (length rows) symbolsPerChunk) as E. rewrite Hrows in E.
  unfold symbolsPerChunk, LeopardSymbolsPerChunk in *. nia.
Qed.

Lemma windows_length c j :
  Forall (λ w, length w = LeopardChunkSize) (map (window c j) (seq 0 (length rows / symbolsPerChunk))).
Proof.
  apply Forall_map, Forall_forall. intros rb Hrb. apply elem_of_seq in Hrb. unfold window.
  rewrite length_app, !length_map, block_length by lia. done.
Qed.

Lemma column_length c j : length (column rows c j) = (2 * length rows)%nat.
Proof.
  change (length (concat (map (window c j) (seq 0 (length rows / symbolsPerChunk)))) = (2 * length rows)%nat).
  rewrite (length_concat_blocks LeopardChunkSize) by apply windows_length. rewrite length_map, length_seq.
  pose proof (Nat.div_mod_eq (length rows) symbolsPerChunk) as E. rewrite Hrows in E.
  unfold symbolsPerChunk, LeopardSymbolsPerChunk, LeopardChunkSize in *. lia.
Qed.

Lemma column_bytes c j : Forall byte_ok (column rows c j).
Proof.
  unfold column. apply Forall_concat, Forall_map, Forall_forall. intros rb _.
  assert (Forall (Forall byte_ok) (slice rows (rb * symbolsPerChunk) ((rb + 1) * symbolsPerChunk))) as HF.
  { unfold slice. by apply Forall_take, Forall_drop. }
  apply Forall_app. split; apply Forall_map; (eapply Forall_impl; [exact HF|]); intros row Hr; by apply byte_nth.
Qed.

Lemma nth_map_lt {A B} (f : A → B) (d : A) (d' : B) l i : (i < length l)%nat → nth i (map f l) d' = f (nth i l d).
Proof. intros Hi. rewrite (nth_indep _ d' (f d)) by by rewrite length_map. apply map_nth. Qed.

(** Symbol [r] of a column is a symbol of row [r]. *)
Lemma column_symbol c j r : (r < length rows)%nat → (j < symbolsPerChunk)%nat →
  GF16FromLeopard (column rows c j) r = GF16FromLeopard (nth r rows []) (c * symbolsPerChunk + j).
Proof.
  intros Hr Hj. unfold GF16FromLeopard.
  pose proof (Nat.div_mod_eq r LeopardSymbolsPerChunk) as Er.
  pose proof (Nat.mod_upper_bound r LeopardSymbolsPerChunk ltac:(done)) as Hm.
  set (rb := (r / LeopardSymbolsPerChunk)%nat) in *. set (rr := (r mod LeopardSymbolsPerChunk)%nat) in *.
  assert (rb < length rows / symbolsPerChunk)%nat as Hrb.
  { pose proof (Nat.div_mod_eq (length rows) symbolsPerChunk) as E. rewrite Hrows in E.
    unfold symbolsPerChunk, LeopardSymbolsPerChunk in *. nia. }
  assert ((c * symbolsPerChunk + j) / LeopardSymbolsPerChunk = c)%nat as ->.
  { unfold symbolsPerChunk in *. rewrite Nat.div_add_l by done. rewrite Nat.div_small by done. lia. }
  assert ((c * symbolsPerChunk + j) mod LeopardSymbolsPerChunk = j)%nat as ->.
  { unfold symbolsPerChunk in *. rewrite Nat.add_comm, Nat.Div0.mod_add. by apply Nat.mod_small. }
  change (column rows c j) with (concat (map (window c j) (seq 0 (length rows / symbolsPerChunk)))).
  assert (∀ x, (x < LeopardChunkSize)%nat →
    nth (rb * LeopardChunkSize + x) (concat (map (window c j) (seq 0 (length rows / symbolsPerChunk)))) 0 =
    nth x (window c j rb) 0) as Hw.
  { intros x Hx. rewrite nth_concat by (apply windows_length || done). by rewrite nth_map_seq. }
  pose proof (block_length rb Hrb) as Hbl.
  rewrite <- Nat.add_assoc, !Hw by (unfold LeopardSymbolsPerChunk, LeopardChunkSize in *; lia).
  unfold window. cbv zeta. rewrite app_nth2 by (rewrite length_map, Hbl; unfold symbolsPerChunk; lia).
  rewrite length_map, Hbl. replace (LeopardSymbolsPerChunk + rr - symbolsPerChunk)%nat with rr by (unfold symbolsPerChunk; lia).
  rewrite app_nth1 by (rewrite length_map, Hbl; unfold symbolsPerChunk; lia).
  assert (rr < symbolsPerChunk)%nat as Hrr by (unfold symbolsPerChunk; lia).
  rewrite !(nth_map_lt _ []) by lia. rewrite !nth_slice by lia.
  assert (rb * symbolsPerChunk + rr = r)%nat as -> by (unfold symbolsPerChunk; lia). done.
Qed.
End Columns.

(** *** The accumulators *)

Definition term (rows : list bytes) (coeffs : list (list Z)) (comp r c j : nat) : Z :=
  GF16Mul (nth comp (nth (c * symbolsPerChunk + j) coeffs Zero) 0)
          (GF16FromLeopard (nth r rows []) (c * symbolsPerChunk + j)).
Definition chunk_sum rows coeffs comp r (c : nat) : Z := xsum (term rows coeffs comp r c) (seq 0 symbolsPerChunk).

Section Accumulate.
Context (rows : list bytes) (coeffs : list (list Z)).
Context (Hrows : (length rows mod symbolsPerChunk)%nat = 0%nat) (Hbytes : Forall (Forall byte_ok) rows).
Context (Hcoeffs : Forall coeff_ok coeffs).

Let stride : nat := (2 * length rows)%nat.

Lemma stride_chunks : (stride mod LeopardChunkSize)%nat = 0%nat.
Proof.
  unfold stride. pose proof (Nat.div_mod_eq (length rows) symbolsPerChunk) as E. rewrite Hrows in E.
  unfold symbolsPerChunk, LeopardSymbolsPerChunk in E. rewrite E. unfold LeopardChunkSize.
  replace (2 * (32 * (length rows / 32) + 0))%nat with ((length rows / 32) * 64)%nat by lia. apply Nat.Div0.mod_mul.
Qed.

Lemma accumulate_chunk c js : Forall (λ j, (j < symbolsPerChunk)%nat) js → ∀ comps, comps_ok stride comps →
  let out := foldl (λ comps j, mulXorGF128 (nth (c * symbolsPerChunk + j) coeffs Zero) (nth j (transposeChunk rows c) []) comps)
               comps js in
  comps_ok stride out ∧
  ∀ comp r, (comp < GF128Width)%nat → (r < length rows)%nat →
    GF16FromLeopard (nth comp out []) r =
    Z.lxor (GF16FromLeopard (nth comp comps []) r) (xsum (term rows coeffs comp r c) js).
Proof.
  induction 1 as [|j js Hj HF IH]; intros comps Hc; cbn [foldl].
  { split; [done|]. intros. by rewrite Z.lxor_0_r. }
  assert (nth j (transposeChunk rows c) [] = column rows c j) as Ecol.
  { unfold transposeChunk. by apply nth_map_seq. }
  rewrite Ecol. unfold mulXorGF128 in *.
  pose proof (coeff_nth coeffs (c * symbolsPerChunk + j) Hcoeffs) as [Hl Hu].
  pose proof (column_length rows Hrows c j) as HL. pose proof (column_bytes rows Hbytes c j) as HB.
  destruct (IH (GF16MulSliceXor8 (nth (c * symbolsPerChunk + j) coeffs Zero) (column rows c j) comps)) as [I1 I2].
  { apply GF16MulSliceXor8_comps; try done. apply stride_chunks. }
  split; [done|]. intros comp r Hcomp Hr. rewrite I2 by done.
  rewrite (GF16MulSliceXor8_symbol _ _ _ stride) by (done || apply stride_chunks || (unfold stride; lia)).
  rewrite column_symbol by done. rewrite xsum_cons, Z.lxor_assoc. done.
Qed.

Lemma accumulate_spec lo hi :
  comps_ok stride (accumulateRLC rows coeffs lo hi) ∧
  ∀ comp r, (comp < GF128Width)%nat → (r < length rows)%nat →
    GF16FromLeopard (nth comp (accumulateRLC rows coeffs lo hi) []) r =
    xsum (chunk_sum rows coeffs comp r) (seq lo (hi - lo)).
Proof.
  unfold accumulateRLC. fold stride.
  enough (∀ cs comps, comps_ok stride comps →
    let out := foldl (λ comps c, foldl (λ comps j, mulXorGF128 (nth (c * symbolsPerChunk + j) coeffs Zero)
                 (nth j (transposeChunk rows c) []) comps) comps (seq 0 symbolsPerChunk)) comps cs in
    comps_ok stride out ∧ ∀ comp r, (comp < GF128Width)%nat → (r < length rows)%nat →
      GF16FromLeopard (nth comp out []) r =
      Z.lxor (GF16FromLeopard (nth comp comps []) r) (xsum (chunk_sum rows coeffs comp r) cs)) as Hgen.
  { destruct (Hgen (seq lo (hi - lo)) _ (comps_zero stride)) as [H1 H2]. split; [done|].
    intros comp r Hc Hr. rewrite H2 by done. by rewrite symbol_zero, Z.lxor_0_l. }
  induction cs as [|c cs IH]; intros comps Hc; cbn [foldl].
  { split; [done|]. intros. by rewrite Z.lxor_0_r. }
  destruct (accumulate_chunk c (seq 0 symbolsPerChunk)) with (comps := comps) as [A1 A2]; [|done|].
  { apply Forall_forall. intros j Hj. apply elem_of_seq in Hj. lia. }
  destruct (IH _ A1) as [I1 I2]. split; [done|]. intros comp r Hcomp Hr. rewrite I2, A2 by done.
  rewrite xsum_cons, <- Z.lxor_assoc. unfold chunk_sum. reflexivity.
Qed.

(** *** Partial sums of workers *)

Lemma xor_comps_spec a b : comps_ok stride a → comps_ok stride b →
  comps_ok stride (xor_comps a b) ∧
  ∀ comp r, (comp < GF128Width)%nat → (r < length rows)%nat →
    GF16FromLeopard (nth comp (xor_comps a b) []) r =
    Z.lxor (GF16FromLeopard (nth comp a []) r) (GF16FromLeopard (nth comp b []) r).
Proof.
  intros Ha Hb. assert (∀ comp, (comp < GF128Width)%nat →
    nth comp (xor_comps a b) [] = zip_with Z.lxor (nth comp a []) (nth comp b [])) as Hn.
  { intros comp Hc. destruct Ha as [La _], Hb as [Lb _].
    destruct (lookup_lt_is_Some_2 a comp) as [x Hx]; [lia|]. destruct (lookup_lt_is_Some_2 b comp) as [y Hy]; [lia|].
    rewrite (nth_lookup_Some _ _ [] _ Hx), (nth_lookup_Some _ _ [] _ Hy). apply nth_lookup_Some.
    unfold xor_comps. by rewrite lookup_zip_with, Hx, Hy. }
  assert (∀ comp, (comp < GF128Width)%nat → row_ok stride (nth comp (xor_comps a b) [])) as Hok.
  { intros comp Hc. rewrite Hn by done. destruct (comps_nth _ _ _ Ha Hc) as [L1 B1], (comps_nth _ _ _ Hb Hc) as [L2 B2].
    split; [rewrite length_zip_with; lia|].
    apply Forall_lookup. intros i x Hx. rewrite lookup_zip_with in Hx. apply bind_Some in Hx as (u & Hu & Hx).
    apply bind_Some in Hx as (v & Hv & [= <-]). 
    apply byte_lxor; [exact (Forall_lookup_1 _ _ _ _ B1 Hu)|exact (Forall_lookup_1 _ _ _ _ B2 Hv)]. }
  split.
  - split; [unfold xor_comps; rewrite length_zip_with; destruct Ha, Hb; lia|].
    apply Forall_lookup. intros i x Hx. assert (i < GF128Width)%nat as Hi.
    { apply lookup_lt_Some in Hx. unfold xor_comps in Hx. rewrite length_zip_with in Hx. destruct Ha, Hb. lia. }
    specialize (Hok i Hi). by rewrite (nth_lookup_Some _ _ [] _ Hx) in Hok.
  - intros comp r Hc Hr. rewrite Hn by done. destruct (comps_nth _ _ _ Ha Hc) as [L1 B1], (comps_nth _ _ _ Hb Hc) as [L2 B2].
    assert (∀ i, nth i (zip_with Z.lxor (nth comp a []) (nth comp b [])) 0 =
                 Z.lxor (nth i (nth comp a []) 0) (nth i (nth comp b []) 0)) as Hz.
    { intros i. destruct (decide (i < stride)%nat) as [Hi|Hi].
      - destruct (lookup_lt_is_Some_2 (nth comp a []) i) as [x Hx]; [lia|].
        destruct (lookup_lt_is_Some_2 (nth comp b []) i) as [y Hy]; [lia|].
        rewrite (nth_lookup_Some _ _ 0 _ Hx), (nth_lookup_Some _ _ 0 _ Hy). apply nth_lookup_Some.
        by rewrite lookup_zip_with, Hx, Hy.
      - rewrite (nth_overflow (zip_with _ _ _)) by (rewrite length_zip_with; lia).
        rewrite (nth_overflow (nth comp a [])), (nth_overflow (nth comp b [])) by lia. done. }
    unfold GF16FromLeopard. rewrite !Hz. apply sym_of_lxor; by apply byte_nth.
Qed.

Lemma xor_partials_spec (ranges : list (nat * nat)) : ∀ total f,
  comps_ok stride total →
  (∀ comp r, (comp < GF128Width)%nat → (r < length rows)%nat → GF16FromLeopard (nth comp total []) r = f comp r) →
  let out := foldl xor_comps total (map (λ '(lo, hi), accumulateRLC rows coeffs lo hi) ranges) in
  comps_ok stride out ∧
  ∀ comp r, (comp < GF128Width)%nat → (r < length rows)%nat →
    GF16FromLeopard (nth comp out []) r =
    Z.lxor (f comp r) (xsum (chunk_sum rows coeffs comp r) (concat (map (λ '(lo, hi), seq lo (hi - lo)) ranges))).
Proof.
  induction ranges as [|[lo hi] ranges IH]; intros total f Ht Hf; cbn [map foldl concat].
  { split; [done|]. intros. rewrite Hf by done. by rewrite Z.lxor_0_r. }
  destruct (accumulate_spec lo hi) as [A1 A2]. destruct (xor_comps_spec _ _ Ht A1) as [X1 X2].
  destruct (IH _ (λ comp r, Z.lxor (f comp r) (xsum (chunk_sum rows coeffs comp r) (seq lo (hi - lo)))) X1) as [I1 I2].
  { intros comp r Hc Hr. by rewrite X2, Hf, A2. }
  split; [done|]. intros comp r Hc Hr. rewrite I2 by done. by rewrite xsum_app, Z.lxor_assoc.
Qed.
End Accumulate.

(** The spans of the workers partition the chunks. *)
Lemma spans_partition numChunks workers : (0 < workers)%nat → ∀ w, (w <= workers)%nat →
  concat (map (λ '(lo, hi), seq lo (hi - lo)) (map (chunkSpan numChunks workers) (seq 0 w))) =
  seq 0 (w * (numChunks / workers) + Nat.min w (numChunks mod workers)).
Proof.
  intros Hw w. induction w as [|w IH]; intros Hle; [done|].
  rewrite seq_S, !map_app, concat_app, IH by lia. cbn [map concat Nat.add]. rewrite app_nil_r. unfold chunkSpan.
  set (span := (numChunks / workers)%nat). set (extra := (numChunks mod workers)%nat).
  destruct (Nat.ltb_spec w extra).
  - replace (S w * span + Nat.min (S w) extra)%nat with (w * span + Nat.min w extra + (span + 1))%nat by lia.
    rewrite (seq_app (w * span + Nat.min w extra)). f_equal. cbn [Nat.add]. f_equal. lia.
  - replace (S w * span + Nat.min (S w) extra)%nat with (w * span + Nat.min w extra + span)%nat by lia.
    rewrite (seq_app (w * span + Nat.min w extra)). f_equal. cbn [Nat.add]. f_equal. lia.
Qed.

Lemma spans_cover numChunks workers : (0 < workers)%nat →
  concat (map (λ '(lo, hi), seq lo (hi - lo)) (map (chunkSpan numChunks workers) (seq 0 workers))) = seq 0 numChunks.
Proof.
  intros Hw. rewrite spans_partition by lia. f_equal.
  pose proof (Nat.div_mod_eq numChunks workers). pose proof (Nat.mod_upper_bound numChunks workers). lia.
Qed.

(** *** A row at a time *)

Lemma xsum_concat {A} (f : A → Z) (ls : list (list A)) : xsum f (concat ls) = xsum (xsum f) ls.
Proof. induction ls as [|l ls IH]; [done|]. cbn [concat]. by rewrite xsum_app, xsum_cons, IH. Qed.

Lemma xsum_map {A B} (f : B → Z) (g : A → B) l : xsum f (map g l) = xsum (λ a, f (g a)) l.
Proof. induction l as [|a l IH]; [done|]. cbn [map]. by rewrite !xsum_cons, IH. Qed.

Lemma xsum_blocks (f : nat → Z) lo n m :
  xsum (λ c, xsum (λ j, f (c * m + j)%nat) (seq 0 m)) (seq lo n) = xsum f (seq (lo * m) (n * m)).
Proof.
  rewrite <- seq_blocks, xsum_concat, xsum_map. apply xsum_ext. intros c _. by rewrite xsum_map.
Qed.

Lemma nth_zip_with_lxor a b i : length a = length b → nth i (zip_with Z.lxor a b) 0 = Z.lxor (nth i a 0) (nth i b 0).
Proof.
  revert b i. induction a as [|x a IH]; intros [|y b] [|i] Hl; try discriminate; cbn [zip_with nth]; try done.
  apply IH. by injection Hl.
Qed.

Lemma foldl_Add128 {A} (g : A → list Z) l : (∀ i, i ∈ l → length (g i) = GF128Width) → ∀ z, length z = GF128Width →
  length (foldl (λ acc i, Add128 acc (g i)) z l) = GF128Width ∧
  ∀ comp, nth comp (foldl (λ acc i, Add128 acc (g i)) z l) 0 = Z.lxor (nth comp z 0) (xsum (λ i, nth comp (g i) 0) l).
Proof.
  induction l as [|i l IH]; intros Hg z Hz; cbn [foldl]; [split; [done|]; intros comp; by rewrite Z.lxor_0_r|].
  pose proof (Hg i ltac:(by left)) as Hi.
  destruct (IH ltac:(intros j Hj; apply Hg; by right) (Add128 z (g i))) as [I1 I2].
  { unfold Add128. rewrite length_zip_with. lia. }
  split; [done|]. intros comp. rewrite I2, xsum_cons. unfold Add128 at 1.
  rewrite nth_zip_with_lxor by lia. by rewrite Z.lxor_assoc.
Qed.

Lemma nth_Zero comp : nth comp Zero 0 = 0.
Proof. unfold Zero. apply nth_repeat. Qed.

Lemma ComputeRow_spec row coeffs : Forall byte_ok row → Forall coeff_ok coeffs →
  length (ComputeRow row coeffs) = GF128Width ∧
  ∀ comp, (comp < GF128Width)%nat → nth comp (ComputeRow row coeffs) 0 =
    xsum (λ s, GF16Mul (GF16FromLeopard row s) (nth comp (nth s coeffs Zero) 0))
      (seq 0 (length row / chunkSize * symbolsPerChunk)).
Proof.
  intros Hb Hc. unfold ComputeRow.
  rewrite (foldl_blocks (λ acc s, Add128 acc (Mul128 (GF16FromLeopard row s) (nth s coeffs Zero)))).
  change (0 * symbolsPerChunk)%nat with 0%nat.
  set (ss := seq 0 _).
  destruct (foldl_Add128 (λ s, Mul128 (GF16FromLeopard row s) (nth s coeffs Zero)) ss) with (z := Zero) as [H1 H2].
  { intros s _. unfold Mul128. rewrite length_map. apply (coeff_nth coeffs s Hc). }
  { done. }
  split; [done|]. intros comp Hcomp. rewrite H2, nth_Zero, Z.lxor_0_l. apply xsum_ext. intros s _.
  unfold Mul128. rewrite (nth_map_lt _ 0); [done|]. destruct (coeff_nth coeffs s Hc) as [-> _]. done.
Qed.

(** *** Padding *)

Lemma pad_spec rows len : rows ≠ [] → Forall (row_ok len) rows →
  (length (padToSymbolsPerChunk rows) mod symbolsPerChunk)%nat = 0%nat ∧
  Forall (row_ok len) (padToSymbolsPerChunk rows) ∧
  ∃ zeros, padToSymbolsPerChunk rows = rows ++ zeros.
Proof.
  intros Hne HF. unfold padToSymbolsPerChunk. destruct (Nat.eqb_spec (length rows mod symbolsPerChunk) 0) as [E|E].
  - split; [done|]. split; [done|]. exists []. by rewrite app_nil_r.
  - split; [|split; [|by eexists]].
    + rewrite length_app, repeat_length. pose proof (Nat.div_mod_eq (length rows) symbolsPerChunk) as Ed.
      pose proof (Nat.mod_upper_bound (length rows) symbolsPerChunk ltac:(done)).
      replace (length rows + (symbolsPerChunk - length rows mod symbolsPerChunk))%nat
        with ((length rows / symbolsPerChunk + 1) * symbolsPerChunk)%nat by lia. apply Nat.Div0.mod_mul.
    + apply Forall_app. split; [done|]. apply Forall_forall. intros x Hx.
      apply list_elem_of_In, repeat_spec in Hx as ->. destruct rows as [|row rows]; [done|].
      apply Forall_cons in HF as [[Hl _] _]. cbn [nth]. split; [by rewrite repeat_length|].
      apply Forall_forall. intros y Hy. apply list_elem_of_In, repeat_spec in Hy as ->. unfold byte_ok. lia.
Qed.

Lemma list_eq_nth {A} (d : A) (l l' : list A) n : length l = n → length l' = n →
  (∀ i, (i < n)%nat → nth i l d = nth i l' d) → l = l'.
Proof. intros H1 H2 H. apply (nth_ext _ _ d d); [lia|]. intros i Hi. apply H. lia. Qed.

(** The batched combination of rows of whole chunks is the combination of each
    row, for every number of workers. *)
Lemma Compute_rows rows coeffs workers numChunks : rows ≠ [] → (0 < numChunks)%nat →
  Forall (row_ok (numChunks * chunkSize)) rows → Forall coeff_ok coeffs →
  Compute rows coeffs workers = Ok (map (λ row, ComputeRow row coeffs) rows).
Proof.
  intros Hne Hn HF Hc. unfold Compute. destruct (Nat.eqb_spec (length rows) 0) as [E|_]; [by apply nil_length_inv in E|].
  destruct (pad_spec rows _ Hne HF) as (Hmod & HFp & zeros & Hpad).
  set (padded := padToSymbolsPerChunk rows) in *.
  assert (length (nth 0 padded []) = numChunks * chunkSize)%nat as Hl0.
  { rewrite Hpad. destruct rows as [|row rows']; [done|]. cbn. by apply Forall_cons in HF as [[? _] _]. }
  assert (length (nth 0 padded []) / chunkSize = numChunks)%nat as -> by (rewrite Hl0; by apply Nat.div_mul).
  assert (Forall (Forall byte_ok) padded) as Hbytes by (eapply Forall_impl; [exact HFp|]; by intros row [_ ?]).
  set (w := Nat.min (Z.to_nat (Z.max workers 1)) numChunks). assert (0 < w)%nat as Hw by lia.
  assert (∃ comps, (if (w =? 1)%nat then Ok (accumulateRLC padded coeffs 0 numChunks)
                    else computeParallel padded coeffs numChunks w) = Ok comps ∧
    ∀ comp r, (comp < GF128Width)%nat → (r < length padded)%nat →
      GF16FromLeopard (nth comp comps []) r = xsum (chunk_sum padded coeffs comp r) (seq 0 numChunks)) as (comps & -> & Hcomps).
  { destruct (w =? 1)%nat.
    - eexists. split; [done|]. intros comp r Hcomp Hr.
      rewrite (proj2 (accumulate_spec padded coeffs Hmod Hbytes Hc 0 numChunks)) by done. by rewrite Nat.sub_0_r.
    - unfold computeParallel. pose proof (spans_cover numChunks w Hw) as Hcov.
      destruct w as [|w']; [lia|]. cbn [seq map concat] in Hcov |- *.
      destruct (chunkSpan numChunks (S w') 0) as [lo hi] eqn:E0.
      destruct (accumulate_spec padded coeffs Hmod Hbytes Hc lo hi) as [A1 A2].
      destruct (xor_partials_spec padded coeffs Hmod Hbytes Hc (map (chunkSpan numChunks (S w')) (seq 1 w'))
        _ (λ comp r, xsum (chunk_sum padded coeffs comp r) (seq lo (hi - lo))) A1 A2) as [_ X2].
      eexists. split; [done|]. intros comp r Hcomp Hr. rewrite <- Hcov, xsum_app.
      rewrite map_map in X2. by apply X2. }
  cbn [mbind result_bind]. f_equal. assert (length padded = length rows + length zeros)%nat as Hlen by (rewrite Hpad; apply length_app).
  apply (list_eq_nth [] _ _ (length rows)); [|by rewrite length_map|].
  { rewrite length_take. unfold gf128sFromColumns. rewrite length_map, length_seq. lia. }
  intros r Hr. rewrite (nth_map_lt _ []) by done.
  assert (nth r (take (length rows) (gf128sFromColumns comps (length padded))) [] =
          map (λ comp, GF16FromLeopard (nth comp comps []) r) (seq 0 GF128Width)) as ->.
  { rewrite nth_lookup, lookup_take_lt, <- nth_lookup by done. unfold gf128sFromColumns.
    apply (nth_map_seq [] (λ r, map (λ comp, GF16FromLeopard (nth comp comps []) r) (seq 0 GF128Width))). lia. }
  assert (Forall byte_ok (nth r rows []) ∧ length (nth r rows []) = (numChunks * chunkSize)%nat) as [Hbr Hlr].
  { destruct (lookup_lt_is_Some_2 rows r Hr) as [row Hrow]. rewrite (nth_lookup_Some _ _ [] _ Hrow).
    by destruct (Forall_lookup_1 _ _ _ _ HF Hrow). }
  destruct (ComputeRow_spec (nth r rows []) coeffs Hbr Hc) as [C1 C2].
  apply (list_eq_nth 0 _ _ GF128Width); [by rewrite length_map, length_seq|done|].
  intros comp Hcomp. rewrite nth_map_seq by done. rewrite Hcomps, C2 by lia.
  rewrite Hlr, Nat.div_mul by done. change 0%nat with (0 * symbolsPerChunk)%nat at 2. rewrite <- xsum_blocks.
  apply xsum_ext. intros c _. apply xsum_ext. intros j _. unfold term.
  assert (nth r padded [] = nth r rows []) as ->. { rewrite Hpad. by apply app_nth1. }
  apply GF16Mul_comm; [by apply coeff_component, coeff_nth|by apply symbol_range].
Qed.
End Batched.

(** ** Coefficients and encodings of field elements

    The derivation of coefficients gives the same vector for every number of
    workers and every schedule, and the encodings of elements of GF(2^128) are
    inverse to their decodings. *)

(** ** Little-endian integers *)

Lemma put_get_u16 x : u16 x → get_u16 (put_u16 x) 0 = x.
Proof.
  intros Hx. unfold u16 in Hx. unfold get_u16, put_u16. cbn [nth Nat.add].
  rewrite (Z.mod_small (x / 256)) by (split; [apply Z.div_pos|apply Z.div_lt_upper_bound]; lia).
  pose proof (Z.div_mod x 256). lia.
Qed.

Lemma get_u16_app pre b off : get_u16 (pre ++ b) (length pre + off) = get_u16 b off.
Proof.
  unfold get_u16. rewrite !app_nth2 by lia. do 2 f_equal; [|do 2 f_equal]; lia.
Qed.

Lemma get_u16_range b off : Forall byte_ok b → u16 (get_u16 b off).
Proof.
  intros Hb. pose proof (byte_nth b off Hb). pose proof (byte_nth b (off + 1) Hb).
  unfold get_u16, u16, byte_ok in *. lia.
Qed.

(** ** Elements of GF(2^128) *)

Lemma length_EncodeGF128 g : length (EncodeGF128 g) = (2 * length g)%nat.
Proof.
  unfold EncodeGF128. rewrite (length_concat_blocks 2), length_map; [lia|]. by apply Forall_map, Forall_true.
Qed.

Lemma EncodeGF128_get g post i : Forall u16 g → (i < length g)%nat →
  get_u16 (EncodeGF128 g ++ post) (i * 2) = nth i g 0.
Proof.
  intros HF. revert i. induction HF as [|x g Hx HF IH]; intros i Hi; [cbn in Hi; lia|].
  change (EncodeGF128 (x :: g)) with (put_u16 x ++ EncodeGF128 g). rewrite <- app_assoc.
  destruct i as [|i].
  - cbn [nth]. rewrite <- (put_get_u16 x Hx) at 2. done.
  - cbn [length] in Hi. replace (S i * 2)%nat with (length (put_u16 x) + i * 2)%nat by (cbn; lia).
    rewrite get_u16_app, IH by lia. done.
Qed.

Lemma DecodeGF128_Encode g post : coeff_ok g → DecodeGF128 (EncodeGF128 g ++ post) = Ok g.
Proof.
  intros [Hl HF]. unfold DecodeGF128. destruct (Nat.ltb_spec (length (EncodeGF128 g ++ post)) GF128Size) as [E|_].
  { rewrite length_app, length_EncodeGF128, Hl in E. unfold GF128Width, GF128Size in E. lia. }
  f_equal. apply (list_eq_nth 0 _ _ GF128Width); [by rewrite length_map, length_seq|done|].
  intros i Hi. rewrite (nth_map_seq 0 (λ i, get_u16 (EncodeGF128 g ++ post) (i * 2))) by done.
  apply EncodeGF128_get; [done|lia].
Qed.

Lemma EncodeGF128_inj g g' : coeff_ok g → coeff_ok g' → EncodeGF128 g = EncodeGF128 g' → g = g'.
Proof.
  intros Hg Hg' E. apply Ok_inj. by rewrite <- (DecodeGF128_Encode g []), <- (DecodeGF128_Encode g' []), E.
Qed.

Lemma u16_high_bits x n : u16 x → 16 <= n → Z.testbit x n = false.
Proof. intros Hx Hn. rewrite <- (Z.mod_small x (2 ^ 16)) by done. apply Z.mod_pow2_bits_high. lia. Qed.

Lemma u16_lxor x y : u16 x → u16 y → u16 (Z.lxor x y).
Proof.
  intros Hx Hy. assert (0 <= Z.lxor x y) by (apply Z.lxor_nonneg; unfold u16 in *; lia). split; [done|].
  assert (Z.lxor x y mod 2 ^ 16 = Z.lxor x y) as <-; [|apply Z.mod_pos_bound; lia].
  apply Z.bits_inj'. intros n Hn. destruct (Z.lt_ge_cases n 16); [by rewrite Z.mod_pow2_bits_low|].
  by rewrite Z.mod_pow2_bits_high, Z.lxor_spec, !u16_high_bits by (done || lia).
Qed.

Lemma Add128_ok a b : coeff_ok a → coeff_ok b → coeff_ok (Add128 a b).
Proof.
  intros [Ha Fa] [Hb Fb]. split; [unfold Add128; rewrite length_zip_with; lia|].
  clear Ha Hb. revert b Fb. induction Fa as [|x a Hx Fa IH]; intros b Fb; [constructor|].
  destruct Fb as [|y b Hy Fb]; [constructor|]. constructor; [by apply u16_lxor|by apply IH].
Qed.

Lemma HashToGF128_ok data : Forall byte_ok data → coeff_ok (HashToGF128 data).
Proof.
  intros Hd. apply Add128_ok; (split; [by rewrite length_map, length_seq|]);
    apply Forall_map, Forall_forall; intros i _; by apply get_u16_range.
Qed.

(** ** The Leopard layout *)

Lemma GF128_Leopard g : coeff_ok g → GF128FromLeopard (GF128ToLeopard g) = g.
Proof.
  intros [Hl HF]. apply (list_eq_nth 0 _ _ GF128Width); [by unfold GF128FromLeopard; rewrite length_map, length_seq|done|].
  intros i Hi. unfold GF128FromLeopard.
  rewrite (nth_map_seq 0 (λ i, Z.lor (Z.shiftl (nth (LeopardSymbolsPerChunk + i) (GF128ToLeopard g) 0) 8) (nth i (GF128ToLeopard g) 0))) by done.
  unfold GF128ToLeopard. set (low := map (λ x, Z.land x 255) g). set (high := map (λ x, Z.shiftr x 8) g).
  assert (length low = GF128Width ∧ length high = GF128Width) as [Hlow Hhigh] by (subst low high; by rewrite !length_map).
  rewrite app_nth2 by (rewrite Hlow; unfold LeopardSymbolsPerChunk, GF128Width in *; lia).
  rewrite app_nth2 by (rewrite Hlow, repeat_length; unfold LeopardSymbolsPerChunk, GF128Width in *; lia).
  rewrite Hlow, repeat_length. replace (LeopardSymbolsPerChunk + i - GF128Width - (LeopardSymbolsPerChunk - GF128Width))%nat with i
    by (unfold LeopardSymbolsPerChunk, GF128Width in *; lia).
  rewrite !app_nth1 by lia. subst low high. rewrite !(nth_map_lt _ 0) by lia. apply sym_of_split.
Qed.

(** ** Vectors *)

Lemma Rlc_roundtrip values : Forall coeff_ok values → Rlc_Unmarshal (Rlc_Marshal values) = Ok values.
Proof.
  intros HF. unfold Rlc_Unmarshal, Rlc_Marshal.
  assert (Forall (λ b, length b = GF128Size) (map EncodeGF128 values)) as Hlen.
  { apply Forall_map. eapply Forall_impl; [exact HF|]. intros g [Hg _]. cbn. rewrite length_EncodeGF128, Hg. done. }
  rewrite (length_concat_blocks GF128Size), length_map by done. rewrite Nat.Div0.mod_mul, Nat.div_mul by done.
  cbn [ensure Nat.eqb mbind result_bind]. clear Hlen.
  assert (∀ pre acc, length pre = (length acc * GF128Size)%nat →
    fold_res (λ acc i, g ← DecodeGF128 (slice (pre ++ concat (map EncodeGF128 values)) (i * GF128Size) ((i + 1) * GF128Size)); Ok (acc ++ [g]))
      (seq (length acc) (length values)) acc = Ok (acc ++ values)) as H; [|by apply (H [] [])].
  induction HF as [|g values Hg HF IH]; intros pre acc Hpre; [cbn [length seq fold_res]; by rewrite app_nil_r|].
  cbn [length seq fold_res map concat].
  assert (slice (pre ++ EncodeGF128 g ++ concat (map EncodeGF128 values)) (length acc * GF128Size) ((length acc + 1) * GF128Size)
          = EncodeGF128 g ++ []) as ->.
  { unfold slice. rewrite <- Hpre, drop_app_length. rewrite take_app_le; [rewrite take_ge, app_nil_r; [done|]|];
      rewrite length_EncodeGF128; destruct Hg as [-> _]; unfold GF128Width, GF128Size in *; lia. }
  rewrite DecodeGF128_Encode by done. cbn [mbind result_bind].
  specialize (IH (pre ++ EncodeGF128 g) (acc ++ [g])). rewrite <- !app_assoc in IH. cbn [app] in IH.
  rewrite !length_app in IH. cbn [length] in IH. rewrite Nat.add_1_r in IH. apply IH. rewrite length_EncodeGF128. destruct Hg as [-> _].
  unfold GF128Width, GF128Size in *. lia.
Qed.

(** ** Coefficients *)

Section Derive.
Context `{CR : Crypto} `{SL : !Sha256Laws}.

Lemma coefficient_ok seed i : coeff_ok (coefficient seed i).
Proof. apply HashToGF128_ok, sha256_bytes. Qed.

(** The vector derived from a seed, element by element. *)
Definition derived (seed : bytes) (n : nat) : list (list Z) := map (coefficient seed) (seq 0 n).

Lemma derived_ok seed n : Forall coeff_ok (derived seed n).
Proof. apply Forall_map, Forall_forall. intros i _. apply coefficient_ok. Qed.

Lemma deriveRange_spec seed start stop coeffs j : (stop <= length coeffs)%nat →
  length (deriveRange seed coeffs start stop) = length coeffs ∧
  deriveRange seed coeffs start stop !! j =
    if decide (start <= j < stop)%nat then Some (coefficient seed j) else coeffs !! j.
Proof.
  intros Hs. unfold deriveRange. remember (stop - start)%nat as k eqn:Ek.
  revert start coeffs Hs Ek. induction k as [|k IH]; intros start coeffs Hs Ek; cbn [seq foldl].
  - split; [done|]. by rewrite decide_False by lia.
  - destruct (IH (S start) (<[start := coefficient seed start]> coeffs)) as [L N]; [by rewrite length_insert|lia|].
    rewrite length_insert in L. split; [done|]. rewrite N. repeat case_decide; try lia; try done.
    + assert (j = start) as -> by lia. rewrite list_lookup_insert_eq by lia. done.
    + by rewrite list_lookup_insert_ne by lia.
    + by rewrite list_lookup_insert_ne by lia.
Qed.

Lemma derive_ranges_cover n workers j : (0 < workers)%nat → (j < n)%nat → ∃ w start stop,
  (w < workers)%nat ∧ nth w (derive_ranges n workers) (0, 0)%nat = (start, stop) ∧ (start <= j < stop)%nat.
Proof.
  intros Hw Hj. unfold derive_ranges. set (chunk := ((n + workers - 1) / workers)%nat).
  pose proof (ceil_div_pos n workers Hw ltac:(lia)) as Hc. fold chunk in Hc.
  pose proof (Nat.div_mod_eq (n + workers - 1) workers) as E. fold chunk in E.
  pose proof (Nat.mod_upper_bound (n + workers - 1) workers ltac:(lia)).
  pose proof (Nat.div_mod_eq j chunk) as Ej. pose proof (Nat.mod_upper_bound j chunk ltac:(lia)).
  assert (j / chunk < workers)%nat as Hlt by nia.
  eexists (j / chunk)%nat, _, _. split; [done|].
  rewrite (nth_map_seq (0, 0)%nat (λ w, (w * chunk, Nat.min (w * chunk + chunk) n)%nat)) by done. split; [done|]. nia.
Qed.

Lemma derive_ranges_bound n workers w start stop : nth w (derive_ranges n workers) (0, 0)%nat = (start, stop) → (stop <= n)%nat.
Proof.
  intros E. destruct (nth_in_or_default w (derive_ranges n workers) (0, 0)%nat) as [Hin|Hd]; [|rewrite Hd in E; simplify_eq; lia].
  rewrite E in Hin. unfold derive_ranges in Hin. apply in_map_iff in Hin as (w' & Heq & _). simplify_eq. lia.
Qed.

Lemma deriveParallel_spec seed n workers l : ∀ coeffs, length coeffs = n →
  let out := foldl (λ coeffs w, let '(start, stop) := nth w (derive_ranges n workers) (0, 0)%nat in
                                deriveRange seed coeffs start stop) coeffs l in
  length out = n ∧ ∀ j, (out !! j = Some (coefficient seed j)) ∨
    (out !! j = coeffs !! j ∧ ∀ w start stop, w ∈ l → nth w (derive_ranges n workers) (0, 0)%nat = (start, stop) → ¬ (start <= j < stop)%nat).
Proof.
  induction l as [|w l IH]; intros coeffs Hl; cbv zeta; cbn [foldl].
  - split; [done|]. intros j. right. split; [done|]. intros ??? H. by apply not_elem_of_nil in H.
  - destruct (nth w (derive_ranges n workers) (0, 0)%nat) as [start stop] eqn:E.
    pose proof (derive_ranges_bound _ _ _ _ _ E) as Hb.
    assert (∀ j, _) as HR by (intros j; refine (deriveRange_spec seed start stop coeffs j _); lia).
    destruct (IH (deriveRange seed coeffs start stop)) as [L N]; [by rewrite (proj1 (HR 0%nat))|].
    split; [done|]. intros j. destruct (N j) as [N1|[N1 N2]]; [by left|]. destruct (HR j) as [_ HRj].
    rewrite HRj in N1. case_decide as Hd; [by left|]. right. split; [done|].
    intros w' start' stop' [->|Hw']%elem_of_cons Hn; [rewrite E in Hn; by simplify_eq|by eapply N2].
Qed.

(** The coefficients do not depend on the number of workers nor on the order in
    which they ran. *)
Lemma DeriveCoefficients_derived order rowRoot k n rowSize workers : order_ok order →
  DeriveCoefficients order rowRoot k n rowSize workers =
  derived (derive_seed rowRoot k n (Z.of_nat rowSize)) (rowSize / 2).
Proof.
  intros Ho. unfold DeriveCoefficients. set (seed := derive_seed _ _ _ _). set (m := (rowSize / 2)%nat).
  set (w := Nat.min _ m). apply list_eq. intros j. unfold derived. rewrite list_lookup_fmap.
  assert (length (repeat Zero m) = m) as Hrep by apply repeat_length.
  destruct ((w =? 1)%nat || (m <? minParallelSymbols)%nat) eqn:Eb.
  - destruct (deriveRange_spec seed 0 m (repeat Zero m) j) as [_ ->]; [lia|]. case_decide.
    + by rewrite lookup_seq_lt by lia.
    + rewrite !lookup_ge_None_2; [done|rewrite length_seq; lia|lia].
  - apply orb_false_iff in Eb as [_ E]. apply Nat.ltb_ge in E.
    assert (0 < w)%nat as Hw by (unfold minParallelSymbols in E; lia).
    destruct (deriveParallel_spec seed m w (order w) (repeat Zero m) Hrep) as [L N]. fold (deriveParallel order seed (repeat Zero m) m w) in L, N.
    destruct (Nat.lt_ge_cases j m) as [Hj|Hj].
    + rewrite lookup_seq_lt by done. destruct (N j) as [->|[_ H]]; [done|].
      destruct (derive_ranges_cover m w j Hw Hj) as (x & start & stop & Hx & E' & Hin). exfalso.
      eapply (H x); [by apply order_elem|done|done].
    + rewrite !lookup_ge_None_2; [done|rewrite length_seq; lia|lia].
Qed.
End Derive.
