(* ===== verification/Rsema1d.v ===== *)
(** * The erasure code

    [pkg/rsema1d]: the coder extends K rows to K+N rows and commits to them by
    two Merkle trees, one over the rows and one over a random linear combination
    per original row; the verifier checks rows against a commitment and the
    combinations; the reconstructor collects verified rows until there are K.
    Reed-Solomon coding is that of [klauspost/reedsolomon]. *)

From S2P Require Import Prelude Sdk Merkle Rlc.
#[local] Open Scope Z_scope.

(** [reedsolomon.Encoder] for K data and N parity shards: [Encode] fills the
    parity shards, [ReconstructData] the missing data shards. *)
Class ReedSolomon := {
  RS_Encode : Z → Z → list bytes → result (list bytes);
  RS_ReconstructData : Z → Z → list (option bytes) → result (list (option bytes));
}.

(** ** [config.go] *)

Record Config := mkConfig { cfg_K : Z; cfg_N : Z; cfg_WorkerCount : Z }.

Definition Config_Validate (c : Config) : result unit :=
  _ ← ensure (0 <? cfg_K c) "k must be positive";
  _ ← ensure (0 <? cfg_N c) "n must be positive";
  _ ← ensure (Z.land (cfg_K c) (cfg_K c - 1) =? 0) "k must be a power of 2";
  let total := cfg_K c + cfg_N c in
  _ ← ensure (Z.land total (total - 1) =? 0) "k+n must be a power of 2";
  _ ← ensure (negb (total >? 65536)) "k + n must be <= 65536";
  ensure (negb (cfg_WorkerCount c <? 1)) "WorkerCount must be at least 1".

Definition Config_TreeBufferSize (c : Config) : Z :=
  TreeBufferSize (cfg_K c + cfg_N c) + TreeBufferSize (cfg_K c).

Section Codec.
Context `{CR : Crypto} `{GF : GF16} `{RS : ReedSolomon}.

(** The order in which parallel loops ran their items. *)
Context (order : nat → list nat).

(** ** [coder.go] and [types.go] *)

Record ExtendedData := mkExtendedData {
  ed_config : Config;
  ed_rows : list bytes;
  ed_rowsTree : list bytes;
  ed_rlc : list (list Z);
  ed_rlcTree : list bytes;
  ed_commitment : bytes;
}.

Definition commitment_of (rowRoot rlcRoot : bytes) : bytes := sha256 (rowRoot ++ rlcRoot).

(** [buf[:size]] of a node buffer, for a size in bytes. *)
Definition take_nodes (size : Z) (buf : list bytes) : result (list bytes) :=
  let nodes := Z.to_nat (Z.quot size NodeSize) in
  if (length buf <? nodes)%nat then Panic "slice bounds out of range" else Ok (take nodes buf).

Definition buildRowTree (extended : list bytes) (config : Config) (buf : list bytes) : result (list bytes) :=
  let size := TreeBufferSize (cfg_K config + cfg_N config) in
  nodes ← take_nodes size buf;
  NewTreeInto order size nodes extended.

Definition buildRLCTree (rlc : list (list Z)) (config : Config) (buf : list bytes) : result (list bytes) :=
  let size := TreeBufferSize (cfg_K config) in
  nodes ← take_nodes size buf;
  NewTreeFuncInto order size nodes (λ i, EncodeGF128 (nth i rlc Zero)).

Definition commit (config : Config) (extendedRows : list bytes) (treeBuffer : option (list bytes)) : result ExtendedData :=
  let rowSize := TreeBufferSize (cfg_K config + cfg_N config) in
  let buf := match treeBuffer with
             | Some buf => buf
             | None => repeat (repeat 0 32) (Z.to_nat (Z.quot (Config_TreeBufferSize config) NodeSize))
             end in
  rowTree ← buildRowTree extendedRows config buf;
  let rowRoot := Root rowTree in
  first ← index extendedRows 0;
  let coeffs := DeriveCoefficients order rowRoot (cfg_K config) (cfg_N config) (length first) (cfg_WorkerCount config) in
  rlcVec ← Compute (take (Z.to_nat (cfg_K config)) extendedRows) coeffs (cfg_WorkerCount config);
  rlcTree ← buildRLCTree rlcVec config (drop (Z.to_nat (Z.quot rowSize NodeSize)) buf);
  let rlcRoot := Root rlcTree in
  Ok {| ed_config := config; ed_rows := extendedRows; ed_rowsTree := rowTree; ed_rlc := rlcVec;
        ed_rlcTree := rlcTree; ed_commitment := commitment_of rowRoot rlcRoot |}.

Definition validateRows (config : Config) (rows : list bytes) : result unit :=
  ensure (Z.of_nat (length rows) =? cfg_K config + cfg_N config) "unexpected number of rows".

Definition EncodeWithTree (config : Config) (rows : list bytes) (treeBuffer : option (list bytes)) : result ExtendedData :=
  _ ← validateRows config rows;
  match RS_Encode (cfg_K config) (cfg_N config) rows with
  | Ok rows => commit config rows treeBuffer
  | Err _ => Err "failed to encode"
  | Panic p => Panic p
  end.

Definition Encode (config : Config) (rows : list bytes) : result ExtendedData := EncodeWithTree config rows None.

Record RowProof := mkRowProof { rp_Index : Z; rp_Row : bytes; rp_RowProof : list bytes }.
Record StandaloneProof := mkStandaloneProof { sp_RowProof : RowProof; sp_RLCProof : list bytes }.

Definition GenerateRowProof (ed : ExtendedData) (index : Z) : result RowProof :=
  let total := cfg_K (ed_config ed) + cfg_N (ed_config ed) in
  _ ← ensure (negb ((index <? 0) || (total <=? index))) "index out of range";
  rowProof ← Proof (ed_rowsTree ed) index;
  row ← Prelude.index (ed_rows ed) (Z.to_nat index);
  Ok (mkRowProof index row rowProof).

Definition GenerateStandaloneProof (ed : ExtendedData) (index : Z) : result StandaloneProof :=
  _ ← ensure (negb (cfg_K (ed_config ed) <=? index)) "standalone proofs only supported for original rows";
  rowProof ← GenerateRowProof ed index;
  rlcProof ← Proof (ed_rlcTree ed) index;
  Ok (mkStandaloneProof rowProof rlcProof).

(** The rows and proofs handed to [yield], and the outcome. *)
Definition RowProofs (ed : ExtendedData) (indices : list Z) : list RowProof * result unit :=
  let '(proofs, r) := Proofs (ed_rowsTree ed) indices in
  (zip_with (λ i proof, mkRowProof i (nth (Z.to_nat i) (ed_rows ed) []) proof) indices proofs, r).

(** ** [standalone_proof.go] *)

Definition VerifyStandaloneProof (proof : option StandaloneProof) (commitment : bytes) (config : Config) : result unit :=
  match proof with
  | None => Err "nil standalone proof"
  | Some (mkStandaloneProof rp rlcPath) =>
      _ ← (match Config_Validate config with Ok u => Ok u | Err _ => Err "invalid config" | Panic p => Panic p end);
      _ ← ensure (negb ((rp_Index rp <? 0) || (cfg_K config <=? rp_Index rp)))
            "standalone verification only supports original rows";
      let rowTreeDepth := bits_Len (cfg_K config + cfg_N config) - 1 in
      _ ← ensure (Z.of_nat (length (rp_RowProof rp)) =? rowTreeDepth) "row proof depth mismatch";
      let rlcTreeDepth := bits_Len (cfg_K config) - 1 in
      _ ← ensure (Z.of_nat (length rlcPath) =? rlcTreeDepth) "rlc proof depth mismatch";
      rowRoot ← RootFromProof (rp_Row rp) (rp_Index rp) (rp_RowProof rp);
      let coeffs := DeriveCoefficients order rowRoot (cfg_K config) (cfg_N config) (length (rp_Row rp)) (cfg_WorkerCount config) in
      let rlcValue := ComputeRow (rp_Row rp) coeffs in
      rlcOrigRoot ← RootFromProof (EncodeGF128 rlcValue) (rp_Index rp) rlcPath;
      ensure (bool_decide (commitment_of rowRoot rlcOrigRoot = commitment)) "commitment verification failed"
  end.

(** ** [verifier.go] *)

(** The scratch buffers are overwritten before they are read and are left
    out. *)
Record Verifier := mkVerifier {
  v_config : Config;
  v_rlcRoot : bytes;
  v_rlcCoeffs : option (list (list Z));
  v_rlcShards : list bytes;
  v_coeffsRowRoot : bytes;
  v_coeffsRowSize : nat;
}.

Definition zero_chunk : bytes := repeat 0 LeopardChunkSize.

(** [reedsolomon.New] succeeds for a validated configuration. *)
Definition NewVerifier (cfg : Config) : result Verifier :=
  match Config_Validate cfg with
  | Ok _ => Ok (mkVerifier cfg (repeat 0 32) None (repeat zero_chunk (Z.to_nat (cfg_K cfg + cfg_N cfg))) (repeat 0 32) 0)
  | Err _ => Err "invalid config"
  | Panic p => Panic p
  end.

(** The scratch level has K nodes. *)
Definition computeRLCRoot (config : Config) (rlc : list (list Z)) : result bytes :=
  RootFromFunc (cfg_K config * NodeSize) (repeat (repeat 0 32) (Z.to_nat (cfg_K config)))
    (λ i, EncodeGF128 (nth i rlc Zero)).

Definition setRLC (v : Verifier) (rlc : list (list Z)) : result unit * Verifier :=
  let cfg := v_config v in
  if negb (Z.of_nat (length rlc) =? cfg_K cfg) then (Err "unexpected number of RLC values", v)
  else
    let shards := map GF128ToLeopard rlc ++ repeat zero_chunk (Z.to_nat (cfg_N cfg)) in
    let v1 := mkVerifier cfg (v_rlcRoot v) (v_rlcCoeffs v) shards (v_coeffsRowRoot v) (v_coeffsRowSize v) in
    match RS_Encode (cfg_K cfg) (cfg_N cfg) shards with
    | Err _ => (Err "extending RLC", v1)
    | Panic p => (Panic p, v1)
    | Ok extended =>
        let v2 := mkVerifier cfg (v_rlcRoot v) (v_rlcCoeffs v) extended (v_coeffsRowRoot v) (v_coeffsRowSize v) in
        match computeRLCRoot cfg rlc with
        | Ok root => (Ok tt, mkVerifier cfg root None extended (v_coeffsRowRoot v) (v_coeffsRowSize v))
        | Err e => (Err e, v2)
        | Panic p => (Panic p, v2)
        end
    end.

(** The proofs are pointers; the first is dereferenced before the loop checks
    for nil. *)
Definition validateProofs (cfg : Config) (proofs : list (option RowProof)) : result nat :=
  match proofs with
  | [] => Err "no proofs provided"
  | None :: _ => Panic "invalid memory address or nil pointer dereference"
  | Some first :: _ =>
      let expectedProofDepth := bits_Len (cfg_K cfg + cfg_N cfg) - 1 in
      let rowSize := length (rp_Row first) in
      _ ← each (λ p,
            match p with
            | None => Err "received nil proof in verifier"
            | Some p =>
                _ ← ensure (negb ((rp_Index p <? 0) || (cfg_K cfg + cfg_N cfg <=? rp_Index p))) "index out of range";
                _ ← ensure (length (rp_Row p) =? rowSize)%nat "batched verify requires equal-sized rows";
                ensure (Z.of_nat (length (rp_RowProof p)) =? expectedProofDepth) "proof depth mismatch"
            end) proofs;
      _ ← ensure (negb ((rowSize =? 0)%nat || negb (rowSize mod LeopardChunkSize =? 0)%nat))
            "row size must be a positive multiple of 64";
      Ok rowSize
  end.

(** Cached coefficients are used only for the matrix they were derived from. *)
Definition coefficients (v : Verifier) (rowRoot : bytes) (rowSize : nat) : result (list (list Z)) * Verifier :=
  match v_rlcCoeffs v with
  | None =>
      let cfg := v_config v in
      let coeffs := DeriveCoefficients order rowRoot (cfg_K cfg) (cfg_N cfg) rowSize (cfg_WorkerCount cfg) in
      (Ok coeffs, mkVerifier cfg (v_rlcRoot v) (Some coeffs) (v_rlcShards v) rowRoot rowSize)
  | Some coeffs =>
      if negb (rowSize =? v_coeffsRowSize v)%nat || negb (bool_decide (rowRoot = v_coeffsRowRoot v))
      then (Err "batch row size does not match cached row size", v)
      else (Ok coeffs, v)
  end.

(** The final loop over the computed combinations. *)
Definition check_rlcs (shards : list bytes) (proofs : list RowProof) (computed : list (list Z)) : result unit :=
  each_i (λ i p,
      c ← index computed i;
      shard ← index shards (Z.to_nat (rp_Index p));
      ensure (Equal128 c (GF128FromLeopard shard)) "computed RLC does not match expected value") 0 proofs.

Definition verify (procs : Z) (v : Verifier) (commitment : bytes) (proofs : list RowProof) (rowSize : nat)
  : result unit * Verifier :=
  let inputs := map (λ p, mkProofInput (rp_Row p) (rp_Index p) (rp_RowProof p)) proofs in
  match RootFromProofs inputs procs with
  | Err _ => (Err "verifying row proofs", v)
  | Panic p => (Panic p, v)
  | Ok rowRoot =>
      if negb (bool_decide (commitment = commitment_of rowRoot (v_rlcRoot v)))
      then (Err "commitment verification failed", v)
      else
        let '(rc, v') := coefficients v rowRoot rowSize in
        (coeffs ← rc;
         computed ← Compute (map rp_Row proofs) coeffs (cfg_WorkerCount (v_config v));
         check_rlcs (v_rlcShards v) proofs computed, v')
  end.

Definition VerifyShared (procs : Z) (v : Verifier) (commitment : bytes) (proofs : list (option RowProof))
  : result unit * Verifier :=
  match validateProofs (v_config v) proofs with
  | Ok rowSize => verify procs v commitment (omap id proofs) rowSize
  | Err e => (Err e, v)
  | Panic p => (Panic p, v)
  end.

Definition Verify (procs : Z) (v : Verifier) (commitment : bytes) (proofs : list (option RowProof)) (rlc : list (list Z))
  : result unit * Verifier :=
  match setRLC v rlc with
  | (Ok _, v') => VerifyShared procs v' commitment proofs
  | (r, v') => (r, v')
  end.

(** ** [reconstructor.go] *)

Record Reconstructor := mkReconstructor {
  r_config : Config;
  r_commitment : bytes;
  r_verifierRLC : bool;
  r_verifier : Verifier;
  r_seen : list bool;
  r_have : Z;
}.

Definition NewReconstructor (cfg : Config) (commitment : bytes) : result Reconstructor :=
  verifier ← NewVerifier cfg;
  Ok (mkReconstructor cfg commitment false verifier (repeat false (Z.to_nat (cfg_K cfg + cfg_N cfg))) 0).

Definition with_verifier (r : Reconstructor) (flag : bool) (v : Verifier) : Reconstructor :=
  mkReconstructor (r_config r) (r_commitment r) flag v (r_seen r) (r_have r).

(** The two branches of [verify]: the validated combinations are shared, the
    first caller installs its own under the lock. *)
Definition Reconstructor_verify (procs : Z) (r : Reconstructor) (rlc : list (list Z)) (proofs : list (option RowProof))
  : result unit * Reconstructor :=
  if r_verifierRLC r
  then let '(res, v) := VerifyShared procs (r_verifier r) (r_commitment r) proofs in (res, with_verifier r true v)
  else let '(res, v) := Verify procs (r_verifier r) (r_commitment r) proofs rlc in
       (res, with_verifier r (is_ok res) v).

(** The novel proofs are moved to the front of the slice, in order. *)
Fixpoint addVerified (r : Reconstructor) (proofs : list RowProof) : list RowProof * Reconstructor :=
  match proofs with
  | [] => ([], r)
  | p :: proofs' =>
      let i := Z.to_nat (rp_Index p) in
      if nth i (r_seen r) false then addVerified r proofs'
      else
        let r1 := mkReconstructor (r_config r) (r_commitment r) (r_verifierRLC r) (r_verifier r)
                    (<[i := true]> (r_seen r)) (r_have r + 1) in
        let '(novel, r2) := addVerified r1 proofs' in (p :: novel, r2)
  end.

Definition Add (procs : Z) (r : Reconstructor) (proofs : list (option RowProof)) (rlc : list (list Z))
  : result (list RowProof) * Reconstructor :=
  match Reconstructor_verify procs r rlc proofs with
  | (Ok _, r') => let '(novel, r'') := addVerified r' (omap id proofs) in (Ok novel, r'')
  | (Err e, r') => (Err e, r')
  | (Panic p, r') => (Panic p, r')
  end.

Definition Have (r : Reconstructor) : Z := r_have r.
Definition Want (r : Reconstructor) : Z := if cfg_K (r_config r) <=? r_have r then 0 else cfg_K (r_config r) - r_have r.

Definition Reconstruct (r : Reconstructor) (rows : list (option bytes)) : result (list (option bytes)) :=
  if 0 <? Want r then Err "not enough rows to reconstruct"
  else match RS_ReconstructData (cfg_K (r_config r)) (cfg_N (r_config r)) rows with
       | Ok rows => Ok rows
       | Err _ => Err "reconstructing original rows"
       | Panic p => Panic p
       end.
End Codec.
