(* ===== verification/Rsema1dProofs.v ===== *)
(** * Correctness of the verifier of the erasure code

    A batch is accepted exactly when each of its rows is accepted against one
    row root, whatever the state of the verifier, the number of workers and the
    order in which they ran; and two rows accepted at one index of a commitment
    are equal, or the hashed strings of their openings collide. *)

From S2P Require Import Prelude Sdk Merkle MerkleProofs Rlc RlcProofs Rsema1d.
#[local] Open Scope Z_scope.

(** ** Configurations *)

Lemma pow2_of_land x : 0 < x → Z.land x (x - 1) = 0 → x = 2 ^ Z.log2 x.
Proof.
  intros Hx Hl. pose proof (Z.log2_spec x Hx) as [H1 H2]. destruct (Z.eq_dec x (2 ^ Z.log2 x)) as [|Hne]; [done|exfalso].
  assert (Z.log2 (x - 1) = Z.log2 x) as E by (apply Z.log2_unique; [apply Z.log2_nonneg|lia]).
  assert (Z.testbit (Z.land x (x - 1)) (Z.log2 x) = true) as Hb.
  { rewrite Z.land_spec, Z.bit_log2 by done. rewrite <- E, Z.bit_log2; [done|].
    pose proof (Z.log2_nonneg x). pose proof (Z.pow_pos_nonneg 2 (Z.log2 x)). lia. }
  by rewrite Hl, Z.bits_0 in Hb.
Qed.

(** K and K+N are powers of two. *)
Record shape (cfg : Config) (a b : nat) : Prop := {
  shape_K : cfg_K cfg = 2 ^ Z.of_nat a;
  shape_total : cfg_K cfg + cfg_N cfg = 2 ^ Z.of_nat b;
  shape_lt : (a < b <= 16)%nat;
}.

(** The depths of the trees over the combinations and over the rows. *)
Definition rlc_depth (cfg : Config) : nat := Z.to_nat (Z.log2 (cfg_K cfg)).
Definition row_depth (cfg : Config) : nat := Z.to_nat (Z.log2 (cfg_K cfg + cfg_N cfg)).

Lemma validate_shape cfg : Config_Validate cfg = Ok tt → shape cfg (rlc_depth cfg) (row_depth cfg).
Proof.
  unfold Config_Validate. intros H. repeat (apply bind_Ok in H as ([] & ?%ensure_Ok & H)).
  apply ensure_Ok in H. rewrite negb_true_iff in *.
  set (K := cfg_K cfg) in *. set (N := cfg_N cfg) in *.
  assert (0 < K ∧ 0 < N ∧ K + N <= 65536) as (HK & HN & Ht) by lia.
  pose proof (pow2_of_land K ltac:(lia) ltac:(lia)) as EK. pose proof (pow2_of_land (K + N) ltac:(lia) ltac:(lia)) as ET.
  unfold rlc_depth, row_depth. fold K N.
  pose proof (Z.log2_nonneg K). pose proof (Z.log2_nonneg (K + N)).
  assert (Z.log2 K < Z.log2 (K + N)) by (apply (Z.pow_lt_mono_r_iff 2); lia).
  assert (Z.log2 (K + N) <= 16) by (change 16 with (Z.log2 65536); by apply Z.log2_le_mono).
  split; rewrite ?Z2Nat.id by lia; (done || lia).
Qed.

Lemma shape_nat cfg a b : shape cfg a b →
  Z.to_nat (cfg_K cfg) = (2 ^ a)%nat ∧ Z.to_nat (cfg_K cfg + cfg_N cfg) = (2 ^ b)%nat ∧
  0 < cfg_K cfg ∧ 0 < cfg_N cfg ∧ (Z.to_nat (cfg_K cfg) + Z.to_nat (cfg_N cfg) = 2 ^ b)%nat.
Proof.
  intros [HK HT Hlt]. assert (∀ d, Z.to_nat (2 ^ Z.of_nat d) = 2 ^ d)%nat as Hp.
  { intros d. rewrite <- (Nat2Z.id (2 ^ d)). f_equal. by rewrite Nat2Z.inj_pow. }
  assert (2 ^ Z.of_nat a < 2 ^ Z.of_nat b) by (apply Z.pow_lt_mono_r; lia).
  assert (0 < cfg_N cfg ∧ 0 < cfg_K cfg) as [HN HK'] by lia.
  rewrite HT, <- Z2Nat.inj_add, HT by lia. rewrite HK, !Hp. repeat split; lia.
Qed.

Lemma shape_depth cfg a b : shape cfg a b → bits_Len (cfg_K cfg + cfg_N cfg) - 1 = Z.of_nat b ∧ bits_Len (cfg_K cfg) - 1 = Z.of_nat a.
Proof.
  intros [HK HT Hlt]. unfold bits_Len. rewrite HT, HK.
  assert (∀ d, (2 ^ Z.of_nat d <=? 0) = false) as Hpos by (intros d; apply Z.leb_gt; lia).
  rewrite !Hpos, !Z.log2_pow2 by lia. lia.
Qed.

(** ** Reed-Solomon coding

    The code is systematic and linear over GF(2^16): symbol [s] of parity row
    [p] is a combination of the symbols [s] of the data rows. Any K of the K+N
    rows determine the data; missing rows are reported as an error. *)

Class ReedSolomonLaws `{GF16, ReedSolomon} (k n : Z) := {
  rs_matrix : nat → nat → Z;
  rs_matrix_range p j : u16 (rs_matrix p j);
  RS_Encode_linear data len : length data = Z.to_nat k → Forall (row_ok len) data →
    (0 < len)%nat → (len mod LeopardChunkSize)%nat = 0%nat →
    ∃ parity, RS_Encode k n (data ++ repeat (repeat 0 len) (Z.to_nat n)) = Ok (data ++ parity) ∧
      length parity = Z.to_nat n ∧ Forall (row_ok len) parity ∧
      ∀ p s, (p < Z.to_nat n)%nat → (2 * s < len)%nat →
        GF16FromLeopard (nth p parity []) s =
        xsum (λ j, GF16Mul (rs_matrix p j) (GF16FromLeopard (nth j data []) s)) (seq 0 (Z.to_nat k));
  RS_ReconstructData_data data len ext shards : length data = Z.to_nat k → Forall (row_ok len) data →
    (0 < len)%nat → (len mod LeopardChunkSize)%nat = 0%nat →
    RS_Encode k n (data ++ repeat (repeat 0 len) (Z.to_nat n)) = Ok ext →
    length shards = length ext → (∀ i row, shards !! i = Some (Some row) → ext !! i = Some row) →
    (Z.to_nat k <= length (omap id shards))%nat →
    ∃ out, RS_ReconstructData k n shards = Ok out ∧ take (Z.to_nat k) out = map Some data;
  RS_ReconstructData_errors shards : no_panic (RS_ReconstructData k n shards);
}.

Lemma GF128ToLeopard_ok g : coeff_ok g → row_ok LeopardChunkSize (GF128ToLeopard g).
Proof.
  intros [Hl HF]. unfold GF128ToLeopard. split.
  - rewrite !length_app, !length_map, !repeat_length, Hl. done.
  - assert (∀ n, Forall byte_ok (repeat 0 n)) as Hz.
    { intros n. apply Forall_forall. intros x Hx. apply list_elem_of_In, repeat_spec in Hx as ->. unfold byte_ok. lia. }
    repeat apply Forall_app_2; auto; apply Forall_map; (eapply Forall_impl; [exact HF|]); intros x Hx; unfold byte_ok, u16 in *.
    + change 255 with (Z.ones 8). rewrite Z.land_ones by lia. apply Z.mod_pos_bound. lia.
    + rewrite Z.shiftr_div_pow2 by lia. split; [apply Z.div_pos; lia|apply Z.div_lt_upper_bound; lia].
Qed.

Section Verification.
Context `{CR : Crypto} `{SL : !Sha256Laws} `{GF : GF16} `{GL : !GF16Laws} `{RS : ReedSolomon}.
Context (order : nat → list nat) (Horder : order_ok order).
Context (cfg : Config) (a b : nat) (Hcfg : shape cfg a b) `{RL : !ReedSolomonLaws (cfg_K cfg) (cfg_N cfg)}.

Let K := Z.to_nat (cfg_K cfg).
Let N := Z.to_nat (cfg_N cfg).

(** ** What acceptance means *)

(** The coefficients of the rows of one size below one root. *)
Definition coeffs_of (rowRoot : bytes) (rowSize : nat) : list (list Z) :=
  derived (derive_seed rowRoot (cfg_K cfg) (cfg_N cfg) (Z.of_nat rowSize)) (rowSize / 2).

(** The combinations of the original rows and their extension. *)
Definition extends (rlc : list (list Z)) (shards : list bytes) : Prop :=
  RS_Encode (cfg_K cfg) (cfg_N cfg) (map GF128ToLeopard rlc ++ repeat zero_chunk N) = Ok shards.

Record row_accepted (shards : list bytes) (rowRoot : bytes) (rowSize : nat) (p : RowProof) : Prop := {
  ra_index : 0 <= rp_Index p < cfg_K cfg + cfg_N cfg;
  ra_size : length (rp_Row p) = rowSize;
  ra_depth : length (rp_RowProof p) = b;
  ra_root : RootFromProof (rp_Row p) (rp_Index p) (rp_RowProof p) = Ok rowRoot;
  ra_rlc : ComputeRow (rp_Row p) (coeffs_of rowRoot rowSize) = GF128FromLeopard (nth (Z.to_nat (rp_Index p)) shards []);
}.

Definition size_ok (rowSize : nat) : Prop := (0 < rowSize)%nat ∧ (rowSize mod LeopardChunkSize)%nat = 0%nat.

Record batch_accepted (commitment : bytes) (rlc : list (list Z)) (ps : list RowProof)
  (rowRoot rlcRoot : bytes) (rowSize : nat) (shards : list bytes) : Prop := {
  ba_some : ps ≠ [];
  ba_rlc : Z.of_nat (length rlc) = cfg_K cfg;
  ba_shards : extends rlc shards;
  ba_rlcRoot : computeRLCRoot cfg rlc = Ok rlcRoot;
  ba_commitment : commitment = commitment_of rowRoot rlcRoot;
  ba_size : size_ok rowSize;
  ba_rows : Forall (row_accepted shards rowRoot rowSize) ps;
}.

(** A verifier that has installed the combinations [rlc]. *)
Record ready (v : Verifier) (rlc : list (list Z)) (rlcRoot : bytes) (shards : list bytes) : Prop := {
  rd_config : v_config v = cfg;
  rd_root : v_rlcRoot v = rlcRoot;
  rd_shards : v_rlcShards v = shards;
  rd_rlc : Z.of_nat (length rlc) = cfg_K cfg;
  rd_extends : extends rlc shards;
  rd_rlcRoot : computeRLCRoot cfg rlc = Ok rlcRoot;
  rd_coeffs : match v_rlcCoeffs v with
              | None => True
              | Some coeffs => coeffs = coeffs_of (v_coeffsRowRoot v) (v_coeffsRowSize v)
              end;
}.

(** The bytes of the rows are bytes. *)
Definition bytes_ok (ps : list RowProof) : Prop := Forall (λ p, Forall byte_ok (rp_Row p)) ps.

Lemma extends_length rlc shards : Forall coeff_ok rlc → Z.of_nat (length rlc) = cfg_K cfg → extends rlc shards → length shards = (K + N)%nat.
Proof.
  intros Hr Hl He. destruct (RS_Encode_linear (map GF128ToLeopard rlc) LeopardChunkSize) as (parity & E & Hp & _).
  { rewrite length_map. lia. }
  { apply Forall_map. eapply Forall_impl; [exact Hr|]. apply GF128ToLeopard_ok. }
  { unfold LeopardChunkSize. lia. }
  { done. }
  unfold extends in He. fold zero_chunk N in E. rewrite E in He. injection He as <-.
  rewrite length_app, length_map, Hp. lia.
Qed.

Lemma computeRLCRoot_Ok rlc : ∃ root, computeRLCRoot cfg rlc = Ok root.
Proof.
  destruct (shape_nat _ _ _ Hcfg) as (HK & _). unfold computeRLCRoot.
  pose proof (build_heap order a (λ i, EncodeGF128 (nth i rlc Zero)) (repeat [] (2 * 2 ^ a - 1)) Horder) as Hh. cbv zeta in Hh.
  rewrite repeat_length in Hh. specialize (Hh eq_refl).
  rewrite (shape_K _ _ _ Hcfg). erewrite RootFromFunc_root; [by eexists|exact Hh|].
  rewrite repeat_length. rewrite <- (shape_K _ _ _ Hcfg). exact HK.
Qed.

Lemma setRLC_spec v rlc : v_config v = cfg → Forall coeff_ok rlc → Z.of_nat (length rlc) = cfg_K cfg →
  ∃ rlcRoot shards v', setRLC v rlc = (Ok tt, v') ∧ ready v' rlc rlcRoot shards ∧ v_rlcCoeffs v' = None.
Proof.
  intros Hv Hr Hl. unfold setRLC. rewrite Hv, Hl, Z.eqb_refl. cbn [negb].
  destruct (RS_Encode_linear (map GF128ToLeopard rlc) LeopardChunkSize) as (parity & E & _).
  { rewrite length_map. lia. }
  { apply Forall_map. eapply Forall_impl; [exact Hr|]. apply GF128ToLeopard_ok. }
  { unfold LeopardChunkSize. lia. }
  { done. }
  change (repeat 0 LeopardChunkSize) with zero_chunk in E. rewrite E.
  destruct (computeRLCRoot_Ok rlc) as [root Hroot]. rewrite Hroot. eexists root, _, _. split; [done|]. by split.
Qed.

Lemma validateProofs_Ok proofs rowSize :
  validateProofs cfg proofs = Ok rowSize ↔
  ∃ ps, proofs = map Some ps ∧ ps ≠ [] ∧ size_ok rowSize ∧
    Forall (λ p, 0 <= rp_Index p < cfg_K cfg + cfg_N cfg ∧ length (rp_Row p) = rowSize ∧ length (rp_RowProof p) = b) ps.
Proof.
  destruct (shape_depth _ _ _ Hcfg) as [Hd _]. unfold validateProofs.
  destruct proofs as [|[first|] rest].
  { split; [discriminate|]. intros ([|? ?] & ? & ? & _); simplify_eq/=. }
  2:{ split; [discriminate|]. intros ([|? ?] & ? & ? & _); simplify_eq/=. }
  rewrite Hd, bind_Ok. split.
  - intros ([] & He & H). apply bind_Ok in H as ([] & Hs%ensure_Ok & [= <-]). apply each_Ok in He.
    assert (∃ ps, Some first :: rest = map Some ps ∧ Forall (λ p, 0 <= rp_Index p < cfg_K cfg + cfg_N cfg ∧
        length (rp_Row p) = length (rp_Row first) ∧ length (rp_RowProof p) = b) ps) as (ps & Eps & HF).
    { clear Hs. induction He as [|[p|] ps Hp He IH]; [by exists []| |done].
      destruct IH as (qs & -> & HF). exists (p :: qs). split; [done|]. constructor; [|done].
      apply bind_Ok in Hp as ([] & Hi%ensure_Ok & Hp). apply bind_Ok in Hp as ([] & Hl%ensure_Ok%Nat.eqb_eq & Hp).
      apply ensure_Ok, Z.eqb_eq in Hp. apply negb_true_iff, orb_false_iff in Hi as [?%Z.ltb_ge ?%Z.leb_gt]. lia. }
    exists ps. split; [done|]. split; [by destruct ps|]. split; [|done]. unfold size_ok.
    rewrite negb_true_iff, orb_false_iff, negb_false_iff in Hs. destruct Hs as [?%Nat.eqb_neq ?%Nat.eqb_eq]. split; lia.
  - intros ([|p ps] & E & _ & [Hs1 Hs2] & HF); [done|]. injection E as <- ->.
    pose proof (proj1 (Forall_cons _ _ _) HF) as [(_ & Hlp & _) _]. rewrite Hlp.
    exists tt. split.
    + change (Some first :: map Some ps) with (map Some (first :: ps)). apply each_Ok, Forall_map.
      eapply Forall_impl; [exact HF|]. intros q ([H1 H2] & H3 & H4). cbn.
      destruct (Z.ltb_spec (rp_Index q) 0); [lia|]. destruct (Z.leb_spec (cfg_K cfg + cfg_N cfg) (rp_Index q)); [lia|].
      rewrite H3, Nat.eqb_refl, H4, Z.eqb_refl. done.
    + rewrite Hs2. destruct (Nat.eqb_spec rowSize 0); [lia|]. done.
Qed.

Lemma check_rlcs_Ok shards ps computed : length computed = length ps →
  Forall (λ p, (Z.to_nat (rp_Index p) < length shards)%nat) ps →
  check_rlcs shards ps computed = Ok tt ↔
  ∀ i p, ps !! i = Some p → nth i computed Zero = GF128FromLeopard (nth (Z.to_nat (rp_Index p)) shards []).
Proof.
  intros Hl HF. unfold check_rlcs. rewrite each_i_Ok.
  assert (∀ i p, ps !! i = Some p →
    (c ← index computed i; shard ← index shards (Z.to_nat (rp_Index p));
     ensure (Equal128 c (GF128FromLeopard shard)) "computed RLC does not match expected value") = Ok tt ↔
    nth i computed Zero = GF128FromLeopard (nth (Z.to_nat (rp_Index p)) shards [])) as Hstep.
  { intros i p Hp. destruct (lookup_lt_is_Some_2 computed i) as [c Hc]; [rewrite Hl; by eapply lookup_lt_Some|].
    pose proof (Forall_lookup_1 _ _ _ _ HF Hp) as Hsp. destruct (lookup_lt_is_Some_2 shards _ Hsp) as [sh Hsh].
    rewrite (proj2 (index_Ok _ _ _) Hc), (proj2 (index_Ok _ _ _) Hsh). cbn [mbind result_bind].
    rewrite ensure_Ok. unfold Equal128. rewrite bool_decide_eq_true.
    by rewrite (nth_lookup_Some _ _ _ _ Hc), (nth_lookup_Some _ _ _ _ Hsh). }
  split; intros H i p Hp; [apply Hstep; [done|]|apply Hstep; [done|]]; by apply H.
Qed.

(** The matrix the cached coefficients were derived from. *)
Definition cached (v : Verifier) (rowRoot : bytes) (rowSize : nat) : Prop :=
  match v_rlcCoeffs v with
  | None => True
  | Some _ => rowRoot = v_coeffsRowRoot v ∧ rowSize = v_coeffsRowSize v
  end.

Lemma coefficients_ready v rlc rlcRoot shards rowRoot rowSize : ready v rlc rlcRoot shards →
  let '(r, v') := coefficients order v rowRoot rowSize in
  ready v' rlc rlcRoot shards ∧
  (cached v rowRoot rowSize → r = Ok (coeffs_of rowRoot rowSize) ∧ v_rlcCoeffs v' = Some (coeffs_of rowRoot rowSize) ∧
     v_coeffsRowRoot v' = rowRoot ∧ v_coeffsRowSize v' = rowSize) ∧
  (¬ cached v rowRoot rowSize → is_ok r = false ∧ v' = v).
Proof.
  intros Hv. pose proof (rd_coeffs _ _ _ _ Hv) as Hc. unfold coefficients, cached. destruct (v_rlcCoeffs v) as [coeffs|] eqn:E.
  - destruct (Nat.eqb_spec rowSize (v_coeffsRowSize v)) as [->|Hne]; cbn [negb orb].
    + case_bool_decide as Hr; cbn [negb]; [subst rowRoot coeffs; split_and!; try done; intros Hx; by destruct Hx|]. split; [done|]. split; [by intros [? _]|done].
    + split; [done|]. split; [by intros [_ ?]|done].
  - rewrite (rd_config _ _ _ _ Hv), DeriveCoefficients_derived by done. split; [by destruct Hv|]. split; [done|]. by intros [].
Qed.

Definition proof_input (p : RowProof) : ProofInput := mkProofInput (rp_Row p) (rp_Index p) (rp_RowProof p).

#[global] Instance cached_dec v rowRoot rowSize : Decision (cached v rowRoot rowSize).
Proof. unfold cached. destruct (v_rlcCoeffs v); apply _. Defined.

(** The shape checked by [validateProofs]. *)
Definition proof_shape (rowSize : nat) (p : RowProof) : Prop :=
  0 <= rp_Index p < cfg_K cfg + cfg_N cfg ∧ length (rp_Row p) = rowSize ∧ length (rp_RowProof p) = b.

Lemma RootFromProofs_rows procs ps rowRoot : ps ≠ [] →
  RootFromProofs (map proof_input ps) procs = Ok rowRoot ↔
  Forall (λ p, RootFromProof (rp_Row p) (rp_Index p) (rp_RowProof p) = Ok rowRoot) ps.
Proof.
  intros Hne. rewrite RootFromProofs_Ok, Forall_map. split; [by intros [_ ?]|]. intros ?. split; [|done].
  by intros ?%map_eq_nil.
Qed.

Lemma accepted_roots procs shards ps rowRoot rowSize : ps ≠ [] → Forall (row_accepted shards rowRoot rowSize) ps →
  RootFromProofs (map proof_input ps) procs = Ok rowRoot.
Proof.
  intros Hne HA. apply RootFromProofs_rows; [done|]. eapply Forall_impl; [exact HA|]. intros p Hp. apply Hp.
Qed.

(** The check of the combinations is the check of every row. *)
Lemma rlcs_accepted rlc shards ps rowRoot rowSize workers :
  Forall coeff_ok rlc → Z.of_nat (length rlc) = cfg_K cfg → extends rlc shards →
  bytes_ok ps → ps ≠ [] → size_ok rowSize → Forall (proof_shape rowSize) ps →
  Forall (λ p, RootFromProof (rp_Row p) (rp_Index p) (rp_RowProof p) = Ok rowRoot) ps →
  (computed ← Compute (map rp_Row ps) (coeffs_of rowRoot rowSize) workers; check_rlcs shards ps computed) = Ok tt ↔
  Forall (row_accepted shards rowRoot rowSize) ps.
Proof.
  intros Hrlc Hlr Hx Hb Hne [Hs0 Hs64] HF HR. pose proof (Nat.div_mod_eq rowSize LeopardChunkSize) as Ed.
  rewrite (Compute_rows _ _ _ (rowSize / LeopardChunkSize)).
  2:{ by intros ?%map_eq_nil. }
  2:{ unfold LeopardChunkSize in *. lia. }
  2:{ unfold bytes_ok in Hb. apply Forall_map. rewrite Forall_forall in *. intros p Hp. destruct (HF p Hp) as (_ & Hl & _).
      split; [rewrite Hl; unfold chunkSize; lia|by apply Hb]. }
  2:{ apply derived_ok. }
  cbn [mbind result_bind]. rewrite check_rlcs_Ok; [|by rewrite !length_map|].
  2:{ rewrite (extends_length rlc shards) by done. eapply Forall_impl; [exact HF|]. intros p ([? ?] & _). unfold K, N. lia. }
  assert (∀ i p, ps !! i = Some p → nth i (map (λ row, ComputeRow row (coeffs_of rowRoot rowSize)) (map rp_Row ps)) Zero =
    ComputeRow (rp_Row p) (coeffs_of rowRoot rowSize)) as Hnth.
  { intros i p Hp. apply nth_lookup_Some. by rewrite map_map, list_lookup_fmap, Hp. }
  split.
  - intros H. apply Forall_lookup. intros i p Hp. destruct (Forall_lookup_1 _ _ _ _ HF Hp) as (? & ? & ?).
    pose proof (Forall_lookup_1 _ _ _ _ HR Hp). split; try done. by rewrite <- (H i p Hp), (Hnth i p Hp).
  - intros HA i p Hp. rewrite (Hnth i p Hp). apply (Forall_lookup_1 _ _ _ _ HA Hp).
Qed.

Lemma verify_ready procs v rlc rlcRoot shards commitment ps rowSize :
  ready v rlc rlcRoot shards → Forall coeff_ok rlc → bytes_ok ps → ps ≠ [] → size_ok rowSize → Forall (proof_shape rowSize) ps →
  let '(r, v') := verify order procs v commitment ps rowSize in
  ready v' rlc rlcRoot shards ∧
  (r = Ok tt ↔ ∃ rowRoot, commitment = commitment_of rowRoot rlcRoot ∧ cached v rowRoot rowSize ∧
                          Forall (row_accepted shards rowRoot rowSize) ps) ∧
  (r = Ok tt → ∃ rowRoot, commitment = commitment_of rowRoot rlcRoot ∧ Forall (row_accepted shards rowRoot rowSize) ps ∧
     v_rlcCoeffs v' = Some (coeffs_of rowRoot rowSize) ∧ v_coeffsRowRoot v' = rowRoot ∧ v_coeffsRowSize v' = rowSize).
Proof.
  intros Hv Hrlc Hb Hne Hs HF. unfold verify. change (map (λ p, mkProofInput _ _ _) ps) with (map proof_input ps).
  pose proof (λ rr, accepted_roots procs shards ps rr rowSize Hne) as Hacc.
  destruct (RootFromProofs (map proof_input ps) procs) as [rowRoot|e|e] eqn:ER.
  2, 3: split; [done|]; split; [|discriminate]; (split; [discriminate|]); intros (rr & _ & _ & HA%Hacc); discriminate.
  assert (∀ rr, Forall (row_accepted shards rr rowSize) ps → rr = rowRoot) as Huniq by (intros rr HA%Hacc; congruence).
  apply RootFromProofs_rows in ER; [|done].
  rewrite (rd_root _ _ _ _ Hv). case_bool_decide as Hcm; cbn [negb].
  2:{ split; [done|]. split; [|discriminate]. split; [discriminate|]. intros (rr & -> & _ & HA%Huniq). by subst. }
  pose proof (coefficients_ready v rlc rlcRoot shards rowRoot rowSize Hv) as Hco.
  destruct (coefficients order v rowRoot rowSize) as [rc v'] eqn:Ec. destruct Hco as (Hv' & Hyes & Hno).
  split; [done|]. destruct (decide (cached v rowRoot rowSize)) as [Hca|Hca].
  - destruct (Hyes Hca) as (-> & Hc). cbn [mbind result_bind]. rewrite (rd_config _ _ _ _ Hv), (rd_shards _ _ _ _ Hv).
    pose proof (rlcs_accepted rlc shards ps rowRoot rowSize (cfg_WorkerCount cfg) Hrlc (rd_rlc _ _ _ _ Hv)
      (rd_extends _ _ _ _ Hv) Hb Hne Hs HF ER) as Hiff. cbn [mbind result_bind] in Hiff. rewrite Hiff.
    split; [|intros HA; by exists rowRoot]. split; [by exists rowRoot|]. intros (rr & _ & _ & HA). by pose proof (Huniq rr HA) as ->.
  - destruct (Hno Hca) as [Hrc _]. destruct rc; [discriminate| |]; cbn; (split; [|discriminate]); (split; [discriminate|]);
      intros (rr & _ & Hx & HA%Huniq); by subst.
Qed.

Lemma omap_id_Some {A} (l : list A) : omap id (map Some l) = l.
Proof. induction l as [|x l IH]; [done|]. cbn. by rewrite IH. Qed.

(** Proofs whose rows are made of bytes; the entries may be nil. *)
Definition proofs_ok (proofs : list (option RowProof)) : Prop := bytes_ok (omap id proofs).

Lemma VerifyShared_ready procs v rlc rlcRoot shards commitment proofs :
  ready v rlc rlcRoot shards → Forall coeff_ok rlc → proofs_ok proofs →
  let '(r, v') := VerifyShared order procs v commitment proofs in
  ready v' rlc rlcRoot shards ∧
  (r = Ok tt ↔ ∃ ps rowRoot rowSize, proofs = map Some ps ∧ cached v rowRoot rowSize ∧
                 batch_accepted commitment rlc ps rowRoot rlcRoot rowSize shards) ∧
  (r = Ok tt → ∃ ps rowRoot rowSize, proofs = map Some ps ∧ batch_accepted commitment rlc ps rowRoot rlcRoot rowSize shards ∧
     v_rlcCoeffs v' = Some (coeffs_of rowRoot rowSize) ∧ v_coeffsRowRoot v' = rowRoot ∧ v_coeffsRowSize v' = rowSize).
Proof.
  intros Hv Hrlc Hb. unfold VerifyShared. rewrite (rd_config _ _ _ _ Hv).
  assert (∀ ps rowRoot rowSize, batch_accepted commitment rlc ps rowRoot rlcRoot rowSize shards →
    proofs = map Some ps → validateProofs cfg proofs = Ok rowSize) as Hshape.
  { intros ps rowRoot rowSize HA ->. apply validateProofs_Ok. exists ps. split; [done|]. split; [apply HA|]. split; [apply HA|].
    eapply Forall_impl; [apply HA|]. by intros p []. }
  destruct (validateProofs cfg proofs) as [rowSize|e|e] eqn:E.
  2, 3: split; [done|]; split; [|discriminate]; split; [discriminate|];
    intros (ps & rr & rs & Hp & _ & HA); by pose proof (Hshape ps rr rs HA Hp).
  apply validateProofs_Ok in E as (ps & -> & Hne & Hs & HF). unfold proofs_ok in Hb. rewrite omap_id_Some in *.
  pose proof (verify_ready procs v rlc rlcRoot shards commitment ps rowSize Hv Hrlc Hb Hne Hs HF) as HV.
  destruct (verify order procs v commitment ps rowSize) as [r v'] eqn:Er. destruct HV as (Hv' & Hiff & Hok).
  split; [done|]. split; [rewrite Hiff|intros Hr; destruct (Hok Hr) as (rr & ? & ? & ?); exists ps, rr, rowSize; split; [done|]; split; [destruct Hv; by split|done]].
  split.
  - intros (rr & Hc & Hca & HA). exists ps, rr, rowSize. split; [done|]. split; [done|].
    destruct Hv. by split.
  - intros (ps' & rr & rs & Hp & Hca & HA). apply (inj (map Some)) in Hp as <-.
    pose proof (Hshape ps rr rs HA eq_refl) as [= <-]. exists rr. split; [apply HA|]. split; [done|apply HA].
Qed.

(** Once the coefficients are cached the verifier is only read. *)
Lemma VerifyShared_reads procs v commitment proofs coeffs : v_rlcCoeffs v = Some coeffs →
  (VerifyShared order procs v commitment proofs).2 = v.
Proof.
  intros E. unfold VerifyShared. destruct (validateProofs (v_config v) proofs); [|done|done].
  unfold verify. destruct (RootFromProofs _ procs); [|done|done]. destruct (negb _); [done|].
  unfold coefficients. rewrite E. by destruct (_ || _).
Qed.

(** A batch is accepted exactly when its rows are, whatever the verifier has
    seen before and however many workers check it. *)
Lemma Verify_accepts procs v commitment proofs rlc : v_config v = cfg → Forall coeff_ok rlc → proofs_ok proofs →
  let '(r, v') := Verify order procs v commitment proofs rlc in
  v_config v' = cfg ∧
  (r = Ok tt ↔ ∃ ps rowRoot rlcRoot rowSize shards, proofs = map Some ps ∧
                 batch_accepted commitment rlc ps rowRoot rlcRoot rowSize shards) ∧
  (r = Ok tt → ∃ ps rowRoot rlcRoot rowSize shards, proofs = map Some ps ∧
     batch_accepted commitment rlc ps rowRoot rlcRoot rowSize shards ∧ ready v' rlc rlcRoot shards ∧
     v_rlcCoeffs v' = Some (coeffs_of rowRoot rowSize) ∧ v_coeffsRowRoot v' = rowRoot ∧ v_coeffsRowSize v' = rowSize).
Proof.
  intros Hv Hrlc Hb. unfold Verify. destruct (decide (Z.of_nat (length rlc) = cfg_K cfg)) as [Hl|Hl].
  - destruct (setRLC_spec v rlc Hv Hrlc Hl) as (rlcRoot & shards & v1 & -> & Hr1 & Hnone).
    pose proof (VerifyShared_ready procs v1 rlc rlcRoot shards commitment proofs Hr1 Hrlc Hb) as HS.
    destruct (VerifyShared order procs v1 commitment proofs) as [r v'] eqn:Er. destruct HS as (Hr' & Hiff & Hok).
    split; [apply Hr'|]. split; [rewrite Hiff|intros Hr; destruct (Hok Hr) as (ps & rr & rs & ? & ? & ?); by exists ps, rr, rlcRoot, rs, shards].
    split.
    + intros (ps & rr & rs & Hp & _ & HA). by exists ps, rr, rlcRoot, rs, shards.
    + intros (ps & rr & rl & rs & sh & Hp & HA). exists ps, rr, rs. split; [done|].
      split; [unfold cached; by rewrite Hnone|].
      assert (sh = shards) as ->. { pose proof (ba_shards _ _ _ _ _ _ _ HA) as E1. pose proof (rd_extends _ _ _ _ Hr1) as E2. unfold extends in *. congruence. }
      assert (rl = rlcRoot) as ->. { pose proof (ba_rlcRoot _ _ _ _ _ _ _ HA) as E1. pose proof (rd_rlcRoot _ _ _ _ Hr1). congruence. }
      done.
  - unfold setRLC. rewrite Hv. destruct (Z.eqb_spec (Z.of_nat (length rlc)) (cfg_K cfg)); [done|]. cbn [negb].
    split; [done|]. split; [|discriminate]. split; [discriminate|].
    intros (ps & rr & rl & rs & sh & _ & HA). by pose proof (ba_rlc _ _ _ _ _ _ _ HA).
Qed.

(** ** Binding *)

(** The strings hashed by the opening of a row, from the commitment down. *)
Definition opening (rlc : list (list Z)) (p : RowProof) : list bytes :=
  match RootFromProof (rp_Row p) (rp_Index p) (rp_RowProof p), computeRLCRoot cfg rlc with
  | Ok rowRoot, Ok rlcRoot => [rowRoot ++ rlcRoot]
  | _, _ => []
  end ++ path_inputs (rp_Row p) (rp_Index p) (rp_RowProof p).

Lemma root_size proof : ∀ current pos r, length current = 32%nat → root_loop current pos proof = Ok r → length r = 32%nat.
Proof.
  induction proof as [|s proof IH]; intros current pos r Hc; cbn [root_loop]; [by intros [= <-]|].
  intros H. apply bind_Ok in H as (? & _ & H). eapply IH; [|exact H]. destruct (Z.rem pos 2 =? 0); apply sha256_length.
Qed.

(** Rows accepted at one index of a commitment are equal, or their openings
    show a collision. *)
Lemma accepted_binding commitment rlc rlc' ps ps' rr rl rs sh rr' rl' rs' sh' p p' :
  batch_accepted commitment rlc ps rr rl rs sh → batch_accepted commitment rlc' ps' rr' rl' rs' sh' →
  p ∈ ps → p' ∈ ps' → rp_Index p = rp_Index p' →
  (rp_Row p = rp_Row p' ∧ rr = rr' ∧ rl = rl') ∨ colliding (opening rlc p) (opening rlc' p').
Proof.
  intros HA HA' Hp Hp' Hi. pose proof (proj1 (Forall_forall _ _) (ba_rows _ _ _ _ _ _ _ HA) p Hp) as Hr.
  pose proof (proj1 (Forall_forall _ _) (ba_rows _ _ _ _ _ _ _ HA') p' Hp') as Hr'.
  pose proof (ra_root _ _ _ _ Hr) as R. pose proof (ra_root _ _ _ _ Hr') as R'.
  unfold opening. rewrite R, R', (ba_rlcRoot _ _ _ _ _ _ _ HA), (ba_rlcRoot _ _ _ _ _ _ _ HA'). cbn [app].
  pose proof (ba_commitment _ _ _ _ _ _ _ HA) as E. rewrite (ba_commitment _ _ _ _ _ _ _ HA') in E. unfold commitment_of in E.
  edestruct equal_or_colliding as [Heq|Hc]; [symmetry; exact E| |right; exact Hc].
  apply app_inj_1 in Heq as [-> ->].
  2:{ rewrite (root_size _ _ _ _ (sha256_length _) R), (root_size _ _ _ _ (sha256_length _) R'). done. }
  rewrite <- Hi in R'.
  destruct (leaf_binding (rp_Row p) (rp_Row p') (rp_Index p) (rp_RowProof p) (rp_RowProof p') rr') as [[-> _]|Hc];
    [|done|done|by left|right].
  - by rewrite (ra_depth _ _ _ _ Hr), (ra_depth _ _ _ _ Hr').
  - apply colliding_cons. by rewrite <- Hi.
Qed.
End Verification.
