(* ===== verification/Rsema1dEncode.v ===== *)
(** * Correctness of the coder

    Encoding well-formed data succeeds; the proofs it hands out are accepted by
    every verifier, and so are the standalone proofs of the original rows. *)

From S2P Require Import Prelude Sdk Merkle MerkleProofs Rlc RlcProofs Rsema1d Rsema1dProofs.
#[local] Open Scope Z_scope.

Section Encoding.
Context `{CR : Crypto} `{SL : !Sha256Laws} `{GF : GF16} `{GL : !GF16Laws} `{RS : ReedSolomon}.
Context (order : nat → list nat) (Horder : order_ok order).
Context (cfg : Config) (a b : nat) (Hcfg : shape cfg a b) `{RL : !ReedSolomonLaws (cfg_K cfg) (cfg_N cfg)}.

Let K := Z.to_nat (cfg_K cfg).
Let N := Z.to_nat (cfg_N cfg).

(** ** Encoding *)

Definition data_ok (data : list bytes) (len : nat) : Prop :=
  length data = K ∧ Forall (row_ok len) data ∧ size_ok len.

(** The rows handed to the coder: the data and zeroed parity rows. *)
Definition input_rows (data : list bytes) (len : nat) : list bytes := data ++ repeat (repeat 0 len) N.

Record encoded (data : list bytes) (len : nat) (ed : ExtendedData) : Prop := {
  en_config : ed_config ed = cfg;
  en_rows : RS_Encode (cfg_K cfg) (cfg_N cfg) (input_rows data len) = Ok (ed_rows ed);
  en_tree : heap (2 ^ b) (λ i, nth i (ed_rows ed) []) (ed_rowsTree ed);
  en_rlc : ed_rlc ed = map (λ row, ComputeRow row (coeffs_of cfg (Root (ed_rowsTree ed)) len)) data;
  en_rlcTree : heap (2 ^ a) (λ i, EncodeGF128 (nth i (ed_rlc ed) Zero)) (ed_rlcTree ed);
  en_commitment : ed_commitment ed = commitment_of (Root (ed_rowsTree ed)) (Root (ed_rlcTree ed));
}.

Definition tree_nodes (d : nat) : nat := (2 * 2 ^ d - 1)%nat.

(** A caller's buffer has room for both trees. *)
Definition buffer_ok (treeBuffer : option (list bytes)) : Prop :=
  match treeBuffer with None => True | Some buf => (tree_nodes b + tree_nodes a <= length buf)%nat end.

Lemma treeNodeCount_pow2 d : treeNodeCount (2 ^ Z.of_nat d) = Z.of_nat (tree_nodes d).
Proof.
  unfold treeNodeCount, tree_nodes. destruct (Z.eqb_spec (2 ^ Z.of_nat d) 0); [lia|].
  pose proof (Nat.pow_nonzero 2 d). rewrite Nat2Z.inj_sub by lia. rewrite Nat2Z.inj_mul, Nat2Z.inj_pow. done.
Qed.

Lemma quot_nodes d : Z.to_nat (Z.quot (TreeBufferSize (2 ^ Z.of_nat d)) NodeSize) = tree_nodes d.
Proof. unfold TreeBufferSize, NodeSize. rewrite Z.quot_mul, treeNodeCount_pow2 by lia. lia. Qed.

Lemma take_nodes_Ok d buf : (tree_nodes d <= length buf)%nat →
  take_nodes (TreeBufferSize (2 ^ Z.of_nat d)) buf = Ok (take (tree_nodes d) buf).
Proof. intros H. unfold take_nodes. rewrite quot_nodes. destruct (Nat.ltb_spec (length buf) (tree_nodes d)); [lia|done]. Qed.

Lemma pow2_nat d : Z.to_nat (2 ^ Z.of_nat d) = (2 ^ d)%nat.
Proof. rewrite <- (Nat2Z.id (2 ^ d)). f_equal. by rewrite Nat2Z.inj_pow. Qed.

Lemma buildRowTree_heap rows buf : length rows = (2 ^ b)%nat → (tree_nodes b <= length buf)%nat →
  ∃ t, buildRowTree order rows cfg buf = Ok t ∧ heap (2 ^ b) (λ i, nth i rows []) t.
Proof.
  intros Hl Hb. unfold buildRowTree. rewrite (shape_total _ _ _ Hcfg), take_nodes_Ok by done. cbn [mbind result_bind].
  unfold NewTreeInto. rewrite leavesFromBuf_pow2 by lia. cbn [mbind result_bind].
  rewrite Hl, Nat2Z.inj_pow. change (Z.of_nat 2) with 2. rewrite Z.eqb_refl. cbn [negb]. rewrite pow2_nat.
  eexists. split; [done|]. apply build_heap; [done|]. rewrite length_take. unfold tree_nodes in *. lia.
Qed.

Lemma buildRLCTree_heap rlc buf : (tree_nodes a <= length buf)%nat →
  ∃ t, buildRLCTree order rlc cfg buf = Ok t ∧ heap (2 ^ a) (λ i, EncodeGF128 (nth i rlc Zero)) t.
Proof.
  intros Hb. unfold buildRLCTree. rewrite (shape_K _ _ _ Hcfg), take_nodes_Ok by done. cbn [mbind result_bind].
  unfold NewTreeFuncInto. rewrite leavesFromBuf_pow2 by lia. cbn [mbind result_bind]. rewrite pow2_nat.
  eexists. split; [done|]. apply build_heap; [done|]. rewrite length_take. unfold tree_nodes in *. lia.
Qed.

Lemma size_chunks len : size_ok len → ∃ c, (0 < c)%nat ∧ (len = c * chunkSize)%nat.
Proof.
  intros [H0 Hm]. exists (len / LeopardChunkSize)%nat. pose proof (Nat.div_mod_eq len LeopardChunkSize).
  unfold chunkSize, LeopardChunkSize in *. lia.
Qed.

Lemma Compute_data data len coeffs workers : data_ok data len → Forall coeff_ok coeffs →
  Compute data coeffs workers = Ok (map (λ row, ComputeRow row coeffs) data).
Proof.
  intros (Hl & HF & Hs) Hc. destruct (size_chunks len Hs) as (c & Hc0 & ->).
  apply Compute_rows with (numChunks := c); try done. intros ->. cbn in Hl.
  destruct (shape_nat _ _ _ Hcfg) as (_ & _ & HK & _). unfold K in Hl. lia.
Qed.

Lemma Encode_encoded data len treeBuffer : data_ok data len → buffer_ok treeBuffer →
  ∃ ed, EncodeWithTree order cfg (input_rows data len) treeBuffer = Ok ed ∧ encoded data len ed.
Proof.
  intros Hd Hbuf. pose proof Hd as (Hl & HF & Hs). destruct (shape_nat _ _ _ Hcfg) as (HK & HT & HK0 & HN0 & Hsum).
  fold K N in HK, Hsum. unfold EncodeWithTree, validateRows.
  assert (Z.of_nat (length (input_rows data len)) = cfg_K cfg + cfg_N cfg) as ->.
  { unfold input_rows. rewrite length_app, repeat_length, Hl. unfold K, N. lia. }
  rewrite Z.eqb_refl. cbn [ensure mbind result_bind].
  destruct (RS_Encode_linear data len Hl HF (proj1 Hs) (proj2 Hs)) as (parity & E & Hpl & Hpo & _).
  unfold input_rows, N. rewrite E. unfold commit. set (rows := data ++ parity).
  assert (length rows = 2 ^ b)%nat as Hrows by (unfold rows; rewrite length_app, Hl, Hpl; exact Hsum).
  set (buf := match treeBuffer with Some buf => buf | None => _ end).
  assert (tree_nodes b + tree_nodes a <= length buf)%nat as Hbl.
  { unfold buf. destruct treeBuffer; [done|]. rewrite repeat_length. unfold Config_TreeBufferSize.
    rewrite (shape_total _ _ _ Hcfg), (shape_K _ _ _ Hcfg). unfold TreeBufferSize, NodeSize.
    rewrite <- Z.mul_add_distr_r, Z.quot_mul, !treeNodeCount_pow2 by lia. lia. }
  destruct (buildRowTree_heap rows buf Hrows) as (t & -> & Ht); [lia|]. cbn [mbind result_bind].
  assert (∃ first, rows !! 0%nat = Some first ∧ length first = len) as (first & Hf & Hfl).
  { destruct data as [|d data']; [cbn in Hl; unfold K in Hl; lia|]. exists d. split; [done|]. by apply Forall_cons in HF as [[? _] _]. }
  rewrite (proj2 (index_Ok _ _ _) Hf). cbn [mbind result_bind]. rewrite DeriveCoefficients_derived, Hfl by done.
  fold (coeffs_of cfg (Root t) len).
  assert (take (Z.to_nat (cfg_K cfg)) rows = data) as ->. { fold K. unfold rows. by rewrite <- Hl, take_app_length. }
  rewrite (Compute_data data len) by (done || apply derived_ok). cbn [mbind result_bind].
  rewrite (shape_total _ _ _ Hcfg), quot_nodes.
  set (rlc := map _ data).
  destruct (buildRLCTree_heap rlc (drop (tree_nodes b) buf)) as (t' & -> & Ht'); [rewrite length_drop; lia|].
  cbn [mbind result_bind]. eexists. split; [done|]. by split.
Qed.

(** ** Combinations of codewords *)

Lemma GF16Mul_zero x : u16 x → GF16Mul x 0 = 0.
Proof.
  intros Hx. assert (u16 0) as H0 by (unfold u16; lia). pose proof (GF16Mul_lxor x 0 0 Hx H0 H0) as E.
  rewrite Z.lxor_0_l in E. rewrite E at 1. apply Z.lxor_nilpotent.
Qed.

Lemma xsum_u16 {A} (f : A → Z) l : (∀ i, i ∈ l → u16 (f i)) → u16 (xsum f l).
Proof.
  induction l as [|i l IH]; intros H; [unfold xsum, u16; cbn; lia|]. rewrite xsum_cons.
  apply u16_lxor; [apply H; by left|apply IH; intros j Hj; apply H; by right].
Qed.

Lemma GF16Mul_xsum {A} x (f : A → Z) l : u16 x → (∀ i, i ∈ l → u16 (f i)) →
  GF16Mul x (xsum f l) = xsum (λ i, GF16Mul x (f i)) l.
Proof.
  intros Hx. induction l as [|i l IH]; intros H; [by apply GF16Mul_zero|]. rewrite !xsum_cons.
  assert (∀ j, j ∈ l → u16 (f j)) as Hl by (intros j Hj; apply H; by right).
  assert (u16 (f i)) by (apply H; by left). pose proof (xsum_u16 f l Hl). by rewrite GF16Mul_lxor, IH.
Qed.

(** A combination of sums is the sum of the combinations. *)
Lemma combination_linear (m : nat → Z) (sym : nat → nat → Z) (coef : nat → Z) J S :
  (∀ j, u16 (m j)) → (∀ j s, u16 (sym j s)) → (∀ s, u16 (coef s)) →
  xsum (λ s, GF16Mul (xsum (λ j, GF16Mul (m j) (sym j s)) J) (coef s)) S =
  xsum (λ j, GF16Mul (m j) (xsum (λ s, GF16Mul (sym j s) (coef s)) S)) J.
Proof.
  intros Hm Hs Hc. assert (∀ j s, u16 (GF16Mul (m j) (sym j s))) as Hms by (intros; by apply GF16Mul_range).
  transitivity (xsum (λ s, xsum (λ j, GF16Mul (m j) (GF16Mul (sym j s) (coef s))) J) S).
  - apply xsum_ext. intros s _. rewrite GF16Mul_comm, GF16Mul_xsum by (done || by apply xsum_u16). apply xsum_ext. intros j _.
    rewrite GF16Mul_comm by done. symmetry. by apply GF16Mul_assoc.
  - rewrite xsum_swap. apply xsum_ext. intros j _. rewrite GF16Mul_xsum; [done|done|]. intros s _. by apply GF16Mul_range.
Qed.

Lemma ComputeRow_ok row coeffs : Forall byte_ok row → Forall coeff_ok coeffs → coeff_ok (ComputeRow row coeffs).
Proof.
  intros Hb Hc. destruct (ComputeRow_spec row coeffs Hb Hc) as [Hl Hn]. split; [done|].
  apply Forall_lookup. intros i x Hx. pose proof (lookup_lt_Some _ _ _ Hx). rewrite <- (nth_lookup_Some _ _ 0 _ Hx), Hn by lia.
  apply xsum_u16. intros s _. apply GF16Mul_range; [by apply symbol_range|by apply coeff_component, coeff_nth].
Qed.

Lemma GF128FromLeopard_symbol shard comp : (comp < GF128Width)%nat →
  nth comp (GF128FromLeopard shard) 0 = GF16FromLeopard shard comp.
Proof.
  intros Hc. unfold GF128FromLeopard, GF16FromLeopard.
  rewrite (nth_map_seq 0 (λ i, Z.lor (Z.shiftl (nth (LeopardSymbolsPerChunk + i) shard 0) 8) (nth i shard 0))) by done.
  rewrite Nat.div_small, Nat.mod_small by (unfold GF128Width, LeopardSymbolsPerChunk in *; lia). done.
Qed.

Lemma row_nth len rows j : Forall (row_ok len) rows → Forall byte_ok (nth j rows []).
Proof.
  intros HF. destruct (nth_in_or_default j rows []) as [Hin| ->]; [|constructor].
  apply list_elem_of_In in Hin. eapply Forall_forall in HF as [_ ?]; done.
Qed.

(** Symbol [s] of parity row [p] of the codeword of [data]. *)
Definition parity_symbol (data : list bytes) (p s : nat) : Z :=
  xsum (λ j, GF16Mul (rs_matrix p j) (GF16FromLeopard (nth j data []) s)) (seq 0 K).

Lemma parity_rlc data len coeffs row shard p : data_ok data len → Forall coeff_ok coeffs → row_ok len row →
  (∀ s, (2 * s < len)%nat → GF16FromLeopard row s = parity_symbol data p s) →
  (∀ s, (s < GF128Width)%nat →
    GF16FromLeopard shard s = parity_symbol (map (λ row, GF128ToLeopard (ComputeRow row coeffs)) data) p s) →
  ComputeRow row coeffs = GF128FromLeopard shard.
Proof.
  intros (Hl & HF & Hs) Hc [Hlr Hbr] Hrow Hshard. destruct (ComputeRow_spec row coeffs Hbr Hc) as [C1 C2].
  assert (∀ j, Forall byte_ok (nth j data [])) as Hbd by (intros j; by eapply row_nth).
  apply (list_eq_nth 0 _ _ GF128Width); [done|by unfold GF128FromLeopard; rewrite length_map, length_seq|].
  intros comp Hcomp. rewrite C2, GF128FromLeopard_symbol, Hshard, Hlr by done. set (S := seq 0 (len / chunkSize * symbolsPerChunk)).
  transitivity (xsum (λ s, GF16Mul (parity_symbol data p s) (nth comp (nth s coeffs Zero) 0)) S).
  { apply xsum_ext. intros s Hins. apply elem_of_seq in Hins. rewrite Hrow; [done|].
    pose proof (Nat.div_mod_eq len chunkSize). unfold chunkSize, symbolsPerChunk, LeopardSymbolsPerChunk, LeopardChunkSize in *. lia. }
  unfold parity_symbol.
  rewrite combination_linear; [|intros; apply rs_matrix_range|intros; by apply symbol_range|intros; by apply coeff_component, coeff_nth].
  apply xsum_ext. intros j Hj. apply elem_of_seq in Hj. f_equal. rewrite (nth_map_lt _ []) by lia.
  rewrite <- GF128FromLeopard_symbol, GF128_Leopard by (done || by apply ComputeRow_ok).
  destruct (ComputeRow_spec (nth j data []) coeffs (Hbd j) Hc) as [_ D2]. rewrite D2 by done.
  assert (length (nth j data []) = len) as ->; [|done].
  destruct (lookup_lt_is_Some_2 data j) as [r Hr]; [lia|]. rewrite (nth_lookup_Some _ _ [] _ Hr).
  by apply (Forall_lookup_1 _ _ _ _ HF Hr).
Qed.

(** The combination of a row of a codeword is the row of the codeword of the
    combinations. *)
Lemma codeword_rlc data len rows coeffs shards i : data_ok data len → Forall coeff_ok coeffs →
  RS_Encode (cfg_K cfg) (cfg_N cfg) (input_rows data len) = Ok rows →
  extends cfg (map (λ row, ComputeRow row coeffs) data) shards → (i < K + N)%nat →
  ComputeRow (nth i rows []) coeffs = GF128FromLeopard (nth i shards []).
Proof.
  intros Hd Hc HE Hx Hi. pose proof Hd as (Hl & HF & Hs).
  destruct (RS_Encode_linear data len Hl HF (proj1 Hs) (proj2 Hs)) as (parity & E & Hpl & Hpo & Hsym).
  unfold input_rows, N in HE. rewrite E in HE. injection HE as <-.
  assert (Forall coeff_ok (map (λ row, ComputeRow row coeffs) data)) as Hrlc.
  { apply Forall_map. eapply Forall_impl; [exact HF|]. intros row [_ Hrow]. by apply ComputeRow_ok. }
  unfold extends in Hx. rewrite map_map in Hx. set (rlc := map (λ row, GF128ToLeopard _) data) in *.
  assert (length rlc = K) as Hl' by (unfold rlc; by rewrite length_map).
  destruct (RS_Encode_linear rlc LeopardChunkSize) as (parity' & E' & _ & _ & Hsym').
  { done. }
  { unfold rlc. rewrite <- (map_map (λ row, ComputeRow row coeffs)). apply Forall_map.
    eapply Forall_impl; [exact Hrlc|]. apply GF128ToLeopard_ok. }
  { unfold LeopardChunkSize. lia. }
  { done. }
  change (repeat 0 LeopardChunkSize) with zero_chunk in E'. rewrite E' in Hx. injection Hx as <-.
  destruct (Nat.lt_ge_cases i K) as [HiK|HiK].
  - rewrite !app_nth1 by lia. unfold rlc. rewrite (nth_map_lt _ []), GF128_Leopard; [done| |lia].
    apply ComputeRow_ok; [by eapply row_nth|done].
  - rewrite !app_nth2 by lia. rewrite Hl, Hl'. assert (i - K < N)%nat as Hp by lia.
    apply (parity_rlc data len coeffs _ _ (i - K) Hd Hc).
    + destruct (lookup_lt_is_Some_2 parity (i - K)) as [r Hr]; [unfold N in Hp; lia|].
      rewrite (nth_lookup_Some _ _ [] _ Hr). by eapply Forall_lookup_1 in Hpo.
    + intros s H2. by apply Hsym.
    + intros s H8. apply Hsym'; [done|]. unfold GF128Width, LeopardChunkSize in *. lia.
Qed.

(** ** Honest proofs *)

Section Honest.
Context (data : list bytes) (len : nat) (ed : ExtendedData) (Hdata : data_ok data len) (Hed : encoded data len ed).

Lemma encoded_rows : ∃ parity, ed_rows ed = data ++ parity ∧ length (ed_rows ed) = (K + N)%nat ∧ Forall (row_ok len) (ed_rows ed).
Proof.
  destruct Hdata as (Hl & HF & Hs). destruct (RS_Encode_linear data len Hl HF (proj1 Hs) (proj2 Hs)) as (parity & E & Hpl & Hpo & _).
  pose proof (en_rows _ _ _ Hed) as HE. unfold input_rows, N in HE. rewrite E in HE. injection HE as <-. exists parity.
  split; [done|]. split; [by rewrite length_app, Hl, Hpl|by apply Forall_app_2].
Qed.

Lemma encoded_rlc_ok : Forall coeff_ok (ed_rlc ed) ∧ Z.of_nat (length (ed_rlc ed)) = cfg_K cfg.
Proof.
  destruct Hdata as (Hl & HF & _). destruct (shape_nat _ _ _ Hcfg) as (_ & _ & HK & _). rewrite (en_rlc _ _ _ Hed). split.
  - apply Forall_map. eapply Forall_impl; [exact HF|]. intros row [_ Hrow]. apply ComputeRow_ok; [done|apply derived_ok].
  - rewrite length_map, Hl. unfold K. lia.
Qed.

Lemma encoded_rlcRoot : computeRLCRoot cfg (ed_rlc ed) = Ok (Root (ed_rlcTree ed)).
Proof.
  unfold computeRLCRoot. rewrite (shape_K _ _ _ Hcfg). apply RootFromFunc_root; [apply Hed|].
  by rewrite repeat_length, pow2_nat.
Qed.

Lemma GenerateRowProof_Ok i : 0 <= i < cfg_K cfg + cfg_N cfg →
  ∃ p, GenerateRowProof ed i = Ok p ∧ rp_Index p = i ∧ rp_Row p = nth (Z.to_nat i) (ed_rows ed) [] ∧
    length (rp_RowProof p) = b ∧ RootFromProof (rp_Row p) i (rp_RowProof p) = Ok (Root (ed_rowsTree ed)).
Proof.
  intros Hi. unfold GenerateRowProof. rewrite (en_config _ _ _ Hed).
  destruct (Z.ltb_spec i 0); [lia|]. destruct (Z.leb_spec (cfg_K cfg + cfg_N cfg) i); [lia|]. cbn [orb negb ensure mbind result_bind].
  destruct (proof_correct b _ _ (Z.to_nat i) (en_tree _ _ _ Hed)) as (path & HP & Hlen & Hroot).
  { rewrite (shape_total _ _ _ Hcfg) in Hi. rewrite <- pow2_nat. lia. }
  rewrite Z2Nat.id in HP, Hroot by lia. rewrite HP. cbn [mbind result_bind].
  destruct encoded_rows as (_ & _ & Hlr & _). destruct (lookup_lt_is_Some_2 (ed_rows ed) (Z.to_nat i)) as [row Hrow].
  { rewrite Hlr. unfold K, N. lia. }
  rewrite (proj2 (index_Ok _ _ _) Hrow). cbn [mbind result_bind]. eexists. split; [done|]. cbn.
  rewrite (nth_lookup_Some _ _ _ _ Hrow) in Hroot |- *. done.
Qed.

(** The proof the coder hands out for an index. *)
Definition honest (p : RowProof) : Prop := GenerateRowProof ed (rp_Index p) = Ok p.

Lemma GenerateRowProof_inv i p : GenerateRowProof ed i = Ok p → 0 <= i < cfg_K cfg + cfg_N cfg ∧ rp_Index p = i.
Proof.
  unfold GenerateRowProof. rewrite (en_config _ _ _ Hed). intros H. inv_ok. subst. cbn.
  apply negb_true_iff, orb_false_iff in Hr as [?%Z.ltb_ge ?%Z.leb_gt]. lia.
Qed.

Lemma honest_row shards p : extends cfg (ed_rlc ed) shards → honest p →
  row_accepted cfg b shards (Root (ed_rowsTree ed)) len p.
Proof.
  intros Hx Hp. destruct (GenerateRowProof_inv _ _ Hp) as [Hi _].
  destruct (GenerateRowProof_Ok (rp_Index p) Hi) as (q & Hq & Hqi & Hrow & Hlen & Hroot).
  unfold honest in Hp. rewrite Hp in Hq. injection Hq as <-.
  destruct encoded_rows as (parity & Erows & Hlr & HFr).
  assert (Z.to_nat (rp_Index p) < K + N)%nat as Hlt by (unfold K, N; lia).
  split; [done| |done|done|].
  - rewrite Hrow. destruct (lookup_lt_is_Some_2 (ed_rows ed) (Z.to_nat (rp_Index p))) as [row Hr]; [lia|].
    rewrite (nth_lookup_Some _ _ _ _ Hr). by apply (Forall_lookup_1 _ _ _ _ HFr Hr).
  - rewrite Hrow. rewrite (en_rlc _ _ _ Hed) in Hx. eapply codeword_rlc; [done|apply derived_ok|apply Hed|done|done].
Qed.

Lemma honest_bytes ps : Forall honest ps → bytes_ok ps.
Proof.
  intros HF. eapply Forall_impl; [exact HF|]. intros p Hp. destruct (GenerateRowProof_inv _ _ Hp) as [Hi _].
  destruct (GenerateRowProof_Ok (rp_Index p) Hi) as (q & Hq & _ & Hrow & _).
  unfold honest in Hp. rewrite Hp in Hq. injection Hq as <-. rewrite Hrow. destruct encoded_rows as (_ & _ & _ & HFr). by eapply row_nth.
Qed.

(** Every batch of honest proofs is accepted. *)
Lemma honest_batch ps : ps ≠ [] → Forall honest ps → ∃ shards,
  batch_accepted cfg b (ed_commitment ed) (ed_rlc ed) ps (Root (ed_rowsTree ed)) (Root (ed_rlcTree ed)) len shards.
Proof.
  intros Hne HF. destruct encoded_rlc_ok as [Hrlc Hlr].
  destruct (setRLC_spec order Horder cfg a b Hcfg (mkVerifier cfg [] None [] [] 0) (ed_rlc ed) eq_refl Hrlc Hlr) as (root & shards & v & _ & Hv & _).
  pose proof (rd_extends _ _ _ _ _ Hv) as Hx. exists shards. split; [done|done|done|apply encoded_rlcRoot|apply Hed|apply Hdata|].
  eapply Forall_impl; [exact HF|]. intros p. by apply honest_row.
Qed.

Lemma honest_verify procs v ps : v_config v = cfg → ps ≠ [] → Forall honest ps →
  (Verify order procs v (ed_commitment ed) (map Some ps) (ed_rlc ed)).1 = Ok tt.
Proof.
  intros Hv Hne HF. destruct (honest_batch ps Hne HF) as [sh HA]. destruct encoded_rlc_ok as [Hrlc _].
  assert (proofs_ok (map Some ps)) as Hb by (unfold proofs_ok; rewrite omap_id_Some; by apply honest_bytes).
  pose proof (Verify_accepts order Horder cfg a b Hcfg procs v (ed_commitment ed) (map Some ps) _ Hv Hrlc Hb) as HV.
  destruct (Verify order procs v (ed_commitment ed) (map Some ps) (ed_rlc ed)) as [res v']. destruct HV as (_ & Hiff & _).
  apply Hiff. by exists ps, (Root (ed_rowsTree ed)), (Root (ed_rlcTree ed)), len, sh.
Qed.

(** ** Batches and standalone proofs *)

Lemma RowProofs_Ok indices : Forall (λ i, 0 <= i < cfg_K cfg + cfg_N cfg) indices →
  ∃ ps, RowProofs ed indices = (ps, Ok tt) ∧ Forall2 (λ i p, GenerateRowProof ed i = Ok p) indices ps.
Proof.
  unfold RowProofs. induction 1 as [|i indices Hi HF IH]; [by exists []|]. cbn [Proofs].
  destruct (GenerateRowProof_Ok i Hi) as (p & Hp & Hpi & Hrow & _). pose proof Hp as Hg. unfold GenerateRowProof, Proof in Hg. inv_ok.
  rewrite Hr0. destruct (Proofs (ed_rowsTree ed) indices) as [l r'] eqn:E. destruct IH as (ps & [= <- ->] & HF2). eexists. split; [done|].
  constructor; [|done]. rewrite Hp. subst p. cbn in Hrow |- *. by rewrite Hrow.
Qed.

Lemma standalone_accepted i : 0 <= i < cfg_K cfg → Config_Validate cfg = Ok tt →
  ∃ p, GenerateStandaloneProof ed i = Ok p ∧ VerifyStandaloneProof order (Some p) (ed_commitment ed) cfg = Ok tt.
Proof.
  intros Hi Hval. destruct (shape_nat _ _ _ Hcfg) as (_ & _ & HK & HN & _). destruct (shape_depth _ _ _ Hcfg) as [D1 D2].
  destruct (GenerateRowProof_Ok i ltac:(lia)) as (q & Hq & Hqi & Hrow & Hlen & Hroot).
  destruct (proof_correct a _ _ (Z.to_nat i) (en_rlcTree _ _ _ Hed)) as (path & HP & Hpl & Hpr).
  { rewrite (shape_K _ _ _ Hcfg) in Hi. rewrite <- pow2_nat. lia. }
  rewrite Z2Nat.id in HP, Hpr by lia.
  unfold GenerateStandaloneProof. rewrite (en_config _ _ _ Hed). destruct (Z.leb_spec (cfg_K cfg) i); [lia|].
  cbn [negb ensure mbind result_bind]. rewrite Hq. cbn [mbind result_bind]. rewrite HP. cbn [mbind result_bind].
  eexists. split; [done|]. unfold VerifyStandaloneProof. rewrite Hval. cbn [mbind result_bind]. rewrite Hqi.
  destruct (Z.ltb_spec i 0); [lia|]. destruct (Z.leb_spec (cfg_K cfg) i); [lia|]. cbn [orb negb ensure mbind result_bind].
  rewrite D1, D2, Hlen, Hpl, !Z.eqb_refl. cbn [ensure mbind result_bind]. rewrite Hroot. cbn [mbind result_bind].
  rewrite DeriveCoefficients_derived by done.
  destruct encoded_rows as (parity & Erows & Hlr & HFr). destruct Hdata as (Hl & HFd & _).
  assert (Z.to_nat i < K)%nat as HiK by (unfold K; lia).
  assert (rp_Row q = nth (Z.to_nat i) data []) as Hqd by (rewrite Hrow, Erows; apply app_nth1; lia).
  destruct (lookup_lt_is_Some_2 data (Z.to_nat i)) as [row Hlk]; [lia|]. rewrite (nth_lookup_Some _ _ _ _ Hlk) in Hqd.
  rewrite Hqd, (proj1 (Forall_lookup_1 _ _ _ _ HFd Hlk)). fold (coeffs_of cfg (Root (ed_rowsTree ed)) len).
  assert (nth (Z.to_nat i) (ed_rlc ed) Zero = ComputeRow row (coeffs_of cfg (Root (ed_rowsTree ed)) len)) as Hrl.
  { rewrite (en_rlc _ _ _ Hed). apply nth_lookup_Some. by rewrite list_lookup_fmap, Hlk. }
  rewrite <- Hrl, Hpr. cbn [mbind result_bind]. rewrite <- (en_commitment _ _ _ Hed). by rewrite bool_decide_true.
Qed.
End Honest.
End Encoding.
