(* ===== verification/Rsema1dCollect.v ===== *)
(** * Collecting rows

    [pkg/rsema1d/reconstructor.go] under concurrent calls of [Add]: the calls
    interleave between the verification of a batch and the marking of its
    indices. Each index is handed out once, the rows handed out are accepted
    against the commitment, and for the commitment of encoded data
    reconstruction returns that data. *)

From S2P Require Import Prelude Sdk Merkle MerkleProofs Rlc RlcProofs Rsema1d Rsema1dProofs Rsema1dEncode.
#[local] Open Scope Z_scope.

Section Collecting.
Context `{CR : Crypto} `{SL : !Sha256Laws} `{GF : GF16} `{GL : !GF16Laws} `{RS : ReedSolomon}.
Context (order : nat → list nat) (Horder : order_ok order) (procs : Z).
Context (cfg : Config) (a b : nat) (Hcfg : shape cfg a b) `{RL : !ReedSolomonLaws (cfg_K cfg) (cfg_N cfg)}.
Context (commitment : bytes).

Let total := Z.to_nat (cfg_K cfg + cfg_N cfg).

(** ** Calls of [Add] in flight *)

(** The collector, the batches verified but not yet marked, the rows handed out
    so far, and the combinations and the batch of the call that verified
    first. *)
Record Collect := mkCollect {
  c_r : Reconstructor;
  c_pending : list (list RowProof);
  c_taken : list RowProof;
  c_rlc : list (list Z);
  c_first : list RowProof;
}.

Inductive cstep : Collect → Collect → Prop :=
  | cstep_verified c proofs rlc r' :
      Forall coeff_ok rlc → proofs_ok proofs →
      Reconstructor_verify order procs (c_r c) rlc proofs = (Ok tt, r') →
      cstep c (mkCollect r' (omap id proofs :: c_pending c) (c_taken c)
                 (if r_verifierRLC (c_r c) then c_rlc c else rlc)
                 (if r_verifierRLC (c_r c) then c_first c else omap id proofs))
  | cstep_refused c proofs rlc res r' :
      Forall coeff_ok rlc → proofs_ok proofs →
      Reconstructor_verify order procs (c_r c) rlc proofs = (res, r') → is_ok res = false →
      cstep c (mkCollect r' (c_pending c) (c_taken c) (c_rlc c) (c_first c))
  | cstep_mark c before batch after novel r' :
      c_pending c = before ++ batch :: after → addVerified (c_r c) batch = (novel, r') →
      cstep c (mkCollect r' (before ++ after) (c_taken c ++ novel) (c_rlc c) (c_first c)).

Definition collected (c : Collect) : Prop :=
  ∃ r, NewReconstructor cfg commitment = Ok r ∧ rtc cstep (mkCollect r [] [] [] []) c.

(** ** Marking *)

Definition indices (ps : list RowProof) : list nat := map (λ p, Z.to_nat (rp_Index p)) ps.

(** Row [i] is seen. *)
Definition seen (r : Reconstructor) (i : nat) : Prop := nth i (r_seen r) false = true.

Lemma nth_insert_bool (l : list bool) i j : (i < length l)%nat →
  nth j (<[i := true]> l) false = (if decide (i = j) then true else nth j l false).
Proof.
  intros Hi. rewrite !nth_lookup. destruct (decide (i = j)) as [->|Hne].
  - by rewrite list_lookup_insert_eq.
  - by rewrite list_lookup_insert_ne.
Qed.

(** The fields that marking leaves alone. *)
Definition same_verifier (r r' : Reconstructor) : Prop :=
  r_config r' = r_config r ∧ r_commitment r' = r_commitment r ∧
  r_verifierRLC r' = r_verifierRLC r ∧ r_verifier r' = r_verifier r.

Lemma addVerified_spec batch : ∀ r novel r', addVerified r batch = (novel, r') →
  Forall (λ p, (Z.to_nat (rp_Index p) < length (r_seen r))%nat) batch →
  same_verifier r r' ∧ length (r_seen r') = length (r_seen r) ∧ r_have r' = r_have r + Z.of_nat (length novel) ∧
  NoDup (indices novel) ∧ (∀ p, p ∈ novel → p ∈ batch) ∧
  (∀ i, i ∈ indices novel → ¬ seen r i) ∧ (∀ i, seen r' i ↔ seen r i ∨ i ∈ indices novel).
Proof.
  induction batch as [|p batch IH]; intros r novel r' H HF; cbn [addVerified] in H.
  - injection H as <- <-. split; [done|]. split; [done|]. split; [cbn; lia|]. split; [constructor|]. split; [done|].
    split; [by intros i ?%not_elem_of_nil|]. intros i. split; [by left|]. by intros [|?%not_elem_of_nil].
  - apply Forall_cons in HF as [Hp HF]. destruct (nth (Z.to_nat (rp_Index p)) (r_seen r) false) eqn:E.
    { destruct (IH _ _ _ H HF) as (? & ? & ? & ? & Hsub & ? & ?). split_and!; try done. intros q Hq. right. by apply Hsub. }
    set (r1 := mkReconstructor _ _ _ _ _ _) in H. destruct (addVerified r1 batch) as [novel1 r2] eqn:E1. injection H as <- <-.
    assert (∀ i, seen r1 i ↔ seen r i ∨ i = Z.to_nat (rp_Index p)) as Hs1.
    { intros i. unfold seen, r1. cbn [r_seen]. rewrite nth_insert_bool by done. destruct (decide _) as [<-|Hne]; [tauto|].
      split; [by left|]. intros [Hx|Hx]; [done|by subst]. }
    destruct (IH _ _ _ E1) as ((S1 & S2 & S3 & S4) & L & Hh & Hnd & Hsub & Hnew & Hseen).
    { unfold r1. cbn [r_seen]. rewrite length_insert. done. }
    split; [done|]. split; [rewrite L; unfold r1; cbn [r_seen]; apply length_insert|].
    split; [rewrite Hh; unfold r1; cbn [r_have length]; lia|]. split.
    { cbn. constructor; [|done]. intros Hin. apply (Hnew _ Hin), Hs1. by right. }
    split; [intros q [->|Hq]%elem_of_cons; [by left|right; by apply Hsub]|]. split.
    + intros i [->|Hi]%elem_of_cons Hsn; [unfold seen in Hsn; congruence|]. apply (Hnew i Hi), Hs1. by left.
    + intros i. rewrite Hseen, Hs1. cbn. rewrite elem_of_cons. tauto.
Qed.

Lemma addVerified_marks batch : ∀ r novel r', addVerified r batch = (novel, r') →
  Forall (λ p, (Z.to_nat (rp_Index p) < length (r_seen r))%nat) batch → ∀ p, p ∈ batch → seen r' (Z.to_nat (rp_Index p)).
Proof.
  induction batch as [|q batch IH]; intros r novel r' H HF p Hp; [by apply not_elem_of_nil in Hp|]. pose proof HF as HF0.
  apply Forall_cons in HF as [Hq HF]. pose proof (addVerified_spec (q :: batch) _ _ _ H HF0) as (_ & _ & _ & _ & _ & _ & Hseen). cbn [addVerified] in H.
  destruct (nth (Z.to_nat (rp_Index q)) (r_seen r) false) eqn:E.
  - apply elem_of_cons in Hp as [->|Hp]; [apply Hseen; by left|by eapply IH].
  - set (r1 := mkReconstructor _ _ _ _ _ _) in H. destruct (addVerified r1 batch) as [n1 r2] eqn:E1. injection H as <- <-.
    apply elem_of_cons in Hp as [->|Hp]; [apply Hseen; right; by left|]. eapply (IH r1); [done| |done].
    unfold r1. cbn [r_seen]. by rewrite length_insert.
Qed.

(** ** The invariant *)

(** The verifier holds the combinations that a first batch validated. *)
Definition installed (r : Reconstructor) (rlc : list (list Z)) (ps : list RowProof) : Prop :=
  Forall coeff_ok rlc ∧ ∃ rowRoot rlcRoot rowSize shards,
    batch_accepted cfg b commitment rlc ps rowRoot rlcRoot rowSize shards ∧
    ready cfg (r_verifier r) rlc rlcRoot shards ∧ v_rlcCoeffs (r_verifier r) = Some (coeffs_of cfg rowRoot rowSize) ∧
    v_coeffsRowRoot (r_verifier r) = rowRoot ∧ v_coeffsRowSize (r_verifier r) = rowSize.

(** A row of an accepted batch. *)
Definition opened (rlc : list (list Z)) (p : RowProof) : Prop :=
  ∃ ps rowRoot rlcRoot rowSize shards, batch_accepted cfg b commitment rlc ps rowRoot rlcRoot rowSize shards ∧ p ∈ ps.

(** The verified rows have the size the coefficients were derived for. *)
Definition sized (r : Reconstructor) (p : RowProof) : Prop := length (rp_Row p) = v_coeffsRowSize (r_verifier r).

Record cinv (c : Collect) : Prop := {
  ci_config : r_config (c_r c) = cfg;
  ci_commitment : r_commitment (c_r c) = commitment;
  ci_verifier : v_config (r_verifier (c_r c)) = cfg;
  ci_installed : if r_verifierRLC (c_r c) then installed (c_r c) (c_rlc c) (c_first c) else c_pending c = [] ∧ c_taken c = [];
  ci_pending : Forall (Forall (opened (c_rlc c))) (c_pending c);
  ci_taken : Forall (opened (c_rlc c)) (c_taken c);
  ci_rows : Forall (sized (c_r c)) (c_taken c ++ concat (c_pending c));
  ci_size : length (r_seen (c_r c)) = total;
  ci_unique : NoDup (indices (c_taken c));
  ci_seen i : seen (c_r c) i ↔ i ∈ indices (c_taken c);
  ci_have : r_have (c_r c) = Z.of_nat (length (c_taken c));
}.

Lemma opened_index rlc p : opened rlc p → 0 <= rp_Index p < cfg_K cfg + cfg_N cfg.
Proof. intros (ps & ? & ? & ? & ? & HA & Hp). by apply (proj1 (Forall_forall _ _) (ba_rows _ _ _ _ _ _ _ _ _ HA) p Hp). Qed.

Lemma NewReconstructor_inv r : NewReconstructor cfg commitment = Ok r → cinv (mkCollect r [] [] [] []).
Proof.
  unfold NewReconstructor, NewVerifier. destruct (Config_Validate cfg) as [u| |]; try discriminate. intros [= <-].
  split; cbn; try done; try constructor.
  - apply repeat_length.
  - intros Hs. exfalso. unfold seen in Hs. cbn in Hs. by rewrite nth_repeat in Hs.
  - intros ?%not_elem_of_nil. done.
Qed.

(** The outcome of verifying a batch. *)
Lemma Reconstructor_verify_inv c rlc proofs res r' : cinv c → Forall coeff_ok rlc → proofs_ok proofs →
  Reconstructor_verify order procs (c_r c) rlc proofs = (res, r') →
  r_config r' = cfg ∧ r_commitment r' = commitment ∧ v_config (r_verifier r') = cfg ∧
  r_seen r' = r_seen (c_r c) ∧ r_have r' = r_have (c_r c) ∧
  let rlc' := if r_verifierRLC (c_r c) then c_rlc c else rlc in
  let first' := if r_verifierRLC (c_r c) then c_first c else omap id proofs in
  (r_verifierRLC (c_r c) = true → v_coeffsRowSize (r_verifier r') = v_coeffsRowSize (r_verifier (c_r c))) ∧
  (res = Ok tt → r_verifierRLC r' = true ∧ installed r' rlc' first' ∧ Forall (λ p, opened rlc' p ∧ sized r' p) (omap id proofs)) ∧
  (is_ok res = false → r_verifierRLC r' = r_verifierRLC (c_r c) ∧ (r_verifierRLC (c_r c) = true → installed r' (c_rlc c) (c_first c))).
Proof.
  intros Hc Hrlc Hb H. unfold Reconstructor_verify in H. pose proof (ci_installed _ Hc) as Hi.
  rewrite (ci_commitment _ Hc) in H. cbv zeta. destruct (r_verifierRLC (c_r c)).
  - destruct Hi as (Hco & rr & rl & rs & sh & HA & Hrd & Hcc & Hc1 & Hc2).
    pose proof (VerifyShared_ready order Horder cfg a b Hcfg procs _ _ _ _ commitment proofs Hrd Hco Hb) as HS.
    destruct (VerifyShared order procs (r_verifier (c_r c)) commitment proofs) as [res' v] eqn:E. injection H as <- <-.
    destruct HS as (Hrd' & Hiff & Hok). unfold with_verifier. cbn [r_config r_commitment r_verifier r_seen r_have r_verifierRLC].
    split; [apply Hc|]. split; [apply Hc|]. split; [apply Hrd'|]. do 2 (split; [done|]).
    pose proof (VerifyShared_reads order procs _ commitment proofs _ Hcc) as Hsame. rewrite E in Hsame. cbn in Hsame. subst v.
    assert (installed (mkReconstructor (r_config (c_r c)) (r_commitment (c_r c)) true (r_verifier (c_r c)) (r_seen (c_r c)) (r_have (c_r c))) (c_rlc c) (c_first c)) as HI.
    { split; [done|]. by exists rr, rl, rs, sh. }
    split; [done|]. split; [|done]. intros Hr. split; [done|]. split; [done|]. apply Hiff in Hr as (qs & rr' & rs' & -> & Hca & HA').
    rewrite omap_id_Some. apply Forall_forall. intros p Hp. split; [by exists qs, rr', rl, rs', sh|].
    pose proof (proj1 (Forall_forall _ _) (ba_rows _ _ _ _ _ _ _ _ _ HA') p Hp) as Hra. unfold sized. cbn [r_verifier].
    rewrite (ra_size _ _ _ _ _ _ Hra). unfold cached in Hca. rewrite Hcc in Hca. by destruct Hca.
  - pose proof (Verify_accepts order Horder cfg a b Hcfg procs _ commitment proofs rlc (ci_verifier _ Hc) Hrlc Hb) as HV.
    destruct (Verify order procs (r_verifier (c_r c)) commitment proofs rlc) as [res' v] eqn:E. injection H as <- <-.
    destruct HV as (Hv' & Hiff & Hok). unfold with_verifier. cbn [r_config r_commitment r_verifier r_seen r_have r_verifierRLC].
    split; [apply Hc|]. split; [apply Hc|]. split; [done|]. do 2 (split; [done|]). split; [done|]. split.
    + intros Hr. destruct (Hok Hr) as (ps & rr & rl & rs & sh & -> & HA & Hrd & V). rewrite Hr, omap_id_Some. split; [done|].
      split; [split; [done|]; by exists rr, rl, rs, sh|]. apply Forall_forall. intros p Hp. split; [by exists ps, rr, rl, rs, sh|].
      pose proof (proj1 (Forall_forall _ _) (ba_rows _ _ _ _ _ _ _ _ _ HA) p Hp) as Hra. unfold sized. cbn [r_verifier].
      rewrite (ra_size _ _ _ _ _ _ Hra). by destruct V as (_ & _ & ->).
    + intros Hr. split; [|done]. by destruct res'.
Qed.

Lemma sized_kept c r' : cinv c → (r_verifierRLC (c_r c) = true → v_coeffsRowSize (r_verifier r') = v_coeffsRowSize (r_verifier (c_r c))) →
  Forall (sized r') (c_taken c ++ concat (c_pending c)).
Proof.
  intros Hc Hs. pose proof (ci_installed _ Hc) as Hi. destruct (r_verifierRLC (c_r c)).
  - unfold sized. rewrite Hs by done. apply Hc.
  - destruct Hi as [-> ->]. constructor.
Qed.

Lemma cstep_inv c c' : cinv c → cstep c c' → cinv c'.
Proof.
  intros Hc Hs. destruct Hs as [c proofs rlc r' Hrlc Hb HV|c proofs rlc res r' Hrlc Hb HV Hno|c before batch after novel r' Hp HA].
  - destruct (Reconstructor_verify_inv c rlc proofs _ r' Hc Hrlc Hb HV) as (R1 & R2 & R3 & R4 & R5 & R6 & Hok & _).
    destruct (Hok eq_refl) as (Hf & Hi & [Ho Hsz]%Forall_and). set (rlc' := if r_verifierRLC (c_r c) then c_rlc c else rlc) in *.
    assert (Forall (Forall (opened rlc')) (c_pending c) ∧ Forall (opened rlc') (c_taken c)) as [HP HT].
    { unfold rlc'. pose proof (ci_installed _ Hc) as Hin. destruct (r_verifierRLC (c_r c)); [split; apply Hc|].
      destruct Hin as [-> ->]. split; constructor. }
    pose proof (sized_kept c r' Hc R6) as [S1 S2]%Forall_app.
    split; cbn; try done; unfold seen; rewrite ?R4, ?R5, ?Hf; try apply Hc; [done|by constructor|].
    apply Forall_app. split; [done|]. by apply Forall_app.
  - destruct (Reconstructor_verify_inv c rlc proofs _ r' Hc Hrlc Hb HV) as (R1 & R2 & R3 & R4 & R5 & R6 & _ & Hbad).
    destruct (Hbad Hno) as (Hf & Hi). pose proof (sized_kept c r' Hc R6). split; cbn; try done; unfold seen; rewrite ?R4, ?R5, ?Hf; try apply Hc.
    pose proof (ci_installed _ Hc). destruct (r_verifierRLC (c_r c)); [by apply Hi|done].
  - pose proof (ci_pending _ Hc) as HP. rewrite Hp in HP. apply Forall_app in HP as [HP1 HP2]. apply Forall_cons in HP2 as [HPb HP2].
    destruct (addVerified_spec batch _ _ _ HA) as ((S1 & S2 & S3 & S4) & L & Hh & Hnd & Hsub & Hnew & Hseen).
    { eapply Forall_impl; [exact HPb|]. intros p Hop%opened_index. rewrite (ci_size _ Hc). unfold total. lia. }
    pose proof (ci_installed _ Hc) as Hin.
    split; cbn; rewrite ?S1, ?S2, ?S3, ?S4; try apply Hc.
    + destruct (r_verifierRLC (c_r c)); [|by destruct Hin as [Hin _]; rewrite Hp in Hin; apply app_eq_nil in Hin as [_ ?]].
      unfold installed. by rewrite S4.
    + by apply Forall_app.
    + apply Forall_app. split; [apply Hc|]. apply Forall_forall. intros p Hin'. apply (proj1 (Forall_forall _ _) HPb), Hsub, Hin'.
    + pose proof (ci_rows _ Hc) as HR. rewrite Hp, concat_app in HR. cbn in HR. unfold sized in *. rewrite S4. rewrite concat_app.
      rewrite !Forall_app in *. destruct HR as (? & ? & HR & ?). split_and!; try done.
      apply Forall_forall. intros p Hin'. apply (proj1 (Forall_forall _ _) HR), Hsub, Hin'.
    + rewrite L. apply Hc.
    + unfold indices. rewrite map_app. apply NoDup_app. split; [apply Hc|]. split; [|done].
      intros i Hi Hi'. apply (Hnew i Hi'). by apply (ci_seen _ Hc).
    + intros i. rewrite Hseen, (ci_seen _ Hc). unfold indices. by rewrite map_app, elem_of_app.
    + rewrite Hh, (ci_have _ Hc), length_app. lia.
Qed.

Lemma collected_inv c : collected c → cinv c.
Proof.
  intros (r & Hr & Hs). apply NewReconstructor_inv in Hr. revert Hr. induction Hs as [|c1 c2 c3 H1 _ IH]; [done|].
  intros Hc. apply IH. by eapply cstep_inv.
Qed.

(** ** Reconstruction *)

(** The caller's buffer: the rows handed out, at their indices. *)
Definition place (taken : list RowProof) : list (option bytes) :=
  foldl (λ rows p, <[Z.to_nat (rp_Index p) := Some (rp_Row p)]> rows) (repeat None total) taken.

Lemma place_snoc taken p : place (taken ++ [p]) = <[Z.to_nat (rp_Index p) := Some (rp_Row p)]> (place taken).
Proof. unfold place. by rewrite foldl_app. Qed.

Lemma length_place taken : length (place taken) = total.
Proof.
  induction taken as [|p taken IH] using rev_ind; [apply repeat_length|]. by rewrite place_snoc, length_insert.
Qed.

Lemma place_lookup taken i row : place taken !! i = Some (Some row) →
  ∃ p, p ∈ taken ∧ Z.to_nat (rp_Index p) = i ∧ rp_Row p = row.
Proof.
  induction taken as [|p taken IH] using rev_ind.
  { intros H. apply list_elem_of_lookup_2, list_elem_of_In, repeat_spec in H. done. }
  rewrite place_snoc. destruct (decide (Z.to_nat (rp_Index p) = i)) as [<-|Hne].
  - destruct (decide (Z.to_nat (rp_Index p) < length (place taken))%nat) as [Hlt|Hge].
    + rewrite list_lookup_insert_eq by done. intros [= <-]. exists p. split; [set_solver|done].
    + rewrite list_insert_ge by lia. intros H%lookup_lt_Some. lia.
  - rewrite list_lookup_insert_ne by done. intros (q & Hq & ?)%IH. exists q. split; [set_solver|done].
Qed.

Lemma place_none taken i : (i < total)%nat → i ∉ indices taken → place taken !! i = Some None.
Proof.
  intros Hi. induction taken as [|p taken IH] using rev_ind; intros Hn.
  { unfold place. cbn. destruct (lookup_lt_is_Some_2 (repeat (None : option bytes) total) i) as [x Hx]; [by rewrite repeat_length|].
    rewrite Hx. by apply list_elem_of_lookup_2, list_elem_of_In, repeat_spec in Hx as ->. }
  unfold indices in Hn. rewrite map_app in Hn. cbn in Hn. rewrite place_snoc, list_lookup_insert_ne by set_solver.
  apply IH. unfold indices. set_solver.
Qed.

Lemma omap_insert_length (l : list (option bytes)) i x : l !! i = Some None →
  length (omap id (<[i := Some x]> l)) = S (length (omap id l)).
Proof.
  revert i. induction l as [|o l IH]; intros [|i] H; cbn in H; try done.
  - injection H as ->. done.
  - cbn. destruct o; cbn; by rewrite IH.
Qed.

Lemma place_count taken : NoDup (indices taken) → Forall (λ i, (i < total)%nat) (indices taken) →
  length (omap id (place taken)) = length taken.
Proof.
  induction taken as [|p taken IH] using rev_ind; intros Hnd HF.
  { unfold place. cbn [foldl]. generalize total. intros n. induction n as [|n IHn]; [done|exact IHn]. }
  unfold indices in *. rewrite map_app in Hnd, HF. apply NoDup_app in Hnd as (Hnd & Hdis & _).
  apply Forall_app in HF as [HF HF2]. apply Forall_cons in HF2 as [Hp _]. rewrite place_snoc, omap_insert_length, length_app.
  - rewrite IH by done. cbn. lia.
  - apply place_none; [done|]. intros Hin. by apply (Hdis _ Hin), list_elem_of_singleton.
Qed.

Lemma Forall_or_exists {A} (P Q : A → Prop) (l : list A) : (∀ x, x ∈ l → P x ∨ Q x) → (∀ x, x ∈ l → P x) ∨ ∃ x, x ∈ l ∧ Q x.
Proof.
  induction l as [|x l IH]; intros H; [left; by intros ? ?%not_elem_of_nil|].
  destruct (H x ltac:(by left)) as [Hx|Hx]; [|right; exists x; split; [by left|done]].
  destruct IH as [Hl|(y & Hy & HQ)]; [intros y Hy; apply H; by right| |right; exists y; split; [by right|done]].
  left. intros y [->|Hy]%elem_of_cons; auto.
Qed.

(** A row handed out is the coder's row at its index, or the two open to the
    commitment with a collision. *)
Lemma taken_original c data len ed p : cinv c → data_ok cfg data len → encoded cfg a b data len ed → ed_commitment ed = commitment → p ∈ c_taken c →
  ed_rows ed !! Z.to_nat (rp_Index p) = Some (rp_Row p) ∨
  ∃ q, honest ed q ∧ rp_Index q = rp_Index p ∧ colliding (opening cfg (c_rlc c) p) (opening cfg (ed_rlc ed) q).
Proof.
  intros Hc Hd He Hcm Hp. pose proof (proj1 (Forall_forall _ _) (ci_taken _ Hc) p Hp) as Ho. pose proof (opened_index _ _ Ho) as Hi.
  destruct Ho as (ps & rr & rl & rs & sh & HA & Hin).
  destruct (GenerateRowProof_Ok cfg a b Hcfg data len ed Hd He (rp_Index p) Hi) as (q & Hq & Hqi & Hrow & _).
  assert (honest ed q) as Hh by (unfold honest; by rewrite Hqi).
  destruct (honest_batch order Horder cfg a b Hcfg data len ed Hd He [q]) as [sh' HA']; [done|by constructor|].
  rewrite Hcm in HA'.
  destruct (accepted_binding cfg b commitment _ _ _ _ _ _ _ _ _ _ _ _ p q HA HA' Hin ltac:(by left) (eq_sym Hqi)) as [(Er & _)|Hcol];
    [left|right; by exists q].
  rewrite Er, Hrow. destruct (encoded_rows cfg a b data len ed Hd He) as (_ & _ & Hl & _).
  destruct (lookup_lt_is_Some_2 (ed_rows ed) (Z.to_nat (rp_Index p))) as [row Hlk]; [rewrite Hl; lia|].
  by rewrite (nth_lookup_Some _ _ _ _ Hlk).
Qed.

(** With K rows handed out, reconstruction returns the data whose encoding has
    the commitment; otherwise the opening of a row handed out and the coder's
    opening of the same index hash different strings to one value. *)
Lemma reconstruct_original c data len ed : cinv c → data_ok cfg data len → encoded cfg a b data len ed →
  ed_commitment ed = commitment → Want (c_r c) = 0 →
  (∃ out, Reconstruct (c_r c) (place (c_taken c)) = Ok out ∧ take (Z.to_nat (cfg_K cfg)) out = map Some data) ∨
  ∃ p q, p ∈ c_taken c ∧ honest ed q ∧ rp_Index q = rp_Index p ∧ colliding (opening cfg (c_rlc c) p) (opening cfg (ed_rlc ed) q).
Proof.
  intros Hc Hd He Hcm Hw. pose proof (ci_taken _ Hc) as HT.
  destruct (Forall_or_exists (λ p, ed_rows ed !! Z.to_nat (rp_Index p) = Some (rp_Row p))
    (λ p, ∃ q, honest ed q ∧ rp_Index q = rp_Index p ∧ colliding (opening cfg (c_rlc c) p) (opening cfg (ed_rlc ed) q)) (c_taken c))
    as [Hall|(p & Hp & q & ?)]; [|left|right; by exists p, q].
  - intros p Hp. by eapply taken_original.
  - unfold Reconstruct. rewrite Hw, (ci_config _ Hc). cbn [Z.ltb Z.compare].
    destruct Hd as (Hl & HF & Hs0 & Hs64).
    destruct (RS_ReconstructData_data data len (ed_rows ed) (place (c_taken c))) as (out & -> & Hout); try done; [apply He| | | |by exists out].
    + rewrite length_place. destruct (encoded_rows cfg a b data len ed) as (_ & _ & -> & _); [by split|done|].
      destruct (shape_nat _ _ _ Hcfg) as (_ & _ & ? & ? & _). unfold total. lia.
    + intros i row (p & Hp & <- & <-)%place_lookup. by apply Hall.
    + rewrite place_count; [|apply Hc|].
      * unfold Want in Hw. rewrite (ci_config _ Hc), (ci_have _ Hc) in Hw.
        destruct (Z.leb_spec (cfg_K cfg) (Z.of_nat (length (c_taken c)))); lia.
      * apply Forall_map. eapply Forall_impl; [exact HT|]. intros p Hi%opened_index. unfold total. lia.
Qed.

(** ** Progress *)

(** The strings hashed by the tree over the combinations. *)
Definition rlc_inputs (rlc : list (list Z)) : list bytes :=
  match buildRLCTree order rlc cfg (repeat [] (tree_nodes a)) with
  | Ok t => tree_inputs (2 ^ a) (λ i, EncodeGF128 (nth i rlc Zero)) t
  | _ => []
  end.

Lemma rlcRoot_binding rlc rlc' root : Forall coeff_ok rlc → Forall coeff_ok rlc' →
  Z.of_nat (length rlc) = cfg_K cfg → Z.of_nat (length rlc') = cfg_K cfg →
  computeRLCRoot cfg rlc = Ok root → computeRLCRoot cfg rlc' = Ok root →
  rlc = rlc' ∨ colliding (rlc_inputs rlc) (rlc_inputs rlc').
Proof.
  intros Hr Hr' Hl Hl' E E'. destruct (shape_nat _ _ _ Hcfg) as (HK & _). unfold rlc_inputs.
  assert (∀ l, ∃ t, buildRLCTree order l cfg (repeat [] (tree_nodes a)) = Ok t ∧
    heap (2 ^ a) (λ i, EncodeGF128 (nth i l Zero)) t ∧ computeRLCRoot cfg l = Ok (Root t)) as Ht.
  { intros l. destruct (buildRLCTree_heap order Horder cfg a b Hcfg l (repeat [] (tree_nodes a))) as (t & Hb & Hh).
    { by rewrite repeat_length. }
    exists t. split; [done|]. split; [done|]. unfold computeRLCRoot. rewrite (shape_K _ _ _ Hcfg).
    apply RootFromFunc_root; [done|]. by rewrite repeat_length, pow2_nat. }
  destruct (Ht rlc) as (t & -> & Hh & R). destruct (Ht rlc') as (t' & -> & Hh' & R').
  rewrite E in R. rewrite E' in R'. injection R as ->. injection R' as R'.
  destruct (heap_binding _ _ _ _ _ Hh Hh' R') as [Hleaf|]; [left|by right].
  apply (list_eq_nth Zero _ _ (2 ^ a)); [lia|lia|]. intros i Hi.
  apply EncodeGF128_inj; [by apply coeff_nth..|by apply Hleaf].
Qed.

(** Whatever was added before, the coder's own rows and combinations are
    accepted; otherwise the batch that installed the combinations opens against
    the commitment with a collision. *)
Lemma honest_add_accepted c data len ed ps : cinv c → data_ok cfg data len → encoded cfg a b data len ed →
  ed_commitment ed = commitment → ps ≠ [] → Forall (honest ed) ps →
  (Reconstructor_verify order procs (c_r c) (ed_rlc ed) (map Some ps)).1 = Ok tt ∨
  r_verifierRLC (c_r c) = true ∧
  ((∃ p q, p ∈ c_first c ∧ honest ed q ∧ rp_Index q = rp_Index p ∧ colliding (opening cfg (c_rlc c) p) (opening cfg (ed_rlc ed) q)) ∨
   colliding (rlc_inputs (c_rlc c)) (rlc_inputs (ed_rlc ed))).
Proof.
  intros Hc Hd He Hcm Hne Hh.
  destruct (honest_batch order Horder cfg a b Hcfg data len ed Hd He ps Hne Hh) as [sh HA]. rewrite Hcm in HA.
  destruct (encoded_rlc_ok cfg a b Hcfg data len ed Hd He) as [Hrlc Hrl].
  assert (proofs_ok (map Some ps)) as Hb by (unfold proofs_ok; rewrite omap_id_Some; by eapply honest_bytes).
  unfold Reconstructor_verify. pose proof (ci_installed _ Hc) as Hi. rewrite (ci_commitment _ Hc). destruct (r_verifierRLC (c_r c)).
  2:{ left. pose proof (honest_verify order Horder cfg a b Hcfg data len ed Hd He procs _ ps (ci_verifier _ Hc) Hne Hh) as HV.
      rewrite Hcm in HV. by destruct (Verify order procs _ commitment (map Some ps) (ed_rlc ed)). }
  destruct Hi as (Hco & rr & rl & rs & sh' & HA' & Hrd & Hcc & Hc1 & Hc2).
  destruct (c_first c) as [|p first] eqn:Ef; [by destruct (ba_some _ _ _ _ _ _ _ _ _ HA')|].
  pose proof (proj1 (Forall_cons _ _ _) (ba_rows _ _ _ _ _ _ _ _ _ HA')) as [Hra _].
  destruct (GenerateRowProof_Ok cfg a b Hcfg data len ed Hd He (rp_Index p) (ra_index _ _ _ _ _ _ Hra)) as (q & Hq & Hqi & _).
  assert (honest ed q) as Hhq by (unfold honest; by rewrite Hqi).
  destruct (honest_batch order Horder cfg a b Hcfg data len ed Hd He [q]) as [sh2 HA2]; [done|by constructor|]. rewrite Hcm in HA2.
  destruct (accepted_binding cfg b commitment _ _ _ _ _ _ _ _ _ _ _ _ p q HA' HA2 ltac:(by left) ltac:(by left) (eq_sym Hqi))
    as [(Erow & -> & ->)|Hcol]; [|right; split; [done|]; left; exists p, q; split; [by left|done]].
  destruct (rlcRoot_binding (c_rlc c) (ed_rlc ed) (Root (ed_rlcTree ed)) Hco Hrlc (rd_rlc _ _ _ _ _ Hrd) Hrl (rd_rlcRoot _ _ _ _ _ Hrd)
    (ba_rlcRoot _ _ _ _ _ _ _ _ _ HA)) as [Ec|]; [left|by right; split; [|right]].
  pose proof (VerifyShared_ready order Horder cfg a b Hcfg procs _ _ _ _ commitment (map Some ps) Hrd Hco Hb) as HS.
  destruct (VerifyShared order procs (r_verifier (c_r c)) commitment (map Some ps)) as [res v]. cbn. destruct HS as (_ & Hiff & _).
  apply Hiff. exists ps, (Root (ed_rowsTree ed)), len. split; [done|]. split.
  - unfold cached. rewrite Hcc, Hc1, Hc2. split; [done|].
    pose proof (proj1 (Forall_cons _ _ _) (ba_rows _ _ _ _ _ _ _ _ _ HA2)) as [Hq2 _].
    rewrite <- (ra_size _ _ _ _ _ _ Hra), Erow. symmetry. apply Hq2.
  - rewrite Ec. assert (sh' = sh) as ->; [|done]. pose proof (ba_shards _ _ _ _ _ _ _ _ _ HA) as X.
    pose proof (rd_extends _ _ _ _ _ Hrd) as X'. rewrite Ec in X'. unfold extends in *. congruence.
Qed.
End Collecting.

(** ** The verifier does not panic

    Whatever rows and combinations a peer sends, as long as no entry is nil,
    verification ends with a verdict: the indices, slices and tree sizes it uses
    are in range. *)

Section Panics.
Context `{CR : Crypto} `{SL : !Sha256Laws} `{GF : GF16} `{GL : !GF16Laws} `{RS : ReedSolomon}.
Context (order : nat → list nat) (Horder : order_ok order) (procs : Z).
Context (cfg : Config) (a b : nat) (Hcfg : shape cfg a b) `{RL : !ReedSolomonLaws (cfg_K cfg) (cfg_N cfg)}.

Lemma root_loop_no_panic proof : ∀ current pos, no_panic (root_loop current pos proof).
Proof. induction proof as [|s proof IH]; intros current pos; [apply no_panic_Ok|]. cbn. apply no_panic_bind; [apply no_panic_ensure|]. intros _ _. apply IH. Qed.

Lemma reduceProofs_no_panic inputs : inputs ≠ [] → no_panic (reduceProofs inputs).
Proof.
  intros Hne. destruct inputs as [|first rest]; [done|]. cbn. apply no_panic_bind; [apply root_loop_no_panic|]. intros want _.
  apply no_panic_bind; [|intros _ _; apply no_panic_Ok]. apply no_panic_each. intros i _. apply no_panic_bind; [apply root_loop_no_panic|].
  intros ? _. apply no_panic_ensure.
Qed.

Lemma RootFromProofs_no_panic inputs workers : no_panic (RootFromProofs inputs workers).
Proof.
  unfold RootFromProofs. destruct (Nat.eqb_spec (length inputs) 0) as [E|E]; [apply no_panic_Err|].
  assert (inputs ≠ []) as Hne by by destruct inputs.
  destruct (Z.leb_spec (splitWorkers (Z.of_nat (length inputs)) workers proofGrain) 1); [by apply reduceProofs_no_panic|].
  set (nw := splitWorkers _ _ _) in *. destruct (chunks_partition inputs (Z.to_nat nw)) as (_ & Hpne & Hparts); [done|lia|].
  destruct (parallelChunks (length inputs) (Z.to_nat nw)) as [|[s0 e0] parts] eqn:EP; [done|]. cbn [map].
  assert (∀ se, se ∈ (s0, e0) :: parts → no_panic (reduceProofs (slice inputs se.1 se.2))) as Hred.
  { intros se Hse. apply reduceProofs_no_panic. rewrite Forall_forall in Hparts. apply (Hparts (slice inputs se.1 se.2)). apply list_elem_of_fmap. exists se. split; [by destruct se|done]. }
  apply no_panic_bind; [apply (Hred (s0, e0)); by left|]. intros want _. apply no_panic_bind; [|intros _ _; apply no_panic_Ok].
  change (reduceProofs (slice inputs s0 e0) :: map (λ '(start, stop), reduceProofs (slice inputs start stop)) parts)
    with (map (λ '(start, stop), reduceProofs (slice inputs start stop)) ((s0, e0) :: parts)).
  apply no_panic_each. intros slot Hslot. apply list_elem_of_fmap in Hslot as ([s e] & -> & Hse).
  apply no_panic_bind; [by apply (Hred (s, e))|]. intros ? _. apply no_panic_ensure.
Qed.

Lemma validateProofs_no_panic ps : no_panic (validateProofs cfg (map Some ps)).
Proof.
  destruct ps as [|p ps]; [apply no_panic_Err|]. unfold validateProofs. cbn [map].
  change (Some p :: map Some ps) with (map Some (p :: ps)). apply no_panic_bind; [|intros _ _; no_panic]. apply no_panic_each.
  intros q Hq. apply list_elem_of_fmap in Hq as (q' & -> & _). no_panic.
Qed.

Lemma verify_no_panic v rlc rlcRoot shards commitment ps rowSize :
  ready cfg v rlc rlcRoot shards → Forall coeff_ok rlc → bytes_ok ps → ps ≠ [] → size_ok rowSize → Forall (proof_shape cfg b rowSize) ps →
  no_panic (verify order procs v commitment ps rowSize).1.
Proof.
  intros Hv Hrlc Hb Hne [Hs0 Hs64] HF. unfold verify. change (map (λ p, mkProofInput _ _ _) ps) with (map proof_input ps).
  pose proof (RootFromProofs_no_panic (map proof_input ps) procs) as HR.
  destruct (RootFromProofs (map proof_input ps) procs) as [rowRoot|e|e]; [|apply no_panic_Err|by destruct (HR e)].
  case_bool_decide; cbn [negb]; [|apply no_panic_Err].
  pose proof (coefficients_ready order Horder cfg v rlc rlcRoot shards rowRoot rowSize Hv) as Hco.
  destruct (coefficients order v rowRoot rowSize) as [rc v'] eqn:Ec. destruct Hco as (_ & Hyes & Hno). cbn [fst].
  destruct (decide (cached v rowRoot rowSize)) as [Hca|Hca].
  2:{ destruct (Hno Hca) as [Hrc _]. unfold coefficients in Ec. destruct (v_rlcCoeffs v); [|by injection Ec as <- _].
      destruct (_ || _); injection Ec as <- _; [apply no_panic_Err|done]. }
  destruct (Hyes Hca) as (-> & _). cbn [mbind result_bind].
  pose proof (Nat.div_mod_eq rowSize LeopardChunkSize) as Ed.
  rewrite (Compute_rows _ _ _ (rowSize / LeopardChunkSize)).
  2:{ by intros ?%map_eq_nil. }
  2:{ unfold LeopardChunkSize in *. lia. }
  2:{ unfold bytes_ok in Hb. apply Forall_map. rewrite Forall_forall in *. intros p Hp. destruct (HF p Hp) as (_ & Hl & _).
      split; [rewrite Hl; unfold chunkSize; lia|by apply Hb]. }
  2:{ apply derived_ok. }
  cbn [mbind result_bind]. unfold check_rlcs. apply no_panic_each_i. intros j p Hp. cbn [Nat.add].
  apply no_panic_bind; [apply no_panic_index; rewrite !length_map; by eapply lookup_lt_Some|]. intros c _.
  apply no_panic_bind; [|intros ? _; apply no_panic_ensure]. apply no_panic_index. rewrite (rd_shards _ _ _ _ _ Hv).
  rewrite (extends_length cfg rlc shards Hrlc (rd_rlc _ _ _ _ _ Hv) (rd_extends _ _ _ _ _ Hv)).
  pose proof (Forall_lookup_1 _ _ _ _ HF Hp) as ([? ?] & _). lia.
Qed.

Lemma VerifyShared_no_panic v rlc rlcRoot shards commitment ps :
  ready cfg v rlc rlcRoot shards → Forall coeff_ok rlc → bytes_ok ps → no_panic (VerifyShared order procs v commitment (map Some ps)).1.
Proof.
  intros Hv Hrlc Hb. unfold VerifyShared. rewrite (rd_config _ _ _ _ _ Hv). pose proof (validateProofs_no_panic ps) as HN.
  destruct (validateProofs cfg (map Some ps)) as [rowSize|e|e] eqn:E; [|apply no_panic_Err|by destruct (HN e)].
  apply (validateProofs_Ok cfg a b Hcfg) in E as (qs & Eq & Hne & Hs & HF). apply (inj (map Some)) in Eq as <-. rewrite omap_id_Some.
  by eapply verify_no_panic.
Qed.

(** Adding rows to a collector in any reachable state. *)
Lemma Reconstructor_verify_no_panic commitment c rlc ps : cinv cfg b commitment c → Forall coeff_ok rlc → bytes_ok ps →
  no_panic (Reconstructor_verify order procs (c_r c) rlc (map Some ps)).1.
Proof.
  intros Hc Hrlc Hb. unfold Reconstructor_verify. pose proof (ci_installed _ _ _ _ Hc) as Hi. destruct (r_verifierRLC (c_r c)).
  - destruct Hi as (Hco & rr & rl & rs & sh & _ & Hrd & _).
    pose proof (VerifyShared_no_panic _ _ _ _ (r_commitment (c_r c)) ps Hrd Hco Hb) as H. by destruct (VerifyShared _ _ _ _ _).
  - assert (no_panic (Verify order procs (r_verifier (c_r c)) (r_commitment (c_r c)) (map Some ps) rlc).1) as H;
      [|by destruct (Verify _ _ _ _ _ _)].
    unfold Verify. destruct (decide (Z.of_nat (length rlc) = cfg_K cfg)) as [Hl|Hl].
    + destruct (setRLC_spec order Horder cfg a b Hcfg _ rlc (ci_verifier _ _ _ _ Hc) Hrlc Hl) as (rl & sh & v1 & -> & Hr1 & _). by eapply VerifyShared_no_panic.
    + unfold setRLC. rewrite (ci_verifier _ _ _ _ Hc). apply Z.eqb_neq in Hl. rewrite Hl. apply no_panic_Err.
Qed.
End Panics.
