(* ===== verification/Rsema1dModel.v ===== *)
(** * A concrete instance of the erasure code

    A hash of 32 bytes, a commutative semiring on 16-bit words with exclusive or
    as addition, and the code with one data row and one parity row, in which the
    parity is a copy. They satisfy the laws the proofs rely on, so the theorems
    apply to concrete runs. *)

From S2P Require Import Prelude Sdk SdkModel Merkle MerkleProofs Rlc RlcProofs Rsema1d Rsema1dProofs Rsema1dEncode Rsema1dCollect.
#[local] Open Scope Z_scope.

Module Toy.

(** ** A hash *)

Definition hash32 (b : bytes) : bytes := be_bytes 32 (foldl (λ h x, (h * 257 + x + 1) mod 2 ^ 256) 7 b).

#[export] Instance toy_crypto : Crypto := {
  sha256 := hash32;
  PubKey_Address := @PubKey_Address SdkModel.crypto;
  VerifySignature := @VerifySignature SdkModel.crypto;
  ed25519_Verify := @ed25519_Verify SdkModel.crypto;
  RawBytesMessageSignBytes := @RawBytesMessageSignBytes SdkModel.crypto;
  NewNamespaceFromBytes := @NewNamespaceFromBytes SdkModel.crypto;
  Namespace_ValidateForBlob := @Namespace_ValidateForBlob SdkModel.crypto;
}.

#[export] Instance toy_sha256 : Sha256Laws.
Proof. split; intros; [apply length_be_bytes|apply be_bytes_ok]. Qed.

(** ** Words *)

Lemma land_lxor x y z : Z.land x (Z.lxor y z) = Z.lxor (Z.land x y) (Z.land x z).
Proof.
  apply Z.bits_inj'. intros n Hn. rewrite !Z.land_spec, !Z.lxor_spec, !Z.land_spec.
  by destruct (Z.testbit x n), (Z.testbit y n), (Z.testbit z n).
Qed.

Lemma land_range n x y : 0 <= n → 0 <= x → 0 <= y < 2 ^ n → 0 <= Z.land x y < 2 ^ n.
Proof.
  intros Hn Hx Hy. split; [apply Z.land_nonneg; lia|].
  assert (Z.land x y mod 2 ^ n = Z.land x y) as <-; [|apply Z.mod_pos_bound; lia].
  apply Z.bits_inj'. intros m Hm. destruct (Z.lt_ge_cases m n); [by rewrite Z.mod_pow2_bits_low|].
  rewrite Z.mod_pow2_bits_high, Z.land_spec by lia. rewrite <- (Z.mod_small y (2 ^ n)), Z.mod_pow2_bits_high by lia.
  by rewrite andb_false_r.
Qed.

Lemma nth_imap {A} (d : A) (f : nat → A → A) l i : (i < length l)%nat → nth i (imap f l) d = f i (nth i l d).
Proof.
  intros Hi. destruct (lookup_lt_is_Some_2 l i Hi) as [x Hx]. rewrite (nth_lookup_Some _ _ d _ Hx).
  apply nth_lookup_Some. by rewrite list_lookup_imap, Hx.
Qed.

Lemma nth_zip_lxor a b i : (i < length a)%nat → (i < length b)%nat → nth i (zip_with Z.lxor a b) 0 = Z.lxor (nth i a 0) (nth i b 0).
Proof.
  intros Ha Hb. destruct (lookup_lt_is_Some_2 a i Ha) as [x Hx]. destruct (lookup_lt_is_Some_2 b i Hb) as [y Hy].
  rewrite (nth_lookup_Some _ _ 0 _ Hx), (nth_lookup_Some _ _ 0 _ Hy). apply nth_lookup_Some. by rewrite lookup_zip_with, Hx, Hy.
Qed.

(** A multiplication of words that multiplies the two bytes on their own. *)
Class Bytewise (m : Z → Z → Z) := {
  bw_comm a b : m a b = m b a;
  bw_assoc a b c : m a (m b c) = m (m a b) c;
  bw_lxor a b c : m a (Z.lxor b c) = Z.lxor (m a b) (m a c);
  bw_range a b : u16 a → u16 b → u16 (m a b);
  bw_byte a c : 0 <= a → byte_ok c → byte_ok (m a c);
  bw_sym x h l : u16 x → byte_ok h → byte_ok l → m x (sym_of h l) = sym_of (m (Z.shiftr x 8) h) (m (Z.land x 255) l);
}.

Section Words.
Context (m : Z → Z → Z) `{BW : !Bytewise m}.

(** The scalar applied to the byte at position [i]: the low byte of a symbol in
    the first half of its chunk, the high byte in the second. *)
Definition scale (x : Z) (i : nat) (c : Z) : Z :=
  m (if (i mod LeopardChunkSize <? LeopardSymbolsPerChunk)%nat then Z.land x 255 else Z.shiftr x 8) c.

Definition bytewise_gf16 : GF16 := {|
  GF16Mul := m;
  GF16MulSliceXor8 s col comps := zip_with (λ x acc, zip_with Z.lxor acc (imap (scale x) col)) s comps;
|}.

Lemma scale_byte x i c : u16 x → byte_ok c → byte_ok (scale x i c).
Proof.
  intros Hx Hc. unfold u16, scale in *. apply bw_byte; [|done].
  destruct (_ <? _)%nat; [apply Z.land_nonneg; lia|apply Z.shiftr_nonneg; lia].
Qed.

(** A symbol of an accumulator after one step. *)
Lemma scaled_symbol x acc col len r : u16 x → length acc = len → length col = len → (len mod LeopardChunkSize)%nat = 0%nat →
  Forall byte_ok acc → Forall byte_ok col → (2 * r < len)%nat →
  GF16FromLeopard (zip_with Z.lxor acc (imap (scale x) col)) r =
  Z.lxor (GF16FromLeopard acc r) (m x (GF16FromLeopard col r)).
Proof.
  intros Hx Ha Hc Hm Fa Fc Hr. unfold GF16FromLeopard.
  set (off := (r / LeopardSymbolsPerChunk * LeopardChunkSize)%nat). set (rr := (r mod LeopardSymbolsPerChunk)%nat).
  pose proof (Nat.div_mod_eq r LeopardSymbolsPerChunk) as Er. pose proof (Nat.mod_upper_bound r LeopardSymbolsPerChunk ltac:(done)) as Hrr.
  fold rr in Er, Hrr. pose proof (Nat.div_mod_eq len LeopardChunkSize) as El. rewrite Hm in El.
  assert (off + LeopardSymbolsPerChunk + rr < len)%nat as Hlt.
  { unfold off, LeopardSymbolsPerChunk, LeopardChunkSize in *. nia. }
  assert ((off + LeopardSymbolsPerChunk + rr) mod LeopardChunkSize = LeopardSymbolsPerChunk + rr)%nat as M1.
  { unfold off. rewrite <- Nat.add_assoc, Nat.add_comm, Nat.Div0.mod_add. apply Nat.mod_small. unfold LeopardSymbolsPerChunk, LeopardChunkSize in *. lia. }
  assert ((off + rr) mod LeopardChunkSize = rr)%nat as M2.
  { unfold off. rewrite Nat.add_comm, Nat.Div0.mod_add. apply Nat.mod_small. unfold LeopardSymbolsPerChunk, LeopardChunkSize in *. lia. }
  rewrite !nth_zip_lxor by (rewrite ?length_imap; unfold LeopardSymbolsPerChunk in *; lia).
  rewrite !nth_imap by (unfold LeopardSymbolsPerChunk in *; lia). unfold scale. rewrite M1, M2.
  destruct (Nat.ltb_spec (LeopardSymbolsPerChunk + rr) LeopardSymbolsPerChunk); [lia|].
  destruct (Nat.ltb_spec rr LeopardSymbolsPerChunk); [|lia].
  set (h := nth (off + LeopardSymbolsPerChunk + rr) col 0). set (l := nth (off + rr) col 0).
  pose proof (byte_nth col (off + LeopardSymbolsPerChunk + rr) Fc : byte_ok h) as Bh. pose proof (byte_nth col (off + rr) Fc : byte_ok l) as Bl.
  pose proof (byte_nth acc (off + rr) Fa) as B1.
  fold (sym_of (nth (off + LeopardSymbolsPerChunk + rr) acc 0) (nth (off + rr) acc 0)). fold (sym_of h l).
  fold (sym_of (Z.lxor (nth (off + LeopardSymbolsPerChunk + rr) acc 0) (m (Z.shiftr x 8) h)) (Z.lxor (nth (off + rr) acc 0) (m (Z.land x 255) l))).
  rewrite sym_of_lxor by (done || (apply (bw_byte (Bytewise := BW)); [apply Z.land_nonneg; unfold u16 in *; lia|done])). by rewrite (bw_sym x h l).
Qed.

Lemma bytewise_laws : @GF16Laws bytewise_gf16.
Proof.
  split; cbn [GF16Mul GF16MulSliceXor8 bytewise_gf16].
  - intros. apply bw_comm.
  - intros. apply bw_assoc.
  - intros. apply bw_lxor.
  - apply bw_range.
  - intros s col comps len Hs Hc Hm Fs Fc [Hl HF]. split; [rewrite length_zip_with; lia|]. clear Hs Hl Hm.
    revert comps HF. induction Fs as [|x s Hx Fs IH]; intros comps HF; [constructor|]. destruct HF as [|acc comps [Ha Fa] HF]; [constructor|].
    constructor; [|by apply IH]. split; [rewrite length_zip_with, length_imap; lia|].
    apply Forall_lookup. intros i z Hz. apply lookup_zip_with_Some in Hz as (u & v & -> & Hu & Hv).
    rewrite list_lookup_imap in Hv. apply fmap_Some in Hv as (w & Hw & ->).
    apply byte_lxor; [by apply (Forall_lookup_1 _ _ _ _ Fa Hu)|]. apply scale_byte; [done|]. by apply (Forall_lookup_1 _ _ _ _ Fc Hw).
  - intros s col comps len comp r Hs Hc Hm Fs Fc Hco Hcomp Hr. destruct (comps_nth len comps comp Hco Hcomp) as [Ha Fa]. destruct Hco as [Hl _].
    destruct (lookup_lt_is_Some_2 s comp) as [x Hx]; [lia|]. destruct (lookup_lt_is_Some_2 comps comp) as [acc Hacc]; [lia|].
    rewrite (nth_lookup_Some _ _ 0 _ Hx). rewrite (nth_lookup_Some _ _ [] _ Hacc) in *.
    assert (nth comp (zip_with (λ x acc, zip_with Z.lxor acc (imap (scale x) col)) s comps) [] =
            zip_with Z.lxor acc (imap (scale x) col)) as ->.
    { apply nth_lookup_Some. by rewrite lookup_zip_with, Hx, Hacc. }
    eapply scaled_symbol; try done. by apply (Forall_lookup_1 _ _ _ _ Fs Hx).
Qed.
End Words.

#[export] Instance land_bytewise : Bytewise Z.land.
Proof.
  split.
  - apply Z.land_comm.
  - apply Z.land_assoc.
  - apply land_lxor.
  - intros x y Hx Hy. unfold u16 in *. apply land_range; lia.
  - intros x c Hx Hc. unfold byte_ok in *. by apply (land_range 8).
  - intros x h l Hx Hh Hl. unfold u16 in *.
    assert (byte_ok (Z.land (Z.land x 255) l)) as B by (unfold byte_ok in *; apply (land_range 8); [lia|apply Z.land_nonneg; lia|done]).
    apply Z.bits_inj'. intros n Hn. rewrite Z.land_spec, !sym_of_bits by done. destruct (Z.ltb_spec n 8).
    + change 255 with (Z.ones 8). rewrite !Z.land_spec, Z.testbit_ones_nonneg by lia. destruct (Z.ltb_spec n 8); [|lia]. by rewrite andb_true_r.
    + rewrite Z.land_spec, Z.shiftr_spec by lia. by replace (n - 8 + 8) with n by lia.
Qed.

#[export] Instance toy_gf16 : GF16 := bytewise_gf16 Z.land.
#[export] Instance toy_gf16_laws : GF16Laws := bytewise_laws Z.land.

(** ** A code of one data row and one parity row *)

#[export] Instance toy_rs : ReedSolomon := {
  RS_Encode k n rows := match rows with [d; _] => Ok [d; d] | _ => Err "too few shards given" end;
  RS_ReconstructData k n rows :=
    match rows with
    | [Some d; _] | [None; Some d] => Ok [Some d; Some d]
    | _ => Err "too few shards given"
    end;
}.

Definition cfg11 : Config := mkConfig 1 1 2.

#[export] Instance toy_rs_laws : ReedSolomonLaws (cfg_K cfg11) (cfg_N cfg11).
Proof.
  refine {| rs_matrix := λ _ _, 65535 |}.
  - intros. unfold u16. lia.
  - cbn. change (Z.to_nat 1) with 1%nat. change (Pos.to_nat 1) with 1%nat. intros [|d [|? ?]] len Hl HF Hlen Hm; try discriminate.
    exists [d]. split; [done|]. split; [done|]. split; [done|]. intros [|p] s Hp Hs; [|lia]. cbn [seq nth repeat].
    rewrite xsum_cons. unfold xsum. cbn [foldl]. rewrite Z.lxor_0_r.
    apply Forall_cons in HF as [[_ Hd] _]. cbn [GF16Mul toy_gf16].
    rewrite Z.land_comm. change 65535 with (Z.ones 16). rewrite Z.land_ones by lia. symmetry. apply Z.mod_small. by apply symbol_range.
  - cbn. change (Pos.to_nat 1) with 1%nat. intros [|d [|? ?]] len ext shards Hl HF Hlen Hm HE Hls Hag Hk; try discriminate.
    cbn in HE. injection HE as <-. destruct shards as [|x [|y [|? ?]]]; try discriminate.
    destruct x as [x|].
    + pose proof (Hag 0%nat x eq_refl) as [= ->]. destruct y; by eexists.
    + destruct y as [y|]; [|cbn in Hk; lia]. pose proof (Hag 1%nat y eq_refl) as [= ->]. by eexists.
  - intros shards p. cbn. by repeat case_match.
Qed.

Lemma cfg11_shape : shape cfg11 0 1.
Proof. split; done || lia. Qed.

Lemma cfg11_valid : Config_Validate cfg11 = Ok tt.
Proof. reflexivity. Qed.

Definition order_seq (n : nat) : list nat := rev (seq 0 n).
Lemma order_seq_ok : order_ok order_seq.
Proof. intros n. unfold order_seq. symmetry. apply Permutation_rev. Qed.
End Toy.

(** ** A code of two data rows

    A second concrete instance of the erasure code: 16-bit words as eight
    elements of the field of four elements, and the code with two data rows and
    two parity rows, d0 + d1 and d0 + w d1, of which any two determine the
    data. *)

Module Quad.

(** ** Words of four-element digits *)

(** A digit is a pair of bits: the even bits hold the coefficients of 1, the
    odd bits those of w, with w * w = w + 1. *)
Definition evens : Z := 21845.
Definition mul (x y : Z) : Z :=
  let x0 := Z.land x evens in let x1 := Z.land (Z.shiftr x 1) evens in
  let y0 := Z.land y evens in let y1 := Z.land (Z.shiftr y 1) evens in
  Z.lxor (Z.lxor (Z.land x0 y0) (Z.land x1 y1))
         (Z.shiftl (Z.lxor (Z.lxor (Z.land x0 y1) (Z.land x1 y0)) (Z.land x1 y1)) 1).

Lemma evens_even k : 0 <= k → Z.testbit evens (2 * k) = (k <? 8).
Proof.
  intros Hk. destruct (Z.ltb_spec k 8).
  - assert (k = 0 ∨ k = 1 ∨ k = 2 ∨ k = 3 ∨ k = 4 ∨ k = 5 ∨ k = 6 ∨ k = 7) as Hc by lia. by repeat destruct Hc as [->|Hc]; [..|subst k].
  - apply Z.bits_above_log2; [done|]. change (Z.log2 evens) with 14. lia.
Qed.

Lemma evens_odd k : 0 <= k → Z.testbit evens (2 * k + 1) = false.
Proof.
  intros Hk. destruct (Z.ltb_spec k 8).
  - assert (k = 0 ∨ k = 1 ∨ k = 2 ∨ k = 3 ∨ k = 4 ∨ k = 5 ∨ k = 6 ∨ k = 7) as Hc by lia. by repeat destruct Hc as [->|Hc]; [..|subst k].
  - apply Z.bits_above_log2; [done|]. change (Z.log2 evens) with 14. lia.
Qed.

(** The two bits of a digit of a product. *)
Lemma mul_even x y k : 0 <= k → Z.testbit (mul x y) (2 * k) =
  (k <? 8) && xorb (Z.testbit x (2 * k) && Z.testbit y (2 * k)) (Z.testbit x (2 * k + 1) && Z.testbit y (2 * k + 1)).
Proof.
  intros Hk. unfold mul. rewrite !Z.lxor_spec. destruct (decide (k = 0)) as [->|Hne].
  - rewrite Z.shiftl_spec_low by lia. rewrite !Z.land_spec, !Z.shiftr_spec, (evens_even 0) by lia.
    by destruct (Z.testbit x (2 * 0)), (Z.testbit y (2 * 0)), (Z.testbit x (2 * 0 + 1)), (Z.testbit y (2 * 0 + 1)).
  - rewrite Z.shiftl_spec by lia. replace (2 * k - 1) with (2 * (k - 1) + 1) by lia.
    rewrite !Z.lxor_spec, !Z.land_spec, !Z.shiftr_spec, evens_odd, evens_even by lia. rewrite !andb_false_r. cbn [andb xorb].
    rewrite xorb_false_r. by destruct (k <? 8), (Z.testbit x (2 * k)), (Z.testbit y (2 * k)), (Z.testbit x (2 * k + 1)), (Z.testbit y (2 * k + 1)).
Qed.

Lemma mul_odd x y k : 0 <= k → Z.testbit (mul x y) (2 * k + 1) =
  (k <? 8) && xorb (xorb (Z.testbit x (2 * k) && Z.testbit y (2 * k + 1)) (Z.testbit x (2 * k + 1) && Z.testbit y (2 * k)))
                   (Z.testbit x (2 * k + 1) && Z.testbit y (2 * k + 1)).
Proof.
  intros Hk. unfold mul. rewrite !Z.lxor_spec, Z.shiftl_spec by lia. replace (2 * k + 1 - 1) with (2 * k) by lia.
  rewrite !Z.lxor_spec, !Z.land_spec, !Z.shiftr_spec, evens_odd, evens_even by lia. rewrite !andb_false_r. cbn [andb xorb].
  by destruct (k <? 8), (Z.testbit x (2 * k)), (Z.testbit y (2 * k)), (Z.testbit x (2 * k + 1)), (Z.testbit y (2 * k + 1)).
Qed.

Lemma digit_cases n : 0 <= n → ∃ k, 0 <= k ∧ (n = 2 * k ∨ n = 2 * k + 1).
Proof. intros Hn. exists (n / 2). pose proof (Z.div_mod n 2 ltac:(lia)). pose proof (Z.mod_pos_bound n 2 ltac:(lia)). split; [apply Z.div_pos; lia|lia]. Qed.

(** Equality of words digit by digit. *)
Ltac digits :=
  apply Z.bits_inj'; let n := fresh "n" in let Hn := fresh "Hn" in intros n Hn;
  let k := fresh "k" in let Hk := fresh "Hk" in destruct (digit_cases n Hn) as (k & Hk & [->| ->]);
  repeat first [rewrite Z.lxor_spec | rewrite mul_even by lia | rewrite mul_odd by lia].

Lemma mul_comm x y : mul x y = mul y x.
Proof.
  digits; by destruct (k <? 8), (Z.testbit x (2 * k)), (Z.testbit y (2 * k)), (Z.testbit x (2 * k + 1)), (Z.testbit y (2 * k + 1)).
Qed.

Lemma mul_assoc x y z : mul x (mul y z) = mul (mul x y) z.
Proof.
  digits; by destruct (k <? 8), (Z.testbit x (2 * k)), (Z.testbit y (2 * k)), (Z.testbit x (2 * k + 1)), (Z.testbit y (2 * k + 1)),
    (Z.testbit z (2 * k)), (Z.testbit z (2 * k + 1)).
Qed.

Lemma mul_lxor x y z : mul x (Z.lxor y z) = Z.lxor (mul x y) (mul x z).
Proof.
  digits; by destruct (k <? 8), (Z.testbit x (2 * k)), (Z.testbit y (2 * k)), (Z.testbit x (2 * k + 1)), (Z.testbit y (2 * k + 1)),
    (Z.testbit z (2 * k)), (Z.testbit z (2 * k + 1)).
Qed.

(** Below [n] bits, with [n] even. *)
Lemma bits_range m x : 0 <= m → 0 <= x → (∀ n, m <= n → Z.testbit x n = false) → 0 <= x < 2 ^ m.
Proof.
  intros Hm Hx H. split; [done|]. assert (x mod 2 ^ m = x) as <-; [|apply Z.mod_pos_bound; lia].
  apply Z.bits_inj'. intros n Hn. destruct (Z.lt_ge_cases n m); [by rewrite Z.mod_pow2_bits_low|]. rewrite Z.mod_pow2_bits_high by lia. symmetry. auto.
Qed.

Lemma high_bits m x n : 0 <= m → 0 <= x < 2 ^ m → m <= n → Z.testbit x n = false.
Proof. intros Hm Hx Hn. rewrite <- (Z.mod_small x (2 ^ m)) by done. by rewrite Z.mod_pow2_bits_high by lia. Qed.

Lemma mul_nonneg x y : 0 <= x → 0 <= y → 0 <= mul x y.
Proof.
  intros Hx Hy. assert (∀ u v, 0 <= u → 0 <= v → 0 <= Z.lxor u v) as Hl by (intros; apply Z.lxor_nonneg; lia).
  assert (∀ u v, 0 <= u → 0 <= Z.land u v) as Ha by (intros; apply Z.land_nonneg; lia).
  pose proof (proj2 (Z.shiftr_nonneg x 1) Hx). pose proof (proj2 (Z.shiftr_nonneg y 1) Hy).
  unfold mul. apply Hl; [|apply Z.shiftl_nonneg]; auto 8.
Qed.

(** A product has no more digits than either factor. *)
Lemma mul_range m x y : 0 <= m → 0 <= x → 0 <= y < 2 ^ (2 * m) → 0 <= mul x y < 2 ^ (2 * m).
Proof.
  intros Hm Hx Hy. apply bits_range; [lia|apply mul_nonneg; lia|]. intros n Hn. destruct (digit_cases n ltac:(lia)) as (k & Hk & [->| ->]);
    rewrite ?mul_even, ?mul_odd, !(high_bits (2 * m) y) by lia; by rewrite !andb_false_r.
Qed.

(** Products are taken byte by byte. *)
Lemma mul_sym x hi lo : u16 x → byte_ok hi → byte_ok lo →
  mul x (sym_of hi lo) = sym_of (mul (Z.shiftr x 8) hi) (mul (Z.land x 255) lo).
Proof.
  intros Hx Hh Hl. unfold u16, byte_ok in *.
  assert (0 <= Z.shiftr x 8) by (apply Z.shiftr_nonneg; lia). assert (0 <= Z.land x 255) by (apply Z.land_nonneg; lia).
  assert (byte_ok (mul (Z.shiftr x 8) hi)) by (apply (mul_range 4); done). assert (byte_ok (mul (Z.land x 255) lo)) by (apply (mul_range 4); done).
  change 255 with (Z.ones 8) in *.
  apply Z.bits_inj'. intros n Hn. rewrite sym_of_bits by done. destruct (digit_cases n Hn) as (k & Hk & [->| ->]).
  - rewrite mul_even, !sym_of_bits by (done || lia). destruct (Z.ltb_spec (2 * k) 8).
    + destruct (Z.ltb_spec (2 * k + 1) 8); [|lia]. rewrite mul_even, !Z.land_spec, !Z.testbit_ones_nonneg by lia.
      destruct (Z.ltb_spec (2 * k) 8), (Z.ltb_spec (2 * k + 1) 8); try lia. by rewrite !andb_true_r.
    + destruct (Z.ltb_spec (2 * k + 1) 8); [lia|]. replace (2 * k - 8) with (2 * (k - 4)) by lia. rewrite mul_even, !Z.shiftr_spec by lia.
      replace (2 * (k - 4) + 8) with (2 * k) by lia. replace (2 * (k - 4) + 1 + 8) with (2 * k + 1) by lia. replace (2 * k + 1 - 8) with (2 * (k - 4) + 1) by lia.
      destruct (Z.ltb_spec k 8), (Z.ltb_spec (k - 4) 8); try done; [lia|]. by rewrite !(high_bits 16 x) by lia.
  - rewrite mul_odd, !sym_of_bits by (done || lia). destruct (Z.ltb_spec (2 * k + 1) 8).
    + destruct (Z.ltb_spec (2 * k) 8); [|lia]. rewrite mul_odd, !Z.land_spec, !Z.testbit_ones_nonneg by lia.
      destruct (Z.ltb_spec (2 * k) 8), (Z.ltb_spec (2 * k + 1) 8); try lia. by rewrite !andb_true_r.
    + destruct (Z.ltb_spec (2 * k) 8); [lia|]. replace (2 * k + 1 - 8) with (2 * (k - 4) + 1) by lia. rewrite mul_odd, !Z.shiftr_spec by lia.
      replace (2 * (k - 4) + 8) with (2 * k) by lia. replace (2 * (k - 4) + 1 + 8) with (2 * k + 1) by lia. replace (2 * k - 8) with (2 * (k - 4)) by lia.
      destruct (Z.ltb_spec k 8), (Z.ltb_spec (k - 4) 8); try done; [lia|]. by rewrite !(high_bits 16 x) by lia.
Qed.

#[export] Instance mul_bytewise : Toy.Bytewise mul.
Proof.
  split.
  - apply mul_comm.
  - apply mul_assoc.
  - apply mul_lxor.
  - intros x y Hx Hy. unfold u16 in *. apply (mul_range 8); done || lia.
  - intros x c Hx Hc. unfold byte_ok in *. by apply (mul_range 4).
  - apply mul_sym.
Qed.

#[export] Instance quad_gf16 : GF16 := Toy.bytewise_gf16 mul.
#[export] Instance quad_gf16_laws : GF16Laws := Toy.bytewise_laws mul.

(** ** The code *)

(** Unit, generator and its inverse, as bytes and as words. *)
Definition w8 : Z := 170.
Definition w8_inv : Z := 255.
Definition one16 : Z := 21845.
Definition w16 : Z := 43690.

Definition add_rows (a b : bytes) : bytes := zip_with Z.lxor a b.
Definition scale_row (x : Z) (a : bytes) : bytes := map (mul x) a.

#[export] Instance quad_rs : ReedSolomon := {
  RS_Encode k n rows :=
    match rows with
    | [d0; d1; _; _] => Ok [d0; d1; add_rows d0 d1; add_rows d0 (scale_row w8 d1)]
    | _ => Err "too few shards given"
    end;
  RS_ReconstructData k n rows :=
    match rows with
    | [Some d0; Some d1; p0; p1] => Ok [Some d0; Some d1; p0; p1]
    | [Some d0; None; Some p0; p1] => Ok [Some d0; Some (add_rows d0 p0); Some p0; p1]
    | [Some d0; None; None; Some p1] => Ok [Some d0; Some (scale_row w8_inv (add_rows d0 p1)); None; Some p1]
    | [None; Some d1; Some p0; p1] => Ok [Some (add_rows p0 d1); Some d1; Some p0; p1]
    | [None; Some d1; None; Some p1] => Ok [Some (add_rows p1 (scale_row w8 d1)); Some d1; None; Some p1]
    | [None; None; Some p0; Some p1] =>
        let d1 := scale_row w8 (add_rows p0 p1) in Ok [Some (add_rows p0 d1); Some d1; Some p0; Some p1]
    | _ => Err "too few shards given"
    end;
}.

Definition cfg22 : Config := mkConfig 2 2 2.

(** Arithmetic on bytes by exhaustion. *)
Lemma byte_law (f : Z → Z) (c : Z) : forallb (λ i, f (Z.of_nat i) =? Z.of_nat i) (seq 0 256) = true → byte_ok c → f c = c.
Proof.
  intros H Hc. rewrite forallb_forall in H. specialize (H (Z.to_nat c)). unfold byte_ok in Hc. rewrite Z2Nat.id in H by lia.
  apply Z.eqb_eq, H, in_seq. lia.
Qed.

Lemma row_eq len (a b : bytes) : length a = len → length b = len → (∀ i, (i < len)%nat → nth i a 0 = nth i b 0) → a = b.
Proof. intros Ha Hb H. by apply (list_eq_nth 0 _ _ len). Qed.

Lemma length_add_rows len a b : length a = len → length b = len → length (add_rows a b) = len.
Proof. intros Ha Hb. unfold add_rows. rewrite length_zip_with. lia. Qed.

Lemma length_scale_row len x a : length a = len → length (scale_row x a) = len.
Proof. intros Ha. unfold scale_row. by rewrite length_map. Qed.

Lemma nth_add_rows len a b i : length a = len → length b = len → (i < len)%nat → nth i (add_rows a b) 0 = Z.lxor (nth i a 0) (nth i b 0).
Proof. intros Ha Hb Hi. apply Toy.nth_zip_lxor; lia. Qed.

Lemma nth_scale_row len x a i : length a = len → (i < len)%nat → nth i (scale_row x a) 0 = mul x (nth i a 0).
Proof. intros Ha Hi. apply nth_map_lt. lia. Qed.

Lemma mul_one x : u16 x → mul one16 x = x.
Proof.
  intros Hx. unfold u16 in Hx. change one16 with evens. digits; rewrite evens_even, evens_odd by lia; destruct (Z.ltb_spec k 8); cbn [andb xorb].
  - by rewrite xorb_false_r.
  - symmetry. apply (high_bits 16); done || lia.
  - by rewrite !xorb_false_r.
  - symmetry. apply (high_bits 16); done || lia.
Qed.

Lemma scale_row_imap d : imap (Toy.scale mul w16) d = scale_row w8 d.
Proof.
  apply list_eq. intros i. unfold scale_row. change (map (mul w8) d) with (mul w8 <$> d). rewrite list_lookup_imap, list_lookup_fmap.
  destruct (d !! i); [|done]. cbn. f_equal. unfold Toy.scale. by destruct (_ <? _)%nat.
Qed.

Lemma row_imap d : Forall byte_ok d → imap (Toy.scale mul one16) d = d.
Proof.
  intros Hd. apply list_eq. intros i. rewrite list_lookup_imap. destruct (d !! i) as [x|] eqn:Hx; [|done]. cbn. f_equal. unfold Toy.scale.
  assert (mul 85 x = x) as E by (apply byte_law; [reflexivity|by eapply Forall_lookup_1]).
  by destruct (_ <? _)%nat.
Qed.

Lemma rows_add len a b : row_ok len a → row_ok len b → row_ok len (add_rows a b).
Proof.
  intros [Ha Fa] [Hb Fb]. split; [by apply length_add_rows|]. apply Forall_lookup. intros i z Hz.
  apply lookup_zip_with_Some in Hz as (u & v & -> & Hu & Hv). apply byte_lxor; [by apply (Forall_lookup_1 _ _ _ _ Fa Hu)|by apply (Forall_lookup_1 _ _ _ _ Fb Hv)].
Qed.

Lemma rows_scale len x a : 0 <= x → row_ok len a → row_ok len (scale_row x a).
Proof.
  intros Hx [Ha Fa]. split; [by apply length_scale_row|]. apply Forall_map. eapply Forall_impl; [exact Fa|]. intros c Hc. unfold byte_ok in *. by apply (mul_range 4).
Qed.

(** The second data row from one of the parity rows, and the first one from the
    second. *)
Section Recovery.
Context (len : nat) (d0 d1 : bytes) (Hd0 : row_ok len d0) (Hd1 : row_ok len d1).

Ltac recover :=
  pose proof (proj1 Hd0); pose proof (proj1 Hd1); pose proof (proj2 Hd1);
  apply (row_eq len); [by eauto 6 using length_add_rows, length_scale_row..|]; intros i Hi;
  repeat first [ rewrite (nth_add_rows len) by eauto 6 using length_add_rows, length_scale_row
               | rewrite (nth_scale_row len) by eauto 6 using length_add_rows, length_scale_row ].

Lemma recover_d1_p0 : add_rows d0 (add_rows d0 d1) = d1.
Proof. recover. by rewrite <- Z.lxor_assoc, Z.lxor_nilpotent. Qed.

Lemma recover_d1_p1 : scale_row w8_inv (add_rows d0 (add_rows d0 (scale_row w8 d1))) = d1.
Proof. recover. rewrite <- Z.lxor_assoc, Z.lxor_nilpotent, Z.lxor_0_l. apply (byte_law (λ c, mul w8_inv (mul w8 c))); [reflexivity|by apply byte_nth]. Qed.

Lemma recover_d0_p0 : add_rows (add_rows d0 d1) d1 = d0.
Proof. recover. by rewrite Z.lxor_assoc, Z.lxor_nilpotent, Z.lxor_0_r. Qed.

Lemma recover_d0_p1 : add_rows (add_rows d0 (scale_row w8 d1)) (scale_row w8 d1) = d0.
Proof. recover. by rewrite Z.lxor_assoc, Z.lxor_nilpotent, Z.lxor_0_r. Qed.

Lemma recover_d1_parity : scale_row w8 (add_rows (add_rows d0 d1) (add_rows d0 (scale_row w8 d1))) = d1.
Proof.
  recover. replace (Z.lxor (Z.lxor (nth i d0 0) (nth i d1 0)) (Z.lxor (nth i d0 0) (mul w8 (nth i d1 0))))
    with (Z.lxor (nth i d1 0) (mul w8 (nth i d1 0))).
  - apply (byte_law (λ c, mul w8 (Z.lxor c (mul w8 c)))); [reflexivity|by apply byte_nth].
  - rewrite (Z.lxor_comm (nth i d0 0) (nth i d1 0)), Z.lxor_assoc. f_equal. by rewrite <- Z.lxor_assoc, Z.lxor_nilpotent.
Qed.
End Recovery.

#[export] Instance quad_rs_laws : ReedSolomonLaws (cfg_K cfg22) (cfg_N cfg22).
Proof.
  refine {| rs_matrix p j := if decide (p = 1%nat ∧ j = 1%nat) then w16 else one16 |}.
  - intros p j. unfold u16, w16, one16. case_decide; lia.
  - cbn [cfg_K cfg_N cfg22]. change (Z.to_nat 2) with 2%nat. intros [|d0 [|d1 [|? ?]]] len Hl HF Hlen Hm; try discriminate.
    apply Forall_cons in HF as [H0 HF]. apply Forall_cons in HF as [H1 _].
    exists [add_rows d0 d1; add_rows d0 (scale_row w8 d1)]. split; [done|]. split; [done|]. split.
    { constructor; [by apply rows_add|]. constructor; [apply rows_add; [done|by apply rows_scale]|constructor]. }
    intros p s Hp Hs. cbn [seq]. rewrite !xsum_cons. unfold xsum. cbn [foldl nth GF16Mul quad_gf16 Toy.bytewise_gf16]. rewrite Z.lxor_0_r.
    rewrite (decide_False (P := p = 1%nat ∧ 0%nat = 1%nat)) by (by intros [_ ?]). rewrite mul_one by (apply symbol_range; apply H0).
    destruct H0 as [L0 F0], H1 as [L1 F1]. destruct p as [|[|p]]; [| |lia]; cbn [nth].
    + rewrite decide_False by (by intros [? _]). rewrite <- (row_imap d1 F1) at 1.
      eapply (Toy.scaled_symbol mul one16); done.
    + rewrite decide_True by done. rewrite <- scale_row_imap. eapply (Toy.scaled_symbol mul w16); done.
  - cbn [cfg_K cfg_N cfg22]. change (Z.to_nat 2) with 2%nat. intros [|d0 [|d1 [|? ?]]] len ext shards Hl HF Hlen Hm HE Hls Hag Hk; try discriminate.
    apply Forall_cons in HF as [H0 HF]. apply Forall_cons in HF as [H1 _]. cbn in HE. injection HE as <-.
    destruct shards as [|x0 [|x1 [|y0 [|y1 [|? ?]]]]]; try discriminate.
    assert (∀ v, x0 = Some v → v = d0) as E0 by (intros v ->; pose proof (Hag 0%nat v eq_refl) as E; cbn in E; congruence).
    assert (∀ v, x1 = Some v → v = d1) as E1 by (intros v ->; pose proof (Hag 1%nat v eq_refl) as E; cbn in E; congruence).
    assert (∀ v, y0 = Some v → v = add_rows d0 d1) as E2 by (intros v ->; pose proof (Hag 2%nat v eq_refl) as E; cbn in E; congruence).
    assert (∀ v, y1 = Some v → v = add_rows d0 (scale_row w8 d1)) as E3 by (intros v ->; pose proof (Hag 3%nat v eq_refl) as E; cbn in E; congruence).
    clear Hag. destruct x0 as [v0|]; [rewrite (E0 v0 eq_refl)|]; (destruct x1 as [v1|]; [rewrite (E1 v1 eq_refl)|]);
      (destruct y0 as [v2|]; [rewrite (E2 v2 eq_refl)|]); (destruct y1 as [v3|]; [rewrite (E3 v3 eq_refl)|]); cbn in Hk; try lia;
      (eexists; split; [reflexivity|]); cbn;
      rewrite ?(recover_d1_parity len d0 d1), ?(recover_d1_p0 len d0 d1), ?(recover_d1_p1 len d0 d1), ?(recover_d0_p0 len d0 d1), ?(recover_d0_p1 len d0 d1) by done;
      done.
  - intros shards p. cbn. by repeat case_match.
Qed.

Lemma cfg22_shape : shape cfg22 1 2.
Proof. split; done || lia. Qed.

Lemma cfg22_valid : Config_Validate cfg22 = Ok tt.
Proof. reflexivity. Qed.
End Quad.
