(* ===== verification/Rsema1dProperties.v ===== *)
(** * Properties of the erasure code

    What the coder, the verifier and the reconstructor promise to their
    callers, and runs of the concrete instance that show the hypotheses can
    hold. *)

From S2P Require Import Prelude Sdk Merkle MerkleProofs Rlc RlcProofs Rsema1d Rsema1dProofs Rsema1dEncode Rsema1dCollect Rsema1dModel.
#[local] Open Scope Z_scope.

Section Properties.
Context `{CR : Crypto} `{SL : !Sha256Laws} `{GF : GF16} `{GL : !GF16Laws} `{RS : ReedSolomon}.
Context (order : nat → list nat) (Horder : order_ok order).
Context (cfg : Config) (Hvalid : Config_Validate cfg = Ok tt) `{RL : !ReedSolomonLaws (cfg_K cfg) (cfg_N cfg)}.

(** C15: the verifier accepts a batch exactly when no proof is nil, the batch is
    not empty, and every row on its own opens to one row root whose hash with
    the root of the combinations is the commitment and has the combination that
    the extended vector prescribes for its index. The verdict depends neither
    on what the verifier has seen before nor on the numbers of workers nor on
    the order in which they ran. *)
Theorem batch_verification_exact procs v commitment proofs rlc :
  v_config v = cfg → Forall coeff_ok rlc → proofs_ok proofs →
  (Verify order procs v commitment proofs rlc).1 = Ok tt ↔
  ∃ ps rowRoot rlcRoot rowSize shards, proofs = map Some ps ∧
    batch_accepted cfg (row_depth cfg) commitment rlc ps rowRoot rlcRoot rowSize shards.
Proof.
  intros Hv Hr Hb. pose proof (Verify_accepts order Horder cfg _ _ (validate_shape cfg Hvalid) procs v commitment proofs rlc Hv Hr Hb) as H.
  destruct (Verify order procs v commitment proofs rlc) as [r v']. by destruct H as (_ & H & _).
Qed.

(** C18: one commitment binds each index to one row: two accepted batches,
    whatever their combinations, agree on the rows they share, or the strings
    hashed when the two rows are opened contain a collision of SHA-256. *)
Theorem commitment_binds_rows procs procs' v v' commitment ps ps' rlc rlc' p p' :
  v_config v = cfg → v_config v' = cfg → Forall coeff_ok rlc → Forall coeff_ok rlc' → bytes_ok ps → bytes_ok ps' →
  (Verify order procs v commitment (map Some ps) rlc).1 = Ok tt →
  (Verify order procs' v' commitment (map Some ps') rlc').1 = Ok tt →
  p ∈ ps → p' ∈ ps' → rp_Index p = rp_Index p' →
  rp_Row p = rp_Row p' ∨ colliding (opening cfg rlc p) (opening cfg rlc' p').
Proof.
  intros Hv Hv' Hr Hr' Hb Hb' H H' Hp Hp' Hi. pose proof (validate_shape cfg Hvalid) as Hs.
  assert (∀ w l qs, v_config w = cfg → Forall coeff_ok l → bytes_ok qs → ∀ n, (Verify order n w commitment (map Some qs) l).1 = Ok tt →
    ∃ rr rl rs sh, batch_accepted cfg (row_depth cfg) commitment l qs rr rl rs sh) as Hacc.
  { intros w l qs Hw Hl Hq n HV. assert (proofs_ok (map Some qs)) as Hok by (unfold proofs_ok; by rewrite omap_id_Some).
    pose proof (Verify_accepts order Horder cfg _ _ Hs n w commitment _ l Hw Hl Hok) as HA.
    destruct (Verify order n w commitment (map Some qs) l). destruct HA as (_ & HA & _).
    apply HA in HV as (qs' & rr & rl & rs & sh & E & HB). apply (inj (map Some)) in E as <-. by exists rr, rl, rs, sh. }
  destruct (Hacc v rlc ps Hv Hr Hb procs H) as (? & ? & ? & ? & HA). destruct (Hacc v' rlc' ps' Hv' Hr' Hb' procs' H') as (? & ? & ? & ? & HA').
  destruct (accepted_binding cfg _ _ _ _ _ _ _ _ _ _ _ _ _ _ p p' HA HA' Hp Hp' Hi) as [[-> _]|]; [by left|by right].
Qed.

(** Encoding K rows of a positive multiple of 64 bytes succeeds; every
    non-empty selection of the K+N rows is handed out with proofs that every
    verifier accepts against the commitment, and each original row has a
    standalone proof that verifies without the combinations. *)
Theorem encoded_rows_verify data len : data_ok cfg data len →
  ∃ ed, Encode order cfg (input_rows cfg data len) = Ok ed ∧ take (Z.to_nat (cfg_K cfg)) (ed_rows ed) = data ∧
    (∀ procs v indices, v_config v = cfg → indices ≠ [] → Forall (λ i, 0 <= i < cfg_K cfg + cfg_N cfg) indices →
       ∃ ps, RowProofs ed indices = (ps, Ok tt) ∧ map rp_Index ps = indices ∧
         (Verify order procs v (ed_commitment ed) (map Some ps) (ed_rlc ed)).1 = Ok tt) ∧
    (∀ i, 0 <= i < cfg_K cfg →
       ∃ p, GenerateStandaloneProof ed i = Ok p ∧ VerifyStandaloneProof order (Some p) (ed_commitment ed) cfg = Ok tt).
Proof.
  intros Hd. pose proof (validate_shape cfg Hvalid) as Hs.
  destruct (Encode_encoded order Horder cfg _ _ Hs data len None Hd I) as (ed & HE & Hed). exists ed. split; [done|].
  destruct (encoded_rows cfg _ _ data len ed Hd Hed) as (parity & Erows & _). split.
  { rewrite Erows. destruct Hd as (<- & _). apply take_app_length. }
  split.
  - intros procs v indices Hv Hne HF. destruct (RowProofs_Ok cfg _ _ Hs data len ed Hd Hed indices HF) as (ps & Hps & HF2).
    exists ps. split; [done|].
    assert (map rp_Index ps = indices ∧ Forall (honest ed) ps) as [<- Hh].
    { clear Hps Hne HF. induction HF2 as [|i p indices ps Hip HF2 IH]; [done|]. destruct IH as [<- IH].
      destruct (GenerateRowProof_inv cfg _ _ data len ed Hed _ _ Hip) as [_ <-]. split; [done|]. by constructor. }
    split; [done|]. apply (honest_verify order Horder cfg _ _ Hs data len ed Hd Hed); [done| |done]. by intros ->.
  - intros i Hi. by apply (standalone_accepted order Horder cfg _ _ Hs data len ed Hd Hed).
Qed.

(** The rows that concurrent calls hand out, in any interleaving and for
    any mixture of valid and invalid batches, have pairwise different indices,
    are as many as the collector counts, and each of them is accepted against
    the commitment with the combinations of the call that verified first. *)
Theorem collected_rows_distinct_and_verified procs commitment c : collected order procs cfg commitment c →
  NoDup (map rp_Index (c_taken c)) ∧ Have (c_r c) = Z.of_nat (length (c_taken c)) ∧
  Forall (λ p, ∃ ps rowRoot rlcRoot rowSize shards, p ∈ ps ∧
    batch_accepted cfg (row_depth cfg) commitment (c_rlc c) ps rowRoot rlcRoot rowSize shards) (c_taken c).
Proof.
  intros Hc%(collected_inv order Horder procs cfg _ _ (validate_shape cfg Hvalid)). split; [|split; [apply Hc|]].
  - pose proof (ci_unique _ _ _ _ Hc) as Hnd. unfold indices in Hnd. rewrite <- (map_map rp_Index Z.to_nat) in Hnd. by apply NoDup_fmap_1 in Hnd.
  - eapply Forall_impl; [apply (ci_taken _ _ _ _ Hc)|]. intros p (ps & rr & rl & rs & sh & HA & Hp). by exists ps, rr, rl, rs, sh.
Qed.

(** C14: once the collector wants no more rows, reconstruction from the rows
    handed out returns exactly the data whose encoding has the commitment,
    however the rows were obtained; otherwise a row handed out and the coder's
    row at its index open to the commitment with a collision of SHA-256. *)
Theorem reconstruction_returns_original procs c data len ed :
  data_ok cfg data len → Encode order cfg (input_rows cfg data len) = Ok ed →
  collected order procs cfg (ed_commitment ed) c → Want (c_r c) = 0 →
  (∃ out, Reconstruct (c_r c) (place cfg (c_taken c)) = Ok out ∧ take (Z.to_nat (cfg_K cfg)) out = map Some data) ∨
  ∃ p q, p ∈ c_taken c ∧ GenerateRowProof ed (rp_Index p) = Ok q ∧ colliding (opening cfg (c_rlc c) p) (opening cfg (ed_rlc ed) q).
Proof.
  intros Hd HE Hc Hw. pose proof (validate_shape cfg Hvalid) as Hs.
  destruct (Encode_encoded order Horder cfg _ _ Hs data len None Hd I) as (ed' & HE' & Hed). unfold Encode in HE. rewrite HE in HE'. injection HE' as <-.
  destruct (reconstruct_original order Horder cfg _ _ Hs _ c data len ed (collected_inv order Horder procs cfg _ _ Hs _ c Hc) Hd Hed eq_refl Hw) as [|(p & q & Hp & Hq & Hi & Hcol)]; [by left|right].
  exists p, q. split; [done|]. split; [|done]. unfold honest in Hq. by rewrite <- Hi.
Qed.

(** Nothing another caller adds can make the collector refuse good rows:
    in every reachable state a non-empty batch of the coder's own proofs with
    the coder's combinations is accepted; otherwise the batch that installed
    the cached combinations opens to the commitment with a collision of
    SHA-256. *)
Theorem good_rows_always_accepted procs c data len ed ps :
  data_ok cfg data len → Encode order cfg (input_rows cfg data len) = Ok ed →
  collected order procs cfg (ed_commitment ed) c → ps ≠ [] → Forall (λ p, GenerateRowProof ed (rp_Index p) = Ok p) ps →
  is_ok (Add order procs (c_r c) (map Some ps) (ed_rlc ed)).1 = true ∨
  (∃ p q, p ∈ c_first c ∧ GenerateRowProof ed (rp_Index p) = Ok q ∧ colliding (opening cfg (c_rlc c) p) (opening cfg (ed_rlc ed) q)) ∨
  colliding (rlc_inputs order cfg (rlc_depth cfg) (c_rlc c)) (rlc_inputs order cfg (rlc_depth cfg) (ed_rlc ed)).
Proof.
  intros Hd HE Hc Hne HF. pose proof (validate_shape cfg Hvalid) as Hs.
  destruct (Encode_encoded order Horder cfg _ _ Hs data len None Hd I) as (ed' & HE' & Hed). unfold Encode in HE. rewrite HE in HE'. injection HE' as <-.
  destruct (honest_add_accepted order Horder procs cfg _ _ Hs _ c data len ed ps (collected_inv order Horder procs cfg _ _ Hs _ c Hc) Hd Hed eq_refl Hne HF) as [HV|[_ [(p & q & Hp & Hq & Hi & Hcol)|Hcol]]].
  - left. unfold Add. destruct (Reconstructor_verify order procs (c_r c) (ed_rlc ed) (map Some ps)) as [res r']. cbn in HV. subst res.
    by destruct (addVerified r' _).
  - right; left. exists p, q. split; [done|]. split; [|done]. unfold honest in Hq. by rewrite <- Hi.
  - by right; right.
Qed.

(** Combining the rows of a batch over transposed columns, split among any
    number of workers, gives for every row the combination computed symbol by
    symbol. *)
Theorem batched_rlc_equivalent rows coeffs workers numChunks : rows ≠ [] → (0 < numChunks)%nat →
  Forall (row_ok (numChunks * chunkSize)) rows → Forall coeff_ok coeffs →
  Compute rows coeffs workers = Ok (map (λ row, ComputeRow row coeffs) rows).
Proof. apply Compute_rows. Qed.
End Properties.

(** ** Runs of the concrete instance *)

Module Runs.
Import Toy.

Definition data : list bytes := [map (λ i, Z.of_nat i) (seq 0 64)].

Lemma data_fits : data_ok cfg11 data 64.
Proof.
  split; [done|]. split; [|split; [lia|done]]. constructor; [|constructor]. split; [done|]. apply Forall_map, Forall_forall.
  intros i Hi. apply elem_of_seq in Hi. unfold byte_ok. lia.
Qed.

Definition v0 : Verifier := mkVerifier cfg11 [] (Some []) [] [] 7.

Lemma encoded_rows_verify_witness : data_ok cfg11 data 64 ∧ ∃ ed, Encode order_seq cfg11 (input_rows cfg11 data 64) = Ok ed ∧
  ∃ ps, RowProofs ed [1; 0; 1] = (ps, Ok tt) ∧ (Verify order_seq 8 v0 (ed_commitment ed) (map Some ps) (ed_rlc ed)).1 = Ok tt.
Proof.
  split; [apply data_fits|].
  destruct (encoded_rows_verify order_seq order_seq_ok cfg11 cfg11_valid data 64 data_fits) as (ed & HE & _ & HV & _).
  exists ed. split; [done|]. destruct (HV 8 v0 [1; 0; 1]) as (ps & Hps & _ & H); [done|done|repeat constructor; cbn; lia|]. by exists ps.
Defined.

(** The coder's rows and what a verifier makes of them. *)
Lemma run_encoded : ∃ ed, Encode order_seq cfg11 (input_rows cfg11 data 64) = Ok ed ∧ encoded cfg11 0 1 data 64 ed.
Proof. exact (Encode_encoded order_seq order_seq_ok cfg11 0 1 cfg11_shape data 64 None data_fits I). Qed.

Lemma run_rows ed : encoded cfg11 0 1 data 64 ed → ∃ p, honest ed p ∧ rp_Index p = 1 ∧ Forall coeff_ok (ed_rlc ed) ∧ bytes_ok [p] ∧
  ∀ v procs, v_config v = cfg11 → (Verify order_seq procs v (ed_commitment ed) [Some p] (ed_rlc ed)).1 = Ok tt.
Proof.
  intros Hed. destruct (GenerateRowProof_Ok cfg11 0 1 cfg11_shape data 64 ed data_fits Hed 1) as (p & Hp & Hi & _); [cbn; lia|].
  assert (honest ed p) as Hh by (unfold honest; by rewrite Hi). exists p. split; [done|]. split; [done|].
  split; [by eapply (encoded_rlc_ok cfg11 0 1 cfg11_shape data 64 ed data_fits)|].
  split; [eapply (honest_bytes cfg11 0 1 cfg11_shape data 64 ed data_fits); [done|by constructor]|].
  intros v procs Hv. apply (honest_verify order_seq order_seq_ok cfg11 0 1 cfg11_shape data 64 ed data_fits Hed procs v [p] Hv); [done|by constructor].
Qed.

Lemma batch_verification_exact_witness : ∃ ed p, Encode order_seq cfg11 (input_rows cfg11 data 64) = Ok ed ∧
  ∃ ps rowRoot rlcRoot rowSize shards, [Some p] = map Some ps ∧
    batch_accepted cfg11 (row_depth cfg11) (ed_commitment ed) (ed_rlc ed) ps rowRoot rlcRoot rowSize shards.
Proof.
  destruct run_encoded as (ed & HE & Hed). destruct (run_rows ed Hed) as (p & _ & _ & Hr & Hb & HV). exists ed, p. split; [done|].
  apply (batch_verification_exact order_seq order_seq_ok cfg11 cfg11_valid 8 v0); [done|done|exact Hb|by apply HV].
Defined.

Lemma commitment_binds_rows_witness : ∃ ed p, honest ed p ∧
  (rp_Row p = rp_Row p ∨ colliding (opening cfg11 (ed_rlc ed) p) (opening cfg11 (ed_rlc ed) p)).
Proof.
  destruct run_encoded as (ed & HE & Hed). destruct (run_rows ed Hed) as (p & Hh & _ & Hr & Hb & HV). exists ed, p. split; [done|].
  apply (commitment_binds_rows order_seq order_seq_ok cfg11 cfg11_valid 8 1 v0 v0 (ed_commitment ed) [p] [p] (ed_rlc ed) (ed_rlc ed));
    try done; try (by apply HV); by left.
Defined.

(** A call that verifies a batch and marks its rows. *)
Lemma run_collected ed : encoded cfg11 0 1 data 64 ed → ∃ c, collected order_seq 8 cfg11 (ed_commitment ed) c ∧ Want (c_r c) = 0.
Proof.
  intros Hed. destruct (run_rows ed Hed) as (p & _ & Hi & Hr & Hb & HV).
  pose proof (HV (mkVerifier cfg11 (repeat 0 32) None (repeat zero_chunk 2) (repeat 0 32) 0) 8 eq_refl) as Hok.
  set (v := mkVerifier _ _ _ _ _ _) in Hok. destruct (Verify order_seq 8 v (ed_commitment ed) [Some p] (ed_rlc ed)) as [res v'] eqn:EV.
  cbn in Hok. subst res.
  set (r0 := mkReconstructor cfg11 (ed_commitment ed) false v [false; false] 0).
  set (r1 := mkReconstructor cfg11 (ed_commitment ed) true v' [false; false] 0).
  set (r2 := mkReconstructor cfg11 (ed_commitment ed) true v' [false; true] 1).
  exists (mkCollect r2 [] [p] (ed_rlc ed) [p]). split; [|done]. exists r0. split; [done|].
  eapply rtc_l; [|eapply rtc_l; [|apply rtc_refl]].
  - apply (cstep_verified order_seq 8 _ [Some p] (ed_rlc ed) r1); [done|done|]. unfold Reconstructor_verify. cbn. by rewrite EV.
  - apply (cstep_mark order_seq 8 (mkCollect r1 [[p]] [] (ed_rlc ed) [p]) [] [p] [] [p] r2); [done|]. cbn. by rewrite Hi.
Qed.

Lemma collected_rows_distinct_and_verified_witness : ∃ ed c, collected order_seq 8 cfg11 (ed_commitment ed) c ∧ Want (c_r c) = 0 ∧
  NoDup (map rp_Index (c_taken c)).
Proof.
  destruct run_encoded as (ed & HE & Hed). destruct (run_collected ed Hed) as (c & Hc & Hw). exists ed, c. split; [done|]. split; [done|].
  by apply (collected_rows_distinct_and_verified order_seq order_seq_ok cfg11 cfg11_valid 8 (ed_commitment ed) c).
Defined.

Lemma reconstruction_returns_original_witness : ∃ ed c, Encode order_seq cfg11 (input_rows cfg11 data 64) = Ok ed ∧
  collected order_seq 8 cfg11 (ed_commitment ed) c ∧
  ((∃ out, Reconstruct (c_r c) (place cfg11 (c_taken c)) = Ok out ∧ take 1 out = map Some data) ∨
   ∃ p q, p ∈ c_taken c ∧ GenerateRowProof ed (rp_Index p) = Ok q ∧ colliding (opening cfg11 (c_rlc c) p) (opening cfg11 (ed_rlc ed) q)).
Proof.
  destruct run_encoded as (ed & HE & Hed). destruct (run_collected ed Hed) as (c & Hc & Hw). exists ed, c. split; [done|]. split; [done|].
  by apply (reconstruction_returns_original order_seq order_seq_ok cfg11 cfg11_valid 8 c data 64 ed data_fits).
Defined.

Lemma good_rows_always_accepted_witness : ∃ ed c p, collected order_seq 8 cfg11 (ed_commitment ed) c ∧
  (is_ok (Add order_seq 8 (c_r c) [Some p] (ed_rlc ed)).1 = true ∨
  (∃ p q, p ∈ c_first c ∧ GenerateRowProof ed (rp_Index p) = Ok q ∧ colliding (opening cfg11 (c_rlc c) p) (opening cfg11 (ed_rlc ed) q)) ∨
  colliding (rlc_inputs order_seq cfg11 (rlc_depth cfg11) (c_rlc c)) (rlc_inputs order_seq cfg11 (rlc_depth cfg11) (ed_rlc ed))).
Proof.
  destruct run_encoded as (ed & HE & Hed). destruct (run_rows ed Hed) as (p & Hh & _). destruct (run_collected ed Hed) as (c & Hc & _).
  exists ed, c, p. split; [done|].
  apply (good_rows_always_accepted order_seq order_seq_ok cfg11 cfg11_valid 8 c data 64 ed [p] data_fits HE Hc); [done|by constructor].
Defined.

Lemma batched_rlc_equivalent_witness : Compute data (derived [5] 32) 3 = Ok (map (λ row, ComputeRow row (derived [5] 32)) data).
Proof.
  apply (batched_rlc_equivalent data (derived [5] 32) 3 1); [done|lia|apply data_fits|apply derived_ok].
Defined.
End Runs.
