(* ===== verification/Occupancy.v ===== *)
(** * The storage budget of a validator

    [fibre/occupancy.go]: a counter of the bytes a server holds against its
    budget. Uploads reserve their size before they store and release it when
    storing fails; pruning releases what it removed. A reservation is not
    atomic: it reads the budget, adds its size and takes it back when the sum
    is over the budget, so calls interleave at these three accesses. *)

From S2P Require Import Prelude.
#[local] Open Scope Z_scope.

(** ** The counter *)

Record occupancy := mkOccupancy { occ_used : Z; occ_budget : Z }.

Definition newOccupancy (budget : Z) : occupancy := mkOccupancy 0 budget.
Definition setBudget (newBudget : Z) (o : occupancy) : occupancy := mkOccupancy (occ_used o) newBudget.
Definition usage (o : occupancy) : Z := occ_used o.
Definition budgetBytes (o : occupancy) : Z := occ_budget o.
Definition seed (n : Z) (o : occupancy) : occupancy := mkOccupancy n (occ_budget o).

(** [used.Add], at 64 bits. *)
Definition add_used (n : Z) (o : occupancy) : occupancy := mkOccupancy (wrap_i64 (occ_used o + n)) (occ_budget o).

Definition release (n : Z) (o : occupancy) : occupancy := add_used (- n) o.

Definition reserve (n : Z) (o : occupancy) : bool * occupancy :=
  let budget := occ_budget o in
  if budget <=? 0 then (true, add_used n o)
  else
    let o1 := add_used n o in
    if occ_used o1 <=? budget then (true, o1) else (false, add_used (- n) o1).

(** ** Calls in flight *)

(** Where a call is: before it reads the budget, after it read it, over the
    budget and about to take its size back, admitted and storing, finished. *)
Inductive call :=
  | Reserving (n : Z)
  | Loaded (n b : Z)
  | Undoing (n : Z)
  | Granted (n : Z)
  | Rejected
  | Finished.

Definition reserve_step (c : call) (o : occupancy) : option (call * occupancy) :=
  match c with
  | Reserving n => Some (Loaded n (occ_budget o), o)
  | Loaded n b =>
      let o1 := add_used n o in
      if b <=? 0 then Some (Granted n, o1)
      else if occ_used o1 <=? b then Some (Granted n, o1) else Some (Undoing n, o1)
  | Undoing n => Some (Rejected, add_used (- n) o)
  | _ => None
  end.

(** Run a call to its end without interruption. *)
Fixpoint run_call (fuel : nat) (c : call) (o : occupancy) : call * occupancy :=
  match fuel with
  | O => (c, o)
  | S f => match reserve_step c o with Some (c', o') => run_call f c' o' | None => (c, o) end
  end.

(** The counter, the calls, the bytes on disk, and the bytes that pruning has
    removed and not yet released. *)
Record system := mkSystem { sys_occ : occupancy; sys_calls : list call; sys_stored : Z; sys_removed : Z }.

(** What a call still in progress may add. *)
Definition size_of (c : call) : Z :=
  match c with Reserving n | Loaded n _ | Undoing n | Granted n => n | _ => 0 end.

(** What a call has added to the counter, and what it was granted. *)
Definition counted (c : call) : Z := match c with Undoing n | Granted n => n | _ => 0 end.
Definition granted (c : call) : Z := match c with Granted n => n | _ => 0 end.

Definition total (f : call → Z) (s : system) : Z := zsum (map f (sys_calls s)).

Section Steps.
(** The largest budget that is set, and the bytes of the calls that run at one
    time. *)
Context (B M : Z).

Inductive ostep : system → system → Prop :=
  | ostep_start s n : 0 <= n → total size_of s + n <= M →
      ostep s (mkSystem (sys_occ s) (sys_calls s ++ [Reserving n]) (sys_stored s) (sys_removed s))
  | ostep_leave s i c : sys_calls s !! i = Some c → counted c = 0 →
      ostep s (mkSystem (sys_occ s) (<[i := Finished]> (sys_calls s)) (sys_stored s) (sys_removed s))
  | ostep_reserve s i c c' o' : sys_calls s !! i = Some c → reserve_step c (sys_occ s) = Some (c', o') →
      ostep s (mkSystem o' (<[i := c']> (sys_calls s)) (sys_stored s) (sys_removed s))
  | ostep_stored s i n : sys_calls s !! i = Some (Granted n) →
      ostep s (mkSystem (sys_occ s) (<[i := Finished]> (sys_calls s)) (sys_stored s + n) (sys_removed s))
  | ostep_failed s i n : sys_calls s !! i = Some (Granted n) →
      ostep s (mkSystem (release n (sys_occ s)) (<[i := Finished]> (sys_calls s)) (sys_stored s) (sys_removed s))
  | ostep_prune s m : 0 <= m <= sys_stored s →
      ostep s (mkSystem (sys_occ s) (sys_calls s) (sys_stored s - m) (sys_removed s + m))
  | ostep_release s :
      ostep s (mkSystem (release (sys_removed s) (sys_occ s)) (sys_calls s) (sys_stored s) 0)
  | ostep_budget s b : 0 < b <= B →
      ostep s (mkSystem (setBudget b (sys_occ s)) (sys_calls s) (sys_stored s) (sys_removed s)).

(** A server that starts with [n] bytes on disk and a positive budget. *)
Definition started (n b : Z) : system := mkSystem (setBudget b (seed n (newOccupancy 0))) [] n 0.
End Steps.

(** ** Correctness *)

Lemma reserve_run n o : run_call 3 (Reserving n) o =
  (if (reserve n o).1 then Granted n else Rejected, (reserve n o).2).
Proof.
  cbn [run_call reserve_step]. unfold reserve. destruct (occ_budget o <=? 0) eqn:E; [done|].
  by destruct (occ_used (add_used n o) <=? occ_budget o).
Qed.

Lemma total_insert f s i c c' : sys_calls s !! i = Some c →
  zsum (map f (<[i := c']> (sys_calls s))) = total f s - f c + f c'.
Proof. apply zsum_map_insert. Qed.

(** Every call has a size that is not negative; a call that read the budget
    read one that was set. *)
Definition call_ok (B : Z) (c : call) : Prop :=
  0 <= size_of c ∧ match c with Loaded _ b => 0 < b <= B | _ => True end.

Record occ_inv (B M S : Z) (s : system) : Prop := {
  oi_calls : Forall (call_ok B) (sys_calls s);
  oi_budget : 0 < occ_budget (sys_occ s) <= B;
  oi_stored : 0 <= sys_stored s;
  oi_removed : 0 <= sys_removed s;
  oi_flight : total size_of s <= M;
  oi_used : occ_used (sys_occ s) = sys_stored s + sys_removed s + total counted s;
  oi_bound : sys_stored s + sys_removed s + total granted s <= Z.max S B;
}.

Lemma zsum_map_le {A} (f g : A → Z) l : Forall (λ x, f x <= g x) l → zsum (map f l) <= zsum (map g l).
Proof. induction 1 as [|x l Hx HF IH]; cbn [map]; [done|]. rewrite !zsum_cons. lia. Qed.

Lemma totals s B : Forall (call_ok B) (sys_calls s) →
  0 <= total granted s <= total counted s ∧ total counted s <= total size_of s.
Proof.
  intros HF. unfold total. repeat split.
  - apply zsum_nonneg, Forall_map. eapply Forall_impl; [exact HF|]. intros c [H _]. destruct c; cbn in *; lia.
  - apply zsum_map_le. eapply Forall_impl; [exact HF|]. intros c [H _]. destruct c; cbn in *; lia.
  - apply zsum_map_le. eapply Forall_impl; [exact HF|]. intros c [H _]. destruct c; cbn in *; lia.
Qed.

(** A call that has not added its size leaves room for it. *)
Lemma total_room f s i c : Forall (λ c, 0 <= f c <= size_of c) (sys_calls s) → sys_calls s !! i = Some c →
  f c = 0 → total f s + size_of c <= total size_of s.
Proof.
  intros HF Hi Hc. unfold total. rewrite <- (take_drop_middle _ _ _ Hi) in HF |- *. rewrite !map_app, !zsum_app. cbn [map].
  rewrite !zsum_cons, Hc. apply Forall_app in HF as [H1 H2]. apply Forall_cons in H2 as [_ H2].
  assert (∀ l, Forall (λ c, 0 <= f c <= size_of c) l → zsum (map f l) <= zsum (map size_of l)) as Hle.
  { intros l Hl. apply zsum_map_le. eapply Forall_impl; [exact Hl|]. cbn. lia. }
  pose proof (Hle _ H1). pose proof (Hle _ H2). lia.
Qed.

Section Invariant.
Context (B M S : Z) (Hroom : Z.max S B + M < two63) (HM : 0 <= M).

Lemma counted_bounds s : Forall (call_ok B) (sys_calls s) → Forall (λ c, 0 <= counted c <= size_of c) (sys_calls s).
Proof. intros HF. eapply Forall_impl; [exact HF|]. intros c [H _]. destruct c; cbn in *; lia. Qed.

Lemma undone_bounds s : Forall (call_ok B) (sys_calls s) →
  Forall (λ c, 0 <= counted c - granted c <= size_of c) (sys_calls s).
Proof. intros HF. eapply Forall_impl; [exact HF|]. intros c [H _]. destruct c; cbn in *; lia. Qed.

Lemma total_sub s : total (λ c, counted c - granted c) s = total counted s - total granted s.
Proof. unfold total. induction (sys_calls s) as [|c l IH]; [done|]. cbn [map]. rewrite !zsum_cons, IH. lia. Qed.

Lemma used_range s : occ_inv B M S s → 0 <= occ_used (sys_occ s) <= Z.max S B + M.
Proof.
  intros Hs. rewrite (oi_used _ _ _ _ Hs). destruct (totals s B (oi_calls _ _ _ _ Hs)) as [[H1 H2] H3].
  pose proof (oi_stored _ _ _ _ Hs). pose proof (oi_removed _ _ _ _ Hs). split; [lia|].
  pose proof (oi_bound _ _ _ _ Hs). pose proof (oi_flight _ _ _ _ Hs). lia.
Qed.

Lemma add_used_exact n o : i64 (occ_used o + n) → occ_used (add_used n o) = occ_used o + n ∧ occ_budget (add_used n o) = occ_budget o.
Proof. intros H. unfold add_used. cbn. by rewrite wrap_i64_id. Qed.

(** Moving one call on, with the counter and the bytes on disk. *)
Lemma update_call s i c c' o' stored' : occ_inv B M S s → sys_calls s !! i = Some c → call_ok B c' → size_of c' <= size_of c →
  occ_budget o' = occ_budget (sys_occ s) → 0 <= stored' →
  occ_used o' = occ_used (sys_occ s) + (counted c' - counted c) + (stored' - sys_stored s) →
  stored' + sys_removed s + total granted s - granted c + granted c' <= Z.max S B →
  occ_inv B M S (mkSystem o' (<[i := c']> (sys_calls s)) stored' (sys_removed s)).
Proof.
  intros Hs Hi Hok Hsz Hbud Hst Hused Hbound. pose proof (oi_flight _ _ _ _ Hs). pose proof (oi_used _ _ _ _ Hs).
  split; cbn [sys_calls sys_occ sys_stored sys_removed]; unfold total; cbn [sys_calls];
    rewrite ?(total_insert _ _ _ _ _ Hi); try lia; try apply Hs.
  - apply Forall_insert; [apply Hs|done].
  - rewrite Hbud. apply Hs.
Qed.

(** What a call has counted is part of the total. *)
Lemma counted_le s i c : Forall (call_ok B) (sys_calls s) → sys_calls s !! i = Some c → counted c <= total counted s.
Proof.
  intros HF Hi. unfold total. rewrite <- (take_drop_middle _ _ _ Hi) in HF |- *. rewrite map_app, zsum_app. cbn [map]. rewrite zsum_cons.
  apply Forall_app in HF as [H1 H2]. apply Forall_cons in H2 as [_ H2].
  assert (∀ l, Forall (call_ok B) l → 0 <= zsum (map counted l)) as Hz.
  { intros l Hl. apply zsum_nonneg, Forall_map. eapply Forall_impl; [exact Hl|]. intros x [H _]. destruct x; cbn in *; lia. }
  pose proof (Hz _ H1). pose proof (Hz _ H2). lia.
Qed.

(** Taking back what a call has counted does not wrap. *)
Lemma take_back s i c : occ_inv B M S s → sys_calls s !! i = Some c →
  occ_used (add_used (- counted c) (sys_occ s)) = occ_used (sys_occ s) - counted c.
Proof.
  intros Hs Hi. pose proof (used_range s Hs). pose proof (counted_le s i c (oi_calls _ _ _ _ Hs) Hi).
  pose proof (Forall_lookup_1 _ _ _ _ (counted_bounds s (oi_calls _ _ _ _ Hs)) Hi) as [? _].
  pose proof (oi_used _ _ _ _ Hs). pose proof (oi_stored _ _ _ _ Hs). pose proof (oi_removed _ _ _ _ Hs).
  rewrite (proj1 (add_used_exact (- counted c) (sys_occ s) ltac:(unfold i64, two63 in *; lia))). lia.
Qed.

Lemma ostep_reserve_inv s i c c' o' : occ_inv B M S s → sys_calls s !! i = Some c → reserve_step c (sys_occ s) = Some (c', o') →
  occ_inv B M S (mkSystem o' (<[i := c']> (sys_calls s)) (sys_stored s) (sys_removed s)).
Proof.
  intros Hs Hi Hstep. pose proof (oi_calls _ _ _ _ Hs) as HF. pose proof (Forall_lookup_1 _ _ _ _ HF Hi) as [Hsz Hb].
  pose proof (oi_bound _ _ _ _ Hs) as Hbd. pose proof (oi_stored _ _ _ _ Hs) as Hst.
  destruct c as [n|n b|n|n| |]; cbn [reserve_step] in Hstep; try discriminate; cbn [size_of] in Hsz.
  - injection Hstep as <- <-. eapply update_call; try done; cbn; try lia. split; [done|]. apply Hs.
  - pose proof (used_range s Hs). pose proof (oi_used _ _ _ _ Hs). pose proof (oi_flight _ _ _ _ Hs).
    pose proof (total_room (λ c, counted c - granted c) s i _ (undone_bounds s HF) Hi eq_refl) as R. rewrite total_sub in R. cbn in R.
    destruct (add_used_exact n (sys_occ s)) as [E1 E2]; [unfold i64, two63 in *; lia|]. destruct (totals s B HF) as [[T1 T2] _].
    destruct (Z.leb_spec b 0); [lia|]. destruct (Z.leb_spec (occ_used (add_used n (sys_occ s))) b) as [Hle|Hgt]; injection Hstep as <- <-;
      eapply update_call; try done; cbn [size_of counted granted]; lia.
  - injection Hstep as <- <-. eapply update_call; try done; cbn [size_of counted granted]; try lia.
    pose proof (take_back s i _ Hs Hi) as E. cbn [counted] in E. lia.
Qed.

Lemma ostep_inv s s' : occ_inv B M S s → ostep B M s s' → occ_inv B M S s'.
Proof.
  intros Hs Hstep. pose proof (oi_bound _ _ _ _ Hs) as Hbd. pose proof (oi_stored _ _ _ _ Hs). pose proof (oi_removed _ _ _ _ Hs).
  destruct Hstep as [s n Hn Hroom'|s i c Hi Hc|s i c c' o' Hi Hc|s i n Hi|s i n Hi|s m Hm|s|s b Hb].
  - pose proof (oi_used _ _ _ _ Hs) as Hu. split; cbn [sys_calls sys_occ sys_stored sys_removed]; try apply Hs;
      unfold total in *; cbn [sys_calls]; rewrite ?map_app, ?zsum_app; cbn; try lia.
    apply Forall_app. split; [apply Hs|]. by repeat constructor.
  - pose proof (Forall_lookup_1 _ _ _ _ (oi_calls _ _ _ _ Hs) Hi) as [Hsz _].
    assert (granted c = 0) by (destruct c; cbn in *; lia). eapply update_call; try done; cbn; lia.
  - by eapply ostep_reserve_inv.
  - pose proof (Forall_lookup_1 _ _ _ _ (oi_calls _ _ _ _ Hs) Hi) as [Hsz _]. cbn in Hsz. eapply update_call; try done; cbn; lia.
  - pose proof (Forall_lookup_1 _ _ _ _ (oi_calls _ _ _ _ Hs) Hi) as [Hsz _]. cbn in Hsz.
    pose proof (take_back s i _ Hs Hi) as E. cbn [counted] in E.
    eapply update_call; try done; cbn [size_of counted granted]; try lia. unfold release. lia.
  - pose proof (oi_used _ _ _ _ Hs). split; cbn [sys_calls sys_occ sys_stored sys_removed]; try apply Hs; unfold total in *; cbn [sys_calls]; lia.
  - pose proof (used_range s Hs). pose proof (oi_used _ _ _ _ Hs) as Hu. destruct (totals s B (oi_calls _ _ _ _ Hs)) as [[? ?] ?].
    destruct (add_used_exact (- sys_removed s) (sys_occ s)) as [E1 E2]; [unfold i64, two63 in *; lia|].
    split; cbn [sys_calls sys_occ sys_stored sys_removed]; unfold release; rewrite ?E1, ?E2; try apply Hs; unfold total in *; cbn [sys_calls]; lia.
  - split; cbn [sys_calls sys_occ sys_stored sys_removed]; try apply Hs; done.
Qed.

Lemma started_inv n b : 0 <= n <= S → 0 < b <= B → occ_inv B M S (started n b).
Proof. intros Hn Hb. split; unfold total; cbn; try lia. constructor. Qed.

Lemma reachable_inv n b s : 0 <= n <= S → 0 < b <= B → rtc (ostep B M) (started n b) s → occ_inv B M S s.
Proof.
  intros Hn Hb Hr. pose proof (started_inv n b Hn Hb) as H0. revert H0. induction Hr as [|s1 s2 s3 H1 _ IH]; [done|].
  intros Hs. apply IH. by eapply ostep_inv.
Qed.
End Invariant.

(** In every interleaving of reservations, stores, failures, pruning and
    budget changes, the counter is exactly what is on disk, what pruning removed
    and has not released yet and what calls in flight have added; the bytes
    stored and granted never exceed the largest budget, or what the server
    started with; and an uninterrupted reservation is granted exactly when its
    size fits the budget. *)
Theorem occupancy_within_budget B M S n b s : Z.max S B + M < two63 → 0 <= M → 0 <= n <= S → 0 < b <= B →
  rtc (ostep B M) (started n b) s →
  occ_used (sys_occ s) = sys_stored s + sys_removed s + total counted s ∧
  sys_stored s + sys_removed s + total granted s <= Z.max S B ∧
  ∀ m, 0 <= m → total size_of s + m <= M →
    (run_call 3 (Reserving m) (sys_occ s)).1 = if bool_decide (occ_used (sys_occ s) + m <= occ_budget (sys_occ s)) then Granted m else Rejected.
Proof.
  intros Hroom HM Hn Hb Hr. pose proof (reachable_inv B M S Hroom HM n b s Hn Hb Hr) as Hs.
  split; [apply Hs|]. split; [apply Hs|]. intros m Hm Hfit. rewrite reserve_run. cbn [fst]. unfold reserve.
  pose proof (oi_budget _ _ _ _ Hs). destruct (Z.leb_spec (occ_budget (sys_occ s)) 0); [lia|].
  pose proof (used_range B M S s Hs) as Hu. destruct (totals s B (oi_calls _ _ _ _ Hs)) as [[T1 T2] T3].
  pose proof (oi_bound _ _ _ _ Hs). pose proof (oi_used _ _ _ _ Hs).
  assert (total counted s - total granted s <= total size_of s) as Hcg.
  { rewrite <- (total_sub B S). apply zsum_map_le. eapply Forall_impl; [apply (undone_bounds B M s (oi_calls _ _ _ _ Hs))|]. cbn. lia. }
  destruct (add_used_exact m (sys_occ s)) as [E1 E2]; [unfold i64, two63 in *; lia|]. rewrite E1.
  destruct (Z.leb_spec (occ_used (sys_occ s) + m) (occ_budget (sys_occ s))); [by rewrite bool_decide_true|by rewrite bool_decide_false by lia].
Qed.

(** A server with 40 bytes on disk and a budget of 100: one upload is stored,
    then another is refused and a third admitted. *)
Module OccupancyExample.

Definition s1 : system := mkSystem (mkOccupancy 90 100) [Finished] 90 0.

Lemma occupancy_run : rtc (ostep 100 200) (started 40 100) s1.
Proof.
  eapply rtc_l; [apply (ostep_start _ _ _ 50); [lia|vm_compute; discriminate]|].
  eapply rtc_l; [by eapply (ostep_reserve _ _ _ 0 (Reserving 50))|]. eapply rtc_l; [by eapply (ostep_reserve _ _ _ 0 (Loaded 50 100))|].
  eapply rtc_l; [by apply (ostep_stored _ _ _ 0 50)|]. apply rtc_refl.
Qed.

Lemma occupancy_within_budget_witness : occ_used (sys_occ s1) = 90 ∧ sys_stored s1 <= 100 ∧
  (run_call 3 (Reserving 20) (sys_occ s1)).1 = Rejected ∧ (run_call 3 (Reserving 10) (sys_occ s1)).1 = Granted 10.
Proof.
  assert (Z.max 100 100 + 200 < two63) as H1 by (unfold two63; lia).
  destruct (occupancy_within_budget 100 200 100 40 100 s1 H1 ltac:(lia) ltac:(lia) ltac:(lia) occupancy_run) as (E & H2 & H3).
  split; [exact E|]. split; [exact H2|]. split; [exact (H3 20 ltac:(lia) ltac:(vm_compute; discriminate))|].
  exact (H3 10 ltac:(lia) ltac:(vm_compute; discriminate)).
Defined.
End OccupancyExample.
