(* ===== verification/ProtocolParams.v ===== *)
(** * Protocol parameters

    [fibre/protocol_params.go]: the constants of the protocol and what follows
    from them: numbers of rows, rows per validator, sizes of rows, shards and
    messages. An [int] is a [Z] with the wrap-around of its operations; a
    [float64] is a floating-point number of 53 bits of precision, with the
    operations of IEEE 754. *)

From S2P Require Import Prelude Sdk ValidatorSet FibrePromise Rlc.
From Stdlib Require Import SpecFloat.
#[local] Open Scope Z_scope.

(** ** Numbers *)

Abbreviation float64 := spec_float (only parsing).

(** [float64(n)]. *)
Definition float_of_int (n : Z) : spec_float := binary_normalize 53 1024 n 0 false.
Definition float_div : spec_float → spec_float → spec_float := SFdiv 53 1024.
Definition float_sub : spec_float → spec_float → spec_float := SFsub 53 1024.
Definition float_add : spec_float → spec_float → spec_float := SFadd 53 1024.
Definition float_lt (a b : spec_float) : bool := SFltb a b.

(** The truncation of [m * 2^e]. *)
Definition trunc (m : positive) (e : Z) : Z := if 0 <=? e then Z.pos m * 2 ^ e else Z.pos m / 2 ^ (- e).

(** [int(f)]; the value for numbers that have none in range is that of amd64. *)
Definition int_of_float (f : spec_float) : Z :=
  match f with
  | S754_zero _ => 0
  | S754_finite s m e =>
      let z := if s then - trunc m e else trunc m e in
      if bool_decide (- two63 <= z < two63) then z else - two63
  | _ => - two63
  end.

(** [math.Ceil]. *)
Definition math_Ceil (f : spec_float) : spec_float :=
  match f with
  | S754_finite s m e =>
      if 0 <=? e then f
      else if s then binary_normalize 53 1024 (- trunc m e) 0 true
      else binary_normalize 53 1024 (if Z.pos m mod 2 ^ (- e) =? 0 then trunc m e else trunc m e + 1) 0 false
  | _ => f
  end.

(** [math.Log2]. *)
Class Math := { math_Log2 : spec_float → spec_float }.

Definition int_add (a b : Z) : Z := wrap_i64 (a + b).
Definition int_sub (a b : Z) : Z := wrap_i64 (a - b).
Definition int_mul (a b : Z) : Z := wrap_i64 (a * b).

(** Division of [int] truncates and panics on zero. *)
Definition int_div (a b : Z) : result Z := int64_div a b.
Definition int_rem (a b : Z) : result Z :=
  if b =? 0 then Panic "integer divide by zero" else Ok (Z.rem a b).

Definition ceilDiv (a b : Z) : result Z := int_div (int_sub (int_add a b) 1) b.

(** [bits.Len(uint(n))]. *)
Definition bits_Len_uint (n : Z) : Z := let u := wrap_u64 n in if u =? 0 then 0 else Z.log2 u + 1.

Definition ceilPow2 (n : Z) : Z :=
  if n <=? 1 then 1
  else if Z.land n (n - 1) =? 0 then n
  else wrap_i64 (Z.shiftl 1 (bits_Len_uint (n - 1))).

(** ** Parameters *)

Record ProtocolParams := mkProtocolParams {
  pp_Rows : Z;
  pp_EncodingRatio : spec_float;
  pp_MaxValidatorCount : Z;
  pp_UniqueDecodingSecurityBits : Z;
  pp_SafetyThreshold : Fraction;
  pp_LivenessThreshold : Fraction;
  pp_MaxBlobSize : Z;
  pp_MinRowSize : Z;
}.

(** The float 0.25. *)
Definition quarter : spec_float := S754_finite false (2 ^ 52) (-54).

Definition DefaultProtocolParams : ProtocolParams := {|
  pp_Rows := Z.shiftl 1 12;
  pp_EncodingRatio := quarter;
  pp_MaxValidatorCount := 100;
  pp_UniqueDecodingSecurityBits := 100;
  pp_SafetyThreshold := mkFraction 2 3;
  pp_LivenessThreshold := mkFraction 1 3;
  pp_MaxBlobSize := Z.shiftl 1 27;
  pp_MinRowSize := Z.of_nat LeopardChunkSize;
|}.

(** The check at start-up. *)
Definition init (p : ProtocolParams) : result unit :=
  let livenessRatio := float_div (float_of_int (Numerator (pp_LivenessThreshold p)))
                                 (float_of_int (Denominator (pp_LivenessThreshold p))) in
  if float_lt livenessRatio (pp_EncodingRatio p)
  then Panic "LivenessThreshold must always be bigger than EncodingRatio as we cannot disperse samples without overlap"
  else Ok tt.

Section Params.
Context (p : ProtocolParams).

Definition TotalRows : Z := int_of_float (float_div (float_of_int (pp_Rows p)) (pp_EncodingRatio p)).
Definition ParityRows : Z := int_sub TotalRows (pp_Rows p).

Definition CodecWorkRows : Z :=
  let m := ceilPow2 ParityRows in
  Z.max (int_mul 2 m) (ceilPow2 (int_add m (pp_Rows p))).

(** The fields of a [Fraction] are unsigned; their difference wraps at 64 bits
    before the conversion. *)
Definition MaxRowsPerValidator : result Z :=
  let maxStakeNum := wrap_i64 (wrap_u64 (Denominator (pp_SafetyThreshold p) - Numerator (pp_SafetyThreshold p))) in
  let maxStakeDen := wrap_i64 (Denominator (pp_SafetyThreshold p)) in
  let num := int_mul (int_mul (pp_Rows p) maxStakeNum) (wrap_i64 (Denominator (pp_LivenessThreshold p))) in
  let den := int_mul maxStakeDen (wrap_i64 (Numerator (pp_LivenessThreshold p))) in
  ceilDiv num den.

Definition ValidatorsForReconstruction : result Z :=
  let num := wrap_i64 (Numerator (pp_LivenessThreshold p)) in
  let den := wrap_i64 (Denominator (pp_LivenessThreshold p)) in
  n ← ceilDiv (int_mul (pp_MaxValidatorCount p) num) den;
  Ok (Z.max 1 n).

Definition MinRowsPerValidator `{Math} : result Z :=
  let one := float_of_int 1 in
  let uniqueDecodeSamples := int_of_float (math_Ceil
    (float_div (float_of_int (pp_UniqueDecodingSecurityBits p))
               (float_sub one (math_Log2 (float_add one (pp_EncodingRatio p)))))) in
  let num := wrap_i64 (Numerator (pp_LivenessThreshold p)) in
  let den := wrap_i64 (Denominator (pp_LivenessThreshold p)) in
  n ← ceilDiv (int_mul (pp_MaxValidatorCount p) num) den;
  let validatorsForReconstruction := Z.max 1 n in
  reconstructionSamples ← ceilDiv (pp_Rows p) validatorsForReconstruction;
  Ok (Z.max uniqueDecodeSamples reconstructionSamples).

Definition RowSize (blobVersion totalLen : Z) : result Z :=
  if negb (blobVersion =? 0) then Panic "unsupported blob version"
  else if totalLen =? 0 then Ok 0
  else
    rowSize ← ceilDiv totalLen (pp_Rows p);
    r ← int_rem rowSize (pp_MinRowSize p);
    if negb (r =? 0)
    then q ← int_div rowSize (pp_MinRowSize p); Ok (int_mul (int_add q 1) (pp_MinRowSize p))
    else Ok rowSize.

Definition MaxRowSize (blobVersion : Z) : result Z := RowSize blobVersion (pp_MaxBlobSize p).

Definition rowIndexSize : Z := 4.
Definition rlcEntrySize : Z := 16.

Definition MaxShardSize : result Z :=
  let totalRows := TotalRows in
  maxRowSize ← MaxRowSize 0;
  let rlcsSize := int_mul (pp_Rows p) rlcEntrySize in
  let treeDepth := bits_Len_uint (int_sub totalRows 1) in
  let proofSizePerRow := int_mul treeDepth 32 in
  n ← MaxRowsPerValidator;
  Ok (int_add rlcsSize (int_mul n (int_add (int_add rowIndexSize maxRowSize) proofSizePerRow))).

Definition MaxMessageSize : result Z :=
  shard ← MaxShardSize;
  let msgSize := int_add shard (Z.of_nat MaxPaymentPromiseSize) in
  overhead ← int_div msgSize 50;
  Ok (int_add msgSize overhead).
End Params.

(** ** The default parameters *)

Lemma default_params_init : init DefaultProtocolParams = Ok tt.
Proof. reflexivity. Qed.

Lemma default_rows : TotalRows DefaultProtocolParams = 16384 ∧ ParityRows DefaultProtocolParams = 12288 ∧
  CodecWorkRows DefaultProtocolParams = 32768 ∧ MaxRowsPerValidator DefaultProtocolParams = Ok 4096 ∧
  ValidatorsForReconstruction DefaultProtocolParams = Ok 34.
Proof. repeat split; reflexivity. Qed.

Lemma default_sizes : MaxRowSize DefaultProtocolParams 0 = Ok 32768 ∧ MaxShardSize DefaultProtocolParams = Ok 136134656 ∧
  MaxMessageSize DefaultProtocolParams = Ok 138857562.
Proof. repeat split; reflexivity. Qed.

(** ** Row sizes *)

(** Parameters within the range of an [int], with room for the rounding. *)
Record sizes_ok (p : ProtocolParams) (len : Z) : Prop := {
  so_rows : 0 < pp_Rows p;
  so_unit : 0 < pp_MinRowSize p;
  so_len : 0 < len;
  so_fits : len + pp_Rows p + pp_MinRowSize p < two63;
}.

(** The row size is the least multiple of the unit for which the rows hold the
    blob. *)
Lemma RowSize_least p len : sizes_ok p len →
  ∃ size, RowSize p 0 len = Ok size ∧ (pp_MinRowSize p | size) ∧ len <= pp_Rows p * size ∧ 0 < size ∧
    pp_Rows p * (size - pp_MinRowSize p) < len.
Proof.
  intros [HR HU HL Hf]. unfold RowSize, ceilDiv, int_div, int64_div, int_rem, int_sub, int_add, int_mul, two63 in *.
  set (R := pp_Rows p) in *. set (U := pp_MinRowSize p) in *. cbn [Z.eqb negb]. destruct (Z.eqb_spec len 0); [lia|].
  destruct (Z.eqb_spec R 0); [lia|]. rewrite (wrap_i64_id (len + R)), (wrap_i64_id (len + R - 1)) by fits.
  rewrite Z.quot_div_nonneg by lia. set (c := (len + R - 1) / R).
  pose proof (Z.div_mod (len + R - 1) R ltac:(lia)) as Ec. pose proof (Z.mod_pos_bound (len + R - 1) R HR). fold c in Ec.
  assert (0 < c <= len) as Hc by nia.
  rewrite (wrap_i64_id c) by fits. cbn [mbind result_bind]. destruct (Z.eqb_spec U 0); [lia|]. cbn [mbind result_bind].
  rewrite Z.rem_mod_nonneg, Z.quot_div_nonneg by lia. pose proof (Z.div_mod c U ltac:(lia)) as Eq. pose proof (Z.mod_pos_bound c U HU).
  destruct (Z.eqb_spec (c mod U) 0) as [E0|E0]; cbn [negb mbind result_bind].
  - exists c. split; [done|]. split; [by apply Z.mod_divide; lia|]. split; [nia|]. split; [lia|]. nia.
  - assert (0 <= c / U <= c) by (split; [apply Z.div_pos|apply Z.div_le_upper_bound]; nia).
    rewrite (wrap_i64_id (c / U)), (wrap_i64_id (c / U + 1)) by fits.
    assert ((c / U + 1) * U = c - c mod U + U) as E by lia. rewrite wrap_i64_id by (rewrite E; fits).
    eexists. split; [done|]. split; [by exists (c / U + 1)|]. split; [nia|]. split; [nia|].
    assert (R * ((c / U + 1) * U - U) <= R * (c - 1)) by (apply Z.mul_le_mono_nonneg_l; lia). nia.
Qed.
