(* ===== verification/RowPool.v ===== *)
(** * The pool of row buffers

    [fibre/internal/row/pool.go]: slabs of a fixed number of rows, kept in
    buckets by row size. Each bucket has its own mutex, so the steps that
    interleave are the operations of one bucket. A slab is known by the address
    of its record, here a number; its bytes are not modelled, only their count
    and whether the region was given back to the system. *)

From S2P Require Import Prelude.
#[local] Open Scope Z_scope.

Definition rowSizeAlign : Z := 64.
Definition headerSize : Z := 64.
Definition slack : nat := 2.
Definition evictionThreshold : Z := 4.

(** ** Data *)

(** [sl_region] is the length of the backing region, header included;
    [sl_alive] turns false when [free] released it. *)
Record slab := mkSlab { sl_bucket : nat; sl_region : Z; sl_alive : bool; sl_lastPut : Z; sl_usedIdx : nat }.

(** [bk_idle] tells whether the idle timer is armed. *)
Record bucket := mkBucket { bk_gen : Z; bk_free : list nat; bk_used : list nat; bk_idle : bool }.

Record Pool := mkPool { p_rowCount : Z; p_maxRowSize : Z; p_buckets : list bucket; p_slabs : gmap nat slab; p_next : nat }.

Definition NewPool (maxRowSize rowCount : Z) : result Pool :=
  if (maxRowSize <? rowSizeAlign) || negb (Z.rem maxRowSize rowSizeAlign =? 0)
  then Panic "row: maxRowSize must be a positive multiple of 64"
  else if rowCount <=? 0 then Panic "row: rowCount must be positive"
  else Ok (mkPool rowCount maxRowSize (repeat (mkBucket 0 [] [] false) (Z.to_nat (Z.quot maxRowSize rowSizeAlign))) ∅ 0).

(** ** Operations of one bucket

    They take the bucket with the slabs, and return both. *)

Notation slabs := (gmap nat slab).

Definition release_region (s : slab) : slab := mkSlab (sl_bucket s) (sl_region s) false (sl_lastPut s) (sl_usedIdx s).
Definition with_usedIdx (i : nat) (s : slab) : slab := mkSlab (sl_bucket s) (sl_region s) (sl_alive s) (sl_lastPut s) i.
Definition with_lastPut (g : Z) (s : slab) : slab := mkSlab (sl_bucket s) (sl_region s) (sl_alive s) g (sl_usedIdx s).

Definition lastPut (m : slabs) (id : nat) : Z := from_option sl_lastPut 0 (m !! id).

Definition evict (bk : bucket) (m : slabs) : bucket * slabs :=
  match bk_free bk with
  | [] => (bk, m)
  | oldest :: rest =>
      if wrap_u64 (bk_gen bk - lastPut m oldest) <? evictionThreshold then (bk, m)
      else (mkBucket (bk_gen bk) rest (bk_used bk) (bk_idle bk), alter release_region oldest m)
  end.

(** [cancelIdle], the generation, [evict], and the link into [used]. *)
Definition use (id : nat) (bk : bucket) (m : slabs) : bucket * slabs :=
  let '(bk, m) := evict (mkBucket (wrap_u64 (bk_gen bk + 1)) (bk_free bk) (bk_used bk) false) m in
  (mkBucket (bk_gen bk) (bk_free bk) (bk_used bk ++ [id]) (bk_idle bk), alter (with_usedIdx (length (bk_used bk))) id m).

Definition bucket_pop (bk : bucket) (m : slabs) : option nat * bucket * slabs :=
  match last (bk_free bk) with
  | None => (None, bk, m)
  | Some id =>
      let bk := mkBucket (bk_gen bk) (take (length (bk_free bk) - 1) (bk_free bk)) (bk_used bk) (bk_idle bk) in
      let '(bk, m) := use id bk m in (Some id, bk, m)
  end.

(** The allocation has the address [id] and the region of [headerSize] and
    [dataSize] bytes, in the bucket of index [b]. *)
Definition bucket_new (id b : nat) (dataSize : Z) (bk : bucket) (m : slabs) : bucket * slabs :=
  use id bk (<[id := mkSlab b (headerSize + dataSize) true 0 0]> m).

(** Swap-delete from [used]: the last slab takes the place of [id]. *)
Definition bucket_put (id : nat) (s : slab) (bk : bucket) (m : slabs) : result (bucket * slabs) :=
  match bk_used bk !! sl_usedIdx s with
  | Some id' =>
      if bool_decide (id' = id) then
        let last := (length (bk_used bk) - 1)%nat in
        let '(used, m) :=
          if (sl_usedIdx s =? last)%nat then (bk_used bk, m)
          else match bk_used bk !! last with
               | Some moved => (<[sl_usedIdx s := moved]> (bk_used bk), alter (with_usedIdx (sl_usedIdx s)) moved m)
               | None => (bk_used bk, m)
               end in
        let used := take last used in
        Ok (mkBucket (bk_gen bk) (bk_free bk ++ [id]) used ((length used =? 0)%nat || bk_idle bk),
            alter (with_lastPut (bk_gen bk)) id m)
      else Panic "row: Put called with released or already-freed slab"
  | None => Panic "row: Put called with released or already-freed slab"
  end.

(** The callback of the idle timer. *)
Definition dropIdle (bk : bucket) (m : slabs) : bucket * slabs :=
  match bk_used bk with
  | [] => (mkBucket (bk_gen bk) [] [] false, foldl (λ m id, alter release_region id m) m (bk_free bk))
  | _ => (mkBucket (bk_gen bk) (bk_free bk) (bk_used bk) false, m)
  end.

(** ** Operations of the pool *)

Definition set_bucket (p : Pool) (i : nat) (bk : bucket) (m : slabs) : Pool :=
  mkPool (p_rowCount p) (p_maxRowSize p) (<[i := bk]> (p_buckets p)) m (p_next p).

Definition pop_at (i : nat) (p : Pool) : option nat * Pool :=
  match p_buckets p !! i with
  | None => (None, p)
  | Some bk => let '(r, bk, m) := bucket_pop bk (p_slabs p) in (r, set_bucket p i bk m)
  end.

Definition new_at (i : nat) (dataSize : Z) (p : Pool) : nat * Pool :=
  let id := p_next p in
  match p_buckets p !! i with
  | None => (id, p)
  | Some bk =>
      let '(bk, m) := bucket_new id i dataSize bk (p_slabs p) in
      (id, mkPool (p_rowCount p) (p_maxRowSize p) (<[i := bk]> (p_buckets p)) m (S id))
  end.

Definition drop_at (i : nat) (p : Pool) : Pool :=
  match p_buckets p !! i with
  | None => p
  | Some bk => let '(bk, m) := dropIdle bk (p_slabs p) in set_bucket p i bk m
  end.

(** [putBuf] of a buffer carved from the slab [id]. *)
Definition putBuf (id : nat) (p : Pool) : result Pool :=
  match p_slabs p !! id with
  | None => Panic "invalid memory address or nil pointer dereference"
  | Some s =>
      match p_buckets p !! sl_bucket s with
      | None => Panic "invalid memory address or nil pointer dereference"
      | Some bk => '(bk, m) ← bucket_put id s bk (p_slabs p); Ok (set_bucket p (sl_bucket s) bk m)
      end
  end.

Definition sizeIdx (size : Z) : nat := Z.to_nat (Z.quot size rowSizeAlign - 1).

(** The walk of [pop] over the buckets [i], [i+1], ... *)
Fixpoint pop_walk (n i : nat) (p : Pool) : option nat * Pool :=
  match n with
  | O => (None, p)
  | S n' => match pop_at i p with
            | (Some id, p) => (Some id, p)
            | (None, p) => pop_walk n' (S i) p
            end
  end.

Definition pop (size : Z) (p : Pool) : option nat * Pool :=
  let maxIdx := Nat.min (sizeIdx size + slack) (length (p_buckets p) - 1) in
  pop_walk (S maxIdx - sizeIdx size) (sizeIdx size) p.

Definition acquire (n size : Z) (p : Pool) : result (nat * Pool) :=
  if negb (n =? p_rowCount p) then Panic "row: rowCount does not match pool's"
  else if (size <? rowSizeAlign) || (p_maxRowSize p <? size) || negb (Z.rem size rowSizeAlign =? 0)
  then Panic "row: size invalid"
  else match pop size p with
       | (Some id, p) => Ok (id, p)
       | (None, p) => Ok (new_at (sizeIdx size) (n * size) p)
       end.

(** The offsets of the rows of [carve], which must lie within the region. *)
Definition carve (s : slab) (n size : Z) : result (list (Z * Z)) :=
  fold_res (λ acc i,
      let off := headerSize + Z.of_nat i * size in
      if (off + size <=? sl_region s) && (0 <=? off) then Ok (acc ++ [(off, off + size)])
      else Panic "slice bounds out of range")
    (seq 0 (Z.to_nat n)) [].

(** [Get] and [GetRegion]: the slab with its rows, or with its data region. *)
Definition pool_Get (n size : Z) (p : Pool) : result (nat * list (Z * Z) * Pool) :=
  '(id, p) ← acquire n size p;
  s ← of_option "" (p_slabs p !! id);
  rows ← carve s n size;
  Ok (id, rows, p).

Definition GetRegion (n size : Z) (p : Pool) : result (nat * (Z * Z) * Pool) :=
  '(id, p) ← acquire n size p;
  s ← of_option "" (p_slabs p !! id);
  if headerSize + n * size <=? sl_region s then Ok (id, (headerSize, headerSize + n * size), p)
  else Panic "slice bounds out of range".

Definition Slabs (p : Pool) : nat := sum_list_with (λ bk, length (bk_used bk) + length (bk_free bk))%nat (p_buckets p).
