(* ===== verification/RowPoolProofs.v ===== *)
(** * Ownership of row buffers

    Whatever clients and idle timers do to the buckets of a pool, a slab is in
    one place: in use by one client, free in its bucket, or released. *)

From S2P Require Import Prelude RowPool.
#[local] Open Scope Z_scope.

(** ** One bucket *)

(** A live slab of bucket [i] with a region of [R] bytes. *)
Definition good (i : nat) (R : Z) (s : slab) : Prop := sl_bucket s = i ∧ sl_alive s = true ∧ sl_region s = R.

Record bucket_ok (i : nat) (R : Z) (bk : bucket) (m : slabs) : Prop := {
  bo_nodup : NoDup (bk_used bk ++ bk_free bk);
  bo_good id : id ∈ bk_used bk ++ bk_free bk → ∃ s, m !! id = Some s ∧ good i R s;
  bo_index j id : bk_used bk !! j = Some id → ∃ s, m !! id = Some s ∧ sl_usedIdx s = j;
}.

(** Slabs of other buckets keep their records. *)
Definition frame (i : nat) (m m' : slabs) : Prop :=
  ∀ id s, sl_bucket s ≠ i → m !! id = Some s ↔ m' !! id = Some s.

#[global] Instance frame_refl i : Reflexive (frame i).
Proof. intros m id s _. done. Qed.
#[global] Instance frame_trans i : Transitive (frame i).
Proof. intros m1 m2 m3 H1 H2 id s Hs. etrans; [by apply H1|by apply H2]. Qed.

Lemma frame_alter i (f : slab → slab) id m : (∀ s, sl_bucket (f s) = sl_bucket s) →
  (∀ s, m !! id = Some s → sl_bucket s = i) → frame i m (alter f id m).
Proof.
  intros Hf Hid id' s Hs. destruct (decide (id' = id)) as [->|Hne]; [|by rewrite lookup_alter_ne].
  rewrite lookup_alter_eq. destruct (m !! id) as [s0|] eqn:E; [|done]. cbn. specialize (Hid _ eq_refl).
  split; intros [= <-]; [done|]. by rewrite Hf in Hs.
Qed.

Lemma evict_ok i R bk m : bucket_ok i R bk m →
  let '(bk', m') := evict bk m in
  bucket_ok i R bk' m' ∧ frame i m m' ∧ bk_used bk' = bk_used bk ∧ bk_free bk' `suffix_of` bk_free bk ∧
  (∀ id, id ∉ bk_free bk → m' !! id = m !! id) ∧ dom m' = dom m.
Proof.
  intros Hok. unfold evict. destruct (bk_free bk) as [|oldest rest] eqn:Ef; [by rewrite Ef|].
  destruct (_ <? _); [by rewrite Ef|]. pose proof (bo_nodup _ _ _ _ Hok) as Hnd. rewrite Ef in Hnd.
  pose proof Hnd as Hnd'. rewrite <- Permutation_middle in Hnd. apply NoDup_cons in Hnd as [Hn Hnd].
  cbn [bk_used bk_free]. split; [split; cbn [bk_used bk_free]|split; [|split; [done|split; [by exists [oldest]|split]]]].
  - done.
  - intros id Hid. rewrite lookup_alter_ne by (intros ->; done). apply (bo_good _ _ _ _ Hok). rewrite Ef. set_solver.
  - intros j id Hj. rewrite lookup_alter_ne; [by apply (bo_index _ _ _ _ Hok)|]. intros ->. apply Hn.
    apply elem_of_app. left. by eapply list_elem_of_lookup_2.
  - apply frame_alter; [done|]. intros s Hs. destruct (bo_good _ _ _ _ Hok oldest) as (s' & Hs' & [Hb _]); [rewrite Ef; set_solver|congruence].
  - intros id Hid. apply lookup_alter_ne. set_solver.
  - apply dom_alter_L.
Qed.

(** Linking a slab that is in neither list. *)
Lemma use_ok i R bk m id s : bucket_ok i R bk m → id ∉ bk_used bk ++ bk_free bk → m !! id = Some s → good i R s →
  let '(bk', m') := use id bk m in
  bucket_ok i R bk' m' ∧ frame i m m' ∧ bk_used bk' = bk_used bk ++ [id] ∧ bk_free bk' `suffix_of` bk_free bk ∧ dom m' = dom m.
Proof.
  intros Hok Hid Hs Hg. unfold use.
  pose proof (evict_ok i R (mkBucket (wrap_u64 (bk_gen bk + 1)) (bk_free bk) (bk_used bk) false) m) as He.
  destruct (evict _ m) as [bk1 m1]. destruct He as (Hok1 & Hfr & Hu & Hsf & Hsame & Hdom); [by destruct Hok|]. cbn in Hu, Hsf, Hsame.
  assert (m1 !! id = Some s) as Hs1 by (rewrite Hsame; [done|set_solver]). cbn [bk_used bk_free].
  assert (id ∉ bk_used bk1 ++ bk_free bk1) as Hid1.
  { rewrite Hu. destruct Hsf as [k Hk]. rewrite Hk in Hid. set_solver. }
  split; [split; cbn [bk_used bk_free]|split; [|split; [by rewrite Hu|split; [done|by rewrite dom_alter_L]]]].
  - rewrite <- app_assoc. cbn. rewrite <- Permutation_middle. apply NoDup_cons. split; [done|apply Hok1].
  - intros id' Hin. destruct (decide (id' = id)) as [->|Hne].
    + rewrite lookup_alter_eq, Hs1. cbn. eexists. split; [done|]. done.
    + rewrite lookup_alter_ne by done. apply (bo_good _ _ _ _ Hok1). set_solver.
  - intros j id' Hj. destruct (decide (id' = id)) as [->|Hne].
    + rewrite lookup_alter_eq, Hs1. cbn. eexists. split; [done|]. cbn.
      apply lookup_app_Some in Hj as [Hj|[Hle Hj]]; [exfalso; apply Hid1, elem_of_app; left; by eapply list_elem_of_lookup_2|].
      apply list_lookup_singleton_Some in Hj as [Hj _]. lia.
    + rewrite lookup_alter_ne by done. apply (bo_index _ _ _ _ Hok1). apply lookup_app_Some in Hj as [Hj|[_ Hj]]; [done|].
      apply list_lookup_singleton_Some in Hj as [_ Hj]. congruence.
  - etrans; [exact Hfr|]. apply frame_alter; [done|]. intros s' Hs'. rewrite Hs1 in Hs'. injection Hs' as <-. apply Hg.
Qed.

Lemma bucket_pop_ok i R bk m : bucket_ok i R bk m →
  match bucket_pop bk m with
  | (Some id, bk', m') => bucket_ok i R bk' m' ∧ frame i m m' ∧ bk_used bk' = bk_used bk ++ [id] ∧ id ∈ bk_free bk ∧ dom m' = dom m
  | (None, bk', m') => bk' = bk ∧ m' = m
  end.
Proof.
  intros Hok. unfold bucket_pop. destruct (last (bk_free bk)) as [id|] eqn:El; [|done].
  apply last_Some in El as [front Ef]. rewrite Ef, length_app. cbn [length]. replace (length front + 1 - 1)%nat with (length front) by lia.
  rewrite take_app_length. pose proof (bo_nodup _ _ _ _ Hok) as Hnd. rewrite Ef in Hnd.
  destruct (bo_good _ _ _ _ Hok id) as (s & Hs & Hg); [rewrite Ef; set_solver|].
  pose proof (use_ok i R (mkBucket (bk_gen bk) front (bk_used bk) (bk_idle bk)) m id s) as Hu.
  destruct (use id _ m) as [bk' m']. cbn [bk_used bk_free] in Hu. destruct Hu as (Hok' & Hfr & Hused & _ & Hd); [| |done|done|].
  - split; cbn [bk_used bk_free].
    + rewrite app_assoc in Hnd. by apply NoDup_app in Hnd as [? _].
    + intros id' Hin. apply (bo_good _ _ _ _ Hok). rewrite Ef. set_solver.
    + apply Hok.
  - rewrite app_assoc in Hnd. apply NoDup_app in Hnd as (_ & Hd & _). intros Hin. apply (Hd id Hin). set_solver.
  - split; [done|]. split; [done|]. split; [done|]. split; [set_solver|done].
Qed.

Lemma bucket_new_ok i R id dataSize bk m : bucket_ok i R bk m → m !! id = None → headerSize + dataSize = R →
  let '(bk', m') := bucket_new id i dataSize bk m in
  bucket_ok i R bk' m' ∧ frame i m m' ∧ bk_used bk' = bk_used bk ++ [id] ∧ dom m' = {[id]} ∪ dom m.
Proof.
  intros Hok Hid HR. unfold bucket_new. set (s := mkSlab i (headerSize + dataSize) true 0 0).
  assert (id ∉ bk_used bk ++ bk_free bk) as Hnin.
  { intros Hin. destruct (bo_good _ _ _ _ Hok id Hin) as (s' & Hs' & _). congruence. }
  pose proof (use_ok i R bk (<[id := s]> m) id s) as Hu. destruct (use id bk _) as [bk' m'].
  destruct Hu as (Hok' & Hfr & Hused & _ & Hd); [|done|by rewrite lookup_insert_eq|done|].
  - split; [apply Hok| |].
    + intros id' Hin. rewrite lookup_insert_ne by (intros ->; done). by apply (bo_good _ _ _ _ Hok).
    + intros j id' Hj. rewrite lookup_insert_ne; [by apply (bo_index _ _ _ _ Hok)|]. intros ->. apply Hnin, elem_of_app. left.
      by eapply list_elem_of_lookup_2.
  - split; [done|]. split; [|split; [done|by rewrite Hd, dom_insert_L]]. etrans; [|exact Hfr]. intros id' s' Hs'.
    destruct (decide (id' = id)) as [->|Hne]; [|by rewrite lookup_insert_ne]. rewrite lookup_insert_eq, Hid. split; [done|].
    intros [= <-]. done.
Qed.

(** Changes of the bookkeeping fields keep a slab good. *)
Lemma alter_good i R (f : slab → slab) id (m : slabs) id' : (∀ s, good i R s → good i R (f s)) →
  (∃ s, m !! id' = Some s ∧ good i R s) → ∃ s, alter f id m !! id' = Some s ∧ good i R s.
Proof.
  intros Hf (s & Hs & Hg). destruct (decide (id' = id)) as [->|Hne]; [|rewrite lookup_alter_ne by done; eauto].
  rewrite lookup_alter_eq, Hs. cbn. eauto.
Qed.

Lemma swap_delete (l1 mid : list nat) id moved : (length l1 < length (l1 ++ id :: mid ++ [moved]) - 1)%nat →
  take (length (l1 ++ id :: mid ++ [moved]) - 1) (<[length l1 := moved]> (l1 ++ id :: mid ++ [moved])) = l1 ++ moved :: mid.
Proof.
  intros _. rewrite insert_app_r_alt, Nat.sub_diag by lia. cbn.
  replace (l1 ++ moved :: mid ++ [moved]) with ((l1 ++ moved :: mid) ++ [moved]) by by rewrite <- app_assoc.
  apply take_app_length'. rewrite !length_app. cbn. rewrite length_app. cbn. lia.
Qed.

(** The two ways out of [used], without the index of the moved slab. *)
Lemma put_lists i R bk m id : bucket_ok i R bk m → id ∈ bk_used bk → ∃ s l1 l2, m !! id = Some s ∧ good i R s ∧
  bk_used bk = l1 ++ id :: l2 ∧ sl_usedIdx s = length l1.
Proof.
  intros Hok Hin. destruct (bo_good _ _ _ _ Hok id) as (s & Hs & Hg); [set_solver|].
  apply list_elem_of_lookup in Hin as [j Hj]. destruct (bo_index _ _ _ _ Hok j id Hj) as (s' & Hs' & Hi).
  assert (s' = s) as -> by congruence. exists s, (take j (bk_used bk)), (drop (S j) (bk_used bk)).
  split; [done|]. split; [done|]. split; [by rewrite take_drop_middle|].
  rewrite length_take. apply lookup_lt_Some in Hj. lia.
Qed.

Lemma bucket_put_last i R bk m id s l1 : bucket_ok i R bk m → m !! id = Some s → good i R s →
  bk_used bk = l1 ++ [id] → sl_usedIdx s = length l1 →
  ∃ idle, bucket_put id s bk m = Ok (mkBucket (bk_gen bk) (bk_free bk ++ [id]) l1 idle, alter (with_lastPut (bk_gen bk)) id m) ∧
  bucket_ok i R (mkBucket (bk_gen bk) (bk_free bk ++ [id]) l1 idle) (alter (with_lastPut (bk_gen bk)) id m).
Proof.
  intros Hok Hs Hg Hu Hi. unfold bucket_put. rewrite Hu, Hi, list_lookup_middle by done. rewrite bool_decide_true by done.
  rewrite length_app. cbn [length]. replace (length l1 + 1 - 1)%nat with (length l1) by lia. rewrite Nat.eqb_refl, take_app_length.
  eexists. split; [done|]. pose proof (bo_nodup _ _ _ _ Hok) as Hnd. rewrite Hu in Hnd.
  split; cbn [bk_used bk_free].
  - revert Hnd. apply NoDup_Permutation_proper. rewrite <- !app_assoc. apply Permutation_app; [done|]. by rewrite Permutation_app_comm.
  - intros id' Hin. apply alter_good; [done|]. apply (bo_good _ _ _ _ Hok). rewrite Hu. set_solver.
  - intros j id' Hj. rewrite lookup_alter_ne.
    + apply (bo_index _ _ _ _ Hok). rewrite Hu. by apply lookup_app_l_Some.
    + intros <-. rewrite <- app_assoc in Hnd. apply NoDup_app in Hnd as (_ & Hd & _). apply (Hd id); [|set_solver].
      by eapply list_elem_of_lookup_2.
Qed.

Lemma bucket_put_mid i R bk m id s l1 mid moved : bucket_ok i R bk m → m !! id = Some s → good i R s →
  bk_used bk = l1 ++ id :: mid ++ [moved] → sl_usedIdx s = length l1 →
  ∃ idle m', bucket_put id s bk m = Ok (mkBucket (bk_gen bk) (bk_free bk ++ [id]) (l1 ++ moved :: mid) idle, m') ∧
  bucket_ok i R (mkBucket (bk_gen bk) (bk_free bk ++ [id]) (l1 ++ moved :: mid) idle) m' ∧
  m' = alter (with_lastPut (bk_gen bk)) id (alter (with_usedIdx (length l1)) moved m).
Proof.
  intros Hok Hs Hg Hu Hi. unfold bucket_put. rewrite Hu, Hi, list_lookup_middle by done. rewrite bool_decide_true by done.
  set (n := length (l1 ++ id :: mid ++ [moved])). assert (n = length l1 + length mid + 2)%nat as En.
  { unfold n. rewrite length_app. cbn. rewrite length_app. cbn. lia. }
  destruct (Nat.eqb_spec (length l1) (n - 1)); [lia|].
  assert ((l1 ++ id :: mid ++ [moved]) !! (n - 1)%nat = Some moved) as ->.
  { replace (l1 ++ id :: mid ++ [moved]) with ((l1 ++ id :: mid) ++ [moved]) by by rewrite <- app_assoc.
    apply list_lookup_middle. rewrite length_app. cbn. lia. }
  unfold n. rewrite swap_delete by (fold n; lia). eexists _, _. split; [done|]. split; [|done].
  pose proof (bo_nodup _ _ _ _ Hok) as Hnd. rewrite Hu in Hnd.
  assert (id ∉ l1 ++ moved :: mid ∧ NoDup (l1 ++ moved :: mid) ∧ moved ≠ id) as (Hn1 & Hn2 & Hn3).
  { apply NoDup_app in Hnd as (Hnd & _). assert (l1 ++ id :: mid ++ [moved] ≡ₚ id :: l1 ++ moved :: mid) as Hp.
    { rewrite <- Permutation_middle. constructor. by rewrite (Permutation_app_comm mid [moved]). }
    rewrite Hp in Hnd. apply NoDup_cons in Hnd as [Hn Hnd]. split; [done|]. split; [done|]. set_solver. }
  split; cbn [bk_used bk_free].
  - revert Hnd. apply NoDup_Permutation_proper. rewrite <- !app_assoc. cbn. rewrite <- !app_assoc. cbn.
    rewrite <- (Permutation_middle l1), <- (Permutation_middle l1 (mid ++ _)).
    rewrite <- (Permutation_middle mid (bk_free bk)), <- (Permutation_middle l1).
    rewrite (Permutation_app_comm (bk_free bk) [id]). cbn. rewrite <- (Permutation_middle mid), <- (Permutation_middle l1). constructor.
  - intros id' Hin. apply alter_good; [done|]. apply alter_good; [done|]. apply (bo_good _ _ _ _ Hok). rewrite Hu. set_solver.
  - intros j id' Hj. assert (id' ≠ id) by (intros ->; apply Hn1; by eapply list_elem_of_lookup_2). rewrite lookup_alter_ne by done.
    destruct (decide (id' = moved)) as [->|Hne].
    + destruct (bo_good _ _ _ _ Hok moved) as (sm & Hsm & _); [rewrite Hu; set_solver|]. rewrite lookup_alter_eq, Hsm. cbn.
      eexists. split; [done|]. cbn. eapply NoDup_lookup; [exact Hn2| |exact Hj]. by rewrite list_lookup_middle.
    + rewrite lookup_alter_ne by done. apply (bo_index _ _ _ _ Hok). rewrite Hu.
      apply lookup_app_Some in Hj as [Hj|[Hle Hj]]; [by apply lookup_app_l_Some|].
      destruct (j - length l1)%nat as [|k] eqn:Ek; cbn in Hj; [congruence|].
      rewrite lookup_app_r by done. rewrite Ek. cbn. by apply lookup_app_l_Some.
Qed.

Lemma bucket_put_ok i R bk m id : bucket_ok i R bk m → id ∈ bk_used bk →
  ∃ s bk' m', m !! id = Some s ∧ good i R s ∧ bucket_put id s bk m = Ok (bk', m') ∧ bucket_ok i R bk' m' ∧ frame i m m' ∧
    bk_used bk ≡ₚ id :: bk_used bk' ∧ bk_free bk' = bk_free bk ++ [id] ∧ dom m' = dom m.
Proof.
  intros Hok Hin. destruct (put_lists i R bk m id Hok Hin) as (s & l1 & l2 & Hs & Hg & Hu & Hi).
  assert (∀ s', m !! id = Some s' → sl_bucket s' = i) as Hb by (intros s' E; rewrite Hs in E; injection E as <-; apply Hg).
  destruct (decide (l2 = [])) as [->|Hne].
  - destruct (bucket_put_last i R bk m id s l1 Hok Hs Hg Hu Hi) as (idle & HP & Hok'). eexists s, _, _.
    split; [done|]. split; [done|]. split; [exact HP|]. split; [exact Hok'|]. split; [by apply frame_alter|].
    split; [rewrite Hu; cbn; by rewrite <- Permutation_cons_append|]. split; [done|apply dom_alter_L].
  - destruct (exists_last Hne) as (mid & moved & ->).
    destruct (bucket_put_mid i R bk m id s l1 mid moved Hok Hs Hg Hu Hi) as (idle & m' & HP & Hok' & ->). eexists s, _, _.
    split; [done|]. split; [done|]. split; [exact HP|]. split; [exact Hok'|]. split; [|split; [|split; [done|by rewrite !dom_alter_L]]].
    + etrans; apply frame_alter; try done.
      * intros s' Hs'. destruct (bo_good _ _ _ _ Hok moved) as (sm & Hsm & Hb' & _); [rewrite Hu; set_solver|congruence].
      * intros s' Hs'. destruct (decide (id = moved)) as [<-|Hn]; [|rewrite lookup_alter_ne in Hs' by done; by apply Hb].
        rewrite lookup_alter_eq, Hs in Hs'. cbn in Hs'. injection Hs' as <-. apply Hg.
    + rewrite Hu. cbn. rewrite <- Permutation_middle. constructor. by rewrite (Permutation_app_comm mid [moved]).
Qed.

(** A slab that its bucket does not have in use is refused. *)
Lemma bucket_put_refuses id s bk m : id ∉ bk_used bk → ∃ e, bucket_put id s bk m = Panic e.
Proof.
  intros Hn. unfold bucket_put. destruct (bk_used bk !! sl_usedIdx s) as [id'|] eqn:E; [|eauto].
  rewrite bool_decide_false; [eauto|]. intros ->. apply Hn. by eapply list_elem_of_lookup_2.
Qed.


Lemma release_all l i : ∀ m : slabs, (∀ id s, id ∈ l → m !! id = Some s → sl_bucket s = i) →
  frame i m (foldl (λ m id, alter release_region id m) m l) ∧ dom (foldl (λ m id, alter release_region id m) m l) = dom m.
Proof.
  induction l as [|x l IH]; intros m Hm; [done|]. cbn. destruct (IH (alter release_region x m)) as [Hf Hd].
  - intros id s Hin Hs. destruct (decide (id = x)) as [->|Hne].
    + rewrite lookup_alter_eq in Hs. destruct (m !! x) as [s'|] eqn:E; [|done]. cbn in Hs. injection Hs as <-. cbn. apply (Hm x); [by left|done].
    + rewrite lookup_alter_ne in Hs by done. apply (Hm id); [by right|done].
  - split; [etrans; [|exact Hf]|by rewrite Hd, dom_alter_L]. apply frame_alter; [done|]. intros s Hs. apply (Hm x); [by left|done].
Qed.

Lemma dropIdle_ok i R bk m : bucket_ok i R bk m →
  let '(bk', m') := dropIdle bk m in bucket_ok i R bk' m' ∧ frame i m m' ∧ bk_used bk' = bk_used bk ∧ dom m' = dom m.
Proof.
  intros Hok. unfold dropIdle. destruct (bk_used bk) as [|x l] eqn:Eu.
  - destruct (release_all (bk_free bk) i m) as [Hf Hd].
    + intros id s Hin Hs. destruct (bo_good _ _ _ _ Hok id) as (s' & Hs' & Hb & _); [set_solver|congruence].
    + split; [|done]. split; cbn; [constructor|set_solver|done].
  - split; [|done]. destruct Hok as [H1 H2 H3]. rewrite Eu in *. by split.
Qed.

(** ** The pool *)

Definition region (p : Pool) (i : nat) : Z := headerSize + p_rowCount p * ((Z.of_nat i + 1) * rowSizeAlign).

Record pool_ok (p : Pool) : Prop := {
  po_count : 0 < p_rowCount p;
  po_sizes : p_maxRowSize p = rowSizeAlign * Z.of_nat (length (p_buckets p));
  po_bucket i bk : p_buckets p !! i = Some bk → bucket_ok i (region p i) bk (p_slabs p);
  po_fresh id : id ∈ dom (p_slabs p) → (id < p_next p)%nat;
}.

(** The slabs in use, over all buckets. *)
Definition in_use (p : Pool) : list nat := concat (map bk_used (p_buckets p)).

Lemma frame_bucket_ok i j R bk m m' : bucket_ok j R bk m → frame i m m' → j ≠ i → bucket_ok j R bk m'.
Proof.
  intros [H1 H2 H3] Hf Hne. assert (∀ id, id ∈ bk_used bk ++ bk_free bk → m' !! id = m !! id) as E.
  { intros id Hid. destruct (H2 id Hid) as (s & Hs & Hb & _). rewrite Hs. apply (Hf id s); [congruence|done]. }
  split; [done| |].
  - intros id Hid. rewrite E by done. auto.
  - intros k id Hk. rewrite E; [auto|]. apply elem_of_app. left. by eapply list_elem_of_lookup_2.
Qed.

(** One bucket and the slabs replaced. *)
Lemma set_bucket_ok p i bk bk' m' next : pool_ok p → p_buckets p !! i = Some bk → bucket_ok i (region p i) bk' m' →
  frame i (p_slabs p) m' → (∀ id, id ∈ dom m' → (id < next)%nat) →
  pool_ok (mkPool (p_rowCount p) (p_maxRowSize p) (<[i := bk']> (p_buckets p)) m' next).
Proof.
  intros Hp Hi Hok Hf Hn. split; cbn [p_rowCount p_maxRowSize p_buckets p_slabs p_next].
  - apply Hp.
  - rewrite length_insert. apply Hp.
  - intros j bkj Hj. destruct (decide (j = i)) as [->|Hne].
    + rewrite list_lookup_insert_eq in Hj by by eapply lookup_lt_Some. injection Hj as <-. exact Hok.
    + rewrite list_lookup_insert_ne in Hj by done. eapply frame_bucket_ok; [by apply Hp|exact Hf|done].
  - exact Hn.
Qed.

Lemma in_use_insert (bks : list bucket) i bk bk' l : bks !! i = Some bk → bk_used bk' ≡ₚ l ++ bk_used bk →
  concat (map bk_used (<[i := bk']> bks)) ≡ₚ l ++ concat (map bk_used bks).
Proof.
  intros Hi Hu. rewrite <- (take_drop_middle _ _ _ Hi) at 2. rewrite insert_take_drop by by eapply lookup_lt_Some.
  rewrite !map_app, !concat_app. cbn. rewrite Hu, <- !app_assoc.
  rewrite (app_assoc _ l), (Permutation_app_comm _ l), <- app_assoc. done.
Qed.

Lemma in_use_elem p id : id ∈ in_use p ↔ ∃ i bk, p_buckets p !! i = Some bk ∧ id ∈ bk_used bk.
Proof.
  unfold in_use. rewrite list_elem_of_In, in_concat. setoid_rewrite <- list_elem_of_In. split.
  - intros (l & Hl & Hid). apply list_elem_of_fmap in Hl as (bk & -> & Hbk). apply list_elem_of_lookup in Hbk as [i Hi]. eauto.
  - intros (i & bk & Hi & Hid). exists (bk_used bk). split; [|done]. apply list_elem_of_fmap. exists bk. split; [done|].
    by eapply list_elem_of_lookup_2.
Qed.

(** A slab is in use in its own bucket. *)
Lemma in_use_slab p id : pool_ok p → id ∈ in_use p → ∃ s bk, p_slabs p !! id = Some s ∧ good (sl_bucket s) (region p (sl_bucket s)) s ∧
  p_buckets p !! sl_bucket s = Some bk ∧ id ∈ bk_used bk.
Proof.
  intros Hp Hin. apply in_use_elem in Hin as (i & bk & Hi & Hid).
  destruct (bo_good _ _ _ _ (po_bucket p Hp i bk Hi) id) as (s & Hs & Hb & Ha & Hr); [set_solver|].
  exists s, bk. subst i. done.
Qed.

Lemma concat_nodup (bks : list bucket) (owner : nat → nat) : ∀ k,
  (∀ i bk, bks !! i = Some bk → NoDup (bk_used bk) ∧ ∀ id, id ∈ bk_used bk → owner id = (k + i)%nat) →
  NoDup (concat (map bk_used bks)).
Proof.
  induction bks as [|bk bks IH]; intros k H; cbn; [constructor|]. apply NoDup_app. split; [by apply (H 0%nat)|]. split.
  - intros id Hid Hin. apply list_elem_of_In, in_concat in Hin as (l & Hl & Hid'). apply list_elem_of_In in Hl, Hid'.
    apply list_elem_of_fmap in Hl as (bk' & -> & Hbk). apply list_elem_of_lookup in Hbk as [i Hi].
    pose proof (proj2 (H 0%nat bk eq_refl) id Hid). pose proof (proj2 (H (S i) bk' Hi) id Hid'). lia.
  - apply (IH (S k)). intros i bk' Hi. destruct (H (S i) bk' Hi) as [H1 H2]. split; [done|]. intros id Hid. rewrite (H2 id Hid). lia.
Qed.

Lemma in_use_nodup p : pool_ok p → NoDup (in_use p).
Proof.
  intros Hp. apply (concat_nodup _ (λ id, from_option sl_bucket 0%nat (p_slabs p !! id)) 0).
  intros i bk Hi. pose proof (po_bucket p Hp i bk Hi) as Hok. split; [by apply bo_nodup, NoDup_app in Hok as [? _]|].
  intros id Hid. destruct (bo_good _ _ _ _ Hok id) as (s & -> & Hb & _); [set_solver|done].
Qed.

(** Effects of the operations on the pool and on the slabs in use. *)
Lemma pop_at_ok p i : pool_ok p → match pop_at i p with
  | (Some id, p') => pool_ok p' ∧ in_use p' ≡ₚ id :: in_use p ∧ p_rowCount p' = p_rowCount p ∧ p_maxRowSize p' = p_maxRowSize p ∧
      ∃ s, p_slabs p' !! id = Some s ∧ good i (region p i) s
  | (None, p') => p' = p
  end.
Proof.
  intros Hp. unfold pop_at. destruct (p_buckets p !! i) as [bk|] eqn:Hi; [|done].
  pose proof (bucket_pop_ok i (region p i) bk (p_slabs p) (po_bucket p Hp i bk Hi)) as H.
  destruct (bucket_pop bk (p_slabs p)) as [[[id|] bk'] m'].
  - destruct H as (Hok & Hf & Hu & Hin & Hd). split; [eapply set_bucket_ok; try done; rewrite Hd; apply Hp|].
    split; [unfold in_use; cbn; apply (in_use_insert _ _ bk _ [id]); [done|]; rewrite Hu; by rewrite Permutation_app_comm|].
    split; [done|]. split; [done|]. cbn. apply (bo_good _ _ _ _ Hok). rewrite Hu. set_solver.
  - destruct H as [-> ->]. unfold set_bucket. rewrite list_insert_id by done. by destruct p.
Qed.

Lemma new_at_ok p i dataSize : pool_ok p → (i < length (p_buckets p))%nat → headerSize + dataSize = region p i →
  let '(id, p') := new_at i dataSize p in
  pool_ok p' ∧ in_use p' ≡ₚ id :: in_use p ∧ p_rowCount p' = p_rowCount p ∧ p_maxRowSize p' = p_maxRowSize p ∧
  ∃ s, p_slabs p' !! id = Some s ∧ good i (region p i) s.
Proof.
  intros Hp Hlt Hsz. unfold new_at. destruct (lookup_lt_is_Some_2 _ _ Hlt) as [bk Hi]. rewrite Hi.
  assert (p_slabs p !! p_next p = None) as Hfresh.
  { apply not_elem_of_dom. intros Hin. apply (po_fresh p Hp) in Hin. lia. }
  pose proof (bucket_new_ok i (region p i) (p_next p) dataSize bk (p_slabs p) (po_bucket p Hp i bk Hi) Hfresh Hsz) as H.
  destruct (bucket_new _ _ _ bk _) as [bk' m']. destruct H as (Hok & Hf & Hu & Hd).
  split; [eapply set_bucket_ok; try done; rewrite Hd; intros id Hin; apply elem_of_union in Hin as [->%elem_of_singleton|Hin]; [lia|apply Hp in Hin; lia]|].
  split; [unfold in_use; cbn; apply (in_use_insert _ _ bk _ [p_next p]); [done|]; rewrite Hu; by rewrite Permutation_app_comm|].
  split; [done|]. split; [done|]. cbn. apply (bo_good _ _ _ _ Hok). rewrite Hu. set_solver.
Qed.

Lemma drop_at_ok p i : pool_ok p → pool_ok (drop_at i p) ∧ in_use (drop_at i p) = in_use p ∧
  p_rowCount (drop_at i p) = p_rowCount p ∧ length (p_buckets (drop_at i p)) = length (p_buckets p).
Proof.
  intros Hp. unfold drop_at. destruct (p_buckets p !! i) as [bk|] eqn:Hi; [|done].
  pose proof (dropIdle_ok i (region p i) bk (p_slabs p) (po_bucket p Hp i bk Hi)) as H.
  destruct (dropIdle bk (p_slabs p)) as [bk' m']. destruct H as (Hok & Hf & Hu & Hd).
  split; [eapply set_bucket_ok; try done; rewrite Hd; apply Hp|]. split; [|split; [done|cbn; by rewrite length_insert]].
  unfold in_use. cbn. f_equal. rewrite list_fmap_insert. apply list_insert_id. rewrite list_lookup_fmap, Hi. cbn. by rewrite Hu.
Qed.

Lemma putBuf_ok p id : pool_ok p → id ∈ in_use p → ∃ p', putBuf id p = Ok p' ∧ pool_ok p' ∧ in_use p ≡ₚ id :: in_use p' ∧
  p_rowCount p' = p_rowCount p ∧ length (p_buckets p') = length (p_buckets p).
Proof.
  intros Hp Hin. destruct (in_use_slab p id Hp Hin) as (s & bk & Hs & Hg & Hbk & Hid).
  destruct (bucket_put_ok _ _ _ _ id (po_bucket p Hp _ _ Hbk) Hid) as (s' & bk' & m' & Hs' & _ & HP & Hok & Hf & Hu & _ & Hd).
  assert (s' = s) as -> by congruence. unfold putBuf. rewrite Hs, Hbk, HP. cbn. eexists. split; [done|].
  split; [eapply set_bucket_ok; try done; rewrite Hd; apply Hp|]. split; [|split; [done|cbn; by rewrite length_insert]].
  unfold in_use. cbn. rewrite <- (take_drop_middle _ _ _ Hbk) at 1. rewrite insert_take_drop by by eapply lookup_lt_Some.
  rewrite !map_app, !concat_app. cbn. rewrite Hu. cbn. by rewrite <- Permutation_middle.
Qed.

Lemma putBuf_refuses p id : pool_ok p → id ∉ in_use p → ∃ e, putBuf id p = Panic e.
Proof.
  intros Hp Hn. unfold putBuf. destruct (p_slabs p !! id) as [s|] eqn:Hs; [|eauto].
  destruct (p_buckets p !! sl_bucket s) as [bk|] eqn:Hb; [|eauto].
  destruct (bucket_put_refuses id s bk (p_slabs p)) as [e ->]; [|by exists e].
  intros Hin. apply Hn, in_use_elem. eauto.
Qed.

(** ** Acquiring a slab *)

Lemma pop_walk_ok n : ∀ i p, pool_ok p → match pop_walk n i p with
  | (Some id, p') => pool_ok p' ∧ in_use p' ≡ₚ id :: in_use p ∧ p_rowCount p' = p_rowCount p ∧ p_maxRowSize p' = p_maxRowSize p ∧
      ∃ j s, (i <= j)%nat ∧ p_slabs p' !! id = Some s ∧ good j (region p j) s
  | (None, p') => p' = p
  end.
Proof.
  induction n as [|n IH]; intros i p Hp; cbn; [done|]. pose proof (pop_at_ok p i Hp) as H.
  destruct (pop_at i p) as [[id|] p1].
  - destruct H as (? & ? & ? & ? & s & ? & ?). repeat (split; [done|]). by exists i, s.
  - subst p1. specialize (IH (S i) p Hp). destruct (pop_walk n (S i) p) as [[id|] p2]; [|done].
    destruct IH as (? & ? & ? & ? & j & s & ? & ? & ?). repeat (split; [done|]). exists j, s. split; [lia|done].
Qed.

(** A request the pool serves. *)
Record request_ok (p : Pool) (n size : Z) : Prop := {
  rq_count : n = p_rowCount p;
  rq_min : rowSizeAlign <= size;
  rq_max : size <= p_maxRowSize p;
  rq_align : (rowSizeAlign | size);
}.

Lemma sizeIdx_spec size : rowSizeAlign <= size → (rowSizeAlign | size) → (Z.of_nat (sizeIdx size) + 1) * rowSizeAlign = size.
Proof.
  unfold rowSizeAlign, sizeIdx. intros H [k ->]. unfold rowSizeAlign. rewrite Z.quot_mul by lia. rewrite Z2Nat.id by lia. lia.
Qed.

Lemma region_mono p i j : 0 < p_rowCount p → (i <= j)%nat → region p i <= region p j.
Proof. unfold region, rowSizeAlign. intros Hc Hij. apply Z.add_le_mono_l, Z.mul_le_mono_nonneg_l; lia. Qed.

Lemma acquire_ok p n size : pool_ok p → request_ok p n size →
  ∃ id p' s, acquire n size p = Ok (id, p') ∧ pool_ok p' ∧ in_use p' ≡ₚ id :: in_use p ∧
    p_slabs p' !! id = Some s ∧ sl_alive s = true ∧ headerSize + n * size <= sl_region s.
Proof.
  intros Hp [Hn Hmin Hmax Hal]. unfold acquire. rewrite (proj2 (Z.eqb_eq n _) Hn). cbn [negb].
  destruct (Z.ltb_spec size rowSizeAlign); [lia|]. destruct (Z.ltb_spec (p_maxRowSize p) size); [lia|].
  assert (Z.rem size rowSizeAlign = 0) as -> by (apply Z.rem_divide; [unfold rowSizeAlign; lia|done]). cbn [orb negb Z.eqb].
  pose proof (sizeIdx_spec size Hmin Hal) as Hidx.
  assert (headerSize + n * size = region p (sizeIdx size)) as Hreg by (unfold region; rewrite Hidx; lia).
  unfold pop. set (walk := pop_walk _ (sizeIdx size) p). pose proof (pop_walk_ok (S (Nat.min (sizeIdx size + slack) (length (p_buckets p) - 1)) - sizeIdx size) (sizeIdx size) p Hp) as Hw. fold walk in Hw.
  destruct walk as [[id|] p1].
  - destruct Hw as (Hok & Hu & _ & _ & j & s & Hj & Hs & _ & Ha & Hr). exists id, p1, s. split; [done|]. split; [done|]. split; [done|].
    split; [done|]. split; [done|]. rewrite Hr, Hreg. by apply region_mono; [apply Hp|].
  - subst p1. assert (sizeIdx size < length (p_buckets p))%nat as Hlt.
    { rewrite (po_sizes p Hp) in Hmax. rewrite <- Hidx in Hmax. unfold rowSizeAlign in *. lia. }
    pose proof (new_at_ok p (sizeIdx size) (n * size) Hp Hlt Hreg) as Hw'. destruct (new_at _ _ p) as [id p'].
    destruct Hw' as (Hok & Hu & _ & _ & s & Hs & _ & Ha & Hr). exists id, p', s. repeat (split; [done|]). lia.
Qed.

(** The rows of a slab lie one after the other within its region. *)
Definition row_span (size : Z) (i : nat) : Z * Z := (headerSize + Z.of_nat i * size, headerSize + Z.of_nat i * size + size).

Lemma carve_ok s n size : 0 <= n → 0 <= size → headerSize + n * size <= sl_region s →
  carve s n size = Ok (map (row_span size) (seq 0 (Z.to_nat n))).
Proof.
  intros Hn Hs Hr. unfold carve. assert (∀ k acc start, (start + k <= Z.to_nat n)%nat →
    fold_res (λ acc i, let off := headerSize + Z.of_nat i * size in
      if (off + size <=? sl_region s) && (0 <=? off) then Ok (acc ++ [(off, off + size)]) else Panic "slice bounds out of range")
      (seq start k) acc = Ok (acc ++ map (row_span size) (seq start k))) as Hgen.
  { induction k as [|k IH]; intros acc start Hle; cbn [seq fold_res map]; [by rewrite app_nil_r|]. cbv zeta.
    assert (Z.of_nat start * size + size <= n * size) as Hb.
    { replace (Z.of_nat start * size + size) with ((Z.of_nat start + 1) * size) by lia. apply Z.mul_le_mono_nonneg_r; lia. }
    destruct (Z.leb_spec (headerSize + Z.of_nat start * size + size) (sl_region s)); [|lia].
    destruct (Z.leb_spec 0 (headerSize + Z.of_nat start * size)); [|unfold headerSize in *; lia]. cbn [andb mbind result_bind].
    rewrite IH by lia. by rewrite <- app_assoc. }
  apply (Hgen _ []). lia.
Qed.

Lemma pool_Get_ok p n size : pool_ok p → request_ok p n size →
  ∃ id p' s, pool_Get n size p = Ok (id, map (row_span size) (seq 0 (Z.to_nat n)), p') ∧ pool_ok p' ∧ in_use p' ≡ₚ id :: in_use p ∧
    p_slabs p' !! id = Some s ∧ sl_alive s = true ∧ headerSize + n * size <= sl_region s.
Proof.
  intros Hp Hq. destruct (acquire_ok p n size Hp Hq) as (id & p' & s & Ha & Hp' & Hu & Hs & Hal & Hr). exists id, p', s.
  unfold pool_Get. rewrite Ha. cbn. rewrite Hs. cbn. pose proof (po_count p Hp). destruct Hq. unfold rowSizeAlign in *.
  rewrite carve_ok by (try lia; done). done.
Qed.

Lemma GetRegion_ok p n size : pool_ok p → request_ok p n size →
  ∃ id p', GetRegion n size p = Ok (id, (headerSize, headerSize + n * size), p') ∧ pool_ok p' ∧ in_use p' ≡ₚ id :: in_use p.
Proof.
  intros Hp Hq. destruct (acquire_ok p n size Hp Hq) as (id & p' & s & Ha & Hp' & Hu & Hs & Hal & Hr). exists id, p'.
  unfold GetRegion. rewrite Ha. cbn. rewrite Hs. cbn. destruct (Z.leb_spec (headerSize + n * size) (sl_region s)); [done|lia].
Qed.

(** The shape of a pool does not change. *)
Definition same_shape (p p' : Pool) : Prop := p_rowCount p' = p_rowCount p ∧ p_maxRowSize p' = p_maxRowSize p.

Lemma pop_walk_shape k : ∀ i p, same_shape p (pop_walk k i p).2.
Proof.
  induction k as [|k IH]; intros i p; [done|]. cbn. unfold pop_at. destruct (p_buckets p !! i) as [bk|]; [|apply IH].
  destruct (bucket_pop bk (p_slabs p)) as [[[id|] bk'] m']; [done|]. apply (IH (S i) (set_bucket p i bk' m')).
Qed.

Lemma acquire_shape n size p id p' : acquire n size p = Ok (id, p') → same_shape p p'.
Proof.
  unfold acquire. destruct (negb _); [done|]. destruct (_ || _); [done|]. unfold pop.
  pose proof (pop_walk_shape (S (Nat.min (sizeIdx size + slack) (length (p_buckets p) - 1)) - sizeIdx size) (sizeIdx size) p) as Hs.
  destruct (pop_walk _ _ p) as [[id1|] p1]; [by intros [= <- <-]|]. cbn in Hs. unfold new_at.
  destruct (p_buckets p1 !! sizeIdx size) as [bk|]; [|by intros [= <- <-]]. destruct (bucket_new _ _ _ _ _) as [bk' m']. by intros [= <- <-].
Qed.

Lemma pool_Get_shape n size p id rows p' : pool_Get n size p = Ok (id, rows, p') → same_shape p p'.
Proof.
  unfold pool_Get. intros H. apply bind_Ok in H as ([id1 p1] & Ha & H). apply bind_Ok in H as (s & _ & H).
  apply bind_Ok in H as (r & _ & [= <- <- <-]). by eapply acquire_shape.
Qed.

Lemma GetRegion_shape n size p id span p' : GetRegion n size p = Ok (id, span, p') → same_shape p p'.
Proof.
  unfold GetRegion. intros H. apply bind_Ok in H as ([id1 p1] & Ha & H). apply bind_Ok in H as (s & _ & H).
  destruct (_ <=? _); [|done]. injection H as <- <- <-. by eapply acquire_shape.
Qed.

(** ** Clients and timers *)

(** The pool and the slabs that clients hold. *)
Record psystem := mkPsystem { ps_pool : Pool; ps_owned : list nat }.

(** The atomic steps: a pop or an allocation of one bucket, a return, and the
    idle timer of a bucket. *)
Inductive pstep : psystem → psystem → Prop :=
  | pstep_pop p owned i id p' : pop_at i p = (Some id, p') → pstep (mkPsystem p owned) (mkPsystem p' (id :: owned))
  | pstep_new p owned i id p' : (i < length (p_buckets p))%nat →
      new_at i (p_rowCount p * ((Z.of_nat i + 1) * rowSizeAlign)) p = (id, p') →
      pstep (mkPsystem p owned) (mkPsystem p' (id :: owned))
  | pstep_put p l1 id l2 p' : putBuf id p = Ok p' → pstep (mkPsystem p (l1 ++ id :: l2)) (mkPsystem p' (l1 ++ l2))
  | pstep_drop p owned i : pstep (mkPsystem p owned) (mkPsystem (drop_at i p) owned).

Record psystem_ok (s : psystem) : Prop := {
  pk_pool : pool_ok (ps_pool s);
  pk_owned : ps_owned s ≡ₚ in_use (ps_pool s);
}.

Lemma NewPool_ok maxRowSize rowCount p : NewPool maxRowSize rowCount = Ok p → psystem_ok (mkPsystem p []).
Proof.
  unfold NewPool. destruct (_ || _) eqn:E1; [done|]. destruct (Z.leb_spec rowCount 0); [done|]. intros [= <-].
  apply orb_false_iff in E1 as [E1 E2]. apply Z.ltb_ge in E1. apply negb_false_iff, Z.eqb_eq, Z.rem_divide in E2; [|done].
  destruct E2 as [k ->]. unfold rowSizeAlign in *. rewrite Z.quot_mul by lia. split; cbn [ps_pool ps_owned].
  - split; cbn [p_rowCount p_maxRowSize p_buckets p_slabs p_next]; [done| | |].
    + rewrite repeat_length. unfold rowSizeAlign. lia.
    + intros i bk Hi. apply list_elem_of_lookup_2, list_elem_of_In, repeat_spec in Hi as ->. split; cbn; [constructor|set_solver|done].
    + rewrite dom_empty_L. set_solver.
  - unfold in_use. cbn [p_buckets]. induction (Z.to_nat k); cbn; done.
Qed.

Lemma pstep_ok s s' : psystem_ok s → pstep s s' → psystem_ok s'.
Proof.
  intros [Hp Ho] Hs. destruct Hs as [p owned i id p' E|p owned i id p' Hlt E|p l1 id l2 p' E|p owned i]; cbn in *.
  - pose proof (pop_at_ok p i Hp) as H. rewrite E in H. destruct H as (? & Hu & _). split; [done|]. cbn. by rewrite Hu, Ho.
  - pose proof (new_at_ok p i _ Hp Hlt eq_refl) as H. rewrite E in H. destruct H as (? & Hu & _). split; [done|]. cbn. by rewrite Hu, Ho.
  - destruct (putBuf_ok p id Hp) as (p1 & E1 & Hp1 & Hu & _); [rewrite <- Ho; set_solver|]. assert (p1 = p') as -> by congruence.
    split; [done|]. cbn. rewrite <- Permutation_middle, Hu in Ho. by apply Permutation_cons_inv in Ho.
  - destruct (drop_at_ok p i Hp) as (? & Hu & _). split; [done|]. cbn. by rewrite Hu.
Qed.

Lemma reachable_psystem_ok maxRowSize rowCount p s : NewPool maxRowSize rowCount = Ok p → rtc pstep (mkPsystem p []) s → psystem_ok s.
Proof.
  intros HN Hr. apply NewPool_ok in HN. revert HN. induction Hr as [|s1 s2 s3 H1 _ IH]; [done|]. intros Hs. apply IH. by eapply pstep_ok.
Qed.

(** [acquire] is made of these steps. *)
Lemma pop_walk_step n : ∀ i p owned id p', pool_ok p → pop_walk n i p = (Some id, p') →
  pstep (mkPsystem p owned) (mkPsystem p' (id :: owned)).
Proof.
  induction n as [|n IH]; intros i p owned id p' Hp; cbn; [done|]. pose proof (pop_at_ok p i Hp) as H.
  destruct (pop_at i p) as [[id1|] p1] eqn:E; [intros [= <- <-]; by eapply pstep_pop|]. subst p1. by apply IH.
Qed.

Lemma acquire_step p owned n size id p' : pool_ok p → request_ok p n size → acquire n size p = Ok (id, p') →
  pstep (mkPsystem p owned) (mkPsystem p' (id :: owned)).
Proof.
  intros Hp [Hn Hmin Hmax Hal]. unfold acquire. rewrite (proj2 (Z.eqb_eq n _) Hn). cbn [negb]. destruct (_ || _); [done|].
  unfold pop. set (k := (S _ - _)%nat). pose proof (pop_walk_ok k (sizeIdx size) p Hp) as Hw.
  destruct (pop_walk k (sizeIdx size) p) as [[id1|] p1] eqn:E; [intros [= <- <-]; by eapply pop_walk_step|]. subst p1.
  pose proof (sizeIdx_spec size Hmin Hal) as Hidx. intros [= E']. eapply (pstep_new _ _ (sizeIdx size)).
  - rewrite (po_sizes p Hp) in Hmax. rewrite <- Hidx in Hmax. unfold rowSizeAlign in *. lia.
  - by rewrite Hidx, <- Hn.
Qed.

(** C19: In every interleaving of bucket operations, returns and idle timers, no
    slab is held by two clients and no slab in use was released; a valid
    request is served with rows of a slab nobody holds, that lie one after the
    other within its live region; a return succeeds exactly for a slab in
    use. *)
Theorem row_buffers_exclusive maxRowSize rowCount p0 s : NewPool maxRowSize rowCount = Ok p0 → rtc pstep (mkPsystem p0 []) s →
  NoDup (ps_owned s) ∧
  (∀ id, id ∈ ps_owned s → ∃ sl, p_slabs (ps_pool s) !! id = Some sl ∧ sl_alive sl = true) ∧
  (∀ n size, request_ok (ps_pool s) n size → ∃ id p' sl,
     pool_Get n size (ps_pool s) = Ok (id, map (row_span size) (seq 0 (Z.to_nat n)), p') ∧ id ∉ ps_owned s ∧
     p_slabs p' !! id = Some sl ∧ sl_alive sl = true ∧ headerSize + n * size <= sl_region sl ∧
     pstep s (mkPsystem p' (id :: ps_owned s))) ∧
  (∀ id, id ∈ ps_owned s ↔ is_ok (putBuf id (ps_pool s)) = true).
Proof.
  intros HN Hr. pose proof (reachable_psystem_ok _ _ _ _ HN Hr) as [Hp Ho]. destruct s as [p owned]. cbn [ps_pool ps_owned] in *.
  split; [rewrite Ho; by apply in_use_nodup|]. split; [|split].
  - intros id Hid. rewrite Ho in Hid. destruct (in_use_slab p id Hp Hid) as (sl & _ & Hs & (_ & Ha & _) & _). eauto.
  - intros n size Hq. destruct (pool_Get_ok p n size Hp Hq) as (id & p' & sl & HG & Hp' & Hu & Hs & Ha & Hreg). exists id, p', sl.
    split; [done|]. split.
    { rewrite Ho. pose proof (in_use_nodup p' Hp') as Hnd. rewrite Hu in Hnd. by apply NoDup_cons in Hnd as [? _]. }
    repeat (split; [done|]). unfold pool_Get in HG. destruct (acquire n size p) as [[id1 p1]|e|e] eqn:Ea; try done. cbn in HG.
    destruct (p_slabs p1 !! id1); [|done]. cbn in HG. destruct (carve _ n size); try done. cbn in HG. injection HG as -> _ ->.
    by eapply acquire_step.
  - intros id. rewrite Ho. split.
    + intros Hid. destruct (putBuf_ok p id Hp Hid) as (p' & -> & _). done.
    + intros Hok. destruct (decide (id ∈ in_use p)) as [|Hn]; [done|]. destruct (putBuf_refuses p id Hp Hn) as [e E]. by rewrite E in Hok.
Qed.

(** Two rows of a slab taken, given back and taken again. *)
Module PoolExample.

Definition pool0 : Pool := match NewPool 192 2 with Ok p => p | _ => mkPool 0 0 [] ∅ 0 end.
Definition got (n size : Z) (p : Pool) : nat * Pool := match pool_Get n size p with Ok (id, _, p') => (id, p') | _ => (0%nat, p) end.
Definition p1 : Pool := (got 2 64 pool0).2.
Definition p2 : Pool := (got 2 64 p1).2.
Definition p3 : Pool := match putBuf 0 p2 with Ok p => p | _ => p2 end.

Lemma pool_requests : request_ok pool0 2 64 ∧ request_ok p1 2 64 ∧ request_ok p3 2 128.
Proof. repeat split; try reflexivity; try (vm_compute; discriminate); (by exists 1) || by exists 2. Qed.

Lemma pool_runs : rtc pstep (mkPsystem pool0 []) (mkPsystem p3 [1%nat]).
Proof.
  eapply rtc_l; [eapply (pstep_new pool0 [] 0 0 p1); [vm_compute; lia|reflexivity]|].
  eapply rtc_l; [eapply (pstep_new p1 [0%nat] 0 1 p2); [vm_compute; lia|reflexivity]|].
  eapply rtc_l; [eapply (pstep_put p2 [1%nat] 0 [] p3); reflexivity|]. apply rtc_refl.
Qed.

Lemma row_buffers_exclusive_witness : NoDup [1%nat] ∧ (∃ sl, p_slabs p3 !! 1%nat = Some sl ∧ sl_alive sl = true) ∧
  (∃ id p' sl, pool_Get 2 128 p3 = Ok (id, [(64, 192); (192, 320)], p') ∧ id ∉ [1%nat] ∧
     p_slabs p' !! id = Some sl ∧ sl_alive sl = true ∧ headerSize + 256 <= sl_region sl ∧
     pstep (mkPsystem p3 [1%nat]) (mkPsystem p' (id :: [1%nat]))) ∧
  is_ok (putBuf 1 p3) = true ∧ is_ok (putBuf 0 p3) = false.
Proof.
  destruct (row_buffers_exclusive 192 2 pool0 _ eq_refl pool_runs) as (H1 & H2 & H3 & H4). cbn [ps_owned ps_pool] in *.
  split; [exact H1|]. split; [apply H2; by left|]. split; [exact (H3 2 128 (proj2 (proj2 pool_requests)))|].
  split; [apply H4; by left|]. destruct (is_ok (putBuf 0 p3)) eqn:E; [|done]. apply H4, list_elem_of_singleton in E. discriminate.
Defined.
End PoolExample.
