(* ===== verification/Blob.v ===== *)
(** * Blobs

    [fibre/blob.go] and [fibre/internal/row/assembler.go]: how data becomes rows.
    The assembler lays a header and the data out over the original rows without
    copying the full rows in the middle: a row is a reference to a pooled
    buffer, to a window of the data or to a shared row of zeros. The coder fills
    the parity rows in place; the rows are read back with their header. *)

From S2P Require Import Prelude Sdk Merkle Rlc Rsema1d ValidatorSet FibrePromise FibreCache FibreBlobId ProtocolParams RowPool.
#[local] Open Scope Z_scope.

(** ** Assembling rows *)

Definition partialRows : Z := 2.

(** What an entry of the slice of rows points to. *)
Inductive row_ref :=
  | NilRow
  | Slot (k : nat)      (* the k-th pooled buffer *)
  | View (off : nat)    (* a window of the data *)
  | ZeroRow.            (* the shared row of zeros *)

#[global] Instance row_ref_eq_dec : EqDecision row_ref.
Proof. solve_decision. Defined.

(** The fields that do not change, and the two pools. *)
Record Assembler := mkAssembler {
  as_originalRows : Z;
  as_parityRows : Z;
  as_treeBufferSize : Z;
  as_zeroRow : Z; (* the length of the shared row *)
}.
Record pools := mkPools { pl_rows : Pool; pl_tree : Pool }.

Definition NewAssembler (originalRows parityRows maxRowSize treeBufferSize : Z) : result (Assembler * pools) :=
  _ ← ensure (negb ((originalRows <=? 0) || (parityRows <=? 0))) "originalRows and parityRows must be positive";
  rowsPool ← NewPool maxRowSize (parityRows + partialRows);
  treePool ← NewPool treeBufferSize 1;
  Ok (mkAssembler originalRows parityRows treeBufferSize maxRowSize, mkPools rowsPool treePool).

(** An assembly: the slabs it holds (none after [Free]), the contents of its
    pooled buffers, and its rows over the data. *)
Record Assembly := mkAssembly {
  am_slabs : option (nat * nat);
  am_slots : list bytes;
  am_rows : list row_ref;
  am_data : bytes;
  am_rowSize : nat;
}.

(** [copy(dst[off:], src)]. *)
Definition copy_at (dst : bytes) (off : nat) (src : bytes) : bytes :=
  take off dst ++ take (length dst - off) src ++ drop (off + length src) dst.

(** [rows[i] = data[n : n+rowSize]] while whole rows are left; the slice bounds
    hold by the condition. *)
Fixpoint middle_rows (fuel : nat) (originalRows rowSize len i n : nat) (rows : list row_ref)
  : nat * nat * list row_ref :=
  match fuel with
  | O => (i, n, rows)
  | S f =>
      if ((i <? originalRows) && (n + rowSize <=? len))%nat
      then middle_rows f originalRows rowSize len (S i) (n + rowSize) (<[i := View n]> rows)
      else (i, n, rows)
  end.

(** [rows[j] = zeroRow[:rowSize]] for the rest. *)
Definition zero_rows (zeroRow rowSize originalRows i : nat) (rows : list row_ref) : result (list row_ref) :=
  if ((i <? originalRows) && (zeroRow <? rowSize))%nat then Panic "slice bounds out of range"
  else Ok (foldl (λ rows j, <[j := ZeroRow]> rows) rows (seq i (originalRows - i))).

Definition slot_of (r : row_ref) : option nat := match r with Slot k => Some k | _ => None end.

(** The layout of the rows, and the contents of the pooled buffers, which were
    cleared. *)
Definition layout (zeroRow originalRows parityRows rowSize firstRowOffset : nat) (data : bytes)
  : result (list bytes * list row_ref) :=
  let nslots := (parityRows + 2)%nat in
  let slots := repeat (repeat 0 rowSize) nslots in
  let rows := repeat NilRow (originalRows + parityRows) in
  if (originalRows <? 2)%nat then Panic "slice bounds out of range"
  else
    let rows := take (originalRows - 2) rows ++ map Slot (seq 0 nslots) in
    first ← index rows (originalRows - 2);
    let rows := <[0%nat := first]> rows in
    if (rowSize <? firstRowOffset)%nat then Panic "slice bounds out of range"
    else
      let n := Nat.min (rowSize - firstRowOffset) (length data) in
      let slots := alter (λ b, copy_at b firstRowOffset (take n data)) 0%nat slots in
      let '(i, n, rows) := middle_rows originalRows originalRows rowSize (length data) 1 n rows in
      if ((i <? originalRows) && (n <? length data))%nat then
        trailing ← index rows (originalRows - 1);
        let rows := <[i := trailing]> rows in
        let slots := match slot_of trailing with
                     | Some k => alter (λ b, copy_at b 0 (drop n data)) k slots
                     | None => slots
                     end in
        rows ← zero_rows zeroRow rowSize originalRows (S i) rows;
        Ok (slots, rows)
      else rows ← zero_rows zeroRow rowSize originalRows i rows; Ok (slots, rows).

Definition Assemble (a : Assembler) (data : bytes) (rowSize firstRowOffset : Z) (ps : pools) : result (Assembly * pools) :=
  '(id, _, rowsPool) ← pool_Get (as_parityRows a + partialRows) rowSize (pl_rows ps);
  '(slots, rows) ← layout (Z.to_nat (as_zeroRow a)) (Z.to_nat (as_originalRows a)) (Z.to_nat (as_parityRows a))
                     (Z.to_nat rowSize) (Z.to_nat firstRowOffset) data;
  '(tid, _, treePool) ← GetRegion 1 (as_treeBufferSize a) (pl_tree ps);
  Ok (mkAssembly (Some (id, tid)) slots rows data (Z.to_nat rowSize), mkPools rowsPool treePool).

(** The bytes of a row. *)
Definition read_row (am : Assembly) (r : row_ref) : bytes :=
  match r with
  | NilRow => []
  | Slot k => nth k (am_slots am) []
  | View off => take (am_rowSize am) (drop off (am_data am))
  | ZeroRow => repeat 0 (am_rowSize am)
  end.

Definition Buffers (am : Assembly) : list bytes := map (read_row am) (am_rows am).

Definition Released (am : Assembly) : bool := bool_decide (am_slabs am = None).

Definition Assembly_Free (am : Assembly) (ps : pools) : result (Assembly * pools) :=
  match am_slabs am with
  | None => Ok (am, ps)
  | Some (id, tid) =>
      rowsPool ← putBuf id (pl_rows ps);
      treePool ← putBuf tid (pl_tree ps);
      Ok (mkAssembly None [] [] (am_data am) (am_rowSize am), mkPools rowsPool treePool)
  end.

(** ** Configuration *)

Definition blobVersionLen : Z := 1.
Definition blobDataSizeLen : Z := 4.
Definition blobHeaderLen : Z := blobVersionLen + blobDataSizeLen.

(** The coder is given by its configuration, a pool by the shape of its slabs:
    the states of the pools of the assembler are passed to the operations. *)
Record BlobConfig := mkBlobConfig {
  bc_BlobVersion : Z;
  bc_OriginalRows : Z;
  bc_ParityRows : Z;
  bc_RowSize : Z → result Z;
  bc_MaxDataSize : Z;
  bc_MaxRowSize : Z;
  bc_CodingWorkers : Z;
  bc_Coder : Config;
  bc_Assembler : Assembler;
}.

Section Blob.
Context `{CR : Crypto} `{GF : GF16} `{RS : ReedSolomon}.
Context (order : nat → list nat).

(** The work and data pools are created for their panics; [procs] is
    [runtime.GOMAXPROCS(0)]. *)
Definition NewBlobConfigFromParams (procs blobVersion : Z) (params : ProtocolParams) : result (BlobConfig * pools) :=
  _ ← ensure (blobVersion =? 0) "unsupported blob version";
  maxRowSize ← MaxRowSize params blobVersion;
  let codecCfg := mkConfig (pp_Rows params) (ParityRows params) procs in
  '(assembler, ps) ← NewAssembler (pp_Rows params) (ParityRows params) maxRowSize (Config_TreeBufferSize codecCfg);
  _ ← NewPool maxRowSize (CodecWorkRows params);
  _ ← Config_Validate codecCfg;
  _ ← NewPool maxRowSize (pp_Rows params);
  Ok ({| bc_BlobVersion := blobVersion; bc_OriginalRows := pp_Rows params; bc_ParityRows := ParityRows params;
         bc_RowSize dataLen := RowSize params blobVersion (int_add dataLen blobHeaderLen);
         bc_MaxDataSize := int_sub (pp_MaxBlobSize params) blobHeaderLen; bc_MaxRowSize := maxRowSize;
         bc_CodingWorkers := procs; bc_Coder := codecCfg; bc_Assembler := assembler |}, ps).

Definition BlobConfigForVersion (defaultV0 : BlobConfig) (version : Z) : result BlobConfig :=
  if version =? 0 then Ok defaultV0 else Err "unsupported blob version".

Definition BlobConfig_TotalRows (c : BlobConfig) : Z := int_add (bc_OriginalRows c) (bc_ParityRows c).

Definition BlobConfig_UploadSize (c : BlobConfig) (dataLen : Z) : result Z :=
  size ← bc_RowSize c dataLen; Ok (int_mul size (bc_OriginalRows c)).

(** ** Header *)

Record blobHeaderV0 := mkBlobHeader { bh_dataSize : Z }.

Definition newBlobHeaderV0 (dataSize : Z) : blobHeaderV0 := mkBlobHeader (wrap_u32 dataSize).

Definition marshalTo (h : blobHeaderV0) (buf : bytes) : result bytes :=
  if (length buf <? 5)%nat then Panic "index out of range"
  else Ok (0 :: be_bytes 4 (bh_dataSize h) ++ drop 5 buf).

Definition unmarshalFrom (buf : bytes) : result blobHeaderV0 :=
  match buf with
  | [] => Panic "index out of range"
  | v :: rest =>
      _ ← ensure (v =? 0) "invalid blob version";
      if (length rest <? 4)%nat then Panic "slice bounds out of range"
      else Ok (mkBlobHeader (be_decode (take 4 rest)))
  end.

Definition decode (bs : bytes) (cfg : BlobConfig) : result bytes :=
  _ ← ensure (negb (length bs <? 5)%nat) "bytes too small for header";
  h ← (match unmarshalFrom bs with Ok h => Ok h | Err _ => Err "decoding header" | Panic p => Panic p end);
  let dataSize := bh_dataSize h in
  _ ← ensure (negb (dataSize =? 0)) "invalid blob size in header";
  _ ← ensure (negb (bc_MaxDataSize cfg <? dataSize)) "blob size in header exceeds maximum allowed size";
  _ ← ensure (negb (Z.of_nat (length bs) <? blobHeaderLen + dataSize)) "data size in header exceeds available bytes";
  Ok (take (Z.to_nat dataSize) (drop 5 bs)).

(** [h.marshalTo(rows[0])] writes the buffer that row 0 refers to. *)
Definition write_header (h : blobHeaderV0) (am : Assembly) : result Assembly :=
  first ← index (am_rows am) 0;
  buf ← marshalTo h (read_row am first);
  match slot_of first with
  | Some k => Ok (mkAssembly (am_slabs am) (<[k := buf]> (am_slots am)) (am_rows am) (am_data am) (am_rowSize am))
  | None => Ok am
  end.

(** [treeBuf] is what the pooled tree buffer holds. *)
Definition encode (treeBuf : list bytes) (h : blobHeaderV0) (data : bytes) (cfg : BlobConfig) (ps : pools)
  : result (result (ExtendedData * Assembly) * pools) :=
  rowSize ← bc_RowSize cfg (Z.of_nat (length data));
  '(am, ps) ← Assemble (bc_Assembler cfg) data rowSize blobHeaderLen ps;
  am ← write_header h am;
  match EncodeWithTree order (bc_Coder cfg) (Buffers am) (Some treeBuf) with
  | Ok ext => Ok (Ok (ext, am), ps)
  | Err _ => '(_, ps) ← Assembly_Free am ps; Ok (Err "encoding data", ps)
  | Panic p => Panic p
  end.

(** ** Blobs *)

Record Blob := mkBlob {
  b_cfg : BlobConfig;
  b_extendedData : option ExtendedData;
  b_id : bytes;
  b_header : blobHeaderV0;
  b_data : bytes;
  b_asm : Assembly;
}.

Definition ErrBlobTooLarge : error := "blob size exceeds maximum allowed size".

(** An error is returned with the pools, which hold nothing of the call. *)
Definition NewBlob (treeBuf : list bytes) (data : bytes) (cfg : BlobConfig) (ps : pools) : result (result Blob * pools) :=
  if (length data =? 0)%nat then Ok (Err "data cannot be empty", ps)
  else if bc_MaxDataSize cfg <? Z.of_nat (length data) then Ok (Err ErrBlobTooLarge, ps)
  else
    let header := newBlobHeaderV0 (Z.of_nat (length data)) in
    '(r, ps) ← encode treeBuf header data cfg ps;
    match r with
    | Ok (ext, am) =>
        Ok (Ok (mkBlob cfg (Some ext) (NewBlobID (bc_BlobVersion cfg) (ed_commitment ext)) header data am), ps)
    | Err e => Ok (Err e, ps)
    | Panic p => Panic p
    end.

Definition Blob_RLC (b : Blob) : list (list Z) := from_option ed_rlc [] (b_extendedData b).
Definition DataSize (b : Blob) : Z := Z.of_nat (length (b_data b)).
Definition Blob_RowSize (b : Blob) : result Z := bc_RowSize (b_cfg b) (DataSize b).
Definition Blob_UploadSize (b : Blob) : result Z := BlobConfig_UploadSize (b_cfg b) (DataSize b).

(** [released] is the reading of the reference count. *)
Definition Blob_RowProofs (released : bool) (b : Blob) (indices : list Z) : list RowProof * result unit :=
  match b_extendedData b with
  | None => ([], Err "no extended data available")
  | Some ed => if released then ([], Err "storage has been released") else RowProofs ed indices
  end.
End Blob.
