(* ===== verification/BlobProofs.v ===== *)
(** * Correctness of the layout and of the header

    The rows of a blob are the header, the data and zeros, cut into rows; the
    buffers the coder writes are not among those the original rows refer to;
    and decoding what was laid out gives the data back. *)

From S2P Require Import Prelude Sdk Merkle MerkleProofs Rlc RlcProofs Rsema1d Rsema1dProofs Rsema1dEncode ValidatorSet.
From S2P Require Import FibrePromise FibreCache FibreBlobId ProtocolParams RowPool RowPoolProofs Blob.
#[local] Open Scope nat_scope.

(** ** Windows of a list *)

Lemma lookup_repeat {A} (x : A) n i : i < n → repeat x n !! i = Some x.
Proof. revert i. induction n as [|n IH]; intros [|i] Hi; cbn; [lia|lia|done|]. apply IH. lia. Qed.

Lemma concat_windows {A} (l : list A) (w n : nat) : ∀ m, n + m * w <= length l →
  concat (map (λ j, take w (drop (n + j * w) l)) (seq 0 m)) = take (m * w) (drop n l).
Proof.
  induction m as [|m IH]; intros Hle; [done|]. rewrite seq_S, map_app, concat_app, IH by lia. cbn. rewrite app_nil_r.
  rewrite <- (take_drop (m * w) (take (w + m * w) (drop n l))). f_equal.
  - rewrite take_take. f_equal. lia.
  - rewrite skipn_firstn_comm, drop_drop. replace (w + m * w - m * w) with w by lia. done.
Qed.

(** ** The layout *)

Lemma middle_rows_spec o rs len : ∀ fuel i n rows, o - i <= fuel → i <= o → o <= length rows → n <= len →
  ∃ m, middle_rows fuel o rs len i n rows =
    (i + m, n + m * rs, take i rows ++ map (λ j, View (n + j * rs)) (seq 0 m) ++ drop (i + m) rows) ∧
    i + m <= o ∧ n + m * rs <= len ∧ (i + m = o ∨ len < n + m * rs + rs).
Proof.
  induction fuel as [|f IH]; intros i n rows Hf Hi Hl Hn; cbn [middle_rows].
  { exists 0. cbn. rewrite !Nat.add_0_r, take_drop. split; [done|]. lia. }
  destruct (Nat.ltb_spec i o) as [Hio|Hio]; cbn [andb]; [|exists 0; cbn; rewrite !Nat.add_0_r, take_drop; split; [done|lia]].
  destruct (Nat.leb_spec (n + rs) len) as [Hle|Hgt]; [|exists 0; cbn; rewrite !Nat.add_0_r, take_drop; split; [done|lia]].
  destruct (IH (S i) (n + rs) (<[i:=View n]> rows)) as (m & E & H1 & H2 & H3); [lia|lia|by rewrite length_insert|lia|].
  exists (S m). rewrite E. split; [|split; [lia|split; [lia|lia]]].
  replace (n + rs + m * rs) with (n + S m * rs) by lia. replace (S i + m) with (i + S m) by lia. f_equal.
  rewrite insert_take_drop by lia. assert (length (take i rows) = i) as Hti by (rewrite length_take; lia).
  rewrite take_app_ge, Hti by lia. replace (S i - i) with 1 by lia. cbn [take]. rewrite take_0, <- app_assoc. cbn [app seq map]. f_equal.
  rewrite Nat.add_0_r. f_equal. rewrite <- seq_shift, map_map. f_equal; [apply map_ext; intros j; f_equal; lia|].
  rewrite drop_app_ge, Hti by lia. replace (i + S m - i) with (S m) by lia. cbn [drop]. rewrite drop_drop. f_equal. lia.
Qed.

Lemma zero_rows_spec z rs o i rows : rs <= z → i <= o → o <= length rows →
  zero_rows z rs o i rows = Ok (take i rows ++ repeat ZeroRow (o - i) ++ drop o rows).
Proof.
  intros Hz Hi Ho. unfold zero_rows. destruct (Nat.ltb_spec z rs); [lia|]. rewrite andb_false_r. f_equal.
  remember (o - i) as k eqn:Ek. revert i rows Hi Ho Ek. induction k as [|k IH]; intros i rows Hi Ho Ek; cbn.
  { replace o with i by lia. by rewrite take_drop. }
  rewrite IH; [|lia|by rewrite length_insert|lia]. rewrite insert_take_drop by lia.
  assert (length (take i rows) = i) as Hti by (rewrite length_take; lia).
  rewrite take_app_ge, drop_app_ge, Hti by lia. replace (S i - i) with 1 by lia. cbn [take]. rewrite take_0, <- app_assoc. cbn.
  replace (o - i) with (S (o - S i)) by lia. cbn. rewrite drop_drop. repeat f_equal. lia.
Qed.

(** The bytes the original rows hold together. *)
Definition laid_out (o rs off : nat) (data : bytes) : bytes :=
  repeat 0%Z off ++ data ++ repeat 0%Z (o * rs - off - length data).

(** References of original rows: the first buffer for row 0, the second for at
    most one row, and nothing the coder writes. *)
Definition original_ref (r : row_ref) : Prop := r = Slot 1 ∨ r = ZeroRow ∨ ∃ off, r = View off.

Record laid (o p rs off : nat) (data : bytes) (slots : list bytes) (rows : list row_ref) : Prop := {
  ld_slots : length slots = p + 2;
  ld_sizes : Forall (λ b, length b = rs) slots;
  ld_length : length rows = o + p;
  ld_first : rows !! 0 = Some (Slot 0);
  ld_refs : ∀ i r, 0 < i < o → rows !! i = Some r → original_ref r;
  ld_parity : drop o rows = map Slot (seq 2 p);
  ld_zero : ∀ k, 2 <= k < p + 2 → slots !! k = Some (repeat 0%Z rs);
  ld_originals am : am_slots am = slots → am_data am = data → am_rowSize am = rs →
    concat (map (read_row am) (take o rows)) = laid_out o rs off data;
  ld_lengths am : am_slots am = slots → am_data am = data → am_rowSize am = rs →
    Forall (λ r, length (read_row am r) = rs) rows;
}.

Lemma copy_at_zeros rs off src : off + length src <= rs →
  copy_at (repeat 0%Z rs) off src = repeat 0%Z off ++ src ++ repeat 0%Z (rs - off - length src).
Proof.
  intros H. unfold copy_at. rewrite repeat_length, (take_ge src) by lia.
  assert (∀ k, k <= rs → take k (repeat 0%Z rs) = repeat 0%Z k ∧ drop k (repeat 0%Z rs) = repeat 0%Z (rs - k)) as Hr.
  { intros k Hk. replace rs with (k + (rs - k)) at 1 2 by lia. rewrite repeat_app. split.
    - by rewrite take_app_length' by (symmetry; apply repeat_length).
    - by rewrite drop_app_length' by (symmetry; apply repeat_length). }
  rewrite (proj1 (Hr off ltac:(lia))), (proj2 (Hr (off + length src) ltac:(lia))). do 3 f_equal. lia.
Qed.

(** The entries before the middle rows are filled in. *)
Definition start_rows (o p : nat) : list row_ref :=
  <[0 := Slot 0]> (take (o - 2) (repeat NilRow (o + p)) ++ map Slot (seq 0 (p + 2))).

Lemma start_rows_length o p : 2 <= o → length (start_rows o p) = o + p.
Proof. intros Ho. unfold start_rows. rewrite length_insert, length_app, length_take, repeat_length, length_map, length_seq. lia. Qed.

Lemma start_rows_tail o p k : 2 <= o → o - 2 < k → drop k (start_rows o p) = map Slot (seq (k - (o - 2)) (p + 2 - (k - (o - 2)))).
Proof.
  intros Ho Hk. unfold start_rows. rewrite drop_insert_lt by lia.
  assert (length (take (o - 2) (repeat NilRow (o + p))) = o - 2) as Hl by (rewrite length_take, repeat_length; lia).
  rewrite drop_app_ge, Hl by lia. rewrite skipn_map, drop_seq. f_equal.
Qed.

Lemma start_rows_trailing o p : 2 <= o → start_rows o p !! (o - 1) = Some (Slot 1).
Proof.
  intros Ho. pose proof (start_rows_tail o p (o - 1) Ho ltac:(lia)) as E. replace (o - 1 - (o - 2)) with 1 in E by lia.
  replace (p + 2 - 1) with (S p) in E by lia. cbn in E. apply (f_equal (λ l, l !! 0)) in E. cbn in E. by rewrite lookup_drop, Nat.add_0_r in E.
Qed.

Section Layout.
Context (o p rs off z : nat) (data : bytes).
Context (Ho : 2 <= o) (Hoff : off <= rs) (Hrs : 0 < rs) (Hz : rs <= z) (Hfit : off + length data <= o * rs).

Let len := length data.
Let n0 := Nat.min (rs - off) len.
Let slot0 := repeat 0%Z off ++ take n0 data ++ repeat 0%Z (rs - off - n0).

(** The rows, when [m] whole rows of the data follow the first and [t] tells
    whether a row is cut short. *)
Definition final_rows (m : nat) (t : bool) : list row_ref :=
  Slot 0 :: map (λ j, View (n0 + j * rs)) (seq 0 m) ++ (if t then [Slot 1] else []) ++
  repeat ZeroRow (o - 1 - m - Nat.b2n t) ++ map Slot (seq 2 p).
Definition final_slots (m : nat) (t : bool) : list bytes :=
  slot0 :: (if t then drop (n0 + m * rs) data ++ repeat 0%Z (rs - (len - (n0 + m * rs))) else repeat 0%Z rs) :: repeat (repeat 0%Z rs) p.

Lemma layout_eq : ∃ m t, layout z o p rs off data = Ok (final_slots m t, final_rows m t) ∧
  m + Nat.b2n t < o ∧ n0 + m * rs <= len ∧ (if t then n0 + m * rs < len < n0 + m * rs + rs else n0 + m * rs = len).
Proof.
  unfold layout. destruct (Nat.ltb_spec o 2); [lia|].
  assert (index (take (o - 2) (repeat NilRow (o + p)) ++ map Slot (seq 0 (p + 2))) (o - 2) = Ok (Slot 0)) as ->.
  { apply index_Ok. rewrite lookup_app_r by (rewrite length_take; lia).
    rewrite length_take, repeat_length. replace (o - 2 - Nat.min (o - 2) (o + p)) with 0 by lia. by replace (p + 2) with (S (S p)) by lia. }
  cbn [mbind result_bind]. fold (start_rows o p). destruct (Nat.ltb_spec rs off); [lia|].
  pose proof (start_rows_length o p Ho) as Hsl. fold len. fold n0.
  destruct (middle_rows_spec o rs len o 1 n0 (start_rows o p)) as (m & -> & Hm & Hn & Hend); [lia|lia|lia|unfold n0; lia|].
  assert (n0 = rs - off ∨ n0 = len ∧ m = 0) as Hn0. { unfold n0 in *. destruct m; [lia|]. nia. }
  assert (1 + m = o → n0 + m * rs = len) as Hfull.
  { intros Hmo. destruct Hn0 as [E|[E ->]]; [|lia]. nia. }
  assert (take 1 (start_rows o p) = [Slot 0]) as Htake.
  { unfold start_rows. destruct (take (o - 2) (repeat NilRow (o + p)) ++ map Slot (seq 0 (p + 2))) eqn:E; [|done].
    apply (f_equal length) in E. rewrite length_app, length_map, length_seq in E. cbn in E. lia. }
  assert (length (map (λ j, View (n0 + j * rs)) (seq 0 m)) = m) as Hml by by rewrite length_map, length_seq.
  rewrite Htake. set (views := map _ (seq 0 m)) in *.
  assert (alter (λ b, copy_at b off (take n0 data)) 0 (repeat (repeat 0%Z rs) (p + 2)) = slot0 :: repeat 0%Z rs :: repeat (repeat 0%Z rs) p) as ->.
  { replace (p + 2) with (S (S p)) by lia. cbn. f_equal. rewrite copy_at_zeros; rewrite length_take; fold len; [|lia].
    unfold slot0. do 3 f_equal. unfold n0. lia. }
  destruct (Nat.ltb_spec (1 + m) o) as [Hlt|Hge]; cbn [andb].
  - destruct (Nat.ltb_spec (n0 + m * rs) len) as [Hmore|Hno].
    + exists m, true. assert (index (([Slot 0] ++ views ++ drop (1 + m) (start_rows o p))) (o - 1) = Ok (Slot 1)) as ->.
      { apply index_Ok. rewrite lookup_app_r by (cbn; lia). rewrite lookup_app_r by (cbn; lia). rewrite lookup_drop, Hml. cbn [length].
        replace (1 + m + (o - 1 - 1 - m)) with (o - 1) by lia. by apply start_rows_trailing. }
      cbn [mbind result_bind slot_of]. rewrite zero_rows_spec; [|done|lia|rewrite length_insert, !length_app, length_drop, Hsl, Hml; cbn; lia].
      cbn [mbind result_bind]. split; [|split; [cbn; lia|split; [done|lia]]]. f_equal. f_equal.
      * cbn. unfold final_slots. do 2 f_equal. rewrite copy_at_zeros; rewrite length_drop; fold len; [|lia]. cbn. do 2 f_equal. lia.
      * unfold final_rows. fold views. rewrite insert_app_r_alt by (cbn; lia). cbn [length]. rewrite insert_app_r_alt by lia. rewrite Hml.
        replace (1 + m - 1 - m) with 0 by lia. destruct (drop (1 + m) (start_rows o p)) as [|x rest] eqn:Ed.
        { apply (f_equal length) in Ed. rewrite length_drop, Hsl in Ed. cbn in Ed. lia. }
        cbn [insert list_insert]. assert (drop o (Slot 0 :: views ++ Slot 1 :: rest) = map Slot (seq 2 p)) as Edrop.
        { replace o with (S (m + S (o - 2 - m))) at 1 by lia. cbn [drop]. rewrite <- drop_drop, drop_app_length' by done. cbn [drop].
          apply (f_equal (drop (S (o - 2 - m)))) in Ed. rewrite drop_drop in Ed. cbn [drop] in Ed.
          rewrite <- Ed. rewrite start_rows_tail by lia. f_equal. f_equal; lia. }
        cbn [app]. rewrite Edrop. rewrite (firstn_cons (1 + m)). cbn [app]. f_equal.
        rewrite take_app_ge by lia. rewrite Hml. replace (1 + m - m) with 1 by lia. cbn [take]. rewrite take_0, <- app_assoc. cbn.
        do 4 f_equal. lia.
    + exists m, false. rewrite zero_rows_spec; [|done|lia|rewrite !length_app, length_drop, Hsl, Hml; cbn; lia].
      cbn [mbind result_bind]. split; [|split; [cbn; lia|split; [done|lia]]]. f_equal. f_equal. unfold final_rows. fold views.
      cbn [app]. rewrite firstn_cons. cbn [app]. f_equal. rewrite take_app_length' by done. f_equal. cbn [app Nat.b2n].
      f_equal; [f_equal; lia|]. replace o with (S (m + (o - 1 - m))) at 1 by lia. cbn [drop]. rewrite <- drop_drop, drop_app_length' by done.
      rewrite drop_drop, start_rows_tail by lia. f_equal. f_equal; lia.
  - exists m, false. assert (1 + m = o) as Hmo by lia. rewrite zero_rows_spec; [|done|lia|rewrite !length_app, length_drop, Hsl, Hml; cbn; lia].
    cbn [mbind result_bind]. split; [|split; [cbn; lia|split; [done|auto]]]. f_equal. f_equal. unfold final_rows. fold views.
    cbn [app]. rewrite firstn_cons. cbn [app]. f_equal. rewrite take_app_length' by done. f_equal. cbn [app Nat.b2n].
    f_equal; [f_equal; lia|]. replace o with (S (m + (o - 1 - m))) at 1 by lia. cbn [drop]. rewrite <- drop_drop, drop_app_length' by done.
    rewrite drop_drop, start_rows_tail by lia. f_equal. f_equal; lia.
Qed.

Lemma slot0_length : length slot0 = rs.
Proof. unfold slot0. rewrite !length_app, !repeat_length, length_take. fold len. unfold n0. lia. Qed.

Lemma concat_zeros k : concat (repeat (repeat 0%Z rs) k) = repeat 0%Z (k * rs).
Proof. induction k as [|k IH]; cbn; [done|]. by rewrite IH, <- repeat_app. Qed.

Lemma layout_laid : ∃ slots rows, layout z o p rs off data = Ok (slots, rows) ∧ laid o p rs off data slots rows.
Proof.
  destruct layout_eq as (m & t & -> & Hm & Hn & Ht). eexists _, _. split; [done|].
  set (k := o - 1 - m - Nat.b2n t). assert (n0 = rs - off ∨ n0 = len ∧ m = 0 ∧ t = false) as Hn0.
  { unfold n0 in *. destruct t; [lia|]. destruct m; [lia|]. nia. }
  assert (length (if t then [Slot 1] else []) = Nat.b2n t) as Hlt by by destruct t.
  assert (take o (final_rows m t) = Slot 0 :: map (λ j, View (n0 + j * rs)) (seq 0 m) ++ (if t then [Slot 1] else []) ++ repeat ZeroRow k ∧
          drop o (final_rows m t) = map Slot (seq 2 p)) as [Etake Edrop].
  { unfold final_rows. fold k. rewrite app_comm_cons, app_assoc, app_assoc, <- (app_assoc (Slot 0 :: _)).
    rewrite <- app_comm_cons at 1. split; [rewrite take_app_length'; [done|]|rewrite drop_app_length'; [done|]];
      cbn; rewrite !length_app, length_map, length_seq, repeat_length, Hlt; unfold k; lia. }
  split.
  - unfold final_slots. cbn. rewrite repeat_length. lia.
  - unfold final_slots. constructor; [apply slot0_length|]. constructor.
    + destruct t; [|apply repeat_length]. rewrite length_app, length_drop, repeat_length. fold len. lia.
    + apply Forall_forall. intros b Hb. apply list_elem_of_In, repeat_spec in Hb as ->. apply repeat_length.
  - rewrite <- (take_drop o (final_rows m t)), Etake, Edrop. cbn.
    rewrite !length_app, !length_map, !length_seq, repeat_length, Hlt. unfold k. lia.
  - done.
  - intros i r Hi Hr. assert (take o (final_rows m t) !! i = Some r) as Hr' by by rewrite lookup_take_lt by lia.
    rewrite Etake in Hr'. destruct i as [|i]; [lia|]. cbn in Hr'. apply list_elem_of_lookup_2 in Hr'. unfold original_ref.
    apply elem_of_app in Hr' as [Hr'|Hr']; [|apply elem_of_app in Hr' as [Hr'|Hr']].
    + apply list_elem_of_fmap in Hr' as (j & -> & _). eauto.
    + destruct t; [apply list_elem_of_singleton in Hr' as ->; by left|by apply elem_of_nil in Hr'].
    + apply list_elem_of_In, repeat_spec in Hr' as ->. auto.
  - exact Edrop.
  - intros j Hj. unfold final_slots. destruct j as [|[|j]]; [lia|lia|]. cbn [lookup list_lookup]. apply lookup_repeat. lia.
  - intros am Hs Hd Hsz. rewrite Etake. cbn [map concat]. rewrite !map_app, !concat_app. cbn [read_row]. rewrite Hs. cbn [nth final_slots].
    assert (concat (map (read_row am) (map (λ j, View (n0 + j * rs)) (seq 0 m))) = take (m * rs) (drop n0 data)) as ->.
    { rewrite map_map. cbn [read_row]. rewrite Hsz, Hd. apply concat_windows. exact Hn. }
    assert (concat (map (read_row am) (repeat ZeroRow k)) = repeat 0%Z (k * rs)) as ->.
    { rewrite map_repeat. cbn [read_row]. rewrite Hsz. apply concat_zeros. }
    assert (concat (map (read_row am) (if t then [Slot 1] else [])) =
            if t then drop (n0 + m * rs) data ++ repeat 0%Z (rs - (len - (n0 + m * rs))) else []) as ->.
    { destruct t; [|done]. cbn. rewrite Hs. cbn. by rewrite app_nil_r. }
    unfold laid_out, slot0. fold len. rewrite <- !app_assoc. f_equal.
    rewrite <- (take_drop n0 data) at 4. rewrite <- !app_assoc. f_equal. rewrite <- (take_drop (m * rs) (drop n0 data)) at 2.
    rewrite drop_drop, <- app_assoc. replace (n0 + m * rs) with (m * rs + n0) by lia.
    destruct Hn0 as [E|(E & -> & ->)].
    + replace (rs - off - n0) with 0 by lia. cbn [repeat app]. f_equal. destruct t; cbn [Nat.b2n] in *.
      * rewrite <- !app_assoc. f_equal. rewrite <- repeat_app. f_equal. unfold k. nia.
      * rewrite (drop_ge data) by (fold len; lia). cbn. f_equal. unfold k. nia.
    + cbn. rewrite !drop_ge by (fold len; lia). cbn. rewrite <- repeat_app. f_equal. unfold k. cbn. nia.
  - intros am Hs Hd Hsz. rewrite <- (take_drop o (final_rows m t)), Etake, Edrop. apply Forall_app. split.
    + constructor; [cbn; rewrite Hs; apply slot0_length|]. rewrite !Forall_app. split; [|split].
      * apply Forall_map, Forall_forall. intros j Hj. apply elem_of_seq in Hj. cbn. rewrite Hsz, Hd, length_take, length_drop. fold len. nia.
      * destruct t; [|constructor]. constructor; [|constructor]. cbn. rewrite Hs. cbn. rewrite length_app, length_drop, repeat_length. fold len. lia.
      * apply Forall_forall. intros r Hr. apply list_elem_of_In, repeat_spec in Hr as ->. cbn. by rewrite repeat_length.
    + apply Forall_map, Forall_forall. intros j Hj. apply elem_of_seq in Hj. cbn. rewrite Hs. unfold final_slots.
      destruct j as [|[|j]]; [lia|lia|]. cbn [nth]. rewrite nth_repeat_lt by lia. apply repeat_length.
Qed.
End Layout.

(** ** Headers *)

Section Header.

#[local] Open Scope Z_scope.

Definition header_bytes (n : Z) : bytes := 0 :: be_bytes 4 n.

Lemma marshalTo_Ok h buf : (5 <= length buf)%nat → marshalTo h buf = Ok (header_bytes (bh_dataSize h) ++ drop 5 buf).
Proof. intros H. unfold marshalTo. destruct (Nat.ltb_spec (length buf) 5); [lia|done]. Qed.

Lemma unmarshal_header n rest : 0 <= n < two32 → unmarshalFrom (header_bytes n ++ rest) = Ok (mkBlobHeader n).
Proof.
  intros Hn. unfold header_bytes, unmarshalFrom. cbn [app Z.eqb ensure mbind result_bind].
  rewrite length_app, length_be_bytes. destruct (Nat.ltb_spec (4 + length rest) 4); [lia|].
  rewrite take_app_length' by by rewrite length_be_bytes. by rewrite be_decode_bytes by (unfold two32 in Hn; exact Hn).
Qed.

(** Reading back the header and the data. *)
Lemma decode_laid data pad cfg : data ≠ [] → Z.of_nat (length data) <= bc_MaxDataSize cfg → Z.of_nat (length data) < two32 →
  decode (header_bytes (Z.of_nat (length data)) ++ data ++ pad) cfg = Ok data.
Proof.
  intros Hne Hmax Hu. unfold decode. assert (length (header_bytes (Z.of_nat (length data))) = 5)%nat as Hh
    by (unfold header_bytes; cbn [length]; by rewrite length_be_bytes).
  rewrite !length_app, Hh. destruct (Nat.ltb_spec (5 + (length data + length pad)) 5); [lia|]. cbn [negb ensure mbind result_bind].
  rewrite unmarshal_header by lia. cbn [mbind result_bind bh_dataSize].
  destruct (Z.eqb_spec (Z.of_nat (length data)) 0); [by destruct data|]. destruct (Z.ltb_spec (bc_MaxDataSize cfg) (Z.of_nat (length data))); [lia|].
  unfold blobHeaderLen, blobVersionLen, blobDataSizeLen. destruct (Z.ltb_spec (Z.of_nat (5 + (length data + length pad))) (1 + 4 + Z.of_nat (length data))); [lia|].
  cbn [negb ensure mbind result_bind]. f_equal. rewrite drop_app_length' by done. rewrite Nat2Z.id. apply take_app_length.
Qed.
End Header.

(** ** Assembled rows with their header *)

Section Assembled.
Context (o p rs : nat) (data : bytes) (am : Assembly).
Context (Hl : laid o p rs 5 data (am_slots am) (am_rows am)) (Hd : am_data am = data) (Hsz : am_rowSize am = rs).
Context (Ho : 2 <= o) (Hrs : 5 <= rs).

Lemma write_header_rows h : ∃ am', write_header h am = Ok am' ∧ am_slabs am' = am_slabs am ∧
  take o (Buffers am') = (header_bytes (bh_dataSize h) ++ drop 5 (nth 0 (am_slots am) [])) :: map (read_row am) (take (o - 1) (drop 1 (am_rows am))) ∧
  drop o (Buffers am') = repeat (repeat 0%Z rs) p.
Proof.
  unfold write_header. rewrite (proj2 (index_Ok _ _ _) (ld_first _ _ _ _ _ _ _ Hl)). cbn [mbind result_bind].
  pose proof (ld_lengths _ _ _ _ _ _ _ Hl am eq_refl Hd Hsz) as Hlen.
  pose proof (proj1 (Forall_lookup _ _) Hlen 0 _ (ld_first _ _ _ _ _ _ _ Hl)) as H0. cbv beta in H0. rewrite marshalTo_Ok by lia.
  cbn [mbind result_bind slot_of]. eexists. split; [done|]. split; [done|]. set (buf := header_bytes _ ++ _). set (am' := mkAssembly _ _ _ _ _).
  assert (0 < length (am_slots am)) as Hs0 by (rewrite (ld_slots _ _ _ _ _ _ _ Hl); lia).
  assert (∀ r, r ≠ Slot 0 → read_row am' r = read_row am r) as Hother.
  { intros [|[|k]| |] Hr; try done. unfold am'. cbn. by destruct (am_slots am). }
  destruct (am_rows am) as [|r0 rows] eqn:Er; [by pose proof (ld_first _ _ _ _ _ _ _ Hl)|].
  pose proof (ld_first _ _ _ _ _ _ _ Hl) as E0. cbn in E0. injection E0 as ->. unfold Buffers. rewrite firstn_map, skipn_map.
  change (am_rows am') with (Slot 0 :: rows). destruct o as [|o']; [lia|]. replace (S o' - 1) with o' by lia. cbn [take drop map]. split.
  - f_equal.
    + unfold am', buf. cbn [read_row am_slots]. destruct (am_slots am); [cbn in Hs0; lia|done].
    + rewrite drop_0. apply map_ext_in. intros r Hr. apply Hother. intros ->. apply list_elem_of_In, list_elem_of_lookup in Hr as [i Hi].
      apply lookup_take_Some in Hi as [Hi Hio]. destruct (ld_refs _ _ _ _ _ _ _ Hl (S i) (Slot 0)) as [?|[?|[? ?]]]; [lia|exact Hi|done..].
  - pose proof (ld_parity _ _ _ _ _ _ _ Hl) as Ep. cbn in Ep. rewrite Ep. rewrite map_map.
    transitivity (map (λ _ : nat, repeat 0%Z rs) (seq 2 p)).
    + apply map_ext_in. intros k Hk. apply in_seq in Hk. rewrite Hother by (intros [= ->]; lia). cbn.
      pose proof (ld_zero _ _ _ _ _ _ _ Hl k ltac:(lia)) as Ek. by apply nth_lookup_Some.
    + clear. generalize 2. induction p as [|q IH]; intros s; cbn; [done|]. f_equal. apply IH.
Qed.

Lemma written_originals h am' : write_header h am = Ok am' →
  concat (take o (Buffers am')) = header_bytes (bh_dataSize h) ++ data ++ repeat 0%Z (o * rs - 5 - length data).
Proof.
  intros HW. destruct (write_header_rows h) as (am2 & HW2 & _ & Et & _). rewrite HW in HW2. injection HW2 as <-. rewrite Et.
  cbn [concat]. pose proof (ld_originals _ _ _ _ _ _ _ Hl am eq_refl Hd Hsz) as EO. unfold laid_out in EO.
  destruct (am_rows am) as [|r0 rows] eqn:Er; [by pose proof (ld_first _ _ _ _ _ _ _ Hl)|].
  pose proof (ld_first _ _ _ _ _ _ _ Hl) as E0. cbn in E0. injection E0 as ->. destruct o as [|o']; [lia|]. replace (S o' - 1) with o' in * by lia. cbn [take map concat drop] in *.
  cbn [read_row] in EO. rewrite <- app_assoc. f_equal.
  apply (f_equal (drop 5)) in EO. rewrite (drop_app_length' (repeat 0%Z 5)) in EO by done. rewrite <- EO.
  assert (5 <= length (nth 0 (am_slots am) [])) as H5.
  { pose proof (ld_lengths _ _ _ _ _ _ _ Hl am eq_refl Hd Hsz) as HF. apply Forall_cons in HF as [HF _]. cbn in HF. lia. }
  symmetry. apply drop_app_le. exact H5.
Qed.

Lemma written_lengths h am' : write_header h am = Ok am' → Forall (λ row, length row = rs) (Buffers am') ∧ length (Buffers am') = o + p.
Proof.
  intros HW. destruct (write_header_rows h) as (am2 & HW2 & _ & Et & Ed). rewrite HW in HW2. injection HW2 as <-.
  rewrite <- (take_drop o (Buffers am')), Et, Ed. pose proof (ld_lengths _ _ _ _ _ _ _ Hl am eq_refl Hd Hsz) as HF.
  pose proof (ld_length _ _ _ _ _ _ _ Hl) as Hn. split.
  - apply Forall_app. split.
    + constructor.
      * pose proof (proj1 (Forall_lookup _ _) HF 0 _ (ld_first _ _ _ _ _ _ _ Hl)) as H0. cbn in H0.
        rewrite length_app, length_drop. unfold header_bytes. cbn [length]. rewrite length_be_bytes. lia.
      * apply Forall_map. apply Forall_take, Forall_drop. exact HF.
    + apply Forall_forall. intros b Hb. apply list_elem_of_In, repeat_spec in Hb as ->. apply repeat_length.
  - rewrite length_app, repeat_length. cbn. rewrite length_map, length_take, length_drop. lia.
Qed.
End Assembled.

(** ** Encoding blobs

    For a configuration derived from protocol parameters, [NewBlob] accepts
    every size it should, and the rows it commits to decode to the data. *)
#[local] Open Scope Z_scope.

(** ** Configurations *)

(** The parts of a configuration agree, its pools serve the requests of the
    assembler, and rows of the computed size hold the data. *)
Record config_ok (cfg : BlobConfig) (ps : pools) (a b : nat) : Prop := {
  co_shape : shape (bc_Coder cfg) a b;
  co_two : 2 <= cfg_K (bc_Coder cfg);
  co_orig : bc_OriginalRows cfg = cfg_K (bc_Coder cfg);
  co_parity : bc_ParityRows cfg = cfg_N (bc_Coder cfg);
  co_K : as_originalRows (bc_Assembler cfg) = cfg_K (bc_Coder cfg);
  co_N : as_parityRows (bc_Assembler cfg) = cfg_N (bc_Coder cfg);
  co_zero : as_zeroRow (bc_Assembler cfg) = bc_MaxRowSize cfg;
  co_tree : as_treeBufferSize (bc_Assembler cfg) = Config_TreeBufferSize (bc_Coder cfg);
  co_rowsPool : pool_ok (pl_rows ps);
  co_rowsShape : p_rowCount (pl_rows ps) = cfg_N (bc_Coder cfg) + partialRows ∧ p_maxRowSize (pl_rows ps) = bc_MaxRowSize cfg;
  co_treePool : pool_ok (pl_tree ps);
  co_treeShape : p_rowCount (pl_tree ps) = 1 ∧ p_maxRowSize (pl_tree ps) = Config_TreeBufferSize (bc_Coder cfg);
  co_max : bc_MaxDataSize cfg < two32;
  co_sizes len : 0 < len <= bc_MaxDataSize cfg → ∃ size, bc_RowSize cfg len = Ok size ∧ (rowSizeAlign | size) ∧
    0 < size <= bc_MaxRowSize cfg ∧ blobHeaderLen + len <= cfg_K (bc_Coder cfg) * size;
}.

Lemma tree_size cfg a b : shape cfg a b → Config_TreeBufferSize cfg = 64 * (2 ^ Z.of_nat b + 2 ^ Z.of_nat a - 1).
Proof.
  intros H. unfold Config_TreeBufferSize. rewrite (shape_total _ _ _ H), (shape_K _ _ _ H). unfold TreeBufferSize, treeNodeCount, NodeSize.
  pose proof (Z.pow_pos_nonneg 2 (Z.of_nat a)). pose proof (Z.pow_pos_nonneg 2 (Z.of_nat b)).
  destruct (Z.eqb_spec (2 ^ Z.of_nat a) 0); [lia|]. destruct (Z.eqb_spec (2 ^ Z.of_nat b) 0); lia.
Qed.

Lemma tree_request cfg ps a b : config_ok cfg ps a b → request_ok (pl_tree ps) 1 (as_treeBufferSize (bc_Assembler cfg)).
Proof.
  intros H. pose proof (tree_size _ _ _ (co_shape _ _ _ _ H)) as E. destruct (co_treeShape _ _ _ _ H) as [E1 E2].
  pose proof (Z.pow_pos_nonneg 2 (Z.of_nat a)). pose proof (Z.pow_pos_nonneg 2 (Z.of_nat b)).
  rewrite (co_tree _ _ _ _ H). split; [done| |lia|]; rewrite E; unfold rowSizeAlign; [lia|]. eexists. apply Z.mul_comm.
Qed.

(** ** New blobs *)

Section NewBlob.
Context `{CR : Crypto} `{SL : !Sha256Laws} `{GF : GF16} `{GL : !GF16Laws} `{RS : ReedSolomon}.
Context (order : nat → list nat) (Horder : order_ok order).
Context (cfg : BlobConfig) (ps : pools) (a b : nat) (Hcfg : config_ok cfg ps a b).
Context `{RL : !ReedSolomonLaws (cfg_K (bc_Coder cfg)) (cfg_N (bc_Coder cfg))}.

Let K := Z.to_nat (cfg_K (bc_Coder cfg)).
Let N := Z.to_nat (cfg_N (bc_Coder cfg)).

(** The data fits the configuration. *)
Definition blob_data_ok (data : bytes) : Prop :=
  data ≠ [] ∧ Forall byte_ok data ∧ Z.of_nat (length data) <= bc_MaxDataSize cfg.

Lemma Assemble_laid data : blob_data_ok data → ∃ size am ps', bc_RowSize cfg (Z.of_nat (length data)) = Ok size ∧
  (rowSizeAlign | size) ∧ 0 < size ∧ Assemble (bc_Assembler cfg) data size blobHeaderLen ps = Ok (am, ps') ∧ config_ok cfg ps' a b ∧
  laid K N (Z.to_nat size) 5 data (am_slots am) (am_rows am) ∧ am_data am = data ∧ am_rowSize am = Z.to_nat size ∧ is_Some (am_slabs am) ∧
  (5 <= Z.to_nat size)%nat.
Proof.
  intros (Hne & _ & Hmax). assert (0 < Z.of_nat (length data)) as Hpos by (destruct data; [done|cbn; lia]).
  destruct (co_sizes _ _ _ _ Hcfg (Z.of_nat (length data))) as (size & HS & Hal & Hsz & Hfit); [lia|].
  exists size. destruct (co_rowsShape _ _ _ _ Hcfg) as [R1 R2]. destruct (shape_nat _ _ _ (co_shape _ _ _ _ Hcfg)) as (_ & _ & HK0 & HN0 & _).
  assert (request_ok (pl_rows ps) (as_parityRows (bc_Assembler cfg) + partialRows) size) as Hq.
  { split; [rewrite (co_N _ _ _ _ Hcfg); lia| |lia|done]. destruct Hal as [q ->]. unfold rowSizeAlign in *. nia. }
  pose proof (rq_min _ _ _ Hq) as H64. unfold rowSizeAlign in H64.
  destruct (pool_Get_ok _ _ _ (co_rowsPool _ _ _ _ Hcfg) Hq) as (id & rp & s & HG & Hrp & _).
  destruct (GetRegion_ok _ _ _ (co_treePool _ _ _ _ Hcfg) (tree_request _ _ _ _ Hcfg)) as (tid & tp & HT & Htp & _).
  destruct (layout_laid K N (Z.to_nat size) 5 (Z.to_nat (bc_MaxRowSize cfg)) data) as (slots & rows & HL & Hlaid).
  { pose proof (co_two _ _ _ _ Hcfg). unfold K. lia. }
  { lia. } { lia. } { lia. }
  { unfold blobHeaderLen, blobVersionLen, blobDataSizeLen in Hfit. unfold K. nia. }
  eexists _, _. split; [done|]. split; [done|]. split; [lia|]. unfold Assemble. rewrite HG. cbn [mbind result_bind].
  rewrite (co_zero _ _ _ _ Hcfg), (co_K _ _ _ _ Hcfg), (co_N _ _ _ _ Hcfg). fold K N. change (Z.to_nat blobHeaderLen) with 5%nat.
  rewrite HL. cbn [mbind result_bind]. rewrite HT. cbn [mbind result_bind]. split; [done|]. split; [|split; [exact Hlaid|]].
  - apply pool_Get_shape in HG as [G1 G2]. apply GetRegion_shape in HT as [T1 T2].
    destruct Hcfg. split; try done; cbn [pl_rows pl_tree]; [by rewrite G1, G2|by rewrite T1, T2].
  - split; [done|]. split; [done|]. split; [done|]. lia.
Qed.

Lemma concat_Forall {A} (P : A → Prop) (ls : list (list A)) : Forall P (concat ls) → Forall (Forall P) ls.
Proof. induction ls as [|l ls IH]; cbn; [constructor|]. intros [H1 H2]%Forall_app. constructor; auto. Qed.

Lemma header_bytes_ok n : Forall byte_ok (header_bytes n).
Proof. unfold header_bytes. constructor; [unfold byte_ok; lia|apply be_bytes_ok]. Qed.

Lemma zeros_ok n : Forall byte_ok (repeat 0 n).
Proof. apply Forall_forall. intros x Hx. apply list_elem_of_In, repeat_spec in Hx as ->. unfold byte_ok. lia. Qed.

(** The rows that are committed to. *)
Record blob_encoded (data : bytes) (blob : Blob) (ed : ExtendedData) (size : Z) : Prop := {
  be_data : b_data blob = data;
  be_ed : b_extendedData blob = Some ed;
  be_id : b_id blob = NewBlobID (bc_BlobVersion cfg) (ed_commitment ed);
  be_cfg : b_cfg blob = cfg;
  be_size : bc_RowSize cfg (Z.of_nat (length data)) = Ok size;
  be_rows : data_ok (bc_Coder cfg) (take K (ed_rows ed)) (Z.to_nat size);
  be_encoded : encoded (bc_Coder cfg) a b (take K (ed_rows ed)) (Z.to_nat size) ed;
  be_content : ∃ pad, concat (take K (ed_rows ed)) = header_bytes (Z.of_nat (length data)) ++ data ++ pad;
}.

Lemma NewBlob_spec treeBuf data : blob_data_ok data → buffer_ok a b (Some treeBuf) →
  ∃ blob ed size ps', NewBlob order treeBuf data cfg ps = Ok (Ok blob, ps') ∧ config_ok cfg ps' a b ∧ blob_encoded data blob ed size ∧
    am_data (b_asm blob) = data ∧ is_Some (am_slabs (b_asm blob)).
Proof.
  intros Hd Hbuf. pose proof Hd as (Hne & Hbytes & Hmax).
  destruct (Assemble_laid data Hd) as (size & am & ps' & HS & Hal & Hsz & HA & Hcfg' & Hlaid & Hdat & Hrs & Hslab & H5).
  assert (2 <= K)%nat as HK2 by (pose proof (co_two _ _ _ _ Hcfg); unfold K; lia).
  set (h := newBlobHeaderV0 (Z.of_nat (length data))).
  assert (bh_dataSize h = Z.of_nat (length data)) as Hh.
  { unfold h, newBlobHeaderV0, wrap_u32. cbn [bh_dataSize]. apply Z.mod_small. pose proof (co_max _ _ _ _ Hcfg). unfold two32 in *. lia. }
  destruct (write_header_rows K N (Z.to_nat size) data am Hlaid Hdat Hrs HK2 H5 h) as (am' & HW & Hsl & Htake & Hdrop).
  destruct (written_lengths K N (Z.to_nat size) data am Hlaid Hdat Hrs HK2 H5 h am' HW) as [HWl HWn].
  pose proof (written_originals K N (Z.to_nat size) data am Hlaid Hdat Hrs HK2 H5 h am' HW) as HWo. rewrite Hh in HWo.
  set (originals := take K (Buffers am')) in *.
  assert (data_ok (bc_Coder cfg) originals (Z.to_nat size)) as Hdok.
  { split; [unfold originals; rewrite length_take, HWn; unfold K; lia|]. split.
    - assert (Forall (Forall byte_ok) originals) as Hb.
      { apply concat_Forall. rewrite HWo. apply Forall_app. split; [apply header_bytes_ok|]. apply Forall_app. split; [done|apply zeros_ok]. }
      apply Forall_forall. intros row Hrow. split; [|by eapply Forall_forall in Hb].
      eapply Forall_forall in HWl; [exact HWl|]. unfold originals in Hrow. by apply elem_of_take in Hrow as (i & Hi & _); eapply list_elem_of_lookup_2.
    - split; [lia|]. destruct Hal as [q ->]. unfold rowSizeAlign in *. rewrite Z2Nat.inj_mul by lia. apply Nat.Div0.mod_mul. }
  assert (Buffers am' = input_rows (bc_Coder cfg) originals (Z.to_nat size)) as HB.
  { unfold input_rows. fold N. rewrite <- Hdrop. unfold originals. by rewrite take_drop. }
  destruct (Encode_encoded order Horder (bc_Coder cfg) a b (co_shape _ _ _ _ Hcfg) originals (Z.to_nat size) (Some treeBuf) Hdok Hbuf)
    as (ed & HE & Hen).
  assert (take K (ed_rows ed) = originals) as Eorig.
  { destruct Hdok as (Hl & HF & Hs0 & Hs1). destruct (RS_Encode_linear originals (Z.to_nat size) Hl HF Hs0 Hs1) as (parity & EP & _).
    pose proof (en_rows _ _ _ _ _ _ Hen) as ER. unfold input_rows in ER. rewrite EP in ER. injection ER as <-.
    unfold K. rewrite <- Hl. apply take_app_length. }
  exists (mkBlob cfg (Some ed) (NewBlobID (bc_BlobVersion cfg) (ed_commitment ed)) h data am'), ed, size, ps'.
  split; [|split; [exact Hcfg'|split]].
  - unfold NewBlob. destruct (Nat.eqb_spec (length data) 0) as [E0|_]; [by destruct data|].
    destruct (Z.ltb_spec (bc_MaxDataSize cfg) (Z.of_nat (length data))); [lia|]. fold h. unfold encode. rewrite HS. cbn [mbind result_bind].
    rewrite HA. cbn [mbind result_bind]. rewrite HW. cbn [mbind result_bind]. rewrite HB, HE. done.
  - split; try done; rewrite Eorig; [done|done|]. by eexists.
  - cbn. split.
    + unfold write_header in HW. apply bind_Ok in HW as (r & _ & HW). apply bind_Ok in HW as (buf & _ & HW).
      destruct (slot_of r); injection HW as <-; done.
    + by rewrite Hsl.
Qed.

(** Decoding the committed rows. *)
Lemma decode_encoded data blob ed size : blob_data_ok data → blob_encoded data blob ed size →
  decode (concat (take K (ed_rows ed))) cfg = Ok data.
Proof.
  intros (Hne & _ & Hmax) Hb. destruct (be_content _ _ _ _ Hb) as [pad ->]. apply decode_laid; [done|done|].
  pose proof (co_max _ _ _ _ Hcfg). lia.
Qed.
End NewBlob.

(** ** Configurations derived from parameters *)

(** Protocol parameters within the limits of the format. *)
Record params_ok (p : ProtocolParams) : Prop := {
  pk_two : 2 <= pp_Rows p;
  pk_unit : (rowSizeAlign | pp_MinRowSize p) ∧ 0 < pp_MinRowSize p;
  pk_blob : blobHeaderLen < pp_MaxBlobSize p < two32;
  pk_fits : pp_MaxBlobSize p + pp_Rows p + pp_MinRowSize p < two63;
}.

(** A smaller blob does not need larger rows. *)
Lemma RowSize_mono p n m sn sm : sizes_ok p n → sizes_ok p m → n <= m → RowSize p 0 n = Ok sn → RowSize p 0 m = Ok sm → sn <= sm.
Proof.
  intros Hn Hm Hle En Em. destruct (RowSize_least p n Hn) as (s1 & E1 & [q1 D1] & _ & _ & L1).
  destruct (RowSize_least p m Hm) as (s2 & E2 & [q2 D2] & F2 & _ & _). assert (s1 = sn) as -> by congruence. assert (s2 = sm) as -> by congruence.
  destruct Hn as [HR HU _ _]. subst sn sm. assert (q1 - 1 < q2); [|nia].
  assert (pp_Rows p * ((q1 - 1) * pp_MinRowSize p) < pp_Rows p * (q2 * pp_MinRowSize p)) as H by (rewrite Z.mul_sub_distr_r, Z.mul_1_l; lia).
  apply Z.mul_lt_mono_pos_l in H; [|done]. by apply Z.mul_lt_mono_pos_r in H.
Qed.

Lemma NewPool_shape maxRowSize rowCount p : NewPool maxRowSize rowCount = Ok p → pool_ok p ∧ p_rowCount p = rowCount ∧ p_maxRowSize p = maxRowSize.
Proof.
  intros H. split; [by apply NewPool_ok in H as [? _]|]. unfold NewPool in H. destruct (_ || _); [done|]. destruct (_ <=? _); [done|]. by injection H as <-.
Qed.

Lemma config_from_params procs p cfg ps : params_ok p → NewBlobConfigFromParams procs 0 p = Ok (cfg, ps) →
  config_ok cfg ps (rlc_depth (bc_Coder cfg)) (row_depth (bc_Coder cfg)).
Proof.
  intros Hp H. unfold NewBlobConfigFromParams in H. cbn [Z.eqb ensure mbind result_bind] in H.
  apply bind_Ok in H as (maxRow & HM & H). apply bind_Ok in H as ([asm ps'] & HA & H). apply bind_Ok in H as (wp & _ & H).
  apply bind_Ok in H as ([] & HV & H). apply bind_Ok in H as (dp & _ & [= <- <-]).
  unfold NewAssembler in HA. apply bind_Ok in HA as ([] & _ & HA). apply bind_Ok in HA as (rp & HR & HA). apply bind_Ok in HA as (tp & HT & [= <- <-]).
  apply NewPool_shape in HR as (Hrp & Hr1 & Hr2). apply NewPool_shape in HT as (Htp & Ht1 & Ht2).
  assert (∀ len, 0 < len <= pp_MaxBlobSize p → sizes_ok p len) as Hso.
  { intros len Hlen. destruct Hp as [? [_ ?] ? ?]. split; try lia. }
  assert (i64 (pp_MaxBlobSize p - blobHeaderLen)) as Hi by (pose proof (pk_blob p Hp); unfold i64, two63, two32, blobHeaderLen, blobVersionLen, blobDataSizeLen in *; lia).
  split; cbn [bc_Coder bc_OriginalRows bc_ParityRows bc_Assembler bc_MaxRowSize bc_MaxDataSize bc_RowSize cfg_K cfg_N as_originalRows as_parityRows
              as_zeroRow as_treeBufferSize pl_rows pl_tree]; try done.
  - by apply validate_shape.
  - apply Hp.
  - unfold int_sub. rewrite wrap_i64_id by done. pose proof (pk_blob p Hp). unfold blobHeaderLen, blobVersionLen, blobDataSizeLen in *. lia.
  - intros len Hlen. unfold int_sub in Hlen. rewrite wrap_i64_id in Hlen by done.
    assert (int_add len blobHeaderLen = len + blobHeaderLen) as ->.
    { unfold int_add. apply wrap_i64_id. pose proof (pk_blob p Hp). unfold i64, two63, two32, blobHeaderLen, blobVersionLen, blobDataSizeLen in *. lia. }
    assert (0 < len + blobHeaderLen <= pp_MaxBlobSize p) as Hl by (unfold blobHeaderLen, blobVersionLen, blobDataSizeLen in *; lia).
    destruct (RowSize_least p (len + blobHeaderLen) (Hso _ Hl)) as (size & HS & HD & Hfit & Hpos & _).
    exists size. split; [done|]. split; [etrans; [apply (pk_unit p Hp)|done]|]. split; [split; [done|]|lia].
    unfold MaxRowSize in HM. eapply (RowSize_mono p (len + blobHeaderLen) (pp_MaxBlobSize p)); [by apply Hso|apply Hso; pose proof (pk_blob p Hp); unfold blobHeaderLen, blobVersionLen, blobDataSizeLen in *; lia|lia|done|done].
Qed.

Lemma default_params_ok : params_ok DefaultProtocolParams.
Proof. split; [done|split; [by exists 1|done]|done|done]. Qed.

Definition default_config (procs : Z) : option (BlobConfig * pools) :=
  match NewBlobConfigFromParams procs 0 DefaultProtocolParams with Ok c => Some c | _ => None end.

Lemma default_config_created procs : 1 <= procs → is_Some (default_config procs).
Proof.
  intros Hp. unfold default_config, NewBlobConfigFromParams. cbn [Z.eqb ensure mbind result_bind].
  rewrite (proj1 default_sizes). cbn [mbind result_bind]. destruct default_rows as (_ & EP & EW & _). rewrite EP, EW.
  set (treeSize := Config_TreeBufferSize _). assert (treeSize = 64 * (16384 + 4096 - 1)) as -> by reflexivity.
  assert (∃ c, NewAssembler (pp_Rows DefaultProtocolParams) 12288 32768 (64 * (16384 + 4096 - 1)) = Ok c) as [[asm ps] ->] by by eexists.
  cbn [mbind result_bind]. assert (∃ q, NewPool 32768 32768 = Ok q) as [q ->] by by eexists. cbn [mbind result_bind].
  assert (∃ q, NewPool 32768 (pp_Rows DefaultProtocolParams) = Ok q) as [q' ->] by by eexists.
  unfold Config_Validate. cbn [cfg_K cfg_N cfg_WorkerCount]. destruct (Z.ltb_spec procs 1); [lia|]. cbn. by eexists.
Qed.
