(* ===== verification/BlobLifetime.v ===== *)
(** * Lifetime of a blob's storage

    [retain], [release] and [Free] of [fibre/blob.go]: a count of references
    that any number of goroutines raise and lower, with a compare-and-swap loop
    in [retain] and a flag that makes [Free] count once. The storage goes back to
    its pool when the count reaches zero. *)

From S2P Require Import Prelude.
#[local] Open Scope Z_scope.

(** [rc_fired] counts the calls of [releaseFn]. *)
Record refs := mkRefs { rc_count : Z; rc_userReleased : bool; rc_releaseFn : bool; rc_fired : nat }.

(** [NewBlob] stores one reference, that of the caller. *)
Definition new_refs : refs := mkRefs 1 false true 0.

Definition released (r : refs) : bool := rc_count r =? 0.

(** Where a goroutine is: in [retain] before the load and before the
    compare-and-swap, holding a reference or without one, in [release] before
    the decrement and before the call of [releaseFn], in [Free], and finished. *)
Inductive goroutine :=
  | Retaining
  | Loaded (n : Z)
  | Holding
  | Refused
  | Releasing
  | AtZero
  | Freeing
  | Ended.

Definition refs_step (g : goroutine) (r : refs) : option (goroutine * refs) :=
  match g with
  | Retaining => Some (if rc_count r =? 0 then Refused else Loaded (rc_count r), r)
  | Loaded n =>
      if rc_count r =? n
      then Some (Holding, mkRefs (n + 1) (rc_userReleased r) (rc_releaseFn r) (rc_fired r))
      else Some (Retaining, r)
  | Holding => Some (Releasing, r)
  | Freeing =>
      if rc_userReleased r then Some (Ended, r)
      else Some (Releasing, mkRefs (rc_count r) true (rc_releaseFn r) (rc_fired r))
  | Releasing =>
      let r' := mkRefs (rc_count r - 1) (rc_userReleased r) (rc_releaseFn r) (rc_fired r) in
      Some (if (rc_count r' =? 0) && rc_releaseFn r' then AtZero else Ended, r')
  | AtZero => Some (Ended, mkRefs (rc_count r) (rc_userReleased r) false (S (rc_fired r)))
  | Refused | Ended => None
  end.

(** New goroutines enter [retain] or [Free] at any time. *)
Inductive rstep : refs * list goroutine → refs * list goroutine → Prop :=
  | rstep_retain r gs : rstep (r, gs) (r, gs ++ [Retaining])
  | rstep_free r gs : rstep (r, gs) (r, gs ++ [Freeing])
  | rstep_run r gs i g g' r' : gs !! i = Some g → refs_step g r = Some (g', r') → rstep (r, gs) (r', <[i := g']> gs).

(** ** Invariant *)

(** The references a goroutine accounts for, and the pending calls. *)
Definition refs_held (g : goroutine) : Z := match g with Holding | Releasing => 1 | _ => 0 end.
Definition refs_zero (g : goroutine) : Z := match g with AtZero => 1 | _ => 0 end.

Definition sum_of (f : goroutine → Z) (gs : list goroutine) : Z := zsum (map f gs).

Record refs_inv (s : refs * list goroutine) : Prop := {
  ri_count : rc_count s.1 = (if rc_userReleased s.1 then 0 else 1) + sum_of refs_held s.2;
  ri_loaded : Forall (λ g, match g with Loaded n => n ≠ 0 | _ => True end) s.2;
  ri_live : rc_count s.1 ≠ 0 → rc_releaseFn s.1 = true ∧ rc_fired s.1 = 0%nat ∧ sum_of refs_zero s.2 = 0;
  ri_dead : rc_count s.1 = 0 → sum_of refs_zero s.2 = (if rc_releaseFn s.1 then 1 else 0) ∧ rc_fired s.1 = (if rc_releaseFn s.1 then 0 else 1)%nat;
}.

Lemma sum_insert f gs i g g' : gs !! i = Some g → sum_of f (<[i := g']> gs) = sum_of f gs - f g + f g'.
Proof. apply zsum_map_insert. Qed.

Lemma sum_snoc f gs g : sum_of f (gs ++ [g]) = sum_of f gs + f g.
Proof. apply zsum_map_snoc. Qed.

Lemma sum_nonneg f gs : (∀ g, 0 <= f g) → 0 <= sum_of f gs.
Proof. intros Hf. apply zsum_nonneg, Forall_map, Forall_forall. auto. Qed.

Lemma sum_ge f gs i g : (∀ g, 0 <= f g) → gs !! i = Some g → f g <= sum_of f gs.
Proof.
  intros Hf Hi. unfold sum_of. rewrite <- (take_drop_middle _ _ _ Hi). rewrite map_app, zsum_app. cbn [map]. rewrite zsum_cons.
  pose proof (sum_nonneg f (take i gs) Hf). pose proof (sum_nonneg f (drop (S i) gs) Hf). unfold sum_of in *. lia.
Qed.

Lemma held_nonneg g : 0 <= refs_held g.
Proof. destruct g; cbn; lia. Qed.
Lemma zero_nonneg g : 0 <= refs_zero g.
Proof. destruct g; cbn; lia. Qed.

Lemma new_refs_inv : refs_inv (new_refs, []).
Proof. by split. Qed.

Lemma rstep_inv s s' : refs_inv s → rstep s s' → refs_inv s'.
Proof.
  intros [Hc Hl Hlive Hdead] Hs. destruct Hs as [r gs|r gs|r gs i g g' r' Hi Hg]; cbn [fst snd] in *.
  - split; cbn [fst snd]; rewrite ?sum_snoc; cbn [refs_held refs_zero]; rewrite ?Z.add_0_r; try done. apply Forall_app. split; [done|by constructor].
  - split; cbn [fst snd]; rewrite ?sum_snoc; cbn [refs_held refs_zero]; rewrite ?Z.add_0_r; try done. apply Forall_app. split; [done|by constructor].
  - pose proof (sum_ge refs_held gs i g held_nonneg Hi) as Hh. pose proof (sum_nonneg refs_held gs held_nonneg) as Hh0.
    pose proof (sum_ge refs_zero gs i g zero_nonneg Hi) as Hz. pose proof (proj1 (Forall_lookup _ _) Hl i g Hi) as Hlg.
    destruct g as [|n| | | | | |]; cbn [refs_step refs_held refs_zero] in *; try discriminate.
    + destruct (Z.eqb_spec (rc_count r) 0) as [E|E]; injection Hg as <- <-; (split; cbn [fst snd]; rewrite ?(sum_insert _ _ _ _ _ Hi);
        cbn [refs_held refs_zero]; rewrite ?Z.sub_0_r, ?Z.add_0_r; try done; by apply Forall_insert).
    + destruct (Z.eqb_spec (rc_count r) n) as [E|E]; injection Hg as <- <-.
      * split; cbn [fst snd rc_count rc_userReleased rc_releaseFn rc_fired]; rewrite ?(sum_insert _ _ _ _ _ Hi); cbn [refs_held refs_zero].
        -- lia.
        -- by apply Forall_insert.
        -- intros _. rewrite Z.sub_0_r, Z.add_0_r. apply Hlive. lia.
        -- intros ?. destruct (rc_userReleased r); lia.
      * split; cbn [fst snd]; rewrite ?(sum_insert _ _ _ _ _ Hi); cbn [refs_held refs_zero]; rewrite ?Z.sub_0_r, ?Z.add_0_r; try done. by apply Forall_insert.
    + injection Hg as <- <-. split; cbn [fst snd]; rewrite ?(sum_insert _ _ _ _ _ Hi); cbn [refs_held refs_zero]; rewrite ?Z.sub_0_r, ?Z.add_0_r; try done; [lia|by apply Forall_insert].
    + injection Hg as <- <-.
      assert (rc_count r ≠ 0) as Hne by (destruct (rc_userReleased r); lia). destruct (Hlive Hne) as (Hfn & Hf & Hz0).
      split; cbn [fst snd rc_count rc_userReleased rc_releaseFn rc_fired]; rewrite ?(sum_insert _ _ _ _ _ Hi), Hfn; cbn [refs_held refs_zero];
        destruct (Z.eqb_spec (rc_count r - 1) 0) as [E|E]; cbn [andb refs_held refs_zero]; try (by apply Forall_insert); try lia; split_and?; lia || done.
    + injection Hg as <- <-. assert (rc_count r = 0) as E0.
      { destruct (decide (rc_count r = 0)) as [|Hn]; [done|]. destruct (Hlive Hn) as (_ & _ & ?). lia. }
      destruct (Hdead E0) as [Hz0 Hf]. destruct (rc_releaseFn r); [|lia].
      split; cbn [fst snd rc_count rc_userReleased rc_releaseFn rc_fired]; rewrite ?(sum_insert _ _ _ _ _ Hi); cbn [refs_held refs_zero];
        rewrite ?Z.sub_0_r, ?Z.add_0_r; try done; [by apply Forall_insert|]. intros _. split; lia.
    + destruct (rc_userReleased r) eqn:Eu; injection Hg as <- <-; (split; cbn [fst snd rc_count rc_userReleased rc_releaseFn rc_fired];
        rewrite ?(sum_insert _ _ _ _ _ Hi), ?Eu; cbn [refs_held refs_zero]; rewrite ?Z.sub_0_r, ?Z.add_0_r; try done; try (by apply Forall_insert); lia).
Qed.

Lemma reachable_refs_inv s : rtc rstep (new_refs, []) s → refs_inv s.
Proof.
  intros Hr. pose proof new_refs_inv as H0. revert H0. generalize (new_refs, @nil goroutine) Hr. clear Hr.
  intros s0 Hr. induction Hr as [|s1 s2 s3 H1 _ IH]; [done|]. intros Hs. apply IH. by eapply rstep_inv.
Qed.

(** A goroutine that uses the storage, or is about to give its reference up. *)
Definition uses (g : goroutine) : Prop := g = Holding ∨ g = Releasing.
Definition quiet (g : goroutine) : Prop := g = Ended ∨ g = Refused.

(** In every interleaving of [retain], [release] and [Free], the storage of
    a blob is released at most once, never while a reference is held or before
    the caller freed it, and it has been released once the caller freed the
    blob and every goroutine is done; from then on [retain] is refused. *)
Theorem blob_storage_released_once r gs : rtc rstep (new_refs, []) (r, gs) →
  (rc_fired r <= 1)%nat ∧
  (rc_fired r = 1%nat → rc_userReleased r = true ∧ (∀ g, g ∈ gs → ¬ uses g) ∧ refs_step Retaining r = Some (Refused, r)) ∧
  (rc_userReleased r = true → Forall quiet gs → rc_fired r = 1%nat).
Proof.
  intros Hr. destruct (reachable_refs_inv _ Hr) as [Hc _ Hlive Hdead]. cbn [fst snd] in *.
  pose proof (sum_nonneg refs_held gs held_nonneg) as Hh. split; [|split].
  - destruct (decide (rc_count r = 0)) as [E|E]; [destruct (Hdead E) as [_ ->]; by destruct (rc_releaseFn r); lia|].
    destruct (Hlive E) as (_ & -> & _). lia.
  - intros Hf. destruct (decide (rc_count r = 0)) as [E|E]; [|destruct (Hlive E) as (_ & ? & _); lia].
    destruct (rc_userReleased r) eqn:Eu; [|lia]. split; [done|]. split.
    + intros g Hg Hu. apply list_elem_of_lookup in Hg as [i Hi]. pose proof (sum_ge refs_held gs i g held_nonneg Hi).
      destruct Hu as [-> | ->]; cbn in *; lia.
    + cbn. by rewrite E.
  - intros Hu HF. assert (sum_of refs_held gs = 0 ∧ sum_of refs_zero gs = 0) as [E1 E2].
    { clear -HF. induction HF as [|g gs [-> | ->] HF [IH1 IH2]]; [done|..]; unfold sum_of in *; cbn [map]; rewrite !zsum_cons; cbn; lia. }
    rewrite Hu, E1 in Hc. destruct (Hdead Hc) as [Hz ->]. destruct (rc_releaseFn r); [lia|done].
Qed.

(** Two goroutines share the blob with the caller, who frees it first. *)
Module LifetimeExample.

Definition freed : refs := mkRefs 0 true false 1.

Lemma lifetime_run : rtc rstep (new_refs, []) (freed, [Ended; Ended]).
Proof.
  eapply rtc_l; [apply rstep_retain|]. eapply rtc_l; [apply rstep_free|].
  eapply rtc_l; [by apply (rstep_run _ _ 0 Retaining)|]. eapply rtc_l; [by apply (rstep_run _ _ 0 (Loaded 1))|].
  eapply rtc_l; [by apply (rstep_run _ _ 1 Freeing)|]. eapply rtc_l; [by apply (rstep_run _ _ 1 Releasing)|].
  eapply rtc_l; [by apply (rstep_run _ _ 0 Holding)|]. eapply rtc_l; [by apply (rstep_run _ _ 0 Releasing)|].
  eapply rtc_l; [by apply (rstep_run _ _ 0 AtZero)|]. apply rtc_refl.
Qed.

Lemma blob_storage_released_once_witness : (rc_fired freed <= 1)%nat ∧ refs_step Retaining freed = Some (Refused, freed) ∧ rc_fired freed = 1%nat.
Proof.
  destruct (blob_storage_released_once freed [Ended; Ended] lifetime_run) as (H1 & H2 & H3). split; [exact H1|]. split.
  - by apply H2.
  - apply H3; [done|]. repeat (constructor; [by left|]). constructor.
Defined.
End LifetimeExample.
