(* ===== verification/Download.v ===== *)
(** * Downloading blobs

    [fibre/download.go] and [fibre/client_download.go]: one goroutine hands
    shards of a blob out to workers, one per validator, while the rows they
    reserve do not exceed what is missing; each worker fetches a shard, has its
    rows verified and stores the new ones; when all rows are there, or nothing
    is left to try, the data is reconstructed. The goroutines interleave at the
    critical sections and channel operations of the code. *)

From S2P Require Import Prelude Sdk Merkle Rlc ShardCodec Rsema1d ValidatorSet ShardAssignment FibrePromise FibreCache FibreBlobId ProtocolParams RowPool Blob.
#[local] Open Scope Z_scope.

(** ** The session *)

(** An entry of the slice of rows: nil, a prefix of its window of the slab, or a
    buffer received from the wire. *)
Inductive row_slot :=
  | NilSlot
  | Window (len : nat)
  | Wire (row : bytes).

(** The region of the pool: the slab it belongs to and the contents of its K
    windows of [sv_rowSize] bytes. *)
Record slab_view := mkSlabView { sv_id : nat; sv_rowSize : nat; sv_chunks : list bytes }.

(** [dl_sigCh] tells whether the channel of capacity one holds a token;
    [dl_slabOnce] whether the slab was acquired. *)
Record download := mkDownload {
  dl_cfg : BlobConfig;
  dl_id : bytes;
  dl_selected : list SelectedValidator;
  dl_reconstructor : Reconstructor;
  dl_inflightWg : Z;
  dl_inflight : Z;
  dl_cursor : nat;
  dl_sigCh : bool;
  dl_slabOnce : bool;
  dl_slab : option slab_view;
  dl_rows : list row_slot;
}.

Definition set_reconstructor (d : download) (r : Reconstructor) : download :=
  mkDownload (dl_cfg d) (dl_id d) (dl_selected d) r (dl_inflightWg d) (dl_inflight d) (dl_cursor d) (dl_sigCh d)
    (dl_slabOnce d) (dl_slab d) (dl_rows d).
Definition set_inflight (d : download) (n : Z) : download :=
  mkDownload (dl_cfg d) (dl_id d) (dl_selected d) (dl_reconstructor d) (dl_inflightWg d) n (dl_cursor d) (dl_sigCh d)
    (dl_slabOnce d) (dl_slab d) (dl_rows d).
Definition set_inflightWg (d : download) (n : Z) : download :=
  mkDownload (dl_cfg d) (dl_id d) (dl_selected d) (dl_reconstructor d) n (dl_inflight d) (dl_cursor d) (dl_sigCh d)
    (dl_slabOnce d) (dl_slab d) (dl_rows d).
Definition set_sigCh (d : download) (t : bool) : download :=
  mkDownload (dl_cfg d) (dl_id d) (dl_selected d) (dl_reconstructor d) (dl_inflightWg d) (dl_inflight d) (dl_cursor d) t
    (dl_slabOnce d) (dl_slab d) (dl_rows d).
Definition set_storage (d : download) (once : bool) (sv : option slab_view) (rows : list row_slot) : download :=
  mkDownload (dl_cfg d) (dl_id d) (dl_selected d) (dl_reconstructor d) (dl_inflightWg d) (dl_inflight d) (dl_cursor d) (dl_sigCh d)
    once sv rows.

Definition ErrNotEnoughRows : error := "not enough rows to reconstruct".
Definition ErrNotFound : error := "blob not found: no shards retrieved".
Definition ErrNotEnoughShards : error := "not enough shards to reconstruct blob".
Definition ErrCanceled : error := "context canceled".

(** The blob of a download; its data is held in the slab. *)
Record DownloadedBlob := mkDownloadedBlob { db_id : bytes; db_data : bytes }.

(** [parseShard]. *)
Definition parse_row (row : option BlobRow) : result RowProof :=
  match row with
  | None => Err "shard row is nil"
  | Some row => Ok (mkRowProof (row_Index row) (row_Data row) (row_Proof row))
  end.

Fixpoint parse_rows (rows : list (option BlobRow)) : result (list RowProof) :=
  match rows with
  | [] => Ok []
  | row :: rows' => p ← parse_row row; ps ← parse_rows rows'; Ok (p :: ps)
  end.

Definition parseShard (shard : option BlobShard) (originalRows : Z) : result (list RowProof * list (list Z)) :=
  match shard with
  | None => Err "shard response is nil"
  | Some shard =>
      _ ← ensure (negb (length (sh_Rows shard) =? 0)%nat) "no rows in shard";
      proofs ← parse_rows (sh_Rows shard);
      let expectedRLCBytes := int_mul originalRows (Z.of_nat GF128Size) in
      _ ← ensure (Z.of_nat (length (sh_Rlcs shard)) =? expectedRLCBytes) "unexpected RLC bytes";
      rlcs ← Rlc_Unmarshal (sh_Rlcs shard);
      Ok (proofs, rlcs)
  end.

Section Download.
Context `{CR : Crypto} `{GF : GF16} `{RS : ReedSolomon}.
Context (order : nat → list nat) (procs : Z).

(** What window [i] of a region of slab [id] holds when it is handed out. *)
Context (stale : nat → nat → bytes).

Definition newDownload (blobCfg : BlobConfig) (id : bytes) (selected : list SelectedValidator) : result download :=
  commitment ← BlobID_Commitment id;
  rec ← NewReconstructor (bc_Coder blobCfg) commitment;
  Ok (mkDownload blobCfg id selected rec 0 0 0 false false None (repeat NilSlot (Z.to_nat (BlobConfig_TotalRows blobCfg)))).

Definition downloadBlob (draw : nat → Z → Z) (valSet : ValSet) (minRows : Z) (lt : Fraction) (id : bytes) (blobCfg : BlobConfig)
  : result download :=
  selected ← Select draw valSet (bc_OriginalRows blobCfg) minRows lt;
  newDownload blobCfg id selected.

(** The checks of [Download] before the session starts; [valSet] is the answer
    to the query for the validator set. *)
Definition Client_Download (started closed : bool) (defaultV0 : BlobConfig) (draw : nat → Z → Z) (valSet : result ValSet) (minRows : Z)
    (lt : Fraction) (id : bytes) : result download :=
  _ ← ensure started "fibre client is not started";
  _ ← ensure (negb closed) "client is closed";
  _ ← BlobID_Validate id;
  valSet ← (match valSet with Ok v => Ok v | Err _ => Err "getting validator set" | Panic p => Panic p end);
  version ← BlobID_Version id;
  blobCfg ← BlobConfigForVersion defaultV0 version;
  downloadBlob draw valSet minRows lt id blobCfg.

(** ** Dispatch *)

Definition pick (s : download) : option (SelectedValidator * download) :=
  match dl_selected s !! dl_cursor s with
  | None => None
  | Some from =>
      if Want (dl_reconstructor s) <=? dl_inflight s then None
      else Some (from, mkDownload (dl_cfg s) (dl_id s) (dl_selected s) (dl_reconstructor s) (dl_inflightWg s + 1)
                         (dl_inflight s + sel_ExpectedRows from) (S (dl_cursor s)) (dl_sigCh s)
                         (dl_slabOnce s) (dl_slab s) (dl_rows s))
  end.

Definition ready (s : download) : bool :=
  if 0 <? dl_inflight s then false
  else (Want (dl_reconstructor s) =? 0) || (length (dl_selected s) <=? dl_cursor s)%nat.

Definition signal (s : download) : download := set_sigCh s true.

(** ** Storing rows *)

(** The window of a fresh region: whatever the slab held, cut to its size. *)
Definition window_bytes (id rowSize i : nat) : bytes := take rowSize (stale id i ++ repeat 0 rowSize).

Definition acquireSlab (rowSize : nat) (s : download) (pool : Pool) : result (download * Pool) :=
  if dl_slabOnce s then Ok (s, pool)
  else
    '(id, _, pool) ← GetRegion (bc_OriginalRows (dl_cfg s)) (Z.of_nat rowSize) pool;
    let K := Z.to_nat (bc_OriginalRows (dl_cfg s)) in
    Ok (set_storage s true (Some (mkSlabView id rowSize (map (window_bytes id rowSize) (seq 0 K))))
          (repeat (Window 0) K ++ drop K (dl_rows s)), pool).

(** A buffer from the wire has the capacity of its length. *)
Definition store_row (s : download) (p : RowProof) : result download :=
  let i := Z.to_nat (rp_Index p) in
  let row := rp_Row p in
  match dl_rows s !! i with
  | None => Panic "index out of range"
  | Some NilSlot => Ok (set_storage s (dl_slabOnce s) (dl_slab s) (<[i := Wire row]> (dl_rows s)))
  | Some (Wire old) =>
      if (length old =? 0)%nat then Ok (set_storage s (dl_slabOnce s) (dl_slab s) (<[i := Wire row]> (dl_rows s)))
      else if (length old <? length row)%nat then Panic "slice bounds out of range"
      else Ok (set_storage s (dl_slabOnce s) (dl_slab s) (<[i := Wire row]> (dl_rows s)))
  | Some (Window _) =>
      match dl_slab s with
      | None => Panic "unexpected fault address"
      | Some sv =>
          if (sv_rowSize sv <? length row)%nat then Panic "slice bounds out of range"
          else Ok (set_storage s (dl_slabOnce s)
                     (Some (mkSlabView (sv_id sv) (sv_rowSize sv) (alter (λ c, copy_at c 0 row) i (sv_chunks sv))))
                     (<[i := Window (length row)]> (dl_rows s)))
      end
  end.

Definition store (s : download) (proofs : list RowProof) : result download := fold_res store_row proofs s.

(** ** The outcome *)

Definition freeSlab (s : download) (pool : Pool) : result (download * Pool) :=
  match dl_slab s with
  | None => Ok (s, pool)
  | Some sv => pool ← putBuf (sv_id sv) pool; Ok (set_storage s (dl_slabOnce s) None (dl_rows s), pool)
  end.

(** What a slot shows; a slot of length zero counts as missing. *)
Definition chunk (s : download) (i : nat) : bytes :=
  match dl_slab s with Some sv => nth i (sv_chunks sv) [] | None => [] end.

Definition read_slot (s : download) (i : nat) (slot : row_slot) : option bytes :=
  match slot with
  | NilSlot => None
  | Window n => if (n =? 0)%nat then None else Some (take n (chunk s i))
  | Wire row => if (length row =? 0)%nat then None else Some row
  end.

Definition rows_view (s : download) : list (option bytes) := imap (read_slot s) (dl_rows s).

(** Reconstruction writes a missing row where its slot has the capacity, and
    else to a new buffer. *)
Definition write_back (s : download) (out : list (option bytes)) : download :=
  let size := from_option sv_rowSize 0%nat (dl_slab s) in
  let slot i old :=
    match mjoin (out !! i) with
    | None => old
    | Some row => match old with
                  | Window _ => if (length row <=? size)%nat then Window (length row) else Wire row
                  | _ => Wire row
                  end
    end in
  let fill i c :=
    match dl_rows s !! i, mjoin (out !! i) with
    | Some (Window _), Some row => if (length row <=? size)%nat then copy_at c 0 row else c
    | _, _ => c
    end in
  set_storage s (dl_slabOnce s) (option_map (λ sv, mkSlabView (sv_id sv) (sv_rowSize sv) (imap fill (sv_chunks sv))) (dl_slab s))
    (imap slot (dl_rows s)).

Definition reconstruct (s : download) : result download :=
  match Reconstruct (dl_reconstructor s) (rows_view s) with
  | Ok out => Ok (write_back s out)
  | Err e =>
      if String.eqb e ErrNotEnoughRows
      then if negb (Have (dl_reconstructor s) =? 0) then Err ErrNotEnoughShards else Err ErrNotFound
      else Err e
  | Panic p => Panic p
  end.

Definition slab_bytes (s : download) : bytes := from_option (λ sv, concat (sv_chunks sv)) [] (dl_slab s).

(** [cancelled] is [ctx.Err() != nil]. *)
Definition download_Blob (cancelled : bool) (s : download) (pool : Pool) : result (result DownloadedBlob * download * Pool) :=
  let fail s e := '(s, pool) ← freeSlab s pool; Ok (Err e, s, pool) in
  if cancelled then fail s ErrCanceled
  else match reconstruct s with
       | Panic p => Panic p
       | Err e => fail s e
       | Ok s =>
           match decode (slab_bytes s) (dl_cfg s) with
           | Panic p => Panic p
           | Err e => fail s e
           | Ok data => Ok (Ok (mkDownloadedBlob (dl_id s) data), s, pool)
           end
       end.

(** ** Workers *)

(** Where [downloadFrom] and the release of its reservation stand. *)
Inductive worker_phase :=
  | Fetching
  | Verified (batch : list RowProof)
  | Marked (novel : list RowProof)
  | Backed (novel : list RowProof)
  | Leaving
  | Released
  | Signalling
  | Finished.

Record worker := mkWorker { wk_pos : nat; wk_from : SelectedValidator; wk_phase : worker_phase }.

Definition at_phase (w : worker) (ph : worker_phase) : worker := mkWorker (wk_pos w) (wk_from w) ph.

(** The outcome of the request to the validator at a position. *)
Context (net : nat → error + option BlobShard).

Definition oversize (cfg : BlobConfig) (row : bytes) : bool :=
  (0 <? bc_MaxRowSize cfg) && (bc_MaxRowSize cfg <? Z.of_nat (length row)).

(** [AddShard] after the rows of a batch were marked: none, or rows that are too
    large, end it. *)
Definition AddShard_novel (cfg : BlobConfig) (novel : list RowProof) : worker_phase :=
  match novel with
  | [] => Leaving
  | first :: _ => if oversize cfg (rp_Row first) then Leaving else Marked novel
  end.

(** The critical section of [release]. *)
Definition release_rows (from : SelectedValidator) (s : download) : download := set_inflight s (dl_inflight s - sel_ExpectedRows from).

(** The next section of a worker: the answer is parsed and verified; the rows
    not seen before are marked; the slab is acquired; the rows are stored; the
    reservation is returned; the wait group is decremented; the dispatcher is
    woken up. An error at any point leads to [SkipShard], which returns the
    reservation. *)
Definition worker_step (w : worker) (s : download) (pool : Pool) : option (result (worker * download * Pool)) :=
  match wk_phase w with
  | Fetching =>
      Some (match net (wk_pos w) with
            | inl _ => Ok (at_phase w Leaving, s, pool)
            | inr shard =>
                match parseShard shard (bc_OriginalRows (dl_cfg s)) with
                | Panic p => Panic p
                | Err _ => Ok (at_phase w Leaving, s, pool)
                | Ok (proofs, rlc) =>
                    match Reconstructor_verify order procs (dl_reconstructor s) rlc (map Some proofs) with
                    | (Ok _, r) => Ok (at_phase w (Verified proofs), set_reconstructor s r, pool)
                    | (Err _, r) => Ok (at_phase w Leaving, set_reconstructor s r, pool)
                    | (Panic p, _) => Panic p
                    end
                end
            end)
  | Verified batch =>
      let '(novel, r) := addVerified (dl_reconstructor s) batch in
      Some (Ok (at_phase w (AddShard_novel (dl_cfg s) novel), set_reconstructor s r, pool))
  | Marked novel =>
      Some ('(s, pool) ← acquireSlab (from_option (λ p, length (rp_Row p)) 0%nat (head novel)) s pool;
            Ok (at_phase w (Backed novel), s, pool))
  | Backed novel => Some (s ← store s novel; Ok (at_phase w Leaving, s, pool))
  | Leaving => Some (Ok (at_phase w Released, release_rows (wk_from w) s, pool))
  | Released =>
      Some (if dl_inflightWg s <=? 0 then Panic "sync: negative WaitGroup counter"
            else Ok (at_phase w Signalling, set_inflightWg s (dl_inflightWg s - 1), pool))
  | Signalling => Some (Ok (at_phase w Finished, signal s, pool))
  | Finished => None
  end.

(** ** The system *)

(** Where the loop of [ShardSources] stands: before [ready], before [pick], in
    the select, and after the range, in [Blob]. *)
Inductive phase :=
  | Looping
  | Checked
  | Parked
  | Exited
  | Returned (r : result DownloadedBlob).

Record dsystem := mkDsystem {
  ds_dl : download;
  ds_pool : Pool;
  ds_phase : phase;
  ds_workers : list worker;
  ds_cancelled : bool;
}.

Definition dispatch_step (s : dsystem) : option (result dsystem) :=
  let d := ds_dl s in
  let go d ph ws := Ok (mkDsystem d (ds_pool s) ph ws (ds_cancelled s)) in
  match ds_phase s with
  | Looping => Some (go d (if ready d then Exited else Checked) (ds_workers s))
  | Checked =>
      Some (match pick d with
            | Some (from, d') => go d' Looping (ds_workers s ++ [mkWorker (dl_cursor d) from Fetching])
            | None => go d Parked (ds_workers s)
            end)
  | Parked => if dl_sigCh d then Some (go (set_sigCh d false) Looping (ds_workers s)) else None
  | Exited =>
      if dl_inflightWg d =? 0 then
        Some ('(r, d, pool) ← download_Blob (ds_cancelled s) d (ds_pool s);
              Ok (mkDsystem d pool (Returned r) (ds_workers s) (ds_cancelled s)))
      else None
  | Returned _ => None
  end.

(** A goroutine moves, or the context is cancelled. *)
Inductive dstep : dsystem → dsystem → Prop :=
  | dstep_dispatch s s' : dispatch_step s = Some (Ok s') → dstep s s'
  | dstep_exit s : ds_phase s = Parked → ds_cancelled s = true →
      dstep s (mkDsystem (ds_dl s) (ds_pool s) Exited (ds_workers s) true)
  | dstep_worker s i w w' d pool : ds_workers s !! i = Some w → worker_step w (ds_dl s) (ds_pool s) = Some (Ok (w', d, pool)) →
      dstep s (mkDsystem d pool (ds_phase s) (<[i := w']> (ds_workers s)) (ds_cancelled s))
  | dstep_abort s i w : ds_workers s !! i = Some w → wk_phase w = Fetching → ds_cancelled s = true →
      dstep s (mkDsystem (ds_dl s) (ds_pool s) (ds_phase s) (<[i := at_phase w Leaving]> (ds_workers s)) true)
  | dstep_cancel s : ds_cancelled s = false →
      dstep s (mkDsystem (ds_dl s) (ds_pool s) (ds_phase s) (ds_workers s) true).

(** A goroutine panics. *)
Definition panics (s : dsystem) : Prop :=
  (∃ p, dispatch_step s = Some (Panic p)) ∨
  (∃ w p, w ∈ ds_workers s ∧ worker_step w (ds_dl s) (ds_pool s) = Some (Panic p)).

Definition dinit (d : download) (pool : Pool) : dsystem := mkDsystem d pool Looping [] false.
End Download.
