(* ===== verification/DownloadProofs.v ===== *)
(** * The invariant of a download

    What holds in every state of the goroutines of a download: the rows marked
    as seen are stored, held by a worker or dropped; the slots show exactly the
    rows stored; the reservations and the wait group count the workers; and the
    dispatcher never sleeps while nobody will wake it. *)

From S2P Require Import Prelude Sdk Merkle MerkleProofs Rlc RlcProofs ShardCodec Rsema1d Rsema1dProofs Rsema1dEncode Rsema1dCollect.
From S2P Require Import ValidatorSet ShardAssignment FibrePromise FibreCache FibreBlobId ProtocolParams RowPool RowPoolProofs Blob BlobProofs Download.
#[local] Open Scope Z_scope.

(** ** Answers from the wire *)

(** The bytes of an answer are bytes. *)
Definition wire_ok (shard : BlobShard) : Prop :=
  Forall (λ row, match row with Some r => Forall byte_ok (row_Data r) | None => True end) (sh_Rows shard) ∧ Forall byte_ok (sh_Rlcs shard).

Lemma parse_rows_Ok rows : ∀ ps, parse_rows rows = Ok ps →
  length ps = length rows ∧ (Forall (λ row, match row with Some r => Forall byte_ok (row_Data r) | None => True end) rows → bytes_ok ps).
Proof.
  induction rows as [|row rows IH]; intros ps H; [injection H as <-; split; [done|]; intros _; constructor|]. cbn in H. apply bind_Ok in H as (p & Hp & H).
  apply bind_Ok in H as (ps' & Hps & [= <-]). destruct (IH _ Hps) as [Hl Hb]. destruct row as [row|]; [|done]. injection Hp as <-.
  split; [cbn; lia|]. intros [Hr Hrs]%Forall_cons. constructor; [done|by apply Hb].
Qed.

Lemma parse_rows_no_panic rows : no_panic (parse_rows rows).
Proof.
  induction rows as [|row rows IH]; [apply no_panic_Ok|]. cbn. apply no_panic_bind; [destruct row; no_panic|]. intros ? _.
  apply no_panic_bind; [done|]. intros ? _. apply no_panic_Ok.
Qed.

Lemma slice_length {A} (l : list A) i n : ((i + 1) * n <= length l)%nat → length (slice l (i * n) ((i + 1) * n)) = n.
Proof. intros H. unfold slice. rewrite length_take, length_drop. lia. Qed.

Lemma DecodeGF128_Ok src : (GF128Size <= length src)%nat → Forall byte_ok src → ∃ g, DecodeGF128 src = Ok g ∧ coeff_ok g.
Proof.
  intros Hl Hb. unfold DecodeGF128. destruct (Nat.ltb_spec (length src) GF128Size); [lia|]. eexists. split; [done|]. split.
  - by rewrite length_map, length_seq.
  - apply Forall_map, Forall_forall. intros i _. by apply get_u16_range.
Qed.

Lemma Rlc_Unmarshal_spec src : Forall byte_ok src → no_panic (Rlc_Unmarshal src) ∧ ∀ v, Rlc_Unmarshal src = Ok v → Forall coeff_ok v.
Proof.
  intros Hb. unfold Rlc_Unmarshal. destruct (Nat.eqb_spec (length src mod GF128Size) 0) as [Hm|_]; [|split; [apply no_panic_Err|discriminate]].
  cbn [ensure mbind result_bind]. set (n := (length src / GF128Size)%nat).
  assert (∀ i, i ∈ seq 0 n → ∃ g, DecodeGF128 (slice src (i * GF128Size) ((i + 1) * GF128Size)) = Ok g ∧ coeff_ok g) as Hdec.
  { intros i Hi. apply elem_of_seq in Hi. assert ((i + 1) * GF128Size <= length src)%nat as Hle.
    { pose proof (Nat.div_mod_eq (length src) GF128Size) as E. fold n in E. rewrite Hm in E. unfold GF128Size in *. nia. }
    apply DecodeGF128_Ok; [by rewrite slice_length|]. unfold slice. apply Forall_take, Forall_drop, Hb. }
  split.
  - apply no_panic_fold_res. intros acc i Hi. destruct (Hdec i Hi) as (g & -> & _). apply no_panic_Ok.
  - assert (∀ l acc v, (∀ i, i ∈ l → i ∈ seq 0 n) → Forall coeff_ok acc →
      fold_res (λ acc i, g ← DecodeGF128 (slice src (i * GF128Size) ((i + 1) * GF128Size)); Ok (acc ++ [g])) l acc = Ok v → Forall coeff_ok v) as HF.
    { induction l as [|i l IH]; intros acc v Hin Ha H; [by injection H as <-|]. cbn in H.
      destruct (Hdec i (Hin i ltac:(by left))) as (g & Eg & Hg). rewrite Eg in H. cbn in H. apply (IH (acc ++ [g]) v); [|apply Forall_app; split; [done|by constructor]|exact H].
      intros j Hj. apply Hin. by right. }
    intros v. by apply HF.
Qed.

Lemma parseShard_spec shard K : match shard with Some s => wire_ok s | None => True end → no_panic (parseShard shard K) ∧
  ∀ ps rlc, parseShard shard K = Ok (ps, rlc) → ps ≠ [] ∧ bytes_ok ps ∧ Forall coeff_ok rlc.
Proof.
  intros Hw. destruct shard as [shard|]; [|split; [apply no_panic_Err|discriminate]]. destruct Hw as [Hr Hl].
  destruct (Rlc_Unmarshal_spec _ Hl) as [Hn Hc]. split.
  - cbn [parseShard]. apply no_panic_bind; [apply no_panic_ensure|]. intros _ _. apply no_panic_bind; [apply parse_rows_no_panic|]. intros ps _.
    apply no_panic_bind; [apply no_panic_ensure|]. intros _ _. apply no_panic_bind; [done|]. intros ? _. apply no_panic_Ok.
  - intros ps rlc H. cbn [parseShard] in H. apply bind_Ok in H as ([] & He%ensure_Ok & H). apply bind_Ok in H as (ps' & Hps & H).
    apply bind_Ok in H as ([] & _ & H). apply bind_Ok in H as (rlc' & Hrlc & [= <- <-]). destruct (parse_rows_Ok _ _ Hps) as [Hlen Hb].
    split; [|split; [by apply Hb|by apply Hc]]. intros ->. destruct (sh_Rows shard); [done|discriminate].
Qed.

(** ** The answer of a validator that stores its rows *)

Definition row_of (p : RowProof) : BlobRow := mkBlobRow (rp_Index p) (rp_Row p) (rp_RowProof p).

(** The shard with rows [ps] of an encoding with combinations [rlc]. *)
Definition shard_of (rlc : list (list Z)) (ps : list RowProof) : BlobShard := mkBlobShard (map (Some ∘ row_of) ps) (Rlc_Marshal rlc).

Lemma parse_shard_of rlc ps K : ps ≠ [] → Forall coeff_ok rlc → Z.of_nat (length rlc) = K → K <= 2 ^ 16 →
  parseShard (Some (shard_of rlc ps)) K = Ok (ps, rlc).
Proof.
  intros Hne Hrlc Hl HK. unfold parseShard. cbn [sh_Rows sh_Rlcs shard_of]. rewrite length_map.
  destruct (Nat.eqb_spec (length ps) 0) as [E|_]; [by destruct ps|]. cbn [ensure negb mbind result_bind].
  assert (parse_rows (map (Some ∘ row_of) ps) = Ok ps) as ->.
  { clear Hne. induction ps as [|[i row pf] ps IH]; [done|]. cbn. by rewrite IH. }
  cbn [mbind result_bind]. rewrite Rlc_roundtrip by done. cbn [mbind result_bind]. unfold Rlc_Marshal.
  rewrite (length_concat_blocks GF128Size), length_map.
  2:{ apply Forall_map. eapply Forall_impl; [exact Hrlc|]. intros g [Hg _]. cbn. by rewrite length_EncodeGF128, Hg. }
  unfold int_mul. rewrite wrap_i64_id by (unfold i64, two63, GF128Size, GF128Width; lia). rewrite <- Hl.
  by rewrite (proj2 (Z.eqb_eq _ _)) by lia.
Qed.

Lemma shard_wire_ok rlc ps : Forall coeff_ok rlc → bytes_ok ps → wire_ok (shard_of rlc ps).
Proof.
  intros Hr Hb. split; cbn [shard_of sh_Rows sh_Rlcs].
  - apply Forall_map. eapply Forall_impl; [exact Hb|]. by intros p Hp.
  - unfold Rlc_Marshal. apply Forall_concat, Forall_map. eapply Forall_impl; [exact Hr|]. intros g [_ Hg]. unfold EncodeGF128.
    apply Forall_concat, Forall_map. eapply Forall_impl; [exact Hg|]. intros x Hx. unfold put_u16, byte_ok.
    constructor; [|constructor; [|constructor]]; apply Z.mod_pos_bound; lia.
Qed.

(** ** Workers *)

(** The batch a worker has verified and not marked yet, and the marked rows it
    has not stored yet. *)
Definition verified (w : worker) : option (list RowProof) := match wk_phase w with Verified b => Some b | _ => None end.
Definition held (w : worker) : list RowProof := match wk_phase w with Marked n | Backed n => n | _ => [] end.

(** The rows a worker has reserved, and its share of the wait group. *)
Definition reserved (w : worker) : Z :=
  match wk_phase w with Released | Signalling | Finished => 0 | _ => sel_ExpectedRows (wk_from w) end.
Definition awaited (w : worker) : Z := match wk_phase w with Signalling | Finished => 0 | _ => 1 end.
Definition unfinished (w : worker) : Prop := wk_phase w ≠ Finished.

Lemma insert_elem {A} (l : list A) i x y z : l !! i = Some x → z ∈ <[i := y]> l → z = y ∨ z ∈ l.
Proof.
  intros Hi Hz. apply list_elem_of_lookup in Hz as [j Hj]. destruct (decide (i = j)) as [<-|Hne].
  - rewrite list_lookup_insert_eq in Hj by by eapply lookup_lt_Some. injection Hj as <-. by left.
  - rewrite list_lookup_insert_ne in Hj by done. right. by eapply list_elem_of_lookup_2.
Qed.

Lemma elem_insert {A} (l : list A) i x y : l !! i = Some x → y ∈ <[i := y]> l.
Proof. intros Hi. apply (list_elem_of_lookup_2 _ i). apply list_lookup_insert_eq. by eapply lookup_lt_Some. Qed.

Lemma concat_insert {A B} (f : A → list B) (l : list A) i x y : l !! i = Some x →
  concat (map f (<[i := y]> l)) ++ f x ≡ₚ concat (map f l) ++ f y.
Proof.
  intros Hi. rewrite <- (take_drop_middle _ _ _ Hi) at 2. rewrite insert_take_drop by by eapply lookup_lt_Some.
  rewrite !map_app, !concat_app. cbn [map concat]. rewrite <- !app_assoc. apply Permutation_app_head.
  rewrite !app_assoc. rewrite (Permutation_app_comm (f y ++ _) (f x)), (Permutation_app_comm (f x ++ _) (f y)). rewrite !app_assoc.
  apply Permutation_app_tail, Permutation_app_comm.
Qed.

(** ** Storage *)

Section Invariant.
Context `{CR : Crypto} `{SL : !Sha256Laws} `{GF : GF16} `{GL : !GF16Laws} `{RS : ReedSolomon}.
Context (order : nat → list nat) (Horder : order_ok order) (procs : Z) (stale : nat → nat → bytes).
Context (cfg : BlobConfig) (a b : nat) (Hshape : shape (bc_Coder cfg) a b).
Context `{RL : !ReedSolomonLaws (cfg_K (bc_Coder cfg)) (cfg_N (bc_Coder cfg))}.
Context (Horig : bc_OriginalRows cfg = cfg_K (bc_Coder cfg)) (Hparity : bc_ParityRows cfg = cfg_N (bc_Coder cfg)) (Hmax : 0 < bc_MaxRowSize cfg).
Context (id commitment : bytes) (Hid : BlobID_Commitment id = Ok commitment) (selected : list SelectedValidator).
Context (net : nat → error + option BlobShard) (Hnet : ∀ i shard, net i = inr (Some shard) → wire_ok shard).

Let coder := bc_Coder cfg.
Let K := Z.to_nat (cfg_K coder).
Let total := Z.to_nat (cfg_K coder + cfg_N coder).

(** The pool serves regions of K rows. *)
Definition data_pool (p : Pool) : Prop := pool_ok p ∧ p_rowCount p = cfg_K coder ∧ p_maxRowSize p = bc_MaxRowSize cfg.

(** The slots show the rows [stored]; the first K are windows of the slab, of
    the size the verified rows have. *)
Record storage (s : download) (pool : Pool) (stored : list RowProof) : Prop := {
  sg_length : length (dl_rows s) = total;
  sg_view : rows_view s = place coder stored;
  sg_slab : if dl_slabOnce s
            then ∃ sv, dl_slab s = Some sv ∧ sv_rowSize sv = v_coeffsRowSize (r_verifier (dl_reconstructor s)) ∧ (0 < sv_rowSize sv)%nat ∧
                   length (sv_chunks sv) = K ∧ Forall (λ c, length c = sv_rowSize sv) (sv_chunks sv) ∧ sv_id sv ∈ in_use pool ∧
                   ∀ i, (i < K)%nat → dl_rows s !! i = Some (Window 0) ∨ dl_rows s !! i = Some (Window (sv_rowSize sv))
            else dl_slab s = None ∧ ∀ i slot, dl_rows s !! i = Some slot → slot = NilSlot;
  sg_parity : ∀ i slot, (K <= i)%nat → dl_rows s !! i = Some slot → slot = NilSlot ∨ ∃ row, slot = Wire row;
}.

Lemma K_total : (K < total)%nat.
Proof. destruct (shape_nat _ _ _ Hshape) as (_ & _ & H1 & H2 & _). unfold K, total, coder. lia. Qed.

(** Storage depends on few fields. *)
Lemma storage_frame s s' pool stored : storage s pool stored → dl_rows s' = dl_rows s → dl_slab s' = dl_slab s → dl_slabOnce s' = dl_slabOnce s →
  (dl_slabOnce s = true → v_coeffsRowSize (r_verifier (dl_reconstructor s')) = v_coeffsRowSize (r_verifier (dl_reconstructor s))) → storage s' pool stored.
Proof.
  intros [H1 H2 H3 H4] Er Es Eo Ev. split; rewrite ?Er, ?Eo, ?Es; try done.
  - rewrite <- H2. unfold rows_view. rewrite Er. apply imap_ext. intros i slot _. unfold read_slot, chunk. by rewrite Es.
  - destruct (dl_slabOnce s); [by rewrite (Ev eq_refl)|done].
Qed.

(** The fields that storing rows leaves alone. *)
Record same_session (s s' : download) : Prop := {
  ss_cfg : dl_cfg s' = dl_cfg s;
  ss_id : dl_id s' = dl_id s;
  ss_selected : dl_selected s' = dl_selected s;
  ss_reconstructor : dl_reconstructor s' = dl_reconstructor s;
  ss_wg : dl_inflightWg s' = dl_inflightWg s;
  ss_inflight : dl_inflight s' = dl_inflight s;
  ss_cursor : dl_cursor s' = dl_cursor s;
  ss_sigCh : dl_sigCh s' = dl_sigCh s;
}.

Lemma same_session_set s once sv rows : same_session s (set_storage s once sv rows).
Proof. by split. Qed.

Lemma same_session_trans s1 s2 s3 : same_session s1 s2 → same_session s2 s3 → same_session s1 s3.
Proof. intros [] []. split; congruence. Qed.

Lemma window_length sid n i : length (window_bytes stale sid n i) = n.
Proof. unfold window_bytes. rewrite length_take, length_app, repeat_length. lia. Qed.

Lemma rows_view_lookup s i slot : dl_rows s !! i = Some slot → rows_view s !! i = Some (read_slot s i slot).
Proof. intros H. unfold rows_view. by rewrite list_lookup_imap, H. Qed.

(** The view after one slot was written. *)
Lemma rows_view_insert s once sv i slot row : (i < length (dl_rows s))%nat →
  (let s' := set_storage s once sv (<[i := slot]> (dl_rows s)) in
   read_slot s' i slot = Some row ∧ ∀ j sl, i ≠ j → read_slot s' j sl = read_slot s j sl) →
  rows_view (set_storage s once sv (<[i := slot]> (dl_rows s))) = <[i := Some row]> (rows_view s).
Proof.
  intros Hi [Hr Ho]. apply list_eq. intros j. unfold rows_view. cbn [dl_rows set_storage]. rewrite list_lookup_imap.
  destruct (decide (i = j)) as [<-|Hne].
  - rewrite !list_lookup_insert_eq by (rewrite ?length_imap; lia). cbn. by rewrite Hr.
  - rewrite !list_lookup_insert_ne, list_lookup_imap by done. destruct (dl_rows s !! j) as [sl|]; [|done]. cbn. by rewrite Ho.
Qed.

Lemma acquireSlab_ok s pool stored rowSize : storage s pool stored → dl_cfg s = cfg → data_pool pool →
  rowSize = v_coeffsRowSize (r_verifier (dl_reconstructor s)) → size_ok rowSize → Z.of_nat rowSize <= bc_MaxRowSize cfg →
  ∃ s' pool', acquireSlab stale rowSize s pool = Ok (s', pool') ∧ storage s' pool' stored ∧ data_pool pool' ∧ dl_slabOnce s' = true ∧ same_session s s'.
Proof.
  intros Hst Ecfg (Hp & Hcount & Hms) Esz [Hs0 Hs64] Hle. unfold acquireSlab. destruct (dl_slabOnce s) eqn:Eo; [by eexists _, _|].
  pose proof Hst as [Hlen Hview Hslab Hpar]. rewrite Eo in Hslab. destruct Hslab as [Hnone Hnil]. rewrite Ecfg, Horig. fold coder. fold K.
  assert (request_ok pool (cfg_K coder) (Z.of_nat rowSize)) as Hq.
  { pose proof (Nat.div_mod_eq rowSize LeopardChunkSize) as E. rewrite Hs64 in E. unfold LeopardChunkSize, rowSizeAlign in *.
    split; [done|unfold rowSizeAlign; lia|lia|]. exists (Z.of_nat (rowSize / 64)). unfold rowSizeAlign. lia. }
  destruct (GetRegion_ok pool _ _ Hp Hq) as (sid & pool' & HG & Hp' & Hu). rewrite HG. cbn [mbind result_bind].
  eexists _, pool'. split; [done|]. split; [|split; [|split; [done|apply same_session_set]]].
  2:{ apply GetRegion_shape in HG as [E1 E2]. split; [done|]. by rewrite E1, E2. }
  pose proof K_total as HKt. set (rows' := repeat (Window 0) K ++ drop K (dl_rows s)).
  assert (∀ i, (i < K)%nat → rows' !! i = Some (Window 0)) as Hlow.
  { intros i Hi. unfold rows'. rewrite lookup_app_l by by rewrite repeat_length. by apply lookup_repeat. }
  assert (∀ i, (K <= i)%nat → rows' !! i = dl_rows s !! i) as Hhigh.
  { intros i Hi. unfold rows'. rewrite lookup_app_r by by rewrite repeat_length. rewrite repeat_length, lookup_drop. f_equal. lia. }
  split; cbn [dl_rows dl_slab dl_slabOnce dl_reconstructor set_storage].
  - unfold rows'. rewrite length_app, repeat_length, length_drop. lia.
  - rewrite <- Hview. apply list_eq. intros i. unfold rows_view. rewrite !list_lookup_imap. cbn [dl_rows set_storage].
    destruct (decide (i < K)%nat) as [Hi|Hi].
    + rewrite (Hlow i Hi). destruct (lookup_lt_is_Some_2 (dl_rows s) i) as [slot Hs]; [lia|]. rewrite Hs. by rewrite (Hnil i slot Hs).
    + rewrite Hhigh by lia. destruct (dl_rows s !! i) as [slot|] eqn:Hs; [|done]. by rewrite (Hnil i slot Hs).
  - eexists. split; [done|]. cbn [sv_rowSize sv_chunks sv_id]. split; [done|]. split; [done|]. split; [by rewrite length_map, length_seq|].
    split; [apply Forall_map, Forall_forall; intros i _; apply window_length|]. split; [rewrite Hu; by left|]. intros i Hi. left. by apply Hlow.
  - intros i slot Hi. rewrite Hhigh by done. intros Hs%Hnil. by left.
Qed.

Lemma copy_whole (c row : bytes) : length c = length row → copy_at c 0 row = row.
Proof. intros E. unfold copy_at. cbn [take app]. rewrite Nat.sub_0_r, E, firstn_all. cbn [Nat.add]. rewrite drop_ge by lia. by rewrite app_nil_r. Qed.

Lemma store_row_ok s pool stored p : storage s pool stored → dl_slabOnce s = true → (Z.to_nat (rp_Index p) < total)%nat →
  length (rp_Row p) = v_coeffsRowSize (r_verifier (dl_reconstructor s)) → Z.to_nat (rp_Index p) ∉ indices stored →
  ∃ s', store_row s p = Ok s' ∧ storage s' pool (stored ++ [p]) ∧ dl_slabOnce s' = true ∧ same_session s s'.
Proof.
  intros [Hlen Hview Hslab Hpar] Eo Hi Hsz Hnew. set (i := Z.to_nat (rp_Index p)) in *. rewrite Eo in Hslab.
  destruct Hslab as (sv & Esv & Esize & Hpos & Hch & HF & Hin & Hwin). pose proof K_total as HKt.
  destruct (lookup_lt_is_Some_2 (dl_rows s) i) as [slot Hslot]; [lia|]. unfold store_row. fold i. rewrite Hslot.
  assert (∀ once sv' rows', same_session s (set_storage s once sv' rows')) as Hss by (intros; apply same_session_set).
  destruct (decide (i < K)%nat) as [HiK|HiK].
  - assert (∃ n, slot = Window n) as [n ->] by (destruct (Hwin i HiK) as [E|E]; rewrite E in Hslot; injection Hslot as <-; eauto).
    rewrite Esv. destruct (Nat.ltb_spec (sv_rowSize sv) (length (rp_Row p))); [lia|]. eexists. split; [done|]. split; [|by split].
    set (row := rp_Row p) in *. destruct (lookup_lt_is_Some_2 (sv_chunks sv) i) as [c Hc]; [lia|].
    pose proof (Forall_lookup_1 _ _ _ _ HF Hc) as Hcl. cbn in Hcl.
    split; cbn [dl_rows dl_slab dl_slabOnce dl_reconstructor set_storage].
    + by rewrite length_insert.
    + rewrite place_snoc. fold i row. rewrite <- Hview. apply rows_view_insert; [lia|].
      intros s'. split.
      * cbn. destruct (Nat.eqb_spec (length row) 0); [lia|]. unfold chunk. cbn. rewrite (nth_lookup_Some _ _ [] (copy_at c 0 row)).
        -- by rewrite copy_whole, firstn_all by lia.
        -- by rewrite list_lookup_alter_eq, Hc.
      * intros j sl Hne. destruct sl; try done. cbn. destruct (_ =? 0)%nat; [done|]. unfold chunk. cbn. rewrite Esv. do 2 f_equal.
        by rewrite !nth_lookup, list_lookup_alter_ne.
    + rewrite Eo. eexists. split; [done|]. cbn [sv_rowSize sv_chunks sv_id]. split; [done|]. split; [done|]. split; [by rewrite length_alter|].
      split; [|split; [done|]].
      * apply Forall_alter; [done|]. intros c' Hc' _. rewrite Hc in Hc'. injection Hc' as <-. rewrite copy_whole; lia.
      * intros j Hj. destruct (decide (i = j)) as [<-|Hne].
        -- right. rewrite list_lookup_insert_eq by lia. do 2 f_equal. lia.
        -- rewrite list_lookup_insert_ne by done. by apply Hwin.
    + intros j sl Hj. rewrite list_lookup_insert_ne by lia. by apply Hpar.
  - assert (slot = NilSlot ∨ slot = Wire []) as Hsl.
    { destruct (Hpar i slot ltac:(lia) Hslot) as [->|[old ->]]; [by left|]. right. pose proof (rows_view_lookup s i _ Hslot) as HV.
      rewrite Hview, (place_none order Horder coder a b Hshape stored i Hi Hnew) in HV. cbn in HV. by destruct old. }
    exists (set_storage s (dl_slabOnce s) (dl_slab s) (<[i := Wire (rp_Row p)]> (dl_rows s))). split; [by destruct Hsl as [->| ->]|].
    split; [|by split]. split; cbn [dl_rows dl_slab dl_slabOnce dl_reconstructor set_storage].
    + by rewrite length_insert.
    + rewrite place_snoc. fold i. rewrite <- Hview. apply rows_view_insert; [lia|]. intros s'. split; [|by intros j []].
      cbn. destruct (Nat.eqb_spec (length (rp_Row p)) 0); [lia|done].
    + rewrite Eo. exists sv. split_and!; try done. intros j Hj. rewrite list_lookup_insert_ne by lia. by apply Hwin.
    + intros j sl Hj. destruct (decide (i = j)) as [<-|Hne]; [rewrite list_lookup_insert_eq by lia; intros [= <-]; right; eauto|].
      rewrite list_lookup_insert_ne by done. by apply Hpar.
Qed.

Lemma store_ok novel : ∀ s pool stored, storage s pool stored → dl_slabOnce s = true → Forall (λ p, (Z.to_nat (rp_Index p) < total)%nat) novel →
  Forall (Rsema1dCollect.sized (dl_reconstructor s)) novel → NoDup (indices (stored ++ novel)) →
  ∃ s', store s novel = Ok s' ∧ storage s' pool (stored ++ novel) ∧ dl_slabOnce s' = true ∧ same_session s s'.
Proof.
  induction novel as [|p novel IH]; intros s pool stored Hst Eo HF Hsz Hnd.
  { rewrite app_nil_r. by exists s. }
  apply Forall_cons in HF as [Hp HF]. apply Forall_cons in Hsz as [Hps Hsz].
  assert (Z.to_nat (rp_Index p) ∉ indices stored) as Hnew.
  { unfold indices in *. rewrite map_app in Hnd. apply NoDup_app in Hnd as (_ & Hd & _). intros Hin. apply (Hd _ Hin). by left. }
  destruct (store_row_ok s pool stored p Hst Eo Hp Hps Hnew) as (s1 & E1 & Hst1 & Eo1 & Hss1).
  destruct (IH s1 pool (stored ++ [p]) Hst1 Eo1 HF) as (s2 & E2 & Hst2 & Eo2 & Hss2).
  - unfold Rsema1dCollect.sized. by rewrite (ss_reconstructor _ _ Hss1).
  - by rewrite <- app_assoc.
  - rewrite <- app_assoc in Hst2. exists s2. split; [unfold store; cbn [fold_res]; rewrite E1; exact E2|]. split; [done|]. split; [done|].
    by eapply same_session_trans.
Qed.

(** ** The invariant *)

(** Rows and combinations that came from the wire. *)
Definition received (p : RowProof) : Prop :=
  ∃ i shard ps rlc, net i = inr shard ∧ parseShard shard (bc_OriginalRows cfg) = Ok (ps, rlc) ∧ p ∈ ps.
Definition received_rlc (rlc : list (list Z)) : Prop :=
  ∃ i shard ps, net i = inr shard ∧ parseShard shard (bc_OriginalRows cfg) = Ok (ps, rlc).

(** The rows marked so far, the combinations and the batch that were verified
    first, and the rows stored and dropped. *)
Record ghost := mkGhost {
  g_taken : list RowProof;
  g_rlc : list (list Z);
  g_first : list RowProof;
  g_stored : list RowProof;
  g_dropped : list RowProof;
}.

Definition collect_of (s : dsystem) (g : ghost) : Collect :=
  mkCollect (dl_reconstructor (ds_dl s)) (omap verified (ds_workers s)) (g_taken g) (g_rlc g) (g_first g).

(** Somebody will wake the dispatcher up. *)
Definition stirring (s : dsystem) : Prop := dl_sigCh (ds_dl s) = true ∨ ∃ w, w ∈ ds_workers s ∧ unfinished w.

Definition phase_ok (s : dsystem) : Prop :=
  match ds_phase s with
  | Looping => True
  | Checked => stirring s ∨ Want (dl_reconstructor (ds_dl s)) ≠ 0 ∧ (dl_cursor (ds_dl s) < length selected)%nat
  | Parked => stirring s
  | Exited => ds_cancelled s = true ∨ Want (dl_reconstructor (ds_dl s)) = 0 ∨ (length selected <= dl_cursor (ds_dl s))%nat
  | Returned _ => Forall (λ w, awaited w = 0) (ds_workers s)
  end.

Definition held_ok (s : download) (w : worker) : Prop :=
  match wk_phase w with
  | Marked n => n ≠ [] ∧ Forall (λ p, oversize cfg (rp_Row p) = false) n
  | Backed n => dl_slabOnce s = true
  | _ => True
  end.

Definition backing (s : dsystem) (stored : list RowProof) : Prop :=
  match ds_phase s with Returned _ => True | _ => storage (ds_dl s) (ds_pool s) stored ∧ data_pool (ds_pool s) end.

Record dinv (s : dsystem) (g : ghost) : Prop := {
  di_cfg : dl_cfg (ds_dl s) = cfg;
  di_id : dl_id (ds_dl s) = id;
  di_selected : dl_selected (ds_dl s) = selected;
  di_collect : cinv coder b commitment (collect_of s g);
  di_perm : g_taken g ≡ₚ g_stored g ++ concat (map held (ds_workers s)) ++ g_dropped g;
  di_dropped : Forall (λ p, oversize cfg (rp_Row p) = true) (g_dropped g);
  di_held : Forall (held_ok (ds_dl s)) (ds_workers s);
  di_received : Forall received (g_taken g ++ g_first g ++ concat (omap verified (ds_workers s)));
  di_rlc : r_verifierRLC (dl_reconstructor (ds_dl s)) = true → received_rlc (g_rlc g);
  di_once : dl_slabOnce (ds_dl s) = true → r_verifierRLC (dl_reconstructor (ds_dl s)) = true;
  di_backing : backing s (g_stored g);
  di_inflight : dl_inflight (ds_dl s) = zsum (map reserved (ds_workers s));
  di_wg : dl_inflightWg (ds_dl s) = zsum (map awaited (ds_workers s));
  di_pos : map wk_pos (ds_workers s) = seq 0 (dl_cursor (ds_dl s));
  di_from : Forall (λ w, selected !! wk_pos w = Some (wk_from w)) (ds_workers s);
  di_phase : phase_ok s;
}.

(** ** How a step of a worker changes the sums *)

Section Update.
Context (ws : list worker) (i : nat) (w w' : worker) (Hi : ws !! i = Some w).

Lemma omap_verified_same : verified w' = verified w → omap verified (<[i := w']> ws) = omap verified ws.
Proof.
  intros E. rewrite <- (take_drop_middle _ _ _ Hi) at 2. rewrite insert_take_drop by by eapply lookup_lt_Some.
  rewrite !omap_app. cbn. by rewrite E.
Qed.

Lemma omap_verified_in batch : verified w = None → verified w' = Some batch →
  ∀ x, x ∈ omap verified (<[i := w']> ws) → x ∈ batch :: omap verified ws.
Proof.
  intros E E' x. rewrite <- (take_drop_middle _ _ _ Hi) at 2. rewrite insert_take_drop by by eapply lookup_lt_Some.
  rewrite !omap_app. cbn. rewrite E, E'. set_solver.
Qed.

Lemma omap_verified_out batch : verified w = Some batch → verified w' = None →
  ∃ before after, omap verified ws = before ++ batch :: after ∧ omap verified (<[i := w']> ws) = before ++ after.
Proof.
  intros E E'. exists (omap verified (take i ws)), (omap verified (drop (S i) ws)). split.
  - rewrite <- (take_drop_middle _ _ _ Hi) at 1. rewrite !omap_app. cbn. by rewrite E.
  - rewrite insert_take_drop by by eapply lookup_lt_Some. rewrite !omap_app. cbn. by rewrite E'.
Qed.

Lemma pos_same : wk_pos w' = wk_pos w → map wk_pos (<[i := w']> ws) = map wk_pos ws.
Proof.
  intros E. rewrite <- (take_drop_middle _ _ _ Hi) at 2. rewrite insert_take_drop by by eapply lookup_lt_Some.
  rewrite !map_app. cbn. by rewrite E.
Qed.
End Update.

(** Fewer batches in flight. *)
Lemma cinv_pending c pend : cinv coder b commitment c → (∀ x, x ∈ pend → x ∈ c_pending c) →
  cinv coder b commitment (mkCollect (c_r c) pend (c_taken c) (c_rlc c) (c_first c)).
Proof.
  intros Hc Hin. pose proof (ci_rows _ _ _ _ Hc) as [HR1 HR2]%Forall_app. pose proof (ci_installed _ _ _ _ Hc) as Hi.
  split; cbn; try apply Hc.
  - destruct (r_verifierRLC (c_r c)); [done|]. destruct Hi as [Hp ->]. split; [|done]. rewrite Hp in Hin.
    destruct pend as [|x pend]; [done|]. by destruct (not_elem_of_nil x (Hin x ltac:(by left))).
  - rewrite Forall_forall. intros x Hx. apply (proj1 (Forall_forall _ _) (ci_pending _ _ _ _ Hc)). auto.
  - apply Forall_app. split; [done|]. rewrite Forall_forall in *. intros p Hp. apply HR2. apply list_elem_of_In, in_concat in Hp as (x & Hx & Hp).
    apply list_elem_of_In, in_concat. exists x. split; [|done]. apply list_elem_of_In, Hin. by apply list_elem_of_In.
Qed.

Lemma cinv_taken c taken : cinv coder b commitment c → taken ≡ₚ c_taken c →
  cinv coder b commitment (mkCollect (c_r c) (c_pending c) taken (c_rlc c) (c_first c)).
Proof.
  intros Hc Hp. split; cbn; try apply Hc.
  - pose proof (ci_installed _ _ _ _ Hc) as Hi. destruct (r_verifierRLC (c_r c)); [done|]. destruct Hi as [? E]. split; [done|]. rewrite E in Hp.
    by apply Permutation_nil_r.
  - rewrite Hp. apply Hc.
  - rewrite Hp. apply Hc.
  - unfold indices. rewrite (Permutation_map _ Hp). apply Hc.
  - intros j. rewrite (ci_seen _ _ _ _ Hc). unfold indices. by rewrite (Permutation_map _ Hp).
  - rewrite (ci_have _ _ _ _ Hc). by rewrite (Permutation_length Hp).
Qed.

(** ** Steps of workers *)

(** What a step of a worker has to establish. *)
Lemma worker_moves s g i w w' d pool g' : let s' := mkDsystem d pool (ds_phase s) (<[i := w']> (ds_workers s)) (ds_cancelled s) in
  dinv s g → ds_workers s !! i = Some w → wk_pos w' = wk_pos w → wk_from w' = wk_from w →
  dl_cfg d = cfg → dl_id d = id → dl_selected d = selected → dl_cursor d = dl_cursor (ds_dl s) →
  cinv coder b commitment (collect_of s' g') →
  g_taken g' ≡ₚ g_stored g' ++ concat (map held (<[i := w']> (ds_workers s))) ++ g_dropped g' →
  Forall (λ p, oversize cfg (rp_Row p) = true) (g_dropped g') →
  held_ok d w' → (dl_slabOnce (ds_dl s) = true → dl_slabOnce d = true) →
  Forall received (g_taken g' ++ g_first g' ++ concat (omap verified (<[i := w']> (ds_workers s)))) →
  (r_verifierRLC (dl_reconstructor d) = true → received_rlc (g_rlc g')) →
  (dl_slabOnce d = true → r_verifierRLC (dl_reconstructor d) = true) → backing s' (g_stored g') →
  dl_inflight d = dl_inflight (ds_dl s) - reserved w + reserved w' →
  dl_inflightWg d = dl_inflightWg (ds_dl s) - awaited w + awaited w' →
  unfinished w' ∨ dl_sigCh d = true → (awaited w = 0 → awaited w' = 0) →
  (Want (dl_reconstructor (ds_dl s)) = 0 → Want (dl_reconstructor d) = 0) → dinv s' g'.
Proof.
  intros s' Hd Hi Ep Ef Ec Eid Es Ecu Hci Hpe Hdr Hho Hon Hre Hrl Honce Hba Ein Ewg Hst Haw Hwant.
  split; cbn [ds_dl ds_workers ds_pool s']; try done.
  - apply Forall_insert; [|done]. eapply Forall_impl; [apply (di_held _ _ Hd)|]. intros v. unfold held_ok. destruct (wk_phase v); auto.
  - rewrite Ein, (di_inflight _ _ Hd). symmetry. by apply zsum_map_insert.
  - rewrite Ewg, (di_wg _ _ Hd). symmetry. by apply zsum_map_insert.
  - rewrite (pos_same _ _ _ _ Hi Ep), Ecu. apply Hd.
  - apply Forall_insert; [apply Hd|]. rewrite Ep, Ef. by apply (Forall_lookup_1 _ _ _ _ (di_from _ _ Hd) Hi).
  - assert (stirring s') as Hstir.
    { destruct Hst as [Hu|Ht]; [right; exists w'; split; [by eapply elem_insert|done]|by left]. }
    pose proof (di_phase _ _ Hd) as Hp. unfold phase_ok in *. cbn [ds_phase s' ds_dl ds_cancelled]. destruct (ds_phase s); try done.
    + by left.
    + rewrite Ecu. destruct Hp as [?|[?|?]]; auto.
    + apply Forall_insert; [done|]. apply Haw. by apply (Forall_lookup_1 _ _ _ _ Hp Hi).
Qed.

(** A step that leaves the rows alone. *)
Lemma worker_counts s g i w w' d : dinv s g → ds_workers s !! i = Some w → wk_pos w' = wk_pos w → wk_from w' = wk_from w →
  verified w = None → verified w' = None → held w = [] → held w' = [] → held_ok d w' →
  dl_cfg d = cfg → dl_id d = id → dl_selected d = selected → dl_cursor d = dl_cursor (ds_dl s) →
  dl_reconstructor d = dl_reconstructor (ds_dl s) → dl_rows d = dl_rows (ds_dl s) → dl_slab d = dl_slab (ds_dl s) → dl_slabOnce d = dl_slabOnce (ds_dl s) →
  dl_inflight d = dl_inflight (ds_dl s) - reserved w + reserved w' →
  dl_inflightWg d = dl_inflightWg (ds_dl s) - awaited w + awaited w' →
  unfinished w' ∨ dl_sigCh d = true → (awaited w = 0 → awaited w' = 0) →
  dinv (mkDsystem d (ds_pool s) (ds_phase s) (<[i := w']> (ds_workers s)) (ds_cancelled s)) g.
Proof.
  intros Hd Hi Ep Ef Ev Ev' Eh Eh' Hho Ec Eid Es Ecu Er Erows Esl Eo Ein Ewg Hst Haw.
  assert (omap verified (<[i := w']> (ds_workers s)) = omap verified (ds_workers s)) as Eom by (apply (omap_verified_same _ _ w); congruence).
  eapply worker_moves; try done.
  - unfold collect_of. cbn [ds_dl ds_workers]. rewrite Eom, Er. apply (di_collect _ _ Hd).
  - rewrite (di_perm _ _ Hd). apply Permutation_app_head, Permutation_app_tail. pose proof (concat_insert held _ _ _ w' Hi) as HP.
    by rewrite Eh, Eh', !app_nil_r in HP.
  - apply Hd.
  - by rewrite Eo.
  - rewrite Eom. apply Hd.
  - rewrite Er. apply Hd.
  - rewrite Eo, Er. apply Hd.
  - pose proof (di_backing _ _ Hd) as Hb. unfold backing in *. cbn [ds_phase ds_dl ds_pool].
    assert (storage (ds_dl s) (ds_pool s) (g_stored g) → storage d (ds_pool s) (g_stored g)) as Hfr
      by (intros H; apply (storage_frame _ _ _ _ H Erows Esl Eo); by rewrite Er).
    destruct (ds_phase s); try done; (split; [apply Hfr, Hb|apply Hb]).
  - by rewrite Er.
Qed.

Lemma active_backing s g i w : dinv s g → ds_workers s !! i = Some w → awaited w ≠ 0 →
  storage (ds_dl s) (ds_pool s) (g_stored g) ∧ data_pool (ds_pool s) ∧ ∀ d pool ws c stored, storage d pool stored → data_pool pool →
    backing (mkDsystem d pool (ds_phase s) ws c) stored.
Proof.
  intros Hd Hi Ha. pose proof (di_backing _ _ Hd) as Hb. pose proof (di_phase _ _ Hd) as Hp. unfold backing, phase_ok in *. cbn.
  destruct (ds_phase s); try (split; [apply Hb|]; split; [apply Hb|]; done).
  by destruct Ha; apply (Forall_lookup_1 _ _ _ _ Hp Hi).
Qed.

(** The answer of a validator was verified. *)
Lemma verify_step_inv s g i w proofs rlc shard res r : dinv s g → ds_workers s !! i = Some w → wk_phase w = Fetching →
  net (wk_pos w) = inr shard → parseShard shard (bc_OriginalRows cfg) = Ok (proofs, rlc) →
  Reconstructor_verify order procs (dl_reconstructor (ds_dl s)) rlc (map Some proofs) = (res, r) →
  let ph := if is_ok res then Verified proofs else Leaving in
  ∃ g', dinv (mkDsystem (set_reconstructor (ds_dl s) r) (ds_pool s) (ds_phase s) (<[i := at_phase w ph]> (ds_workers s)) (ds_cancelled s)) g'.
Proof.
  intros Hd Hi Hph Hn Hps HV ph. assert (awaited w ≠ 0) as Ha by (unfold awaited; by rewrite Hph).
  destruct (active_backing s g i w Hd Hi Ha) as (Hst & Hpool & Hback).
  destruct (parseShard_spec shard (bc_OriginalRows cfg)) as [_ Hparse]; [destruct shard; [by eapply Hnet|done]|].
  destruct (Hparse _ _ Hps) as (Hne & Hb & Hrlc).
  assert (proofs_ok (map Some proofs)) as Hpok by (unfold proofs_ok; by rewrite omap_id_Some).
  pose proof (Reconstructor_verify_inv order Horder procs coder a b Hshape commitment (collect_of s g) rlc _ res r (di_collect _ _ Hd) Hrlc Hpok HV)
    as (R1 & R2 & R3 & R4 & R5 & R6 & Rok & Rno). cbn [collect_of c_r] in *.
  set (flag := r_verifierRLC (dl_reconstructor (ds_dl s))) in *.
  assert (Want r = Want (dl_reconstructor (ds_dl s))) as Hwant.
  { pose proof (ci_config _ _ _ _ (di_collect _ _ Hd)) as Ecf. cbn [collect_of c_r] in Ecf. unfold Want. by rewrite R1, R5, Ecf. }
  assert (held w = []) as Eh by (unfold held; by rewrite Hph). assert (verified w = None) as Ev by (unfold verified; by rewrite Hph).
  assert (reserved w = sel_ExpectedRows (wk_from w)) as Erv by (unfold reserved; by rewrite Hph).
  assert (awaited w = 1) as Eaw by (unfold awaited; by rewrite Hph).
  assert (∀ w', held w' = [] → g_taken g ≡ₚ g_stored g ++ concat (map held (<[i := w']> (ds_workers s))) ++ g_dropped g) as Hperm.
  { intros w' Eh'. rewrite (di_perm _ _ Hd). apply Permutation_app_head, Permutation_app_tail. pose proof (concat_insert held _ _ _ w' Hi) as HP.
    by rewrite Eh, Eh', !app_nil_r in HP. }
  assert (storage (set_reconstructor (ds_dl s) r) (ds_pool s) (g_stored g)) as Hst'.
  { apply (storage_frame _ _ _ _ Hst); try done. intros Ho. cbn. apply R6, (di_once _ _ Hd Ho). }
  pose proof (di_received _ _ Hd) as Hre. rewrite !Forall_app in Hre. destruct Hre as (Hre1 & Hre2 & Hre3).
  destruct (is_ok res) eqn:Eok; subst ph.
  - destruct res as [[]| |]; try done. destruct (Rok eq_refl) as (Hf & _ & _). rewrite omap_id_Some in *.
    exists (mkGhost (g_taken g) (if flag then g_rlc g else rlc) (if flag then g_first g else proofs) (g_stored g) (g_dropped g)).
    assert (∀ x, x ∈ omap verified (<[i := at_phase w (Verified proofs)]> (ds_workers s)) → x ∈ proofs :: omap verified (ds_workers s)) as Hin
      by by eapply omap_verified_in.
    assert (Forall received proofs) as Hrp by (apply Forall_forall; intros p Hp; by exists (wk_pos w), shard, proofs, rlc).
    eapply worker_moves; try done; cbn [g_taken g_rlc g_first g_stored g_dropped]; try apply Hd; rewrite ?Eaw, ?Erv; try (by unfold reserved, awaited; cbn; lia).
    + pose proof (cstep_verified order procs (collect_of s g) (map Some proofs) rlc r Hrlc Hpok HV) as Hstep.
      pose proof (cstep_inv order Horder procs coder a b Hshape commitment _ _ (di_collect _ _ Hd) Hstep) as Hc. rewrite omap_id_Some in Hc.
      exact (cinv_pending _ (omap verified (<[i := at_phase w (Verified proofs)]> (ds_workers s))) Hc Hin).
    + by apply Hperm.
    + rewrite !Forall_app. split; [done|]. split; [by destruct flag|]. apply Forall_forall. intros p Hp.
      apply list_elem_of_In, in_concat in Hp as (x & Hx & Hp). apply list_elem_of_In in Hx. apply Hin, elem_of_cons in Hx as [->|Hx].
      * apply (proj1 (Forall_forall _ _) Hrp). by apply list_elem_of_In.
      * apply (proj1 (Forall_forall _ _) Hre3). apply list_elem_of_In, in_concat. exists x. split; [by apply list_elem_of_In|done].
    + intros _. destruct flag eqn:Ef; [by apply Hd|]. by exists (wk_pos w), shard, proofs.
    + by apply Hback.
    + by left.
  - exists g. destruct (Rno eq_refl) as [Hf _].
    assert (omap verified (<[i := at_phase w Leaving]> (ds_workers s)) = omap verified (ds_workers s)) as Eom by (by apply (omap_verified_same _ _ w)).
    eapply worker_moves; try done; try apply Hd; rewrite ?Eaw, ?Erv; try (by unfold reserved, awaited; cbn; lia).
    + pose proof (cstep_refused order procs (collect_of s g) (map Some proofs) rlc res r Hrlc Hpok HV Eok) as Hstep.
      pose proof (cstep_inv order Horder procs coder a b Hshape commitment _ _ (di_collect _ _ Hd) Hstep) as Hc.
      unfold collect_of. cbn [ds_dl ds_workers]. rewrite Eom. exact Hc.
    + by apply Hperm.
    + rewrite Eom, !Forall_app. done.
    + cbn. rewrite Hf. apply Hd.
    + cbn. rewrite Hf. apply Hd.
    + by apply Hback.
    + by left.
Qed.

Lemma addVerified_verifier batch : ∀ r novel r', addVerified r batch = (novel, r') → same_verifier r r'.
Proof.
  induction batch as [|p batch IH]; intros r novel r' H; cbn [addVerified] in H; [by injection H as <- <-|].
  destruct (nth _ (r_seen r) false); [by eapply IH|]. set (r1 := mkReconstructor _ _ _ _ _ _) in H.
  destruct (addVerified r1 batch) as [n1 r2] eqn:E. injection H as <- <-. apply IH in E. exact E.
Qed.

Lemma addVerified_sub batch : ∀ r novel r', addVerified r batch = (novel, r') → ∀ p, p ∈ novel → p ∈ batch.
Proof.
  induction batch as [|q batch IH]; intros r novel r' H p Hp; cbn [addVerified] in H; [by injection H as <- <-|].
  destruct (nth _ (r_seen r) false); [right; by eapply IH|]. set (r1 := mkReconstructor _ _ _ _ _ _) in H.
  destruct (addVerified r1 batch) as [n1 r2] eqn:E. injection H as <- <-. apply elem_of_cons in Hp as [->|Hp]; [by left|right; by eapply IH].
Qed.

(** The rows of a verified batch were marked. *)
Lemma mark_step_inv s g i w batch novel r : dinv s g → ds_workers s !! i = Some w → wk_phase w = Verified batch →
  addVerified (dl_reconstructor (ds_dl s)) batch = (novel, r) →
  let ph := match novel with [] => Leaving | first :: _ => if oversize (dl_cfg (ds_dl s)) (rp_Row first) then Leaving else Marked novel end in
  let s' := mkDsystem (set_reconstructor (ds_dl s) r) (ds_pool s) (ds_phase s) (<[i := at_phase w ph]> (ds_workers s)) (ds_cancelled s) in
  ∃ stored dropped, dinv s' (mkGhost (g_taken g ++ novel) (g_rlc g) (g_first g) stored dropped).
Proof.
  intros Hd Hi Hph HA. rewrite (di_cfg _ _ Hd). intros ph s'. assert (awaited w ≠ 0) as Ha by (unfold awaited; by rewrite Hph).
  destruct (active_backing s g i w Hd Hi Ha) as (Hst & Hpool & Hback).
  destruct (addVerified_verifier _ _ _ _ HA) as (V1 & V2 & V3 & V4).
  assert (verified w = Some batch) as Ev by (unfold verified; by rewrite Hph).
  assert (verified (at_phase w ph) = None) as Ev' by (subst ph; destruct novel as [|p ?]; [done|]; by destruct (oversize cfg (rp_Row p))).
  destruct (omap_verified_out _ _ _ _ Hi batch Ev Ev') as (before & after & Eb & Ea).
  pose proof (cstep_mark order procs (collect_of s g) before batch after novel r Eb HA) as Hstep.
  pose proof (cstep_inv order Horder procs coder a b Hshape commitment _ _ (di_collect _ _ Hd) Hstep) as Hc. cbn [c_taken c_rlc c_first collect_of] in Hc.
  assert (held w = []) as Eh by (unfold held; by rewrite Hph).
  assert (awaited w = 1) as Eaw by (unfold awaited; by rewrite Hph).
  assert (reserved w = sel_ExpectedRows (wk_from w)) as Erv by (unfold reserved; by rewrite Hph).
  assert (awaited (at_phase w ph) = 1 ∧ reserved (at_phase w ph) = sel_ExpectedRows (wk_from w) ∧ unfinished (at_phase w ph)) as (Eaw' & Erv' & Hun)
    by (subst ph; destruct novel as [|p ?]; [done|]; by destruct (oversize cfg (rp_Row p))).
  assert (∀ p q, p ∈ novel → q ∈ novel → oversize cfg (rp_Row p) = oversize cfg (rp_Row q)) as Hsame.
  { intros p q Hp Hq. pose proof (ci_rows _ _ _ _ Hc) as HR. cbn in HR. rewrite !Forall_app in HR. destruct HR as ((_ & HR) & _).
    rewrite Forall_forall in HR. unfold oversize. pose proof (HR p Hp) as E1. pose proof (HR q Hq) as E2. unfold Rsema1dCollect.sized in *. by rewrite E1, E2. }
  pose proof (concat_insert held _ _ _ (at_phase w ph) Hi) as HP. rewrite Eh, app_nil_r in HP.
  assert (∃ dropped, (novel ++ g_dropped g ≡ₚ held (at_phase w ph) ++ dropped) ∧ Forall (λ p, oversize cfg (rp_Row p) = true) dropped ∧
    held_ok (set_reconstructor (ds_dl s) r) (at_phase w ph)) as (dropped & Hsplit & Hdrop & Hho).
  { subst ph. destruct novel as [|p rest]; [exists (g_dropped g); split; [done|]; split; [apply Hd|done]|].
    destruct (oversize cfg (rp_Row p)) eqn:Eo.
    - exists ((p :: rest) ++ g_dropped g). split; [done|]. split; [|done]. apply Forall_app. split; [|apply Hd].
      apply Forall_forall. intros q Hq. rewrite <- Eo. apply Hsame; [done|by left].
    - exists (g_dropped g). split; [done|]. split; [apply Hd|]. split; [done|]. apply Forall_forall. intros q Hq. rewrite <- Eo. apply Hsame; [done|by left]. }
  exists (g_stored g), dropped.
  pose proof (di_received _ _ Hd) as Hre. rewrite !Forall_app in Hre. destruct Hre as (Hre1 & Hre2 & Hre3). rewrite Eb, concat_app in Hre3. cbn in Hre3.
  rewrite !Forall_app in Hre3. destruct Hre3 as (Hre3 & Hre4 & Hre5).
  assert (Forall received novel) as Hnov.
  { apply Forall_forall. intros p Hp. apply (proj1 (Forall_forall _ _) Hre4).
    pose proof (addVerified_sub batch _ _ _ HA p Hp). done. }
  apply (worker_moves s g i w); try done; cbn [g_taken g_rlc g_first g_stored g_dropped set_reconstructor dl_cfg dl_id dl_selected dl_cursor dl_reconstructor
    dl_slabOnce dl_inflight dl_inflightWg]; try apply Hd; rewrite ?Eaw, ?Eaw', ?Erv, ?Erv'; try lia.
  - unfold collect_of. cbn [ds_dl ds_workers dl_reconstructor set_reconstructor]. rewrite Ea. exact Hc.
  - rewrite (di_perm _ _ Hd), HP, <- !app_assoc. apply Permutation_app_head, Permutation_app_head. by rewrite Permutation_app_comm.
  - rewrite Ea, concat_app, !Forall_app. done.
  - rewrite V3. apply Hd.
  - rewrite V3. apply Hd.
  - apply Hback; [|done]. apply (storage_frame _ _ _ _ Hst); try done. intros _. cbn. by rewrite V4.
  - by left.
  - pose proof (ci_have _ _ _ _ (di_collect _ _ Hd)) as H1. pose proof (ci_have _ _ _ _ Hc) as H2. cbn [c_r c_taken collect_of] in H1, H2.
    rewrite length_app in H2. unfold Want. rewrite V1. set (k := cfg_K _).
    destruct (Z.leb_spec k (r_have (dl_reconstructor (ds_dl s)))), (Z.leb_spec k (r_have r)); lia.
Qed.

(** The slab is there. *)
Lemma acquire_step_inv s g i w novel : dinv s g → ds_workers s !! i = Some w → wk_phase w = Marked novel →
  ∃ d pool, acquireSlab stale (from_option (λ p, length (rp_Row p)) 0%nat (head novel)) (ds_dl s) (ds_pool s) = Ok (d, pool) ∧
    dinv (mkDsystem d pool (ds_phase s) (<[i := at_phase w (Backed novel)]> (ds_workers s)) (ds_cancelled s)) g.
Proof.
  intros Hd Hi Hph. assert (awaited w ≠ 0) as Ha by (unfold awaited; by rewrite Hph).
  destruct (active_backing s g i w Hd Hi Ha) as (Hst & Hpool & Hback).
  pose proof (Forall_lookup_1 _ _ _ _ (di_held _ _ Hd) Hi) as Hh. unfold held_ok in Hh. rewrite Hph in Hh. destruct Hh as [Hne Hfit].
  destruct novel as [|p rest] eqn:En; [done|]. rewrite <- En in *. cbn [head from_option]. set (size := length (rp_Row p)).
  assert (p ∈ g_taken g) as Hp.
  { rewrite (di_perm _ _ Hd). apply elem_of_app. right. apply elem_of_app. left. apply list_elem_of_In, in_concat. exists novel. split.
    - apply in_map_iff. exists w. split; [unfold held; by rewrite Hph|]. by apply list_elem_of_In, (list_elem_of_lookup_2 _ i).
    - rewrite En. by left. }
  pose proof (di_collect _ _ Hd) as Hc.
  assert (size = v_coeffsRowSize (r_verifier (dl_reconstructor (ds_dl s)))) as Esz.
  { pose proof (ci_rows _ _ _ _ Hc) as [HR _]%Forall_app. cbn in HR. apply (proj1 (Forall_forall _ _) HR p Hp). }
  assert (size_ok size) as Hsize.
  { pose proof (proj1 (Forall_forall _ _) (ci_taken _ _ _ _ Hc) p Hp) as (ps & rr & rl & rs & sh & HA & Hin).
    pose proof (proj1 (Forall_forall _ _) (ba_rows _ _ _ _ _ _ _ _ _ HA) p Hin) as Hra. unfold size. rewrite (ra_size _ _ _ _ _ _ Hra). apply HA. }
  assert (Z.of_nat size <= bc_MaxRowSize cfg) as Hle.
  { pose proof (proj1 (Forall_forall _ _) Hfit p ltac:(rewrite En; by left)) as Ho. unfold oversize in Ho.
    apply andb_false_iff in Ho as [Ho%Z.ltb_ge|Ho%Z.ltb_ge]; unfold size; lia. }
  destruct (acquireSlab_ok (ds_dl s) (ds_pool s) (g_stored g) size Hst (di_cfg _ _ Hd) Hpool Esz Hsize Hle) as (d & pool & E & Hst' & Hpool' & Eo & Hss).
  exists d, pool. replace (from_option (λ p0, length (rp_Row p0)) 0%nat (head novel)) with size by by rewrite En. split; [done|]. destruct Hss.
  assert (omap verified (<[i := at_phase w (Backed novel)]> (ds_workers s)) = omap verified (ds_workers s)) as Eom
    by (apply (omap_verified_same _ _ w); [done|]; unfold verified; by rewrite Hph).
  apply (worker_moves s g i w); try done; try apply Hd; try (unfold reserved, awaited; rewrite Hph; cbn; lia).
  - by rewrite ss_cfg0, (di_cfg _ _ Hd).
  - by rewrite ss_id0, (di_id _ _ Hd).
  - by rewrite ss_selected0, (di_selected _ _ Hd).
  - unfold collect_of. cbn [ds_dl ds_workers]. by rewrite Eom, ss_reconstructor0.
  - rewrite (di_perm _ _ Hd). apply Permutation_app_head, Permutation_app_tail. pose proof (concat_insert held _ _ _ (at_phase w (Backed novel)) Hi) as HP.
    unfold held at 2 4 in HP. rewrite Hph in HP. cbn [wk_phase at_phase] in HP. symmetry. by apply Permutation_app_inv_r in HP.
  - rewrite Eom. apply Hd.
  - rewrite ss_reconstructor0. apply Hd.
  - rewrite ss_reconstructor0. intros _. pose proof (ci_installed _ _ _ _ Hc) as Hins. cbn [c_r collect_of c_taken] in Hins.
    destruct (r_verifierRLC _); [done|]. destruct Hins as [_ Hins]. rewrite Hins in Hp. by apply not_elem_of_nil in Hp.
  - by apply Hback.
  - by left.
  - by rewrite ss_reconstructor0.
Qed.

(** The rows of a worker were stored. *)
Lemma store_step_inv s g i w novel : dinv s g → ds_workers s !! i = Some w → wk_phase w = Backed novel →
  ∃ d g', store (ds_dl s) novel = Ok d ∧
    dinv (mkDsystem d (ds_pool s) (ds_phase s) (<[i := at_phase w Leaving]> (ds_workers s)) (ds_cancelled s)) g' ∧ g_taken g' = g_taken g.
Proof.
  intros Hd Hi Hph. assert (awaited w ≠ 0) as Ha by (unfold awaited; by rewrite Hph).
  destruct (active_backing s g i w Hd Hi Ha) as (Hst & Hpool & Hback).
  pose proof (Forall_lookup_1 _ _ _ _ (di_held _ _ Hd) Hi) as Ho. unfold held_ok in Ho. rewrite Hph in Ho.
  pose proof (concat_insert held _ _ _ (at_phase w Leaving) Hi) as HP. change (held (at_phase w Leaving)) with (@nil RowProof) in HP.
  assert (held w = novel) as Eh by (unfold held; by rewrite Hph). rewrite Eh, app_nil_r in HP.
  set (rest := concat (map held (<[i := at_phase w Leaving]> (ds_workers s)))) in *.
  assert (g_taken g ≡ₚ (g_stored g ++ novel) ++ rest ++ g_dropped g) as Hperm.
  { rewrite (di_perm _ _ Hd), <- HP, <- !app_assoc. apply Permutation_app_head. rewrite app_assoc, (Permutation_app_comm rest novel). by rewrite <- app_assoc. }
  pose proof (di_collect _ _ Hd) as Hc.
  assert (∀ p, p ∈ novel → p ∈ g_taken g) as Hsub by (intros p Hp; rewrite Hperm; set_solver).
  destruct (store_ok novel (ds_dl s) (ds_pool s) (g_stored g) Hst Ho) as (d & E & Hst' & Eo & Hss).
  - apply Forall_forall. intros p Hp. pose proof (proj1 (Forall_forall _ _) (ci_taken _ _ _ _ Hc) p (Hsub p Hp)) as Hop%opened_index. unfold total. lia.
  - apply Forall_forall. intros p Hp. pose proof (ci_rows _ _ _ _ Hc) as [HR _]%Forall_app. apply (proj1 (Forall_forall _ _) HR p (Hsub p Hp)).
  - pose proof (ci_unique _ _ _ _ Hc) as Hnd. cbn in Hnd. unfold indices in *. rewrite (Permutation_map _ Hperm), map_app in Hnd. by apply NoDup_app in Hnd as [? _].
  - exists d, (mkGhost (g_taken g) (g_rlc g) (g_first g) (g_stored g ++ novel) (g_dropped g)). split; [done|]. split; [|done]. destruct Hss.
    assert (omap verified (<[i := at_phase w Leaving]> (ds_workers s)) = omap verified (ds_workers s)) as Eom
      by (apply (omap_verified_same _ _ w); [done|]; unfold verified; by rewrite Hph).
    apply (worker_moves s g i w); try done; try apply Hd; try (unfold reserved, awaited; rewrite Hph; cbn; lia).
    + by rewrite ss_cfg0, (di_cfg _ _ Hd).
    + by rewrite ss_id0, (di_id _ _ Hd).
    + by rewrite ss_selected0, (di_selected _ _ Hd).
    + unfold collect_of. cbn [ds_dl ds_workers g_taken g_rlc g_first]. by rewrite Eom, ss_reconstructor0.
    + rewrite Eom. apply Hd.
    + rewrite ss_reconstructor0. apply Hd.
    + rewrite ss_reconstructor0. intros _. by apply Hd.
    + by apply Hback.
    + by left.
    + by rewrite ss_reconstructor0.
Qed.

(** The obligations of [worker_counts] for a worker in a known phase. *)
Ltac counts Hd Hph :=
  eapply worker_counts; try done; try apply Hd; unfold verified, held, reserved, awaited; rewrite ?Hph; try done; cbn; try lia; try (by left).

(** Every step of a worker that is not done succeeds and keeps the invariant. *)
Lemma worker_step_inv s g i w : dinv s g → ds_workers s !! i = Some w → wk_phase w ≠ Finished →
  ∃ w' d pool g', worker_step order procs stale net w (ds_dl s) (ds_pool s) = Some (Ok (w', d, pool)) ∧
    dinv (mkDsystem d pool (ds_phase s) (<[i := w']> (ds_workers s)) (ds_cancelled s)) g'.
Proof.
  intros Hd Hi Hun. pose proof (di_cfg _ _ Hd) as Ecfg. unfold worker_step. destruct (wk_phase w) eqn:Hph; try done.
  - destruct (net (wk_pos w)) as [e|shard] eqn:En.
    { eexists _, _, _, g. split; [done|]. counts Hd Hph. }
    rewrite Ecfg. destruct (parseShard_spec shard (bc_OriginalRows cfg)) as [Hnp Hparse]; [destruct shard; [by eapply Hnet|done]|].
    destruct (parseShard shard (bc_OriginalRows cfg)) as [[proofs rlc]|e|p] eqn:Ep; [| |by destruct (Hnp p)].
    2:{ eexists _, _, _, g. split; [done|]. counts Hd Hph. }
    destruct (Hparse _ _ eq_refl) as (Hne & Hb & Hrlc).
    pose proof (Reconstructor_verify_no_panic order Horder procs coder a b Hshape commitment (collect_of s g) rlc proofs (di_collect _ _ Hd) Hrlc Hb) as Hnv.
    cbn [c_r collect_of] in Hnv.
    destruct (Reconstructor_verify order procs (dl_reconstructor (ds_dl s)) rlc (map Some proofs)) as [res r] eqn:EV.
    destruct (verify_step_inv s g i w proofs rlc shard res r Hd Hi Hph En Ep EV) as [g' Hg'].
    destruct res as [[]|e|p]; [by eexists _, _, _, g'..|by destruct (Hnv p)].
  - destruct (addVerified (dl_reconstructor (ds_dl s)) batch) as [novel r] eqn:EA.
    destruct (mark_step_inv s g i w batch novel r Hd Hi Hph EA) as (stored & dropped & Hg'). by eexists _, _, _, _.
  - destruct (acquire_step_inv s g i w novel Hd Hi Hph) as (d & pool & -> & Hg'). by eexists _, _, _, g.
  - destruct (store_step_inv s g i w novel Hd Hi Hph) as (d & g' & -> & Hg' & _). by eexists _, _, _, g'.
  - eexists _, _, _, g. split; [done|]. counts Hd Hph.
  - assert (1 <= dl_inflightWg (ds_dl s)) as Hwg.
    { rewrite (di_wg _ _ Hd). rewrite <- (take_drop_middle _ _ _ Hi), map_app, zsum_app. cbn [map]. rewrite zsum_cons.
      assert (∀ l, 0 <= zsum (map awaited l)) as Hnn by (intros l; apply zsum_nonneg, Forall_map, Forall_forall; intros v _; unfold awaited; by destruct (wk_phase v)).
      pose proof (Hnn (take i (ds_workers s))). pose proof (Hnn (drop (S i) (ds_workers s))). unfold awaited at 2. rewrite Hph. lia. }
    destruct (Z.leb_spec (dl_inflightWg (ds_dl s)) 0); [lia|].
    eexists _, _, _, g. split; [done|]. counts Hd Hph.
  - eexists _, _, _, g. split; [done|]. counts Hd Hph.
Qed.

Lemma abort_step_inv s g i w : dinv s g → ds_workers s !! i = Some w → wk_phase w = Fetching →
  dinv (mkDsystem (ds_dl s) (ds_pool s) (ds_phase s) (<[i := at_phase w Leaving]> (ds_workers s)) (ds_cancelled s)) g.
Proof.
  intros Hd Hi Hph. counts Hd Hph.
Qed.

(** ** Steps of the dispatcher *)

Lemma reserved_unfinished ws : zsum (map reserved ws) ≠ 0 → ∃ w, w ∈ ws ∧ unfinished w.
Proof.
  induction ws as [|w ws IH]; [done|]. cbn [map]. rewrite zsum_cons. intros H. destruct (wk_phase w) eqn:E;
    try (exists w; split; [by left|unfold unfinished; by rewrite E]).
  destruct IH as (v & Hv & Hu); [unfold reserved in H at 1; rewrite E in H; lia|]. exists v. split; [by right|done].
Qed.

Lemma awaited_none ws : zsum (map awaited ws) = 0 → Forall (λ w, awaited w = 0) ws.
Proof.
  induction ws as [|w ws IH]; [constructor|]. cbn [map]. rewrite zsum_cons. intros H.
  assert (0 <= awaited w) by (unfold awaited; by destruct (wk_phase w)).
  assert (0 <= zsum (map awaited ws)) by (apply zsum_nonneg, Forall_map, Forall_forall; intros v _; unfold awaited; by destruct (wk_phase v)).
  constructor; [lia|]. apply IH. lia.
Qed.

Lemma Want_nonneg r : 0 <= Want r.
Proof. unfold Want. destruct (Z.leb_spec (cfg_K (r_config r)) (r_have r)); lia. Qed.

Lemma freeSlab_ok s pool stored : storage s pool stored → data_pool pool →
  ∃ s' pool', freeSlab s pool = Ok (s', pool') ∧ same_session s s' ∧ dl_slabOnce s' = dl_slabOnce s.
Proof.
  intros [_ _ Hs _] (Hp & _). unfold freeSlab. destruct (dl_slab s) as [sv|] eqn:E; [|by eexists _, _].
  assert (sv_id sv ∈ in_use pool) as Hin.
  { destruct (dl_slabOnce s); [|by destruct Hs]. destruct Hs as (sv' & E' & _ & _ & _ & _ & Hin & _). congruence. }
  destruct (putBuf_ok pool (sv_id sv) Hp Hin) as (p' & -> & _). eexists _, _. split; [done|]. by split.
Qed.

Lemma write_back_session s out : same_session s (write_back s out) ∧ dl_slabOnce (write_back s out) = dl_slabOnce s.
Proof. by split. Qed.

(** Freeing after reconstruction returns the same slab. *)
Lemma freeSlab_written s pool stored out : storage s pool stored → data_pool pool →
  ∃ s' pool', freeSlab (write_back s out) pool = Ok (s', pool') ∧ same_session s s' ∧ dl_slabOnce s' = dl_slabOnce s.
Proof.
  intros Hs Hp. destruct (freeSlab_ok s pool stored Hs Hp) as (s' & pool' & E & Hss & Eo). unfold freeSlab in *. cbn [write_back dl_slab set_storage].
  destruct (dl_slab s) as [sv|]; cbn [option_map]; [|by eexists _, _]. cbn [sv_id]. apply bind_Ok in E as (p' & -> & _). eexists _, _. split; [done|]. by split.
Qed.

Lemma decode_no_panic bs c : no_panic (decode bs c).
Proof.
  unfold decode. apply no_panic_bind; [apply no_panic_ensure|]. intros [] Hl%ensure_Ok. apply negb_true_iff, Nat.ltb_ge in Hl.
  apply no_panic_bind; [|intros h _; no_panic]. unfold unmarshalFrom. destruct bs as [|v rest]; [cbn in Hl; lia|].
  destruct (v =? 0); cbn [ensure mbind result_bind]; [|apply no_panic_Err]. destruct (Nat.ltb_spec (length rest) 4); [cbn in Hl; lia|apply no_panic_Ok].
Qed.

Lemma reconstruct_no_panic s : r_config (dl_reconstructor s) = coder → no_panic (reconstruct s).
Proof.
  intros Er. unfold reconstruct, Reconstruct. destruct (0 <? Want (dl_reconstructor s)).
  - repeat case_match; apply no_panic_Err.
  - rewrite Er. pose proof (RS_ReconstructData_errors (rows_view s)) as Hn. destruct (RS_ReconstructData _ _ _) as [out|e|p]; [apply no_panic_Ok| |by destruct (Hn p)].
    repeat case_match; apply no_panic_Err.
Qed.

Lemma download_Blob_ok c s pool stored : storage s pool stored → data_pool pool → r_config (dl_reconstructor s) = coder →
  ∃ r s' pool', download_Blob c s pool = Ok (r, s', pool') ∧ same_session s s' ∧ dl_slabOnce s' = dl_slabOnce s.
Proof.
  intros Hs Hp Er. unfold download_Blob. destruct (freeSlab_ok s pool stored Hs Hp) as (s' & pool' & EF & Hss & Eo).
  destruct c; [rewrite EF; by eexists _, _, _|].
  pose proof (reconstruct_no_panic s Er) as Hn. unfold reconstruct in *.
  destruct (Reconstruct (dl_reconstructor s) (rows_view s)) as [out|e|p]; [| |by destruct (Hn p)].
  - pose proof (decode_no_panic (slab_bytes (write_back s out)) (dl_cfg (write_back s out))) as Hd.
    destruct (freeSlab_written s pool stored out Hs Hp) as (s2 & pool2 & EF2 & Hss2 & Eo2).
    destruct (decode _ _) as [data|e|p]; [by eexists _, _, _|rewrite EF2; by eexists _, _, _|by destruct (Hd p)].
  - destruct (String.eqb e ErrNotEnoughRows); [destruct (negb _)|]; rewrite EF; by eexists _, _, _.
Qed.

Lemma dinv_phase s g ph : dinv s g → (∀ r, ph ≠ Returned r) → (∀ r, ds_phase s ≠ Returned r) →
  let s' := mkDsystem (ds_dl s) (ds_pool s) ph (ds_workers s) (ds_cancelled s) in phase_ok s' → dinv s' g.
Proof.
  intros Hd Hn Hn' s' Hp. destruct Hd. split; try done. unfold backing in *. cbn. destruct (ds_phase s) as [| | | |r]; try (by destruct ph);
    by destruct (Hn' r).
Qed.

Lemma dispatch_step_inv s g r : dinv s g → dispatch_step s = Some r → ∃ s' g', r = Ok s' ∧ dinv s' g'.
Proof.
  intros Hd. pose proof (di_phase _ _ Hd) as Hp. unfold dispatch_step. unfold phase_ok in Hp. destruct (ds_phase s) as [| | | |res] eqn:Eph; try done.
  - intros [= <-]. eexists _, g. split; [done|]. apply dinv_phase; [done|by destruct (ready _)|by rewrite Eph|]. unfold phase_ok. cbn.
    unfold ready. destruct (Z.ltb_spec 0 (dl_inflight (ds_dl s))) as [Hin|Hin].
    + left. right. cbn. apply reserved_unfinished. rewrite <- (di_inflight _ _ Hd). lia.
    + rewrite (di_selected _ _ Hd). destruct (Z.eqb_spec (Want (dl_reconstructor (ds_dl s))) 0); cbn; [auto|].
      destruct (Nat.leb_spec (length selected) (dl_cursor (ds_dl s))); [auto|]. right. split; [done|lia].
  - intros [= <-]. unfold pick. rewrite (di_selected _ _ Hd).
    destruct (selected !! dl_cursor (ds_dl s)) as [from|] eqn:Ef.
    2:{ eexists _, g. split; [done|]. apply dinv_phase; [done|done|by rewrite Eph|]. unfold phase_ok. cbn. destruct Hp as [Hp|[_ Hp]]; [exact Hp|].
        apply lookup_ge_None in Ef. lia. }
    destruct (Z.leb_spec (Want (dl_reconstructor (ds_dl s))) (dl_inflight (ds_dl s))) as [Hw|Hw].
    { eexists _, g. split; [done|]. apply dinv_phase; [done|done|by rewrite Eph|]. unfold phase_ok. cbn. destruct Hp as [Hp|[Hp _]]; [exact Hp|].
      right. cbn. apply reserved_unfinished. rewrite <- (di_inflight _ _ Hd). pose proof (Want_nonneg (dl_reconstructor (ds_dl s))). lia. }
    eexists _, g. split; [done|]. pose proof (di_backing _ _ Hd) as Hb. unfold backing in Hb. rewrite Eph in Hb. destruct Hb as [Hst Hpool].
    split; cbn [ds_dl ds_workers ds_pool dl_cfg dl_id dl_selected dl_reconstructor dl_slabOnce dl_inflight dl_inflightWg dl_cursor]; try done; try apply Hd.
    + unfold collect_of. cbn [ds_dl ds_workers dl_reconstructor]. rewrite omap_app. cbn. rewrite app_nil_r. apply (di_collect _ _ Hd).
    + rewrite map_app, concat_app. cbn. rewrite app_nil_r. apply Hd.
    + apply Forall_app. split; [apply Hd|by repeat constructor].
    + rewrite omap_app. cbn. rewrite app_nil_r. apply Hd.
    + split; [|done]. by apply (storage_frame (ds_dl s)).
    + rewrite zsum_map_snoc, (di_inflight _ _ Hd). done.
    + rewrite zsum_map_snoc, (di_wg _ _ Hd). done.
    + rewrite map_app, seq_S, (di_pos _ _ Hd). done.
    + apply Forall_app. split; [apply Hd|by repeat constructor].
  - destruct (dl_sigCh (ds_dl s)); [|done]. intros [= <-]. eexists _, g. split; [done|].
    pose proof (di_backing _ _ Hd) as Hb. unfold backing in Hb. rewrite Eph in Hb. destruct Hb as [Hst Hpool].
    split; try apply Hd; [|done]. split; [|done]. by apply (storage_frame (ds_dl s)).
  - destruct (Z.eqb_spec (dl_inflightWg (ds_dl s)) 0) as [Hwg|]; [|done]. intros [= <-].
    pose proof (di_backing _ _ Hd) as Hb. unfold backing in Hb. rewrite Eph in Hb. destruct Hb as [Hst Hpool].
    destruct (download_Blob_ok (ds_cancelled s) (ds_dl s) (ds_pool s) (g_stored g) Hst Hpool (ci_config _ _ _ _ (di_collect _ _ Hd))) as (res & d & pool & -> & [] & Eo).
    eexists _, g. split; [done|]. rewrite (di_wg _ _ Hd) in Hwg. apply awaited_none in Hwg.
    split; cbn [ds_dl ds_workers ds_pool]; unfold collect_of; cbn [ds_dl ds_workers]; rewrite ?ss_cfg0, ?ss_id0, ?ss_selected0, ?ss_reconstructor0, ?ss_wg0, ?ss_inflight0, ?ss_cursor0, ?Eo; try apply Hd; try done.
    eapply Forall_impl; [exact Hwg|]. intros w Hw. unfold held_ok, awaited in *. by destruct (wk_phase w).
Qed.

(** ** Executions *)

(** Other sessions use the pool. *)
Definition denv (s s' : dsystem) : Prop :=
  ∃ pool, s' = mkDsystem (ds_dl s) pool (ds_phase s) (ds_workers s) (ds_cancelled s) ∧ data_pool pool ∧
    ∀ sv, dl_slab (ds_dl s) = Some sv → sv_id sv ∈ in_use pool.

(** Executions with their number of steps of this session. *)
Inductive drun (s : dsystem) : nat → dsystem → Prop :=
  | drun_start : drun s 0 s
  | drun_step n s1 s2 : drun s n s1 → dstep order procs stale net s1 s2 → drun s (S n) s2
  | drun_env n s1 s2 : drun s n s1 → denv s1 s2 → drun s n s2.

Lemma dstep_inv s s' g : dinv s g → dstep order procs stale net s s' → ∃ g', dinv s' g'.
Proof.
  intros Hd Hs. destruct Hs as [s s' E|s Ep Ec|s i w w' d pool Hi E|s i w Hi Ef Ec|s Ec].
  - destruct (dispatch_step_inv s g _ Hd E) as (s1 & g' & [= <-] & Hd'). by exists g'.
  - exists g. rewrite <- Ec. apply dinv_phase; [done|done|by rewrite Ep|]. left. exact Ec.
  - assert (wk_phase w ≠ Finished) as Hun by (intros Ew; unfold worker_step in E; by rewrite Ew in E).
    destruct (worker_step_inv s g i w Hd Hi Hun) as (w1 & d1 & p1 & g' & E1 & Hd'). rewrite E in E1. injection E1 as <- <- <-. by exists g'.
  - exists g. pose proof (abort_step_inv s g i w Hd Hi Ef) as H. by rewrite Ec in H.
  - exists g. pose proof (di_phase _ _ Hd) as Hp. destruct Hd. split; try done. unfold phase_ok in *. cbn. destruct (ds_phase s); auto.
Qed.

Lemma denv_inv s s' g : dinv s g → denv s s' → dinv s' g.
Proof.
  intros Hd (pool & -> & Hp & Hin). pose proof (di_backing _ _ Hd) as Hb. destruct Hd. split; try done. unfold backing in *. cbn.
  assert (storage (ds_dl s) (ds_pool s) (g_stored g) → storage (ds_dl s) pool (g_stored g)) as Hst.
  { intros [H1 H2 H3 H4]. split; try done. destruct (dl_slabOnce (ds_dl s)); [|done]. destruct H3 as (sv & E & ? & ? & ? & ? & ? & ?).
    exists sv. split_and!; try done. by apply Hin. }
  destruct (ds_phase s); try done; (split; [apply Hst, Hb|done]).
Qed.

Lemma dinit_inv d pool : newDownload cfg id selected = Ok d → data_pool pool → dinv (dinit d pool) (mkGhost [] [] [] [] []).
Proof.
  intros H Hp. unfold newDownload in H. rewrite Hid in H. cbn [mbind result_bind] in H. apply bind_Ok in H as (rec & Hr & [= <-]).
  pose proof (NewReconstructor_inv coder b commitment rec Hr) as Hc.
  assert (Z.to_nat (BlobConfig_TotalRows cfg) = total) as ->.
  { unfold BlobConfig_TotalRows. rewrite Horig, Hparity. unfold int_add. rewrite wrap_i64_id; [done|]. rewrite (shape_total _ _ _ Hshape).
    pose proof (shape_lt _ _ _ Hshape). assert (2 ^ Z.of_nat b <= 2 ^ 16) by (apply Z.pow_le_mono_r; lia).
    pose proof (Z.pow_pos_nonneg 2 (Z.of_nat b)). unfold i64, two63. lia. }
  split; try done; try (by constructor).
  { cbn. unfold NewReconstructor in Hr. apply bind_Ok in Hr as (v & _ & [= <-]). done. }
  split; [|done]. split; cbn.
  - apply repeat_length.
  - unfold place, rows_view. cbn. fold total. apply list_eq. intros i. rewrite list_lookup_imap. cbn [dl_rows].
      destruct (decide (i < total)%nat); [by rewrite !lookup_repeat|]. rewrite !lookup_ge_None_2; [done|rewrite repeat_length; lia..].
  - split; [done|]. intros i slot Hs. by apply list_elem_of_lookup_2, list_elem_of_In, repeat_spec in Hs.
  - intros i slot _ Hs. left. by apply list_elem_of_lookup_2, list_elem_of_In, repeat_spec in Hs.
Qed.

Lemma drun_inv s n s' g : dinv s g → drun s n s' → ∃ g', dinv s' g'.
Proof.
  intros Hd. induction 1 as [|n s1 s2 _ [g1 IH] Hs|n s1 s2 _ [g1 IH] Hs]; [by exists g|by eapply dstep_inv|exists g1; by eapply denv_inv].
Qed.

(** ** Progress and termination *)

Lemma find_unfinished (ws : list worker) : (∃ i w, ws !! i = Some w ∧ wk_phase w ≠ Finished) ∨ Forall (λ w, wk_phase w = Finished) ws.
Proof.
  induction ws as [|w ws IH]; [right; constructor|]. destruct (wk_phase w) eqn:E; try (left; exists 0%nat, w; by rewrite E).
  destruct IH as [(i & v & Hi & Hv)|HF]; [left; by exists (S i), v|right; by constructor].
Qed.

Lemma dispatch_cancelled s s' : dispatch_step s = Some (Ok s') → ds_cancelled s' = ds_cancelled s.
Proof.
  unfold dispatch_step. destruct (ds_phase s); [|destruct (pick _) as [[from d]|]|destruct (dl_sigCh _)|destruct (_ =? 0)|]; try done; try (by intros [= <-]).
  intros H. apply (inj Some) in H. by apply bind_Ok in H as ([[r d] pool] & _ & [= <-]).
Qed.

(** A goroutine can move until the download has returned. *)
Lemma progress s g : dinv s g →
  (∃ r, ds_phase s = Returned r ∧ Forall (λ w, wk_phase w = Finished) (ds_workers s)) ∨
  ∃ s', dstep order procs stale net s s' ∧ ds_cancelled s' = ds_cancelled s.
Proof.
  intros Hd. destruct (find_unfinished (ds_workers s)) as [(i & w & Hi & Hw)|Hfin].
  { destruct (worker_step_inv s g i w Hd Hi Hw) as (w' & d & pool & g' & E & _). right. eexists. split; [by eapply dstep_worker|done]. }
  pose proof (di_phase _ _ Hd) as Hp. destruct (ds_phase s) as [| | | |r] eqn:Eph; [| | | |left; by exists r]; right.
  - assert (∃ r, dispatch_step s = Some r) as [r E] by (unfold dispatch_step; rewrite Eph; eauto).
    destruct (dispatch_step_inv s g r Hd E) as (s' & _ & -> & _). exists s'. split; [by apply dstep_dispatch|by apply dispatch_cancelled].
  - assert (∃ r, dispatch_step s = Some r) as [r E] by (unfold dispatch_step; rewrite Eph; eauto).
    destruct (dispatch_step_inv s g r Hd E) as (s' & _ & -> & _). exists s'. split; [by apply dstep_dispatch|by apply dispatch_cancelled].
  - unfold phase_ok in Hp. rewrite Eph in Hp. destruct Hp as [Ht|(w & Hw & Hu)]; [|by destruct Hu; apply (proj1 (Forall_forall _ _) Hfin)].
    eexists. split; [apply dstep_dispatch; unfold dispatch_step; by rewrite Eph, Ht|done].
  - assert (dl_inflightWg (ds_dl s) = 0) as Hwg.
    { rewrite (di_wg _ _ Hd). clear -Hfin. induction Hfin as [|w ws Hw _ IH]; [done|]. cbn [map]. rewrite zsum_cons, IH. unfold awaited. by rewrite Hw. }
    assert (∃ r, dispatch_step s = Some r) as [r E] by (unfold dispatch_step; rewrite Eph, Hwg; cbn [Z.eqb]; eauto).
    destruct (dispatch_step_inv s g r Hd E) as (s' & _ & -> & _). exists s'. split; [by apply dstep_dispatch|by apply dispatch_cancelled].
Qed.

(** What is left to do: each validator not asked yet counts for its worker and
    for the rounds of the dispatcher it causes. *)
Definition work_left (w : worker) : Z :=
  match wk_phase w with
  | Fetching => 10 | Verified _ => 9 | Marked _ => 8 | Backed _ => 7 | Leaving => 6 | Released => 5 | Signalling => 4 | Finished => 0
  end.
Definition rounds_left (p : phase) : Z :=
  match p with Looping => 4 | Checked => 3 | Parked => 2 | Exited => 1 | Returned _ => 0 end.
Definition measure (s : dsystem) : Z :=
  zsum (map work_left (ds_workers s)) + 12 * Z.of_nat (length (dl_selected (ds_dl s)) - dl_cursor (ds_dl s)) +
  rounds_left (ds_phase s) + (if dl_sigCh (ds_dl s) then 3 else 0) + (if ds_cancelled s then 0 else 1).

Lemma measure_nonneg s : 0 <= measure s.
Proof.
  assert (0 <= zsum (map work_left (ds_workers s))) by (apply zsum_nonneg, Forall_map, Forall_forall; intros w _; unfold work_left; by destruct (wk_phase w)).
  assert (0 <= rounds_left (ds_phase s)) by by destruct (ds_phase s).
  unfold measure. destruct (dl_sigCh (ds_dl s)), (ds_cancelled s); lia.
Qed.

(** What a worker may change of the counters the dispatcher reads. *)
Lemma worker_step_work w d pool w' d' pool' : worker_step order procs stale net w d pool = Some (Ok (w', d', pool')) →
  dl_selected d' = dl_selected d ∧ dl_cursor d' = dl_cursor d ∧
  work_left w' + (if dl_sigCh d' then 3 else 0) < work_left w + (if dl_sigCh d then 3 else 0).
Proof.
  unfold worker_step, work_left. destruct (wk_phase w) eqn:E; cbn.
  - intros [= H]. destruct (net (wk_pos w)) as [e|shard]; [injection H as <- <- <-; cbn; split_and!; try done; lia|].
    destruct (parseShard _ _) as [[proofs rlc]|e|p]; [|injection H as <- <- <-; cbn; split_and!; try done; lia|done].
    destruct (Reconstructor_verify _ _ _ _ _) as [[[]|e|p] r]; [injection H as <- <- <-; cbn; split_and!; try done; lia..|done].
  - destruct (addVerified _ batch) as [novel r]. intros [= <- <- <-]. unfold AddShard_novel. cbn. split_and!; try done. destruct novel as [|p ?]; [lia|]. destruct (oversize _ _); lia.
  - intros [= H]. apply bind_Ok in H as ([d1 p1] & HA & [= <- <- <-]). unfold acquireSlab in HA. cbn.
    destruct (dl_slabOnce d); [injection HA as <- <-; split_and!; try done; lia|]. apply bind_Ok in HA as ([[sid sp] p2] & _ & [= <- <-]). cbn. split_and!; try done. lia.
  - intros [= H]. apply bind_Ok in H as (d1 & HS & [= <- <- <-]). cbn.
    assert (dl_selected d1 = dl_selected d ∧ dl_cursor d1 = dl_cursor d ∧ dl_sigCh d1 = dl_sigCh d) as (-> & -> & ->); [|split_and!; try done; lia].
    clear E. revert d HS. induction novel as [|p novel IH]; intros d HS; [by injection HS as <-|]. unfold store in HS. cbn in HS.
    apply bind_Ok in HS as (d2 & H2 & HS). destruct (IH d2 HS) as (-> & -> & ->). unfold store_row in H2. repeat case_match; by simplify_eq/=.
  - intros [= <- <- <-]. cbn. split_and!; try done. lia.
  - intros [= H]. destruct (_ <=? 0); [done|]. injection H as <- <- <-. cbn. split_and!; try done. lia.
  - intros [= <- <- <-]. cbn. split_and!; try done. destruct (dl_sigCh d); lia.
  - done.
Qed.

Lemma download_Blob_counts c s pool r s' pool' : download_Blob c s pool = Ok (r, s', pool') →
  dl_selected s' = dl_selected s ∧ dl_cursor s' = dl_cursor s ∧ dl_sigCh s' = dl_sigCh s.
Proof.
  assert (∀ s p s1 p1, freeSlab s p = Ok (s1, p1) → dl_selected s1 = dl_selected s ∧ dl_cursor s1 = dl_cursor s ∧ dl_sigCh s1 = dl_sigCh s) as HF.
  { intros s0 p0 s1 p1 H. unfold freeSlab in H. destruct (dl_slab s0); [apply bind_Ok in H as (p2 & _ & [= <- <-])|injection H as <- <-]; done. }
  assert (∀ s p e (r : result DownloadedBlob) s1 p1, ('(s, pool) ← freeSlab s p; Ok (Err e, s, pool)) = Ok (r, s1, p1) →
    dl_selected s1 = dl_selected s ∧ dl_cursor s1 = dl_cursor s ∧ dl_sigCh s1 = dl_sigCh s) as HE.
  { intros s0 p0 e r0 s1 p1 H. apply bind_Ok in H as ([s2 p2] & H & [= <- <- <-]). by apply HF in H. }
  unfold download_Blob. destruct c; [apply HE|]. unfold reconstruct.
  destruct (Reconstruct _ _) as [out|e|p]; [|repeat case_match; try done; simplify_eq; apply HE|done].
  destruct (decode _ _) as [data|e|p]; [intros [= <- <- <-]; done|intros H; by apply HE in H|done].
Qed.

Ltac fields :=
  cbn [ds_dl ds_workers ds_phase ds_cancelled rounds_left work_left wk_phase at_phase dl_selected dl_cursor dl_sigCh set_sigCh].

Lemma dstep_measure s s' : dstep order procs stale net s s' → measure s' < measure s.
Proof.
  intros Hs. destruct Hs as [s s' E|s Ep Ec|s i w w' d pool Hi E|s i w Hi Ef Ec|s Ec]; unfold measure; cbn [ds_dl ds_workers ds_phase ds_cancelled].
  - unfold dispatch_step in E. destruct (ds_phase s) as [| | | |r] eqn:Eph; cbn [ds_dl ds_workers ds_phase ds_cancelled] in E.
    + injection E as <-. fields. destruct (ready (ds_dl s)); fields; lia.
    + injection E as E. unfold pick in E. destruct (dl_selected (ds_dl s) !! dl_cursor (ds_dl s)) as [from|] eqn:El; [|injection E as <-; fields; lia].
      apply lookup_lt_Some in El. destruct (_ <=? _); injection E as <-; fields; [lia|]. rewrite zsum_map_snoc. fields. lia.
    + destruct (dl_sigCh (ds_dl s)) eqn:Et; [|done]. injection E as <-. fields. lia.
    + destruct (_ =? 0); [|done]. injection E as E. apply bind_Ok in E as ([[r d] pool] & HB & [= <-]).
      apply download_Blob_counts in HB as (E1 & E2 & E3). fields. rewrite E1, E2, E3. lia.
    + done.
  - rewrite Ep, Ec. fields. lia.
  - apply worker_step_work in E as (E1 & E2 & E3). rewrite E1, E2. rewrite (zsum_map_insert _ _ _ _ _ Hi). lia.
  - rewrite (zsum_map_insert _ _ _ _ _ Hi), Ec. unfold work_left. rewrite Ef. fields. lia.
  - rewrite Ec. lia.
Qed.

Lemma drun_measure s n s' : drun s n s' → measure s' + Z.of_nat n <= measure s.
Proof.
  induction 1 as [|n s1 s2 _ IH Hs|n s1 s2 _ IH Hs]; [lia| |].
  - apply dstep_measure in Hs. lia.
  - destruct Hs as (pool & -> & _). exact IH.
Qed.
End Invariant.

(** ** Downloading an encoded blob

    For the commitment of encoded rows, a download that returns a blob returns
    the encoded data, and it does return it when the validators that answer
    with the encoder's rows hold enough of them, whatever the others send.
    Otherwise the answers contain a collision of SHA-256. *)

Section Honest.
Context `{CR : Crypto} `{SL : !Sha256Laws} `{GF : GF16} `{GL : !GF16Laws} `{RS : ReedSolomon}.
Context (order : nat → list nat) (Horder : order_ok order) (procs : Z) (stale : nat → nat → bytes).
Context (cfg : BlobConfig) (a b : nat) (Hshape : shape (bc_Coder cfg) a b).
Context `{RL : !ReedSolomonLaws (cfg_K (bc_Coder cfg)) (cfg_N (bc_Coder cfg))}.
Context (Horig : bc_OriginalRows cfg = cfg_K (bc_Coder cfg)) (Hparity : bc_ParityRows cfg = cfg_N (bc_Coder cfg)) (Hmax : 0 < bc_MaxRowSize cfg).
Context (id commitment : bytes) (Hid : BlobID_Commitment id = Ok commitment) (selected : list SelectedValidator).
Context (net : nat → error + option BlobShard) (Hnet : ∀ i shard, net i = inr (Some shard) → wire_ok shard).
Context (rows : list bytes) (size : nat) (ed : ExtendedData) (Hdata : data_ok (bc_Coder cfg) rows size)
  (Hed : encoded (bc_Coder cfg) a b rows size ed) (Hcm : ed_commitment ed = commitment) (Hfit : Z.of_nat size <= bc_MaxRowSize cfg).
Context (data : bytes) (Hdec : decode (concat rows) cfg = Ok data).

Let coder := bc_Coder cfg.
Let K := Z.to_nat (cfg_K coder).

(** Two different strings with one hash, hashed when a received row or the
    received combinations are opened and by the encoder. *)
Definition collision : Prop := ∃ rlc, received_rlc cfg net rlc ∧
  ((∃ p q, received cfg net p ∧ honest ed q ∧ rp_Index q = rp_Index p ∧ colliding (opening coder rlc p) (opening coder (ed_rlc ed) q)) ∨
   colliding (rlc_inputs order coder a rlc) (rlc_inputs order coder a (ed_rlc ed))).

Abbreviation inv := (dinv cfg b id commitment selected net).

(** The verified rows are the encoder's. *)
Lemma taken_rows s g : inv s g →
  (∀ p, p ∈ g_taken g → ed_rows ed !! Z.to_nat (rp_Index p) = Some (rp_Row p)) ∨ collision.
Proof.
  intros Hd. pose proof (di_collect _ _ _ _ _ _ _ _ Hd) as Hc.
  destruct (Forall_or_exists (λ p, ed_rows ed !! Z.to_nat (rp_Index p) = Some (rp_Row p))
    (λ p, ∃ q, honest ed q ∧ rp_Index q = rp_Index p ∧ colliding (opening coder (g_rlc g) p) (opening coder (ed_rlc ed) q)) (g_taken g))
    as [H|(p & Hp & q & Hq & Hi & Hcol)]; [|by left|right].
  - intros p Hp. exact (taken_original order Horder coder a b Hshape commitment _ rows size ed p Hc Hdata Hed Hcm Hp).
  - pose proof (di_received _ _ _ _ _ _ _ _ Hd) as Hre. rewrite !Forall_app in Hre. destruct Hre as (Hre & _).
    exists (g_rlc g). split.
    + apply (di_rlc _ _ _ _ _ _ _ _ Hd). pose proof (ci_installed _ _ _ _ Hc) as Hin. cbn [c_r collect_of c_taken] in Hin.
      destruct (r_verifierRLC _); [done|]. destruct Hin as [_ E]. rewrite E in Hp. by apply not_elem_of_nil in Hp.
    + left. exists p, q. split; [|done]. by apply (proj1 (Forall_forall _ _) Hre).
Qed.

Lemma row_size i row : ed_rows ed !! i = Some row → length row = size.
Proof.
  intros H. destruct (encoded_rows coder a b rows size ed Hdata Hed) as (_ & _ & _ & HF). by apply (Forall_lookup_1 _ _ _ _ HF H).
Qed.

(** When all workers are done, every verified row is stored. *)
Lemma all_stored s g : inv s g → Forall (λ w, awaited w = 0) (ds_workers s) →
  (∀ p, p ∈ g_taken g → ed_rows ed !! Z.to_nat (rp_Index p) = Some (rp_Row p)) → g_stored g ≡ₚ g_taken g.
Proof.
  intros Hd Hw Ht. rewrite (di_perm _ _ _ _ _ _ _ _ Hd).
  assert (concat (map held (ds_workers s)) = []) as ->.
  { clear -Hw. induction Hw as [|w ws Hw _ IH]; [done|]. cbn. rewrite IH, app_nil_r. unfold awaited, held in *. by destruct (wk_phase w). }
  assert (g_dropped g = []) as ->; [|by rewrite app_nil_r].
  destruct (g_dropped g) as [|p l] eqn:E; [done|exfalso]. pose proof (di_dropped _ _ _ _ _ _ _ _ Hd) as HF. rewrite E in HF. apply Forall_cons in HF as [Ho _].
  assert (p ∈ g_taken g) as Hp by (rewrite (di_perm _ _ _ _ _ _ _ _ Hd), E; set_solver).
  pose proof (row_size _ _ (Ht p Hp)) as Hl. unfold oversize in Ho. rewrite Hl in Ho. apply andb_true_iff in Ho as [_ Ho%Z.ltb_lt]. lia.
Qed.

Lemma written_slab s pool stored out : storage cfg s pool stored → dl_slabOnce s = true →
  v_coeffsRowSize (r_verifier (dl_reconstructor s)) = size → take K out = map Some rows → slab_bytes (write_back s out) = concat rows.
Proof.
  intros [Hlen _ Hslab _] Eo Ev Hout. rewrite Eo in Hslab. destruct Hslab as (sv & Esv & Esz & _ & Hch & HF & _ & Hwin).
  unfold slab_bytes. cbn [write_back dl_slab set_storage]. rewrite Esv. cbn [option_map from_option sv_chunks]. f_equal.
  destruct Hdata as (Hl & HR & _). apply list_eq. intros i. rewrite list_lookup_imap.
  destruct (decide (i < K)%nat) as [Hi|Hi].
  - destruct (lookup_lt_is_Some_2 (sv_chunks sv) i) as [c Hc]; [by rewrite Hch|]. rewrite Hc. cbn.
    destruct (lookup_lt_is_Some_2 rows i) as [row Hr]; [rewrite Hl; exact Hi|]. rewrite Hr.
    assert (out !! i = Some (Some row)) as Eo'.
    { assert (take K out !! i = Some (Some row)) as E by (rewrite Hout; change (map Some rows) with (Some <$> rows); by rewrite list_lookup_fmap, Hr).
      by rewrite lookup_take_lt in E. }
    rewrite Eo'. cbn [mjoin option_join]. pose proof (Forall_lookup_1 _ _ _ _ HF Hc) as Hcl. cbn in Hcl. pose proof (Forall_lookup_1 _ _ _ _ HR Hr) as [Hrl _].
    assert (length row = sv_rowSize sv) as El by congruence.
    destruct (Hwin i Hi) as [-> | ->]; rewrite El, Nat.leb_refl, copy_whole by congruence; done.
  - rewrite (lookup_ge_None_2 (sv_chunks sv) i), (lookup_ge_None_2 rows i) by (unfold K, coder in *; lia). done.
Qed.

(** ** The outcome *)

Lemma returned_data s g r d pool : inv s g → ds_phase s = Exited → dl_inflightWg (ds_dl s) = 0 →
  download_Blob false (ds_dl s) (ds_pool s) = Ok (r, d, pool) →
  (Want (dl_reconstructor (ds_dl s)) = 0 → r = Ok (mkDownloadedBlob id data) ∨ collision) ∧
  (Want (dl_reconstructor (ds_dl s)) ≠ 0 → is_ok r = false).
Proof.
  intros Hd Eph Hwg HB. pose proof (di_backing _ _ _ _ _ _ _ _ Hd) as Hb. unfold backing in Hb. rewrite Eph in Hb. destruct Hb as [Hst Hpool].
  pose proof (di_collect _ _ _ _ _ _ _ _ Hd) as Hc. pose proof (ci_config _ _ _ _ Hc) as Ecf. cbn [c_r collect_of] in Ecf.
  unfold download_Blob, reconstruct in HB. split; intros Hw.
  - destruct (taken_rows s g Hd) as [Ht|]; [|by right].
    assert (Forall (λ w, awaited w = 0) (ds_workers s)) as Haw by (apply (awaited_none cfg); by rewrite <- (di_wg _ _ _ _ _ _ _ _ Hd)).
    pose proof (all_stored s g Hd Haw Ht) as Hperm.
    pose proof (cinv_taken cfg b commitment _ (g_stored g) Hc Hperm) as Hc'.
    pose proof (ci_have _ _ _ _ Hc') as Hhave. cbn [c_r c_taken collect_of] in Hhave.
    destruct (shape_nat _ _ _ Hshape) as (_ & _ & HK0 & _).
    assert (cfg_K (bc_Coder cfg) <= r_have (dl_reconstructor (ds_dl s))) as Hge.
    { unfold Want in Hw. rewrite Ecf in Hw. destruct (Z.leb_spec (cfg_K (bc_Coder cfg)) (r_have (dl_reconstructor (ds_dl s)))); lia. }
    destruct (g_stored g) as [|p0 stored] eqn:Est; [cbn in Hhave; lia|]. rewrite <- Est in *.
    assert (p0 ∈ g_taken g) as Hp0 by (rewrite <- Hperm, Est; by left).
    assert (dl_slabOnce (ds_dl s) = true) as Eo.
    { destruct (dl_slabOnce (ds_dl s)) eqn:Eo; [done|exfalso]. pose proof (sg_slab _ _ _ _ Hst) as Hs. rewrite Eo in Hs. destruct Hs as [_ Hnil].
      assert (length (omap Datatypes.id (rows_view (ds_dl s))) = 0%nat) as E0.
      { unfold rows_view. assert (Forall (λ sl, sl = NilSlot) (dl_rows (ds_dl s))) as HFn by (apply Forall_lookup; intros i sl Hi; by apply (Hnil i)).
        clear -HFn. generalize (read_slot (ds_dl s)) (λ i, eq_refl : read_slot (ds_dl s) i NilSlot = None). intros f Hf. revert f Hf.
        induction HFn as [|sl l -> _ IH]; intros f Hf; [done|]. rewrite imap_cons. cbn. rewrite Hf. apply (IH (f ∘ S)). intros i. apply Hf. }
      rewrite (sg_view _ _ _ _ Hst), (place_count order Horder coder a b Hshape) in E0.
      - rewrite Est in E0. done.
      - apply (ci_unique _ _ _ _ Hc').
      - pose proof (ci_taken _ _ _ _ Hc') as HT. cbn [c_taken] in HT. apply Forall_map. eapply Forall_impl; [exact HT|]. intros p Hp. apply opened_index in Hp. cbn. unfold coder. lia. }
    assert (v_coeffsRowSize (r_verifier (dl_reconstructor (ds_dl s))) = size) as Esz.
    { pose proof (ci_rows _ _ _ _ Hc) as [HR _]%Forall_app. cbn [c_taken c_r collect_of] in HR. pose proof (proj1 (Forall_forall _ _) HR p0 Hp0) as E.
      unfold Rsema1dCollect.sized in E. rewrite <- E. by apply (row_size _ _ (Ht p0 Hp0)). }
    destruct (reconstruct_original order Horder coder a b Hshape commitment _ rows size ed Hc' Hdata Hed Hcm Hw) as [(out & HR & Hout)|(p & q & Hp & Hq & Hi & Hcol)].
    + cbn [c_r c_taken collect_of] in HR. rewrite (sg_view _ _ _ _ Hst) in HB. unfold coder in HR. rewrite HR in HB.
      rewrite (written_slab _ _ _ out Hst Eo Esz Hout) in HB. cbn [dl_cfg write_back set_storage] in HB. rewrite (di_cfg _ _ _ _ _ _ _ _ Hd), Hdec in HB.
      cbn [dl_id write_back set_storage] in HB. rewrite (di_id _ _ _ _ _ _ _ _ Hd) in HB. injection HB as <- _ _. by left.
    + right. cbn [c_taken c_rlc collect_of] in *. exists (g_rlc g). rewrite Hperm in Hp. pose proof (di_received _ _ _ _ _ _ _ _ Hd) as Hre.
      rewrite !Forall_app in Hre. destruct Hre as (Hre & _). split.
      * apply (di_rlc _ _ _ _ _ _ _ _ Hd), (di_once _ _ _ _ _ _ _ _ Hd Eo).
      * left. exists p, q. split; [|done]. by apply (proj1 (Forall_forall _ _) Hre).
  - unfold Reconstruct in HB. pose proof (Want_nonneg cfg (dl_reconstructor (ds_dl s))). destruct (Z.ltb_spec 0 (Want (dl_reconstructor (ds_dl s)))); [|lia].
    repeat case_match; simplify_eq; apply bind_Ok in HB as ([? ?] & _ & [= <- _ _]); done.
Qed.

(** ** Coverage *)

(** The validator at position [i] answers with rows of the encoder. *)
Definition answers (i : nat) (ps : list RowProof) : Prop :=
  ∃ shard, net i = inr shard ∧ parseShard shard (bc_OriginalRows cfg) = Ok (ps, ed_rlc ed) ∧ ps ≠ [] ∧ Forall (honest ed) ps.

(** Enough different rows can be fetched from such validators. *)
Definition available : Prop := ∃ idxs : list nat, NoDup idxs ∧ (K <= length idxs)%nat ∧
  ∀ j, j ∈ idxs → ∃ i ps p, (i < length selected)%nat ∧ answers i ps ∧ p ∈ ps ∧ Z.to_nat (rp_Index p) = j.

Definition covers (r : Reconstructor) (w : worker) : Prop := ∀ ps, answers (wk_pos w) ps → collision ∨
  match wk_phase w with
  | Fetching => True
  | Verified batch => batch = ps
  | _ => ∀ p, p ∈ ps → seen r (Z.to_nat (rp_Index p))
  end.

(** Unless the context was cancelled, no row of a good answer is lost. *)
Definition covered (s : dsystem) : Prop :=
  ds_cancelled s = true ∨ Forall (covers (dl_reconstructor (ds_dl s))) (ds_workers s).

Lemma covers_mono r r' w : (∀ j, seen r j → seen r' j) → covers r w → covers r' w.
Proof. intros Hm Hc ps Ha. destruct (Hc ps Ha) as [|H]; [by left|right]. destruct (wk_phase w); auto. Qed.

Definition past (w : worker) : Prop := match wk_phase w with Fetching | Verified _ => False | _ => True end.

Lemma store_reconstructor novel : ∀ s s', store s novel = Ok s' → dl_reconstructor s' = dl_reconstructor s.
Proof.
  induction novel as [|p novel IH]; intros s s' H; [by injection H as <-|]. unfold store in H. cbn in H. apply bind_Ok in H as (s1 & H1 & H).
  rewrite (IH _ _ H). unfold store_row in H1. repeat case_match; by simplify_eq/=.
Qed.

(** After its rows are marked a worker leaves the collector alone. *)
Lemma past_step w d pool w' d' pool' : worker_step order procs stale net w d pool = Some (Ok (w', d', pool')) → past w →
  past w' ∧ wk_pos w' = wk_pos w ∧ dl_reconstructor d' = dl_reconstructor d.
Proof.
  unfold worker_step, past. destruct (wk_phase w); intros H Hp; try done; apply (inj Some) in H.
  - apply bind_Ok in H as ([d1 p1] & HA & [= <- <- <-]). split; [done|]. split; [done|]. unfold acquireSlab in HA.
    destruct (dl_slabOnce d); [by injection HA as <- <-|]. by apply bind_Ok in HA as ([[sid sp] p2] & _ & [= <- <-]).
  - apply bind_Ok in H as (d1 & HS & [= <- <- <-]). split; [done|]. split; [done|]. by apply store_reconstructor in HS.
  - by injection H as <- <- <-.
  - destruct (_ <=? 0); [done|]. by injection H as <- <- <-.
  - by injection H as <- <- <-.
Qed.

Lemma covers_past r w w' : past w → past w' → wk_pos w' = wk_pos w → covers r w → covers r w'.
Proof. intros Hp Hp' E Hc ps Ha. rewrite E in Ha. destruct (Hc ps Ha) as [|H]; [by left|right]. unfold past in *. by destruct (wk_phase w), (wk_phase w'). Qed.

(** A good answer is verified in every state. *)
Lemma fetch_step s g w w' d pool : inv s g → wk_phase w = Fetching →
  worker_step order procs stale net w (ds_dl s) (ds_pool s) = Some (Ok (w', d, pool)) →
  (∀ j, seen (dl_reconstructor (ds_dl s)) j → seen (dl_reconstructor d) j) ∧ covers (dl_reconstructor d) w'.
Proof.
  intros Hd Eph H. unfold worker_step in H. rewrite Eph, (di_cfg _ _ _ _ _ _ _ _ Hd) in H. injection H as H.
  destruct (net (wk_pos w)) as [e|shard] eqn:En; [injection H as <- <- <-; split; [done|]; intros ps (sh & En' & _); cbn in En'; congruence|].
  destruct (parseShard shard (bc_OriginalRows cfg)) as [[ps rlc]|e|m] eqn:EP; [| |done].
  2:{ injection H as <- <- <-. split; [done|]. intros ps (sh & En' & EP' & _). cbn in En'. congruence. }
  destruct (Reconstructor_verify order procs (dl_reconstructor (ds_dl s)) rlc (map Some ps)) as [res r] eqn:EV.
  assert (r_seen r = r_seen (dl_reconstructor (ds_dl s))) as Es.
  { unfold Reconstructor_verify in EV. repeat case_match; by simplify_eq/=. }
  assert (∀ j, seen (dl_reconstructor (ds_dl s)) j → seen r j) as Hmono by (unfold seen; by rewrite Es).
  destruct res as [[]|e|m]; [| |done]; injection H as <- <- <-; (split; [exact Hmono|]); intros qs (sh & En' & EP' & Hne & Hh); cbn in En'.
  { right. cbn. congruence. }
  assert (ps = qs ∧ rlc = ed_rlc ed) as [-> ->] by (split; congruence). left.
  pose proof (di_collect _ _ _ _ _ _ _ _ Hd) as Hc. pose proof (di_received _ _ _ _ _ _ _ _ Hd) as Hre. rewrite !Forall_app in Hre. destruct Hre as (_ & Hre & _).
  destruct (honest_add_accepted order Horder procs coder a b Hshape commitment _ rows size ed qs Hc Hdata Hed Hcm Hne Hh) as [HV|[Hflag Hcol]].
  - cbn [c_r collect_of] in HV. rewrite EV in HV. discriminate.
  - exists (g_rlc g). split; [by apply (di_rlc _ _ _ _ _ _ _ _ Hd)|]. destruct Hcol as [(p & q & Hp & Hq & Hi & Hcol)|Hcol]; [left|by right].
    exists p, q. split; [|done]. by apply (proj1 (Forall_forall _ _) Hre).
Qed.

Lemma mark_step s g i w batch w' d pool : inv s g → ds_workers s !! i = Some w → wk_phase w = Verified batch →
  worker_step order procs stale net w (ds_dl s) (ds_pool s) = Some (Ok (w', d, pool)) → covers (dl_reconstructor (ds_dl s)) w →
  (∀ j, seen (dl_reconstructor (ds_dl s)) j → seen (dl_reconstructor d) j) ∧ covers (dl_reconstructor d) w'.
Proof.
  intros Hd Hi Eph H Hcov. unfold worker_step in H. rewrite Eph in H. destruct (addVerified _ batch) as [novel r] eqn:EA. injection H as <- <- <-.
  pose proof (di_collect _ _ _ _ _ _ _ _ Hd) as Hc.
  assert (Forall (λ p, (Z.to_nat (rp_Index p) < length (r_seen (dl_reconstructor (ds_dl s))))%nat) batch) as HF.
  { pose proof (ci_size _ _ _ _ Hc) as El. cbn [c_r collect_of] in El. rewrite El. pose proof (ci_pending _ _ _ _ Hc) as HP. cbn [c_pending c_rlc collect_of] in HP.
    assert (batch ∈ omap verified (ds_workers s)) as Hin.
    { apply list_elem_of_omap. exists w. split; [by eapply list_elem_of_lookup_2|]. unfold verified. by rewrite Eph. }
    pose proof (proj1 (Forall_forall _ _) HP _ Hin) as HB. eapply Forall_impl; [exact HB|]. intros p Hp. apply opened_index in Hp. cbn. lia. }
  destruct (addVerified_spec coder _ _ _ _ EA HF) as (_ & _ & _ & _ & _ & _ & Hseen).
  cbn [dl_reconstructor set_reconstructor]. split; [intros j Hj; apply Hseen; by left|].
  intros ps Ha. destruct (Hcov ps Ha) as [|E]; [by left|right]. rewrite Eph in E. subst ps.
  pose proof (addVerified_marks coder _ _ _ _ EA HF) as Hm. cbn. unfold AddShard_novel. destruct novel as [|p ?]; [done|]. by destruct (oversize _ _).
Qed.

Lemma covered_step s s' g : inv s g → covered s → dstep order procs stale net s s' → covered s'.
Proof.
  intros Hd [Hc|Hc] Hs.
  { left. destruct Hs as [s s' E| | | |]; try done. unfold dispatch_step in E. repeat case_match; simplify_eq/=; try done.
    by apply bind_Ok in E as ([[r d] pool] & _ & [= <-]). }
  destruct Hs as [s s' E|s Ep Ec|s i w w' d pool Hi E|s i w Hi Ef Ec|s Ec]; try (by left).
  - right. pose proof (di_backing _ _ _ _ _ _ _ _ Hd) as Hb. unfold backing in Hb. unfold dispatch_step in E. destruct (ds_phase s) eqn:Eph; try done.
    + by injection E as <-.
    + injection E as E. unfold pick in E. repeat case_match; simplify_eq/=; try done. apply Forall_app. split; [done|]. constructor; [|constructor].
      intros ps _. by right.
    + destruct (dl_sigCh (ds_dl s)); [|done]. by injection E as <-.
    + destruct (_ =? 0); [|done]. injection E as E. apply bind_Ok in E as ([[r d] pool] & HB & [= <-]). destruct Hb as [Hst Hpool].
      destruct (download_Blob_ok cfg (ds_cancelled s) (ds_dl s) (ds_pool s) (g_stored g) Hst Hpool (ci_config _ _ _ _ (di_collect _ _ _ _ _ _ _ _ Hd)))
        as (r' & d' & pool' & HB' & Hss & _).
      rewrite HB in HB'. injection HB' as <- <- <-. cbn. by rewrite (ss_reconstructor _ _ Hss).
  - right. cbn [ds_dl ds_workers]. pose proof (Forall_lookup_1 _ _ _ _ Hc Hi) as Hw.
    assert ((∀ j, seen (dl_reconstructor (ds_dl s)) j → seen (dl_reconstructor d) j) ∧ covers (dl_reconstructor d) w') as [Hm Hw'].
    { destruct (wk_phase w) eqn:Eph; [by eapply fetch_step|by eapply mark_step|..];
        (assert (past w) as Hp by (unfold past; by rewrite Eph)); destruct (past_step _ _ _ _ _ _ E Hp) as (Hp' & Epos & ->); (split; [done|exact (covers_past _ w w' Hp Hp' Epos Hw)]). }
    apply Forall_insert; [|done]. eapply Forall_impl; [exact Hc|]. intros v. by apply covers_mono.
Qed.

(** ** The result *)

Definition outcome (s : dsystem) : Prop :=
  match ds_phase s with
  | Returned r => (r = Err ErrCanceled ∧ ds_cancelled s = true) ∨ r = Ok (mkDownloadedBlob id data) ∨ collision ∨ (is_ok r = false ∧ (available → collision))
  | _ => True
  end.

(** With every answer in, the available rows were all seen. *)
Lemma available_seen s g : inv s g → covered s → ds_cancelled s = false → Forall (λ w, awaited w = 0) (ds_workers s) →
  (length selected <= dl_cursor (ds_dl s))%nat → Want (dl_reconstructor (ds_dl s)) ≠ 0 → available → collision.
Proof.
  intros Hd [Ec|Hcov] Ec' Haw Hcur Hw (idxs & Hnd & HK & Hix); [congruence|].
  assert (∀ j, j ∈ idxs → collision ∨ seen (dl_reconstructor (ds_dl s)) j) as Hseen.
  { intros j Hj. destruct (Hix j Hj) as (i & ps & p & Hi & Ha & Hp & <-).
    assert (i ∈ map wk_pos (ds_workers s)) as Hpos by (rewrite (di_pos _ _ _ _ _ _ _ _ Hd); apply elem_of_seq; lia).
    apply list_elem_of_In, in_map_iff in Hpos as (w & <- & Hw'%list_elem_of_In).
    destruct (proj1 (Forall_forall _ _) Hcov w Hw' ps Ha) as [|H]; [by left|right].
    pose proof (proj1 (Forall_forall _ _) Haw w Hw') as E. unfold awaited in E. destruct (wk_phase w); try done; by apply H. }
  destruct (Forall_or_exists (λ j, seen (dl_reconstructor (ds_dl s)) j) (λ _, collision) idxs) as [HF|(j & _ & Hc)]; [|exfalso|done].
  { intros j Hj. destruct (Hseen j Hj); auto. }
  pose proof (di_collect _ _ _ _ _ _ _ _ Hd) as Hc. pose proof (ci_have _ _ _ _ Hc) as Hhave. pose proof (ci_config _ _ _ _ Hc) as Ecf. cbn [c_r c_taken collect_of] in *.
  assert (length idxs <= length (indices (g_taken g)))%nat as Hlen.
  { apply submseteq_length, NoDup_submseteq; [done|]. intros j Hj. apply (ci_seen _ _ _ _ Hc). by apply HF. }
  unfold indices in Hlen. rewrite length_map in Hlen. apply Hw. unfold Want. rewrite Ecf, Hhave.
  destruct (Z.leb_spec (cfg_K (bc_Coder cfg)) (Z.of_nat (length (g_taken g)))); [done|]. unfold K, coder in HK. lia.
Qed.

Lemma outcome_step s s' g : inv s g → covered s → outcome s → dstep order procs stale net s s' → outcome s'.
Proof.
  intros Hd Hcov Ho Hs. unfold outcome in *.
  destruct Hs as [s s' E|s Ep Ec|s i w w' d pool Hi E|s i w Hi Ef Ec|s Ec]; cbn [ds_phase ds_cancelled]; try done.
  2:{ destruct (ds_phase s); try done. by rewrite Ec in Ho. }
  2:{ destruct (ds_phase s); try done. destruct Ho as [[? ?]|?]; [congruence|by right]. }
  unfold dispatch_step in E. destruct (ds_phase s) eqn:Eph; try done.
  - injection E as <-. cbn. by destruct (ready _).
  - injection E as E. destruct (pick _) as [[from d]|]; by injection E as <-.
  - destruct (dl_sigCh _); [|done]. by injection E as <-.
  - destruct (Z.eqb_spec (dl_inflightWg (ds_dl s)) 0) as [Hwg|]; [|done]. injection E as E. apply bind_Ok in E as ([[r d] pool] & HB & [= <-]).
    cbn [ds_phase ds_cancelled]. destruct (ds_cancelled s) eqn:Ec.
    + left. split; [|done]. unfold download_Blob in HB. by apply bind_Ok in HB as ([? ?] & _ & [= <- _ _]).
    + right. destruct (returned_data s g r d pool Hd Eph Hwg HB) as [H0 H1].
      destruct (decide (Want (dl_reconstructor (ds_dl s)) = 0)) as [Hw|Hw]; [destruct (H0 Hw); auto|right].
      pose proof (di_phase _ _ _ _ _ _ _ _ Hd) as Hp. unfold phase_ok in Hp. rewrite Eph, Ec in Hp. destruct Hp as [?|[?|Hcur]]; [done|done|].
      right. split; [by apply H1|]. intros Hav.
      apply (available_seen s g); try done. apply (awaited_none cfg). by rewrite <- (di_wg _ _ _ _ _ _ _ _ Hd).
Qed.

Lemma drun_outcome d pool n s : newDownload cfg id selected = Ok d → data_pool cfg pool →
  drun order procs stale cfg net (dinit d pool) n s → covered s ∧ outcome s.
Proof.
  intros Hn Hp Hrun. pose proof (dinit_inv cfg a b Hshape Horig Hparity id commitment Hid selected net d pool Hn Hp) as Hd0.
  induction Hrun as [|n s1 s2 Hr [IH1 IH2] Hs|n s1 s2 Hr [IH1 IH2] (pl & -> & _)]; [split; [by right; constructor|done]| |done].
  destruct (drun_inv order Horder procs stale cfg a b Hshape Horig Hparity Hmax id commitment Hid selected net Hnet _ _ _ _ Hd0 Hr) as [g Hd].
  split; [by eapply covered_step|by eapply outcome_step].
Qed.
End Honest.
