(* ===== verification/DownloadProperties.v ===== *)
(** * Properties of downloads

    A download always ends, with no goroutine left and no panic; what it returns
    for the id of a blob is the data of the blob; and it returns it when enough
    rows can be fetched from validators that store what the uploader sent. *)

From S2P Require Import Prelude Sdk Merkle MerkleProofs Rlc RlcProofs ShardCodec Rsema1d Rsema1dProofs Rsema1dEncode Rsema1dCollect Rsema1dModel.
From S2P Require Import ValidatorSet ShardAssignment FibrePromise FibreCache FibreBlobId ProtocolParams RowPool RowPoolProofs Blob BlobProofs Download DownloadProofs.
From Stdlib Require Import SpecFloat.
#[local] Open Scope Z_scope.

Lemma max_row_size procs params cfg ps : params_ok params → NewBlobConfigFromParams procs 0 params = Ok (cfg, ps) → 0 < bc_MaxRowSize cfg.
Proof.
  intros Hp H. destruct (co_sizes _ _ _ _ (config_from_params procs params cfg ps Hp H) 1) as (size & _ & _ & Hs & _); [|lia].
  unfold NewBlobConfigFromParams in H. cbn [Z.eqb ensure mbind result_bind] in H. apply bind_Ok in H as (? & _ & H). apply bind_Ok in H as ([? ?] & _ & H).
  apply bind_Ok in H as (? & _ & H). apply bind_Ok in H as (? & _ & H). apply bind_Ok in H as (? & _ & [= <- _]). cbn [bc_MaxDataSize].
  pose proof (pk_blob _ Hp). unfold int_sub. rewrite wrap_i64_id; unfold i64, two63, two32, blobHeaderLen, blobVersionLen, blobDataSizeLen in *; lia.
Qed.

Section Properties.
Context `{CR : Crypto} `{SL : !Sha256Laws} `{GF : GF16} `{GL : !GF16Laws} `{RS : ReedSolomon}.
Context (order : nat → list nat) (Horder : order_ok order) (procs : Z) (stale : nat → nat → bytes).

(** A configuration derived from parameters, and the pool of its data slabs. *)
Context (params : ProtocolParams) (Hparams : params_ok params) (cfg : BlobConfig) (ps : pools)
  (Hcfg : NewBlobConfigFromParams procs 0 params = Ok (cfg, ps)) (pool : Pool) (Hpool : data_pool cfg pool).
Context `{RL : !ReedSolomonLaws (cfg_K (bc_Coder cfg)) (cfg_N (bc_Coder cfg))}.

(** The validators selected and what they answer: bytes, and nothing more is
    known of them. *)
Context (selected : list SelectedValidator) (net : nat → error + option BlobShard)
  (Hnet : ∀ i shard, net i = inr (Some shard) → wire_ok shard).

Notation run := (drun order procs stale cfg net).
Notation step := (dstep order procs stale net).

Let Hco : config_ok cfg ps (rlc_depth (bc_Coder cfg)) (row_depth (bc_Coder cfg)) := config_from_params procs params cfg ps Hparams Hcfg.

Let Hmax : 0 < bc_MaxRowSize cfg := max_row_size procs params cfg ps Hparams Hcfg.

Lemma download_run_inv id d n s : newDownload cfg id selected = Ok d → run (dinit d pool) n s →
  ∃ commitment g, BlobID_Commitment id = Ok commitment ∧ dinv cfg (row_depth (bc_Coder cfg)) id commitment selected net s g.
Proof.
  intros Hn Hr. pose proof Hn as H. unfold newDownload in H. apply bind_Ok in H as (commitment & Hid & _). exists commitment.
  destruct (drun_inv order Horder procs stale cfg _ _ (co_shape _ _ _ _ Hco) (co_orig _ _ _ _ Hco) (co_parity _ _ _ _ Hco) Hmax id commitment Hid
    selected net Hnet (dinit d pool) n s (mkGhost [] [] [] [] [])) as [g Hg]; [by apply (dinit_inv _ _ _ (co_shape _ _ _ _ Hco) (co_orig _ _ _ _ Hco) (co_parity _ _ _ _ Hco))|done|].
  by exists g.
Qed.

(** C7: a download terminates: in every interleaving of the dispatcher, the
    workers, other users of the pool and a cancellation, it takes at most twelve
    steps for each selected validator and five more; no goroutine panics,
    whatever the validators answer; and until the download has returned and
    every worker has ended some goroutine can move, so that none waits for a
    signal that never comes. *)
Theorem download_terminates id d n s : newDownload cfg id selected = Ok d → run (dinit d pool) n s →
  (n <= 12 * length selected + 5)%nat ∧ ¬ panics order procs stale net s ∧
  ((∃ r, ds_phase s = Returned r ∧ Forall (λ w, wk_phase w = Finished) (ds_workers s)) ∨
   ∃ s', step s s' ∧ ds_cancelled s' = ds_cancelled s).
Proof.
  intros Hn Hr. destruct (download_run_inv id d n s Hn Hr) as (commitment & g & Hid & Hd). split_and!.
  - pose proof (drun_measure _ _ _ _ _ _ _ _ Hr) as Hm. pose proof (measure_nonneg cfg s).
    unfold newDownload in Hn. apply bind_Ok in Hn as (? & _ & Hn). apply bind_Ok in Hn as (? & _ & [= <-]). unfold measure in Hm at 2. cbn in Hm. lia.
  - intros [[p E]|(w & p & Hw & E)].
    + by destruct (dispatch_step_inv cfg _ id commitment selected net s g _ Hd E) as (? & ? & ? & _).
    + apply list_elem_of_lookup in Hw as [i Hi]. assert (wk_phase w ≠ Finished) as Hun by (intros Ew; unfold worker_step in E; by rewrite Ew in E).
      destruct (worker_step_inv order Horder procs stale cfg _ _ (co_shape _ _ _ _ Hco) (co_orig _ _ _ _ Hco) (co_parity _ _ _ _ Hco) Hmax id commitment Hid selected net Hnet s g i w Hd Hi Hun)
        as (? & ? & ? & ? & E' & _). congruence.
  - exact (progress order Horder procs stale cfg _ _ (co_shape _ _ _ _ Hco) (co_orig _ _ _ _ Hco) (co_parity _ _ _ _ Hco) Hmax id commitment Hid selected net Hnet s g Hd).
Qed.

(** Nothing is left to happen but a cancellation of the context. *)
Definition settled (s : dsystem) : Prop := ∀ s', step s s' → ds_cancelled s' ≠ ds_cancelled s.

(** ** Blobs *)

Context (treeBuf : list bytes) (Hbuf : buffer_ok (rlc_depth (bc_Coder cfg)) (row_depth (bc_Coder cfg)) (Some treeBuf)).
Context (data : bytes) (Hdata : blob_data_ok cfg data) (blob : Blob) (ps' : pools) (ed : ExtendedData)
  (Hblob : NewBlob order treeBuf data cfg ps = Ok (Ok blob, ps')) (Hed : b_extendedData blob = Some ed).

(** A collision of SHA-256 between what the encoder hashed and what it takes to
    check a received answer. *)
Notation broken := (collision order cfg (rlc_depth (bc_Coder cfg)) net ed).

(** Validators among those selected answer with at least K different rows of
    the blob. *)
Definition fetchable : Prop := ∃ idxs : list nat, NoDup idxs ∧ (Z.to_nat (cfg_K (bc_Coder cfg)) <= length idxs)%nat ∧
  ∀ j, j ∈ idxs → ∃ i qs, (i < length selected)%nat ∧ net i = inr (Some (shard_of (ed_rlc ed) qs)) ∧
    Forall (λ p, GenerateRowProof ed (rp_Index p) = Ok p) qs ∧ j ∈ indices qs.

Lemma blob_outcome d n s : newDownload cfg (b_id blob) selected = Ok d → run (dinit d pool) n s →
  match ds_phase s with
  | Returned r => (r = Err ErrCanceled ∧ ds_cancelled s = true) ∨ r = Ok (mkDownloadedBlob (b_id blob) data) ∨ broken ∨
                  (is_ok r = false ∧ (fetchable → broken))
  | _ => True
  end.
Proof.
  intros Hn Hr. destruct (NewBlob_spec order Horder cfg ps _ _ Hco treeBuf data Hdata Hbuf) as (blob' & ed' & size & ps2 & HN & _ & Hb & _).
  rewrite Hblob in HN. injection HN as <- <-. assert (ed' = ed) as -> by (pose proof (be_ed _ _ _ _ _ _ _ Hb); congruence).
  pose proof (be_rows _ _ _ _ _ _ _ Hb) as Hrows. pose proof (be_encoded _ _ _ _ _ _ _ Hb) as Henc. set (rows := take _ (ed_rows ed)) in *.
  assert (BlobID_Commitment (b_id blob) = Ok (ed_commitment ed)) as Hid.
  { rewrite (be_id _ _ _ _ _ _ _ Hb). unfold NewBlobID, BlobID_Commitment.
    assert (length (ed_commitment ed) = CommitmentSize) as El by (rewrite (en_commitment _ _ _ _ _ _ Henc); apply sha256_length).
    by rewrite !copy_exact by (by rewrite ?copy_exact). }
  destruct (co_sizes _ _ _ _ Hco (Z.of_nat (length data))) as (size' & HS & _ & Hsz & _).
  { destruct Hdata as (Hne & _ & Hm). destruct data; [done|]. cbn [length] in *. lia. }
  rewrite (be_size _ _ _ _ _ _ _ Hb) in HS. injection HS as <-.
  destruct (drun_outcome order Horder procs stale cfg _ _ (co_shape _ _ _ _ Hco) (co_orig _ _ _ _ Hco) (co_parity _ _ _ _ Hco) Hmax (b_id blob) (ed_commitment ed) Hid
    selected net Hnet rows (Z.to_nat size) ed Hrows Henc eq_refl ltac:(lia) data (decode_encoded cfg ps _ _ Hco data blob ed size Hdata Hb) d pool n s Hn Hpool Hr)
    as [_ Ho].
  unfold outcome in Ho. destruct (ds_phase s) as [| | | |r]; try done. destruct Ho as [?|[?|[?|[Hno Hav]]]]; [tauto..|].
  right; right; right. split; [done|]. intros (idxs & Hnd & Hlen & Hix). apply Hav. exists idxs. split; [done|]. split; [done|].
  intros j Hj. destruct (Hix j Hj) as (i & qs & Hi & En & Hq & Hin). unfold indices in Hin. apply list_elem_of_In, in_map_iff in Hin as (p & Ej & Hp%list_elem_of_In).
  exists i, qs, p. split; [done|]. split; [|done]. exists (Some (shard_of (ed_rlc ed) qs)). split; [done|].
  destruct (encoded_rlc_ok _ _ _ (co_shape _ _ _ _ Hco) rows _ ed Hrows Henc) as [Hrlc Hrl].
  assert (qs ≠ []) as Hne by (intros ->; by apply not_elem_of_nil in Hp).
  split; [|done]. rewrite (co_orig _ _ _ _ Hco). apply parse_shard_of; try done.
  pose proof (co_shape _ _ _ _ Hco) as Hsh. pose proof (shape_total _ _ _ Hsh) as Et. pose proof (shape_lt _ _ _ Hsh).
  destruct (shape_nat _ _ _ Hsh) as (_ & _ & ? & ? & _).
  assert (2 ^ Z.of_nat (row_depth (bc_Coder cfg)) <= 2 ^ 16) by (apply Z.pow_le_mono_r; lia). lia.
Qed.

(** C6: the data a download returns for the id of a blob is the data the blob
    was made from, in every interleaving and whatever the validators answer; or
    the answers contain two strings that SHA-256 maps to one hash. *)
Theorem downloaded_blob_authentic d n s res : newDownload cfg (b_id blob) selected = Ok d → run (dinit d pool) n s →
  ds_phase s = Returned (Ok res) → res = mkDownloadedBlob (b_id blob) data ∨ broken.
Proof.
  intros Hn Hr E. pose proof (blob_outcome d n s Hn Hr) as Ho. rewrite E in Ho. destruct Ho as [[? _]|[[= ->]|[?|[? _]]]]; auto; discriminate.
Qed.

(** C8: when validators among those selected answer with enough different rows
    of the blob, a download that has come to rest has returned the data of the
    blob, whatever the other validators answer; unless its context was cancelled,
    or an answer contains a collision of SHA-256. *)
Theorem download_available d n s : newDownload cfg (b_id blob) selected = Ok d → fetchable → run (dinit d pool) n s → settled s →
  ds_phase s = Returned (Ok (mkDownloadedBlob (b_id blob) data)) ∨ (ds_phase s = Returned (Err ErrCanceled) ∧ ds_cancelled s = true) ∨ broken.
Proof.
  intros Hn Hf Hr Hset. pose proof (blob_outcome d n s Hn Hr) as Ho. destruct (download_run_inv _ d n s Hn Hr) as (commitment & g & Hid & Hd).
  destruct (progress order Horder procs stale cfg _ _ (co_shape _ _ _ _ Hco) (co_orig _ _ _ _ Hco) (co_parity _ _ _ _ Hco) Hmax _ commitment Hid selected net Hnet s g Hd)
    as [(r & E & _)|(s' & Hs & E)]; [|by destruct (Hset s' Hs)].
  rewrite E in Ho |- *. destruct Ho as [[-> ?]|[->|[?|[_ Hav]]]]; auto.
Qed.
End Properties.

(** ** A run of the concrete instance *)

Module Runs.
Import Quad.
#[local] Existing Instance Toy.toy_crypto.
#[local] Existing Instance Toy.toy_sha256.

Definition params : ProtocolParams :=
  mkProtocolParams 2 (S754_finite false 4503599627370496 (-53)) 3 1 (mkFraction 2 3) (mkFraction 1 3) 256 64.

Definition fresh (maxRowSize rowCount : Z) : Pool :=
  mkPool rowCount maxRowSize (repeat (mkBucket 0 [] [] false) (Z.to_nat (Z.quot maxRowSize rowSizeAlign))) ∅ 0.

Definition cfg : BlobConfig :=
  mkBlobConfig 0 2 2 (λ n, RowSize params 0 (int_add n blobHeaderLen)) 251 128 2 cfg22 (mkAssembler 2 2 320 128).
Definition ps : pools := mkPools (fresh 128 4) (fresh 320 1).
Definition pool : Pool := fresh 128 2.

Lemma params_fit : params_ok params.
Proof. split; [done|split; [by exists 1|done]|done|done]. Qed.

Lemma config_created : NewBlobConfigFromParams 2 0 params = Ok (cfg, ps).
Proof. reflexivity. Qed.

Lemma pool_fits : data_pool cfg pool.
Proof. apply (NewPool_shape 128 2). reflexivity. Qed.

Definition data : bytes := map Z.of_nat (seq 1 100).
Definition treeBuf : list bytes := repeat [] 10.

Lemma blob_data_fits : blob_data_ok cfg data.
Proof. split; [done|]. split; [|done]. apply Forall_map, Forall_forall. intros i Hi. apply elem_of_seq in Hi. unfold byte_ok. lia. Qed.

Lemma buffer_fits : buffer_ok (rlc_depth (bc_Coder cfg)) (row_depth (bc_Coder cfg)) (Some treeBuf).
Proof. change (tree_nodes 2 + tree_nodes 1 <= 10)%nat. cbn. lia. Qed.

(** The blob, and its rows with their proofs. *)
Definition blob : option (Blob * pools) := match NewBlob Toy.order_seq treeBuf data cfg ps with Ok (Ok b, ps') => Some (b, ps') | _ => None end.
Definition ed : option ExtendedData := '(b, _) ← blob; b_extendedData b.
Definition row (i : Z) : list RowProof :=
  match ed with Some ed => match GenerateRowProof ed i with Ok p => [p] | _ => [] end | None => [] end.
Definition rlc : list (list Z) := from_option ed_rlc [] ed.

(** The first validator sends a row of its own making, the second and the third
    a parity row each. *)
Definition forged (p : RowProof) : RowProof := mkRowProof (rp_Index p) (repeat 7 64) (rp_RowProof p).
Definition net (i : nat) : error + option BlobShard :=
  match i with
  | 0%nat => inr (Some (shard_of rlc (map forged (row 1))))
  | 1%nat => inr (Some (shard_of rlc (row 2)))
  | 2%nat => inr (Some (shard_of rlc (row 3)))
  | _ => inl "unavailable"
  end.
Definition selected : list SelectedValidator := repeat (mkSelected (mkValidator [1] [2] 10) 1) 3.
Definition start : option dsystem :=
  '(b, _) ← blob; match newDownload cfg (b_id b) selected with Ok d => Some (dinit d pool) | _ => None end.

Abbreviation run := (drun Toy.order_seq 2 (λ _ _, []) cfg net).

(** A schedule: [None] for the dispatcher, [Some i] for worker [i]. *)
Fixpoint exec (sched : list (option nat)) (s : dsystem) : option dsystem :=
  match sched with
  | [] => Some s
  | None :: sched' => match dispatch_step s with Some (Ok s') => exec sched' s' | _ => None end
  | Some i :: sched' =>
      match ds_workers s !! i with
      | Some w => match worker_step Toy.order_seq 2 (λ _ _, []) net w (ds_dl s) (ds_pool s) with
                  | Some (Ok (w', d, pool)) => exec sched' (mkDsystem d pool (ds_phase s) (<[i := w']> (ds_workers s)) (ds_cancelled s))
                  | _ => None
                  end
      | None => None
      end
  end.

Lemma exec_run s0 sched : ∀ n s s', run s0 n s → exec sched s = Some s' → run s0 (n + length sched) s'.
Proof.
  induction sched as [|[i|] sched IH]; intros n s s' Hr H; cbn [exec length] in *.
  - injection H as <-. by rewrite Nat.add_0_r.
  - destruct (ds_workers s !! i) as [w|] eqn:Hi; [|done]. destruct (worker_step _ _ _ _ w _ _) as [[[[w' d] p]|e|m]|] eqn:E; try done.
    rewrite <- Nat.add_succ_comm. eapply IH; [|exact H]. eapply drun_step; [exact Hr|]. by eapply dstep_worker.
  - destruct (dispatch_step s) as [[s1|e|m]|] eqn:E; try done.
    rewrite <- Nat.add_succ_comm. eapply IH; [|exact H]. eapply drun_step; [exact Hr|]. by apply dstep_dispatch.
Qed.

Definition sched : list (option nat) :=
  repeat None 6 ++ repeat (Some 0%nat) 4 ++ repeat None 3 ++ repeat (Some 1%nat) 7 ++ repeat (Some 2%nat) 7 ++ repeat None 2.
Definition final : option dsystem := start ≫= exec sched.

Definition is_finished (w : worker) : bool := match wk_phase w with Finished => true | _ => false end.

Lemma final_data : option_map (λ s, (match ds_phase s with Returned (Ok r) => Some (db_data r) | _ => None end, forallb is_finished (ds_workers s), ds_cancelled s)) final
  = Some (Some data, true, false).
Proof. vm_compute. reflexivity. Qed.

(** The pieces of the run. *)
Lemma run_blob : ∃ b ps' e d s res, NewBlob Toy.order_seq treeBuf data cfg ps = Ok (Ok b, ps') ∧ b_extendedData b = Some e ∧ ed = Some e ∧
  newDownload cfg (b_id b) selected = Ok d ∧ run (dinit d pool) 29 s ∧ ds_phase s = Returned (Ok res) ∧
  forallb is_finished (ds_workers s) = true ∧ ds_cancelled s = false ∧ encoded cfg22 1 2 (take 2 (ed_rows e)) 64 e ∧ data_ok cfg22 (take 2 (ed_rows e)) 64.
Proof.
  destruct (NewBlob_spec Toy.order_seq Toy.order_seq_ok cfg ps _ _ (config_from_params 2 params cfg ps params_fit config_created) treeBuf data blob_data_fits buffer_fits)
    as (b & e & size & ps' & HN & _ & Hb & _).
  pose proof (be_ed _ _ _ _ _ _ _ Hb) as He. pose proof (be_rows _ _ _ _ _ _ _ Hb) as Hrows. pose proof (be_encoded _ _ _ _ _ _ _ Hb) as Henc.
  pose proof (be_size _ _ _ _ _ _ _ Hb) as Hs.
  assert (size = 64) as -> by (vm_compute in Hs; congruence).
  assert (blob = Some (b, ps')) as Eb by (unfold blob; rewrite HN; exact eq_refl).
  assert (ed = Some e) as Ee by (unfold ed; rewrite Eb; exact He).
  destruct final as [s|] eqn:Ef; [|discriminate (eq_trans (f_equal (option_map _) (eq_sym Ef)) final_data)].
  pose proof (eq_trans (f_equal (option_map _) (eq_sym Ef)) final_data) as HF. cbn [option_map] in HF. injection HF as Hph Hf Hc.
  unfold final, start in Ef. rewrite Eb in Ef. cbn [mbind option_bind] in Ef.
  destruct (newDownload cfg (b_id b) selected) as [d| |] eqn:En; [|discriminate Ef..]. cbn [mbind option_bind] in Ef.
  destruct (ds_phase s) as [| | | |[res| |]] eqn:Eph; [discriminate Hph..| |discriminate Hph|discriminate Hph].
  exists b, ps', e, d, s, res. split; [exact HN|]. split; [exact He|]. split; [exact Ee|]. split; [exact En|]. split; [|split; [exact Eph|]].
  - exact (exec_run _ sched 0 (dinit d pool) s (drun_start _ _ _ _ _ _) Ef).
  - split; [exact Hf|]. split; [exact Hc|]. split; [exact Henc|exact Hrows].
Qed.

#[local] Opaque blob.

Section Encoded.
Context (e : ExtendedData) (Ee : ed = Some e) (Henc : encoded cfg22 1 2 (take 2 (ed_rows e)) 64 e) (Hrows : data_ok cfg22 (take 2 (ed_rows e)) 64).

Lemma run_row i : 0 <= i < 4 → ∃ p, row i = [p] ∧ GenerateRowProof e i = Ok p ∧ rp_Index p = i ∧ bytes_ok [p].
Proof.
  intros Hi. destruct (GenerateRowProof_Ok cfg22 1 2 cfg22_shape _ 64 e Hrows Henc i Hi) as (p & Hp & Ei & _). exists p.
  split; [unfold row; by rewrite Ee, Hp|]. split; [done|]. split; [done|].
  apply (honest_bytes cfg22 1 2 cfg22_shape _ 64 e Hrows Henc). constructor; [|constructor]. unfold honest. by rewrite Ei.
Qed.

Lemma run_rlc : rlc = ed_rlc e ∧ Forall coeff_ok rlc.
Proof.
  assert (rlc = ed_rlc e) as E by (unfold rlc; by rewrite Ee). split; [exact E|]. rewrite E.
  apply (encoded_rlc_ok cfg22 1 2 cfg22_shape _ 64 e Hrows Henc).
Qed.

Lemma net_wire i shard : net i = inr (Some shard) → wire_ok shard.
Proof.
  destruct run_rlc as [_ Hr]. destruct (run_row 1) as (p1 & E1 & _ & _ & B1); [lia|]. destruct (run_row 2) as (p2 & E2 & _ & _ & B2); [lia|].
  destruct (run_row 3) as (p3 & E3 & _ & _ & B3); [lia|].
  destruct i as [|[|[|i]]]; cbn [net]; intros H; [injection H as H; rewrite <- H; apply (shard_wire_ok _ _ Hr)..|discriminate H].
  - rewrite E1. constructor; [|constructor]. cbn [forged rp_Row]. apply Forall_forall. intros x Hx. apply list_elem_of_In, repeat_spec in Hx. rewrite Hx. unfold byte_ok. lia.
  - rewrite E2. exact B2.
  - rewrite E3. exact B3.
Qed.

Lemma run_fetchable : fetchable cfg selected net e.
Proof.
  destruct run_rlc as [Er _]. destruct (run_row 2) as (p2 & E2 & G2 & I2 & _); [lia|]. destruct (run_row 3) as (p3 & E3 & G3 & I3 & _); [lia|].
  exists [2%nat; 3%nat]. split; [by apply (bool_decide_unpack _)|]. split; [apply le_n|]. intros j Hj.
  assert (∀ i p, net i = inr (Some (shard_of rlc [p])) → (i < 3)%nat → GenerateRowProof e (rp_Index p) = Ok p → ∃ i qs, (i < length selected)%nat ∧
    net i = inr (Some (shard_of (ed_rlc e) qs)) ∧ Forall (λ p, GenerateRowProof e (rp_Index p) = Ok p) qs ∧ Z.to_nat (rp_Index p) ∈ indices qs) as H.
  { intros i p En Hi HG. exists i, [p]. rewrite <- Er. split; [exact Hi|]. split; [exact En|]. split; [constructor; [exact HG|constructor]|]. apply list_elem_of_here. }
  assert (j = 2%nat ∨ j = 3%nat) as [Ej|Ej] by (apply elem_of_cons in Hj as [?|Hj]; [auto|apply list_elem_of_singleton in Hj; auto]); rewrite Ej.
  - specialize (H 1%nat p2). rewrite I2 in H. apply H; [cbn [net]; rewrite E2; exact eq_refl|lia|exact G2].
  - specialize (H 2%nat p3). rewrite I3 in H. apply H; [cbn [net]; rewrite E3; exact eq_refl|lia|exact G3].
Qed.
End Encoded.

Lemma download_terminates_witness : ∃ id d s, newDownload cfg id selected = Ok d ∧ run (dinit d pool) 29 s ∧ (29 <= 12 * 3 + 5)%nat ∧
  ¬ panics Toy.order_seq 2 (λ _ _, []) net s.
Proof.
  destruct run_blob as (b & ps' & e & d & s & res & HN & He & Ee & En & Hr & Eph & Hf & Hc & Henc & Hrows).
  destruct (download_terminates Toy.order_seq Toy.order_seq_ok 2 (λ _ _, []) params params_fit cfg ps config_created pool pool_fits selected net (net_wire e Ee Henc Hrows)
    (b_id b) d 29 s En Hr) as (Hle & Hp & _).
  exists (b_id b), d, s. split; [exact En|]. split; [exact Hr|]. split; [exact Hle|exact Hp].
Defined.

Lemma downloaded_blob_authentic_witness : ∃ b ps' e d s res, NewBlob Toy.order_seq treeBuf data cfg ps = Ok (Ok b, ps') ∧ b_extendedData b = Some e ∧
  run (dinit d pool) 29 s ∧ ds_phase s = Returned (Ok res) ∧
  (res = mkDownloadedBlob (b_id b) data ∨ collision Toy.order_seq cfg (rlc_depth cfg22) net e).
Proof.
  destruct run_blob as (b & ps' & e & d & s & res & HN & He & Ee & En & Hr & Eph & Hf & Hc & Henc & Hrows).
  exists b, ps', e, d, s, res. split; [exact HN|]. split; [exact He|]. split; [exact Hr|]. split; [exact Eph|].
  exact (downloaded_blob_authentic Toy.order_seq Toy.order_seq_ok 2 (λ _ _, []) params params_fit cfg ps config_created pool pool_fits selected net
    (net_wire e Ee Henc Hrows) treeBuf buffer_fits data blob_data_fits b ps' e HN He d 29 s res En Hr Eph).
Defined.

Lemma download_available_witness : ∃ b e d s, fetchable cfg selected net e ∧ run (dinit d pool) 29 s ∧ settled Toy.order_seq 2 (λ _ _, []) net s ∧
  (ds_phase s = Returned (Ok (mkDownloadedBlob (b_id b) data)) ∨ (ds_phase s = Returned (Err ErrCanceled) ∧ ds_cancelled s = true) ∨
   collision Toy.order_seq cfg (rlc_depth cfg22) net e).
Proof.
  destruct run_blob as (b & ps' & e & d & s & res & HN & He & Ee & En & Hr & Eph & Hf & Hc & Henc & Hrows).
  assert (settled Toy.order_seq 2 (λ _ _, []) net s) as Hset.
  { intros s' Hs. destruct Hs as [s s' E|s Ep Ec|s i w w' d' pl Hi E|s i w Hi Ew Ec|s Ec].
    - unfold dispatch_step in E. rewrite Eph in E. discriminate E.
    - congruence.
    - pose proof (proj1 (forallb_forall _ _) Hf w (proj1 (list_elem_of_In _ _) (list_elem_of_lookup_2 _ _ _ Hi))) as Hw. unfold is_finished in Hw.
      unfold worker_step in E. destruct (wk_phase w); discriminate.
    - congruence.
    - cbn. congruence. }
  exists b, e, d, s. split; [exact (run_fetchable e Ee Henc Hrows)|]. split; [exact Hr|]. split; [exact Hset|].
  exact (download_available Toy.order_seq Toy.order_seq_ok 2 (λ _ _, []) params params_fit cfg ps config_created pool pool_fits selected net
    (net_wire e Ee Henc Hrows) treeBuf buffer_fits data blob_data_fits b ps' e HN He d 29 s En (run_fetchable e Ee Henc Hrows) Hr Hset).
Defined.
End Runs.
