(* ===== verification/StoreProperties.v ===== *)
(** * Properties of the shard store

    Storing and reading back, retention until the prune time, and what pruning
    removes; with runs on the disk of [DiskModel]. *)

From S2P Require Import Prelude Sdk SdkModel FibrePromise FibreCache FibreBlobId FibreExample FibreEncoding.
From S2P Require Import Disk ShardCodec Timestamp ShardStore ShardStoreKeys ShardStoreProofs ShardStorePrune ShardStoreTrace DiskModel.
#[local] Open Scope Z_scope.

Section Properties.
Context `{CR : Crypto} `{PC : PromiseCodec} `{PL : !PromiseCodecLaws} {W : Type} `{FS : !Vfs W} `{DB : !Pebble W} `{DL : !DiskLaws W}.
Context (cfg : StoreConfig).

(** What a stored shard looks like to the lookups. *)
Lemma retained_lookup c h shard T w : ¬ faulty → store_ok cfg w → id_ok c h → shard_ok shard → retained cfg c h (shard_bytes shard) T w →
  (Has cfg c h w).1 = Ok true ∧
  ((∀ h', id_ok c h' → stored cfg (files w) (kvs w) c h' → h' = h) → (Get cfg c w).1 = Ok shard).
Proof.
  intros Hnf Hs Hi Hsh [Hm Hf _]. destruct Hs as [HK HF _]. split.
  - pose proof (Has_spec cfg (files w) (kvs w) c h w (conj eq_refl eq_refl)) as H.
    destruct (Has cfg c h w) as [[b|e|p] w']; cbn in *; [|by destruct H|done]. destruct H as [Hb _]. f_equal. apply Hb. split; [done|eauto].
  - intros Honly. pose proof (Get_spec cfg (files w) (kvs w) c (id_commitment _ _ Hi) (id_commitment_bytes _ _ Hi) HK HF w (conj eq_refl eq_refl)) as H.
    destruct (Get cfg c w) as [[s|e|p] w']; cbn in *; [| |done].
    + destruct H as (_ & h' & d & Hi' & Hm' & Hd & Hr & _). assert (h' = h) as -> by (apply Honly; [done|]; split; [done|eauto]).
      rewrite Hf in Hd. injection Hd as <-. destruct (shard_ok_rows shard Hsh) as (_ & s' & Hr' & ->). f_equal. by eapply readable_inj.
    + destruct H as (_ & [[_ Hnone]|?]); [|done]. exfalso. apply (Hnone h Hi). split; [done|eauto].
Qed.

(** C17: On a reliable disk, storing a shard for a promise decoded from the wire
    succeeds unless the call is cancelled; after it the shard is present, the
    promise is read back unchanged, and when no other promise for the
    commitment is stored, looking the commitment up returns exactly the
    shard. *)
Theorem put_get_roundtrip rnd pb promise h shard pruneAt w b : ¬ faulty → store_ok cfg w →
  proto_ok pb → FromProto (Some pb) = Ok promise → Marshal pb = Ok b → Hash promise = Ok h → id_ok (Commitment promise) h →
  shard_ok shard → time_ok pruneAt →
  ∃ w', Put cfg (mkPutEnv None None (inr rnd)) promise shard pruneAt w = (Ok tt, w') ∧ store_ok cfg w' ∧
    (Has cfg (Commitment promise) h w').1 = Ok true ∧ (GetPaymentPromise h w').1 = Ok promise ∧
    ((∀ h', id_ok (Commitment promise) h' → stored cfg (files w) (kvs w) (Commitment promise) h' → h' = h) →
     (Get cfg (Commitment promise) w').1 = Ok shard).
Proof.
  intros Hnf Hs Hpb Hfrom Hmar Hh Hi Hsh Ht. set (env := mkPutEnv None None (inr rnd)).
  destruct (promise_proto_roundtrip pb promise Hpb Hfrom) as [Hto _].
  pose proof (put_store_ok cfg env promise shard pruneAt w Hs) as Hok. destruct (shard_ok_rows shard Hsh) as (Hrows & _).
  pose proof (Put_spec cfg (files w) (kvs w) env promise shard pruneAt h Hh Hrows w (conj eq_refl eq_refl)) as H.
  destruct (Put cfg env promise shard pruneAt w) as [[[]|e|p] w'] eqn:EP; cbn [fst snd] in *; [| |done].
  2:{ destruct H as [Hn _]. exfalso. apply Hnf, Hn. by repeat split; eauto. }
  exists w'. split; [done|]. assert (store_ok cfg w') as Hs' by (apply Hok; split; eauto). split; [done|].
  destruct H as (F' & pb' & pp & Hto' & Hm' & [HF HK] & Hsame & Hpath).
  assert (pb' = pb) as -> by congruence. assert (pp = b) as -> by congruence.
  assert (retained cfg (Commitment promise) h (shard_bytes shard) 0 w') as Hret.
  { split; [rewrite HK; apply published_marked; [done..|by right]|by rewrite HF|]. intros t Hot _. apply Z.div_le_mono; [done|].
    unfold time_ok in Hot. lia. }
  destruct (retained_lookup _ h shard 0 w' Hnf Hs' Hi Hsh Hret) as [Hhas Hget]. split; [done|]. split.
  - unfold GetPaymentPromise, wrap_err, attempt, mbind, io_bind, io_sum. pose proof (db_Get_law (promiseKey h) w') as L.
    destruct (db_Get (promiseKey h) w') as [[e|v] w2]; destruct L as (_ & _ & L); [done|]. rewrite HK in L. cbn.
    assert (published (kvs w) h b (Commitment promise) pruneAt !! promiseKey h = Some b) as EL.
    { unfold published. rewrite lookup_insert_ne, lookup_insert_ne, lookup_insert_eq; [done| |].
      - intros E. by apply (eq_sym (y := _)), promiseKey_not_shardKey in E.
      - intros E. by apply (eq_sym (y := _)), promiseKey_not_pruneKey in E. }
    rewrite EL in L. subst v. unfold pure. rewrite (Unmarshal_Marshal _ _ Hmar). unfold mret, io_ret. cbn in Hfrom |- *. by rewrite Hfrom.
  - intros Honly. apply Hget. intros h' Hi' [Hm2 Hf2]. rewrite HK in Hm2. apply published_marked in Hm2; [|done..].
    destruct Hm2 as [Hm2|[_ ->]]; [|done]. destruct (decide (h' = h)) as [|Hne]; [done|]. apply Honly; [done|]. split; [done|].
    rewrite HF, Hsame in Hf2; [done|apply shard_not_staging|]. intros E. apply shardFilePath_inj in E as [_ ?]; done.
Qed.

Lemma put_done_ok env promise h shard pruneAt w r w' : store_ok cfg w → Hash promise = Ok h → id_ok (Commitment promise) h →
  shard_ok shard → time_ok pruneAt → Put cfg env promise shard pruneAt w = (r, w') → store_ok cfg w'.
Proof.
  intros Hs Hh Hi Hsh Ht HP. pose proof (put_store_ok cfg env promise shard pruneAt w Hs) as Hok. rewrite HP in Hok. apply Hok. split; eauto.
Qed.

(** C16: A shard whose [Put] returned stays on disk, marked and with the same
    bytes, through every sequence of calls on the open store, restarts of a
    store that was closed included, whatever fails on the way, that does not
    store it again and does not prune past the minute of [limit]: the prune
    time it was stored with, or the earliest one it has in the index when the
    same shard had been stored before. As long as the disk then answers, it is
    reported present, and returned when it is the only one of its commitment. *)
Theorem stored_shard_retained env promise h shard pruneAt limit w w' l : store_ok cfg w →
  Hash promise = Ok h → id_ok (Commitment promise) h → shard_ok shard → time_ok pruneAt →
  Put cfg env promise shard pruneAt w = (Ok tt, w') →
  limit / Minute <= pruneAt / Minute →
  (∀ t, time_ok t → is_Some (kvs w !! pruneKey t (Commitment promise) h) → limit / Minute <= t / Minute) →
  history cfg (spares (Commitment promise) h limit) l w' →
  retained cfg (Commitment promise) h (shard_bytes shard) limit (run_ops cfg l w') ∧
  (¬ faulty → (Has cfg (Commitment promise) h (run_ops cfg l w')).1 = Ok true ∧
     ((∀ h', id_ok (Commitment promise) h' → stored cfg (files (run_ops cfg l w')) (kvs (run_ops cfg l w')) (Commitment promise) h' → h' = h) →
      (Get cfg (Commitment promise) (run_ops cfg l w')).1 = Ok shard)).
Proof.
  intros Hs Hh Hi Hsh Ht HP HT Hx Hist.
  pose proof (put_done_ok env promise h shard pruneAt w _ w' Hs Hh Hi Hsh Ht HP) as Hs'.
  pose proof (put_retains cfg env promise shard pruneAt h limit w w' Hh Hi Ht Hsh HP HT Hx) as Hret.
  pose proof (history_retained cfg _ h _ limit l Hi w' Hs' Hret Hist) as Hend. split; [done|]. intros Hnf.
  eapply retained_lookup; [done|by eapply history_ok|done|done|exact Hend].
Qed.

(** The index has an entry for the shard that is due. *)
Definition due (w : W) (b : Z) (c h : bytes) : Prop := ∃ t, entry_due (kvs w) b (t, c, h).

(** A pass of pruning that reports no error removes exactly the shards with
    an entry in a minute before the cutoff: every other shard keeps its file
    and marker, the due entries leave the index, and the bytes reported are
    those by which the directory of shards shrank; on a reliable disk every pass
    is such a pass. *)
Theorem prune_removes_exactly_due b w : store_ok cfg w → time_ok b → small cfg w →
  ∃ r w', PruneBefore cfg b w = (Ok r, w') ∧ store_ok cfg w' ∧ (is_Some (pr_err r) → faulty) ∧
    (pr_err r = None →
      (∀ c h, id_ok c h → stored cfg (files w') (kvs w') c h ↔ stored cfg (files w) (kvs w) c h ∧ ¬ due w b c h) ∧
      (∀ c h d, id_ok c h → ¬ due w b c h → files w !! shardFilePath cfg c h = Some d → files w' !! shardFilePath cfg c h = Some d) ∧
      (∀ t c h, entry_due (kvs w) b (t, c, h) → kvs w' !! pruneKey t c h = None) ∧
      pr_bytes r = stored_bytes cfg (files w) - stored_bytes cfg (files w')).
Proof.
  intros Hs Hb Hsm. pose proof (prune_store_ok cfg b w Hs Hb Hsm) as Hs'. pose proof Hs as [HK HF _]. destruct Hsm as [Hb1 Hb2].
  pose proof (PruneBefore_spec cfg (files w) (kvs w) b HK Hb Hb1 Hb2 w (conj eq_refl eq_refl)) as H.
  destruct (PruneBefore cfg b w) as [[r|e|p] w'] eqn:EP; cbn in *; [|done|done].
  destruct H as (F' & K' & gone & all & Hw & Hp & Hcov). destruct Hw as [EF EK]. exists r, w'.
  split; [done|]. split; [done|]. split; [intros He; by apply (pass_err _ _ _ _ _ _ _ _ _ Hp)|]. intros He.
  destruct (pass_ok _ _ _ _ _ _ _ _ _ Hp He) as [-> EK']. pose proof (pass_due _ _ _ _ _ _ _ _ _ Hp) as Hdue.
  pose proof (pass_files _ _ _ _ _ _ _ _ _ Hp) as EF'. specialize (Hcov He). rewrite <- EF in EF'. rewrite <- EK in EK'.
  assert (∀ c h, id_ok c h → due w b c h ↔ ∃ t, (t, c, h) ∈ gone) as Hiff.
  { intros c h Hi. split.
    - intros [t Hd]. destruct (Hcov _ Hd) as ([[t' c'] h'] & Hin & E). exists t'. cbn in E.
      pose proof (proj1 (Forall_forall _ _) Hdue _ Hin) as (Ht' & Hi' & _). destruct Hd as (Ht & _).
      by apply pruneKey_inj in E as [-> ->].
    - intros [t Hin]. exists t. exact (proj1 (Forall_forall _ _) Hdue _ Hin). }
  assert (∀ c h, id_ok c h → shardFilePath cfg c h ∈ map (entry_path cfg) gone ↔ ∃ t, (t, c, h) ∈ gone) as Hpath.
  { intros c h Hi. rewrite list_elem_of_fmap. split.
    - intros ([[t c'] h'] & E & Hin). cbn in E. pose proof (proj1 (Forall_forall _ _) Hdue _ Hin) as (_ & Hi' & _).
      apply shardFilePath_inj in E as [-> ->]; [eauto|done..].
    - intros [t Hin]. by exists (t, c, h). }
  assert (∀ c h, id_ok c h → BDelete (shardKey c h) ∈ batch_of gone ↔ ∃ t, (t, c, h) ∈ gone) as Hmark.
  { intros c h Hi. rewrite elem_of_batch. split.
    - intros (t & c' & h' & Hin & E). pose proof (proj1 (Forall_forall _ _) Hdue _ Hin) as (_ & Hi' & _). exists t.
      destruct E as [E|[E|E]]; [by apply shardKey_not_pruneKey in E| |by apply (eq_sym (y := _)), promiseKey_not_shardKey in E].
      apply shardKey_inj in E as [-> ->]; done.
    - intros [t Hin]. exists t, c, h. auto. }
  split; [|split; [|split]].
  - intros c h Hi. unfold stored, marked. rewrite EF', EK', delete_files_lookup, batch_deletes by apply batch_of_deletes.
    rewrite (Hiff c h Hi). destruct (decide (shardFilePath cfg c h ∈ _)) as [Hin|Hin], (decide (BDelete (shardKey c h) ∈ _)) as [Hin'|Hin'];
      rewrite (Hpath c h Hi) in Hin; rewrite (Hmark c h Hi) in Hin'; try done; split; intros [[? ?] ?]; try (by destruct Hin; eauto); try done.
  - intros c h d Hi Hnd Hd. rewrite EF', delete_files_lookup, decide_False; [done|]. rewrite (Hpath c h Hi), <- (Hiff c h Hi). done.
  - intros t c h Hd. rewrite EK', batch_deletes by apply batch_of_deletes. rewrite decide_True; [done|].
    destruct (Hcov (t, c, h) Hd) as ([[t' c'] h'] & Hin & E). cbn in E. rewrite <- E. apply elem_of_batch. exists t', c', h'. auto.
  - rewrite (pass_freed _ _ _ _ _ _ _ _ _ Hp). by rewrite EF'.
Qed.
End Properties.

(** ** Runs on a disk in memory *)

Module StoreRuns.
Import SdkModel FibreExample EncodingExample.

(** A codec that knows one promise. *)
#[local] Instance one_codec : PromiseCodec := {
  Marshal pb := if decide (pb = promise 0) then Ok [1] else Err "unknown";
  Unmarshal b := if decide (b = [1]) then Ok (promise 0) else Err "unknown";
}.
#[local] Instance one_codec_laws : PromiseCodecLaws.
Proof.
  split; cbn.
  - intros pb p. by case_decide.
  - intros b p. by case_decide.
  - intros pb b. case_decide as E; [|done]. intros [= <-]. by rewrite E.
Qed.

#[local] Instance reliable_vfs : Vfs Mem := mem_vfs no_fault.
#[local] Instance reliable_pebble : Pebble Mem := mem_pebble no_fault.
#[local] Instance reliable_laws : DiskLaws Mem := mem_laws no_fault.

Definition cfg : StoreConfig := mkStoreConfig (str "/data").
Definition shard : BlobShard := mkBlobShard [Some (mkBlobRow 3 [1; 2] [[4]])] [9; 9].
Definition live : PutEnv := mkPutEnv None None (inr [1; 2; 3]).
Definition pruneAt : Z := t0 + 4 * Hour.

Lemma reliable : ¬ faulty.
Proof. exact no_fault_reliable. Qed.

Lemma empty_ok : store_ok cfg empty_mem.
Proof. by split; [intros k [? ?]|intros c h d _ ?|intros c h _ [? ?]]. Qed.

Lemma bytes_ok_dec (b : bytes) : forallb (λ x, (0 <=? x) && (x <? 256)) b = true → Forall byte_ok b.
Proof. intros H. apply Forall_forall. intros x Hx. apply list_elem_of_In in Hx. rewrite forallb_forall in H. apply H in Hx. unfold byte_ok. lia. Qed.

Lemma shard_id : id_ok (Commitment client_promise) promise_hash.
Proof. split; [done|apply bytes_ok_dec; reflexivity|apply bytes_ok_dec; reflexivity]. Qed.

Lemma shard_good : shard_ok shard.
Proof. exists [mkBlobRow 3 [1; 2] [[4]]]. split; [done|]. repeat (split || constructor || done). Qed.

Lemma pruneAt_ok : time_ok pruneAt.
Proof. unfold time_ok, pruneAt, t0, time_limit, Hour, Minute, Second. lia. Qed.

Definition disk1 : Mem := (Put cfg live client_promise shard pruneAt empty_mem).2.

Lemma client_promise_wire : FromProto (Some (promise 0)) = Ok client_promise.
Proof. reflexivity. Qed.

Lemma client_promise_stored : Marshal (promise 0) = Ok [1].
Proof. cbn [Marshal one_codec]. by rewrite decide_True. Qed.

Lemma client_promise_hash : Hash client_promise = Ok promise_hash.
Proof. reflexivity. Qed.

Lemma put_get_roundtrip_witness : ∃ w', Put cfg live client_promise shard pruneAt empty_mem = (Ok tt, w') ∧ store_ok cfg w' ∧
  (Has cfg (repeat 2 32) promise_hash w').1 = Ok true ∧ (GetPaymentPromise promise_hash w').1 = Ok client_promise ∧
  (Get cfg (repeat 2 32) w').1 = Ok shard.
Proof.
  destruct (put_get_roundtrip cfg [1; 2; 3] (promise 0) client_promise promise_hash shard pruneAt empty_mem [1] reliable empty_ok
    client_promise_ok client_promise_wire client_promise_stored client_promise_hash shard_id shard_good pruneAt_ok) as (w' & H1 & H2 & H3 & H4 & H5).
  exists w'. split; [exact H1|]. split; [exact H2|]. split; [exact H3|]. split; [exact H4|]. apply H5. intros h' _ [[? ?] _]. done.
Defined.

(** A crash-free history with a lookup, a restart and a pass of pruning one
    minute before the prune time. *)
Definition calls : list op := [OpGet (repeat 2 32); OpOpen None; OpPrune (pruneAt - Minute); OpHas (repeat 2 32) promise_hash].

Lemma disk1_put : Put cfg live client_promise shard pruneAt empty_mem = (Ok tt, disk1).
Proof. vm_cast_no_check (eq_refl (Ok tt, disk1)). Qed.

Lemma small_mem (w : Mem) : bool_decide (stored_bytes cfg (mem_files w) < two63 ∧ Z.of_nat (size (mem_kvs w)) < two63) = true → small cfg w.
Proof. intros H. by apply bool_decide_eq_true in H. Qed.

Lemma calls_history : history cfg (spares (repeat 2 32) promise_hash pruneAt) calls disk1.
Proof.
  assert (time_ok (pruneAt - Minute)) as Ht by (unfold time_ok, pruneAt, t0, time_limit, Hour, Minute, Second; lia).
  assert (length (repeat 2 32) = CommitmentSize ∧ Forall byte_ok (repeat 2 32)) as Hc by (split; [done|apply bytes_ok_dec; reflexivity]).
  unfold calls. cbn [history]. repeat split; try done; try apply Hc; try (apply small_mem; vm_cast_no_check (eq_refl true)).
Qed.

Lemma stored_shard_retained_witness : retained cfg (repeat 2 32) promise_hash (shard_bytes shard) pruneAt (run_ops cfg calls disk1) ∧
  (Has cfg (repeat 2 32) promise_hash (run_ops cfg calls disk1)).1 = Ok true.
Proof.
  destruct (stored_shard_retained cfg live client_promise promise_hash shard pruneAt pruneAt empty_mem disk1 calls empty_ok client_promise_hash shard_id shard_good
    pruneAt_ok disk1_put (Z.le_refl _) ltac:(by intros t _ [? ?]) calls_history) as [H1 H2].
  split; [exact H1|]. apply (H2 reliable).
Defined.

Lemma disk1_ok : store_ok cfg disk1.
Proof.
  exact (put_done_ok cfg live client_promise promise_hash shard pruneAt empty_mem _ disk1 empty_ok client_promise_hash shard_id shard_good
    pruneAt_ok disk1_put).
Qed.

Lemma prune_removes_exactly_due_witness : ∃ r w', PruneBefore cfg (pruneAt + Minute) disk1 = (Ok r, w') ∧ pr_err r = None ∧
  ¬ stored cfg (mem_files w') (mem_kvs w') (repeat 2 32) promise_hash ∧ pr_bytes r = stored_bytes cfg (mem_files disk1) - stored_bytes cfg (mem_files w').
Proof.
  assert (time_ok (pruneAt + Minute)) as Ht by (unfold time_ok, pruneAt, t0, time_limit, Hour, Minute, Second; lia).
  assert (small cfg disk1) as Hsm by (apply small_mem; vm_cast_no_check (eq_refl true)).
  destruct (prune_removes_exactly_due cfg (pruneAt + Minute) disk1 disk1_ok Ht Hsm) as (r & w' & H1 & _ & H2 & H3).
  exists r, w'. split; [exact H1|]. assert (pr_err r = None) as He by (destruct (pr_err r); [destruct reliable; apply H2; eauto|done]).
  split; [exact He|]. destruct (H3 He) as (H4 & _ & _ & H5). split; [|exact H5]. intros Hst. apply (H4 _ _ shard_id) in Hst as [_ Hn]. apply Hn.
  exists pruneAt. split; [apply pruneAt_ok|]. split; [apply shard_id|]. split.
  - assert (bool_decide (is_Some (mem_kvs disk1 !! pruneKey pruneAt (repeat 2 32) promise_hash)) = true) as E by vm_cast_no_check (eq_refl true).
    by apply bool_decide_eq_true in E.
  - reflexivity.
Defined.

(** ** Sizes under a cancelled context *)

(** The size of a directory that holds a shard is reported as zero, without an
    error, when the context is cancelled while the files are listed. *)
Example cancelled_size_reports_zero : (Size cfg (λ _, Some "context canceled"%string) disk1).1 = Ok 0 ∧ 0 < stored_bytes cfg (mem_files disk1).
Proof. split; [vm_cast_no_check (eq_refl (Ok 0 : result Z))|vm_cast_no_check (eq_refl Lt)]. Qed.
End StoreRuns.
