(* ===== verification/FibreServer.v ===== *)
(** * The fibre server

    [fibre/server.go], [fibre/server_upload.go], [fibre/server_download.go] and
    [fibre/server_prune.go]: a validator checks the promise and the rows of an
    upload, admits it against its storage budget, stores it and signs the
    promise; it serves stored shards and prunes expired ones. The handlers are
    given whole, and as goroutines that interleave at the lock, at the accesses
    of the counter and at the calls of the store. *)

From S2P Require Import Prelude Sdk Merkle Rlc ShardCodec Rsema1d ValidatorSet ShardAssignment FibrePromise FibreCache FibreBlobId ProtocolParams Blob.
From S2P Require Import Disk ShardStore Occupancy.
#[local] Open Scope Z_scope.

(** ** Configuration and surroundings *)

Record ServerConfig := mkServerConfig {
  sc_StoreConfig : StoreConfig;
  sc_LivenessThreshold : Fraction;
  sc_MinRowsPerValidator : Z;
  sc_OriginalRows : Z;
  sc_MaxShardSize : Z;
  sc_MaxMessageSize : Z;
  sc_UploadVerifyWorkers : Z;
  sc_UnlimitedBudget : bool;
}.

(** The fields of [NewServerConfigFromParams] that the handlers use; [procs] is
    [runtime.GOMAXPROCS(0)]. *)
Definition NewServerConfigFromParams `{Math} (procs : Z) (store : StoreConfig) (p : ProtocolParams) : result ServerConfig :=
  minRows ← MinRowsPerValidator p;
  maxShard ← MaxShardSize p;
  maxMessage ← MaxMessageSize p;
  Ok (mkServerConfig store (pp_LivenessThreshold p) minRows (pp_Rows p) maxShard maxMessage procs false).

(** [status.Error(c, msg)] as its text. *)
Inductive Code := InvalidArgument | Internal | ResourceExhausted | NotFoundCode | Canceled | DeadlineExceeded.

Definition code_text (c : Code) : string :=
  match c with
  | InvalidArgument => "InvalidArgument"
  | Internal => "Internal"
  | ResourceExhausted => "ResourceExhausted"
  | NotFoundCode => "NotFound"
  | Canceled => "Canceled"
  | DeadlineExceeded => "DeadlineExceeded"
  end.

Definition status_Error (c : Code) (msg : error) : error :=
  String.append "rpc error: code = " (String.append (code_text c) (String.append " desc = " msg)).

(** The result of the query that verifies a promise against the chain. *)
Record VerifiedPromise := mkVerifiedPromise { vp_ExpiresAt : Z; vp_ShardRetention : Z }.

(** What the handlers of one call read from the state client, the signer and
    the context of the call. *)
Record UploadEnv := mkUploadEnv {
  ue_ChainID : string;
  ue_VerifyPromise : result VerifiedPromise;
  ue_GetByHeight : result ValSet;
  ue_Address : result bytes;                       (* of the signer's public key *)
  ue_getVerifier : option error;                   (* the context ended first *)
  ue_put : PutEnv;
  ue_cause : option bool;                          (* the cause of the context: is it the deadline? *)
  ue_SignRawBytes : string → string → bytes → result bytes;
}.

Record UploadShardRequest := mkUploadShardRequest { ur_Promise : option PromiseProto; ur_Shard : option BlobShard }.

(** Replace the error of a call by the one that wraps it. *)
Definition wrap {A} (msg : error) (r : result A) : result A :=
  match r with Ok a => Ok a | Err _ => Err msg | Panic p => Panic p end.

(** ** Verification of an upload *)

Definition shardPruneAt (creationTimestamp expiresAt retention : Z) : Z :=
  let floor := creationTimestamp + retention in
  if expiresAt >? floor then expiresAt else floor.

(** A nil row panics where a field of it is read. *)
Definition row_field {A} (f : BlobRow → A) (row : option BlobRow) : result A :=
  match row with Some r => Ok (f r) | None => Panic "nil pointer dereference" end.

Fixpoint same_sizes (rowSize : nat) (rows : list (option BlobRow)) : result unit :=
  match rows with
  | [] => Ok tt
  | row :: rows' =>
      n ← row_field (λ r, length (row_Data r)) row;
      _ ← ensure (n =? rowSize)%nat "all rows must have the same size";
      same_sizes rowSize rows'
  end.

Definition parseRowSize (rows : list (option BlobRow)) : result nat :=
  match rows with
  | [] => Err "no rows provided"
  | row :: rows' =>
      rowSize ← row_field (λ r, length (row_Data r)) row;
      _ ← ensure (negb (rowSize =? 0)%nat) "row size cannot be zero";
      _ ← same_sizes rowSize rows';
      Ok rowSize
  end.

Definition parseRow (row : option BlobRow) : result RowProof :=
  match row with
  | None => Panic "nil pointer dereference"
  | Some row =>
      _ ← ensure (negb (length (row_Proof row) =? 0)%nat) "row missing proof";
      _ ← ensure (negb (length (row_Data row) =? 0)%nat) "row missing data";
      _ ← ensure (forallb (λ seg, Z.of_nat (length seg) =? NodeSize) (row_Proof row)) "row proof segment must be 32 bytes";
      Ok (mkRowProof (row_Index row) (row_Data row) (row_Proof row))
  end.

Fixpoint parseRows (rows : list (option BlobRow)) : result (list RowProof) :=
  match rows with
  | [] => Ok []
  | row :: rows' => p ← parseRow row; ps ← parseRows rows'; Ok (p :: ps)
  end.

Fixpoint row_indices (rows : list (option BlobRow)) : result (list Z) :=
  match rows with
  | [] => Ok []
  | row :: rows' => i ← row_field row_Index row; l ← row_indices rows'; Ok (i :: l)
  end.

Section Server.
Context `{CR : Crypto} `{GF : GF16} `{RS : ReedSolomon} `{PC : PromiseCodec} {W : Type} `{FS : !Vfs W} `{DB : !Pebble W}.
Context (order : nat → list nat) (procs : Z).

(** The random generator of the shuffle, and the configuration of version 0. *)
Context `{RG : Rng} (defaultV0 : BlobConfig) (cfg : ServerConfig).

Definition verifyPromise (env : UploadEnv) (promisePb : option PromiseProto)
  : result (PaymentPromise * BlobConfig * bytes * Z) :=
  promise ← wrap "invalid payment promise proto" (FromProto promisePb);
  _ ← ensure (String.eqb (ChainID promise) (ue_ChainID env)) "payment promise chain ID mismatch";
  blobCfg ← wrap "unsupported blob version" (BlobConfigForVersion defaultV0 (BlobVersion promise mod 256));
  _ ← wrap "payment promise validation failed" (Validate promise);
  verifyResult ← wrap "stateful validation" (ue_VerifyPromise env);
  promiseHash ← wrap "computing payment promise hash" (Hash promise);
  Ok (promise, blobCfg, promiseHash,
      shardPruneAt (CreationTimestamp promise) (vp_ExpiresAt verifyResult) (vp_ShardRetention verifyResult)).

(** The entry of a validator in the map that [Assign] returns, by its position
    in the set. *)
Definition shard_entry (valSet : ValSet) (shards : list (list Z)) (address : bytes) : option (list Z) :=
  '(i, _) ← list_find (λ v, val_Address v = address) (vs_Validators valSet); shards !! i.

Definition verifyAssignment (env : UploadEnv) (promise : PaymentPromise) (blobCfg : BlobConfig) (shard : BlobShard) : result unit :=
  valSet ← wrap "getting validator set" (ue_GetByHeight env);
  address ← wrap "getting validator public key" (ue_Address env);
  _ ← of_option "validator not in set" (GetByAddress valSet address);
  rowIndices ← row_indices (sh_Rows shard);
  shardMap ← Assign valSet (Commitment promise) (BlobConfig_TotalRows blobCfg) (bc_OriginalRows blobCfg)
               (sc_MinRowsPerValidator cfg) (sc_LivenessThreshold cfg);
  ShardAssignment.Verify (shard_entry valSet shardMap address) rowIndices.

(** The state of a server next to its disk: the idle verifiers and the
    occupancy counter. *)
Record Server := mkServer { srv_verifiers : list Verifier; srv_occ : occupancy }.

(** The checks of [verifyShard] before a verifier is needed. *)
Definition parse_upload (blobCfg : BlobConfig) (promise : PaymentPromise) (shard : BlobShard) : result (list RowProof * list (list Z)) :=
  rowSize ← parseRowSize (sh_Rows shard);
  _ ← ensure (negb ((0 <? bc_MaxRowSize blobCfg) && (bc_MaxRowSize blobCfg <? Z.of_nat rowSize))) "row size exceeds maximum";
  let expectedUploadSize := int_mul (Z.of_nat rowSize) (bc_OriginalRows blobCfg) in
  _ ← ensure (UploadSize promise =? expectedUploadSize) "upload size mismatch";
  let expectedRLCBytes := int_mul (bc_OriginalRows blobCfg) (Z.of_nat GF128Size) in
  _ ← ensure (Z.of_nat (length (sh_Rlcs shard)) =? expectedRLCBytes) "unexpected RLC bytes";
  rlcs ← Rlc_Unmarshal (sh_Rlcs shard);
  rows ← parseRows (sh_Rows shard);
  Ok (rows, rlcs).

(** A verifier is taken out of the pool, used and returned to its end. A call
    waits while the pool is empty, so that it goes on only when its context
    ends. *)
Definition verifyShard (env : UploadEnv) (blobCfg : BlobConfig) (promise : PaymentPromise) (shard : BlobShard) (verifiers : list Verifier)
  : result unit * list Verifier :=
  match parse_upload blobCfg promise shard with
  | Err e => (Err e, verifiers)
  | Panic p => (Panic p, verifiers)
  | Ok (rows, rlcs) =>
      match ue_getVerifier env, verifiers with
      | Some _, _ | None, [] => (Err "acquiring verifier", verifiers)
      | None, v :: rest =>
          let '(r, v') := Rsema1d.Verify order procs v (Commitment promise) (map Some rows) rlcs in
          (wrap "shard row verification failed" r, rest ++ [v'])
      end
  end.

Fixpoint newVerifierPool (n : nat) : result (list Verifier) :=
  match n with
  | O => Ok []
  | S n' =>
      match NewVerifier (mkConfig (bc_OriginalRows defaultV0) (bc_ParityRows defaultV0) 1) with
      | Ok v => vs ← newVerifierPool n'; Ok (v :: vs)
      | _ => Panic "creating verifier"
      end
  end.

(** [SignPaymentPromiseValidator]. *)
Definition SignPaymentPromiseValidator (sign : string → string → bytes → result bytes) (promise : PaymentPromise) : result bytes :=
  stripped ← wrap "getting stripped sign bytes" (strippedSignBytes promise);
  signature ← wrap "signing payment promise" (sign (ChainID promise) signBytesPrefix stripped);
  _ ← ensure (length signature =? 64)%nat "invalid signature length";
  Ok signature.

(** The part of [UploadShard] before the lock: the promise, its hash, the shard
    and the prune time of an upload that passed every check. *)
Record verified_upload := mkVerifiedUpload { vu_promise : PaymentPromise; vu_hash : bytes; vu_shard : BlobShard; vu_pruneAt : Z }.

Definition verify_upload (env : UploadEnv) (req : UploadShardRequest) (verifiers : list Verifier)
  : result verified_upload * list Verifier :=
  match wrap (status_Error InvalidArgument "payment promise verification failed") (verifyPromise env (ur_Promise req)) with
  | Err e => (Err e, verifiers)
  | Panic p => (Panic p, verifiers)
  | Ok (promise, blobCfg, promiseHash, pruneAt) =>
      match ur_Shard req with
      | None => (Err (status_Error InvalidArgument "shard is required"), verifiers)
      | Some shard =>
          match wrap (status_Error InvalidArgument "shard assignment verification failed") (verifyAssignment env promise blobCfg shard) with
          | Err e => (Err e, verifiers)
          | Panic p => (Panic p, verifiers)
          | Ok _ =>
              let '(r, verifiers) := verifyShard env blobCfg promise shard verifiers in
              (_ ← wrap (status_Error InvalidArgument "shard verification failed") r; Ok (mkVerifiedUpload promise promiseHash shard pruneAt), verifiers)
          end
      end
  end.

(** ** Admission and storage *)

Definition cancellationCode (deadline : bool) : Code := if deadline then DeadlineExceeded else Canceled.

(** A call of the store, and one of the counter. *)
Definition on_store {A} (m : IO W A) : IO (Server * W) A := λ '(s, w),
  let '(r, w') := m w in (r, (s, w')).
Definition on_occ {A} (f : occupancy → A * occupancy) : IO (Server * W) A := λ '(s, w),
  let '(a, o) := f (srv_occ s) in (Ok a, (mkServer (srv_verifiers s) o, w)).

Definition put_error (env : UploadEnv) : error :=
  match ue_cause env with
  | Some deadline => status_Error (cancellationCode deadline) "store upload aborted"
  | None => status_Error Internal "failed to store upload data"
  end.

Definition store_upload (env : UploadEnv) (u : verified_upload) : IO (Server * W) unit :=
  size ← pure (shardBinarySize (vu_shard u));
  reserved ← on_occ (reserve size);
  if negb reserved then pure (Err (status_Error ResourceExhausted "fibre storage budget exceeded"))
  else
    r ← attempt (on_store (Put (sc_StoreConfig cfg) (ue_put env) (vu_promise u) (vu_shard u) (vu_pruneAt u)));
    match r with
    | inr _ => mret tt
    | inl _ => _ ← on_occ (λ o, (tt, release size o)); pure (Err (put_error env))
    end.

(** The stripe of the lock that serializes identical uploads. *)
Definition uploadLock (promiseHash : bytes) : result Z := index promiseHash 0.

(** What [UploadShard] does under the lock. *)
Definition admit_upload (env : UploadEnv) (u : verified_upload) : IO (Server * W) bytes :=
  _ ← pure (uploadLock (vu_hash u));
  has ← wrap_err (status_Error Internal "failed to check if store has the commitment")
          (on_store (Has (sc_StoreConfig cfg) (Commitment (vu_promise u)) (vu_hash u)));
  _ ← (if negb has then store_upload env u else mret tt);
  wrap_err (status_Error Internal "failed to sign payment promise")
    (pure (SignPaymentPromiseValidator (ue_SignRawBytes env) (vu_promise u))).

Definition UploadShard (env : UploadEnv) (req : UploadShardRequest) : IO (Server * W) bytes := λ '(s, w),
  match verify_upload env req (srv_verifiers s) with
  | (Err e, vs) => (Err e, (mkServer vs (srv_occ s), w))
  | (Panic p, vs) => (Panic p, (mkServer vs (srv_occ s), w))
  | (Ok u, vs) => admit_upload env u (mkServer vs (srv_occ s), w)
  end.

(** ** Uploads in flight

    [UploadShard] under the lock as a goroutine: it waits for its stripe, asks
    the store, reserves the size in the steps of [reserve], stores, takes the
    reservation back when storing failed, signs and unlocks. *)

Inductive stage :=
  | UWaiting
  | UHolding
  | UReserving (c : call)
  | UStoring (size : Z)
  | UFailing (size : Z)
  | USigning
  | ULeaving (r : result bytes)
  | UEnded (r : result bytes).

Record upload := mkUpload { up_env : UploadEnv; up_data : verified_upload; up_stage : stage }.

(** What the goroutines share. *)
Record shared := mkShared { so_occ : occupancy; so_disk : W; so_locks : gset Z }.

Definition at_stage (t : upload) (st : stage) : upload := mkUpload (up_env t) (up_data t) st.
Definition set_disk (s : shared) (w : W) : shared := mkShared (so_occ s) w (so_locks s).
Definition set_occ (s : shared) (o : occupancy) : shared := mkShared o (so_disk s) (so_locks s).

Definition reserved_stage (c : call) : stage :=
  match c with
  | Granted n => UStoring n
  | Rejected => ULeaving (Err (status_Error ResourceExhausted "fibre storage budget exceeded"))
  | c => UReserving c
  end.

Definition upload_step (t : upload) (s : shared) : option (result (upload * shared)) :=
  let u := up_data t in
  let go st s := Some (Ok (at_stage t st, s)) in
  match up_stage t with
  | UWaiting =>
      match uploadLock (vu_hash u) with
      | Ok k => if decide (k ∈ so_locks s) then None else go UHolding (mkShared (so_occ s) (so_disk s) ({[k]} ∪ so_locks s))
      | Err e => Some (Err e)
      | Panic p => Some (Panic p)
      end
  | UHolding =>
      let '(r, w) := Has (sc_StoreConfig cfg) (Commitment (vu_promise u)) (vu_hash u) (so_disk s) in
      match r with
      | Ok true => go USigning (set_disk s w)
      | Ok false =>
          match shardBinarySize (vu_shard u) with
          | Ok n => go (UReserving (Reserving n)) (set_disk s w)
          | Err e => go (ULeaving (Err e)) (set_disk s w)
          | Panic p => Some (Panic p)
          end
      | Err _ => go (ULeaving (Err (status_Error Internal "failed to check if store has the commitment"))) (set_disk s w)
      | Panic p => Some (Panic p)
      end
  | UReserving c =>
      match reserve_step c (so_occ s) with
      | Some (c', o) => go (reserved_stage c') (set_occ s o)
      | None => None
      end
  | UStoring n =>
      let '(r, w) := Put (sc_StoreConfig cfg) (ue_put (up_env t)) (vu_promise u) (vu_shard u) (vu_pruneAt u) (so_disk s) in
      match r with
      | Ok _ => go USigning (set_disk s w)
      | Err _ => go (UFailing n) (set_disk s w)
      | Panic p => Some (Panic p)
      end
  | UFailing n => go (ULeaving (Err (put_error (up_env t)))) (set_occ s (release n (so_occ s)))
  | USigning =>
      match SignPaymentPromiseValidator (ue_SignRawBytes (up_env t)) (vu_promise u) with
      | Ok signature => go (ULeaving (Ok signature)) s
      | Err _ => go (ULeaving (Err (status_Error Internal "failed to sign payment promise"))) s
      | Panic p => Some (Panic p)
      end
  | ULeaving r =>
      match uploadLock (vu_hash u) with
      | Ok k => go (UEnded r) (mkShared (so_occ s) (so_disk s) (so_locks s ∖ {[k]}))
      | Err e => Some (Err e)
      | Panic p => Some (Panic p)
      end
  | UEnded _ => None
  end.

(** Run an upload to its end without interruption. *)
Fixpoint run_upload (fuel : nat) (t : upload) (s : shared) : result (upload * shared) :=
  match fuel with
  | O => Ok (t, s)
  | S f => match upload_step t s with
           | Some (Ok (t', s')) => run_upload f t' s'
           | Some (Err e) => Err e
           | Some (Panic p) => Panic p
           | None => Ok (t, s)
           end
  end.

(** ** Downloads, pruning and the budget *)

Definition DownloadShard (blobId : bytes) : IO (Server * W) BlobShard :=
  id ← wrap_err (status_Error InvalidArgument "invalid blob ID") (pure (BlobID_UnmarshalBinary blobId));
  version ← pure (BlobID_Version id);
  _ ← wrap_err (status_Error InvalidArgument "unsupported blob version") (pure (BlobConfigForVersion defaultV0 version));
  commitment ← pure (BlobID_Commitment id);
  r ← attempt (on_store (Get (sc_StoreConfig cfg) commitment));
  match r with
  | inr shard => mret shard
  | inl e => pure (Err (if String.eqb e ErrStoreNotFound then status_Error NotFoundCode "no blob shard found for commitment"
                        else status_Error Internal "failed to retrieve blob shard"))
  end.

(** [now] is the reading of the clock. *)
Definition prune (now : Z) : IO (Server * W) PruneResult :=
  r ← on_store (PruneBefore (sc_StoreConfig cfg) now);
  _ ← (if 0 <? pr_bytes r then on_occ (λ o, (tt, release (pr_bytes r) o)) else mret tt);
  mret r.

(** [bits.Mul64] and [bits.Div64], which panics when the quotient overflows. *)
Definition bits_Mul64 (x y : Z) : Z * Z := ((x * y) / two64, (x * y) mod two64).
Definition bits_Div64 (hi lo y : Z) : result (Z * Z) :=
  if y =? 0 then Panic "integer divide by zero"
  else if y <=? hi then Panic "integer overflow"
  else Ok ((hi * two64 + lo) / y, (hi * two64 + lo) mod y).

Definition deriveBudget (fullStake assignedRows originalRows : Z) : result Z :=
  if (fullStake <=? 0) || (assignedRows <=? 0) || (originalRows <=? 0) then Ok 0
  else
    let '(hi, lo) := bits_Mul64 (wrap_u64 fullStake) (wrap_u64 assignedRows) in
    '(quo, _) ← bits_Div64 hi lo (wrap_u64 originalRows);
    Ok (wrap_i64 quo).

(** The answers of the state client and the signer to a recomputation; the
    warnings it logs have no other effect. *)
Definition recomputeBudget (budget : result Z) (head : result ValSet) (address : result bytes) (o : occupancy) : result unit * occupancy :=
  if sc_UnlimitedBudget cfg then (Ok tt, setBudget 0 o)
  else
    match
      fullStake ← wrap "querying full-stake storage budget" budget;
      _ ← ensure (0 <? fullStake) "full-stake storage budget must be positive";
      valSet ← wrap "fetching head validator set" head;
      key ← wrap "getting validator public key" address;
      match GetByAddress valSet key with
      | None => Ok None
      | Some ourVal =>
          assignedRows ← AssignedRows valSet ourVal (sc_OriginalRows cfg) (sc_MinRowsPerValidator cfg) (sc_LivenessThreshold cfg);
          b ← deriveBudget fullStake assignedRows (sc_OriginalRows cfg);
          Ok (Some b)
      end
    with
    | Ok None => (Ok tt, o)
    | Ok (Some b) => (Ok tt, setBudget b o)
    | Err e => (Err e, o)
    | Panic p => (Panic p, o)
    end.

(** [Start] from the opening of the store on: the directory is measured and the
    budget derived. *)
Definition Start (opened : option error) (ctxErr : bytes → option error) (budget : result Z) (head : result ValSet) (address : result bytes)
  : IO (Server * W) unit :=
  _ ← wrap_err "opening store" (on_store (openStore (sc_StoreConfig cfg) opened));
  size ← wrap_err "getting store size" (on_store (Size (sc_StoreConfig cfg) ctxErr));
  _ ← on_occ (λ o, (tt, seed size o));
  r ← on_occ (recomputeBudget budget head address);
  wrap_err "deriving initial storage budget" (pure r).

Definition NewServer : result Server :=
  vs ← newVerifierPool (Z.to_nat (sc_UploadVerifyWorkers cfg));
  Ok (mkServer vs (newOccupancy 0)).
End Server.
