(* ===== verification/FibreServerProofs.v ===== *)
(** * What a fibre server verifies

    The consequences of a verified upload: its promise, its rows and its prune
    time; and what the store needs of it. *)

From S2P Require Import Prelude Sdk Merkle MerkleProofs Rlc RlcProofs ShardCodec Rsema1d Rsema1dProofs ValidatorSet ShardAssignment FibrePromise FibreCache FibreBlobId ProtocolParams Blob Download DownloadProofs.
From S2P Require Import Disk ShardStore ShardStoreKeys ShardStoreProofs ShardStorePrune ShardStoreTrace Occupancy FibreServer.
#[local] Open Scope Z_scope.

Lemma wrap_Ok {A} msg (r : result A) a : wrap msg r = Ok a ↔ r = Ok a.
Proof. destruct r; cbn; split; intros H; (done || discriminate). Qed.

(** ** Rows *)

Lemma parseRows_Ok rows : ∀ ps, parseRows rows = Ok ps → rows = map (Some ∘ row_of) ps ∧
  Forall (λ p, Forall (λ seg, Z.of_nat (length seg) = NodeSize) (rp_RowProof p)) ps.
Proof.
  induction rows as [|row rows IH]; intros ps H; [injection H as <-; by repeat constructor|]. cbn in H. apply bind_Ok in H as (p & Hp & H).
  apply bind_Ok in H as (ps' & Hps & [= <-]). destruct (IH _ Hps) as [-> HF]. destruct row as [[i d pf]|]; [|done]. unfold parseRow in Hp.
  cbn [row_Index row_Data row_Proof] in Hp. apply bind_Ok in Hp as ([] & _ & Hp). apply bind_Ok in Hp as ([] & _ & Hp). apply bind_Ok in Hp as ([] & Hs%ensure_Ok & [= <-]).
  split; [done|]. constructor; [|done]. cbn. apply Forall_forall. intros seg Hin. apply Z.eqb_eq.
  exact (proj1 (forallb_forall _ _) Hs seg (proj1 (list_elem_of_In _ _) Hin)).
Qed.

Lemma row_indices_of ps : row_indices (map (Some ∘ row_of) ps) = Ok (map rp_Index ps).
Proof. induction ps as [|p ps IH]; [done|]. cbn. by rewrite IH. Qed.

Lemma same_sizes_of n ps : same_sizes n (map (Some ∘ row_of) ps) = Ok tt → Forall (λ p, length (rp_Row p) = n) ps.
Proof.
  induction ps as [|p ps IH]; [constructor|]. cbn. intros H. apply bind_Ok in H as ([] & E%ensure_Ok & H). constructor; [by apply Nat.eqb_eq|by apply IH].
Qed.

Lemma parseRowSize_of ps n : parseRowSize (map (Some ∘ row_of) ps) = Ok n → ps ≠ [] ∧ (0 < n)%nat ∧ Forall (λ p, length (rp_Row p) = n) ps.
Proof.
  destruct ps as [|p ps]; [done|]. cbn. intros H. apply bind_Ok in H as ([] & E%ensure_Ok & H). apply bind_Ok in H as ([] & HS & [= <-]).
  split; [done|]. split; [|constructor; [done|by apply same_sizes_of]]. apply negb_true_iff, Nat.eqb_neq in E. lia.
Qed.

(** The rows a validator accepts are the rows assigned to it, each once. *)
Lemma assigned_false rows : ∀ (m : gmap Z bool) r,
  fold_left (λ m idx, <[wrap_u32 idx := false]> m) rows m !! r = Some false → r ∈ map wrap_u32 rows ∨ m !! r = Some false.
Proof.
  induction rows as [|x rows IH]; intros m r; cbn [fold_left map]; [by right|]. intros [H|H]%IH; [left; by right|].
  destruct (decide (wrap_u32 x = r)) as [<-|Hne]; [left; by left|]. rewrite lookup_insert_ne in H by done. by right.
Qed.

Lemma Verify_assigned entry idxs : ShardAssignment.Verify entry idxs = Ok tt → ∃ rows, entry = Some rows ∧ NoDup idxs ∧ idxs ≡ₚ map wrap_u32 rows.
Proof.
  unfold ShardAssignment.Verify. destruct entry as [rows|]; [|done]. intros H. apply bind_Ok in H as ([] & El%ensure_Ok%Nat.eqb_eq & H).
  apply verify_loop_Ok in H as [Hnd Hin]. exists rows. split; [done|]. split; [done|].
  apply submseteq_length_Permutation; [|rewrite length_map; lia]. apply NoDup_submseteq; [done|]. intros r Hr.
  destruct (assigned_false rows ∅ r (Hin r Hr)) as [|E]; [done|]. by rewrite lookup_empty in E.
Qed.

(** ** The budget *)

(** The budget is the share of the full-stake budget, rounded down, without
    overflow; it does not exceed the full-stake budget. *)
Lemma deriveBudget_exact fullStake rows total : 0 < fullStake < two63 → 0 < rows <= total → total < two63 →
  deriveBudget fullStake rows total = Ok (fullStake * rows / total) ∧ 0 <= fullStake * rows / total <= fullStake.
Proof.
  intros Hf Hr Ht. assert (0 <= fullStake * rows / total <= fullStake) as Hq.
  { split; [apply Z.div_pos; nia|]. apply Z.div_le_upper_bound; nia. }
  split; [|done]. unfold deriveBudget. destruct (Z.leb_spec fullStake 0); [lia|]. destruct (Z.leb_spec rows 0); [lia|]. destruct (Z.leb_spec total 0); [lia|]. cbn [orb].
  rewrite !wrap_u64_id by (unfold u64, two64, two63 in *; lia). unfold bits_Mul64, bits_Div64.
  destruct (Z.eqb_spec total 0); [lia|]. assert (fullStake * rows / two64 < total) as Hhi.
  { apply Z.div_lt_upper_bound; [done|]. unfold two63, two64 in *. nia. }
  destruct (Z.leb_spec total (fullStake * rows / two64)); [lia|]. cbn [mbind result_bind].
  rewrite (Z.mul_comm _ two64), <- Z.div_mod by done. rewrite wrap_i64_id; [done|]. unfold i64, two63 in *. lia.
Qed.

(** The prune time is not before the end of the promise, nor of the retention. *)
Lemma shardPruneAt_late c e r : e <= shardPruneAt c e r ∧ c + r <= shardPruneAt c e r ∧ (shardPruneAt c e r = e ∨ shardPruneAt c e r = c + r).
Proof. unfold shardPruneAt. rewrite Z.gtb_ltb. destruct (Z.ltb_spec (c + r) e); lia. Qed.

(** ** Verified uploads *)

Section Vetted.
Context `{CR : Crypto} `{SL : !Sha256Laws} `{GF : GF16} `{GL : !GF16Laws} `{RS : ReedSolomon} `{RG : Rng}.
Context (order : nat → list nat) (Horder : order_ok order) (procs : Z) (defaultV0 : BlobConfig) (cfg : ServerConfig) (a b : nat).

(** The configuration of the pooled verifiers. *)
Definition vcfg : Config := mkConfig (bc_OriginalRows defaultV0) (bc_ParityRows defaultV0) 1.

Context (Hshape : shape vcfg a b) `{RL : !ReedSolomonLaws (cfg_K vcfg) (cfg_N vcfg)} (Hmax : 0 < bc_MaxRowSize defaultV0 <= shardLengthLimit).

(** A request as it comes from the wire. *)
Definition request_ok (req : UploadShardRequest) : Prop :=
  (∀ pb, ur_Promise req = Some pb → Forall byte_ok (pb_Commitment pb)) ∧ (∀ sh, ur_Shard req = Some sh → wire_ok sh).

(** A client that parses the shard gets rows that open to the commitment. *)
Definition opens (c : bytes) (shard : BlobShard) : Prop := ∃ ps rlc rowRoot rlcRoot rowSize shards,
  parseShard (Some shard) (bc_OriginalRows defaultV0) = Ok (ps, rlc) ∧ bytes_ok ps ∧ Forall coeff_ok rlc ∧
  batch_accepted vcfg b c rlc ps rowRoot rlcRoot rowSize shards.

(** The rows of the shard are those assigned to the validator. *)
Definition assigned_rows (env : UploadEnv) (u : verified_upload) : Prop := ∃ valSet address shards rows idxs,
  ue_GetByHeight env = Ok valSet ∧ ue_Address env = Ok address ∧
  Assign valSet (Commitment (vu_promise u)) (BlobConfig_TotalRows defaultV0) (bc_OriginalRows defaultV0)
    (sc_MinRowsPerValidator cfg) (sc_LivenessThreshold cfg) = Ok shards ∧
  shard_entry valSet shards address = Some rows ∧ row_indices (sh_Rows (vu_shard u)) = Ok idxs ∧ NoDup idxs ∧ idxs ≡ₚ map wrap_u32 rows.

Record vetted (env : UploadEnv) (u : verified_upload) : Prop := {
  vt_chain : ChainID (vu_promise u) = ue_ChainID env;
  vt_valid : Validate (vu_promise u) = Ok tt;
  vt_hash : Hash (vu_promise u) = Ok (vu_hash u);
  vt_time : ∃ v, ue_VerifyPromise env = Ok v ∧
    vu_pruneAt u = shardPruneAt (CreationTimestamp (vu_promise u)) (vp_ExpiresAt v) (vp_ShardRetention v);
  vt_assigned : assigned_rows env u;
  vt_opens : opens (Commitment (vu_promise u)) (vu_shard u);
  vt_size : ∃ rowSize, UploadSize (vu_promise u) = Z.of_nat rowSize * bc_OriginalRows defaultV0 ∧ Z.of_nat rowSize <= bc_MaxRowSize defaultV0 ∧
    Forall (λ row, from_option (λ r, length (row_Data r) = rowSize) False row) (sh_Rows (vu_shard u));
  vt_fits : shard_ok (vu_shard u);
  vt_id : id_ok (Commitment (vu_promise u)) (vu_hash u);
}.

Lemma shape_bounds : 0 < cfg_K vcfg < 2 ^ 16 ∧ 0 < cfg_N vcfg ∧ cfg_K vcfg + cfg_N vcfg <= 2 ^ 16 ∧ (b <= 16)%nat.
Proof.
  destruct (shape_nat _ _ _ Hshape) as (_ & _ & ? & ? & _). pose proof (shape_total _ _ _ Hshape). pose proof (shape_lt _ _ _ Hshape).
  assert (2 ^ Z.of_nat b <= 2 ^ 16) by (apply Z.pow_le_mono_r; lia). lia.
Qed.

(** Distinct rows of the code are few. *)
Lemma distinct_rows_bound ps : NoDup (map rp_Index ps) → Forall (λ p, 0 <= rp_Index p < cfg_K vcfg + cfg_N vcfg) ps →
  Z.of_nat (length ps) <= cfg_K vcfg + cfg_N vcfg.
Proof.
  intros Hnd HF. set (n := Z.to_nat (cfg_K vcfg + cfg_N vcfg)). pose proof shape_bounds as HB.
  assert (map rp_Index ps ⊆+ map Z.of_nat (seq 0 n)) as Hs.
  { apply NoDup_submseteq; [done|]. intros i Hi. apply list_elem_of_In, in_map_iff in Hi as (p & <- & Hp%list_elem_of_In).
    pose proof (proj1 (Forall_forall _ _) HF p Hp) as Hr. cbn beta in Hr. apply list_elem_of_In, in_map_iff. exists (Z.to_nat (rp_Index p)). split; [lia|].
    apply list_elem_of_In, elem_of_seq. unfold n. lia. }
  apply submseteq_length in Hs. rewrite !length_map, length_seq in Hs. unfold n in Hs. lia.
Qed.

Lemma parse_rows_of ps : parse_rows (map (Some ∘ row_of) ps) = Ok ps.
Proof. induction ps as [|[i row pf] ps IH]; [done|]. cbn. by rewrite IH. Qed.

Lemma parse_upload_Ok promise shard ps rlc : parse_upload defaultV0 promise shard = Ok (ps, rlc) → ∃ n,
  sh_Rows shard = map (Some ∘ row_of) ps ∧ Rlc_Unmarshal (sh_Rlcs shard) = Ok rlc ∧ ps ≠ [] ∧ (0 < n)%nat ∧ Forall (λ p, length (rp_Row p) = n) ps ∧
  Forall (λ p, Forall (λ seg, Z.of_nat (length seg) = NodeSize) (rp_RowProof p)) ps ∧ Z.of_nat n <= bc_MaxRowSize defaultV0 ∧
  UploadSize promise = Z.of_nat n * bc_OriginalRows defaultV0 ∧
  (Z.of_nat (length (sh_Rlcs shard)) =? int_mul (bc_OriginalRows defaultV0) (Z.of_nat GF128Size)) = true.
Proof.
  intros H. unfold parse_upload in H. apply bind_Ok in H as (n & Hn & H). apply bind_Ok in H as ([] & Hle%ensure_Ok & H).
  apply bind_Ok in H as ([] & Hup%ensure_Ok & H). apply bind_Ok in H as ([] & Hrl%ensure_Ok & H). apply bind_Ok in H as (rlc' & Hun & H).
  apply bind_Ok in H as (ps' & Hps & [= <- <-]). destruct (parseRows_Ok _ _ Hps) as [Hrows Hseg]. rewrite Hrows in Hn.
  destruct (parseRowSize_of _ _ Hn) as (Hne & Hpos & HF). exists n. apply negb_true_iff, andb_false_iff in Hle.
  assert (Z.of_nat n <= bc_MaxRowSize defaultV0) as Hlen by (destruct Hle as [?%Z.ltb_ge|?%Z.ltb_ge]; lia).
  split_and!; try done. apply Z.eqb_eq in Hup. rewrite Hup. pose proof shape_bounds as (HB & _). cbn [cfg_K vcfg] in HB. destruct Hmax as [_ Hm].
  unfold shardLengthLimit in Hm. rewrite Z.shiftl_mul_pow2 in Hm by lia. unfold int_mul. apply wrap_i64_id. unfold i64, two63. nia.
Qed.

(** The checks of the shard, from its parsing to its verification. *)
Lemma verifyShard_spec env promise shard vs r vs' : wire_ok shard → Forall (λ v, v_config v = vcfg) vs →
  verifyShard order procs env defaultV0 promise shard vs = (r, vs') →
  Forall (λ v, v_config v = vcfg) vs' ∧
  (r = Ok tt → ∃ ps rlc rr rl n sh, sh_Rows shard = map (Some ∘ row_of) ps ∧
     parse_upload defaultV0 promise shard = Ok (ps, rlc) ∧ Forall coeff_ok rlc ∧ bytes_ok ps ∧
     batch_accepted vcfg b (Commitment promise) rlc ps rr rl n sh).
Proof.
  intros [Hwr Hwl] Hvs H. unfold verifyShard in H. destruct (parse_upload defaultV0 promise shard) as [[ps rlc]|e|p] eqn:EP;
    [|injection H as <- <-; split; [done|discriminate]..].
  destruct (ue_getVerifier env); [injection H as <- <-; split; [done|discriminate]|].
  destruct vs as [|v rest]; [injection H as <- <-; split; [done|discriminate]|]. apply Forall_cons in Hvs as [Hv Hvs].
  destruct (parse_upload_Ok _ _ _ _ EP) as (n0 & Hrows & Hun & _).
  assert (Forall coeff_ok rlc) as Hrlc by (by apply (proj2 (Rlc_Unmarshal_spec _ Hwl))).
  assert (bytes_ok ps) as Hb.
  { rewrite Hrows in Hwr. apply Forall_map in Hwr. eapply Forall_impl; [exact Hwr|]. by intros p. }
  assert (proofs_ok (map Some ps)) as Hpok by (unfold proofs_ok; by rewrite omap_id_Some).
  pose proof (Verify_accepts order Horder vcfg a b Hshape procs v (Commitment promise) (map Some ps) rlc Hv Hrlc Hpok) as HV.
  destruct (Rsema1d.Verify order procs v (Commitment promise) (map Some ps) rlc) as [res v']. injection H as <- <-. destruct HV as (Hv' & _ & Hok). split.
  - apply Forall_app. split; [done|by constructor].
  - intros E%wrap_Ok. destruct (Hok E) as (ps' & rr & rl & n & sh & Eps & HA & _).
    apply (inj (map Some)) in Eps. subst ps'. exists ps, rlc, rr, rl, n, sh. done.
Qed.

Lemma verified_fits promise shard ps rlc rr rl n sh : parse_upload defaultV0 promise shard = Ok (ps, rlc) → NoDup (map rp_Index ps) →
  batch_accepted vcfg b (Commitment promise) rlc ps rr rl n sh → shard_ok shard.
Proof.
  intros HP Hnd HA. destruct (parse_upload_Ok _ _ _ _ HP) as (m & Hrows & _ & _ & _ & Hsz & Hseg & Hle & _ & Hrl).
  pose proof shape_bounds as HB. exists (map row_of ps). rewrite map_map. split; [done|].
  pose proof (ba_rows _ _ _ _ _ _ _ _ _ HA) as Hacc.
  assert (shardLengthLimit = 2 ^ 30 ∧ maxShardRows = 2 ^ 16 ∧ NodeSize = 32) as (E1 & E2 & E3) by done.
  split.
  - apply Z.eqb_eq in Hrl. rewrite Hrl. unfold int_mul. cbn [cfg_K cfg_N vcfg] in HB. rewrite wrap_i64_id; unfold i64, two63, GF128Size, GF128Width; lia.
  - rewrite length_map. pose proof (distinct_rows_bound ps Hnd) as Hd. rewrite E2.
    assert (Forall (λ p, 0 <= rp_Index p < cfg_K vcfg + cfg_N vcfg) ps) by (eapply Forall_impl; [exact Hacc|]; intros p Hp; apply Hp). specialize (Hd H). lia.
  - apply Forall_map, Forall_forall. intros p Hp. pose proof (proj1 (Forall_forall _ _) Hacc p Hp) as Ha.
    pose proof (proj1 (Forall_forall _ _) Hsz p Hp) as Hs. pose proof (proj1 (Forall_forall _ _) Hseg p Hp) as Hg. cbn beta in Hs, Hg.
    pose proof (ra_index _ _ _ _ _ _ Ha). pose proof (ra_depth _ _ _ _ _ _ Ha) as Hdep. split; cbn [row_of row_Index row_Data row_Proof].
    + unfold u32, two32. lia.
    + lia.
    + unfold maxRowProofSegments. lia.
    + eapply Forall_impl; [exact Hg|]. intros seg ->. rewrite E1, E3. lia.
Qed.

Lemma FromProto_commitment pb p : FromProto (Some pb) = Ok p → Commitment p = pb_Commitment pb ∧ length (pb_Commitment pb) = CommitmentSize.
Proof.
  unfold FromProto. intros H. apply bind_Ok in H as (? & _ & H). apply bind_Ok in H as ([] & E%ensure_Ok%Nat.eqb_eq & [= <-]). done.
Qed.

(** What an upload that passes the checks satisfies. *)
Lemma verify_upload_spec env req vs r vs' : request_ok req → Forall (λ v, v_config v = vcfg) vs →
  verify_upload order procs defaultV0 cfg env req vs = (r, vs') →
  Forall (λ v, v_config v = vcfg) vs' ∧ ∀ u, r = Ok u → ur_Shard req = Some (vu_shard u) ∧ FromProto (ur_Promise req) = Ok (vu_promise u) ∧ vetted env u.
Proof.
  intros [Hp Hs] Hvs H. unfold verify_upload in H.
  destruct (wrap _ (verifyPromise _ _ _)) as [[[[promise bc] h] t]|e|p] eqn:EV; [|injection H as <- <-; split; [done|discriminate]..].
  apply wrap_Ok in EV. destruct (ur_Shard req) as [shard|] eqn:Es; [|injection H as <- <-; split; [done|discriminate]].
  unfold verifyPromise in EV. apply bind_Ok in EV as (pr & Hpr%wrap_Ok & EV). apply bind_Ok in EV as ([] & Hch%ensure_Ok & EV).
  apply bind_Ok in EV as (bc' & Hbc%wrap_Ok & EV). apply bind_Ok in EV as ([] & Hval%wrap_Ok & EV). apply bind_Ok in EV as (v & Hv%wrap_Ok & EV).
  apply bind_Ok in EV as (h' & Hh%wrap_Ok & [= <- <- <- <-]).
  assert (bc' = defaultV0) as -> by (unfold BlobConfigForVersion in Hbc; destruct (_ =? 0); by inversion Hbc).
  destruct (wrap _ (verifyAssignment _ _ _ _ _)) as [[]|e|p] eqn:EA; [|injection H as <- <-; split; [done|discriminate]..]. apply wrap_Ok in EA.
  destruct (verifyShard order procs env defaultV0 pr shard vs) as [rs vs1] eqn:ES. injection H as <- <-.
  destruct (verifyShard_spec env pr shard vs rs vs1 (Hs _ eq_refl) Hvs ES) as [Hvs1 Hok]. split; [done|].
  intros u Hu. apply bind_Ok in Hu as ([] & Hrs%wrap_Ok & [= <-]). split; [done|]. split; [done|].
  destruct (Hok Hrs) as (ps & rlc & rr & rl & n & sh & Hrows & HP & Hrlc & Hb & HA).
  destruct (parse_upload_Ok _ _ _ _ HP) as (m & _ & Hun & Hne & Hpos & Hsz & Hseg & Hle & Hup & Hrl).
  unfold verifyAssignment in EA. apply bind_Ok in EA as (valSet & Hvset%wrap_Ok & EA). apply bind_Ok in EA as (address & Had%wrap_Ok & EA).
  apply bind_Ok in EA as (val & _ & EA). apply bind_Ok in EA as (idxs & Hidx & EA). apply bind_Ok in EA as (shardMap & Has & EA).
  destruct (Verify_assigned _ _ EA) as (rows & Hen & Hnd & Hperm).
  assert (idxs = map rp_Index ps) as -> by (rewrite Hrows, row_indices_of in Hidx; congruence).
  split; cbn [vu_promise vu_hash vu_shard vu_pruneAt]; try done.
  - by apply String.eqb_eq.
  - by exists v.
  - exists valSet, address, shardMap, rows, (map rp_Index ps). by split_and!.
  - exists ps, rlc, rr, rl, n, sh. split_and!; try done. unfold parseShard. rewrite Hrows, length_map, parse_rows_of, Hrl, Hun.
    destruct (Nat.eqb_spec (length ps) 0) as [E|_]; [by destruct ps|]. done.
  - exists m. split_and!; try done. rewrite Hrows. apply Forall_map. eapply Forall_impl; [exact Hsz|]. done.
  - by eapply verified_fits.
  - destruct (ur_Promise req) as [pb|] eqn:Epb; [|discriminate]. destruct (FromProto_commitment _ _ Hpr) as [-> Hl]. split; [done|by apply Hp|].
    unfold Hash in Hh. apply bind_Ok in Hh as (? & _ & Hh). apply bind_Ok in Hh as (? & _ & [= <-]). apply sha256_bytes.
Qed.
End Vetted.
