(* ===== verification/FibreServerNode.v ===== *)
(** * The life of a fibre server

    Uploads in flight, downloads, pruning, changes of the budget, restarts and
    crashes of one server, as steps that interleave; and what holds in every state: the
    stripes of the lock are held by one upload each, the files hold verified
    shards, and what was acknowledged is stored until pruning passes a prune
    time of its promise. Every call of the disk may fail. *)

From S2P Require Import Prelude Sdk Merkle MerkleProofs Rlc RlcProofs ShardCodec Rsema1d Rsema1dProofs ValidatorSet ShardAssignment FibrePromise FibreCache FibreBlobId ProtocolParams Blob Download DownloadProofs.
From S2P Require Import Disk ShardStore ShardStoreKeys ShardStoreProofs ShardStorePrune ShardStoreTrace Timestamp Occupancy FibreServer FibreServerProofs.
#[local] Open Scope Z_scope.

(** ** Effects of a fibre server on its disk

    What each call of the store adds to the shards on disk and what it may
    lose, when every call of the disk may fail. *)

(** The promise an upload is for. *)
Definition names (u : verified_upload) (c h : bytes) : Prop := Commitment (vu_promise u) = c ∧ vu_hash u = h.

Section Effects.
Context `{CR : Crypto} `{PC : PromiseCodec} `{PL : !PromiseCodecLaws} {W : Type} `{FS : !Vfs W} `{DB : !Pebble W} `{DL : !DiskLaws W}.
Context (cfg : StoreConfig).

Abbreviation on_disk w := (stored cfg (files w) (kvs w)).

(** What a call may add, the shard of one upload, and what it may lose. *)
Record effect (new : option verified_upload) (lost : bytes → bytes → Prop) (w w' : W) : Prop := {
  ef_ok : store_ok cfg w';
  ef_files c h d : id_ok c h → files w' !! shardFilePath cfg c h = Some d →
    files w !! shardFilePath cfg c h = Some d ∨ ∃ u, new = Some u ∧ names u c h ∧ d = shard_bytes (vu_shard u);
  ef_index t c h : id_ok c h → time_ok t → is_Some (kvs w' !! pruneKey t c h) →
    is_Some (kvs w !! pruneKey t c h) ∨ ∃ u, new = Some u ∧ names u c h ∧ t / Minute = vu_pruneAt u / Minute;
  ef_kept c h : id_ok c h → on_disk w c h → on_disk w' c h ∨ lost c h;
  ef_new c h : id_ok c h → on_disk w' c h → on_disk w c h ∨ ∃ u, new = Some u ∧ names u c h;
}.

Definition none (c h : bytes) : Prop := False.

Lemma pruneKey_minute t c h t' c' h' : id_ok c h → id_ok c' h' → time_ok t → time_ok t' → pruneKey t c h = pruneKey t' c' h' →
  c = c' ∧ h = h' ∧ t / Minute = t' / Minute.
Proof.
  intros Hi Hi' Ht Ht' E. pose proof (f_equal (λ k, take 12 (drop 7 k)) E) as Es. cbn beta in Es. rewrite !pruneKey_stamp in Es by done.
  apply pruneKey_inj in E as [-> ->]; [|done..]. split_and!; try done.
  destruct (Z.lt_total (t / Minute) (t' / Minute)) as [Hl|[|Hl]]; [|done|].
  - pose proof (proj2 (formatTimestamp_lt t t' Ht Ht') Hl) as HL. rewrite Es in HL. by apply bytes_lt_irrefl in HL.
  - pose proof (proj2 (formatTimestamp_lt t' t Ht' Ht) Hl) as HL. rewrite Es in HL. by apply bytes_lt_irrefl in HL.
Qed.

(** A call that touches no shard. *)
Lemma effect_staged w w' : store_ok cfg w → holds_staged cfg (files w) (kvs w) w' → effect None none w w'.
Proof.
  intros Hs Hw. pose proof (store_ok_staged cfg w w' Hs Hw) as Hs'. destruct Hw as (F' & HF & EF & EK).
  assert (∀ c h, files w' !! shardFilePath cfg c h = files w !! shardFilePath cfg c h) as Ef by (intros c h; rewrite EF; apply HF, shard_not_staging).
  split; [done|intros c h d _; rewrite Ef; by left|intros t c h _ _; rewrite EK; by left|..]; intros c h _; unfold stored, marked; rewrite Ef, EK; by left.
Qed.

Lemma effect_same w w' : store_ok cfg w → holds (files w) (kvs w) w' → effect None none w w'.
Proof. intros Hs Hw. apply effect_staged; [done|]. by apply holds_staged_refl. Qed.

Lemma has_effect c h w r w' : store_ok cfg w → Has cfg c h w = (r, w') → effect None none w w' ∧
  (r = Ok true → on_disk w c h) ∧ (r = Ok false → ¬ on_disk w c h) ∧ no_panic r.
Proof.
  intros Hs E. pose proof (Has_spec cfg (files w) (kvs w) c h w (conj eq_refl eq_refl)) as H. rewrite E in H. cbn in H.
  destruct r as [v|e|p]; [|destruct H as [_ H]|done].
  - destruct H as [Hb H]. split; [by apply effect_same|]. split; [intros [= ->]; by apply Hb|]. split; [|by intros ?]. intros [= ->] Hst. by apply Hb in Hst.
  - split; [by apply effect_same|]. split; [discriminate|]. split; [discriminate|]. by intros ?.
Qed.

Lemma has_same c h w r w' : Has cfg c h w = (r, w') → files w' = files w ∧ kvs w' = kvs w.
Proof.
  intros E. pose proof (Has_spec cfg (files w) (kvs w) c h w (conj eq_refl eq_refl)) as H. rewrite E in H. cbn in H.
  destruct r as [v|e|p]; [destruct H as [_ [? ?]]|destruct H as [_ [? ?]]|]; done.
Qed.

Lemma get_effect c w r w' : store_ok cfg w → length c = CommitmentSize → Forall byte_ok c → Get cfg c w = (r, w') → effect None none w w' ∧
  no_panic r ∧ ∀ shard, r = Ok shard → ∃ h d, id_ok c h ∧ files w !! shardFilePath cfg c h = Some d ∧ readable d shard.
Proof.
  intros Hs Hl Hc E. pose proof Hs as [HK HF HI]. pose proof (Get_spec cfg (files w) (kvs w) c Hl Hc HK HF w (conj eq_refl eq_refl)) as H. rewrite E in H. cbn in H.
  pose proof (get_store_ok cfg c w Hs Hl Hc) as Hok. rewrite E in Hok. cbn in Hok.
  assert (∃ K', dropped cfg (files w) c (kvs w) K' ∧ holds (files w) K' w') as (K' & Hd & EF & EK) by (destruct r as [s|e|p]; by destruct H).
  split; [|split; [by intros p ->|]].
  - split.
    + done.
    + intros c' h d _. rewrite EF. by left.
    + intros t c' h _ _ Hk. left. rewrite EK in Hk. destruct (Hd (pruneKey t c' h)) as [Ek|[Ek _]]; rewrite Ek in Hk; [done|by destruct Hk].
    + intros c' h Hi [Hm Hf]. left. split; [|by rewrite EF]. unfold marked. rewrite EK. destruct (Hd (shardKey c' h)) as [->|[_ (h' & Hi' & Ek & Hn)]]; [done|].
      apply shardKey_inj in Ek as [-> ->]; [|done..]. rewrite Hn in Hf. by destruct Hf.
    + intros c' h Hi [Hm Hf]. left. rewrite EK in Hm. rewrite EF in Hf. split; [by eapply dropped_marked|done].
  - intros shard ->. destruct H as (_ & h & d & Hi & _ & Hf & Hr & _). by exists h, d.
Qed.

(** Storing an upload. *)
Definition upload_fits (u : verified_upload) : Prop :=
  Hash (vu_promise u) = Ok (vu_hash u) ∧ id_ok (Commitment (vu_promise u)) (vu_hash u) ∧ shard_ok (vu_shard u) ∧ time_ok (vu_pruneAt u).

Lemma put_effect env u w r w' : store_ok cfg w → upload_fits u → Put cfg env (vu_promise u) (vu_shard u) (vu_pruneAt u) w = (r, w') →
  no_panic r ∧ effect (Some u) (λ c h, names u c h ∧ is_ok r = false) w w' ∧ (r = Ok tt → on_disk w' (Commitment (vu_promise u)) (vu_hash u)).
Proof.
  intros Hs (Hh & Hi & Hsh & Ht) E.
  destruct (shard_ok_rows _ Hsh) as (Hrows & _). pose proof (put_store_ok cfg env (vu_promise u) (vu_shard u) (vu_pruneAt u) w Hs) as Hok.
  rewrite E in Hok. cbn in Hok. assert (store_ok cfg w') as Hs' by (apply Hok; split; eauto).
  pose proof (Put_spec cfg (files w) (kvs w) env (vu_promise u) (vu_shard u) (vu_pruneAt u) (vu_hash u) Hh Hrows w (conj eq_refl eq_refl)) as H. rewrite E in H. cbn in H.
  destruct r as [[]|e|p]; [| |done].
  - destruct H as (F' & pb & pp & _ & _ & [EF EK] & Hsame & Hpath).  split; [by intros ?|].
    assert (∀ c' h', id_ok c' h' → on_disk w' c' h' ↔ on_disk w c' h' ∨ names u c' h') as Hiff.
    { intros c' h' Hi'. unfold stored. rewrite EK, EF, published_marked by done. destruct (decide (shardFilePath cfg c' h' = shardFilePath cfg (Commitment (vu_promise u)) (vu_hash u))) as [Ep|Ep].
      - apply shardFilePath_inj in Ep as [-> ->]; [|done..]. rewrite Hpath. unfold names. split; [auto|]. intros _. split; [by right|done].
      - rewrite Hsame by (done || apply shard_not_staging). split; [intros [[?|[-> ->]] ?]; [by left; split|by destruct Ep]|].
        intros [[? ?]|[<- <-]]; [split; [by left|done]|by destruct Ep]. }
    split; [|intros _; apply Hiff; [done|]; by right]. split; [done|..].
    + intros c' h' d Hi' Hd. rewrite EF in Hd. destruct (decide (shardFilePath cfg c' h' = shardFilePath cfg (Commitment (vu_promise u)) (vu_hash u))) as [Ep|Ep].
      * right. exists u. apply shardFilePath_inj in Ep as [-> ->]; [|done..]. rewrite Hpath in Hd. by injection Hd as <-.
      * left. by rewrite Hsame in Hd by (done || apply shard_not_staging).
    + intros t c' h' Hi' Ht' Hk. rewrite EK in Hk. apply published_lookup in Hk as [Hk|[Hk|[Hk|Hk]]]; [by left| | |].
      * by apply (eq_sym (y := _)), promiseKey_not_pruneKey in Hk.
      * by apply (eq_sym (y := _)), shardKey_not_pruneKey in Hk.
      * right. exists u. apply pruneKey_minute in Hk as (-> & -> & Hm); done.
    + intros c' h' Hi' Hst. left. apply Hiff; [done|]. by left.
    + intros c' h' Hi' Hst. apply Hiff in Hst as [?|?]; [by left|right; by exists u|done].
  - destruct H as (_ & F' & [EF EK] & Hsame & Hpath).  split; [by intros ?|]. split; [|discriminate].
    assert (∀ c' h', id_ok c' h' → ¬ names u c' h' → files w' !! shardFilePath cfg c' h' = files w !! shardFilePath cfg c' h') as Hoth.
    { intros c' h' Hi' Hn. rewrite EF, Hsame; [done|apply shard_not_staging|]. intros Ep. apply Hn. by apply shardFilePath_inj in Ep as [-> ->]. }
    assert (∀ c' h', names u c' h' ∨ ¬ names u c' h') as Hdec.
    { intros c' h'. unfold names. destruct (decide (Commitment (vu_promise u) = c' ∧ vu_hash u = h')); auto. }
    split; [done|..].
    + intros c' h' d Hi' Hd. destruct (Hdec c' h') as [Hn|Hn]; [|left; by rewrite <- Hoth]. pose proof Hn as [<- <-]. rewrite EF in Hd.
      destruct Hpath as [Ep|[_ [Ep|Ep]]]; rewrite Ep in Hd; [by left| |done]. injection Hd as <-. right. by exists u.
    + intros t c' h' _ _ Hk. left. by rewrite EK in Hk.
    + intros c' h' Hi' [Hm Hf]. destruct (Hdec c' h') as [Hn|Hn]; [by right|left]. split; [by rewrite EK|by rewrite Hoth].
    + intros c' h' Hi' [Hm Hf]. destruct (Hdec c' h') as [Hn|Hn]; [right; by exists u|left]. rewrite EK in Hm. split; [done|by rewrite <- Hoth].
Qed.

(** The file holds the shard of the upload, and the index its prune time and no
    other that was not there. *)
Definition placed (u : verified_upload) (w w' : W) : Prop :=
  let c := Commitment (vu_promise u) in let h := vu_hash u in
  files w' !! shardFilePath cfg c h = Some (shard_bytes (vu_shard u)) ∧
  is_Some (kvs w' !! pruneKey (vu_pruneAt u) c h) ∧
  ∀ t, time_ok t → is_Some (kvs w' !! pruneKey t c h) → t / Minute = vu_pruneAt u / Minute ∨ is_Some (kvs w !! pruneKey t c h).

Lemma put_placed env u w w' : store_ok cfg w → upload_fits u → Put cfg env (vu_promise u) (vu_shard u) (vu_pruneAt u) w = (Ok tt, w') → placed u w w'.
Proof.
  intros Hs Hu E. destruct (put_effect env u w _ w' Hs Hu E) as (_ & He & _). destruct Hu as (Hh & Hi & Hsh & Ht).
  destruct (shard_ok_rows _ Hsh) as (Hrows & _).
  pose proof (Put_spec cfg (files w) (kvs w) env (vu_promise u) (vu_shard u) (vu_pruneAt u) (vu_hash u) Hh Hrows w (conj eq_refl eq_refl)) as H. rewrite E in H. cbn in H.
  destruct H as (F' & pb & pp & _ & _ & [EF EK] & _ & Hpath). split; [by rewrite EF|]. split; [rewrite EK; apply published_lookup; auto|].
  intros t Htt Hk. destruct (ef_index _ _ _ _ He t _ _ Hi Htt Hk) as [?|(u' & [= <-] & _ & ?)]; [by right|by left].
Qed.

(** A pass of pruning loses what was due. *)
Lemma prune_effect b w r w' : store_ok cfg w → time_ok b → small cfg w → PruneBefore cfg b w = (r, w') →
  ∃ res, r = Ok res ∧ effect None (λ c h, ∃ t, entry_due (kvs w) b (t, c, h)) w w'.
Proof.
  intros Hs Hb Hsm E. pose proof (prune_store_ok cfg b w Hs Hb Hsm) as Hs'. rewrite E in Hs'. cbn in Hs'. pose proof Hs as [HK HF _]. destruct Hsm as [Hb1 Hb2].
  pose proof (PruneBefore_spec cfg (files w) (kvs w) b HK Hb Hb1 Hb2 w (conj eq_refl eq_refl)) as H. rewrite E in H. cbn in H.
  destruct r as [res|e|p]; [|done|done]. exists res. split; [done|]. destruct H as (F' & K' & dn & gone & [EF EK] & Hp & _).
  pose proof (pass_due _ _ _ _ _ _ _ _ _ Hp) as Hdue. pose proof (pass_files _ _ _ _ _ _ _ _ _ Hp) as EF'.
  assert (∀ k, is_Some (K' !! k) → is_Some (kvs w !! k)) as Hsub.
  { intros k Hk. destruct (pr_err res) as [e|] eqn:Er; [destruct (pass_err _ _ _ _ _ _ _ _ _ Hp) as [-> _]; [by rewrite Er|done]|].
    destruct (pass_ok _ _ _ _ _ _ _ _ _ Hp Er) as [_ ->]. rewrite batch_deletes in Hk by apply batch_of_deletes. case_decide; [by destruct Hk|done]. }
  assert (∀ c h, id_ok c h → is_Some (kvs w !! shardKey c h) → is_Some (K' !! shardKey c h) ∨ ∃ t, entry_due (kvs w) b (t, c, h)) as Hmk.
  { intros c h Hi Hk. destruct (pr_err res) as [e|] eqn:Er; [destruct (pass_err _ _ _ _ _ _ _ _ _ Hp) as [-> _]; [by rewrite Er|by left]|].
    destruct (pass_ok _ _ _ _ _ _ _ _ _ Hp Er) as [-> ->]. rewrite batch_deletes by apply batch_of_deletes.
    case_decide as Hin; [|by left]. right. apply elem_of_batch in Hin as (t & c' & h' & Hin & Ek). pose proof (proj1 (Forall_forall _ _) Hdue _ Hin) as Hd.
    destruct Hd as (Ht & Hi' & Hr). destruct Ek as [Ek|[Ek|Ek]]; [by apply shardKey_not_pruneKey in Ek| |by apply (eq_sym (y := _)), promiseKey_not_shardKey in Ek].
    apply shardKey_inj in Ek as [-> ->]; [|done..]. exists t. by split. }
  split; [done|..].
  - intros c h d Hi Hd. left. rewrite EF, EF', delete_files_lookup in Hd. by case_decide.
  - intros t c h _ _ Hk. left. rewrite EK in Hk. by apply Hsub.
  - intros c h Hi [Hm Hf]. destruct (Hmk c h Hi Hm) as [Hm'|]; [|by right].
    destruct (decide (shardFilePath cfg c h ∈ map (entry_path cfg) gone)) as [Hin|Hin].
    + right. apply list_elem_of_fmap in Hin as ([[t c'] h'] & Ep & Hin). pose proof (proj1 (Forall_forall _ _) Hdue _ Hin) as Hd. pose proof Hd as (_ & Hi' & _).
      cbn in Ep. apply shardFilePath_inj in Ep as [-> ->]; [|done..]. by exists t.
    + left. split; [by rewrite EK|]. by rewrite EF, EF', delete_files_lookup, decide_False.
  - intros c h Hi [Hm Hf]. left. rewrite EK in Hm. split; [by apply Hsub|]. rewrite EF, EF', delete_files_lookup in Hf. by case_decide; [destruct Hf|].
Qed.

(** Opening and measuring the store. *)
Lemma start_staged scfg opened ctxErr budget head address s w r s' w' : sc_StoreConfig scfg = cfg →
  Start scfg opened ctxErr budget head address (s, w) = (r, (s', w')) →
  holds_staged cfg (files w) (kvs w) w' ∧ srv_verifiers s' = srv_verifiers s.
Proof.
  intros Ec E. unfold Start, wrap_err, attempt, mbind, io_bind, on_store in E. rewrite Ec in E.
  pose proof (openStore_spec cfg (files w) (kvs w) opened w (conj eq_refl eq_refl)) as HO.
  destruct (openStore cfg opened w) as [[[]|e|p] w1]; cbn in HO, E; [|injection E as <- <- <-; by split|done].
  pose proof (Size_spec cfg (files w1) (kvs w1) ctxErr w1 (conj eq_refl eq_refl)) as HS.
  destruct (Size cfg ctxErr w1) as [[n|e|p] w2]; cbn in HS, E; [| |done].
  all: assert (holds_staged cfg (files w) (kvs w) w2) as Hst by (destruct HO as (F' & HF & E1 & E2), HS as [E3 E4]; exists F'; split; [done|split; congruence]).
  - destruct (recomputeBudget scfg budget head address (seed n (srv_occ s))) as [rb o]. cbn in E.
    destruct rb as [[]|e|p]; cbn in E; injection E as <- <- <-; (by split).
  - injection E as <- <- <-. by split.
Qed.
End Effects.

Section Node.
Context `{CR : Crypto} `{SL : !Sha256Laws} `{GF : GF16} `{GL : !GF16Laws} `{RS : ReedSolomon} `{RG : Rng}.
Context `{PC : PromiseCodec} `{PL : !PromiseCodecLaws} {W : Type} `{FS : !Vfs W} `{DB : !Pebble W} `{DL : !DiskLaws W}.
Context (order : nat → list nat) (Horder : order_ok order) (procs : Z) (defaultV0 : BlobConfig) (cfg : ServerConfig) (a b : nat).
Context (Hshape : shape (vcfg defaultV0) a b) `{RL : !ReedSolomonLaws (cfg_K (vcfg defaultV0)) (cfg_N (vcfg defaultV0))}.
Context (Hmax : 0 < bc_MaxRowSize defaultV0 <= shardLengthLimit).

Abbreviation scfg := (sc_StoreConfig cfg).
Abbreviation on_disk w := (stored scfg (files w) (kvs w)).
Abbreviation valid_upload env u := (vetted defaultV0 cfg b env u).

(** ** Steps *)

(** The server while it runs: what its goroutines share, the idle verifiers,
    the uploads, the bytes that pruning removed and has not released; and for
    the statements the latest cutoff of pruning, the uploads that passed the
    checks and those that were acknowledged. *)
Record node := mkNode {
  nd_shared : shared (W := W);
  nd_verifiers : list Verifier;
  nd_uploads : list upload;
  nd_freed : Z;
  nd_cutoff : Z;
  nd_seen : list verified_upload;
  nd_acked : list verified_upload;
}.

Definition acknowledged (t : upload) : list verified_upload :=
  match up_stage t with UEnded (Ok _) => [up_data t] | _ => [] end.

(** [UploadShard] verifies a request and queues for its lock; an upload takes a
    step; the loop prunes and then releases what it freed, and recomputes the
    budget; a shard is downloaded. *)
Inductive nserve : node → node → Prop :=
  | ns_begin n env req u vs : request_ok req → time_ok (vu_pruneAt u) →
      verify_upload order procs defaultV0 cfg env req (nd_verifiers n) = (Ok u, vs) →
      nserve n (mkNode (nd_shared n) vs (nd_uploads n ++ [mkUpload env u UWaiting]) (nd_freed n) (nd_cutoff n) (u :: nd_seen n) (nd_acked n))
  | ns_refuse n env req e vs : request_ok req → verify_upload order procs defaultV0 cfg env req (nd_verifiers n) = (Err e, vs) →
      nserve n (mkNode (nd_shared n) vs (nd_uploads n) (nd_freed n) (nd_cutoff n) (nd_seen n) (nd_acked n))
  | ns_upload n i t t' s : nd_uploads n !! i = Some t → upload_step cfg t (nd_shared n) = Some (Ok (t', s)) →
      nserve n (mkNode s (nd_verifiers n) (<[i := t']> (nd_uploads n)) (nd_freed n) (nd_cutoff n) (nd_seen n) (acknowledged t' ++ nd_acked n))
  | ns_prune n now res w : nd_freed n = 0 → time_ok now → small scfg (so_disk (nd_shared n)) →
      PruneBefore scfg now (so_disk (nd_shared n)) = (Ok res, w) →
      nserve n (mkNode (set_disk (nd_shared n) w) (nd_verifiers n) (nd_uploads n) (if 0 <? pr_bytes res then pr_bytes res else 0)
                 (Z.max now (nd_cutoff n)) (nd_seen n) (nd_acked n))
  | ns_release n : 0 < nd_freed n →
      nserve n (mkNode (set_occ (nd_shared n) (release (nd_freed n) (so_occ (nd_shared n)))) (nd_verifiers n) (nd_uploads n) 0 (nd_cutoff n) (nd_seen n) (nd_acked n))
  | ns_budget n budget head address r o : recomputeBudget cfg budget head address (so_occ (nd_shared n)) = (r, o) →
      nserve n (mkNode (set_occ (nd_shared n) o) (nd_verifiers n) (nd_uploads n) (nd_freed n) (nd_cutoff n) (nd_seen n) (nd_acked n))
  | ns_download n id s r s' w : Forall byte_ok id → DownloadShard defaultV0 cfg id (s, so_disk (nd_shared n)) = (r, (s', w)) →
      nserve n (mkNode (set_disk (nd_shared n) w) (nd_verifiers n) (nd_uploads n) (nd_freed n) (nd_cutoff n) (nd_seen n) (nd_acked n)).

(** The node that comes up on a disk. *)
Definition restarted (n : node) (s : Server) (w : W) (acked : list verified_upload) : node :=
  mkNode (mkShared (srv_occ s) w ∅) (srv_verifiers s) [] 0 (nd_cutoff n) (nd_seen n) acked.

(** A server serves; or it is stopped in an orderly way, which closes the
    database and so writes out what was committed without a sync, and started
    again, whatever its uploads were doing. A server whose [Start] fails serves
    nothing, which is one of the ways to go on. *)
Inductive nstep : node → node → Prop :=
  | ns_serve n n' : nserve n n' → nstep n n'
  | ns_restart n s0 opened ctxErr budget head address r s w : NewServer defaultV0 cfg = Ok s0 →
      Start cfg opened ctxErr budget head address (s0, so_disk (nd_shared n)) = (r, (s, w)) →
      nstep n (restarted n s w (nd_acked n)).

(** The store commits with [pebble.NoSync]: when the process dies, the database
    comes back as it was after some earlier commit, while the files stay. What
    it held after a step, with the uploads acknowledged by then: *)
Abbreviation commit_point := (gmap bytes bytes * list verified_upload)%type.
Definition point (n : node) : commit_point := (kvs (so_disk (nd_shared n)), nd_acked n).

(** The life of a server: it serves, is stopped and started, or dies and comes
    back with one of the states its database had since the last orderly start;
    what was acknowledged after that state is forgotten. A call that the death
    of the process cuts short is one whose remaining calls of the disk fail. *)
Inductive nlife : node * list commit_point → node * list commit_point → Prop :=
  | nl_serve n n' log : nserve n n' → nlife (n, log) (n', point n' :: log)
  | nl_restart n log s0 opened ctxErr budget head address r s w : NewServer defaultV0 cfg = Ok s0 →
      Start cfg opened ctxErr budget head address (s0, so_disk (nd_shared n)) = (r, (s, w)) →
      nlife (n, log) (restarted n s w (nd_acked n), [point (restarted n s w (nd_acked n))])
  | nl_crash n lost K acked log wc s0 opened ctxErr budget head address r s w : NewServer defaultV0 cfg = Ok s0 →
      files wc = files (so_disk (nd_shared n)) → kvs wc = K →
      Start cfg opened ctxErr budget head address (s0, wc) = (r, (s, w)) →
      nlife (n, lost ++ (K, acked) :: log) (restarted n s w acked, point (restarted n s w acked) :: (K, acked) :: log).

(** A new server on an empty disk. *)
Definition boot (s : Server) (w : W) : node := mkNode (mkShared (srv_occ s) w ∅) (srv_verifiers s) [] 0 0 [] [].

(** ** The invariant *)

(** An upload that passed the checks, with a prune time the index can hold. *)
Definition verified (u : verified_upload) : Prop := (∃ env, valid_upload env u) ∧ time_ok (vu_pruneAt u).

(** Pruning has passed a prune time given to the promise. *)
Definition expired (seen : list verified_upload) (cutoff : Z) (c h : bytes) : Prop :=
  ∃ u, u ∈ seen ∧ names u c h ∧ vu_pruneAt u / Minute < cutoff / Minute.

Definition kept (seen : list verified_upload) (w : W) (cutoff : Z) (u : verified_upload) : Prop :=
  let c := Commitment (vu_promise u) in on_disk w c (vu_hash u) ∨ expired seen cutoff c (vu_hash u).

(** The stages under the lock, and the stripe that is held there. *)
Definition locked (st : stage) : Prop := match st with UWaiting | UEnded _ => False | _ => True end.
Definition holding (t : upload) (k : Z) : Prop := locked (up_stage t) ∧ uploadLock (vu_hash (up_data t)) = Ok k.

(** A reservation that is not decided. *)
Definition undecided (c : call) : Prop := match c with Reserving _ | Loaded _ _ | Undoing _ => True | _ => False end.

(** What an upload knows at each stage. *)
Definition stage_ok (seen : list verified_upload) (w : W) (cutoff : Z) (t : upload) : Prop :=
  let u := up_data t in
  match up_stage t with
  | UReserving c => undecided c ∧ ¬ on_disk w (Commitment (vu_promise u)) (vu_hash u)
  | UStoring _ => ¬ on_disk w (Commitment (vu_promise u)) (vu_hash u)
  | USigning | ULeaving (Ok _) => kept seen w cutoff u
  | _ => True
  end.

Record disk_inv (seen : list verified_upload) (w : W) : Prop := {
  di_ok : store_ok scfg w;
  di_files c h d : id_ok c h → files w !! shardFilePath scfg c h = Some d → ∃ u, u ∈ seen ∧ names u c h ∧ d = shard_bytes (vu_shard u);
  di_index t c h : id_ok c h → time_ok t → is_Some (kvs w !! pruneKey t c h) → ∃ u, u ∈ seen ∧ names u c h ∧ t / Minute = vu_pruneAt u / Minute;
}.

Record lock_inv (locks : gset Z) (l : list upload) : Prop := {
  li_held k : k ∈ locks ↔ ∃ i t, l !! i = Some t ∧ holding t k;
  li_excl i j t t' k : l !! i = Some t → l !! j = Some t' → holding t k → holding t' k → i = j;
}.

Record ninv (n : node) : Prop := {
  ni_disk : disk_inv (nd_seen n) (so_disk (nd_shared n));
  ni_locks : lock_inv (so_locks (nd_shared n)) (nd_uploads n);
  ni_verifiers : Forall (λ v, v_config v = vcfg defaultV0) (nd_verifiers n);
  ni_seen : Forall verified (nd_seen n);
  ni_uploads : Forall (λ t, up_data t ∈ nd_seen n) (nd_uploads n);
  ni_stages : Forall (stage_ok (nd_seen n) (so_disk (nd_shared n)) (nd_cutoff n)) (nd_uploads n);
  ni_acked : Forall (λ u, u ∈ nd_seen n ∧ kept (nd_seen n) (so_disk (nd_shared n)) (nd_cutoff n) u) (nd_acked n);
}.

Lemma verified_id u : verified u → id_ok (Commitment (vu_promise u)) (vu_hash u).
Proof. intros [[env Hu] _]. apply Hu. Qed.

Lemma verified_fits_store u : verified u → upload_fits u.
Proof. intros [[env Hu] Ht]. split_and!; [apply Hu..|done]. Qed.

Lemma verified_stripe u : verified u → ∃ k, uploadLock (vu_hash u) = Ok k.
Proof.
  intros [[env Hu] _]. pose proof (vt_hash _ _ _ _ _ Hu) as Hh. unfold Hash in Hh. apply bind_Ok in Hh as (? & _ & Hh).
  apply bind_Ok in Hh as (m & _ & [= E]). unfold uploadLock, index. assert (length (vu_hash u) = 32%nat) as Hl by (rewrite <- E; apply sha256_length).
  destruct (vu_hash u) as [|k h]; [done|]. by exists k.
Qed.

Lemma disk_inv_effect seen seen' new lost w w' : disk_inv seen w → seen ⊆ seen' → (∀ u, new = Some u → u ∈ seen') → effect scfg new lost w w' → disk_inv seen' w'.
Proof.
  intros Hd Hsub Hn He. split; [apply He| |].
  - intros c h d Hi Hf. destruct (ef_files _ _ _ _ _ He c h d Hi Hf) as [H|(u & -> & Hu & ->)]; [destruct (di_files _ _ Hd c h d Hi H) as (u & Hu & ?); exists u; split; [by apply Hsub|done]|]. exists u. split; [by apply Hn|done].
  - intros t c h Hi Ht Hk. destruct (ef_index _ _ _ _ _ He t c h Hi Ht Hk) as [H|(u & -> & Hu & Hm)]; [destruct (di_index _ _ Hd t c h Hi Ht H) as (u & Hu & ?); exists u; split; [by apply Hsub|done]|]. exists u. split; [by apply Hn|done].
Qed.

Lemma expired_mono seen seen' cutoff cutoff' c h : seen ⊆ seen' → cutoff <= cutoff' → expired seen cutoff c h → expired seen' cutoff' c h.
Proof.
  intros Hsub Hle (u & Hu & Hn & Hlt). exists u. split; [by apply Hsub|]. split; [done|]. eapply Z.lt_le_trans; [exact Hlt|]. by apply Z.div_le_mono.
Qed.

Lemma kept_effect seen seen' new lost w w' cutoff cutoff' u : effect scfg new lost w w' → seen ⊆ seen' → cutoff <= cutoff' → verified u →
  (∀ c h, id_ok c h → on_disk w c h → lost c h → expired seen' cutoff' c h) → kept seen w cutoff u → kept seen' w' cutoff' u.
Proof.
  intros He Hsub Hle Hv Hl [H|H]; [|right; by eapply expired_mono]. pose proof (verified_id _ Hv) as Hi.
  destruct (ef_kept _ _ _ _ _ He _ _ Hi H) as [?|Hx]; [by left|]. right. by apply (Hl _ _ Hi H).
Qed.

(** A call of the store leaves what the other uploads know. *)
Lemma stage_ok_effect seen seen' new lost w w' cutoff cutoff' t : effect scfg new lost w w' → seen ⊆ seen' → cutoff <= cutoff' → verified (up_data t) →
  (∀ c h, id_ok c h → on_disk w c h → lost c h → expired seen' cutoff' c h) →
  (∀ u, new = Some u → locked (up_stage t) → vu_hash u ≠ vu_hash (up_data t)) →
  stage_ok seen w cutoff t → stage_ok seen' w' cutoff' t.
Proof.
  intros He Hsub Hle Hv Hl Hn. pose proof (verified_id _ Hv) as Hi.
  assert (locked (up_stage t) → ¬ on_disk w (Commitment (vu_promise (up_data t))) (vu_hash (up_data t)) →
    ¬ on_disk w' (Commitment (vu_promise (up_data t))) (vu_hash (up_data t))) as Hnew.
  { intros Hlk Hno Hyes. destruct (ef_new _ _ _ _ _ He _ _ Hi Hyes) as [|(u & -> & _ & Hh)]; [done|]. by apply (Hn u eq_refl Hlk). }
  unfold stage_ok. destruct (up_stage t) as [| |c|sz|sz| |[sig|e|p]|r]; intros H; try done; [destruct H; split; [done|]; by apply Hnew|by apply Hnew|by eapply kept_effect..].
Qed.

(** ** Locks *)

Lemma lock_inv_nil : lock_inv ∅ [].
Proof. split; [intros k; split; [intros H; by apply not_elem_of_empty in H|by intros (i & t & ? & _)]|by intros i j t t' k ?]. Qed.

Lemma lock_inv_snoc locks l t : lock_inv locks l → ¬ locked (up_stage t) → lock_inv locks (l ++ [t]).
Proof.
  intros [Hh Hx] Ht. assert (∀ i t' k, (l ++ [t]) !! i = Some t' → holding t' k → l !! i = Some t') as Hold.
  { intros i t' k Hi [Hl _]. apply lookup_snoc_Some in Hi as [[_ Hi]|[_ <-]]; done. }
  split.
  - intros k. rewrite Hh. split; intros (i & t' & Hi & Hk); exists i, t'; (split; [|done]); [by apply lookup_app_l_Some|by eapply Hold].
  - intros i j t1 t2 k H1 H2 K1 K2. eapply Hx; [by eapply Hold..|done|done].
Qed.

(** One upload moves on, with the stripes it takes or gives back. *)
Lemma lock_inv_insert locks locks' l i t t' : lock_inv locks l → l !! i = Some t →
  (∀ k, k ∈ locks' ↔ (k ∈ locks ∧ ¬ holding t k) ∨ holding t' k) → (∀ k, holding t' k → k ∉ locks ∨ holding t k) →
  lock_inv locks' (<[i := t']> l).
Proof.
  intros [Hh Hx] Hi Hl' Hnew. pose proof (lookup_lt_Some _ _ _ Hi) as Hlt.
  assert (∀ j t1 k, j ≠ i → l !! j = Some t1 → holding t1 k → ¬ holding t' k) as Hne.
  { intros j t1 k Hj H1 K1 K'. destruct (Hnew k K') as [Hn|Kt]; [apply Hn, Hh; eauto|]. by eapply Hj, Hx. }
  split.
  - intros k. rewrite Hl', Hh. split.
    + intros [[(j & t1 & Hj & K) Hn]|K]; [|exists i, t'; by rewrite list_lookup_insert_eq].
      assert (j ≠ i) by (intros ->; congruence). exists j, t1. by rewrite list_lookup_insert_ne.
    + intros (j & t1 & Hj & K). destruct (decide (j = i)) as [->|Hji]; [rewrite list_lookup_insert_eq in Hj by done; injection Hj as <-; by right|].
      rewrite list_lookup_insert_ne in Hj by done. left. split; [eauto|]. intros Kt. by eapply Hji, Hx.
  - intros j1 j2 t1 t2 k H1 H2 K1 K2. destruct (decide (j1 = i)) as [->|D1], (decide (j2 = i)) as [->|D2]; [done| | |].
    + rewrite list_lookup_insert_eq in H1 by done. injection H1 as <-. rewrite list_lookup_insert_ne in H2 by done. by destruct (Hne j2 t2 k D2 H2 K2).
    + rewrite list_lookup_insert_eq in H2 by done. injection H2 as <-. rewrite list_lookup_insert_ne in H1 by done. by destruct (Hne j1 t1 k D1 H1 K1).
    + rewrite list_lookup_insert_ne in H1, H2 by done. by eapply Hx.
Qed.

(** What a step of an upload does to its lock. *)
Lemma upload_step_locks t s t' s' : upload_step cfg t s = Some (Ok (t', s')) →
  up_data t' = up_data t ∧ up_env t' = up_env t ∧
  ((so_locks s' = so_locks s ∧ locked (up_stage t) ∧ locked (up_stage t')) ∨
   (∃ k, uploadLock (vu_hash (up_data t)) = Ok k ∧ ¬ locked (up_stage t) ∧ locked (up_stage t') ∧ k ∉ so_locks s ∧ so_locks s' = {[k]} ∪ so_locks s) ∨
   (∃ k, uploadLock (vu_hash (up_data t)) = Ok k ∧ locked (up_stage t) ∧ ¬ locked (up_stage t') ∧ so_locks s' = so_locks s ∖ {[k]})).
Proof.
  unfold upload_step. destruct (up_stage t) as [| |c|n|n| |r|r] eqn:Est; cbn [locked]; intros H.
  - destruct (uploadLock _) as [k|e|p]; try discriminate. destruct (decide _) as [|Hk]; [discriminate|]. injection H as <- <-.
    split_and!; [done..|]. right. left. exists k. split_and!; first [done|by intros []].
  - destruct (Has _ _ _ _) as [[[]|e|p] w]; try discriminate; [| |].
    + injection H as <- <-. split_and!; [done..|]. by left.
    + destruct (shardBinarySize _) as [sz|e|p]; try discriminate; injection H as <- <-; (split_and!; [done..|]; by left).
    + injection H as <- <-. split_and!; [done..|]. by left.
  - destruct (reserve_step c (so_occ s)) as [[c' o]|]; [|discriminate]. injection H as <- <-. split_and!; [done..|]. left. by destruct c'.
  - destruct (Put _ _ _ _ _ _) as [[u|e|p] w]; try discriminate; injection H as <- <-; (split_and!; [done..|]; by left).
  - injection H as <- <-. split_and!; [done..|]. by left.
  - destruct (SignPaymentPromiseValidator _ _) as [sig|e|p]; try discriminate; injection H as <- <-; (split_and!; [done..|]; by left).
  - destruct (uploadLock _) as [k|e|p]; try discriminate. injection H as <- <-. split_and!; [done..|]. right. right. exists k. split_and!; first [done|by intros []].
  - discriminate.
Qed.

Lemma upload_step_lock_inv l i t s t' s' : lock_inv (so_locks s) l → l !! i = Some t → upload_step cfg t s = Some (Ok (t', s')) →
  lock_inv (so_locks s') (<[i := t']> l).
Proof.
  intros HL Hi H. destruct (upload_step_locks _ _ _ _ H) as (Ed & _ & HS). eapply lock_inv_insert; [done..| |]; unfold holding; rewrite Ed.
  - intros k. destruct HS as [(-> & L1 & L2)|[(k' & Ek & L1 & L2 & Hk & ->)|(k' & Ek & L1 & L2 & ->)]].
    + split; [|intros [[? _]|[_ Hk]]; [done|]]; [|apply HL; exists i, t; split; [done|by split]].
      intros Hk. assert (uploadLock (vu_hash (up_data t)) = Ok k ∨ uploadLock (vu_hash (up_data t)) ≠ Ok k) as [?|?].
      { destruct (uploadLock _) as [k'| |]; [|by right..]. destruct (decide (k' = k)) as [->|]; [by left|right; congruence]. }
      { by right. } left. split; [done|]. by intros [].
    + rewrite Ek. set_solver.
    + rewrite Ek. assert (∀ k, Ok k' = Ok k ↔ k = k') as Hiff by (intros; split; [by intros [= ->]|by intros ->]). set_solver.
  - intros k [Hl Hk]. destruct HS as [(_ & L1 & _)|[(k' & Ek & _ & _ & Hn & _)|(k' & _ & _ & L2 & _)]]; [by right|left; congruence|done].
Qed.

(** ** Preservation *)

(** What a step of an upload does on disk, and what the upload knows then. *)
Lemma upload_step_disk seen t s t' s' cutoff : store_ok scfg (so_disk s) → verified (up_data t) → stage_ok seen (so_disk s) cutoff t →
  upload_step cfg t s = Some (Ok (t', s')) →
  (∃ new lost, effect scfg new lost (so_disk s) (so_disk s') ∧ (∀ u, new = Some u → u = up_data t ∧ locked (up_stage t)) ∧
     ∀ c h, id_ok c h → on_disk (so_disk s) c h → ¬ lost c h) ∧
  stage_ok seen (so_disk s') cutoff t' ∧ Forall (λ u, u = up_data t ∧ kept seen (so_disk s') cutoff u) (acknowledged t').
Proof.
  intros Hok Hv Hst. pose proof (verified_id _ Hv) as Hi.
  assert (∃ new lost, effect scfg new lost (so_disk s) (so_disk s) ∧ (∀ u, new = Some u → u = up_data t ∧ locked (up_stage t)) ∧
     ∀ c h, id_ok c h → on_disk (so_disk s) c h → ¬ lost c h) as Hstay.
  { exists None, none. split; [by apply effect_same|]. split; [done|]. intros c h _ _ []. }
  unfold upload_step. unfold stage_ok in Hst |- *. unfold acknowledged. destruct (up_stage t) as [| |c|n|n| |r|r] eqn:Est; intros H.
  - destruct (uploadLock _) as [k|e|p]; try discriminate. destruct (decide _) as [|Hk]; [discriminate|]. by injection H as <- <-.
  - destruct (Has scfg _ _ _) as [r w] eqn:EH. destruct (has_effect scfg _ _ _ _ _ Hok EH) as (He & Ht & Hf & _).
    assert (∃ new lost, effect scfg new lost (so_disk s) w ∧ (∀ u, new = Some u → u = up_data t ∧ locked UHolding) ∧
      ∀ c h, id_ok c h → on_disk (so_disk s) c h → ¬ lost c h) as Hmove by (exists None, none; split; [done|]; split; [done|]; intros c h _ _ []).
    destruct r as [[]|e|p]; try discriminate.
    + injection H as <- <-. split; [done|]. split; [|done]. left. destruct (ef_kept _ _ _ _ _ He _ _ Hi (Ht eq_refl)) as [|[]]; done.
    + assert (¬ on_disk w (Commitment (vu_promise (up_data t))) (vu_hash (up_data t))) as Hno.
      { intros Hy. destruct (ef_new _ _ _ _ _ He _ _ Hi Hy) as [?|(u & ? & _)]; [by apply (Hf eq_refl)|done]. }
      destruct (shardBinarySize _) as [sz|e|p]; try discriminate; injection H as <- <-; done.
    + by injection H as <- <-.
  - destruct (reserve_step c (so_occ s)) as [[c' o]|] eqn:ER; [|discriminate]. injection H as <- <-. split; [done|]. destruct Hst as [Hu Hst].
    assert (c' ≠ Finished) by (intros ->; destruct c; cbn in ER; repeat case_match; by simplify_eq).
    destruct c'; try done; (split; [exact Hst || exact I || by split|constructor]).
  - destruct (Put scfg _ _ _ _ _) as [r w] eqn:EP. destruct (put_effect scfg _ _ _ _ _ Hok (verified_fits_store _ Hv) EP) as (_ & He & Hp).
    assert (∃ new lost, effect scfg new lost (so_disk s) w ∧ (∀ u, new = Some u → u = up_data t ∧ locked (UStoring n)) ∧
      ∀ c h, id_ok c h → on_disk (so_disk s) c h → ¬ lost c h) as Hmove.
    { exists (Some (up_data t)), (λ c h, names (up_data t) c h ∧ is_ok r = false). split; [done|]. split; [by intros u [= <-]|]. by intros c h _ Hy [[<- <-] _]. }
    destruct r as [[]|e|p]; try discriminate; injection H as <- <-; [|done]. split; [done|]. split; [|done]. left. by apply Hp.
  - by injection H as <- <-.
  - destruct (SignPaymentPromiseValidator _ _) as [sig|e|p]; try discriminate; by injection H as <- <-.
  - destruct (uploadLock _) as [k|e|p]; try discriminate. injection H as <- <-. split; [done|]. split; [done|]. cbn. destruct r; [|constructor..]. constructor; [done|constructor].
  - discriminate.
Qed.

Lemma newVerifierPool_config k : ∀ vs, newVerifierPool defaultV0 k = Ok vs → Forall (λ v, v_config v = vcfg defaultV0) vs.
Proof.
  induction k as [|k IH]; intros vs H; [injection H as <-; constructor|]. cbn [newVerifierPool] in H.
  destruct (NewVerifier _) as [v|e|p] eqn:Ev; [|discriminate..]. apply bind_Ok in H as (vs' & Hvs & [= <-]). constructor; [|by apply IH].
  unfold NewVerifier in Ev. destruct (Config_Validate _); [|discriminate..]. by injection Ev as <-.
Qed.

Lemma NewServer_verifiers s : NewServer defaultV0 cfg = Ok s → Forall (λ v, v_config v = vcfg defaultV0) (srv_verifiers s).
Proof. unfold NewServer. intros H. apply bind_Ok in H as (vs & Hvs & [= <-]). by eapply newVerifierPool_config. Qed.

(** A step that changes the disk by an effect without new shards, and nothing
    of the uploads. *)
Lemma ninv_effect n lost w cutoff sh freed vs seen : ninv n → nd_seen n ⊆ seen → Forall verified seen → effect scfg None lost (so_disk (nd_shared n)) w → nd_cutoff n <= cutoff →
  (∀ c h, id_ok c h → on_disk (so_disk (nd_shared n)) c h → lost c h → expired seen cutoff c h) →
  so_disk sh = w → so_locks sh = so_locks (nd_shared n) → Forall (λ v, v_config v = vcfg defaultV0) vs →
  ninv (mkNode sh vs (nd_uploads n) freed cutoff seen (nd_acked n)).
Proof.
  intros [HD HL HV HN HU HS HA] Hsub Hseen He Hle Hl <- El Hvs. split; cbn [nd_shared nd_verifiers nd_uploads nd_cutoff nd_seen nd_acked]; [|by rewrite El|done..| | |].
  - by eapply (disk_inv_effect _ _ None).
  - eapply Forall_impl; [exact HU|]. intros t Ht. by apply Hsub.
  - apply Forall_lookup. intros i t Hi. pose proof (proj1 (Forall_forall _ _) HN _ (Forall_lookup_1 _ _ _ _ HU Hi)) as Hv.
    eapply stage_ok_effect; [done..|by eapply Forall_lookup_1 in HS].
  - eapply Forall_impl; [exact HA|]. intros u [Hu Hk]. split; [by apply Hsub|]. pose proof (proj1 (Forall_forall _ _) HN _ Hu). by eapply kept_effect.
Qed.

Lemma ninv_same n sh freed vs : ninv n → so_disk sh = so_disk (nd_shared n) → so_locks sh = so_locks (nd_shared n) →
  Forall (λ v, v_config v = vcfg defaultV0) vs → ninv (mkNode sh vs (nd_uploads n) freed (nd_cutoff n) (nd_seen n) (nd_acked n)).
Proof.
  intros Hn Ed El Hvs. eapply (ninv_effect n none); [done|done|apply Hn|apply effect_same; [apply Hn|done]|lia|done|done|done|done].
Qed.

(** A download refuses the id or asks the store for its commitment. *)
Lemma download_get id s w r s' w' : Forall byte_ok id → DownloadShard defaultV0 cfg id (s, w) = (r, (s', w')) → s' = s ∧
  ((w' = w ∧ ∃ e, r = Err e) ∨
   ∃ v c rg, id = v :: c ∧ length c = CommitmentSize ∧ Forall byte_ok c ∧ Get scfg c w = (rg, w') ∧
     match rg with Ok shard => r = Ok shard | Err _ => ∃ e, r = Err e | Panic p => r = Panic p end).
Proof.
  intros Hid E. unfold DownloadShard, wrap_err, attempt, mbind, io_bind, pure in E. destruct (BlobID_UnmarshalBinary id) as [id'|e|p] eqn:Eu.
  2:{ injection E as <- <- <-. split; [done|]. left. eauto. }
  2:{ unfold BlobID_UnmarshalBinary in Eu. by destruct (length id =? BlobIDSize)%nat. }
  apply BlobID_UnmarshalBinary_Ok in Eu as [-> Hl]. destruct id as [|v c]; [done|]. cbn -[copy_into BlobConfigForVersion] in E.
  destruct (BlobConfigForVersion defaultV0 v) as [bc|e|p] eqn:Eb.
  2:{ injection E as <- <- <-. split; [done|]. left. eauto. }
  2:{ unfold BlobConfigForVersion in Eb. by destruct (v =? 0). }
  cbn -[copy_into] in E. apply Forall_cons in Hid as [_ Hc]. assert (length c = CommitmentSize) as Hlc by (injection Hl as ->; done).
  rewrite copy_exact in E by done. unfold on_store in E. destruct (Get scfg c w) as [rg wg] eqn:EG.
  destruct rg as [shard|e|p]; cbn in E; injection E as <- <- <-; (split; [done|]); right; exists v, c; eexists; (split_and!; [done..|exact EG|]); cbn; eauto.
Qed.

Lemma download_effect id s w r s' w' : store_ok scfg w → Forall byte_ok id → DownloadShard defaultV0 cfg id (s, w) = (r, (s', w')) →
  effect scfg None none w w' ∧ s' = s ∧ no_panic r ∧
  ∀ shard, r = Ok shard → ∃ v c h d, id = v :: c ∧ id_ok c h ∧ files w !! shardFilePath scfg c h = Some d ∧ readable d shard.
Proof.
  intros Hs Hid E. destruct (download_get id s w r s' w' Hid E) as (-> & [[-> [e ->]]|(v & c & rg & -> & Hlc & Hc & EG & Hr)]).
  { split_and!; [by apply effect_same|done..]. }
  destruct (get_effect scfg c w rg w' Hs Hlc Hc EG) as (He & Hnp & Hok). split; [done|]. split; [done|].
  destruct rg as [shard|e|p]; [|destruct Hr as [e' ->]; done|by destruct (Hnp p)]. subst r. split; [done|]. intros shard' [= <-].
  destruct (Hok shard eq_refl) as (h & d & ? & ? & ?). by exists v, c, h, d.
Qed.

Lemma upload_verified n i t : ninv n → nd_uploads n !! i = Some t → verified (up_data t).
Proof. intros Hn Hi. exact (proj1 (Forall_forall _ _) (ni_seen _ Hn) _ (Forall_lookup_1 _ _ _ _ (ni_uploads _ Hn) Hi)). Qed.

(** Uploads of the same promise wait for the same stripe. *)
Lemma same_stripe n i j t t' : ninv n → nd_uploads n !! i = Some t → nd_uploads n !! j = Some t' → i ≠ j →
  locked (up_stage t) → locked (up_stage t') → vu_hash (up_data t) ≠ vu_hash (up_data t').
Proof.
  intros Hn Hi Hj Hij L L' E. pose proof (upload_verified n i t Hn Hi) as Hv.
  destruct (verified_stripe _ Hv) as [k Hk]. apply Hij. eapply (li_excl _ _ (ni_locks _ Hn)); [exact Hi|exact Hj|split; [done|exact Hk]|split; [done|by rewrite <- E]].
Qed.

Lemma ninv_upload n i t t' s : ninv n → nd_uploads n !! i = Some t → upload_step cfg t (nd_shared n) = Some (Ok (t', s)) →
  ninv (mkNode s (nd_verifiers n) (<[i := t']> (nd_uploads n)) (nd_freed n) (nd_cutoff n) (nd_seen n) (acknowledged t' ++ nd_acked n)).
Proof.
  intros Hn Hi H. pose proof Hn as [HD HL HV HN HU HS HA]. pose proof (Forall_lookup_1 _ _ _ _ HU Hi) as Hin. cbn beta in Hin.
  pose proof (upload_verified n i t Hn Hi) as Hv. pose proof (Forall_lookup_1 _ _ _ _ HS Hi) as Hst.
  destruct (upload_step_locks _ _ _ _ H) as (Ed & _ & _).
  destruct (upload_step_disk _ _ _ _ _ _ (di_ok _ _ HD) Hv Hst H) as ((new & lost & He & Hnew & Hlost) & Hst' & Hack).
  assert (∀ c h, id_ok c h → on_disk (so_disk (nd_shared n)) c h → lost c h → expired (nd_seen n) (nd_cutoff n) c h) as Hl by (intros c h Hc Hy Hx; by destruct (Hlost c h Hc Hy)).
  split; cbn [nd_shared nd_verifiers nd_uploads nd_cutoff nd_seen nd_acked]; [|by eapply upload_step_lock_inv|done|done| | |].
  - eapply disk_inv_effect; [exact HD|done| |exact He]. intros u Hu. by destruct (Hnew u Hu) as [-> _].
  - apply Forall_insert; [done|]. by rewrite Ed.
  - apply Forall_lookup. intros j tj Hj. destruct (decide (j = i)) as [->|Hji].
    { rewrite list_lookup_insert_eq in Hj by (by eapply lookup_lt_Some). by injection Hj as <-. }
    rewrite list_lookup_insert_ne in Hj by done.
    eapply stage_ok_effect; [exact He|done|reflexivity|exact (upload_verified n j tj Hn Hj)|exact Hl| |by eapply Forall_lookup_1 in HS].
    intros u Hu L. destruct (Hnew u Hu) as [-> Lt]. by eapply (same_stripe n i j).
  - apply Forall_app. split; [eapply Forall_impl; [exact Hack|]; by intros u [-> ?]|].
    eapply Forall_impl; [exact HA|]. intros u [Hu Hk]. split; [done|]. eapply kept_effect; [exact He|done|reflexivity|exact (proj1 (Forall_forall _ _) HN _ Hu)|exact Hl|done].
Qed.

Lemma ninv_serve n n' : ninv n → nserve n n' → ninv n'.
Proof.
  intros Hn Hstep. pose proof (ni_disk _ Hn) as HD. pose proof (di_ok _ _ HD) as Hok.
  destruct Hstep as [n env req u vs Hreq Ht HV|n env req e vs Hreq HV|n i t t' s Hi H|n now res w Hf Ht Hsm HP|n Hf|n budget head address r o HB|n id s r s' w Hid H].
  - destruct (verify_upload_spec order Horder procs defaultV0 cfg a b Hshape Hmax env req _ _ _ Hreq (ni_verifiers _ Hn) HV) as [Hvs Hu].
    destruct (Hu u eq_refl) as (_ & _ & Hvet). assert (verified u) as Hv by (split; [by exists env|done]).
    assert (Forall verified (u :: nd_seen n)) as Hseen by (constructor; [done|apply Hn]).
    destruct (ninv_effect n none _ (nd_cutoff n) (nd_shared n) (nd_freed n) vs (u :: nd_seen n) Hn ltac:(set_solver) Hseen
      (effect_same scfg _ _ Hok (conj eq_refl eq_refl)) ltac:(lia) ltac:(by intros c h _ _ []) eq_refl eq_refl Hvs) as [D L V N U S A].
    split; cbn [nd_shared nd_verifiers nd_uploads nd_cutoff nd_seen nd_acked] in *; try done.
    + apply lock_inv_snoc; [done|]. by intros [].
    + apply Forall_app. split; [done|]. constructor; [|constructor]. cbn. set_solver.
    + apply Forall_app. split; [done|]. constructor; [done|constructor].
  - destruct (verify_upload_spec order Horder procs defaultV0 cfg a b Hshape Hmax env req _ _ _ Hreq (ni_verifiers _ Hn) HV) as [Hvs _]. by apply ninv_same.
  - by eapply ninv_upload.
  - destruct (prune_effect scfg now _ _ _ Hok Ht Hsm HP) as (res' & _ & He).
    eapply ninv_effect; [exact Hn|done|apply Hn|exact He|lia| |done|done|apply Hn]. intros c h Hc _ [t (Htt & _ & Hk & Hlt)].
    destruct (di_index _ _ HD t c h Hc Htt Hk) as (u & Hu & Hnm & Hm). exists u. split; [done|]. split; [done|].
    rewrite <- Hm. eapply Z.lt_le_trans; [exact Hlt|]. apply Z.div_le_mono; [done|lia].
  - apply ninv_same; [done|done|done|apply Hn].
  - apply ninv_same; [done|done|done|apply Hn].
  - destruct (download_effect id s _ r s' w Hok Hid H) as (He & _). eapply ninv_effect; [exact Hn|done|apply Hn|exact He|lia|by intros c h _ _ []|done|done|apply Hn].
Qed.

Lemma ninv_restarted n s0 opened ce budget head address r s w : ninv n → NewServer defaultV0 cfg = Ok s0 →
  Start cfg opened ce budget head address (s0, so_disk (nd_shared n)) = (r, (s, w)) → ninv (restarted n s w (nd_acked n)).
Proof.
  intros Hn Hs0 H. unfold restarted. pose proof (di_ok _ _ (ni_disk _ Hn)) as Hok.
  destruct (start_staged scfg cfg opened ce budget head address s0 _ r s w eq_refl H) as [He%effect_staged Ev]; [|done].
  destruct (ninv_effect n none w (nd_cutoff n) (set_disk (nd_shared n) w) 0 (nd_verifiers n) (nd_seen n) Hn ltac:(done) (ni_seen _ Hn) He ltac:(lia) ltac:(by intros c h _ _ []) eq_refl eq_refl (ni_verifiers _ Hn)) as [D L V N U S A].
  split; cbn [nd_shared nd_verifiers nd_uploads nd_cutoff nd_seen nd_acked so_disk so_locks set_disk] in *; try done.
  - apply lock_inv_nil.
  - rewrite Ev. by apply NewServer_verifiers.
Qed.

Lemma ninv_step n n' : ninv n → nstep n n' → ninv n'.
Proof.
  intros Hn Hstep. destruct Hstep as [n n' Hs|n s0 opened ce budget head address r s w Hs0 H]; [by eapply ninv_serve|by eapply ninv_restarted].
Qed.

(** ** Crashes *)

Lemma nserve_grows n n' : nserve n n' → nd_seen n ⊆ nd_seen n' ∧ nd_cutoff n <= nd_cutoff n' ∧ nd_acked n ⊆ nd_acked n'.
Proof. intros []; cbn [nd_seen nd_cutoff nd_acked]; split_and!; try lia; set_solver. Qed.

(** A state the database may come back with: its entries are those of uploads
    that were verified, and what was acknowledged by then is marked or due. *)
Record point_ok (seen : list verified_upload) (cutoff : Z) (p : commit_point) : Prop := {
  po_keys : keys_ok p.1;
  po_marked c h : id_ok c h → marked p.1 c h → ∃ t, time_ok t ∧ is_Some (p.1 !! pruneKey t c h);
  po_index t c h : id_ok c h → time_ok t → is_Some (p.1 !! pruneKey t c h) → ∃ u, u ∈ seen ∧ names u c h ∧ t / Minute = vu_pruneAt u / Minute;
  po_acked : Forall (λ u, marked p.1 (Commitment (vu_promise u)) (vu_hash u) ∨ expired seen cutoff (Commitment (vu_promise u)) (vu_hash u)) p.2;
}.

Lemma point_ok_mono seen seen' cutoff cutoff' p : seen ⊆ seen' → cutoff <= cutoff' → point_ok seen cutoff p → point_ok seen' cutoff' p.
Proof.
  intros Hsub Hle [Hk Hm Hi Ha]. split; [done..| |].
  - intros t c h Hch Ht Hs. destruct (Hi t c h Hch Ht Hs) as (u & Hu & ?). exists u. split; [by apply Hsub|done].
  - eapply Forall_impl; [exact Ha|]. intros u [?|?]; [by left|right; by eapply expired_mono].
Qed.

Lemma ninv_point n : ninv n → point_ok (nd_seen n) (nd_cutoff n) (point n).
Proof.
  intros [[[HK HF HI] _ Hx] _ _ _ _ _ HA]. split; [done..|]. eapply Forall_impl; [exact HA|]. intros u [_ [[Hm _]|He]]; [by left|by right].
Qed.

(** The states the database may come back with, the latest first. *)
Record linv (n : node) (log : list commit_point) : Prop := {
  ln_node : ninv n;
  ln_points : Forall (point_ok (nd_seen n) (nd_cutoff n)) log;
  ln_acked : StronglySorted (λ p q, q.2 ⊆ p.2) (point n :: log);
}.

Lemma linv_serve n n' log : linv n log → nserve n n' → linv n' (point n' :: log).
Proof.
  intros [Hn Hp Ha] Hs. pose proof (ninv_serve n n' Hn Hs) as Hn'. destruct (nserve_grows n n' Hs) as (Hsub & Hle & Hack). split; [done|..].
  - constructor; [by apply ninv_point|]. eapply Forall_impl; [exact Hp|]. intros p. by apply point_ok_mono.
  - apply StronglySorted_inv in Ha as [Hlog Hhd]. assert (Forall (λ q, q.2 ⊆ (point n').2) log) as Hhd'.
    { eapply Forall_impl; [exact Hhd|]. cbn. intros q Hq. by etransitivity. }
    constructor; [by constructor|]. by constructor.
Qed.

(** What the process that died leaves for the next one. *)
Lemma ninv_crashed n lost K acked log wc : linv n (lost ++ (K, acked) :: log) → files wc = files (so_disk (nd_shared n)) → kvs wc = K →
  ninv (mkNode (mkShared (so_occ (nd_shared n)) wc ∅) (nd_verifiers n) [] 0 (nd_cutoff n) (nd_seen n) acked).
Proof.
  intros [Hn Hp Ha] EF EK. apply Forall_app in Hp as [_ [Hp _]%Forall_cons]. destruct Hp as [HK HM HI HA]. cbn in HK, HM, HI, HA.
  apply StronglySorted_inv in Ha as [_ [_ [Hsub _]%Forall_cons]%Forall_app]. cbn in Hsub.
  split; cbn [nd_shared nd_verifiers nd_uploads nd_cutoff nd_seen nd_acked so_disk so_locks]; [|apply lock_inv_nil|apply Hn|apply Hn|constructor|constructor|].
  - split; [split|..]; rewrite ?EF, ?EK; [done|apply (di_ok _ _ (ni_disk _ Hn))|done|apply (di_files _ _ (ni_disk _ Hn))|done].
  - apply Forall_forall. intros u Hu. destruct (proj1 (Forall_forall _ _) (ni_acked _ Hn) u (Hsub u Hu)) as [Hseen [[_ Hf]|He]]; (split; [done|]); [|by right].
    destruct (proj1 (Forall_forall _ _) HA u Hu) as [Hm|?]; [left|by right]. split; [by rewrite EK|by rewrite EF].
Qed.

Lemma linv_life x y : linv x.1 x.2 → nlife x y → linv y.1 y.2.
Proof.
  intros Hl Hstep. destruct Hstep as [n n' log Hs|n log s0 opened ce budget head address r s w Hs0 H|n lost K acked log wc s0 opened ce budget head address r s w Hs0 EF EK H];
    cbn [fst snd] in *.
  - by eapply linv_serve.
  - pose proof (ninv_restarted _ _ _ _ _ _ _ _ _ _ (ln_node _ _ Hl) Hs0 H) as Hn. split; [done|constructor; [by apply (ninv_point _ Hn)|constructor]|].
    constructor; [repeat constructor|]. by constructor.
  - pose proof (ninv_restarted _ _ _ _ _ _ _ _ _ _ (ninv_crashed _ _ _ _ _ _ Hl EF EK) Hs0 H) as Hn. destruct Hl as [_ Hp Ha].
    apply Forall_app in Hp as [_ Hp]. apply StronglySorted_inv in Ha as [Hlog _]. apply StronglySorted_app_1_r in Hlog.
    split; [exact Hn|constructor; [exact (ninv_point _ Hn)|exact Hp]|]. apply StronglySorted_inv in Hlog as [Hlog Hhd].
    constructor; [constructor; [by constructor|]; by constructor|]. constructor; [done|]. by constructor.
Qed.

(** Every reachable state. *)
Definition empty_disk (w : W) : Prop := files w = ∅ ∧ kvs w = ∅.

Lemma boot_inv s w : NewServer defaultV0 cfg = Ok s → empty_disk w → ninv (boot s w).
Proof.
  intros Hs [EF EK]. split; cbn.
  - split; [split|..]; rewrite ?EF, ?EK.
    + by intros k [? ?].
    + by intros c h d _ ?.
    + intros c h _ [? ?]; done.
    + by intros c h d _ ?.
    + by intros t c h _ _ [? ?].
  - apply lock_inv_nil.
  - by apply NewServer_verifiers.
  - constructor.
  - constructor.
  - constructor.
  - constructor.
Qed.

(** The states a server that began on a disk gets into. *)
Definition lived (s : Server) (w : W) (n : node) : Prop := ∃ log, rtc nlife (boot s w, [point (boot s w)]) (n, log).

Lemma node_reachable_inv s w n : NewServer defaultV0 cfg = Ok s → empty_disk w → lived s w n → ninv n.
Proof.
  intros Hs Hw [log Hr]. pose proof (boot_inv s w Hs Hw) as H0.
  assert (linv (boot s w) [point (boot s w)]) as Hl by (split; [exact H0|apply Forall_singleton; exact (ninv_point _ H0)|by repeat constructor]).
  change (linv (boot s w, [point (boot s w)]).1 (boot s w, [point (boot s w)]).2) in Hl. change (ninv (n, log).1). revert Hl.
  generalize dependent (n, log). generalize (boot s w, [point (boot s w)]). clear -Horder Hshape RL Hmax SL GL PL DL. intros x y Hr. induction Hr as [x|x y z H1 _ IH]; intros Hl; [apply Hl|].
  apply IH. by eapply linv_life.
Qed.
End Node.
