(* ===== verification/FibreServerProperties.v ===== *)
(** * Properties of the fibre server

    What an acknowledged upload guarantees, what a download returns, how
    uploads in flight behave, how the handler and its steps agree, and how many
    bytes are on disk. *)

From S2P Require Import Prelude Sdk Merkle MerkleProofs Rlc RlcProofs ShardCodec Rsema1d Rsema1dProofs ValidatorSet ShardAssignment FibrePromise FibreCache FibreBlobId ProtocolParams Blob Download DownloadProofs.
From S2P Require Import SdkModel Rsema1dModel DiskModel StoreProperties.
From S2P Require Import Disk ShardStore ShardStoreKeys ShardStoreProofs ShardStorePrune ShardStoreTrace Timestamp Occupancy FibreServer FibreServerProofs FibreServerNode.
#[local] Open Scope Z_scope.



Lemma shardBinarySize_rows shard : Forall is_Some (sh_Rows shard) → ∃ n, shardBinarySize shard = Ok n.
Proof.
  unfold shardBinarySize. generalize (4 + 4 + Z.of_nat (length (sh_Rlcs shard)) + 4). induction (sh_Rows shard) as [|row rows IH]; intros z HF; [by exists z|].
  apply Forall_cons in HF as [[r ->] HF]. cbn. by apply IH.
Qed.


Lemma lock_released (k : Z) (locks : gset Z) : k ∉ locks → ({[k]} ∪ locks) ∖ {[k]} = locks.
Proof. set_solver. Qed.

Section Properties.
Context `{CR : Crypto} `{SL : !Sha256Laws} `{GF : GF16} `{GL : !GF16Laws} `{RS : ReedSolomon} `{RG : Rng}.
Context `{PC : PromiseCodec} `{PL : !PromiseCodecLaws} {W : Type} `{FS : !Vfs W} `{DB : !Pebble W} `{DL : !DiskLaws W}.
Context (order : nat → list nat) (procs : Z) (defaultV0 : BlobConfig) (cfg : ServerConfig) (a b : nat).

Abbreviation scfg := (sc_StoreConfig cfg).
Abbreviation on_disk w := (stored scfg (files w) (kvs w)).






(** ** The handler and its steps *)

Lemma run_upload_step f t s t' s' : upload_step cfg t s = Some (Ok (t', s')) → run_upload cfg (S f) t s = run_upload cfg f t' s'.
Proof. intros H. cbn [run_upload]. by rewrite H. Qed.

Lemma run_leaving f env u r k o w locks : uploadLock (vu_hash u) = Ok k → k ∉ locks →
  run_upload cfg (S f) (mkUpload env u (ULeaving r)) (mkShared o w ({[k]} ∪ locks)) = run_upload cfg f (mkUpload env u (UEnded r)) (mkShared o w locks).
Proof.
  intros Hk Hn. apply run_upload_step. unfold upload_step. cbn [up_stage up_data]. rewrite Hk. unfold at_stage. cbn.
  by rewrite lock_released.
Qed.

Lemma run_signing f env u k o w locks : uploadLock (vu_hash u) = Ok k → k ∉ locks →
  run_upload cfg (S (S f)) (mkUpload env u USigning) (mkShared o w ({[k]} ∪ locks)) =
  match wrap (status_Error Internal "failed to sign payment promise") (SignPaymentPromiseValidator (ue_SignRawBytes env) (vu_promise u)) with
  | Panic p => Panic p
  | r => Ok (mkUpload env u (UEnded r), mkShared o w locks)
  end.
Proof.
  intros Hk Hn. cbn [run_upload]. unfold upload_step at 1. cbn [up_stage up_data up_env].
  destruct (SignPaymentPromiseValidator _ _) as [sig|e|p]; cbn [wrap]; [| |done];
    (etransitivity; [exact (run_leaving f env u _ k o w locks Hk Hn)|]; by destruct f).
Qed.

Lemma run_reserving f env u n o w locks :
  run_upload cfg (S (S (S f))) (mkUpload env u (UReserving (Reserving n))) (mkShared o w locks) =
  if (reserve n o).1 then run_upload cfg (S f) (mkUpload env u (UStoring n)) (mkShared (reserve n o).2 w locks)
  else run_upload cfg f (mkUpload env u (ULeaving (Err (status_Error ResourceExhausted "fibre storage budget exceeded")))) (mkShared (reserve n o).2 w locks).
Proof.
  rewrite (run_upload_step (S (S f)) _ _ (mkUpload env u (UReserving (Loaded n (occ_budget o)))) (mkShared o w locks)) by done.
  unfold reserve. destruct (occ_budget o <=? 0) eqn:Eb; [|destruct (occ_used (add_used n o) <=? occ_budget o) eqn:Eu]; cbn [fst snd].
  - apply (run_upload_step (S f)). unfold upload_step. cbn. by rewrite Eb.
  - apply (run_upload_step (S f)). unfold upload_step. cbn [up_stage reserve_step so_occ]. by rewrite Eb, Eu.
  - rewrite (run_upload_step (S f) _ _ (mkUpload env u (UReserving (Undoing n))) (mkShared (add_used n o) w locks)); [by apply (run_upload_step f)|].
    unfold upload_step. cbn [up_stage reserve_step so_occ]. by rewrite Eb, Eu.
Qed.

(** The steps of an upload that finds its stripe free and is not interrupted
    are the handler: they end with the handler's result, disk and counter, the
    stripe free again, and panic exactly when it panics. *)
Theorem upload_steps_are_handler env u k s w locks : uploadLock (vu_hash u) = Ok k → k ∉ locks →
  run_upload cfg 9 (mkUpload env u UWaiting) (mkShared (srv_occ s) w locks) =
  match admit_upload cfg env u (s, w) with
  | (Panic p, _) => Panic p
  | (r, (s', w')) => Ok (mkUpload env u (UEnded r), mkShared (srv_occ s') w' locks)
  end.
Proof.
  intros Hk Hn. unfold admit_upload, wrap_err, attempt, mbind, io_bind, pure, mret, io_ret. rewrite Hk.
  change (run_upload cfg 9 ?t ?sh) with (match upload_step cfg t sh with Some (Ok (t', s')) => run_upload cfg 8 t' s' | Some (Err e) => Err e | Some (Panic p) => Panic p | None => Ok (t, sh) end).
  unfold upload_step at 1. cbn [up_stage up_data so_locks so_occ so_disk]. rewrite Hk, decide_False by done. unfold at_stage. cbn [up_env up_data].
  change (run_upload cfg 8 ?t ?sh) with (match upload_step cfg t sh with Some (Ok (t', s')) => run_upload cfg 7 t' s' | Some (Err e) => Err e | Some (Panic p) => Panic p | None => Ok (t, sh) end).
  unfold upload_step at 1. cbn [up_stage up_data so_disk]. unfold on_store at 1. destruct (Has scfg _ _ w) as [[[]|e|p] wh]; cbn [negb]; [| | |done].
  - etransitivity; [exact (run_signing 5 env u k (srv_occ s) wh locks Hk Hn)|]. by destruct (SignPaymentPromiseValidator _ _).
  - unfold store_upload, mbind, io_bind, pure, attempt, on_occ. destruct (shardBinarySize (vu_shard u)) as [n|e|p]; [| |done].
    2:{ exact (run_leaving 6 env u (Err e) k (srv_occ s) wh locks Hk Hn). }
    etransitivity; [exact (run_reserving 4 env u n (srv_occ s) wh ({[k]} ∪ locks))|]. destruct (reserve n (srv_occ s)) as [[] o]; cbn [fst snd negb].
    2:{ exact (run_leaving 3 env u _ k o wh locks Hk Hn). }
    change (run_upload cfg 5 ?t ?sh) with (match upload_step cfg t sh with Some (Ok (t', s')) => run_upload cfg 4 t' s' | Some (Err e) => Err e | Some (Panic p) => Panic p | None => Ok (t, sh) end).
    unfold upload_step at 1, on_store. cbn [up_stage up_data up_env so_disk]. destruct (Put scfg _ _ _ _ wh) as [[[]|e|p] wp]; [| |done].
    + etransitivity; [exact (run_signing 2 env u k o wp locks Hk Hn)|]. by destruct (SignPaymentPromiseValidator _ _).
    + exact (run_leaving 2 env u (Err (put_error env)) k (release n o) wp locks Hk Hn).
  - exact (run_leaving 6 env u (Err _) k (srv_occ s) wh locks Hk Hn).
Qed.

(** ** Progress *)

(** The steps an upload has left at most. *)
Definition rank (t : upload) : nat :=
  match up_stage t with
  | UWaiting => 8
  | UHolding => 7
  | UReserving (Reserving _) => 6
  | UReserving (Loaded _ _) => 5
  | UReserving _ => 2
  | UStoring _ => 3
  | UFailing _ => 2
  | USigning => 2
  | ULeaving _ => 1
  | UEnded _ => 0
  end.

Definition ended (t : upload) : Prop := match up_stage t with UEnded _ => True | _ => False end.

(** A signer that answers. *)
Definition signer_answers (t : upload) : Prop := ∀ chain prefix m, no_panic (ue_SignRawBytes (up_env t) chain prefix m).

Lemma SignPaymentPromiseValidator_no_panic sign p : (∀ c x m, no_panic (sign c x m)) → no_panic (SignPaymentPromiseValidator sign p).
Proof.
  intros Hs q. unfold SignPaymentPromiseValidator, strippedSignBytes. destruct (SignerKey p); [|done]. cbn.
  pose proof (Hs (ChainID p) signBytesPrefix) as Hs'. match goal with |- context [sign ?x ?y ?m] => specialize (Hs' m); destruct (sign x y m) as [sig|e|pp] end; cbn; [|done|by destruct (Hs' pp)].
  by destruct (length sig =? 64)%nat.
Qed.

Lemma upload_can_step seen t s cutoff : store_ok scfg (so_disk s) → verified defaultV0 cfg b (up_data t) → stage_ok cfg seen (so_disk s) cutoff t → signer_answers t →
  match upload_step cfg t s with
  | Some (Ok (t', _)) => (rank t' < rank t)%nat
  | Some _ => False
  | None => ended t ∨ up_stage t = UWaiting ∧ ∃ k, uploadLock (vu_hash (up_data t)) = Ok k ∧ k ∈ so_locks s
  end.
Proof.
  intros Hok Hv Hst Hsig. destruct (verified_stripe _ _ _ _ Hv) as [k Hk].
  unfold upload_step, rank, ended. unfold stage_ok in Hst. destruct (up_stage t) as [| |c|n|n| |r|r] eqn:Est; cbn [at_stage up_stage up_env up_data].
  - rewrite Hk. destruct (decide _); [right; split; [done|by exists k]|]. cbn. lia.
  - destruct (Has scfg _ _ _) as [rh w] eqn:EH. destruct (has_effect scfg _ _ _ _ _ Hok EH) as (_ & _ & _ & Hnp).
    destruct rh as [[]|e|p]; [cbn; lia| |cbn; lia|by destruct (Hnp p)]. pose proof (verified_fits_store _ _ _ _ Hv) as (_ & _ & Hsh & _).
    destruct (shardBinarySize_rows _ (proj1 (shard_ok_rows _ Hsh))) as [n ->]. cbn. lia.
  - destruct Hst as [Hu _]. destruct c as [n|n bud|n|n| |]; try done; cbn [reserve_step].
    + cbn. lia.
    + destruct (bud <=? 0); [cbn; lia|]. destruct (_ <=? bud); cbn; lia.
    + cbn. lia.
  - destruct (Put scfg _ _ _ _ _) as [rp w] eqn:EP. destruct (put_effect scfg _ _ _ _ _ Hok (verified_fits_store _ _ _ _ Hv) EP) as (Hnp & _).
    destruct rp as [[]|e|p]; [cbn; lia..|by destruct (Hnp p)].
  - cbn. lia.
  - pose proof (SignPaymentPromiseValidator_no_panic (ue_SignRawBytes (up_env t)) (vu_promise (up_data t)) Hsig) as Hnp.
    destruct (SignPaymentPromiseValidator _ _) as [sig|e|p]; [cbn; lia..|by destruct (Hnp p)].
  - rewrite Hk. cbn. lia.
  - by left.
Qed.

Section Reachable.
Context (Horder : order_ok order) (Hshape : shape (vcfg defaultV0) a b) `{RL : !ReedSolomonLaws (cfg_K (vcfg defaultV0)) (cfg_N (vcfg defaultV0))}.
Context (Hmax : 0 < bc_MaxRowSize defaultV0 <= shardLengthLimit).
Context (s0 : Server) (w0 : W) (n : node (W := W)) (Hs0 : NewServer defaultV0 cfg = Ok s0) (Hw0 : empty_disk w0).
Context (Hn : lived order procs defaultV0 cfg s0 w0 n).

(** C11: In every state that uploads, downloads, pruning, changes of the budget,
    restarts and crashes of the process lead to, whatever call of the disk
    failed on the way, a download returns only a shard that a client parses and
    whose rows open to the commitment of the id it asked for. *)
Theorem served_shards_open id s s' w' shard : Forall byte_ok id →
  DownloadShard defaultV0 cfg id (s, so_disk (nd_shared n)) = (Ok shard, (s', w')) →
  ∃ v c, id = v :: c ∧ length c = CommitmentSize ∧ opens defaultV0 b c shard ∧ s' = s.
Proof.
  intros Hid H. pose proof (node_reachable_inv order Horder procs defaultV0 cfg a b Hshape Hmax s0 w0 n Hs0 Hw0 Hn) as HI. pose proof (ni_disk _ _ _ _ HI) as HD.
  destruct (download_effect defaultV0 cfg id s _ _ s' w' (di_ok _ _ _ HD) Hid H) as (_ & Es & _ & Hok).
  destruct (Hok shard eq_refl) as (v & c & h & d & -> & Hi & Hd & Hr). destruct (di_files _ _ _ HD c h d Hi Hd) as (u & Hin & [<- <-] & ->).
  destruct (proj1 (Forall_forall _ _) (ni_seen _ _ _ _ HI) u Hin) as [[env Hu] _].
  exists v, (Commitment (vu_promise u)). split; [done|]. split; [apply Hi|]. split; [|done].
  destruct (shard_ok_rows _ (vt_fits _ _ _ _ _ Hu)) as (_ & sh & Hr' & ->). rewrite (readable_inj _ _ _ Hr Hr'). apply Hu.
Qed.

(** C10: An upload that was acknowledged stays on disk, through concurrent
    uploads, downloads, failed calls of the disk and orderly restarts, until
    pruning has passed the minute of a prune time that the server gave to its
    promise; the file holds a verified shard of the promise, and when the disk
    answers, the store reports it present. A crash of the process takes the
    database back to an earlier commit, because the store commits without a
    sync: it loses the uploads acknowledged after that commit, and no other. *)
Theorem acknowledged_upload_kept u : u ∈ nd_acked n →
  (∀ u', u' ∈ nd_seen n → names u' (Commitment (vu_promise u)) (vu_hash u) → nd_cutoff n / Minute <= vu_pruneAt u' / Minute) →
  on_disk (so_disk (nd_shared n)) (Commitment (vu_promise u)) (vu_hash u) ∧
  (∃ u' env, u' ∈ nd_seen n ∧ names u' (Commitment (vu_promise u)) (vu_hash u) ∧ vetted defaultV0 cfg b env u' ∧
     files (so_disk (nd_shared n)) !! shardFilePath scfg (Commitment (vu_promise u)) (vu_hash u) = Some (shard_bytes (vu_shard u'))) ∧
  (¬ faulty → (Has scfg (Commitment (vu_promise u)) (vu_hash u) (so_disk (nd_shared n))).1 = Ok true).
Proof.
  intros Hu Hcut. pose proof (node_reachable_inv order Horder procs defaultV0 cfg a b Hshape Hmax s0 w0 n Hs0 Hw0 Hn) as HI.
  pose proof (proj1 (Forall_forall _ _) (ni_seen _ _ _ _ HI)) as Hseen.
  destruct (proj1 (Forall_forall _ _) (ni_acked _ _ _ _ HI) u Hu) as [Hv [Hst|(u' & Hu' & Hnm & Hlt)]]; [|specialize (Hcut u' Hu' Hnm); lia].
  split; [done|]. split.
  - pose proof Hst as [_ [d Hd]]. destruct (di_files _ _ _ (ni_disk _ _ _ _ HI) _ _ _ (verified_id _ _ _ _ (Hseen u Hv)) Hd) as (u' & Hu' & Hnm & ->).
    destruct (Hseen u' Hu') as [[env Hvet] _]. by exists u', env.
  - intros Hnf. pose proof (Has_spec scfg _ _ (Commitment (vu_promise u)) (vu_hash u) (so_disk (nd_shared n)) (conj eq_refl eq_refl)) as H.
    destruct (Has scfg _ _ _) as [[r|e|p] w']; cbn in *; [|by destruct H|done]. destruct H as [Hb _]. f_equal. by apply Hb.
Qed.

(** C13: As long as the signer answers, no upload in flight panics, and the
    uploads never block each other for good: while one is not finished, it or
    the upload that holds its stripe can take a step, and every step brings an
    upload nearer to its end, which is at most eight steps away. *)
Theorem uploads_progress i t : Forall signer_answers (nd_uploads n) → nd_uploads n !! i = Some t →
  (rank t <= 8)%nat ∧
  (∀ r, upload_step cfg t (nd_shared n) = Some r → is_ok r = true) ∧
  (¬ ended t → ∃ j t1 t1' s1, nd_uploads n !! j = Some t1 ∧ uploadLock (vu_hash (up_data t1)) = uploadLock (vu_hash (up_data t)) ∧
     upload_step cfg t1 (nd_shared n) = Some (Ok (t1', s1)) ∧ (rank t1' < rank t1)%nat).
Proof.
  intros Hsig Hi. pose proof (node_reachable_inv order Horder procs defaultV0 cfg a b Hshape Hmax s0 w0 n Hs0 Hw0 Hn) as HI.
  assert (∀ j tj, nd_uploads n !! j = Some tj → match upload_step cfg tj (nd_shared n) with Some (Ok (t', _)) => (rank t' < rank tj)%nat | Some _ => False
    | None => ended tj ∨ up_stage tj = UWaiting ∧ ∃ k, uploadLock (vu_hash (up_data tj)) = Ok k ∧ k ∈ so_locks (nd_shared n) end) as Hcan.
  { intros j tj Hj. eapply upload_can_step; [apply (ni_disk _ _ _ _ HI)|exact (upload_verified _ _ _ _ _ _ HI Hj)|exact (Forall_lookup_1 _ _ _ _ (ni_stages _ _ _ _ HI) Hj)|].
    exact (Forall_lookup_1 _ _ _ _ Hsig Hj). }
  split; [unfold rank; repeat case_match; lia|]. split.
  - intros r Hr. specialize (Hcan i t Hi). rewrite Hr in Hcan. by destruct r.
  - intros Hne. pose proof (Hcan i t Hi) as Hc. destruct (upload_step cfg t (nd_shared n)) as [[[t' s']|e|p]|] eqn:E; [by exists i, t, t', s'|done|done|].
    destruct Hc as [?|(_ & k & Hk & Hin)]; [done|]. destruct (proj1 (li_held _ _ (ni_locks _ _ _ _ HI) k) Hin) as (j & tj & Hj & Hl & Hkj).
    pose proof (Hcan j tj Hj) as Hcj. destruct (upload_step cfg tj (nd_shared n)) as [[[t' s']|e|p]|] eqn:Ej; [exists j, tj, t', s'; by rewrite Hkj, Hk|done|done|].
    exfalso. unfold ended in Hcj. destruct Hcj as [Hc|[Hc _]]; [by destruct (up_stage tj)|by rewrite Hc in Hl].
Qed.
End Reachable.
End Properties.

(** ** A run of a server

    The second of two validators, with the code of one data row and one parity
    row and a disk in memory: it is given the data row. *)

Module ServerRuns.
Import Toy.
#[local] Existing Instance StoreRuns.reliable_vfs.
#[local] Existing Instance StoreRuns.reliable_pebble.
#[local] Existing Instance StoreRuns.reliable_laws.
#[local] Instance rng : Rng := { uint64n seed k n := (k mod n)%nat }.

Definition bcfg : BlobConfig := mkBlobConfig 0 1 1 (λ _, Ok 64) 59 64 1 cfg11 (mkAssembler 1 1 64 64).
Definition config : ServerConfig := mkServerConfig (mkStoreConfig (str "/data")) (mkFraction 1 3) 1 1 1000 1000 1 false.

Definition commitment : bytes :=
  [154; 35; 242; 241; 184; 19; 220; 202; 190; 134; 176; 190; 61; 160; 6; 59; 155; 231; 178; 88; 219; 151; 198; 204; 215; 160; 243; 171; 200; 92; 191; 129].
Definition shard : BlobShard := mkBlobShard
  [Some (mkBlobRow 0 (repeat 5 64)
    [[67; 111; 65; 197; 184; 110; 176; 47; 195; 45; 1; 182; 116; 67; 63; 88; 161; 35; 107; 165; 247; 249; 58; 112; 123; 255; 157; 188; 209; 113; 72; 136]])]
  [0; 0; 0; 0; 0; 0; 0; 0; 0; 0; 0; 0; 5; 4; 0; 0].
Definition t0 : Z := 738000 * 24 * Hour.
Definition proto : PromiseProto := mkPromiseProto "celestia" 10 (repeat 1 29) 64 0 commitment t0 (repeat 7 33) (7 :: repeat 3 63).
Definition request : UploadShardRequest := mkUploadShardRequest (Some proto) (Some shard).
Definition set : ValSet := mkValSet [mkValidator [1] [1] 30; mkValidator [2] [2] 20] 50 1.
Definition env : UploadEnv := mkUploadEnv "celestia" (Ok (mkVerifiedPromise (t0 + 2 * Hour) (4 * Hour))) (Ok set) (Ok [2]) None
  StoreRuns.live None (λ _ _ _, Ok (repeat 8 64)).

(** A codec that knows the promise. *)
#[local] Instance codec : PromiseCodec := {
  Marshal pb := if decide (pb = proto) then Ok [1] else Err "unknown";
  Unmarshal b := if decide (b = [1]) then Ok proto else Err "unknown";
}.
#[local] Instance codec_laws : PromiseCodecLaws.
Proof.
  split; cbn.
  - intros pb p. by case_decide.
  - intros b p. by case_decide.
  - intros pb b. case_decide as E; [|done]. intros [= <-]. by rewrite E.
Qed.

Definition promise : PaymentPromise := mkPaymentPromise (Some (repeat 7 33)) "celestia" (repeat 1 29) 64 0 commitment t0 (7 :: repeat 3 63) 10.
Definition hash : bytes := match Hash promise with Ok h => h | _ => [] end.
Definition up : verified_upload := mkVerifiedUpload promise hash shard (t0 + 4 * Hour).
Definition server0 : Server := mkServer (match NewServer bcfg config with Ok s => srv_verifiers s | _ => [] end) (newOccupancy 0).
Abbreviation verifiers1 := (verify_upload order_seq 1 bcfg config env request (srv_verifiers server0)).2.

Lemma paired {A B} (p : A * B) a : p.1 = a → p = (a, p.2).
Proof. destruct p. by intros <-. Qed.

Lemma server0_new : NewServer bcfg config = Ok server0.
Proof. reflexivity. Qed.

Lemma checked : verify_upload order_seq 1 bcfg config env request (srv_verifiers server0) = (Ok up, verifiers1).
Proof. apply paired. vm_cast_no_check (@eq_refl (result verified_upload) (Ok up)). Qed.

(** The upload of the request, step by step. *)
Definition started : node := mkNode (mkShared (srv_occ server0) empty_mem ∅) verifiers1 [mkUpload env up UWaiting] 0 0 [up] [].

Fixpoint steps (k : nat) (n : node) : node :=
  match k, nd_uploads n !! 0%nat with
  | S k', Some t =>
      match upload_step config t (nd_shared n) with
      | Some (Ok (t', s)) =>
          steps k' (mkNode s (nd_verifiers n) (<[0%nat := t']> (nd_uploads n)) (nd_freed n) (nd_cutoff n) (nd_seen n) (acknowledged t' ++ nd_acked n))
      | _ => n
      end
  | _, _ => n
  end.

Abbreviation run := (rtc (nstep order_seq 1 bcfg config)).
Abbreviation life := (rtc (nlife order_seq 1 bcfg config)).
Abbreviation reached := (lived order_seq 1 bcfg config server0 empty_mem).

Lemma reached_log n n' : reached n → nserve order_seq 1 bcfg config n n' →
  ∃ log, life (boot server0 empty_mem, [point (boot server0 empty_mem)]) (n', point n' :: log).
Proof. intros [log H] Hs. exists log. eapply rtc_r; [exact H|]. exact (nl_serve _ _ _ _ n n' log Hs). Qed.

Lemma reached_serve n n' : reached n → nserve order_seq 1 bcfg config n n' → reached n'.
Proof. intros Hn Hs. destruct (reached_log n n' Hn Hs) as [log H]. by exists (point n' :: log). Qed.

Lemma steps_run k : ∀ n, reached n → reached (steps k n).
Proof.
  induction k as [|k IH]; intros n Hn; [exact Hn|]. cbn [steps]. destruct (nd_uploads n !! 0%nat) as [t|] eqn:Ht; [|exact Hn].
  destruct (upload_step config t (nd_shared n)) as [[[t' s]|e|p]|] eqn:Es; try exact Hn. apply IH. eapply reached_serve; [exact Hn|]. by eapply ns_upload.
Qed.

Lemma request_good : request_ok request.
Proof.
  split; [intros pb [= <-]; by apply StoreRuns.bytes_ok_dec|]. intros sh [= <-]. split; [|by apply StoreRuns.bytes_ok_dec].
  constructor; [|constructor]. cbn. by apply StoreRuns.bytes_ok_dec.
Qed.

Lemma up_time : time_ok (vu_pruneAt up).
Proof. unfold time_ok, time_limit. cbn. unfold t0, Hour, Minute, Second. lia. Qed.

Lemma started_run : reached started.
Proof.
  apply (reached_serve (boot server0 empty_mem)); [eexists; apply rtc_refl|].
  exact (ns_begin _ _ _ _ (boot server0 empty_mem) env request up verifiers1 request_good up_time checked).
Qed.

Definition final : node := steps 8 started.
Definition middle : node := steps 2 started.

Lemma final_acked : nd_acked final = [up].
Proof. vm_cast_no_check (eq_refl [up]). Qed.

Lemma order_ok_run : order_ok order_seq.
Proof. exact order_seq_ok. Qed.

Lemma shape_run : shape (vcfg bcfg) 0 1.
Proof. destruct cfg11_shape. split; assumption. Qed.

Lemma empty_disk_run : empty_disk empty_mem.
Proof. split; reflexivity. Qed.

Lemma rows_fit : 0 < bc_MaxRowSize bcfg <= shardLengthLimit.
Proof. split; [reflexivity|]. discriminate. Qed.

Lemma final_run : reached final.
Proof. exact (steps_run 8 started started_run). Qed.

#[local] Opaque final.

(** An hour before the prune time the loop finds nothing to prune. *)
Definition now : Z := t0 + 3 * Hour.
Abbreviation pass := (PruneBefore (sc_StoreConfig config) now (so_disk (nd_shared final))).
Definition pruned : node := mkNode (set_disk (nd_shared final) pass.2) (nd_verifiers final) (nd_uploads final) 0 (Z.max now (nd_cutoff final)) (nd_seen final) (nd_acked final).

Lemma pass_done : pass = (Ok (mkPruneResult 0 0 None), pass.2).
Proof. apply paired. vm_cast_no_check (@eq_refl (result PruneResult) (Ok (mkPruneResult 0 0 None))). Qed.

Lemma pruned_step : nserve order_seq 1 bcfg config final pruned.
Proof.
  refine (ns_prune _ _ _ _ final now (mkPruneResult 0 0 None) pass.2 _ _ _ pass_done).
  - vm_cast_no_check (@eq_refl Z 0).
  - unfold time_ok, time_limit, now, t0, Hour, Minute, Second. lia.
  - apply StoreRuns.small_mem. vm_cast_no_check (eq_refl true).
Qed.

Lemma pruned_state : nd_acked pruned = [up] ∧ nd_seen pruned = [up] ∧ nd_cutoff pruned = now.
Proof.
  split; [vm_cast_no_check (eq_refl [up])|]. split; [vm_cast_no_check (eq_refl [up])|vm_cast_no_check (eq_refl now)].
Qed.

(** Then the process dies, with its last commit on disk, and comes back. *)
Abbreviation reopened := (Start config None (λ _, None) (Ok 1000) (Ok set) (Ok [2]) (server0, so_disk (nd_shared pruned))).
Definition crashed : node := restarted pruned reopened.2.1 reopened.2.2 (nd_acked pruned).

Lemma reached_crash n opened ctxErr budget head address s w log :
  life (boot server0 empty_mem, [point (boot server0 empty_mem)]) (n, point n :: log) →
  (Start config opened ctxErr budget head address (server0, so_disk (nd_shared n))).2 = (s, w) → reached (restarted n s w (nd_acked n)).
Proof.
  intros H E. eexists. eapply rtc_r; [exact H|].
  refine (nl_crash _ _ _ _ n [] (kvs (so_disk (nd_shared n))) (nd_acked n) log (so_disk (nd_shared n)) server0 opened ctxErr budget head address
    (Start config opened ctxErr budget head address (server0, so_disk (nd_shared n))).1 s w server0_new eq_refl eq_refl _).
  rewrite <- E. apply surjective_pairing.
Qed.

Lemma crashed_run : reached crashed.
Proof.
  destruct (reached_log final pruned final_run pruned_step) as [log H]. unfold crashed.
  exact (reached_crash pruned None (λ _, None) (Ok 1000) (Ok set) (Ok [2]) _ _ log H (surjective_pairing _)).
Qed.

Lemma restarted_state (n : node (W := Mem)) s w acked : nd_acked (restarted n s w acked) = acked ∧ nd_seen (restarted n s w acked) = nd_seen n ∧
  nd_cutoff (restarted n s w acked) = nd_cutoff n.
Proof. done. Qed.

Lemma crashed_state : nd_acked crashed = [up] ∧ nd_seen crashed = [up] ∧ nd_cutoff crashed = now.
Proof.
  destruct pruned_state as (Ea & Es & Ec), (restarted_state pruned reopened.2.1 reopened.2.2 (nd_acked pruned)) as (Ra & Rs & Rc).
  exact (conj (eq_trans Ra Ea) (conj (eq_trans Rs Es) (eq_trans Rc Ec))).
Qed.

Lemma acknowledged_upload_kept_witness :
  stored (sc_StoreConfig config) (files (so_disk (nd_shared crashed))) (kvs (so_disk (nd_shared crashed))) commitment hash ∧
  (Has (sc_StoreConfig config) commitment hash (so_disk (nd_shared crashed))).1 = Ok true.
Proof.
  destruct crashed_state as (Ea & Es & Ec).
  assert (up ∈ nd_acked crashed) as Hin by (rewrite Ea; apply list_elem_of_singleton; reflexivity).
  assert (∀ u', u' ∈ nd_seen crashed → names u' (Commitment (vu_promise up)) (vu_hash up) → nd_cutoff crashed / Minute <= vu_pruneAt u' / Minute) as Hcut.
  { intros u' Hu' _. rewrite Es in Hu'. apply list_elem_of_singleton in Hu'. rewrite Hu', Ec. apply Z.div_le_mono; [reflexivity|]. unfold now. cbn [vu_pruneAt up]. unfold Hour, Minute, Second. lia. }
  destruct (acknowledged_upload_kept order_seq 1 bcfg config 0 1 order_ok_run shape_run rows_fit server0 empty_mem crashed server0_new empty_disk_run crashed_run up Hin Hcut)
    as (H1 & _ & H3). split; [exact H1|exact (H3 StoreRuns.reliable)].
Defined.

Abbreviation fetched := (DownloadShard bcfg config (0 :: commitment) (server0, so_disk (nd_shared final))).

Lemma download_run : DownloadShard bcfg config (0 :: commitment) (server0, so_disk (nd_shared final)) = (Ok shard, (fetched.2.1, fetched.2.2)).
Proof. rewrite <- surjective_pairing. apply paired. vm_cast_no_check (@eq_refl (result BlobShard) (Ok shard)). Qed.

Lemma served_shards_open_witness : DownloadShard bcfg config (0 :: commitment) (server0, so_disk (nd_shared final)) = (Ok shard, (fetched.2.1, fetched.2.2)) ∧
  opens bcfg 1 commitment shard.
Proof.
  split; [exact download_run|].
  destruct (served_shards_open order_seq 1 bcfg config 0 1 order_ok_run shape_run rows_fit server0 empty_mem final server0_new empty_disk_run final_run
    (0 :: commitment) server0 fetched.2.1 fetched.2.2 shard (StoreRuns.bytes_ok_dec (0 :: commitment) eq_refl) download_run) as (v & c & E & _ & H & _).
  injection E as _ Ec. rewrite <- Ec in H. exact H.
Defined.

(** The upload while it reserves its 140 bytes. *)
Lemma middle_run : reached middle.
Proof. exact (steps_run 2 started started_run). Qed.

Definition reserving : upload := mkUpload env up (UReserving (Reserving 140)).

Lemma middle_uploads : nd_uploads middle = [reserving].
Proof. vm_cast_no_check (eq_refl [reserving]). Qed.

Lemma uploads_progress_witness : nd_uploads middle !! 0%nat = Some reserving ∧
  ∃ j t1 t1' s1, nd_uploads middle !! j = Some t1 ∧ upload_step config t1 (nd_shared middle) = Some (Ok (t1', s1)) ∧ (rank t1' < rank t1)%nat.
Proof.
  assert (nd_uploads middle !! 0%nat = Some reserving) as Hi by (rewrite middle_uploads; reflexivity).
  assert (Forall signer_answers (nd_uploads middle)) as Hsig by (rewrite middle_uploads; constructor; [|constructor]; intros c x m p Hp; discriminate Hp).
  destruct (uploads_progress order_seq 1 bcfg config 0 1 order_ok_run shape_run rows_fit server0 empty_mem middle server0_new empty_disk_run middle_run
    0 reserving Hsig Hi) as (_ & _ & H). destruct (H ltac:(intros [])) as (j & t1 & t1' & s1 & H1 & _ & H2 & H3).
  split; [exact Hi|]. exists j, t1, t1', s1. split; [exact H1|]. split; [exact H2|exact H3].
Defined.

(** The handler on the same request. *)
Abbreviation handled := (admit_upload config env up (mkServer verifiers1 (srv_occ server0), empty_mem)).

Lemma admitted : handled = (Ok (repeat 8 64), handled.2).
Proof. apply paired. vm_cast_no_check (@eq_refl (result bytes) (Ok (repeat 8 64))). Qed.



Lemma upload_steps_are_handler_witness : ∃ t s, run_upload config 9 (mkUpload env up UWaiting) (mkShared (newOccupancy 0) empty_mem ∅) = Ok (t, s) ∧
  up_stage t = UEnded (Ok (repeat 8 64)) ∧ so_locks s = ∅.
Proof.
  assert (uploadLock (vu_hash up) = Ok (nth 0 hash 0)) as Hk by (vm_cast_no_check (@eq_refl (result Z) (Ok (nth 0 hash 0)))).
  assert (nth 0 hash 0 ∉ (∅ : gset Z)) as Hn by (intros H; exact (not_elem_of_empty _ H)).
  pose proof (upload_steps_are_handler config env up (nth 0 hash 0) (mkServer verifiers1 (srv_occ server0)) empty_mem ∅ Hk Hn) as H.
  rewrite admitted in H. destruct handled.2 as [s' w']. eexists _, _. split; [exact H|]. split; [exact eq_refl|exact eq_refl].
Defined.
End ServerRuns.

(** ** The bytes on a fibre server's disk

    On a reliable disk the serving steps of a node are steps of the occupancy
    counter of [Occupancy]: the bytes it counts as stored are the bytes of the
    shard files. The bound on the counter is a bound on the disk. *)

(** ** Sizes *)

Lemma length_concat_le {A B} (f : A → list B) (m : Z) l : 0 <= m → Forall (λ x, Z.of_nat (length (f x)) <= m) l →
  Z.of_nat (length (concat (map f l))) <= Z.of_nat (length l) * m.
Proof.
  intros Hm. induction 1 as [|x l Hx HF IH]; cbn [map concat length]; [lia|]. rewrite length_app. lia.
Qed.

(** A shard that the store can hold has the size that is reserved for it. *)
Lemma shard_ok_size shard : shard_ok shard → shardBinarySize shard = Ok (Z.of_nat (length (shard_bytes shard))).
Proof.
  destruct shard as [rs rlcs]. intros (rows & E & [Hl Hc Hr]). cbn in E, Hl. subst rs. unfold shard_bytes. cbn. rewrite omap_Some.
  apply shardBinarySize_exact. unfold enc_shard, put_len, put_u32. rewrite !length_app, !length_be_bytes.
  assert (shardLengthLimit = 2 ^ 30 ∧ maxShardRows = 2 ^ 16 ∧ maxRowProofSegments = 64) as (E1 & E2 & E3) by done. rewrite E1, ?E2 in *.
  assert (Forall (λ row, Z.of_nat (length (enc_row row)) <= 2 ^ 37) rows) as HR.
  { eapply Forall_impl; [exact Hr|]. intros row [_ Hd Hp Hs]. unfold enc_row, put_len, put_u32. rewrite !length_app, !length_be_bytes.
    assert (Z.of_nat (length (concat (map enc_segment (row_Proof row)))) <= Z.of_nat (length (row_Proof row)) * (4 + 2 ^ 30)) as Hseg.
    { apply length_concat_le; [lia|]. eapply Forall_impl; [exact Hs|]. intros seg Hlen. unfold enc_segment, put_len, put_u32. rewrite length_app, length_be_bytes. rewrite E1 in Hlen. lia. }
    rewrite E1 in Hd. rewrite E3 in Hp. lia. }
  pose proof (length_concat_le enc_row (2 ^ 37) rows ltac:(lia) HR). unfold two63. lia.
Qed.

(** Removing files frees no negative number of bytes. *)
Lemma stored_bytes_files_le scfg F paths : stored_bytes scfg (delete_files F paths) <= stored_bytes scfg F.
Proof.
  revert F. induction paths as [|p paths IH]; intros F; [done|]. change (delete_files F (p :: paths)) with (delete_files (delete p F) paths).
  etransitivity; [apply IH|]. destruct (decide (below (shardsDir scfg) p)) as [Hp|Hp].
  - rewrite stored_bytes_delete by done. destruct (F !! p); cbn; lia.
  - rewrite (stored_bytes_ext scfg F (delete p F)); [done|]. intros q Hq. rewrite lookup_delete_ne; [done|]. by intros ->.
Qed.

Section Budget.
Context `{CR : Crypto} `{SL : !Sha256Laws} `{GF : GF16} `{GL : !GF16Laws} `{RS : ReedSolomon} `{RG : Rng}.
Context `{PC : PromiseCodec} `{PL : !PromiseCodecLaws} {W : Type} `{FS : !Vfs W} `{DB : !Pebble W} `{DL : !DiskLaws W} (Hnf : ¬ faulty).
Context (order : nat → list nat) (Horder : order_ok order) (procs : Z) (defaultV0 : BlobConfig) (cfg : ServerConfig) (a b : nat).
Context (Hshape : shape (vcfg defaultV0) a b) `{RL : !ReedSolomonLaws (cfg_K (vcfg defaultV0)) (cfg_N (vcfg defaultV0))}.
Context (Hmax : 0 < bc_MaxRowSize defaultV0 <= shardLengthLimit).

Abbreviation scfg := (sc_StoreConfig cfg).
Abbreviation on_disk w := (stored scfg (files w) (kvs w)).

(** ** The counter of a node *)

Definition shard_size (u : verified_upload) : Z := Z.of_nat (length (shard_bytes (vu_shard u))).

(** An upload as a call of the counter: until it reserves it is a call that has
    not started, while it stores it was granted its size. *)
Definition call_of (t : upload) : call :=
  match up_stage t with
  | UWaiting | UHolding => Reserving (shard_size (up_data t))
  | UReserving c => c
  | UStoring n | UFailing n => Granted n
  | _ => Finished
  end.

Definition system_of (n : node (W := W)) : system :=
  mkSystem (so_occ (nd_shared n)) (map call_of (nd_uploads n)) (stored_bytes scfg (files (so_disk (nd_shared n)))) (nd_freed n).

(** ** What a reliable disk adds to the invariant *)

(** Every file has its marker. *)
Definition tidy (w : W) : Prop := ∀ c h, id_ok c h → is_Some (files w !! shardFilePath scfg c h) → marked (kvs w) c h.

(** An upload reserves and stores its own size. *)
Definition own_size (t : upload) : Prop :=
  match call_of t with Reserving n | Loaded n _ | Undoing n | Granted n => n = shard_size (up_data t) | _ => True end.

Record binv (n : node (W := W)) : Prop := {
  bi_node : ninv defaultV0 cfg b n;
  bi_tidy : tidy (so_disk (nd_shared n));
  bi_sizes : Forall own_size (nd_uploads n);
  bi_freed : 0 <= nd_freed n;
}.

Lemma put_bytes env u w r w' : tidy w → upload_fits u → ¬ on_disk w (Commitment (vu_promise u)) (vu_hash u) →
  Put scfg env (vu_promise u) (vu_shard u) (vu_pruneAt u) w = (r, w') → tidy w' ∧
  stored_bytes scfg (files w') = stored_bytes scfg (files w) + (if is_ok r then shard_size u else 0).
Proof.
  intros Ht (Hh & Hi & Hsh & Htm) Hno E. destruct (shard_ok_rows _ Hsh) as (Hrows & _).
  pose proof (Put_spec scfg (files w) (kvs w) env (vu_promise u) (vu_shard u) (vu_pruneAt u) (vu_hash u) Hh Hrows w (conj eq_refl eq_refl)) as H. rewrite E in H. cbn in H.
  assert (files w !! shardFilePath scfg (Commitment (vu_promise u)) (vu_hash u) = None) as Habs.
  { destruct (files w !! _) as [d|] eqn:Ed; [|done]. destruct Hno. split; [apply Ht; [done|by rewrite Ed]|by rewrite Ed]. }
  destruct r as [[]|e|p]; [| |done]; cbn [is_ok].
  - destruct H as (F' & pb & pp & _ & _ & [EF EK] & Hsame & Hpath). split.
    + intros c h Hch Hf. rewrite EK. apply published_marked; [done..|]. destruct (decide (shardFilePath scfg c h = shardFilePath scfg (Commitment (vu_promise u)) (vu_hash u))) as [Ep|Ep].
      * apply shardFilePath_inj in Ep; [by right|done..].
      * left. apply Ht; [done|]. rewrite EF, Hsame in Hf; [done|apply shard_not_staging|done].
    + rewrite EF. transitivity (stored_bytes scfg (<[shardFilePath scfg (Commitment (vu_promise u)) (vu_hash u) := shard_bytes (vu_shard u)]> (files w))).
      * apply stored_bytes_ext. intros p Hp. destruct (decide (p = shardFilePath scfg (Commitment (vu_promise u)) (vu_hash u))) as [->|Hne]; [by rewrite lookup_insert_eq|].
        rewrite lookup_insert_ne by done. apply Hsame; [|done]. intros Hst; by apply (staging_not_shards _ _ Hst).
      * rewrite stored_bytes_insert, Habs by apply shard_below. cbn. unfold shard_size. lia.
  - destruct H as (_ & F' & [EF EK] & Hsame & Hpath).
    assert (∀ p, below (shardsDir scfg) p → files w' !! p = files w !! p) as Hall.
    { intros p Hp. rewrite EF. destruct (decide (p = shardFilePath scfg (Commitment (vu_promise u)) (vu_hash u))) as [->|Hne]; [by destruct Hpath as [?|[? _]]|].
      apply Hsame; [|done]. intros Hst; by apply (staging_not_shards _ _ Hst). }
    split; [|rewrite (stored_bytes_ext _ _ _ Hall); lia]. intros c h Hch Hf. rewrite EK. apply Ht; [done|]. by rewrite <- Hall by apply shard_below.
Qed.

Lemma prune_bytes now w res w' : store_ok scfg w → tidy w → time_ok now → small scfg w → PruneBefore scfg now w = (Ok res, w') →
  tidy w' ∧ pr_bytes res = stored_bytes scfg (files w) - stored_bytes scfg (files w') ∧ 0 <= pr_bytes res.
Proof.
  intros [HK HF _] Ht Hb [Hb1 Hb2] E. pose proof (PruneBefore_spec scfg (files w) (kvs w) now HK Hb Hb1 Hb2 w (conj eq_refl eq_refl)) as H. rewrite E in H. cbn in H.
  destruct H as (F' & K' & dn & gone & [EF EK] & Hp & _). pose proof (pass_due _ _ _ _ _ _ _ _ _ Hp) as Hdue.
  destruct (pr_err res) as [e|] eqn:Er; [destruct (pass_err _ _ _ _ _ _ _ _ _ Hp) as [_ ?]; [by rewrite Er|done]|].
  destruct (pass_ok _ _ _ _ _ _ _ _ _ Hp Er) as [-> EK']. pose proof (pass_files _ _ _ _ _ _ _ _ _ Hp) as EF'. rewrite <- EF in EF'. rewrite <- EK in EK'. split.
  - intros c h Hi Hf. rewrite EF', delete_files_lookup in Hf. destruct (decide _) as [?|Hn]; [by destruct Hf|]. unfold marked. rewrite EK', batch_deletes by apply batch_of_deletes.
    destruct (decide _) as [Hin|_]; [|by apply Ht]. exfalso. apply elem_of_batch in Hin as (t & c' & h' & Hin & Ek).
    pose proof (proj1 (Forall_forall _ _) Hdue _ Hin) as (_ & Hi' & _).
    destruct Ek as [Ek|[Ek|Ek]]; [by apply shardKey_not_pruneKey in Ek| |by apply (eq_sym (y := _)), promiseKey_not_shardKey in Ek].
    apply shardKey_inj in Ek as [-> ->]; [|done..]. apply Hn, list_elem_of_fmap. by exists (t, c', h').
  - rewrite (pass_freed _ _ _ _ _ _ _ _ _ Hp), EF'. split; [done|]. clear. pose proof (stored_bytes_files_le scfg (files w) (map (entry_path scfg) dn)). lia.
Qed.

Lemma get_bytes c w r w' : store_ok scfg w → tidy w → length c = CommitmentSize → Forall byte_ok c → Get scfg c w = (r, w') →
  tidy w' ∧ files w' = files w.
Proof.
  intros [HK HF HI] Ht Hl Hc E. pose proof (Get_spec scfg (files w) (kvs w) c Hl Hc HK HF w (conj eq_refl eq_refl)) as H. rewrite E in H. cbn in H.
  assert (∃ K', dropped scfg (files w) c (kvs w) K' ∧ holds (files w) K' w') as (K' & Hd & EF & EK) by (destruct r as [s|e|p]; by destruct H).
  split; [|done]. intros c' h Hi Hf. rewrite EF in Hf. unfold marked. rewrite EK. destruct (Hd (shardKey c' h)) as [->|[_ (h' & Hi' & Ek & Hn)]]; [by apply Ht|].
  apply shardKey_inj in Ek as [-> ->]; [|done..]. rewrite Hn in Hf. by destruct Hf.
Qed.

(** ** The simulation *)

Context (B M : Z).

(** The limits of the counter: a positive budget of at most [B], and uploads in
    flight of at most [M] bytes. *)
Definition limits (n : node (W := W)) : Prop :=
  0 < occ_budget (so_occ (nd_shared n)) <= B ∧ total size_of (system_of n) <= M.

Lemma leave_step o calls st fr i c : calls !! i = Some c → counted c = 0 → rtc (ostep B M) (mkSystem o calls st fr) (mkSystem o (<[i := Finished]> calls) st fr).
Proof. intros Hi Hc. apply rtc_once. exact (ostep_leave B M (mkSystem o calls st fr) i c Hi Hc). Qed.

Lemma stay_step o calls st fr i c : calls !! i = Some c → rtc (ostep B M) (mkSystem o calls st fr) (mkSystem o (<[i := c]> calls) st fr).
Proof. intros Hi. rewrite list_insert_id by done. apply rtc_refl. Qed.

(** A step of an upload is at most one step of the counter. *)
Lemma upload_sim seen cutoff t s t' s' calls i fr : store_ok scfg (so_disk s) → verified defaultV0 cfg b (up_data t) → stage_ok cfg seen (so_disk s) cutoff t →
  tidy (so_disk s) → own_size t → calls !! i = Some (call_of t) → upload_step cfg t s = Some (Ok (t', s')) →
  tidy (so_disk s') ∧ own_size t' ∧
  rtc (ostep B M) (mkSystem (so_occ s) calls (stored_bytes scfg (files (so_disk s))) fr)
    (mkSystem (so_occ s') (<[i := call_of t']> calls) (stored_bytes scfg (files (so_disk s'))) fr).
Proof.
  intros Hok Hv Hst Ht Hz Hi H. pose proof (verified_fits_store _ _ _ _ Hv) as Hfit. pose proof Hfit as (_ & _ & Hsh & _).
  unfold upload_step in H. unfold call_of in Hi. unfold own_size, call_of in Hz |- *. unfold stage_ok in Hst.
  destruct (up_stage t) as [| |c|n|n| |r|r] eqn:Est.
  - destruct (uploadLock _) as [k|e|p]; try discriminate. destruct (decide _) as [|Hk]; [discriminate|]. injection H as <- <-.
    split; [done|]. split; [done|]. by apply stay_step.
  - destruct (Has scfg _ _ _) as [rh w] eqn:EH. destruct (has_same _ _ _ _ _ _ EH) as [EF EK].
    assert (tidy w) as Htw by (intros c h Hch; unfold marked; rewrite EF, EK; by apply Ht).
    destruct rh as [[]|e|p]; try discriminate.
    + injection H as <- <-. split; [done|]. split; [done|]. cbn [so_disk set_disk so_occ]. rewrite EF. by eapply leave_step.
    + rewrite (shard_ok_size _ Hsh) in H. injection H as <- <-. split; [done|]. split; [done|]. cbn [so_disk set_disk so_occ]. rewrite EF. by apply stay_step.
    + injection H as <- <-. split; [done|]. split; [done|]. cbn [so_disk set_disk so_occ]. rewrite EF. by eapply leave_step.
  - destruct (reserve_step c (so_occ s)) as [[c' o]|] eqn:ER; [|discriminate]. injection H as <- <-. split; [done|].
    pose proof (ostep_reserve B M (mkSystem (so_occ s) calls (stored_bytes scfg (files (so_disk s))) fr) i c c' o Hi ER) as Hstep.
    cbn [at_stage up_stage up_data so_disk so_occ set_occ]. destruct Hst as [Hu _].
    assert (match c' with Loaded n _ | Undoing n | Granted n => n = shard_size (up_data t) | Rejected => True | _ => False end) as Hc'.
    { destruct c as [n|n bud|n|n| |]; try done; cbn in ER; [by injection ER as <- <-| |by injection ER as <- <-].
      destruct (bud <=? 0); [by injection ER as <- <-|]. destruct (_ <=? bud); by injection ER as <- <-. }
    assert (match reserved_stage c' with UReserving c => c | UStoring n | UFailing n => Granted n | UWaiting | UHolding => Reserving (shard_size (up_data t)) | _ => Finished end
      = match c' with Rejected => Finished | c => c end) as Ecall by (by destruct c').
    rewrite Ecall. destruct c' as [m|m bud|m|m| |]; try done; (split; [done|]); try (by apply rtc_once).
    etransitivity; [apply rtc_once; exact Hstep|]. cbn [sys_calls sys_stored sys_removed]. rewrite <- (list_insert_insert_eq calls i Finished Rejected).
    apply (leave_step _ _ _ _ _ Rejected); [|done]. apply list_lookup_insert_eq. by eapply lookup_lt_Some.
  - destruct (Put scfg _ _ _ _ _) as [r w] eqn:EP. destruct (put_bytes _ _ _ _ _ Ht Hfit Hst EP) as [Htw Eb].
    destruct r as [[]|e|p]; try discriminate; injection H as <- <-; cbn [is_ok] in Eb; (split; [done|]); (split; [done|]); cbn [so_disk set_disk so_occ at_stage up_stage].
    + rewrite Eb, <- Hz. apply rtc_once. exact (ostep_stored B M (mkSystem (so_occ s) calls _ fr) i n Hi).
    + rewrite Eb, Z.add_0_r. by apply stay_step.
  - injection H as <- <-. split; [done|]. split; [done|]. apply rtc_once. exact (ostep_failed B M (mkSystem (so_occ s) calls _ fr) i n Hi).
  - destruct (SignPaymentPromiseValidator _ _) as [sig|e|p]; try discriminate; injection H as <- <-; (split; [done|]); (split; [done|]); by apply stay_step.
  - destruct (uploadLock _) as [k|e|p]; try discriminate. injection H as <- <-. split; [done|]. split; [done|]. by apply stay_step.
  - discriminate.
Qed.

Lemma recompute_outcome budget head address o r o' : recomputeBudget cfg budget head address o = (r, o') → o' = o ∨ ∃ bud, o' = setBudget bud o.
Proof.
  unfold recomputeBudget. destruct (sc_UnlimitedBudget cfg); [intros [= <- <-]; right; by exists 0|].
  match goal with |- context [match ?m with Ok _ => _ | Err _ => _ | Panic _ => _ end] => destruct m as [[bud|]|e|p] end; intros [= <- <-]; eauto.
Qed.

Lemma map_call_insert i t l : map call_of (<[i := t]> l) = <[i := call_of t]> (map call_of l).
Proof. apply (list_fmap_insert call_of). Qed.

Lemma map_call_lookup l i t : l !! i = Some t → map call_of l !! i = Some (call_of t).
Proof. intros H. rewrite list_lookup_fmap. by rewrite H. Qed.

(** A serving step of a node is a run of the counter. *)
Lemma serve_sim n n' : binv n → nserve order procs defaultV0 cfg n n' → binv n' ∧ (limits n' → rtc (ostep B M) (system_of n) (system_of n')).
Proof.
  intros [HN HT HS HF] Hstep. pose proof (ninv_serve order Horder procs defaultV0 cfg a b Hshape Hmax n n' HN Hstep) as HN'.
  pose proof (di_ok _ _ _ (ni_disk _ _ _ _ HN)) as Hok.
  destruct Hstep as [n env req u vs Hreq Ht HV|n env req e vs Hreq HV|n i t t' s Hi H|n now res w Hf Ht Hsm HP|n Hf|n budget head address r o HB|n id s r s' w Hid H].
  - split; [split; try done; apply Forall_app; split; [done|constructor; [done|constructor]]|]. intros [Hbud Hfl]. apply rtc_once. unfold system_of. cbn [nd_shared nd_uploads nd_freed].
    rewrite map_app. apply (ostep_start B M (system_of n)); [unfold shard_size; lia|]. unfold total, system_of in Hfl |- *. cbn [sys_calls nd_uploads] in Hfl |- *.
    rewrite map_app, map_app, zsum_app in Hfl. cbn [map] in Hfl. rewrite zsum_cons in Hfl. change (zsum []) with 0 in Hfl. cbn [size_of call_of up_stage up_data] in Hfl |- *. lia.
  - split; [by split|]. intros _. apply rtc_refl.
  - destruct (upload_sim _ _ t (nd_shared n) t' s (map call_of (nd_uploads n)) i (nd_freed n) Hok (upload_verified _ _ _ _ _ _ HN Hi)
      (Forall_lookup_1 _ _ _ _ (ni_stages _ _ _ _ HN) Hi) HT (Forall_lookup_1 _ _ _ _ HS Hi) (map_call_lookup _ _ _ Hi) H) as (HT' & Hz & Hsim).
    split; [split; try done; by apply Forall_insert|]. intros _. unfold system_of. cbn [nd_shared nd_uploads nd_freed]. rewrite map_call_insert. exact Hsim.
  - destruct (prune_bytes now _ res w Hok HT Ht Hsm HP) as (HT' & Eb & H0). split.
    { split; try done. cbn [nd_freed]. destruct (Z.ltb_spec 0 (pr_bytes res)); lia. }
    intros _. apply rtc_once. unfold system_of. cbn [nd_shared nd_uploads nd_freed set_disk so_disk so_occ]. rewrite Hf.
    replace (if 0 <? pr_bytes res then pr_bytes res else 0) with (0 + pr_bytes res) by (destruct (Z.ltb_spec 0 (pr_bytes res)); lia).
    replace (stored_bytes scfg (files w)) with (stored_bytes scfg (files (so_disk (nd_shared n))) - pr_bytes res) by lia.
    apply (ostep_prune B M (mkSystem _ _ _ 0) (pr_bytes res)). cbn [sys_stored]. split; [done|]. pose proof (stored_bytes_nonneg scfg (files w)). lia.
  - split; [split; try done; cbn; lia|]. intros _. apply rtc_once. apply (ostep_release B M (system_of n)).
  - split; [by split|]. intros [Hbud _]. cbn in Hbud. destruct (recompute_outcome _ _ _ _ _ _ HB) as [->|[bud ->]]; [apply rtc_refl|]. apply rtc_once.
    apply (ostep_budget B M (system_of n)). exact Hbud.
  - destruct (download_get defaultV0 cfg id s _ r s' w Hid H) as (_ & [[-> _]|(v & c & rg & _ & Hlc & Hc & EG & _)]); [split; [by split|intros _; apply rtc_refl]|].
    destruct (get_bytes c _ rg w Hok HT Hlc Hc EG) as [HT' EF]. split; [by split|]. intros _. unfold system_of. cbn [nd_shared nd_uploads nd_freed set_disk so_disk so_occ].
    rewrite EF. apply rtc_refl.
Qed.

Lemma binv_step n n' : binv n → nstep order procs defaultV0 cfg n n' → binv n'.
Proof.
  intros Hn Hstep. pose proof (ninv_step order Horder procs defaultV0 cfg a b Hshape Hmax n n' (bi_node _ Hn) Hstep) as HN'.
  destruct Hstep as [n n' Hs|n s0 opened ce budget head address r s w Hs0 H]; [by apply (serve_sim n n' Hn Hs)|].
  destruct (start_staged scfg cfg opened ce budget head address s0 _ r s w eq_refl H) as [(F' & HF & EF & EK) _]. split; [done| |constructor|done].
  intros c h Hi Hf. cbn in Hf |- *. unfold marked. rewrite EK. apply (bi_tidy _ Hn); [done|]. by rewrite EF, HF in Hf by apply shard_not_staging.
Qed.

Lemma boot_binv s w n : NewServer defaultV0 cfg = Ok s → empty_disk w → rtc (nstep order procs defaultV0 cfg) (boot s w) n → binv n.
Proof.
  intros Hs Hw Hr. assert (binv (boot s w)) as H0.
  { split; [by apply boot_inv| |constructor|done]. destruct Hw as [EF _]. intros c h _ Hf. cbn in Hf. rewrite EF in Hf. by destruct Hf. }
  revert H0. induction Hr as [|n1 n2 n3 H1 _ IH]; [done|]. intros H. apply IH. by eapply binv_step.
Qed.

(** A life of the process within the limits. *)
Definition bounded_step (n n' : node (W := W)) : Prop := nserve order procs defaultV0 cfg n n' ∧ limits n'.

(** C12: On a reliable disk, from a server that just started, after orderly
    shutdowns only, with its counter at the bytes on disk, every interleaving of uploads, downloads, pruning and
    changes of the budget is a run of the occupancy counter whose stored bytes
    are the bytes of the shard files: the counter is exactly these bytes, what
    pruning removed and has not released yet and what uploads in flight have
    added, and the files never take more than the largest budget, or what the
    server started with. *)
Theorem server_refines_occupancy S s0 w0 n0 n : NewServer defaultV0 cfg = Ok s0 → empty_disk w0 →
  rtc (nstep order procs defaultV0 cfg) (boot s0 w0) n0 → nd_uploads n0 = [] → nd_freed n0 = 0 → limits n0 →
  occ_used (so_occ (nd_shared n0)) = stored_bytes scfg (files (so_disk (nd_shared n0))) → stored_bytes scfg (files (so_disk (nd_shared n0))) <= S →
  Z.max S B + M < two63 → 0 <= M → rtc bounded_step n0 n →
  rtc (ostep B M) (started (stored_bytes scfg (files (so_disk (nd_shared n0)))) (occ_budget (so_occ (nd_shared n0)))) (system_of n) ∧
  occ_used (so_occ (nd_shared n)) = stored_bytes scfg (files (so_disk (nd_shared n))) + nd_freed n + total counted (system_of n) ∧
  stored_bytes scfg (files (so_disk (nd_shared n))) + nd_freed n + total granted (system_of n) <= Z.max S B.
Proof.
  intros Hs0 Hw0 Hr0 Hu Hf [Hb _] Hocc HS Hroom HM Hr. pose proof (boot_binv s0 w0 n0 Hs0 Hw0 Hr0) as H0.
  assert (system_of n0 = started (stored_bytes scfg (files (so_disk (nd_shared n0)))) (occ_budget (so_occ (nd_shared n0)))) as E0.
  { unfold system_of, started, setBudget, seed, newOccupancy. rewrite Hu, Hf. cbn. rewrite <- Hocc. by destruct (so_occ (nd_shared n0)). }
  assert (binv n ∧ rtc (ostep B M) (system_of n0) (system_of n)) as [_ Hsim].
  { clear -Hr H0 Hnf Horder Hshape RL Hmax SL GL PL DL. induction Hr as [n|n1 n2 n3 [H1 Hl] _ IH]; [split; [done|apply rtc_refl]|].
    destruct (serve_sim n1 n2 H0 H1) as [H2 Hsim]. destruct (IH H2) as [H3 Hrest]. split; [done|]. etransitivity; [by apply Hsim|done]. }
  rewrite E0 in Hsim. pose proof (stored_bytes_nonneg scfg (files (so_disk (nd_shared n0)))) as Hpos.
  pose proof (reachable_inv B M S Hroom HM _ _ _ (conj Hpos HS) Hb Hsim) as HI. split; [done|]. split; [exact (oi_used _ _ _ _ HI)|exact (oi_bound _ _ _ _ HI)].
Qed.
End Budget.

(** ** A run within the budget *)

Module BudgetRuns.
Import Toy ServerRuns.
#[local] Existing Instance StoreRuns.reliable_vfs.
#[local] Existing Instance StoreRuns.reliable_pebble.
#[local] Existing Instance StoreRuns.reliable_laws.
#[local] Existing Instance ServerRuns.rng.
#[local] Existing Instance ServerRuns.codec.
#[local] Existing Instance ServerRuns.codec_laws.

(** The server derives a budget of 1000 bytes and takes the upload. *)
Definition ready : node := mkNode (mkShared (mkOccupancy 0 1000) empty_mem ∅) (srv_verifiers server0) [] 0 0 [] [].
Definition taken : node := mkNode (mkShared (mkOccupancy 0 1000) empty_mem ∅) verifiers1 [mkUpload env up UWaiting] 0 0 [up] [].

Lemma budget_derived : recomputeBudget config (Ok 1000) (Ok set) (Ok [2]) (srv_occ server0) = (Ok tt, mkOccupancy 0 1000).
Proof. vm_cast_no_check (eq_refl (@Ok unit tt, mkOccupancy 0 1000)). Qed.

Lemma ready_run : run (boot server0 empty_mem) ready.
Proof. apply rtc_once, ns_serve. exact (ns_budget _ _ _ _ (boot server0 empty_mem) (Ok 1000) (Ok set) (Ok [2]) (Ok tt) (mkOccupancy 0 1000) budget_derived). Qed.

Abbreviation lim := (limits config 1000 1000).
Definition limb (n : node) : bool :=
  (0 <? occ_budget (so_occ (nd_shared n))) && (occ_budget (so_occ (nd_shared n)) <=? 1000) && (total size_of (system_of config n) <=? 1000).

Lemma limb_ok n : limb n = true → lim n.
Proof. unfold limb, limits. rewrite !andb_true_iff, Z.ltb_lt, !Z.leb_le. tauto. Qed.

Abbreviation serving := (rtc (bounded_step order_seq 1 bcfg config 1000 1000)).

Lemma steps_bounded k : ∀ n, (∀ j, (j <= k)%nat → limb (steps j n) = true) → serving n (steps k n).
Proof.
  induction k as [|k IH]; intros n Hl; [apply rtc_refl|]. cbn [steps]. destruct (nd_uploads n !! 0%nat) as [t|] eqn:Ht; [|apply rtc_refl].
  destruct (upload_step config t (nd_shared n)) as [[[t' s]|e|p]|] eqn:Es; try apply rtc_refl.
  assert (∀ j, steps (S j) n = steps j (mkNode s (nd_verifiers n) (<[0%nat := t']> (nd_uploads n)) (nd_freed n) (nd_cutoff n) (nd_seen n) (acknowledged t' ++ nd_acked n))) as E
    by (intros j; cbn [steps]; by rewrite Ht, Es).
  eapply rtc_l; [split; [by eapply ns_upload|]|].
  - apply limb_ok. specialize (Hl 1%nat ltac:(lia)). by rewrite E in Hl.
  - apply IH. intros j Hj. rewrite <- E. apply Hl. lia.
Qed.

Definition done6 : node := steps 6 taken.

Lemma taken_limits : forallb (λ j, limb (steps j taken)) (seq 0 7) = true.
Proof. vm_cast_no_check (eq_refl true). Qed.

Lemma done6_run : serving ready done6.
Proof.
  assert (∀ j, (j <= 6)%nat → limb (steps j taken) = true) as Hl.
  { intros j Hj. pose proof (proj1 (forallb_forall _ _) taken_limits j) as H. apply H. apply in_seq. lia. }
  eapply rtc_l; [|exact (steps_bounded 6 taken Hl)]. split; [|exact (limb_ok _ (Hl 0%nat ltac:(lia)))].
  exact (ns_begin _ _ _ _ ready env request up verifiers1 request_good up_time checked).
Qed.

Lemma done6_state : (occ_used (so_occ (nd_shared done6)), stored_bytes (sc_StoreConfig config) (files (so_disk (nd_shared done6)))) = (140, 140).
Proof. vm_cast_no_check (eq_refl (140, 140)). Qed.

Lemma server_refines_occupancy_witness : stored_bytes (sc_StoreConfig config) (files (so_disk (nd_shared done6))) = 140 ∧
  rtc (ostep 1000 1000) (Occupancy.started 0 1000) (system_of config done6).
Proof.
  assert (lim ready) as Hlim by (apply limb_ok; exact eq_refl).
  assert (Z.max 0 1000 + 1000 < two63) as Hroom by reflexivity.
  assert (0 <= 1000) as HM by discriminate. assert (0 <= 0) as H0 by discriminate.
  destruct (server_refines_occupancy StoreRuns.reliable order_seq order_ok_run 1 bcfg config 0 1 shape_run rows_fit 1000 1000 0 server0 empty_mem ready done6
    server0_new empty_disk_run ready_run eq_refl eq_refl Hlim eq_refl H0 Hroom HM done6_run) as (Hsim & _).
  split; [exact (f_equal snd done6_state)|exact Hsim].
Defined.
End BudgetRuns.
