(* ===== verification/ZkIsm.v ===== *)
(** * x/zkism: interchain security modules backed by zero-knowledge proofs

    [x/zkism/types/{keys,ism,msgs,public_values,verifier,genesis}.go],
    [x/zkism/internal/groth16] and [x/zkism/keeper]: an ISM keeps the trusted
    state of a remote chain, replaces it on a verified state transition and
    authorizes the Hyperlane messages of a verified membership proof, each for
    one delivery. *)

From S2P Require Import Prelude Sdk SdkModel FibreCache PayForBlob.
#[local] Open Scope Z_scope.

Module ZkIsm.

(** ** Packages outside the repository *)

(** [util.HexAddress] (32 bytes: module, type and internal id), the ISM router
    and the messages of [hyperlane-cosmos]. *)
Class Hyperlane := {
  GetInternalId : bytes → Z;
  IsZeroAddress : bytes → bool;
  HexAddress_Compare : bytes → bytes → Z;
  DecodeHexAddress : bytes → result bytes;
  router : Type;
  GetNextSequence : router → Z → result (router * bytes);
  HyperlaneMessage : Type;
  message_Id : HyperlaneMessage → bytes;
}.

(** The router numbers the ISMs of all modules with one sequence; the number is
    the internal id of the address it hands out, which names the module and is
    not zero. *)
Class HyperlaneLaws `{Hyperlane} := {
  GetInternalId_u64 a : u64 (GetInternalId a);
  router_seq : router → Z;
  GetNextSequence_spec r t r' id : GetNextSequence r t = Ok (r', id) →
    GetInternalId id = router_seq r ∧ router_seq r' = router_seq r + 1 ∧ IsZeroAddress id = false;
}.

(** gnark and gnark-crypto over BN254. [vk_ReadFrom] returns the key and the
    number of bytes read; a decoder of points returns the bytes left. *)
Class Gnark := {
  VerifyingKey : Type;
  vk_ReadFrom : bytes → result (VerifyingKey * Z);
  G1Affine : Type;
  G2Affine : Type;
  Decode_G1 : bytes → result (G1Affine * bytes);
  Decode_G2 : bytes → result (G2Affine * bytes);
  Element : Type;
  SetBigInt : Z → Element;
  Witness : Type;
  witness_New : result Witness;
  witness_Fill : Witness → Z → Z → list Element → result Witness;
  witness_Public : Witness → result Witness;
  groth16_Verify : G1Affine * G2Affine * G1Affine → VerifyingKey → Witness → result unit;
}.

(** gnark reports failures as errors. *)
Class GnarkLaws `{Gnark} := {
  vk_ReadFrom_safe b : no_panic (vk_ReadFrom b);
  Decode_G1_safe b : no_panic (Decode_G1 b);
  Decode_G2_safe b : no_panic (Decode_G2 b);
  witness_New_safe : no_panic witness_New;
  witness_Fill_safe w n m l : no_panic (witness_Fill w n m l);
  witness_Public_safe w : no_panic (witness_Public w);
  groth16_Verify_safe p vk w : no_panic (groth16_Verify p vk w);
}.

(** [query.CollectionPaginate] over the entries of a collection in key order. *)
Record PageRequest := mkPageRequest {
  pg_Key : bytes;
  pg_Offset : Z;
  pg_Limit : Z;
  pg_CountTotal : bool;
  pg_Reverse : bool;
}.

Class Pagination := {
  PageResponse : Type;
  CollectionPaginate {A} : option PageRequest → list (bytes * A) → result (list (bytes * A) * PageResponse);
}.

(** [query.DefaultLimit], the limit of a request without one. *)
Definition DefaultLimit : nat := 100.

(** A missing request is the first page with the default limit; a page is no
    longer than its limit. *)
Class PaginationLaws `{Pagination} := {
  paginate_nil {A} (l : list (bytes * A)) : ∃ pr, CollectionPaginate None l = Ok (take DefaultLimit l, pr);
  paginate_limit {A} req (l l' : list (bytes * A)) pr : 0 < pg_Limit req →
    CollectionPaginate (Some req) l = Ok (l', pr) → Z.of_nat (length l') <= pg_Limit req ∧ l' ⊆ l;
}.

(** ** Constants: [types/keys.go], [types/ism.go], [types/verifier.go] *)

Definition MaxPaginationLimit : Z := 100.
Definition MinStateBytes : Z := 32.
Definition MaxStateBytes : Z := 2048.
Definition MaxStateTransitionValuesBytes : Z := 2 * 8 + 2 * MaxStateBytes.
Definition MaxMessageIdsCount : Z := 1000000.
Definition MaxStateMembershipValuesBytes : Z := 32 + 32 + 8 + MaxMessageIdsCount * 32.
Definition groth16VkeyCurvePointsSize : nat := 288.
Definition Groth16VkeyG1KLength : nat := 6.
Definition Groth16VkeySize : nat := 492.
Definition groth16VkeyCommitmentKeysOffset : nat := groth16VkeyCurvePointsSize + 4 + Groth16VkeyG1KLength * 32.
Definition groth16VkeyPubCommittedOffset : nat := groth16VkeyCommitmentKeysOffset + 4.
Definition DefaultProofVerifyCostGroth16 : Z := 6000.
Definition ModuleTypeZkISM : Z := 42.
Definition PrefixLen : nat := 4.
Definition MetadataLen : nat := 96.
Definition ProofSize : nat := 256.
Definition ProofBytesLen : nat := PrefixLen + MetadataLen + ProofSize.

(** [b[off : off+n]], within bounds. *)
Definition slice_at (b : bytes) (off n : nat) : bytes := take n (drop off b).

Definition lenZ (b : bytes) : Z := Z.of_nat (length b).

Definition ValidateGroth16Vkey (vkey : bytes) : result unit :=
  _ ← ensure (length vkey =? Groth16VkeySize)%nat "groth16 vkey size";
  let g1kLen := be_decode (slice_at vkey groth16VkeyCurvePointsSize 4) in
  _ ← ensure (g1kLen =? Z.of_nat Groth16VkeyG1KLength) "groth16 vkey G1.K length";
  let commitmentKeysLen := be_decode (slice_at vkey groth16VkeyCommitmentKeysOffset 4) in
  _ ← ensure (commitmentKeysLen =? 0) "groth16 vkey CommitmentKeys length must be 0";
  let pubCommittedLen := be_decode (slice_at vkey groth16VkeyPubCommittedOffset 4) in
  ensure (pubCommittedLen =? 0) "groth16 vkey PublicAndCommitmentCommitted length must be 0".

(** The characters 0 and x. *)
Definition hex_prefix : bytes := [48; 120].

Definition EncodeHex (bz : bytes) : bytes := hex_prefix ++ hex_EncodeToString bz.

(** [strings.TrimPrefix]. *)
Definition TrimPrefix (s p : bytes) : bytes :=
  if decide (p `prefix_of` s) then drop (length p) s else s.

Definition DecodeHex (s : bytes) : result bytes :=
  of_option "invalid hex" (hex_DecodeString (TrimPrefix s hex_prefix)).

(** ** Public values: [types/public_values.go] *)

Record StateTransitionValues := mkStateTransitionValues { st_State : bytes; st_NewState : bytes }.

Record StateMembershipValues := mkStateMembershipValues {
  sm_StateRoot : bytes;
  sm_MerkleTreeAddress : bytes;
  sm_MessageIds : list bytes;
}.

(** [binary.Write(&buf, binary.LittleEndian, uint64(...))]. *)
Definition le_u64 (x : Z) : bytes := rev (be_bytes 8 x).

(** [io.ReadFull] of [n] bytes: what it reads and what is left. *)
Definition ReadFull (n : nat) (buf : bytes) : result (bytes * bytes) :=
  if (length buf <? n)%nat then Err (match buf with [] => "EOF" | _ => "unexpected EOF" end)
  else Ok (take n buf, drop n buf).

(** [binary.Read(buf, binary.LittleEndian, &l)] of a [uint64]. *)
Definition read_u64 (buf : bytes) : result (Z * bytes) :=
  '(b, rest) ← ReadFull 8 buf; Ok (be_decode (rev b), rest).

Definition StateTransitionValues_Marshal (v : StateTransitionValues) : bytes :=
  le_u64 (lenZ (st_State v)) ++ st_State v ++ le_u64 (lenZ (st_NewState v)) ++ st_NewState v.

(** Reading one length-prefixed state. *)
Definition read_state (buf : bytes) : result (bytes * bytes) :=
  '(l, buf) ← read_u64 buf;
  _ ← ensure (negb ((l <? MinStateBytes) || (MaxStateBytes <? l))) "invalid state length";
  ReadFull (Z.to_nat l) buf.

Definition StateTransitionValues_Unmarshal (data : bytes) : result StateTransitionValues :=
  '(state, buf) ← read_state data;
  '(newState, _) ← read_state buf;
  Ok (mkStateTransitionValues state newState).

Definition StateMembershipValues_Marshal (v : StateMembershipValues) : bytes :=
  sm_StateRoot v ++ sm_MerkleTreeAddress v ++ le_u64 (Z.of_nat (length (sm_MessageIds v))) ++ concat (sm_MessageIds v).

Fixpoint read_ids (n : nat) (buf : bytes) : result (list bytes) :=
  match n with
  | O => Ok []
  | S n' => '(id, buf) ← ReadFull 32 buf; ids ← read_ids n' buf; Ok (id :: ids)
  end.

Definition StateMembershipValues_Unmarshal (data : bytes) : result StateMembershipValues :=
  '(stateRoot, buf) ← ReadFull 32 data;
  '(merkleTreeAddress, buf) ← ReadFull 32 buf;
  '(count, buf) ← read_u64 buf;
  _ ← ensure (negb (MaxMessageIdsCount <? count)) "message ids count exceeds maximum allowed";
  _ ← ensure (lenZ buf =? wrap_i64 (wrap_i64 count * 32)) "buffer length mismatch";
  ids ← read_ids (Z.to_nat count) buf;
  Ok (mkStateMembershipValues stateRoot merkleTreeAddress ids).

(** ** Data *)

Record InterchainSecurityModule := mkIsm {
  ism_Id : bytes;
  ism_Owner : bytes;
  ism_State : bytes;
  ism_MerkleTreeAddress : bytes;
  ism_Groth16Vkey : bytes;
  ism_StateTransitionVkey : bytes;
  ism_StateMembershipVkey : bytes;
}.

#[global] Instance ism_eq_dec : EqDecision InterchainSecurityModule.
Proof. solve_decision. Defined.

Record MsgCreateInterchainSecurityModule := mkMsgCreate {
  cr_Creator : bytes;
  cr_State : bytes;
  cr_MerkleTreeAddress : bytes;
  cr_Groth16Vkey : bytes;
  cr_StateTransitionVkey : bytes;
  cr_StateMembershipVkey : bytes;
}.

Record MsgUpdateInterchainSecurityModule := mkMsgUpdate {
  up_Id : bytes;
  up_Proof : bytes;
  up_PublicValues : bytes;
}.

Record MsgSubmitMessages := mkMsgSubmit {
  sub_Id : bytes;
  sub_Proof : bytes;
  sub_PublicValues : bytes;
}.

Inductive Event :=
| EventCreateInterchainSecurityModule (Id Owner State MerkleTreeAddress Groth16Vkey StateTransitionVkey StateMembershipVkey : bytes)
| EventUpdateInterchainSecurityModule (Id State : bytes)
| EventSubmitMessages (Id StateRoot : bytes) (Messages : list bytes).

Record GenesisMessages := mkGenesisMessages { gm_Id : bytes; gm_Messages : list bytes }.
Record GenesisProofSubmission := mkGenesisProofSubmission { gp_Id : bytes; gp_Submitted : bool }.
Record GenesisState := mkGenesisState {
  gs_Isms : list InterchainSecurityModule;
  gs_Messages : list GenesisMessages;
  gs_Submissions : list GenesisProofSubmission;
}.

(** The collections of the keeper. Their key codecs write a number as eight
    big-endian bytes and a pair as the concatenation of its parts. *)
Record Keeper := mkKeeper {
  isms : gmap bytes InterchainSecurityModule;
  messages : gmap bytes unit;
  submissions : gmap bytes bool;
}.

Definition empty_keeper : Keeper := mkKeeper ∅ ∅ ∅.

Definition uint64_key (id : Z) : bytes := be_bytes 8 id.
Definition pair_key (id : Z) (m : bytes) : bytes := uint64_key id ++ m.

Definition set_ism (k : Keeper) (id : Z) (ism : InterchainSecurityModule) : Keeper :=
  mkKeeper (<[uint64_key id := ism]> (isms k)) (messages k) (submissions k).
Definition set_message (k : Keeper) (id : Z) (m : bytes) : Keeper :=
  mkKeeper (isms k) (<[pair_key id m := tt]> (messages k)) (submissions k).
Definition remove_message (k : Keeper) (id : Z) (m : bytes) : Keeper :=
  mkKeeper (isms k) (delete (pair_key id m) (messages k)) (submissions k).
Definition set_submission (k : Keeper) (id : Z) (b : bool) : Keeper :=
  mkKeeper (isms k) (messages k) (<[uint64_key id := b]> (submissions k)).
Definition has_message (k : Keeper) (id : Z) (m : bytes) : bool :=
  bool_decide (is_Some (messages k !! pair_key id m)).
Definition get_ism (k : Keeper) (id : Z) : result InterchainSecurityModule :=
  of_option "collections: not found" (isms k !! uint64_key id).

(** [errorsmod.Wrapf(sentinel, ...)] of a failure. *)
Definition wrap_error {A} (sentinel : error) (r : result A) : result A :=
  match r with Err _ => Err sentinel | _ => r end.

Lemma wrap_error_Ok {A} e (r : result A) a : wrap_error e r = Ok a ↔ r = Ok a.
Proof. destruct r; cbn; split; congruence. Qed.

(** ** Proofs: [internal/groth16] and [types/verifier.go] *)

Section Verifier.
Context `{CR : Crypto} `{GN : Gnark}.

Definition NewVerifyingKey (keyBz : bytes) : result VerifyingKey :=
  '(vk, n) ← vk_ReadFrom keyBz;
  _ ← ensure (wrap_i64 n =? lenZ keyBz) "invalid key length";
  Ok vk.

Definition UnmarshalProof (proofBz : bytes) : result (G1Affine * G2Affine * G1Affine) :=
  '(Ar, buf) ← Decode_G1 proofBz;
  '(Bs, buf) ← Decode_G2 buf;
  '(Krs, _) ← Decode_G1 buf;
  Ok (Ar, Bs, Krs).

(** The three top bits of the hash are cleared. *)
Definition HashBN254 (data : bytes) : Z :=
  match sha256 data with
  | [] => 0
  | h0 :: h => be_decode (Z.land h0 31 :: h)
  end.

Definition NewBN254FrElement (bigInt : Z) : Element := SetBigInt bigInt.

Definition NewPublicWitness (inputs : list Element) : result Witness :=
  w ← witness_New;
  w ← witness_Fill w (Z.of_nat (length inputs)) 0 inputs;
  witness_Public w.

(** [vkRoot], the root of the recursion keys. *)
Definition vkRoot : bytes :=
  default [] (hex_DecodeString (SdkModel.string_bytes "002f850ee998974d6cc00e50cd0814b098c05bfade466d28573240d057f25352")).

Record SP1Groth16Verifier := mkVerifier { v_prefix : bytes; v_vk : VerifyingKey }.

Definition NewSP1Groth16Verifier (vkBytes : bytes) : result SP1Groth16Verifier :=
  vk ← wrap_error "ErrInvalidVerifyingKey" (NewVerifyingKey vkBytes);
  Ok (mkVerifier (take PrefixLen (sha256 vkBytes)) vk).

Definition VerifyProof (v : SP1Groth16Verifier) (proofBz programVk publicValues : bytes) : result unit :=
  _ ← ensure (length proofBz =? ProofBytesLen)%nat "ErrInvalidProofLength";
  _ ← ensure (bool_decide (v_prefix v = slice_at proofBz 0 PrefixLen)) "ErrInvalidProofPrefix";
  let exitCode := slice_at proofBz PrefixLen 32 in
  let vkRootBz := slice_at proofBz (PrefixLen + 32) 32 in
  let proofNonce := slice_at proofBz (PrefixLen + 64) 32 in
  _ ← ensure (bool_decide (exitCode = repeat 0 32)) "ErrInvalidProof: non-zero exit code";
  _ ← ensure (bool_decide (vkRootBz = vkRoot)) "ErrInvalidProof: vk_root mismatch";
  proof ← UnmarshalProof (drop (PrefixLen + MetadataLen) proofBz);
  let vkElement := NewBN254FrElement (be_decode programVk) in
  let inputsElement := NewBN254FrElement (HashBN254 publicValues) in
  let exitCodeElement := NewBN254FrElement (be_decode exitCode) in
  let vkRootElement := NewBN254FrElement (be_decode vkRootBz) in
  let proofNonceElement := NewBN254FrElement (be_decode proofNonce) in
  pubWitness ← NewPublicWitness [vkElement; inputsElement; exitCodeElement; vkRootElement; proofNonceElement];
  wrap_error "ErrInvalidProof: failed to verify proof" (groth16_Verify proof (v_vk v) pubWitness).
End Verifier.

(** ** Messages: [types/msgs.go] *)

Section Handlers.
Context `{CR : Crypto} `{GN : Gnark} `{HL : Hyperlane} `{GM : GasMeterOps} `{PG : Pagination}.
Context `{EV : TypedEvents Event}.

(** The checks that creation and genesis share; the messages of the two differ
    only in the name of the ISM. *)
Definition check_ism (state merkleTreeAddress groth16Vkey stateTransitionVkey stateMembershipVkey : bytes) : result unit :=
  _ ← ensure (negb (lenZ state <? MinStateBytes)) "ErrInvalidTrustedState";
  _ ← ensure (negb (MaxStateBytes <? lenZ state)) "ErrInvalidTrustedState";
  _ ← ensure (length merkleTreeAddress =? 32)%nat "ErrInvalidMerkleTreeAddress";
  _ ← wrap_error "ErrInvalidVerifyingKey" (ValidateGroth16Vkey groth16Vkey);
  _ ← wrap_error "ErrInvalidVerifyingKey" (NewVerifyingKey groth16Vkey);
  _ ← ensure (length stateTransitionVkey =? 32)%nat "ErrInvalidVerifyingKey";
  ensure (length stateMembershipVkey =? 32)%nat "ErrInvalidVerifyingKey".

Definition MsgCreate_ValidateBasic (msg : MsgCreateInterchainSecurityModule) : result unit :=
  check_ism (cr_State msg) (cr_MerkleTreeAddress msg) (cr_Groth16Vkey msg) (cr_StateTransitionVkey msg) (cr_StateMembershipVkey msg).

Definition MsgUpdate_ValidateBasic (msg : MsgUpdateInterchainSecurityModule) : result unit :=
  _ ← ensure (negb (IsZeroAddress (up_Id msg))) "ism identifier must be non-zero";
  _ ← ensure (length (up_Proof msg) =? ProofBytesLen)%nat "ErrInvalidProofLength";
  ensure (negb (MaxStateTransitionValuesBytes <? lenZ (up_PublicValues msg))) "ErrInvalidPublicValuesLength".

Definition MsgSubmit_ValidateBasic (msg : MsgSubmitMessages) : result unit :=
  _ ← ensure (negb (IsZeroAddress (sub_Id msg))) "ism identifier must be non-zero";
  _ ← ensure (length (sub_Proof msg) =? ProofBytesLen)%nat "ErrInvalidProofLength";
  ensure (negb (MaxStateMembershipValuesBytes <? lenZ (sub_PublicValues msg))) "ErrInvalidPublicValuesLength".

(** ** The keeper: [keeper/{keeper,msg_server,events}.go] *)

Record World := mkWorld {
  w_k : Keeper;
  w_router : router;
  w_gas : GasMeter;
  w_events : list Event;
}.

Definition with_k (w : World) (k : Keeper) : World := mkWorld k (w_router w) (w_gas w) (w_events w).

Definition EmitTypedEvent (w : World) (e : Event) : result World :=
  match TypedEventError e with
  | Some err => Err err
  | None => Ok (mkWorld (w_k w) (w_router w) (w_gas w) (w_events w ++ [e]))
  end.

Definition charge_proof (w : World) : result World :=
  gm ← ConsumeGas (w_gas w) DefaultProofVerifyCostGroth16;
  Ok (mkWorld (w_k w) (w_router w) gm (w_events w)).

(** [ism.State[:32]]. *)
Definition state_root (state : bytes) : result bytes :=
  if (length state <? 32)%nat then Panic "slice bounds out of range" else Ok (take 32 state).

Definition EmitCreateISMEvent (w : World) (ism : InterchainSecurityModule) : result World :=
  EmitTypedEvent w (EventCreateInterchainSecurityModule (ism_Id ism) (ism_Owner ism) (EncodeHex (ism_State ism))
    (EncodeHex (ism_MerkleTreeAddress ism)) (EncodeHex (ism_Groth16Vkey ism))
    (EncodeHex (ism_StateTransitionVkey ism)) (EncodeHex (ism_StateMembershipVkey ism))).

Definition EmitUpdateISMEvent (w : World) (ism : InterchainSecurityModule) : result World :=
  EmitTypedEvent w (EventUpdateInterchainSecurityModule (ism_Id ism) (EncodeHex (ism_State ism))).

Definition EmitSubmitMessagesEvent (w : World) (ism : InterchainSecurityModule) (messageIds : list bytes) : result World :=
  root ← state_root (ism_State ism);
  EmitTypedEvent w (EventSubmitMessages (ism_Id ism) (EncodeHex root) (map EncodeHex messageIds)).

(** The methods of an ISM itself: [types/ism.go]. *)
Definition ism_GetId (ism : InterchainSecurityModule) : result bytes :=
  _ ← ensure (negb (IsZeroAddress (ism_Id ism))) "address is empty"; Ok (ism_Id ism).
Definition ism_ModuleType (ism : InterchainSecurityModule) : Z := ModuleTypeZkISM.
Definition ism_Verify (ism : InterchainSecurityModule) : result bool := Err "ErrNotSupported".

Definition Exists (w : World) (ismId : bytes) : bool :=
  bool_decide (is_Some (isms (w_k w) !! uint64_key (GetInternalId ismId))).

(** The answer to the mailbox, and the state in which the message has been
    consumed. *)
Definition Verify (w : World) (ismId : bytes) (message : HyperlaneMessage) : result (World * bool) :=
  ism ← wrap_error "ErrIsmNotFound" (get_ism (w_k w) (GetInternalId ismId));
  let authorized := has_message (w_k w) (GetInternalId (ism_Id ism)) (message_Id message) in
  let w := if authorized then with_k w (remove_message (w_k w) (GetInternalId (ism_Id ism)) (message_Id message)) else w in
  Ok (w, authorized).

Definition CreateInterchainSecurityModule (w : World) (msg : MsgCreateInterchainSecurityModule) : result (World * bytes) :=
  '(r, ismId) ← GetNextSequence (w_router w) ModuleTypeZkISM;
  let newIsm := mkIsm ismId (cr_Creator msg) (cr_State msg) (cr_MerkleTreeAddress msg) (cr_Groth16Vkey msg)
    (cr_StateTransitionVkey msg) (cr_StateMembershipVkey msg) in
  let w := mkWorld (set_ism (w_k w) (GetInternalId ismId) newIsm) r (w_gas w) (w_events w) in
  w ← EmitCreateISMEvent w newIsm;
  Ok (w, ismId).

Definition with_state (ism : InterchainSecurityModule) (state : bytes) : InterchainSecurityModule :=
  mkIsm (ism_Id ism) (ism_Owner ism) state (ism_MerkleTreeAddress ism) (ism_Groth16Vkey ism)
    (ism_StateTransitionVkey ism) (ism_StateMembershipVkey ism).

Definition UpdateInterchainSecurityModule (w : World) (msg : MsgUpdateInterchainSecurityModule) : result (World * bytes) :=
  ism ← wrap_error "ErrIsmNotFound" (get_ism (w_k w) (GetInternalId (up_Id msg)));
  publicValues ← wrap_error "ErrInvalidType" (StateTransitionValues_Unmarshal (up_PublicValues msg));
  _ ← ensure (negb ((lenZ (st_State publicValues) <? 32) || (lenZ (st_NewState publicValues) <? 32))) "ErrInvalidTrustedState";
  _ ← ensure (bool_decide (ism_State ism = st_State publicValues)) "ErrInvalidTrustedState";
  verifier ← NewSP1Groth16Verifier (ism_Groth16Vkey ism);
  w ← charge_proof w;
  _ ← VerifyProof verifier (up_Proof msg) (ism_StateTransitionVkey ism) (up_PublicValues msg);
  oldStateRoot ← state_root (ism_State ism);
  newStateRoot ← state_root (st_NewState publicValues);
  let stateRootChanged := negb (bool_decide (oldStateRoot = newStateRoot)) in
  let ism := with_state ism (st_NewState publicValues) in
  let w := with_k w (set_ism (w_k w) (GetInternalId (ism_Id ism)) ism) in
  let w := if stateRootChanged then with_k w (set_submission (w_k w) (GetInternalId (ism_Id ism)) false) else w in
  w ← EmitUpdateISMEvent w ism;
  Ok (w, ism_State ism).

(** The flag of the current root; a missing entry is not a submission. *)
Definition submitted (k : Keeper) (id : Z) : bool := default false (submissions k !! uint64_key id).

Definition SubmitMessages (w : World) (msg : MsgSubmitMessages) : result (World * (bytes * list bytes)) :=
  ism ← wrap_error "ErrIsmNotFound" (get_ism (w_k w) (GetInternalId (sub_Id msg)));
  publicValues ← wrap_error "ErrInvalidType" (StateMembershipValues_Unmarshal (sub_PublicValues msg));
  root ← state_root (ism_State ism);
  _ ← ensure (bool_decide (sm_StateRoot publicValues = root)) "ErrInvalidStateRoot";
  _ ← ensure (negb (submitted (w_k w) (GetInternalId (ism_Id ism)))) "ErrMessageProofAlreadySubmitted";
  _ ← ensure (bool_decide (sm_MerkleTreeAddress publicValues = ism_MerkleTreeAddress ism)) "ErrInvalidMerkleTreeAddress";
  verifier ← NewSP1Groth16Verifier (ism_Groth16Vkey ism);
  w ← charge_proof w;
  _ ← VerifyProof verifier (sub_Proof msg) (ism_StateMembershipVkey ism) (sub_PublicValues msg);
  let id := GetInternalId (ism_Id ism) in
  let w := with_k w (fold_left (λ k messageId, set_message k id messageId) (sm_MessageIds publicValues) (w_k w)) in
  let w := with_k w (set_submission (w_k w) id true) in
  w ← EmitSubmitMessagesEvent w ism (sm_MessageIds publicValues);
  Ok (w, (EncodeHex (sm_StateRoot publicValues), map EncodeHex (sm_MessageIds publicValues))).

(** ** Genesis: [types/genesis.go] and [keeper/genesis.go] *)

Definition DefaultGenesis : GenesisState := mkGenesisState [] [] [].

(** One round of each loop of [Validate], with the ids seen so far. *)
Definition validate_ism (seen : gset Z) (ism : InterchainSecurityModule) : result (gset Z) :=
  _ ← ensure (negb (IsZeroAddress (ism_Id ism))) "ism identifier must be non-zero";
  let internalID := GetInternalId (ism_Id ism) in
  _ ← ensure (negb (bool_decide (internalID ∈ seen))) "duplicate ism id";
  _ ← check_ism (ism_State ism) (ism_MerkleTreeAddress ism) (ism_Groth16Vkey ism) (ism_StateTransitionVkey ism) (ism_StateMembershipVkey ism);
  Ok (seen ∪ {[ internalID ]}).

Definition validate_message_id (msg : bytes) : result unit :=
  msgID ← DecodeHex msg;
  ensure (length msgID =? 32)%nat "invalid message id length".

Definition validate_messages (known : gset Z) (seen : gset Z) (msgs : GenesisMessages) : result (gset Z) :=
  _ ← ensure (negb (IsZeroAddress (gm_Id msgs))) "ism identifier must be non-zero";
  let internalID := GetInternalId (gm_Id msgs) in
  _ ← ensure (bool_decide (internalID ∈ known)) "messages defined for unknown ism";
  _ ← ensure (negb (bool_decide (internalID ∈ seen))) "duplicate messages entry";
  _ ← each validate_message_id (gm_Messages msgs);
  Ok (seen ∪ {[ internalID ]}).

Definition validate_submission (known : gset Z) (seen : gset Z) (entry : GenesisProofSubmission) : result (gset Z) :=
  _ ← ensure (negb (IsZeroAddress (gp_Id entry))) "ism identifier must be non-zero";
  let internalID := GetInternalId (gp_Id entry) in
  _ ← ensure (bool_decide (internalID ∈ known)) "message proof submitted entry for unknown ism";
  _ ← ensure (negb (bool_decide (internalID ∈ seen))) "duplicate message proof submitted entry";
  Ok (seen ∪ {[ internalID ]}).

Definition GenesisState_Validate (gs : GenesisState) : result unit :=
  known ← fold_res validate_ism (gs_Isms gs) ∅;
  _ ← fold_res (validate_messages known) (gs_Messages gs) ∅;
  _ ← fold_res (validate_submission known) (gs_Submissions gs) ∅;
  Ok tt.

Definition has_ism (k : Keeper) (id : Z) : bool := bool_decide (is_Some (isms k !! uint64_key id)).

Definition import_message (id : Z) (k : Keeper) (msg : bytes) : result Keeper :=
  messageId ← DecodeHex msg; Ok (set_message k id messageId).

Definition import_messages (k : Keeper) (m : GenesisMessages) : result Keeper :=
  let id := GetInternalId (gm_Id m) in
  _ ← ensure (has_ism k id) "messages defined for unknown ism";
  fold_res (import_message id) (gm_Messages m) k.

Definition import_submission (k : Keeper) (entry : GenesisProofSubmission) : result Keeper :=
  let id := GetInternalId (gp_Id entry) in
  _ ← ensure (has_ism k id) "message proof submitted entry for unknown ism";
  Ok (set_submission k id (gp_Submitted entry)).

Definition InitGenesis (k : Keeper) (gs : GenesisState) : result Keeper :=
  let k := fold_left (λ k ism, set_ism k (GetInternalId (ism_Id ism)) ism) (gs_Isms gs) k in
  k ← fold_res import_messages (gs_Messages gs) k;
  fold_res import_submission (gs_Submissions gs) k.

(** [key.K2()] of a pair key: what follows the number. *)
Definition pair_K2 (key : bytes) : bytes := drop 8 key.

(** The messages of one ISM, read as the first page of a collection. *)
Definition export_messages (k : Keeper) (ism : InterchainSecurityModule) : result (option GenesisMessages) :=
  '(msgs, _) ← CollectionPaginate None (prefix_iter (uint64_key (GetInternalId (ism_Id ism))) (messages k));
  let msgs := map (λ kv, EncodeHex (pair_K2 kv.1)) msgs in
  Ok (match msgs with
      | [] => None
      | _ => Some (mkGenesisMessages (ism_Id ism) (merge_sort bytes_le msgs))
      end).

Definition collect_messages (k : Keeper) (acc : list GenesisMessages) (ism : InterchainSecurityModule) : result (list GenesisMessages) :=
  m ← export_messages k ism; Ok (acc ++ option_list m).

Definition export_submission (ismByID : gmap Z bytes) (acc : list GenesisProofSubmission) (kv : bytes * bool) : result (list GenesisProofSubmission) :=
  ismId ← of_option "message proof submitted entry for unknown ism" (ismByID !! be_decode kv.1);
  Ok (acc ++ [mkGenesisProofSubmission ismId kv.2]).

(** [sort.Slice] by [Id.Compare]. *)
Definition gm_le (a b : GenesisMessages) : Prop := HexAddress_Compare (gm_Id a) (gm_Id b) <= 0.
Definition gp_le (a b : GenesisProofSubmission) : Prop := HexAddress_Compare (gp_Id a) (gp_Id b) <= 0.
#[global] Instance gm_le_dec : RelDecision gm_le := λ a b, Z_le_dec _ _.
#[global] Instance gp_le_dec : RelDecision gp_le := λ a b, Z_le_dec _ _.

Definition ExportGenesis (k : Keeper) : result GenesisState :=
  let all := (sorted_entries (isms k)).*2 in
  genesisMessages ← fold_res (collect_messages k) all [];
  let ismByID := fold_left (λ m ism, <[GetInternalId (ism_Id ism) := ism_Id ism]> m) all (∅ : gmap Z bytes) in
  subs ← fold_res (export_submission ismByID) (sorted_entries (submissions k)) [];
  Ok (mkGenesisState all (merge_sort gm_le genesisMessages) (merge_sort gp_le subs)).

(** ** Queries: [keeper/grpc_query.go] *)

Definition query_Ism (k : Keeper) (req : option bytes) : result InterchainSecurityModule :=
  Id ← of_option "InvalidArgument: request cannot be empty" req;
  ismId ← wrap_error "InvalidArgument: invalid hex address" (DecodeHexAddress Id);
  wrap_error "NotFound: ism not found" (get_ism k (GetInternalId ismId)).

Definition query_Isms (k : Keeper) (req : option (option PageRequest)) : result (list InterchainSecurityModule * PageResponse) :=
  pagination ← of_option "InvalidArgument: request cannot be empty" req;
  '(l, pr) ← wrap_error "Internal" (CollectionPaginate pagination (sorted_entries (isms k)));
  Ok (l.*2, pr).

(** The limit of a request is at most [MaxPaginationLimit]. *)
Definition cap_pagination (pagination : option PageRequest) : PageRequest :=
  match pagination with
  | None => mkPageRequest [] 0 MaxPaginationLimit false false
  | Some p =>
      if (pg_Limit p =? 0) || (MaxPaginationLimit <? pg_Limit p)
      then mkPageRequest (pg_Key p) (pg_Offset p) MaxPaginationLimit (pg_CountTotal p) (pg_Reverse p)
      else p
  end.

Definition query_Messages (k : Keeper) (req : option (bytes * option PageRequest)) : result (list bytes * PageResponse) :=
  '(Id, pagination) ← of_option "InvalidArgument: request cannot be empty" req;
  ismId ← wrap_error "InvalidArgument: invalid hex address" (DecodeHexAddress Id);
  '(l, pr) ← wrap_error "Internal" (CollectionPaginate (Some (cap_pagination pagination))
    (prefix_iter (uint64_key (GetInternalId ismId)) (messages k)));
  Ok (map (λ kv, EncodeHex (pair_K2 kv.1)) l, pr).
End Handlers.

End ZkIsm.
