(* ===== verification/ZkIsmProperties.v ===== *)
(** * x/zkism: properties

    The codec of public values, the invariant of the module's store, its
    executions as a step relation, and the claims: trusted states are reached by
    proved transitions, messages are delivered once per proved authorization,
    one proof is accepted per state root, and genesis export. *)

From S2P Require Import Prelude Sdk SdkModel FibreCache PayForBlob SquareModel ZkIsm.
#[local] Open Scope Z_scope.

Module ZkIsmProperties.
Import ZkIsm.

(** ** Reading and writing public values *)

Lemma length_le_u64 x : length (le_u64 x) = 8%nat.
Proof. unfold le_u64. by rewrite length_rev, length_be_bytes. Qed.

Lemma ReadFull_prefix n a rest : length a = n → ReadFull n (a ++ rest) = Ok (a, rest).
Proof.
  intros Ha. unfold ReadFull. rewrite length_app. rewrite (proj2 (Nat.ltb_ge _ _)) by lia.
  by rewrite take_app_length', drop_app_length'.
Qed.

Lemma ReadFull_Ok n buf a rest : ReadFull n buf = Ok (a, rest) ↔ buf = a ++ rest ∧ length a = n.
Proof.
  split.
  - unfold ReadFull. destruct (Nat.ltb_spec (length buf) n) as [|Hn]; [done|]. intros [= <- <-].
    rewrite take_drop, length_take. split; [done|lia].
  - intros [-> Hl]. by apply ReadFull_prefix.
Qed.

Lemma read_u64_app x rest : u64 x → read_u64 (le_u64 x ++ rest) = Ok (x, rest).
Proof.
  intros Hx. unfold read_u64. rewrite ReadFull_prefix by apply length_le_u64.
  cbn [mbind result_bind]. unfold le_u64. rewrite rev_involutive, be_decode_bytes; [done|].
  unfold u64, two64 in Hx. lia.
Qed.

Lemma be_bytes_decode b : Forall byte_ok b → be_bytes (length b) (be_decode b) = b.
Proof.
  induction b as [|x b IH] using rev_ind; [done|].
  intros [Hb Hx]%Forall_app. apply Forall_cons in Hx as [Hx _].
  rewrite length_app, Nat.add_comm. cbn [length Nat.add].
  rewrite SdkModel.be_bytes_S. unfold be_decode. rewrite fold_left_app. cbn [fold_left].
  unfold byte_ok in Hx. fold (be_decode b).
  rewrite Z.div_add_l, Z.div_small, Z.add_0_r by lia. rewrite IH by done. f_equal. f_equal.
  rewrite Z.add_comm, Z.mod_add, Z.mod_small; lia.
Qed.

Lemma be_decode_range b : Forall byte_ok b → 0 <= be_decode b < 256 ^ Z.of_nat (length b).
Proof.
  induction b as [|x b IH] using rev_ind; [done|].
  intros [Hb Hx]%Forall_app. apply Forall_cons in Hx as [Hx _]. specialize (IH Hb).
  unfold be_decode. rewrite fold_left_app. cbn [fold_left]. fold (be_decode b).
  rewrite length_app. cbn [length]. rewrite Nat2Z.inj_add, Z.pow_add_r by lia. unfold byte_ok in Hx.
  change (256 ^ Z.of_nat 1) with 256. lia.
Qed.

Lemma read_u64_Ok buf x rest : Forall byte_ok buf → read_u64 buf = Ok (x, rest) →
  buf = le_u64 x ++ rest ∧ u64 x.
Proof.
  intros Hb H. unfold read_u64 in H. inv_ok. destruct r as [b rest']. inv_ok.
  injection H as <- <-. apply ReadFull_Ok in Hr as [-> Hl]. apply Forall_app in Hb as [Hb _].
  assert (Hb' : Forall byte_ok (rev b)) by (apply Forall_rev; exact Hb).
  split.
  - f_equal. unfold le_u64. rewrite <- Hl, <- (length_rev b), be_bytes_decode, rev_involutive; done.
  - apply be_decode_range in Hb'. rewrite length_rev, Hl in Hb'. exact Hb'.
Qed.

Definition state_ok (s : bytes) : Prop := MinStateBytes <= lenZ s <= MaxStateBytes.

Lemma state_ok_u64 s : state_ok s → u64 (lenZ s).
Proof. unfold state_ok, MinStateBytes, MaxStateBytes. intros. fits. Qed.

Lemma read_state_app s rest : state_ok s → read_state (le_u64 (lenZ s) ++ s ++ rest) = Ok (s, rest).
Proof.
  intros Hs. pose proof (state_ok_u64 s Hs) as Hu. unfold state_ok in Hs. unfold read_state.
  rewrite read_u64_app by done. cbn [mbind result_bind].
  rewrite (proj2 (Z.ltb_ge _ _)), (proj2 (Z.ltb_ge _ _)) by lia. cbn [negb orb ensure mbind result_bind].
  apply ReadFull_prefix. unfold lenZ. lia.
Qed.

Lemma read_state_Ok buf s rest : read_state buf = Ok (s, rest) → state_ok s.
Proof.
  unfold read_state. intros H. inv_ok. destruct r as [l buf']. inv_ok.
  apply ReadFull_Ok in H as [_ Hl]. unfold state_ok, lenZ. rewrite Hl.
  apply negb_true_iff, orb_false_iff in Hr0 as [H1%Z.ltb_ge H2%Z.ltb_ge].
  unfold MinStateBytes in *. lia.
Qed.

Lemma transition_values_ok data v : StateTransitionValues_Unmarshal data = Ok v →
  state_ok (st_State v) ∧ state_ok (st_NewState v).
Proof.
  unfold StateTransitionValues_Unmarshal. intros H. inv_ok. destruct r as [s buf]. inv_ok.
  destruct r as [s' buf']. inv_ok. subst v. cbn. split; by eapply read_state_Ok.
Qed.

Definition array32 (b : bytes) : Prop := length b = 32%nat.

Lemma read_ids_concat ids : Forall array32 ids → read_ids (length ids) (concat ids) = Ok ids.
Proof.
  induction 1 as [|id ids Hid _ IH]; [done|]. cbn [length concat read_ids].
  rewrite ReadFull_prefix by done. cbn [mbind result_bind]. by rewrite IH.
Qed.

Lemma read_ids_Ok n : ∀ buf ids, read_ids n buf = Ok ids →
  ∃ rest, buf = concat ids ++ rest ∧ length ids = n ∧ Forall array32 ids.
Proof.
  induction n as [|n IH]; cbn [read_ids]; intros buf ids H; inv_ok.
  { subst ids. by exists buf. }
  destruct r as [id buf']. inv_ok. subst ids. apply ReadFull_Ok in Hr as [-> Hid].
  apply IH in Hr0 as (rest & -> & Hn & Hids). exists rest. cbn [concat length].
  rewrite app_assoc. split_and!; [done|lia|by constructor].
Qed.

Lemma length_concat32 ids : Forall array32 ids → length (concat ids) = (length ids * 32)%nat.
Proof. induction 1 as [|id ids Hid _ IH]; [done|]. cbn [concat length]. rewrite length_app, IH, Hid. lia. Qed.

(** A value whose arrays have 32 bytes, as their Go type says. *)
Definition membership_ok (v : StateMembershipValues) : Prop :=
  array32 (sm_StateRoot v) ∧ array32 (sm_MerkleTreeAddress v) ∧ Forall array32 (sm_MessageIds v).

Lemma membership_values_ok data v : StateMembershipValues_Unmarshal data = Ok v → membership_ok v.
Proof.
  unfold StateMembershipValues_Unmarshal. intros H. inv_ok. destruct r as [root b1]. inv_ok.
  destruct r as [mt b2]. inv_ok. destruct r as [c b3]. inv_ok. subst v.
  apply ReadFull_Ok in Hr as [_ H1], Hr0 as [_ H2]. apply read_ids_Ok in Hr4 as (_ & _ & _ & H3).
  by split_and!.
Qed.

Lemma membership_values_bytes data v : Forall byte_ok data → StateMembershipValues_Unmarshal data = Ok v →
  data = StateMembershipValues_Marshal v.
Proof.
  intros Hb H. unfold StateMembershipValues_Unmarshal in H. inv_ok. destruct r as [root b1]. inv_ok.
  destruct r as [mt b2]. inv_ok. destruct r as [c b3]. inv_ok. subst v.
  apply ReadFull_Ok in Hr as [-> _], Hr0 as [-> _].
  apply Forall_app in Hb as [_ Hb]. apply Forall_app in Hb as [_ Hb].
  apply read_u64_Ok in Hr1 as [-> Hc]; [|done].
  apply negb_true_iff, Z.ltb_ge in Hr2. unfold MaxMessageIdsCount in Hr2.
  apply read_ids_Ok in Hr4 as (rest & -> & Hn & Hids).
  unfold StateMembershipValues_Marshal. cbn. rewrite Hn, Z2Nat.id by (unfold u64 in Hc; lia). do 3 f_equal.
  apply Z.eqb_eq in Hr3. unfold lenZ in Hr3. rewrite length_app, length_concat32, Hn in Hr3 by done.
  assert (rest = []) as ->; [|by rewrite app_nil_r].
  assert (wrap_i64 c = c) as Hw by (apply wrap_i64_id; unfold u64 in Hc; fits).
  rewrite Hw, (wrap_i64_id (c * 32)) in Hr3 by (unfold u64 in Hc; fits).
  apply nil_length_inv. unfold u64 in Hc. lia.
Qed.

Lemma membership_values_unmarshal v : membership_ok v → Z.of_nat (length (sm_MessageIds v)) <= MaxMessageIdsCount →
  StateMembershipValues_Unmarshal (StateMembershipValues_Marshal v) = Ok v.
Proof.
  intros (H1 & H2 & H3) Hn. unfold MaxMessageIdsCount in Hn.
  unfold StateMembershipValues_Unmarshal, StateMembershipValues_Marshal.
  rewrite !ReadFull_prefix by done. cbn [mbind result_bind]. rewrite ReadFull_prefix by done. cbn [mbind result_bind].
  rewrite read_u64_app by fits. cbn [mbind result_bind].
  rewrite (proj2 (Z.ltb_ge _ _)) by done. cbn [negb ensure mbind result_bind].
  rewrite (wrap_i64_id (Z.of_nat _)), wrap_i64_id by fits. unfold lenZ. rewrite length_concat32 by done.
  rewrite (proj2 (Z.eqb_eq _ _)) by lia. cbn [ensure mbind result_bind].
  rewrite Nat2Z.id, read_ids_concat by done. by destruct v.
Qed.

Lemma transition_values_unmarshal v rest : state_ok (st_State v) → state_ok (st_NewState v) →
  StateTransitionValues_Unmarshal (StateTransitionValues_Marshal v ++ rest) = Ok v.
Proof.
  intros H1 H2. unfold StateTransitionValues_Unmarshal, StateTransitionValues_Marshal.
  rewrite <- !app_assoc, read_state_app by done. cbn [mbind result_bind].
  rewrite read_state_app by done. by destruct v.
Qed.

(** ** Hexadecimal strings and keys *)

Lemma DecodeHex_EncodeHex b : Forall byte_ok b → DecodeHex (EncodeHex b) = Ok b.
Proof.
  intros Hb. unfold DecodeHex, EncodeHex, TrimPrefix. rewrite decide_True by by apply prefix_app_r.
  rewrite drop_app_length, hex_roundtrip; done.
Qed.

Lemma hex_value_range c v : hex_value c = Some v → 0 <= v < 16.
Proof. unfold hex_value. repeat case_match; intros [= <-]; lia. Qed.

Lemma hex_DecodeString_bytes n : ∀ s b, (length s <= n)%nat → hex_DecodeString s = Some b → Forall byte_ok b.
Proof.
  induction n as [|n IH]; intros [|c1 [|c2 s]] b Hn; cbn [length hex_DecodeString] in *; try lia; try done;
    try by intros [= <-].
  destruct (hex_value c1) as [h|] eqn:E1; [|done]. destruct (hex_value c2) as [l|] eqn:E2; [|done].
  destruct (hex_DecodeString s) as [b'|] eqn:E3; [|done]. intros [= <-].
  apply hex_value_range in E1, E2. constructor; [unfold byte_ok; lia|]. eapply (IH s); [lia|done].
Qed.

Lemma DecodeHex_bytes s b : DecodeHex s = Ok b → Forall byte_ok b.
Proof. unfold DecodeHex. intros H. inv_ok. by eapply hex_DecodeString_bytes. Qed.

Lemma length_uint64_key a : length (uint64_key a) = 8%nat.
Proof. apply length_be_bytes. Qed.

Lemma uint64_key_inj a b : u64 a → u64 b → uint64_key a = uint64_key b → a = b.
Proof. apply be_bytes_inj_u64. Qed.

Lemma pair_key_inj a m b n : u64 a → u64 b → pair_key a m = pair_key b n → a = b ∧ m = n.
Proof.
  intros Ha Hb E. apply app_inj_1 in E as [E ->]; [|by rewrite !length_uint64_key].
  split; [by apply uint64_key_inj|done].
Qed.

Lemma prefix_pair_key a b m : u64 a → u64 b → uint64_key a `prefix_of` pair_key b m → a = b.
Proof.
  intros Ha Hb [x E]. apply app_inj_1 in E as [E _]; [|by rewrite !length_uint64_key].
  symmetry. by apply uint64_key_inj.
Qed.

Lemma pair_K2_key a m : pair_K2 (pair_key a m) = m.
Proof. unfold pair_K2, pair_key. rewrite drop_app_length'; [done|by rewrite length_uint64_key]. Qed.

Lemma membership_ids_ok data v : Forall byte_ok data → StateMembershipValues_Unmarshal data = Ok v →
  Forall (λ m, array32 m ∧ Forall byte_ok m) (sm_MessageIds v).
Proof.
  intros Hb H. pose proof (membership_values_ok _ _ H) as (_ & _ & Hids).
  apply membership_values_bytes in H; [|done]. subst data. unfold StateMembershipValues_Marshal in Hb.
  do 3 apply Forall_app in Hb as [_ Hb]. apply Forall_and. split; [done|]. clear Hids.
  induction (sm_MessageIds v) as [|m ms IH]; [done|]. apply Forall_app in Hb as [Hm Hb]. constructor; auto.
Qed.

(** ** Folding over lists of distinct entries *)

Lemma fold_insert_lookup {A V} (key : A → bytes) (val : A → V) l : NoDup (map key l) → ∀ (m : gmap bytes V) k v,
  fold_left (λ m a, <[key a := val a]> m) l m !! k = Some v ↔
  (∃ a, a ∈ l ∧ key a = k ∧ val a = v) ∨ (m !! k = Some v ∧ k ∉ map key l).
Proof.
  induction l as [|x l IH]; intros Hn m k v; cbn [fold_left map].
  { split; [intros H; right; split; [done|apply not_elem_of_nil]|]. intros [(a & Ha & _)|[H _]]; [by apply elem_of_nil in Ha|done]. }
  apply NoDup_cons in Hn as [Hx Hn]. rewrite IH by done. rewrite lookup_insert_Some, not_elem_of_cons. split.
  - intros [(a & Ha & Hk & Hv)|[[[<- <-]|[Hne Hm]] Hk]].
    + left. exists a. split; [by right|done].
    + left. exists x. split; [by left|done].
    + right. split_and!; [done|congruence|done].
  - intros [(a & [->|Ha]%elem_of_cons & Hk & Hv)|[Hm [Hne Hk]]].
    + right. split; [by left|]. by rewrite <- Hk.
    + left. eauto.
    + right. split; [right; split; [congruence|done]|done].
Qed.

Lemma fold_res_Forall {A S} (P : A → Prop) (f : S → A → result S) l : ∀ s s', fold_res f l s = Ok s' →
  (∀ s a s', f s a = Ok s' → P a) → Forall P l.
Proof.
  induction l as [|a l IH]; intros s s' H Hf; [constructor|]. cbn in H. inv_ok. constructor; eauto.
Qed.

Lemma fold_res_invariant {A S} (I : S → Prop) (f : S → A → result S) l : ∀ s s', fold_res f l s = Ok s' → I s →
  (∀ s a s', a ∈ l → I s → f s a = Ok s' → I s') → I s'.
Proof.
  induction l as [|a l IH]; intros s s' H Hs Hf; cbn in H; inv_ok; [by subst|].
  eapply IH; [done| |]; [eapply Hf; [left|exact Hs|done]|]. intros. eapply Hf; [right|..]; done.
Qed.

(** A loop that collects distinct ids and succeeds on each element. *)
Lemma fold_seen {A} (id : A → Z) (f : gset Z → A → result (gset Z)) l :
  (∀ seen a, a ∈ l → id a ∉ seen → f seen a = Ok (seen ∪ {[ id a ]})) → NoDup (map id l) →
  ∀ seen : gset Z, (∀ a, a ∈ l → id a ∉ seen) → ∃ seen', fold_res f l seen = Ok seen' ∧ seen' ≡ seen ∪ list_to_set (map id l).
Proof.
  induction l as [|a l IH]; intros Hf Hn seen Hs; cbn [fold_res map].
  { exists seen. split; [done|set_solver]. }
  apply NoDup_cons in Hn as [Ha Hn]. rewrite Hf by (first [left|apply Hs; left]).
  destruct (IH ltac:(intros; apply Hf; [by right|done]) Hn (seen ∪ {[ id a ]})) as (seen' & E & Hs').
  { intros b Hb. rewrite not_elem_of_union, not_elem_of_singleton. split; [apply Hs; by right|].
    intros E. apply Ha. rewrite <- E. by apply (list_elem_of_fmap_2 id). }
  exists seen'. split; [exact E|]. set_solver.
Qed.

Section Module.
Context `{CR : Crypto} `{GN : Gnark} `{HL : Hyperlane} `{HLL : !HyperlaneLaws} `{GM : GasMeterOps}.
Context `{PG : Pagination} `{PGL : !PaginationLaws} `{EV : TypedEvents Event}.

Abbreviation iid ism := (GetInternalId (ism_Id ism)).

(** ** What an accepted call means *)

(** [values] are the public values of a proof that the verifier of [ism] accepts
    for the program [vkey]. *)
Definition proved (ism : InterchainSecurityModule) (vkey proof values : bytes) : Prop :=
  ∃ v, NewSP1Groth16Verifier (ism_Groth16Vkey ism) = Ok v ∧ VerifyProof v proof vkey values = Ok tt.

Lemma EmitTypedEvent_keeps w e w' : EmitTypedEvent w e = Ok w' → w_k w' = w_k w ∧ w_router w' = w_router w.
Proof. unfold EmitTypedEvent. destruct (TypedEventError e); [done|]. intros [= <-]. done. Qed.

Lemma charge_proof_Ok w w' : charge_proof w = Ok w' → w_k w' = w_k w ∧ w_router w' = w_router w.
Proof. unfold charge_proof. intros H. inv_ok. by subst. Qed.

Lemma state_root_Ok s r : state_root s = Ok r → r = take 32 s.
Proof. unfold state_root. case_match; [done|]. by intros [= <-]. Qed.

Lemma create_effect w msg w' id : CreateInterchainSecurityModule w msg = Ok (w', id) →
  GetNextSequence (w_router w) ModuleTypeZkISM = Ok (w_router w', id) ∧
  w_k w' = set_ism (w_k w) (GetInternalId id) (mkIsm id (cr_Creator msg) (cr_State msg) (cr_MerkleTreeAddress msg)
    (cr_Groth16Vkey msg) (cr_StateTransitionVkey msg) (cr_StateMembershipVkey msg)).
Proof.
  unfold CreateInterchainSecurityModule. intros H. inv_ok. destruct r as [r id']. inv_ok.
  injection H as <- <-. apply EmitTypedEvent_keeps in Hr0 as [Hk Hrt]. cbn in *. by rewrite Hk, Hrt.
Qed.

(** The transition an update message proves, with the ISM it was applied to. *)
Definition updates (k : Keeper) (msg : MsgUpdateInterchainSecurityModule) (ism : InterchainSecurityModule) (v : StateTransitionValues) : Prop :=
  isms k !! uint64_key (GetInternalId (up_Id msg)) = Some ism ∧
  StateTransitionValues_Unmarshal (up_PublicValues msg) = Ok v ∧
  ism_State ism = st_State v ∧
  proved ism (ism_StateTransitionVkey ism) (up_Proof msg) (up_PublicValues msg).

Definition root_changed (v : StateTransitionValues) : bool := negb (bool_decide (take 32 (st_State v) = take 32 (st_NewState v))).

Lemma update_effect w msg w' s : UpdateInterchainSecurityModule w msg = Ok (w', s) →
  ∃ ism v, updates (w_k w) msg ism v ∧ w_router w' = w_router w ∧
    let k' := set_ism (w_k w) (iid ism) (with_state ism (st_NewState v)) in
    w_k w' = if root_changed v then set_submission k' (iid ism) false else k'.
Proof.
  unfold UpdateInterchainSecurityModule. intros H. inv_ok. injection H as <- <-.
  apply wrap_error_Ok in Hr, Hr0. apply of_option_Ok in Hr. apply bool_decide_eq_true in Hr2.
  destruct r1. destruct r2. destruct r5. apply charge_proof_Ok in Hr4 as [Hk Hrt].
  apply state_root_Ok in Hr6, Hr7. subst r6 r7. apply EmitTypedEvent_keeps in Hr8 as [Hk' Hrt'].
  exists r, r0. split; [by split_and!; [..|eexists]|]. rewrite Hrt', Hk'. unfold root_changed. rewrite <- Hr2.
  destruct (bool_decide (take 32 (ism_State r) = _)); cbn; by rewrite Hk, Hrt.
Qed.

Definition submits (k : Keeper) (msg : MsgSubmitMessages) (ism : InterchainSecurityModule) (v : StateMembershipValues) : Prop :=
  isms k !! uint64_key (GetInternalId (sub_Id msg)) = Some ism ∧
  StateMembershipValues_Unmarshal (sub_PublicValues msg) = Ok v ∧
  sm_StateRoot v = take 32 (ism_State ism) ∧
  sm_MerkleTreeAddress v = ism_MerkleTreeAddress ism ∧
  submitted k (iid ism) = false ∧
  proved ism (ism_StateMembershipVkey ism) (sub_Proof msg) (sub_PublicValues msg).

Lemma submit_effect w msg w' res : SubmitMessages w msg = Ok (w', res) →
  ∃ ism v, submits (w_k w) msg ism v ∧ w_router w' = w_router w ∧
    w_k w' = set_submission (fold_left (λ k m, set_message k (iid ism) m) (sm_MessageIds v) (w_k w)) (iid ism) true.
Proof.
  unfold SubmitMessages. intros H. inv_ok. injection H as <- _.
  apply wrap_error_Ok in Hr, Hr0. apply of_option_Ok in Hr.
  apply state_root_Ok in Hr1. subst r1. apply bool_decide_eq_true in Hr2, Hr4. apply negb_true_iff in Hr3.
  apply charge_proof_Ok in Hr6 as [Hk Hrt]. destruct r7.
  unfold EmitSubmitMessagesEvent in Hr8. inv_ok. apply EmitTypedEvent_keeps in Hr8 as [Hk' Hrt'].
  exists r, r0. split; [by split_and!; [..|eexists]|]. rewrite Hrt', Hk'. cbn. by rewrite Hk, Hrt.
Qed.

Lemma verify_effect w ismId message w' b : Verify w ismId message = Ok (w', b) →
  ∃ ism, isms (w_k w) !! uint64_key (GetInternalId ismId) = Some ism ∧ w_router w' = w_router w ∧
    b = has_message (w_k w) (iid ism) (message_Id message) ∧
    w_k w' = if b then remove_message (w_k w) (iid ism) (message_Id message) else w_k w.
Proof.
  unfold Verify. intros H. inv_ok. injection H as <- <-. apply wrap_error_Ok, of_option_Ok in Hr.
  exists r. destruct (has_message _ _ _); done.
Qed.

(** ** The invariant of the store *)

Definition ism_ok (ism : InterchainSecurityModule) : Prop :=
  IsZeroAddress (ism_Id ism) = false ∧
  check_ism (ism_State ism) (ism_MerkleTreeAddress ism) (ism_Groth16Vkey ism) (ism_StateTransitionVkey ism) (ism_StateMembershipVkey ism) = Ok tt.

Definition message_ok (m : bytes) : Prop := array32 m ∧ Forall byte_ok m.

Record kinv (k : Keeper) : Prop := {
  kinv_ism key ism : isms k !! key = Some ism → key = uint64_key (iid ism) ∧ ism_ok ism;
  kinv_message key : is_Some (messages k !! key) →
    ∃ ism m, isms k !! uint64_key (iid ism) = Some ism ∧ key = pair_key (iid ism) m ∧ message_ok m;
  kinv_submission key : is_Some (submissions k !! key) → is_Some (isms k !! key);
}.

(** The router has not handed out the ids that are still to come. *)
Definition below (k : Keeper) (r : router) : Prop := ∀ key ism, isms k !! key = Some ism → iid ism < router_seq r.

Definition winv (w : World) : Prop := kinv (w_k w) ∧ below (w_k w) (w_router w).

Lemma iid_u64 ism : u64 (iid ism).
Proof. apply GetInternalId_u64. Qed.
#[local] Hint Resolve iid_u64 GetInternalId_u64 : go.

Lemma kinv_lookup k id ism : kinv k → u64 id → isms k !! uint64_key id = Some ism → iid ism = id.
Proof. intros Hk Hid H. apply (kinv_ism k Hk) in H as [H _]. symmetry. apply uint64_key_inj; auto with go. Qed.

Lemma ism_ok_state ism : ism_ok ism → state_ok (ism_State ism).
Proof.
  intros [_ H]. unfold check_ism in H. inv_ok. unfold state_ok.
  apply negb_true_iff, Z.ltb_ge in Hr, Hr0. lia.
Qed.

Lemma ism_ok_with_state ism s : ism_ok ism → state_ok s → ism_ok (with_state ism s).
Proof.
  intros [Hz H] Hs. split; [done|]. unfold check_ism in *. cbn. inv_ok. unfold state_ok in Hs.
  rewrite (proj2 (Z.ltb_ge _ _)), (proj2 (Z.ltb_ge _ _)) by lia. cbn [negb ensure mbind result_bind].
  rewrite Hr1. cbn [ensure mbind result_bind]. rewrite Hr2. cbn [mbind result_bind]. rewrite Hr3.
  cbn [mbind result_bind]. rewrite Hr4. cbn [ensure mbind result_bind]. by rewrite H.
Qed.

Lemma kinv_empty : kinv empty_keeper.
Proof.
  split; cbn; intros *; rewrite lookup_empty; [done| |]; intros [? ?]; done.
Qed.

(** Storing an ISM under its own id, new or with another state. *)
Lemma kinv_set_ism k ism : kinv k → ism_ok ism → kinv (set_ism k (iid ism) ism).
Proof.
  intros Hk Hi. split; cbn.
  - intros key i. rewrite lookup_insert_Some. intros [[<- <-]|[_ H]]; [done|by apply (kinv_ism k Hk)].
  - intros key H. apply (kinv_message k Hk) in H as (i & m & Hl & -> & Hm).
    destruct (decide (uint64_key (iid ism) = uint64_key (iid i))) as [E|Hne].
    + exists ism, m. rewrite lookup_insert_eq. apply uint64_key_inj in E; [|auto with go..]. by rewrite E.
    + exists i, m. by rewrite lookup_insert_ne.
  - intros key H. apply (kinv_submission k Hk) in H. destruct (decide (uint64_key (iid ism) = key)) as [<-|Hne].
    + rewrite lookup_insert_eq. eauto.
    + by rewrite lookup_insert_ne.
Qed.

Lemma kinv_set_message k ism m : kinv k → isms k !! uint64_key (iid ism) = Some ism → message_ok m → kinv (set_message k (iid ism) m).
Proof.
  intros Hk Hi Hm. split; cbn; [apply (kinv_ism k Hk)| |apply (kinv_submission k Hk)].
  intros key. rewrite lookup_insert_is_Some. intros [<-|[_ H]]; [by exists ism, m|].
  by apply (kinv_message k Hk).
Qed.

Lemma set_messages_isms k id ms : isms (fold_left (λ k m, set_message k id m) ms k) = isms k.
Proof. revert k. induction ms as [|m ms IH]; intros k; [done|]. cbn. by rewrite IH. Qed.

Lemma set_messages_submissions k id ms : submissions (fold_left (λ k m, set_message k id m) ms k) = submissions k.
Proof. revert k. induction ms as [|m ms IH]; intros k; [done|]. cbn. by rewrite IH. Qed.

Lemma kinv_set_messages k ism ms : kinv k → isms k !! uint64_key (iid ism) = Some ism → Forall message_ok ms →
  kinv (fold_left (λ k m, set_message k (iid ism) m) ms k).
Proof.
  intros Hk Hi Hms. revert k Hk Hi. induction Hms as [|m ms Hm _ IH]; intros k Hk Hi; [done|].
  cbn. apply IH; [by apply kinv_set_message|done].
Qed.

Lemma kinv_remove_message k id m : kinv k → kinv (remove_message k id m).
Proof.
  intros Hk. split; cbn; [apply (kinv_ism k Hk)| |apply (kinv_submission k Hk)].
  intros key. rewrite lookup_delete_is_Some. intros [_ H]. by apply (kinv_message k Hk).
Qed.

Lemma kinv_set_submission k id b : kinv k → is_Some (isms k !! uint64_key id) → kinv (set_submission k id b).
Proof.
  intros Hk Hi. split; cbn; [apply (kinv_ism k Hk)|apply (kinv_message k Hk)|].
  intros key. rewrite lookup_insert_is_Some. intros [<-|[_ H]]; [done|]. by apply (kinv_submission k Hk).
Qed.

(** ** Executions

    Messages run after their stateless validation and their bytes are bytes; a
    message that fails leaves no trace. The mailbox asks for verification, and
    blocks renew the gas meter and the events while other modules take ids from
    the router. *)

Inductive action :=
| ACreate (msg : MsgCreateInterchainSecurityModule) (id : bytes)
| AUpdate (msg : MsgUpdateInterchainSecurityModule)
| ASubmit (msg : MsgSubmitMessages)
| AVerify (ismId : bytes) (message : HyperlaneMessage) (answer : bool)
| AEnvironment.

Inductive zstep : World → action → World → Prop :=
| zstep_create w msg w' id :
    MsgCreate_ValidateBasic msg = Ok tt → CreateInterchainSecurityModule w msg = Ok (w', id) →
    zstep w (ACreate msg id) w'
| zstep_update w msg w' s :
    MsgUpdate_ValidateBasic msg = Ok tt → UpdateInterchainSecurityModule w msg = Ok (w', s) →
    zstep w (AUpdate msg) w'
| zstep_submit w msg w' res :
    MsgSubmit_ValidateBasic msg = Ok tt → Forall byte_ok (sub_PublicValues msg) →
    SubmitMessages w msg = Ok (w', res) → zstep w (ASubmit msg) w'
| zstep_verify w ismId message w' b :
    Verify w ismId message = Ok (w', b) → zstep w (AVerify ismId message b) w'
| zstep_environment w r gm evs :
    router_seq (w_router w) <= router_seq r → zstep w AEnvironment (mkWorld (w_k w) r gm evs).

Inductive zrun : World → list action → World → Prop :=
| zrun_nil w : zrun w [] w
| zrun_cons w a w1 tr w' : zstep w a w1 → zrun w1 tr w' → zrun w (a :: tr) w'.

Lemma zrun_app w t1 t2 w' : zrun w (t1 ++ t2) w' → ∃ w1, zrun w t1 w1 ∧ zrun w1 t2 w'.
Proof.
  revert w. induction t1 as [|a t1 IH]; cbn; intros w H; [exists w; split; [constructor|done]|].
  inversion_clear H as [|? ? w1 ? ? Hs Hr]. apply IH in Hr as (w2 & H1 & H2).
  exists w2. split; [by econstructor|done].
Qed.

Lemma zrun_trans w t1 w1 t2 w' : zrun w t1 w1 → zrun w1 t2 w' → zrun w (t1 ++ t2) w'.
Proof. induction 1; [done|]. intros H2. econstructor; eauto. Qed.

Lemma zrun_cons_inv w a tr w' : zrun w (a :: tr) w' → ∃ w1, zstep w a w1 ∧ zrun w1 tr w'.
Proof. intros H. inversion_clear H. eauto. Qed.

Definition new_ism (msg : MsgCreateInterchainSecurityModule) (id : bytes) : InterchainSecurityModule :=
  mkIsm id (cr_Creator msg) (cr_State msg) (cr_MerkleTreeAddress msg) (cr_Groth16Vkey msg)
    (cr_StateTransitionVkey msg) (cr_StateMembershipVkey msg).

(** What a step does to the store. *)
Lemma zstep_effect w a w' : zstep w a w' → winv w →
  match a with
  | ACreate msg id => ism_ok (new_ism msg id) ∧ isms (w_k w) !! uint64_key (GetInternalId id) = None ∧
      w_k w' = set_ism (w_k w) (GetInternalId id) (new_ism msg id)
  | AUpdate msg => ∃ ism v, updates (w_k w) msg ism v ∧
      let k' := set_ism (w_k w) (iid ism) (with_state ism (st_NewState v)) in
      w_k w' = if root_changed v then set_submission k' (iid ism) false else k'
  | ASubmit msg => ∃ ism v, submits (w_k w) msg ism v ∧ Forall message_ok (sm_MessageIds v) ∧
      w_k w' = set_submission (fold_left (λ k m, set_message k (iid ism) m) (sm_MessageIds v) (w_k w)) (iid ism) true
  | AVerify ismId message b => ∃ ism, isms (w_k w) !! uint64_key (GetInternalId ismId) = Some ism ∧
      b = has_message (w_k w) (iid ism) (message_Id message) ∧
      w_k w' = if b then remove_message (w_k w) (iid ism) (message_Id message) else w_k w
  | AEnvironment => w_k w' = w_k w
  end ∧ below (w_k w') (w_router w').
Proof.
  intros Hs [Hk Hb]. destruct Hs as [w msg w' id Hv H|w msg w' s Hv H|w msg w' res Hv Hd H|w i m w' b H|w r gm evs Hr].
  - apply create_effect in H as [Hn E]. apply GetNextSequence_spec in Hn as (Hid & Hseq & Hz).
    assert (Hfresh : isms (w_k w) !! uint64_key (GetInternalId id) = None).
    { destruct (isms (w_k w) !! _) as [i|] eqn:Hi; [|done]. exfalso.
      pose proof (Hb _ _ Hi). apply kinv_lookup in Hi; [lia|done|auto with go]. }
    split; [by split_and!|]. rewrite E. intros key i. cbn. rewrite lookup_insert_Some.
    intros [[_ <-]|[_ Hi]]; cbn; [lia|]. apply Hb in Hi. lia.
  - apply update_effect in H as (ism & v & Hu & Hrt & E). split; [eauto|]. rewrite E, Hrt. cbn.
    intros key i Hi. assert (Hi' : <[uint64_key (iid ism) := with_state ism (st_NewState v)]> (isms (w_k w)) !! key = Some i)
      by (destruct (root_changed v); exact Hi).
    apply lookup_insert_Some in Hi' as [[_ <-]|[_ Hi']]; [apply (Hb _ _ (proj1 Hu))|by eapply Hb].
  - apply submit_effect in H as (ism & v & Hu & Hrt & E). split.
    + exists ism, v. split_and!; [done| |done]. eapply membership_ids_ok; [done|apply Hu].
    + rewrite E, Hrt. intros key i. cbn. rewrite set_messages_isms. apply Hb.
  - apply verify_effect in H as (ism & Hi & Hrt & Eb & E). split; [eauto|]. rewrite E, Hrt. by destruct b.
  - split; [done|]. cbn. intros key i Hi. apply Hb in Hi. lia.
Qed.

Lemma zstep_winv w a w' : zstep w a w' → winv w → winv w'.
Proof.
  intros Hs Hw. pose proof (zstep_effect _ _ _ Hs Hw) as [H Hb]. split; [|done]. destruct Hw as [Hk _].
  destruct a as [msg id|msg|msg|i m b|].
  - destruct H as (Hok & _ & ->). apply (kinv_set_ism _ (new_ism msg id)); done.
  - destruct H as (ism & v & (Hi & Hv & Hst & _) & ->). apply transition_values_ok in Hv as [_ Hn].
    assert (Hk' : kinv (set_ism (w_k w) (iid ism) (with_state ism (st_NewState v)))).
    { apply (kinv_set_ism _ (with_state ism (st_NewState v))); [done|]. apply ism_ok_with_state; [|done].
      by apply (kinv_ism _ Hk) in Hi as [_ ?]. }
    destruct (root_changed v); [|done]. apply kinv_set_submission; [done|]. cbn. rewrite lookup_insert_eq. eauto.
  - destruct H as (ism & v & (Hi & _) & Hm & ->).
    assert (Hi' : isms (w_k w) !! uint64_key (iid ism) = Some ism) by by rewrite (kinv_lookup _ _ _ Hk (GetInternalId_u64 _) Hi).
    apply kinv_set_submission; [by apply kinv_set_messages|]. rewrite set_messages_isms. eauto.
  - destruct H as (ism & _ & _ & ->). destruct b; [by apply kinv_remove_message|done].
  - by rewrite H.
Qed.

Lemma zrun_winv w tr w' : zrun w tr w' → winv w → winv w'.
Proof. induction 1; eauto using zstep_winv. Qed.

(** ** Chains of proved transitions *)

(** [tr] contains an accepted update that proves the step from [s] to [s'] of
    the ISM with the keys of [ism]. *)
Definition transition (tr : list action) (ism : InterchainSecurityModule) (s s' : bytes) : Prop :=
  ∃ msg, AUpdate msg ∈ tr ∧ GetInternalId (up_Id msg) = iid ism ∧
    StateTransitionValues_Unmarshal (up_PublicValues msg) = Ok (mkStateTransitionValues s s') ∧
    proved ism (ism_StateTransitionVkey ism) (up_Proof msg) (up_PublicValues msg).

Lemma transition_mono tr tr' ism s s' : tr ⊆ tr' → transition tr ism s s' → transition tr' ism s s'.
Proof. intros Ht (msg & Hin & H). exists msg. split; [by apply Ht|done]. Qed.

Lemma transitions_mono tr tr' ism s s' : tr ⊆ tr' → rtc (transition tr ism) s s' → rtc (transition tr' ism) s s'.
Proof. intros Ht. apply rtc_subrel. intros ? ?. by apply transition_mono. Qed.

(** An ISM keeps everything but its state, which moves along proved steps. *)
Definition evolves (tr : list action) (ism ism' : InterchainSecurityModule) : Prop :=
  ism' = with_state ism (ism_State ism') ∧ rtc (transition tr ism) (ism_State ism) (ism_State ism').

Lemma with_state_self ism : ism = with_state ism (ism_State ism).
Proof. by destruct ism. Qed.

Lemma evolves_refl tr ism : evolves tr ism ism.
Proof. split; [apply with_state_self|constructor]. Qed.

Lemma evolves_trans t1 t2 tr a b c : t1 ⊆ tr → t2 ⊆ tr → evolves t1 a b → evolves t2 b c → evolves tr a c.
Proof.
  intros H1 H2 [E1 R1] [E2 R2]. split; [by rewrite E2, E1|].
  apply (transitions_mono _ tr) in R1; [|done]. apply (transitions_mono _ tr) in R2; [|done].
  etrans; [exact R1|]. rewrite E1 in R2. exact R2.
Qed.

Lemma zstep_evolves w a w' key ism : zstep w a w' → winv w → isms (w_k w) !! key = Some ism →
  ∃ ism', isms (w_k w') !! key = Some ism' ∧ evolves [a] ism ism'.
Proof.
  intros Hs Hw Hi. pose proof (zstep_effect _ _ _ Hs Hw) as [H _]. destruct Hw as [Hk _].
  destruct a as [msg id|msg|msg|i m b|].
  - destruct H as (_ & Hn & ->). exists ism. split; [|apply evolves_refl]. cbn. rewrite lookup_insert_ne; [done|]. congruence.
  - destruct H as (ism0 & v & Hu & E).
    assert (Ei : isms (w_k w') = <[uint64_key (iid ism0) := with_state ism0 (st_NewState v)]> (isms (w_k w)))
      by (rewrite E; by destruct (root_changed v)).
    rewrite Ei. destruct (decide (uint64_key (iid ism0) = key)) as [Ek|Hne].
    + rewrite <- Ek in *. rewrite lookup_insert_eq. eexists. split; [done|].
      destruct Hu as (Hi0 & Hv & Hst & Hp). pose proof (kinv_lookup _ _ _ Hk (GetInternalId_u64 _) Hi0) as Hid.
      rewrite <- Hid in Hi0. assert (ism0 = ism) as -> by congruence.
      split; [done|]. apply rtc_once. exists msg. split_and!; [by left|done|rewrite Hst; by destruct v|done].
    + rewrite lookup_insert_ne by done. exists ism. split; [done|apply evolves_refl].
  - destruct H as (ism0 & v & _ & _ & ->). cbn. rewrite set_messages_isms. exists ism. split; [done|apply evolves_refl].
  - destruct H as (ism0 & _ & _ & ->). exists ism. split; [by destruct b|apply evolves_refl].
  - rewrite H. exists ism. split; [done|apply evolves_refl].
Qed.

Lemma zrun_evolves w tr w' key ism : zrun w tr w' → winv w → isms (w_k w) !! key = Some ism →
  ∃ ism', isms (w_k w') !! key = Some ism' ∧ evolves tr ism ism'.
Proof.
  intros Hr. revert ism. induction Hr as [w|w a w1 tr w' Hs Hr IH]; intros ism Hw Hi.
  { exists ism. split; [done|apply evolves_refl]. }
  destruct (zstep_evolves _ _ _ _ _ Hs Hw Hi) as (i1 & H1 & E1).
  destruct (IH i1 (zstep_winv _ _ _ Hs Hw) H1) as (i2 & H2 & E2).
  exists i2. split; [done|]. eapply evolves_trans; [| |exact E1|exact E2]; set_solver.
Qed.

Lemma zstep_domain w a w' key ism : zstep w a w' → winv w → isms (w_k w') !! key = Some ism →
  is_Some (isms (w_k w) !! key) ∨ ∃ msg id, a = ACreate msg id ∧ ism = new_ism msg id.
Proof.
  intros Hs Hw Hi. pose proof (zstep_effect _ _ _ Hs Hw) as [H _]. destruct Hw as [Hk _].
  destruct a as [msg id|msg|msg|i m b|].
  - destruct H as (_ & _ & E). rewrite E in Hi. cbn in Hi.
    apply lookup_insert_Some in Hi as [[_ <-]|[_ Hi]]; [right; eauto|left; eauto].
  - left. destruct H as (ism0 & v & (Hi0 & _) & E).
    assert (Hi' : <[uint64_key (iid ism0) := with_state ism0 (st_NewState v)]> (isms (w_k w)) !! key = Some ism)
      by (rewrite E in Hi; by destruct (root_changed v)).
    pose proof (kinv_lookup _ _ _ Hk (GetInternalId_u64 _) Hi0) as Hid. rewrite <- Hid in Hi0.
    apply lookup_insert_Some in Hi' as [[<- _]|[_ Hi']]; eauto.
  - left. destruct H as (ism0 & v & _ & _ & E). rewrite E in Hi. cbn in Hi. rewrite set_messages_isms in Hi. eauto.
  - left. destruct H as (ism0 & _ & _ & E). rewrite E in Hi. destruct b; eauto.
  - left. rewrite <- H. eauto.
Qed.

(** Every ISM was there at the start or was created by a message of the run. *)
Lemma zrun_origin w tr w' key ism : zrun w tr w' → winv w → isms (w_k w') !! key = Some ism →
  ∃ ism0, evolves tr ism0 ism ∧
    (isms (w_k w) !! key = Some ism0 ∨ ∃ msg id, ACreate msg id ∈ tr ∧ ism0 = new_ism msg id).
Proof.
  intros Hr Hw. induction Hr as [w|w a w1 tr w' Hs Hr IH]; intros Hi.
  { exists ism. split; [apply evolves_refl|by left]. }
  destruct (IH (zstep_winv _ _ _ Hs Hw) Hi) as (i1 & E1 & [H1|(msg & id & Hin & ->)]).
  2: { exists (new_ism msg id). split; [|right; exists msg, id; split; [by right|done]].
       eapply (evolves_trans [] tr); [| |apply evolves_refl|exact E1]; set_solver. }
  destruct (zstep_domain _ _ _ _ _ Hs Hw H1) as [[i0 H0]|(msg & id & -> & ->)].
  - destruct (zstep_evolves _ _ _ _ _ Hs Hw H0) as (i1' & H1' & E0).
    assert (i1' = i1) as -> by congruence. exists i0. split; [|by left].
    eapply evolves_trans; [| |exact E0|exact E1]; set_solver.
  - exists (new_ism msg id). split; [|right; exists msg, id; split; [by left|done]].
    eapply (evolves_trans [] tr); [| |apply evolves_refl|exact E1]; set_solver.
Qed.

(** ** Authorizations and deliveries *)

(** The accepted submission [a] authorizes [m] for the ISM [id]. *)
Definition grants (id : Z) (m : bytes) (a : action) : bool :=
  match a with
  | ASubmit msg =>
      match StateMembershipValues_Unmarshal (sub_PublicValues msg) with
      | Ok v => (GetInternalId (sub_Id msg) =? id) && bool_decide (m ∈ sm_MessageIds v)
      | _ => false
      end
  | _ => false
  end.

(** The ISM [id] told the mailbox to deliver [m]. *)
Definition delivers (id : Z) (m : bytes) (a : action) : bool :=
  match a with
  | AVerify ismId message true => (GetInternalId ismId =? id) && bool_decide (message_Id message = m)
  | _ => false
  end.

Definition count (f : action → bool) (tr : list action) : Z := zsum (map (λ a, Z.b2z (f a)) tr).

Definition pending (k : Keeper) (id : Z) (m : bytes) : Z := Z.b2z (has_message k id m).

Lemma has_set_messages k i ms id m : u64 i → u64 id →
  has_message (fold_left (λ k m, set_message k i m) ms k) id m = has_message k id m || ((i =? id) && bool_decide (m ∈ ms)).
Proof.
  intros Hi Hid. revert k. induction ms as [|x ms IH]; intros k; cbn [fold_left].
  { rewrite bool_decide_false by apply not_elem_of_nil. by rewrite andb_false_r, orb_false_r. }
  rewrite IH. apply eq_true_iff_eq. rewrite !orb_true_iff, !andb_true_iff. unfold has_message. cbn.
  rewrite !bool_decide_eq_true, lookup_insert_is_Some', elem_of_cons, Z.eqb_eq. split.
  - intros [[E|H]|[-> H]]; [|tauto..]. apply pair_key_inj in E as [-> ->]; tauto.
  - intros [H|[-> [->|H]]]; tauto.
Qed.

Lemma has_remove_message k i x id m : u64 i → u64 id →
  has_message (remove_message k i x) id m = has_message k id m && negb ((i =? id) && bool_decide (x = m)).
Proof.
  intros Hi Hid. apply eq_true_iff_eq. rewrite andb_true_iff, negb_true_iff, andb_false_iff, Z.eqb_neq, bool_decide_eq_false.
  unfold has_message. cbn. rewrite !bool_decide_eq_true, lookup_delete_is_Some. split.
  - intros [Hne H]. split; [done|]. destruct (decide (i = id)) as [->|]; [right|by left]. intros ->. by apply Hne.
  - intros [H Hne]. split; [|done]. intros E. apply pair_key_inj in E as [-> ->]; [|done..]. tauto.
Qed.

Lemma zstep_pending w a w' id m : zstep w a w' → winv w → u64 id →
  Z.b2z (delivers id m a) + pending (w_k w') id m <= Z.b2z (grants id m a) + pending (w_k w) id m.
Proof.
  intros Hs Hw Hid. pose proof (zstep_effect _ _ _ Hs Hw) as [H _]. destruct Hw as [Hk _]. unfold pending.
  destruct a as [msg i|msg|msg|i x b|]; cbn [delivers grants].
  - destruct H as (_ & _ & ->). reflexivity.
  - destruct H as (ism & v & _ & E). replace (has_message (w_k w') id m) with (has_message (w_k w) id m); [lia|].
    rewrite E. by destruct (root_changed v).
  - destruct H as (ism & v & (Hi & Hv & _) & _ & ->). rewrite Hv.
    rewrite <- (kinv_lookup _ _ _ Hk (GetInternalId_u64 _) Hi).
    change (has_message (set_submission ?k ?j ?b) id m) with (has_message k id m).
    rewrite has_set_messages by auto with go.
    destruct (has_message (w_k w) id m), ((iid ism =? id) && _); cbn; lia.
  - destruct H as (ism & Hi & Eb & E). rewrite <- (kinv_lookup _ _ _ Hk (GetInternalId_u64 _) Hi), E.
    destruct b; [|cbn; lia]. rewrite has_remove_message by auto with go.
    destruct ((iid ism =? id) && bool_decide (message_Id x = m)) eqn:Hm; [|rewrite andb_true_r; cbn; lia].
    apply andb_prop in Hm as [<-%Z.eqb_eq <-%bool_decide_eq_true]. rewrite <- Eb. cbn. lia.
  - rewrite H. cbn. lia.
Qed.

Lemma zrun_pending w tr w' id m : zrun w tr w' → winv w → u64 id →
  count (delivers id m) tr + pending (w_k w') id m <= count (grants id m) tr + pending (w_k w) id m.
Proof.
  intros Hr Hw Hid. unfold count. induction Hr as [w|w a w1 tr w' Hs Hr IH]; cbn [map zsum foldr]; [lia|].
  specialize (IH (zstep_winv _ _ _ Hs Hw)). pose proof (zstep_pending _ _ _ id m Hs Hw Hid).
  fold (zsum (map (λ a, Z.b2z (delivers id m a)) tr)). fold (zsum (map (λ a, Z.b2z (grants id m a)) tr)).
  unfold zsum in *. lia.
Qed.

(** An accepted submission holds a proof of its messages under a root on the
    path of the ISM to its present state. *)
Lemma zrun_submission w tr w' msg : zrun w tr w' → winv w → ASubmit msg ∈ tr →
  ∃ ism v s, isms (w_k w') !! uint64_key (GetInternalId (sub_Id msg)) = Some ism ∧
    StateMembershipValues_Unmarshal (sub_PublicValues msg) = Ok v ∧
    proved ism (ism_StateMembershipVkey ism) (sub_Proof msg) (sub_PublicValues msg) ∧
    sm_MerkleTreeAddress v = ism_MerkleTreeAddress ism ∧
    sm_StateRoot v = take 32 s ∧ rtc (transition tr ism) s (ism_State ism).
Proof.
  intros Hr Hw (t1 & t2 & ->)%list_elem_of_split. apply zrun_app in Hr as (w1 & H1 & H2).
  apply zrun_winv in H1 as Hw1; [|done]. pose proof (zrun_cons_inv _ _ _ _ H2) as (w2 & Hs & _).
  pose proof (zstep_effect _ _ _ Hs Hw1) as [(ism & v & (Hi & Hv & Hroot & Hmt & _ & Hp) & _) _].
  destruct (zrun_evolves _ _ _ _ _ H2 Hw1 Hi) as (ism' & Hi' & E & R).
  exists ism', v, (ism_State ism). rewrite E. split_and!; try done; [by rewrite <- E|].
  cbn [ism_State with_state]. eapply (transitions_mono _ _ ism); [|exact R]. set_solver.
Qed.

(** ** One proof per state root *)

(** The accepted update [a] gives the ISM [id] another state root. *)
Definition changes_root (id : Z) (a : action) : bool :=
  match a with
  | AUpdate msg =>
      match StateTransitionValues_Unmarshal (up_PublicValues msg) with
      | Ok v => (GetInternalId (up_Id msg) =? id) && root_changed v
      | _ => false
      end
  | _ => false
  end.

Lemma zstep_submitted w a w' id : zstep w a w' → winv w → u64 id →
  submitted (w_k w) id = true → changes_root id a = false → submitted (w_k w') id = true.
Proof.
  intros Hs Hw Hid Ht Hc. pose proof (zstep_effect _ _ _ Hs Hw) as [H _]. destruct Hw as [Hk _]. unfold submitted in *.
  destruct a as [msg i|msg|msg|i x b|].
  - by destruct H as (_ & _ & ->).
  - destruct H as (ism & v & (Hi & Hv & _) & E). cbn in Hc. rewrite Hv in Hc.
    pose proof (kinv_lookup _ _ _ Hk (GetInternalId_u64 _) Hi) as Hii. rewrite <- Hii in Hc. rewrite E.
    destruct (root_changed v); [|done]. rewrite andb_true_r in Hc. apply Z.eqb_neq in Hc. cbn.
    rewrite lookup_insert_ne; [done|]. intros Ek%uint64_key_inj; auto with go.
  - destruct H as (ism & v & _ & _ & ->). cbn. rewrite set_messages_submissions.
    destruct (decide (uint64_key (iid ism) = uint64_key id)) as [->|Hne]; [by rewrite lookup_insert_eq|by rewrite lookup_insert_ne].
  - destruct H as (ism & _ & _ & ->). by destruct b.
  - by rewrite H.
Qed.

Lemma zrun_submitted w tr w' id : zrun w tr w' → winv w → u64 id →
  submitted (w_k w) id = true → Forall (λ a, changes_root id a = false) tr → submitted (w_k w') id = true.
Proof.
  intros Hr. induction Hr as [w|w a w1 tr w' Hs Hr IH]; intros Hw Hid Ht Hc; [done|].
  apply Forall_cons in Hc as [Ha Hc]. apply IH; eauto using zstep_winv, zstep_submitted.
Qed.

(** ** Importing a genesis state *)

Lemma validate_ism_Ok seen ism seen' : validate_ism seen ism = Ok seen' → ism_ok ism.
Proof. unfold validate_ism. intros H. inv_ok. destruct r1. by apply negb_true_iff in Hr. Qed.

Definition listed_ok (msgs : GenesisMessages) : Prop := Forall (λ s, ∀ m, DecodeHex s = Ok m → message_ok m) (gm_Messages msgs).

Lemma validate_messages_Ok known seen msgs seen' : validate_messages known seen msgs = Ok seen' → listed_ok msgs.
Proof.
  unfold validate_messages. intros H. inv_ok. destruct r2. apply each_Ok in Hr2.
  eapply Forall_impl; [exact Hr2|]. intros s Hs m Hm. unfold validate_message_id in Hs. rewrite Hm in Hs.
  cbn in Hs. inv_ok. split; [by apply Nat.eqb_eq|by eapply DecodeHex_bytes].
Qed.

Lemma genesis_valid gs : GenesisState_Validate gs = Ok tt → Forall ism_ok (gs_Isms gs) ∧ Forall listed_ok (gs_Messages gs).
Proof.
  unfold GenesisState_Validate. intros H. inv_ok. split.
  - eapply fold_res_Forall; [exact Hr|]. intros. by eapply validate_ism_Ok.
  - eapply fold_res_Forall; [exact Hr0|]. intros. by eapply validate_messages_Ok.
Qed.

Lemma has_ism_lookup k id : kinv k → u64 id → has_ism k id = true → ∃ ism, isms k !! uint64_key (iid ism) = Some ism ∧ iid ism = id.
Proof.
  intros Hk Hid H. apply bool_decide_eq_true in H as [ism Hi]. pose proof (kinv_lookup _ _ _ Hk Hid Hi) as E.
  exists ism. by rewrite E.
Qed.

Lemma kinv_import_messages k msgs k' : kinv k → listed_ok msgs → import_messages k msgs = Ok k' → kinv k'.
Proof.
  intros Hk Hl H. unfold import_messages in H. inv_ok.
  apply has_ism_lookup in Hr as (ism & Hi & E); [|done|auto with go]. rewrite <- E in H.
  apply (fold_res_invariant (λ k, kinv k ∧ isms k !! uint64_key (iid ism) = Some ism)) in H; [apply H|done|].
  intros k1 s k2 Hs [Hk1 Hi1] H1. unfold import_message in H1. inv_ok. subst k2. split; [|done].
  apply kinv_set_message; [done..|]. unfold listed_ok in Hl. rewrite Forall_forall in Hl. by eapply Hl.
Qed.

Lemma kinv_set_isms l k : kinv k → Forall ism_ok l → kinv (fold_left (λ k ism, set_ism k (iid ism) ism) l k).
Proof.
  intros Hk Hl. revert k Hk. induction Hl as [|ism l Hi _ IH]; intros k Hk; [done|]. apply IH. by apply kinv_set_ism.
Qed.

Lemma InitGenesis_kinv gs k : GenesisState_Validate gs = Ok tt → InitGenesis empty_keeper gs = Ok k → kinv k.
Proof.
  intros [Hi Hm]%genesis_valid H. unfold InitGenesis in H. inv_ok.
  assert (Hk1 : kinv r).
  { apply (fold_res_invariant kinv) in Hr; [done| |].
    - apply kinv_set_isms; [apply kinv_empty|done].
    - intros k1 m k2 Hin Hk1 E. eapply kinv_import_messages; [done| |done]. rewrite Forall_forall in Hm. by apply Hm. }
  apply (fold_res_invariant kinv) in H; [done|done|]. intros k1 e k2 _ Hk E. unfold import_submission in E. inv_ok. subst k2.
  apply kinv_set_submission; [done|]. by apply bool_decide_eq_true in Hr0.
Qed.

(** A chain starts from a valid genesis state, with a router that has handed out
    the ids of its ISMs. *)
Definition start (gs : GenesisState) (w : World) : Prop :=
  GenesisState_Validate gs = Ok tt ∧ InitGenesis empty_keeper gs = Ok (w_k w) ∧ below (w_k w) (w_router w).

Lemma start_winv gs w : start gs w → winv w.
Proof. intros (Hv & Hi & Hb). split; [by eapply InitGenesis_kinv|done]. Qed.

Lemma import_keeps_isms gs k : InitGenesis empty_keeper gs = Ok k →
  isms k = fold_left (λ m ism, <[uint64_key (iid ism) := ism]> m) (gs_Isms gs) ∅.
Proof.
  unfold InitGenesis. intros H. inv_ok.
  assert (E : ∀ l k, isms (fold_left (λ k ism, set_ism k (iid ism) ism) l k) =
    fold_left (λ m ism, <[uint64_key (iid ism) := ism]> m) l (isms k)).
  { induction l as [|ism l IH]; intros k0; [done|]. cbn. by rewrite IH. }
  rewrite <- (E _ empty_keeper).
  apply (fold_res_invariant (λ k', isms k' = isms (fold_left (λ k ism, set_ism k (iid ism) ism) (gs_Isms gs) empty_keeper))) in Hr; [|done|].
  - apply (fold_res_invariant (λ k', isms k' = isms r)) in H; [congruence|done|].
    intros k1 e k2 _ E1 E2. unfold import_submission in E2. inv_ok. by subst k2.
  - intros k1 m k2 _ E1 E2. unfold import_messages in E2. inv_ok.
    apply (fold_res_invariant (λ k', isms k' = isms k1)) in E2; [congruence|done|].
    intros k3 x k4 _ E3 E4. unfold import_message in E4. inv_ok. by subst k4.
Qed.

Lemma start_isms gs w key ism : start gs w → isms (w_k w) !! key = Some ism → ism ∈ gs_Isms gs.
Proof.
  intros (_ & Hi & _). rewrite (import_keeps_isms _ _ Hi).
  assert (G : ∀ l (m : gmap bytes InterchainSecurityModule), fold_left (λ m ism, <[uint64_key (iid ism) := ism]> m) l m !! key = Some ism → ism ∈ l ∨ m !! key = Some ism).
  { induction l as [|x l IH]; intros m Hl; [by right|]. apply IH in Hl as [Hl|Hl]; [left; by right|].
    apply lookup_insert_Some in Hl as [[_ <-]|[_ Hl]]; [left; by left|by right]. }
  intros [?|E]%G; [done|]. by rewrite lookup_empty in E.
Qed.

(** ** Exporting the store *)

Abbreviation all_isms k := ((sorted_entries (isms k)).*2).
Abbreviation page k ism := (prefix_iter (uint64_key (iid ism)) (messages k)).

Lemma all_isms_keys k : kinv k → map (λ ism, uint64_key (iid ism)) (all_isms k) = (sorted_entries (isms k)).*1.
Proof.
  intros Hk. rewrite <- list_fmap_compose. apply list_fmap_ext. intros i [key ism] Hi. cbn.
  apply list_elem_of_lookup_2, elem_of_sorted_entries in Hi. by apply (kinv_ism k Hk) in Hi as [-> _].
Qed.

Lemma elem_of_all_isms k ism : kinv k → ism ∈ all_isms k ↔ isms k !! uint64_key (iid ism) = Some ism.
Proof.
  intros Hk. rewrite list_elem_of_fmap. split.
  - intros ([key i] & -> & Hin). cbn. apply elem_of_sorted_entries in Hin.
    pose proof (kinv_ism k Hk _ _ Hin) as [E _]. by rewrite <- E.
  - intros H. exists (uint64_key (iid ism), ism). split; [done|]. by apply elem_of_sorted_entries.
Qed.

Lemma NoDup_iids k : kinv k → NoDup (map (λ ism, iid ism) (all_isms k)).
Proof.
  intros Hk. apply (NoDup_fmap_1 uint64_key). rewrite <- list_fmap_compose.
  change (NoDup (map (λ ism, uint64_key (iid ism)) (all_isms k))). rewrite all_isms_keys by done.
  apply NoDup_fst_sorted_entries.
Qed.

Lemma elem_of_page k ism m : kinv k → isms k !! uint64_key (iid ism) = Some ism →
  m ∈ map (λ kv, pair_K2 kv.1) (page k ism) ↔ messages k !! pair_key (iid ism) m = Some tt.
Proof.
  intros Hk Hi. rewrite list_elem_of_fmap. split.
  - intros ([key []] & -> & Hin). apply elem_of_prefix_iter in Hin as [Hl Hp]. cbn.
    destruct (kinv_message k Hk key) as (i & m & _ & -> & _); [eauto|].
    apply prefix_pair_key in Hp as E; [|auto with go..]. by rewrite pair_K2_key, E.
  - intros Hl. exists (pair_key (iid ism) m, tt). cbn. rewrite pair_K2_key. split; [done|].
    apply elem_of_prefix_iter. split; [done|by apply prefix_app_r].
Qed.

(** The entry of [ism] in an export. *)
Definition exported (k : Keeper) (ism : InterchainSecurityModule) : option GenesisMessages :=
  match map (λ kv, EncodeHex (pair_K2 kv.1)) (page k ism) with
  | [] => None
  | msgs => Some (mkGenesisMessages (ism_Id ism) (merge_sort bytes_le msgs))
  end.

Definition one_page (k : Keeper) : Prop := ∀ ism, ism ∈ all_isms k → (length (page k ism) <= DefaultLimit)%nat.

Lemma export_messages_Ok k ism : (length (page k ism) <= DefaultLimit)%nat → export_messages k ism = Ok (exported k ism).
Proof.
  intros Hl. unfold export_messages. destruct (paginate_nil (page k ism)) as [pr E]. rewrite E. cbn [mbind result_bind].
  rewrite take_ge by done. unfold exported. cbv zeta. by destruct (map _ (page k ism)).
Qed.

Lemma collect_messages_Ok k l acc : (∀ ism, ism ∈ l → (length (page k ism) <= DefaultLimit)%nat) →
  fold_res (collect_messages k) l acc = Ok (acc ++ omap (exported k) l).
Proof.
  revert acc. induction l as [|ism l IH]; intros acc Hl; cbn [fold_res omap list_omap]; [by rewrite app_nil_r|].
  assert (collect_messages k acc ism = Ok (acc ++ option_list (exported k ism))) as ->
    by (unfold collect_messages; by rewrite export_messages_Ok by (apply Hl; left)).
  cbn [mbind result_bind].
  rewrite IH by (intros; apply Hl; by right). rewrite <- app_assoc. by destruct (exported k ism).
Qed.

(** What an entry of the export lists. *)
Lemma exported_Some k ism gm : kinv k → ism ∈ all_isms k → exported k ism = Some gm →
  gm_Id gm = ism_Id ism ∧ ∃ ms, gm_Messages gm = map EncodeHex ms ∧ ∀ m, m ∈ ms ↔ messages k !! pair_key (iid ism) m = Some tt.
Proof.
  intros Hk Hin H. apply elem_of_all_isms in Hin; [|done]. unfold exported in H.
  assert (E : gm = mkGenesisMessages (ism_Id ism) (merge_sort bytes_le (map (λ kv, EncodeHex (pair_K2 kv.1)) (page k ism))))
    by (destruct (map _ (page k ism)); congruence). subst gm. split; [done|]. cbn.
  assert (P : merge_sort bytes_le (map (λ kv, EncodeHex (pair_K2 kv.1)) (page k ism)) ≡ₚ
    map EncodeHex (map (λ kv, pair_K2 kv.1) (page k ism))) by (rewrite merge_sort_Permutation, map_map; done).
  apply Permutation_map_inv in P as (ms & Ems & P). exists ms. split; [done|].
  intros m. rewrite <- P. by apply elem_of_page.
Qed.

Lemma exported_None k ism m : kinv k → ism ∈ all_isms k → exported k ism = None → messages k !! pair_key (iid ism) m = Some tt → False.
Proof.
  intros Hk Hin H Hm. apply elem_of_all_isms in Hin; [|done]. apply elem_of_page in Hm; [|done..].
  unfold exported in H. destruct (page k ism); [by apply elem_of_nil in Hm|done].
Qed.

Lemma elem_of_exports k gm : gm ∈ omap (exported k) (all_isms k) ↔ ∃ ism, ism ∈ all_isms k ∧ exported k ism = Some gm.
Proof. apply list_elem_of_omap. Qed.

Lemma NoDup_exports k : kinv k → NoDup (map (λ gm, GetInternalId (gm_Id gm)) (omap (exported k) (all_isms k))).
Proof.
  intros Hk. pose proof (NoDup_iids k Hk) as Hn. pose proof (λ ism, exported_Some k ism) as Hx.
  assert (Hsub : ∀ ism, ism ∈ all_isms k → ism ∈ all_isms k) by done. revert Hn Hsub.
  generalize (all_isms k) at 1 2 4. intros l. induction l as [|ism l IH]; intros Hn Hsub; [constructor|].
  apply NoDup_cons in Hn as [Hi Hn]. specialize (IH Hn ltac:(intros; apply Hsub; by right)).
  cbn [omap list_omap]. destruct (exported k ism) as [gm|] eqn:E; [|done]. cbn [map]. apply NoDup_cons. split; [|done].
  pose proof (Hx _ _ Hk (Hsub ism ltac:(left)) E) as [Eid _]. rewrite Eid.
  intros (gm' & Egm & (i & Hil & Ei)%list_elem_of_omap)%list_elem_of_fmap. apply Hi.
  pose proof (Hx _ _ Hk (Hsub i ltac:(by right)) Ei) as [Eid' _]. rewrite Egm, Eid'. by apply (list_elem_of_fmap_2 (λ ism, iid ism)).
Qed.

(** The entry of a submission flag. *)
Definition flag_of (k : Keeper) (kv : bytes * bool) : GenesisProofSubmission :=
  mkGenesisProofSubmission (match isms k !! kv.1 with Some ism => ism_Id ism | None => [] end) kv.2.

Lemma flag_key k key b : kinv k → submissions k !! key = Some b →
  ∃ ism, isms k !! key = Some ism ∧ key = uint64_key (iid ism) ∧ flag_of k (key, b) = mkGenesisProofSubmission (ism_Id ism) b.
Proof.
  intros Hk H. destruct (kinv_submission k Hk key) as [ism Hi]; [eauto|]. exists ism. split; [done|].
  split; [by apply (kinv_ism k Hk) in Hi as [? _]|]. unfold flag_of. cbn. by rewrite Hi.
Qed.

Lemma ismByID_lookup l id (m : gmap Z bytes) : NoDup (map (λ ism, iid ism) l) → ∀ ism, ism ∈ l → iid ism = id →
  fold_left (λ m ism, <[iid ism := ism_Id ism]> m) l m !! id = Some (ism_Id ism).
Proof.
  assert (G : ∀ l (m : gmap Z bytes), id ∉ map (λ ism, iid ism) l →
    fold_left (λ m ism, <[iid ism := ism_Id ism]> m) l m !! id = m !! id).
  { induction l0 as [|x l0 IH]; intros m0 Hn; [done|]. apply not_elem_of_cons in Hn as [Hx Hn]. cbn.
    rewrite IH by done. by rewrite lookup_insert_ne. }
  revert m. induction l as [|x l IH]; intros m Hn ism Hin Hid; [by apply elem_of_nil in Hin|].
  apply NoDup_cons in Hn as [Hx Hn]. cbn. apply elem_of_cons in Hin as [->|Hin]; [|by apply IH].
  rewrite G by (rewrite <- Hid; exact Hx). rewrite Hid. by rewrite lookup_insert_eq.
Qed.

Lemma export_submissions_Ok k l acc : kinv k → (∀ kv, kv ∈ l → submissions k !! kv.1 = Some kv.2) →
  fold_res (export_submission (fold_left (λ m ism, <[iid ism := ism_Id ism]> m) (all_isms k) ∅)) l acc = Ok (acc ++ map (flag_of k) l).
Proof.
  intros Hk. revert acc. induction l as [|[key b] l IH]; intros acc Hl; cbn [fold_res map]; [by rewrite app_nil_r|].
  destruct (flag_key k key b Hk (Hl (key, b) ltac:(left))) as (ism & Hi & Ek & Ef).
  match goal with |- export_submission ?m _ _ ≫= _ = _ =>
    assert (export_submission m acc (key, b) = Ok (acc ++ [flag_of k (key, b)])) as -> end.
  { unfold export_submission. cbn [fst snd]. rewrite Ef, Ek. unfold uint64_key. rewrite be_decode_bytes by apply iid_u64.
    rewrite (ismByID_lookup _ _ _ (NoDup_iids k Hk) ism); [done| |done]. apply elem_of_all_isms; [done|by rewrite <- Ek]. }
  cbn [mbind result_bind]. rewrite IH by (intros; apply Hl; by right). by rewrite <- app_assoc.
Qed.

(** The state that is exported. *)
Definition export_of (k : Keeper) : GenesisState :=
  mkGenesisState (all_isms k) (merge_sort gm_le (omap (exported k) (all_isms k)))
    (merge_sort gp_le (map (flag_of k) (sorted_entries (submissions k)))).

Lemma ExportGenesis_Ok k : kinv k → one_page k → ExportGenesis k = Ok (export_of k).
Proof.
  intros Hk Hp. unfold ExportGenesis. rewrite collect_messages_Ok by done. cbn [mbind result_bind].
  rewrite export_submissions_Ok; [done|done|]. intros [key b] Hin. by apply elem_of_sorted_entries.
Qed.

Lemma kinv_message_ok k ism m : kinv k → messages k !! pair_key (iid ism) m = Some tt → message_ok m.
Proof.
  intros Hk H. destruct (kinv_message k Hk (pair_key (iid ism) m)) as (i & m' & _ & E & Hm); [eauto|].
  by apply pair_key_inj in E as [_ ->]; [|auto with go..].
Qed.

Lemma elem_of_exports_ok k gm : kinv k → gm ∈ omap (exported k) (all_isms k) →
  ∃ ism ms, ism ∈ all_isms k ∧ gm_Id gm = ism_Id ism ∧ gm_Messages gm = map EncodeHex ms ∧
    ∀ m, m ∈ ms ↔ messages k !! pair_key (iid ism) m = Some tt.
Proof.
  intros Hk (ism & Hin & E)%elem_of_exports. apply exported_Some in E as (Eid & ms & Ems & Hms); [|done..].
  by exists ism, ms.
Qed.

Lemma all_isms_ok k ism : kinv k → ism ∈ all_isms k → ism_ok ism.
Proof. intros Hk Hin. apply elem_of_all_isms in Hin; [|done]. by apply (kinv_ism k Hk) in Hin as [_ ?]. Qed.

Lemma validate_ism_total seen ism : ism_ok ism → iid ism ∉ seen → validate_ism seen ism = Ok (seen ∪ {[ iid ism ]}).
Proof.
  intros [Hz Hc] Hs. unfold validate_ism. rewrite Hz, Hc, bool_decide_false by done. done.
Qed.

Lemma validate_messages_total k known seen gm : kinv k → gm ∈ omap (exported k) (all_isms k) →
  (∀ ism, ism ∈ all_isms k → iid ism ∈ known) → GetInternalId (gm_Id gm) ∉ seen →
  validate_messages known seen gm = Ok (seen ∪ {[ GetInternalId (gm_Id gm) ]}).
Proof.
  intros Hk Hin Hkn Hs. destruct (elem_of_exports_ok k gm Hk Hin) as (ism & ms & Hi & Eid & Ems & Hms).
  unfold validate_messages. rewrite Eid in *. pose proof (all_isms_ok k ism Hk Hi) as [Hz _]. rewrite Hz.
  rewrite (bool_decide_true (_ ∈ known)), (bool_decide_false (_ ∈ seen)) by auto. cbn [negb ensure mbind result_bind].
  assert (each validate_message_id (gm_Messages gm) = Ok tt) as ->; [|done].
  apply each_Ok. rewrite Ems. apply Forall_fmap, Forall_forall. intros m Hm. apply Hms in Hm.
  apply kinv_message_ok in Hm as [Hl Hb]; [|done]. change (validate_message_id (EncodeHex m) = Ok tt).
  unfold validate_message_id. rewrite DecodeHex_EncodeHex by done.
  cbn. by rewrite Hl.
Qed.

Lemma elem_of_flags k gp : kinv k → gp ∈ map (flag_of k) (sorted_entries (submissions k)) →
  ∃ ism, ism ∈ all_isms k ∧ gp_Id gp = ism_Id ism ∧ submissions k !! uint64_key (iid ism) = Some (gp_Submitted gp).
Proof.
  intros Hk ([key b] & -> & Hin)%list_elem_of_fmap. apply elem_of_sorted_entries in Hin.
  destruct (flag_key k key b Hk Hin) as (ism & Hi & Ek & Ef). exists ism. rewrite Ef. cbn. rewrite <- Ek.
  split_and!; [|done..]. apply elem_of_all_isms; [done|by rewrite <- Ek].
Qed.

Lemma flags_keys k : kinv k →
  map (λ gp, uint64_key (GetInternalId (gp_Id gp))) (map (flag_of k) (sorted_entries (submissions k))) = (sorted_entries (submissions k)).*1.
Proof.
  intros Hk. rewrite map_map. apply list_fmap_ext. intros i [key b] Hi. cbn.
  apply list_elem_of_lookup_2, elem_of_sorted_entries in Hi. destruct (flag_key k key b Hk Hi) as (ism & Hl & Ek & Ef).
  by rewrite Hl.
Qed.

Lemma validate_submission_total k known seen gp : kinv k → gp ∈ map (flag_of k) (sorted_entries (submissions k)) →
  (∀ ism, ism ∈ all_isms k → iid ism ∈ known) → GetInternalId (gp_Id gp) ∉ seen →
  validate_submission known seen gp = Ok (seen ∪ {[ GetInternalId (gp_Id gp) ]}).
Proof.
  intros Hk Hin Hkn Hs. destruct (elem_of_flags k gp Hk Hin) as (ism & Hi & Eid & _).
  unfold validate_submission. rewrite Eid in *. pose proof (all_isms_ok k ism Hk Hi) as [Hz _]. rewrite Hz.
  by rewrite (bool_decide_true (_ ∈ known)), (bool_decide_false (_ ∈ seen)) by auto.
Qed.

Lemma export_validates k : kinv k → GenesisState_Validate (export_of k) = Ok tt.
Proof.
  intros Hk. unfold GenesisState_Validate. cbn [gs_Isms gs_Messages gs_Submissions export_of].
  destruct (fold_seen (λ ism, iid ism) validate_ism (all_isms k)) with (seen := ∅ : gset Z) as (known & -> & Hkn).
  { intros seen ism Hin Hs. apply validate_ism_total; [by eapply all_isms_ok|done]. }
  { by apply NoDup_iids. }
  { intros ism _. apply not_elem_of_empty. }
  assert (Hkn' : ∀ ism, ism ∈ all_isms k → iid ism ∈ known).
  { intros ism Hin. apply Hkn, elem_of_union_r, elem_of_list_to_set. by apply (list_elem_of_fmap_2 (λ ism, iid ism)). }
  cbn [mbind result_bind].
  destruct (fold_seen (λ gm, GetInternalId (gm_Id gm)) (validate_messages known) (merge_sort gm_le (omap (exported k) (all_isms k))))
    with (seen := ∅ : gset Z) as (s1 & -> & _).
  { intros seen gm Hin Hs. rewrite merge_sort_Permutation in Hin. by eapply validate_messages_total. }
  { rewrite merge_sort_Permutation. by apply NoDup_exports. }
  { intros gm _. apply not_elem_of_empty. }
  cbn [mbind result_bind].
  destruct (fold_seen (λ gp, GetInternalId (gp_Id gp)) (validate_submission known) (merge_sort gp_le (map (flag_of k) (sorted_entries (submissions k)))))
    with (seen := ∅ : gset Z) as (s2 & -> & _); [..|done].
  { intros seen gp Hin Hs. rewrite merge_sort_Permutation in Hin. by eapply validate_submission_total. }
  { rewrite merge_sort_Permutation. apply (NoDup_fmap_1 uint64_key). rewrite <- list_fmap_compose.
    change (NoDup (map (λ gp, uint64_key (GetInternalId (gp_Id gp))) (map (flag_of k) (sorted_entries (submissions k))))).
    rewrite flags_keys by done. apply NoDup_fst_sorted_entries. }
  { intros gp _. apply not_elem_of_empty. }
Qed.

(** Importing lists of messages that were encoded by an export. *)
Lemma set_messages_lookup k id ms key :
  messages (fold_left (λ k m, set_message k id m) ms k) !! key = Some tt ↔
  messages k !! key = Some tt ∨ ∃ m, m ∈ ms ∧ key = pair_key id m.
Proof.
  revert k. induction ms as [|x ms IH]; intros k; cbn [fold_left].
  { split; [by left|]. intros [?|(m & Hm & _)]; [done|by apply elem_of_nil in Hm]. }
  rewrite IH. cbn. rewrite lookup_insert_Some. setoid_rewrite elem_of_cons. split.
  - intros [[[<- _]|[_ H]]|(m & Hm & ->)]; [right; eauto|by left|right; eauto].
  - intros [H|(m & [->|Hm] & ->)]; [|by left; left|right; eauto].
    left. destruct (decide (pair_key id x = key)); [by left|by right].
Qed.

Lemma import_encoded k id ms : Forall (Forall byte_ok) ms →
  fold_res (import_message id) (map EncodeHex ms) k = Ok (fold_left (λ k m, set_message k id m) ms k).
Proof.
  intros Hms. revert k. induction Hms as [|m ms Hm _ IH]; intros k; [done|]. cbn [map fold_res fold_left].
  assert (import_message id k (EncodeHex m) = Ok (set_message k id m)) as ->
    by (unfold import_message; by rewrite DecodeHex_EncodeHex).
  apply IH.
Qed.

Lemma import_all_messages k L k0 : kinv k → (∀ gm, gm ∈ L → gm ∈ omap (exported k) (all_isms k)) → isms k0 = isms k →
  ∃ k', fold_res import_messages L k0 = Ok k' ∧ isms k' = isms k ∧ submissions k' = submissions k0 ∧
    ∀ key, messages k' !! key = Some tt ↔ messages k0 !! key = Some tt ∨
      ∃ gm m, gm ∈ L ∧ key = pair_key (GetInternalId (gm_Id gm)) m ∧ messages k !! key = Some tt.
Proof.
  intros Hk. revert k0. induction L as [|gm L IH]; intros k0 Hin Hk0; cbn [fold_res].
  { exists k0. split_and!; [done..|]. intros key. split; [by left|]. intros [?|(gm & m & Hgm & _)]; [done|by apply elem_of_nil in Hgm]. }
  destruct (elem_of_exports_ok k gm Hk (Hin gm ltac:(left))) as (ism & ms & Hi & Eid & Ems & Hms).
  assert (import_messages k0 gm = Ok (fold_left (λ k m, set_message k (iid ism) m) ms k0)) as ->.
  { unfold import_messages. rewrite Eid, Ems. apply elem_of_all_isms in Hi; [|done].
    unfold has_ism. rewrite bool_decide_true by (rewrite Hk0; eauto). cbn [ensure mbind result_bind].
    apply import_encoded, Forall_forall. intros m Hm%Hms. by apply kinv_message_ok in Hm as [_ ?]. }
  cbn [mbind result_bind].
  destruct (IH (fold_left (λ k m, set_message k (iid ism) m) ms k0)) as (k' & -> & Hi' & Hs' & Hm').
  { intros; apply Hin; by right. } { by rewrite set_messages_isms. }
  exists k'. split_and!; [done..|by rewrite Hs', set_messages_submissions|].
  intros key. rewrite Hm', set_messages_lookup. setoid_rewrite elem_of_cons. split.
  - intros [[H|(m & Hm & ->)]|(g & m & Hg & -> & H)]; [by left| |right; exists g, m; eauto].
    right. exists gm, m. rewrite Eid. split_and!; [by left|done|by apply Hms].
  - intros [H|(g & m & [->|Hg] & -> & H)]; [by left; left| |right; exists g, m; done].
    left. right. exists m. rewrite Eid in *. split; [by apply Hms|done].
Qed.

Lemma import_all_flags L k0 : (∀ gp, gp ∈ L → has_ism k0 (GetInternalId (gp_Id gp)) = true) →
  fold_res import_submission L k0 = Ok (mkKeeper (isms k0) (messages k0)
    (fold_left (λ m gp, <[uint64_key (GetInternalId (gp_Id gp)) := gp_Submitted gp]> m) L (submissions k0))).
Proof.
  revert k0. induction L as [|gp L IH]; intros k0 Hin; cbn [fold_res fold_left]; [by destruct k0|].
  assert (import_submission k0 gp = Ok (set_submission k0 (GetInternalId (gp_Id gp)) (gp_Submitted gp))) as ->
    by (unfold import_submission; by rewrite (Hin gp) by left).
  cbn [mbind result_bind]. rewrite IH; [done|]. intros g Hg. apply (Hin g). by right.
Qed.

Lemma import_all_isms l k0 : fold_left (λ k ism, set_ism k (iid ism) ism) l k0 =
  mkKeeper (fold_left (λ m ism, <[uint64_key (iid ism) := ism]> m) l (isms k0)) (messages k0) (submissions k0).
Proof. revert k0. induction l as [|ism l IH]; intros k0; [by destruct k0|]. cbn. by rewrite IH. Qed.

Lemma reimported_isms k : kinv k → fold_left (λ m ism, <[uint64_key (iid ism) := ism]> m) (all_isms k) ∅ = isms k.
Proof.
  intros Hk. apply map_eq. intros key. apply option_eq. intros ism.
  rewrite (fold_insert_lookup (λ ism, uint64_key (iid ism)) (λ ism, ism)).
  2: { rewrite all_isms_keys by done. apply NoDup_fst_sorted_entries. }
  rewrite lookup_empty. split.
  - intros [(a & Hin & <- & <-)|[? _]]; [by apply elem_of_all_isms|done].
  - intros Hi. left. exists ism. pose proof (kinv_ism k Hk _ _ Hi) as [-> _]. split_and!; [by apply elem_of_all_isms|done..].
Qed.

Lemma reimported_flags k : kinv k →
  fold_left (λ m gp, <[uint64_key (GetInternalId (gp_Id gp)) := gp_Submitted gp]> m)
    (merge_sort gp_le (map (flag_of k) (sorted_entries (submissions k)))) ∅ = submissions k.
Proof.
  intros Hk. apply map_eq. intros key. apply option_eq. intros b.
  rewrite (fold_insert_lookup (λ gp, uint64_key (GetInternalId (gp_Id gp))) gp_Submitted).
  2: { rewrite merge_sort_Permutation, flags_keys by done. apply NoDup_fst_sorted_entries. }
  rewrite lookup_empty. setoid_rewrite (merge_sort_Permutation gp_le). split.
  - intros [(gp & Hin & <- & <-)|[? _]]; [|done]. by apply elem_of_flags in Hin as (ism & _ & -> & ?).
  - intros H. left. exists (flag_of k (key, b)). destruct (flag_key k key b Hk H) as (ism & _ & -> & Ef).
    split_and!; [|by rewrite Ef..]. apply (list_elem_of_fmap_2 (flag_of k)). by apply elem_of_sorted_entries.
Qed.

Lemma import_export k : kinv k → InitGenesis empty_keeper (export_of k) = Ok k.
Proof.
  intros Hk. unfold InitGenesis. cbn [gs_Isms gs_Messages gs_Submissions export_of].
  rewrite import_all_isms. cbn [isms messages submissions empty_keeper]. rewrite reimported_isms by done.
  destruct (import_all_messages k (merge_sort gm_le (omap (exported k) (all_isms k))) (mkKeeper (isms k) ∅ ∅) Hk)
    as (k1 & -> & Hi & Hs & Hm); [intros gm; by rewrite merge_sort_Permutation|done|].
  cbn [mbind result_bind]. rewrite import_all_flags.
  2: { intros gp Hin. rewrite merge_sort_Permutation in Hin. apply elem_of_flags in Hin as (ism & Hin & -> & _); [|done].
       apply elem_of_all_isms in Hin; [|done]. apply bool_decide_eq_true. rewrite Hi. eauto. }
  rewrite Hi, Hs. cbn [submissions]. rewrite reimported_flags by done.
  assert (messages k1 = messages k) as ->; [|by destruct k].
  apply map_eq. intros key. apply option_eq. intros []. rewrite Hm. cbn. rewrite lookup_empty. split.
  - intros [?|(gm & m & _ & _ & H)]; done.
  - intros H. right. destruct (kinv_message k Hk key) as (ism & m & Hl & -> & _); [eauto|].
    apply elem_of_all_isms in Hl; [|done]. destruct (exported k ism) as [gm|] eqn:E; [|by edestruct exported_None].
    pose proof (exported_Some _ _ _ Hk Hl E) as [Eid _]. exists gm, m. rewrite Eid.
    split_and!; [|done..]. rewrite merge_sort_Permutation. apply elem_of_exports. eauto.
Qed.

(** ** Panics *)

Section Panics.
Context `{GNL : !GnarkLaws}.

Lemma no_panic_wrap_error {A} e (r : result A) : no_panic r → no_panic (wrap_error e r).
Proof. intros H p. destruct r; cbn; [done..|]. intros [= ->]. by eapply H. Qed.

Lemma ReadFull_no_panic n b : no_panic (ReadFull n b).
Proof. unfold ReadFull. case_match; auto with panics. Qed.

#[local] Hint Resolve no_panic_wrap_error ReadFull_no_panic vk_ReadFrom_safe Decode_G1_safe Decode_G2_safe
  witness_New_safe witness_Fill_safe witness_Public_safe groth16_Verify_safe : panics.

Ltac no_panics := no_panic; try (match goal with |- no_panic (let '(_, _) := ?p in _) => destruct p end; no_panics).

Lemma no_panic_read_ids n : ∀ b, no_panic (read_ids n b).
Proof. induction n as [|n IH]; intros b; cbn [read_ids]; no_panics. Qed.

Lemma no_panic_transition_values b : no_panic (StateTransitionValues_Unmarshal b).
Proof. unfold StateTransitionValues_Unmarshal, read_state, read_u64. no_panics. Qed.

Lemma no_panic_membership_values b : no_panic (StateMembershipValues_Unmarshal b).
Proof. unfold StateMembershipValues_Unmarshal, read_u64. no_panics. apply no_panic_read_ids. Qed.

Lemma no_panic_key b : no_panic (NewVerifyingKey b).
Proof. unfold NewVerifyingKey. no_panics. Qed.
#[local] Hint Resolve no_panic_key : panics.

Lemma no_panic_verifier b : no_panic (NewSP1Groth16Verifier b).
Proof. unfold NewSP1Groth16Verifier. no_panics. Qed.

Lemma no_panic_verify v p k b : no_panic (VerifyProof v p k b).
Proof. unfold VerifyProof, UnmarshalProof, NewPublicWitness. no_panics. Qed.

Lemma no_panic_state_root s : state_ok s → no_panic (state_root s).
Proof.
  unfold state_ok, MinStateBytes, lenZ, state_root. intros H. rewrite (proj2 (Nat.ltb_ge _ _)) by lia. auto with panics.
Qed.

Lemma no_panic_EmitTypedEvent w e : no_panic (EmitTypedEvent w e).
Proof. unfold EmitTypedEvent. case_match; auto with panics. Qed.

Lemma no_panic_charge w : no_panic (ConsumeGas (w_gas w) DefaultProofVerifyCostGroth16) → no_panic (charge_proof w).
Proof. intros H. unfold charge_proof. no_panics. Qed.

#[local] Hint Resolve no_panic_transition_values no_panic_membership_values no_panic_verifier no_panic_verify
  no_panic_EmitTypedEvent no_panic_charge : panics.

Lemma no_panic_get_ism k id : no_panic (get_ism k id).
Proof. unfold get_ism. no_panics. Qed.

Lemma get_ism_state k id ism : kinv k → wrap_error "ErrIsmNotFound" (get_ism k id) = Ok ism → state_ok (ism_State ism).
Proof.
  intros Hk H. apply wrap_error_Ok, of_option_Ok in H. apply (kinv_ism k Hk) in H as [_ H]. by apply ism_ok_state.
Qed.

Lemma no_panic_update w msg : winv w → no_panic (ConsumeGas (w_gas w) DefaultProofVerifyCostGroth16) →
  no_panic (UpdateInterchainSecurityModule w msg).
Proof.
  intros [Hk _] Hg. unfold UpdateInterchainSecurityModule, EmitUpdateISMEvent.
  apply no_panic_bind; [apply no_panic_wrap_error, no_panic_get_ism|]. intros ism Hi. apply get_ism_state in Hi; [|done].
  apply no_panic_bind; [auto with panics|]. intros v Hv. apply wrap_error_Ok, transition_values_ok in Hv as [_ Hv].
  no_panics; by apply no_panic_state_root.
Qed.

Lemma no_panic_submit w msg : winv w → no_panic (ConsumeGas (w_gas w) DefaultProofVerifyCostGroth16) →
  no_panic (SubmitMessages w msg).
Proof.
  intros [Hk _] Hg. unfold SubmitMessages, EmitSubmitMessagesEvent.
  apply no_panic_bind; [apply no_panic_wrap_error, no_panic_get_ism|]. intros ism Hi. apply get_ism_state in Hi; [|done].
  no_panics; by apply no_panic_state_root.
Qed.
End Panics.

(** A page of messages holds at most a hundred of them. *)
Lemma query_Messages_bounded k req l pr :
  (∀ Id p, req = Some (Id, Some p) → u64 (pg_Limit p)) → query_Messages k req = Ok (l, pr) →
  Z.of_nat (length l) <= MaxPaginationLimit.
Proof.
  intros Hu H. unfold query_Messages in H. inv_ok. destruct r as [Id pg]. inv_ok. destruct r0 as [es pr']. inv_ok.
  injection H as <- <-. rewrite length_map. apply wrap_error_Ok in Hr1. subst req.
  assert (Hc : 0 < pg_Limit (cap_pagination pg) <= MaxPaginationLimit).
  { unfold cap_pagination, MaxPaginationLimit. destruct pg as [p|]; cbn; [|lia].
    destruct (Hu Id p eq_refl). destruct (Z.eqb_spec (pg_Limit p) 0), (Z.ltb_spec 100 (pg_Limit p)); cbn; lia. }
  apply paginate_limit in Hr1 as [Hr1 _]; lia.
Qed.

(** ** The claims *)

(** C27: The trusted state of every ISM has between 32 and 2048 bytes and was
    reached, from the state the ISM had in genesis or was created with, by the
    transitions of accepted updates, each with a proof that the ISM's own
    verifier accepts for its transition program; nothing else of an ISM ever
    changes. *)
Theorem trusted_states_proved gs w0 tr w key ism :
  start gs w0 → zrun w0 tr w → isms (w_k w) !! key = Some ism →
  key = uint64_key (GetInternalId (ism_Id ism)) ∧ state_ok (ism_State ism) ∧
  ∃ ism0, evolves tr ism0 ism ∧
    (ism0 ∈ gs_Isms gs ∨ ∃ msg id, ACreate msg id ∈ tr ∧ ism0 = new_ism msg id).
Proof.
  intros Hs Hr Hi. pose proof (start_winv _ _ Hs) as Hw. pose proof (zrun_winv _ _ _ Hr Hw) as [Hk _].
  pose proof (kinv_ism _ Hk _ _ Hi) as [Ek Hok]. split_and!; [done|by apply ism_ok_state|].
  destruct (zrun_origin _ _ _ _ _ Hr Hw Hi) as (ism0 & He & [H0|H0]); exists ism0; split; try done; [left|by right].
  by eapply start_isms.
Qed.

(** C28: In every execution, an ISM tells the mailbox to deliver a message at most
    as often as accepted submissions authorized it (plus once when genesis did),
    and an authorization that is still pending is not among those used; every
    accepted submission carries a proof that the ISM's verifier accepts for its
    membership program, of the message ids under the ISM's Merkle tree and the
    root of a state from which proved transitions lead to the present one. *)
Theorem deliveries_authorized_once gs w0 tr w id m :
  start gs w0 → zrun w0 tr w → u64 id →
  count (delivers id m) tr + pending (w_k w) id m <= count (grants id m) tr + pending (w_k w0) id m ∧
  ∀ msg, ASubmit msg ∈ tr → ∃ ism v s,
    isms (w_k w) !! uint64_key (GetInternalId (sub_Id msg)) = Some ism ∧
    StateMembershipValues_Unmarshal (sub_PublicValues msg) = Ok v ∧
    proved ism (ism_StateMembershipVkey ism) (sub_Proof msg) (sub_PublicValues msg) ∧
    sm_MerkleTreeAddress v = ism_MerkleTreeAddress ism ∧
    sm_StateRoot v = take 32 s ∧ rtc (transition tr ism) s (ism_State ism).
Proof.
  intros Hs Hr Hid. pose proof (start_winv _ _ Hs) as Hw. split; [by apply zrun_pending|].
  intros msg Hin. by eapply zrun_submission.
Qed.

(** C29: Between two accepted submissions for one ISM lies an accepted update of
    that ISM to a state with another root. *)
Theorem one_submission_per_root gs w0 t1 m1 t2 m2 t3 w :
  start gs w0 → zrun w0 (t1 ++ ASubmit m1 :: t2 ++ ASubmit m2 :: t3) w →
  GetInternalId (sub_Id m1) = GetInternalId (sub_Id m2) →
  ∃ a, a ∈ t2 ∧ changes_root (GetInternalId (sub_Id m1)) a = true.
Proof.
  intros Hs Hr Hid. pose proof (start_winv _ _ Hs) as Hw0.
  apply zrun_app in Hr as (w1 & H1 & (w2 & H2 & H3)%zrun_cons_inv).
  apply zrun_app in H3 as (w3 & H3 & (w4 & H4 & _)%zrun_cons_inv).
  pose proof (zrun_winv _ _ _ H1 Hw0) as Hw1. pose proof (zstep_winv _ _ _ H2 Hw1) as Hw2. pose proof (zrun_winv _ _ _ H3 Hw2) as Hw3.
  destruct (zstep_effect _ _ _ H2 Hw1) as [(i1 & v1 & (Hi1 & _) & _ & E1) _].
  destruct (zstep_effect _ _ _ H4 Hw3) as [(i2 & v2 & (Hi2 & _ & _ & _ & Hsub & _) & _) _].
  apply kinv_lookup in Hi1; [|apply Hw1|auto with go]. apply kinv_lookup in Hi2; [|apply Hw3|auto with go].
  apply (Exists_exists (λ a, changes_root (GetInternalId (sub_Id m1)) a = true)).
  destruct (decide (List.Exists (λ a, changes_root (GetInternalId (sub_Id m1)) a = true) t2)) as [?|Hno]; [done|exfalso].
  assert (Ht : submitted (w_k w3) (iid i2) = true); [|congruence].
  rewrite Hi2, <- Hid. eapply zrun_submitted; [exact H3|done|auto with go| |].
  - unfold submitted. rewrite E1, Hi1. cbn. by rewrite lookup_insert_eq.
  - apply not_Exists_Forall in Hno; [|intros a; apply _]. eapply Forall_impl; [exact Hno|]. intros a Ha. by apply not_true_is_false.
Qed.

(** C30: When no ISM has more than a hundred pending messages, the module's state
    exports to a genesis state that passes validation and whose import restores
    the exported state. *)
Theorem zkism_genesis_roundtrip gs w0 tr w :
  start gs w0 → zrun w0 tr w → one_page (w_k w) →
  ∃ gs', ExportGenesis (w_k w) = Ok gs' ∧ GenesisState_Validate gs' = Ok tt ∧ InitGenesis empty_keeper gs' = Ok (w_k w).
Proof.
  intros Hs Hr Hp. pose proof (zrun_winv _ _ _ Hr (start_winv _ _ Hs)) as [Hk _].
  exists (export_of (w_k w)). auto using ExportGenesis_Ok, export_validates, import_export.
Qed.

(** In every reachable state an update, a submission or a verification
    returns a result or an error: whatever the proof and the public values are,
    they panic at most when the gas of the transaction runs out. *)
Theorem zkism_handlers_never_panic `{GNL : !GnarkLaws} gs w0 tr w :
  start gs w0 → zrun w0 tr w → no_panic (ConsumeGas (w_gas w) DefaultProofVerifyCostGroth16) →
  (∀ msg, no_panic (UpdateInterchainSecurityModule w msg)) ∧ (∀ msg, no_panic (SubmitMessages w msg)) ∧
  ∀ ismId message, no_panic (Verify w ismId message).
Proof.
  intros Hs Hr Hg. pose proof (zrun_winv _ _ _ Hr (start_winv _ _ Hs)) as Hw.
  split_and!; [intros; by apply no_panic_update|intros; by apply no_panic_submit|].
  intros ismId message. unfold Verify. apply no_panic_bind; [|auto with panics].
  apply no_panic_wrap_error, no_panic_get_ism.
Qed.
End Module.

(** C31: The encoding of public values is read back unchanged; the values of a
    membership proof have one encoding, while bytes after those of a transition
    are ignored. *)
Theorem public_values_roundtrip tv mv rest :
  state_ok (st_State tv) → state_ok (st_NewState tv) →
  membership_ok mv → Z.of_nat (length (sm_MessageIds mv)) <= MaxMessageIdsCount →
  StateTransitionValues_Unmarshal (StateTransitionValues_Marshal tv ++ rest) = Ok tv ∧
  StateMembershipValues_Unmarshal (StateMembershipValues_Marshal mv) = Ok mv ∧
  ∀ data, Forall byte_ok data → StateMembershipValues_Unmarshal data = Ok mv → data = StateMembershipValues_Marshal mv.
Proof.
  intros H1 H2 H3 H4. split_and!; [by apply transition_values_unmarshal|by apply membership_values_unmarshal|].
  intros data Hd. by apply membership_values_bytes.
Qed.

(** ** A concrete chain

    Hashes are the first 32 bytes, the verifier compares the first point of a
    proof with the digest of the public values, and ids are numbered from the
    router's counter. *)

Module ZkRuns.
Import SdkModel SquareModel.

Definition module_address (t : Z) : bytes := repeat 1 20 ++ be_bytes 4 t.
#[global] Arguments module_address : simpl never.

#[export] Instance hyperlane : Hyperlane := {
  GetInternalId a := wrap_u64 (be_decode (drop 24 a));
  IsZeroAddress a := forallb (λ b, b =? 0) a;
  HexAddress_Compare a b := match bytes_cmp a b with Lt => -1 | Eq => 0 | Gt => 1 end;
  DecodeHexAddress s := a ← DecodeHex s; _ ← ensure (length a =? 32)%nat "invalid hex address length"; Ok a;
  router := Z;
  GetNextSequence r t :=
    if (0 <=? r) && (r <? two64) then Ok (r + 1, module_address t ++ be_bytes 8 r) else Err "sequence exhausted";
  HyperlaneMessage := bytes;
  message_Id m := m;
}.

#[export] Instance hyperlane_laws : HyperlaneLaws.
Proof.
  refine {| router_seq := λ r : router, r |}; cbn.
  - intros a. apply wrap_u64_range.
  - intros r t r' id. destruct (Z.leb_spec 0 r), (Z.ltb_spec r two64); cbn [andb]; try done.
    intros E%Ok_inj. apply pair_eq in E as [<- <-]. split_and!; [|done|done].
    rewrite drop_app_length' by done.
    rewrite be_decode_bytes by (unfold two64 in *; lia). apply wrap_u64_id. split; done.
Defined.

#[export] Instance zk_crypto : Crypto := {
  sha256 b := take 32 b;
  PubKey_Address := @PubKey_Address crypto;
  VerifySignature := @VerifySignature crypto;
  ed25519_Verify := @ed25519_Verify crypto;
  RawBytesMessageSignBytes := @RawBytesMessageSignBytes crypto;
  NewNamespaceFromBytes := @NewNamespaceFromBytes crypto;
  Namespace_ValidateForBlob := @Namespace_ValidateForBlob crypto;
}.

#[export] Instance gnark : Gnark := {
  VerifyingKey := bytes;
  vk_ReadFrom b := Ok (b, lenZ b);
  G1Affine := bytes;
  G2Affine := bytes;
  Decode_G1 b := ReadFull 64 b;
  Decode_G2 b := ReadFull 128 b;
  Element := Z;
  SetBigInt z := z;
  Witness := list Z;
  witness_New := Ok [];
  witness_Fill w n m l := _ ← ensure (n + m =? Z.of_nat (length l)) "witness size"; Ok l;
  witness_Public w := Ok w;
  groth16_Verify p vk w := ensure (be_decode p.1.1 =? nth 1 w 0) "pairing doesn't match";
}.

#[export] Instance gnark_laws : GnarkLaws.
Proof.
  constructor; cbn; intros; auto using ReadFull_no_panic with panics.
Qed.

#[export] Instance pagination : Pagination := {
  PageResponse := Z;
  CollectionPaginate A req l :=
    Ok (match req with
        | None => take DefaultLimit l
        | Some p => take (if pg_Limit p =? 0 then DefaultLimit else Z.to_nat (pg_Limit p)) (drop (Z.to_nat (pg_Offset p)) l)
        end, Z.of_nat (length l));
}.

#[export] Instance pagination_laws : PaginationLaws.
Proof.
  constructor; cbn.
  - intros A l. eauto.
  - intros A req l l' pr Hl [= <- <-]. rewrite (proj2 (Z.eqb_neq _ _)) by lia. split; [rewrite length_take; lia|].
    etrans; [apply subseteq_take|apply subseteq_drop].
Qed.

(** The outcome of a call that is known to succeed. *)
Definition outcome {A} (d : A) (r : result A) : A := match r with Ok a => a | _ => d end.

Lemma outcome_Ok {A B} (d : A * B) r : is_ok r = true → r = Ok ((outcome d r).1, (outcome d r).2).
Proof. destruct r as [[a b]| |]; done. Qed.

Definition vkey : bytes := repeat 0 288 ++ be_bytes 4 6 ++ repeat 0 200.
Definition proof_of (values : bytes) : bytes :=
  repeat 0 4 ++ repeat 0 32 ++ vkRoot ++ repeat 0 32 ++ be_bytes 64 (HashBN254 values) ++ repeat 0 192.

Definition state1 : bytes := repeat 7 32.
Definition state2 : bytes := repeat 8 32 ++ [1; 2; 3].
Definition tree : bytes := repeat 9 32.
Definition message_id (n : Z) : bytes := n :: repeat 5 31.

Definition create_msg : MsgCreateInterchainSecurityModule := mkMsgCreate [1] state1 tree vkey (repeat 3 32) (repeat 4 32).

Definition w0 : World := mkWorld empty_keeper (5 : @router hyperlane) (1000000 : @GasMeter gas_meter) [].
Abbreviation w1 := ((outcome (w0, []) (CreateInterchainSecurityModule w0 create_msg)).1).
Definition ism_id : bytes := Eval vm_compute in (outcome (w0, []) (CreateInterchainSecurityModule w0 create_msg)).2.

Definition submit_msg (state : bytes) (ids : list bytes) : MsgSubmitMessages :=
  let values := StateMembershipValues_Marshal (mkStateMembershipValues (take 32 state) tree ids) in
  mkMsgSubmit ism_id (proof_of values) values.
Definition update_msg (s s' : bytes) : MsgUpdateInterchainSecurityModule :=
  let values := StateTransitionValues_Marshal (mkStateTransitionValues s s') in
  mkMsgUpdate ism_id (proof_of values) values.

Definition d_sub : World * (bytes * list bytes) := (w0, ([], [])).

Abbreviation submit1 := (submit_msg state1 [message_id 1; message_id 2]).
Abbreviation w2 := ((outcome d_sub (SubmitMessages w1 submit1)).1).
Abbreviation w3 := ((outcome (w0, false) (Verify w2 ism_id (message_id 1))).1).
Abbreviation update1 := (update_msg state1 state2).
Abbreviation w4 := ((outcome (w0, []) (UpdateInterchainSecurityModule w3 update1)).1).
Abbreviation submit2 := (submit_msg state2 [message_id 3]).
Abbreviation w5 := ((outcome d_sub (SubmitMessages w4 submit2)).1).

Definition trace : list action :=
  [ACreate create_msg ism_id] ++ ASubmit submit1 :: [AVerify ism_id (message_id 1) true; AUpdate update1] ++ ASubmit submit2 :: [].

Lemma started : start DefaultGenesis w0.
Proof. split_and!; [done|done|]. intros key ism. cbn. by rewrite lookup_empty. Qed.

Lemma bytes_in_range l : forallb (λ b, (0 <=? b) && (b <? 256)) l = true → Forall byte_ok l.
Proof.
  intros H. apply Forall_forall. intros b Hb. apply list_elem_of_In in Hb.
  pose proof (proj1 (forallb_forall _ l) H b Hb) as Hr. cbn beta in Hr. apply andb_prop in Hr as [H1%Z.leb_le H2%Z.ltb_lt]. by split.
Qed.

(** The steps up to the update. *)
Definition first_steps : list action :=
  [ACreate create_msg ism_id; ASubmit submit1; AVerify ism_id (message_id 1) true; AUpdate update1].

Lemma created : zstep w0 (ACreate create_msg ism_id) w1.
Proof. apply zstep_create; [vm_compute; reflexivity|]. apply outcome_Ok. vm_compute. reflexivity. Qed.

Lemma submitted_step w msg : MsgSubmit_ValidateBasic msg = Ok tt →
  forallb (λ b, (0 <=? b) && (b <? 256)) (sub_PublicValues msg) = true → is_ok (SubmitMessages w msg) = true →
  zstep w (ASubmit msg) (outcome d_sub (SubmitMessages w msg)).1.
Proof. intros Hv Hb Hok. eapply zstep_submit; [done|by apply bytes_in_range|by apply outcome_Ok]. Qed.

Lemma ran_first : zrun w0 first_steps w4.
Proof.
  apply zrun_cons with w1; [exact created|].
  apply zrun_cons with w2; [apply submitted_step; vm_compute; reflexivity|].
  apply zrun_cons with w3.
  { apply zstep_verify. change true with (outcome (w0, false) (Verify w2 ism_id (message_id 1))).2.
    apply outcome_Ok. vm_compute. reflexivity. }
  apply zrun_cons with w4; [|apply zrun_nil].
  eapply zstep_update; [vm_compute; reflexivity|]. apply outcome_Ok. vm_compute. reflexivity.
Qed.

Lemma ran : zrun w0 trace w5.
Proof.
  apply (zrun_trans _ first_steps w4 [ASubmit submit2]); [exact ran_first|].
  apply zrun_cons with w5; [apply submitted_step; vm_compute; reflexivity|apply zrun_nil].
Qed.

Definition ism5 : InterchainSecurityModule := with_state (new_ism create_msg ism_id) state2.

Lemma trusted_states_proved_witness :
  uint64_key 5 = uint64_key (GetInternalId (ism_Id ism5)) ∧ state_ok (ism_State ism5) ∧
  ∃ ism0, evolves trace ism0 ism5 ∧
    (ism0 ∈ gs_Isms DefaultGenesis ∨ ∃ msg id, ACreate msg id ∈ trace ∧ ism0 = new_ism msg id).
Proof. apply (trusted_states_proved DefaultGenesis w0 trace w5); [exact started|exact ran|vm_compute; reflexivity]. Defined.

Lemma deliveries_authorized_once_witness :
  count (delivers 5 (message_id 1)) trace + pending (w_k w5) 5 (message_id 1) <=
    count (grants 5 (message_id 1)) trace + pending (w_k w0) 5 (message_id 1) ∧
  ∀ msg, ASubmit msg ∈ trace → ∃ ism v s,
    isms (w_k w5) !! uint64_key (GetInternalId (sub_Id msg)) = Some ism ∧
    StateMembershipValues_Unmarshal (sub_PublicValues msg) = Ok v ∧
    proved ism (ism_StateMembershipVkey ism) (sub_Proof msg) (sub_PublicValues msg) ∧
    sm_MerkleTreeAddress v = ism_MerkleTreeAddress ism ∧
    sm_StateRoot v = take 32 s ∧ rtc (transition trace ism) s (ism_State ism).
Proof. apply (deliveries_authorized_once DefaultGenesis w0 trace w5); [exact started|exact ran|split; done]. Defined.

(** The message was delivered, and its authorization is used up. *)
Example delivered_once :
  count (delivers 5 (message_id 1)) trace = 1 ∧ pending (w_k w5) 5 (message_id 1) = 0 ∧ pending (w_k w5) 5 (message_id 2) = 1.
Proof. vm_compute. done. Qed.

Lemma one_submission_per_root_witness :
  ∃ a, a ∈ [AVerify ism_id (message_id 1) true; AUpdate update1] ∧ changes_root (GetInternalId (sub_Id submit1)) a = true.
Proof.
  apply (one_submission_per_root DefaultGenesis w0 [ACreate create_msg ism_id] submit1 _ submit2 [] w5);
    [exact started|exact ran|reflexivity].
Defined.

Lemma one_page_w5 : one_page (w_k w5).
Proof.
  intros ism Hin. apply list_elem_of_In in Hin. apply Nat.leb_le.
  apply (proj1 (forallb_forall (λ ism, (length (prefix_iter (uint64_key (GetInternalId (ism_Id ism))) (messages (w_k w5))) <=? DefaultLimit)%nat) _)) with (2 := Hin).
  vm_compute. reflexivity.
Qed.

Lemma zkism_genesis_roundtrip_witness :
  ∃ gs', ExportGenesis (w_k w5) = Ok gs' ∧ GenesisState_Validate gs' = Ok tt ∧ InitGenesis empty_keeper gs' = Ok (w_k w5).
Proof. apply (zkism_genesis_roundtrip DefaultGenesis w0 trace w5); [exact started|exact ran|exact one_page_w5]. Defined.

Lemma zkism_handlers_never_panic_witness :
  (∀ msg, no_panic (UpdateInterchainSecurityModule w5 msg)) ∧ (∀ msg, no_panic (SubmitMessages w5 msg)) ∧
  ∀ ismId message, no_panic (Verify w5 ismId message).
Proof.
  apply (zkism_handlers_never_panic DefaultGenesis w0 trace w5); [exact started|exact ran|].
  intros p. vm_compute. discriminate.
Defined.

Definition values1 : StateTransitionValues := mkStateTransitionValues state1 state2.
Definition values2 : StateMembershipValues := mkStateMembershipValues (take 32 state2) tree [message_id 3].

Lemma public_values_roundtrip_witness :
  StateTransitionValues_Unmarshal (StateTransitionValues_Marshal values1 ++ [1; 2]) = Ok values1 ∧
  StateMembershipValues_Unmarshal (StateMembershipValues_Marshal values2) = Ok values2 ∧
  ∀ data, Forall byte_ok data → StateMembershipValues_Unmarshal data = Ok values2 → data = StateMembershipValues_Marshal values2.
Proof.
  apply (public_values_roundtrip values1 values2); [by vm_compute|by vm_compute| |by vm_compute].
  split_and!; [done|done|]. constructor; [done|constructor].
Defined.

(** With 101 pending messages, export reads one page of a hundred: importing the
    export loses a message that was authorized. *)
Definition many : list bytes := map (λ n, message_id (Z.of_nat n)) (seq 0 101).
Abbreviation wmany := ((outcome d_sub (SubmitMessages w1 (submit_msg state1 many))).1).
Definition reimported : Keeper :=
  outcome empty_keeper (InitGenesis empty_keeper (outcome DefaultGenesis (ExportGenesis (w_k wmany)))).

Theorem export_drops_messages :
  zrun w0 [ACreate create_msg ism_id; ASubmit (submit_msg state1 many)] wmany ∧
  has_message (w_k wmany) 5 (message_id 100) = true ∧ has_message reimported 5 (message_id 99) = true ∧
  has_message reimported 5 (message_id 100) = false.
Proof.
  split; [|vm_compute; done]. apply zrun_cons with w1; [exact created|].
  apply zrun_cons with wmany; [apply submitted_step; vm_compute; reflexivity|apply zrun_nil].
Qed.

(** A message that was consumed is authorized and delivered again when it is
    proved under a later root. *)
Abbreviation submit_again := (submit_msg state2 [message_id 1]).
Abbreviation w5' := ((outcome d_sub (SubmitMessages w4 submit_again)).1).
Abbreviation w6' := ((outcome (w0, false) (Verify w5' ism_id (message_id 1))).1).
Definition trace_again : list action := first_steps ++ [ASubmit submit_again; AVerify ism_id (message_id 1) true].

Theorem consumed_message_delivered_again : zrun w0 trace_again w6' ∧ count (delivers 5 (message_id 1)) trace_again = 2.
Proof.
  split; [|vm_compute; done]. eapply zrun_trans; [exact ran_first|].
  apply zrun_cons with w5'; [apply submitted_step; vm_compute; reflexivity|].
  apply zrun_cons with w6'; [|apply zrun_nil]. apply zstep_verify.
  change true with (outcome (w0, false) (Verify w5' ism_id (message_id 1))).2. apply outcome_Ok. vm_compute. reflexivity.
Qed.
End ZkRuns.
End ZkIsmProperties.
