(* ===== verification/Forwarding.v ===== *)
(** * x/forwarding: forwarding tokens over Hyperlane warp routes

    [x/forwarding/types/{address,msgs}.go] and
    [x/forwarding/keeper/{keeper,msg_server,query_server,events}.go]: an address
    is derived from a destination and a token, and whoever relays what it holds
    pays the interchain gas. *)

From S2P Require Import Prelude Sdk SdkModel ZkIsm.
#[local] Open Scope Z_scope.

Module Forwarding.
Import ZkIsm(Hyperlane, GetInternalId, IsZeroAddress, DecodeHexAddress).

(** ** Packages outside the repository *)

(** [warptypes.HypToken] and its kinds. *)
Inductive HypTokenType := HYP_TOKEN_TYPE_UNSPECIFIED | HYP_TOKEN_TYPE_COLLATERAL | HYP_TOKEN_TYPE_SYNTHETIC.

Record HypToken := mkHypToken {
  ht_Id : bytes;
  ht_TokenType : HypTokenType;
  ht_OriginMailbox : bytes;
  ht_OriginDenom : string;
}.

(** [warptypes.RemoteRouter], [util.StandardHookMetadata] and a transfer that
    left for another chain: domain, recipient, token and amount. *)
Record RemoteRouter := mkRemoteRouter { rr_Gas : Z }.
Record StandardHookMetadata := mkHookMetadata { hm_GasLimit : Z; hm_CustomHookMetadata : bytes }.
Record Dispatch := mkDispatch { dp_Domain : Z; dp_Recipient : bytes; dp_Token : bytes; dp_Amount : Z }.

(** The bank, the warp and the Hyperlane keepers over one state, with
    [address.Module] of the SDK and the helpers of [hyperlane-cosmos/util]. *)
Class Keepers := {
  chain : Type;
  Balance : chain → bytes → string → Z;
  SpendableAmount : chain → bytes → string → Z;
  SendCoins : chain → bytes → bytes → Coin → result chain;
  outbox : chain → list Dispatch;
  GetHypToken : chain → Z → result HypToken;
  warp_HasEnrolledRouter : chain → Z → Z → result bool;
  warp_GetEnrolledRouter : chain → Z → Z → result RemoteRouter;
  QuoteDispatch : chain → bytes → bytes → StandardHookMetadata → Z → result (list Coin);
  RemoteTransferSynthetic : chain → HypToken → bytes → Z → bytes → Z → option bytes → Z → Coin → bytes → result (chain * bytes);
  RemoteTransferCollateral : chain → HypToken → bytes → Z → bytes → Z → option bytes → Z → Coin → bytes → result (chain * bytes);
  address_Module : string → bytes → bytes;
  HexAddress_String : bytes → string;
  NewZeroAddress : bytes;
  DecodeEthHex : bytes → result bytes;
}.

(** ** Addresses: [types/address.go] *)

Definition ModuleName : string := "forwarding".
Definition BondDenom : string := "utia".
Definition ForwardVersion : Z := 1.
Definition RecipientLength : nat := 32.
Definition TokenIDLength : nat := 32.
Definition DomainEncodingSize : nat := 32.
Definition DomainOffset : nat := DomainEncodingSize - 4.
Definition CosmosAddressLen : nat := 20.

(** ** Messages: [types/msgs.go] *)

(** The empty string stands for an absent optional field. *)
Record MsgForward := mkMsgForward {
  fw_Signer : bytes;
  fw_ForwardAddr : bytes;
  fw_DestDomain : Z;
  fw_DestRecipient : bytes;
  fw_TokenId : bytes;
  fw_MaxIgpFee : Coin;
  fw_CustomHookId : bytes;
  fw_CustomHookMetadata : bytes;
}.

Definition NewMsgForward (signer forwardAddr : bytes) (destDomain : Z) (destRecipient tokenID : bytes) (maxIgpFee : Coin) : MsgForward :=
  mkMsgForward signer forwardAddr destDomain destRecipient tokenID maxIgpFee [] [].

Record MsgForwardResponse := mkMsgForwardResponse { res_Denom : string; res_Amount : Z; res_MessageId : string }.

Inductive Event := EventTokenForwarded (ForwardAddr TokenId : bytes) (Denom : string) (Amount : Z) (MessageId : string).

Section Keeper.
Context `{CR : Crypto} `{HL : Hyperlane} `{KP : Keepers} `{AC : AddressCodec} `{CO : CoinOps} `{EV : TypedEvents Event}.

Definition DeriveForwardingAddress (destDomain : Z) (destRecipient tokenID : bytes) : result bytes :=
  _ ← ensure (length destRecipient =? RecipientLength)%nat "ErrInvalidRecipient";
  _ ← ensure (length tokenID =? TokenIDLength)%nat "ErrInvalidTokenID";
  let destDomainBytes := repeat 0 DomainOffset ++ be_bytes 4 destDomain in
  let callDigest := sha256 (destDomainBytes ++ destRecipient ++ tokenID) in
  let salt := sha256 ([ForwardVersion] ++ callDigest) in
  let addr := address_Module ModuleName salt in
  if (length addr <? CosmosAddressLen)%nat then Panic "slice bounds out of range" else Ok (take CosmosAddressLen addr).

Definition MsgForward_ValidateBasic (msg : MsgForward) : result unit :=
  _ ← of_option "invalid signer address" (AccAddressFromBech32 (fw_Signer msg));
  _ ← of_option "invalid forward address" (AccAddressFromBech32 (fw_ForwardAddr msg));
  _ ← DecodeHexAddress (fw_DestRecipient msg);
  _ ← DecodeHexAddress (fw_TokenId msg);
  ensure (coin_IsValid (fw_MaxIgpFee msg)) "invalid max_igp_fee".

(** ** The keeper: [keeper/keeper.go] *)

Definition HasEnrolledRouter (s : chain) (tokenId : bytes) (destDomain : Z) : result bool :=
  warp_HasEnrolledRouter s (GetInternalId tokenId) destDomain.

Definition GetEnrolledRouter (s : chain) (tokenId : bytes) (destDomain : Z) : result RemoteRouter :=
  warp_GetEnrolledRouter s (GetInternalId tokenId) destDomain.

Definition synthetic_denom (id : bytes) : string := String.append "hyperlane/" (HexAddress_String id).

Definition BankDenomForToken (token : HypToken) : result string :=
  match ht_TokenType token with
  | HYP_TOKEN_TYPE_COLLATERAL => Ok (ht_OriginDenom token)
  | HYP_TOKEN_TYPE_SYNTHETIC => Ok (synthetic_denom (ht_Id token))
  | _ => Err "ErrUnsupportedToken"
  end.

Definition ExecuteWarpTransfer (s : chain) (token : HypToken) (sender : bytes) (destDomain : Z) (destRecipient : bytes) (amount : Z)
    (quotedFee : Coin) (customHookId : option bytes) (customHookMetadata : bytes) : result (chain * bytes) :=
  router ← GetEnrolledRouter s (ht_Id token) destDomain;
  let gasLimit := rr_Gas router in
  match ht_TokenType token with
  | HYP_TOKEN_TYPE_SYNTHETIC =>
      RemoteTransferSynthetic s token sender destDomain destRecipient amount customHookId gasLimit quotedFee customHookMetadata
  | HYP_TOKEN_TYPE_COLLATERAL =>
      RemoteTransferCollateral s token sender destDomain destRecipient amount customHookId gasLimit quotedFee customHookMetadata
  | _ => Err "ErrUnsupportedToken"
  end.

Definition QuoteIgpFeeForToken (s : chain) (token : HypToken) (destDomain : Z) (customHookId : option bytes) (customHookMetadata : bytes) : result Coin :=
  router ← GetEnrolledRouter s (ht_Id token) destDomain;
  let hookId := default NewZeroAddress customHookId in
  let metadata := mkHookMetadata (rr_Gas router) customHookMetadata in
  quotedFee ← QuoteDispatch s (ht_OriginMailbox token) hookId metadata destDomain;
  _ ← ensure (length quotedFee <=? 1)%nat "multi-denom IGP fees not supported";
  Ok (match quotedFee with c :: _ => c | [] => mkCoin BondDenom 0 end).

(** ** The message server: [keeper/msg_server.go] *)

Definition calculateExcessIGPFee (before after quotedFee forwardedBalance : Coin) : Z :=
  let igpUsed := Amount before + Amount quotedFee - Amount after in
  let igpUsed := if String.eqb (Denom forwardedBalance) (Denom quotedFee) then igpUsed - Amount forwardedBalance else igpUsed in
  Amount quotedFee - igpUsed.

(** [bankKeeper.GetBalance]. *)
Definition GetBalance (s : chain) (a : bytes) (denom : string) : Coin := mkCoin denom (Balance s a denom).

Definition forwardToken (s : chain) (forwardAddr signerAddr : bytes) (hypToken : HypToken) (balance : Coin) (destDomain : Z)
    (destRecipient : bytes) (maxIgpFee : Coin) (customHookId : option bytes) (customHookMetadata : bytes) : result (chain * bytes) :=
  hasRoute ← HasEnrolledRouter s (ht_Id hypToken) destDomain;
  _ ← ensure hasRoute "ErrNoWarpRoute";
  quotedFee ← QuoteIgpFeeForToken s hypToken destDomain customHookId customHookMetadata;
  _ ← (if coin_IsPositive quotedFee then
         _ ← ensure (String.eqb (Denom maxIgpFee) (Denom quotedFee)) "max_igp_fee denom mismatch";
         ensure (negb (Amount maxIgpFee <? Amount quotedFee)) "ErrInsufficientIgpFee"
       else Ok tt);
  let feeDenomBalance := GetBalance s forwardAddr (Denom quotedFee) in
  s ← (if coin_IsPositive quotedFee then SendCoins s signerAddr forwardAddr quotedFee else Ok s);
  '(s, messageId) ← ExecuteWarpTransfer s hypToken (AccAddress_String forwardAddr) destDomain destRecipient (Amount balance)
    quotedFee customHookId customHookMetadata;
  s ← (if coin_IsPositive quotedFee then
         let feeDenomBalanceAfter := GetBalance s forwardAddr (Denom quotedFee) in
         let excess := calculateExcessIGPFee feeDenomBalance feeDenomBalanceAfter quotedFee balance in
         if 0 <? excess then SendCoins s forwardAddr signerAddr (mkCoin (Denom quotedFee) excess) else Ok s
       else Ok s);
  Ok (s, messageId).

(** The optional hook: the zero address means the default hook. *)
Definition parse_hook (customHookId : bytes) : result (option bytes) :=
  match customHookId with
  | [] => Ok None
  | _ => h ← DecodeHexAddress customHookId; Ok (if IsZeroAddress h then None else Some h)
  end.

Definition parse_metadata (customHookMetadata : bytes) : result bytes :=
  match customHookMetadata with [] => Ok [] | _ => DecodeEthHex customHookMetadata end.

(** [EmitTokenForwardedEvent] logs a failure. *)
Definition EmitTokenForwardedEvent (e : Event) (events : list Event) : list Event :=
  match TypedEventError e with None => events ++ [e] | Some _ => events end.

Definition Forward (s : chain) (events : list Event) (msg : MsgForward) : result (chain * list Event * MsgForwardResponse) :=
  forwardAddr ← of_option "invalid forward_addr" (AccAddressFromBech32 (fw_ForwardAddr msg));
  destRecipient ← DecodeHexAddress (fw_DestRecipient msg);
  tokenID ← DecodeHexAddress (fw_TokenId msg);
  expectedAddr ← DeriveForwardingAddress (fw_DestDomain msg) destRecipient tokenID;
  _ ← ensure (bool_decide (forwardAddr = expectedAddr)) "ErrAddressMismatch";
  signerAddr ← of_option "invalid signer address" (AccAddressFromBech32 (fw_Signer msg));
  hypToken ← GetHypToken s (GetInternalId tokenID);
  denom ← BankDenomForToken hypToken;
  let balance := mkCoin denom (SpendableAmount s forwardAddr denom) in
  _ ← ensure (coin_IsPositive balance) "ErrNoBalance";
  customHookId ← parse_hook (fw_CustomHookId msg);
  customHookMetadata ← parse_metadata (fw_CustomHookMetadata msg);
  '(s, messageID) ← ZkIsm.wrap_error "ErrForwardFailed" (forwardToken s forwardAddr signerAddr hypToken balance (fw_DestDomain msg)
    destRecipient (fw_MaxIgpFee msg) customHookId customHookMetadata);
  let events := EmitTokenForwardedEvent
    (EventTokenForwarded (fw_ForwardAddr msg) (fw_TokenId msg) denom (Amount balance) (HexAddress_String messageID)) events in
  Ok (s, events, mkMsgForwardResponse denom (Amount balance) (HexAddress_String messageID)).

(** ** Queries: [keeper/query_server.go] *)

(** The token of a request and whether it has a route. *)
Definition query_token (s : chain) (tokenId : bytes) (destDomain : Z) : result (bytes * HypToken) :=
  tokenID ← ZkIsm.wrap_error "InvalidArgument: invalid token_id hex" (DecodeHexAddress tokenId);
  token ← ZkIsm.wrap_error "FailedPrecondition: token not found" (GetHypToken s (GetInternalId tokenID));
  hasRoute ← ZkIsm.wrap_error "Internal: failed to check route" (HasEnrolledRouter s (ht_Id token) destDomain);
  _ ← ensure hasRoute "FailedPrecondition: no warp route";
  Ok (tokenID, token).

Definition query_DeriveForwardingAddress (s : chain) (req : option (Z * bytes * bytes)) : result bytes :=
  '(destDomain, recipient, tokenId) ← of_option "InvalidArgument: request cannot be nil" req;
  destRecipient ← ZkIsm.wrap_error "InvalidArgument: invalid dest_recipient hex" (DecodeHexAddress recipient);
  '(tokenID, _) ← query_token s tokenId destDomain;
  forwardAddr ← ZkIsm.wrap_error "InvalidArgument: failed to derive address" (DeriveForwardingAddress destDomain destRecipient tokenID);
  Ok (AccAddress_String forwardAddr).

Definition query_QuoteForwardingFee (s : chain) (req : option (Z * bytes * bytes * bytes)) : result Coin :=
  '(destDomain, tokenId, hook, meta) ← of_option "InvalidArgument: request cannot be nil" req;
  '(_, token) ← query_token s tokenId destDomain;
  customHookId ← ZkIsm.wrap_error "InvalidArgument: invalid custom_hook_id hex" (parse_hook hook);
  customHookMetadata ← ZkIsm.wrap_error "InvalidArgument: invalid custom_hook_metadata hex" (parse_metadata meta);
  ZkIsm.wrap_error "FailedPrecondition: failed to quote IGP fee" (QuoteIgpFeeForToken s token destDomain customHookId customHookMetadata).

(** ** What the other modules promise *)

(** [c] moved between two accounts, and nothing left the chain. *)
Definition sent (s : chain) (from to : bytes) (c : Coin) (s' : chain) : Prop :=
  outbox s' = outbox s ∧ ∀ a d, Balance s' a d = Balance s a d
    + (if bool_decide (a = to ∧ d = Denom c) then Amount c else 0)
    - (if bool_decide (a = from ∧ d = Denom c) then Amount c else 0).

(** A remote transfer takes the amount and a fee of at most [maxFee] from the
    sender, from nobody else, and sends the amount to the recipient. *)
Definition transferred_out (s : chain) (sender : bytes) (token : HypToken) (denom : string) (domain : Z) (recipient : bytes)
    (amount : Z) (maxFee : Coin) (s' : chain) : Prop :=
  outbox s' = outbox s ++ [mkDispatch domain recipient (ht_Id token) amount] ∧
  (∀ a d, a ≠ sender → Balance s a d <= Balance s' a d) ∧
  ∃ fee, 0 <= fee <= Amount maxFee ∧ ∀ d, Balance s' sender d = Balance s sender d
    - (if bool_decide (d = denom) then amount else 0) - (if bool_decide (d = Denom maxFee) then fee else 0).

Class KeeperLaws := {
  SendCoins_spec s from to c s' : SendCoins s from to c = Ok s' → sent s from to c s';
  RemoteTransferSynthetic_spec s t sender a dom rcp amt hook gas fee meta s' id :
    RemoteTransferSynthetic s t sender dom rcp amt hook gas fee meta = Ok (s', id) → AccAddressFromBech32 sender = Some a →
    transferred_out s a t (synthetic_denom (ht_Id t)) dom rcp amt fee s';
  RemoteTransferCollateral_spec s t sender a dom rcp amt hook gas fee meta s' id :
    RemoteTransferCollateral s t sender dom rcp amt hook gas fee meta = Ok (s', id) → AccAddressFromBech32 sender = Some a →
    transferred_out s a t (ht_OriginDenom t) dom rcp amt fee s';
  (** A quote consists of valid coins, and the string of a decoded address
      decodes to it. *)
  QuoteDispatch_nonneg s mb hook md dom l : QuoteDispatch s mb hook md dom = Ok l → Forall (λ c, 0 <= Amount c) l;
  AccAddress_roundtrip str a : AccAddressFromBech32 str = Some a → AccAddressFromBech32 (AccAddress_String a) = Some a;
}.

(** ** Forwarding a token *)

Context `{KL : !KeeperLaws} `{CL : !CoinLaws}.

Lemma warp_transfer_effect s token a dom rcp amt fee hook meta s' id denom str :
  ExecuteWarpTransfer s token (AccAddress_String a) dom rcp amt fee hook meta = Ok (s', id) →
  BankDenomForToken token = Ok denom → AccAddressFromBech32 str = Some a →
  transferred_out s a token denom dom rcp amt fee s'.
Proof.
  unfold ExecuteWarpTransfer, BankDenomForToken. intros H Hd Ha%AccAddress_roundtrip. inv_ok.
  destruct (ht_TokenType token); inv_ok; try done; subst denom;
    [by eapply RemoteTransferCollateral_spec|by eapply RemoteTransferSynthetic_spec].
Qed.

Lemma quote_nonneg s t dom hook meta c : QuoteIgpFeeForToken s t dom hook meta = Ok c → 0 <= Amount c.
Proof.
  unfold QuoteIgpFeeForToken. intros H. inv_ok. subst c. apply QuoteDispatch_nonneg in Hr0.
  destruct r0 as [|c l]; [done|]. by apply Forall_cons in Hr0 as [? _].
Qed.

(** The accounting of a forwarded token: the forwarding address loses exactly
    what is sent out, the relayer at most the quoted fee, nobody else anything. *)
Lemma forwardToken_effect s a b str token denom amt dom rcp maxFee hook meta s' id :
  forwardToken s a b token (mkCoin denom amt) dom rcp maxFee hook meta = Ok (s', id) →
  BankDenomForToken token = Ok denom → AccAddressFromBech32 str = Some a → a ≠ b →
  HasEnrolledRouter s (ht_Id token) dom = Ok true ∧
  ∃ quoted fee, QuoteIgpFeeForToken s token dom hook meta = Ok quoted ∧ 0 <= fee <= Amount quoted ∧
    (0 < Amount quoted → Denom maxFee = Denom quoted ∧ Amount quoted <= Amount maxFee) ∧
    outbox s' = outbox s ++ [mkDispatch dom rcp (ht_Id token) amt] ∧
    (∀ d, Balance s' a d = Balance s a d - (if bool_decide (d = denom) then amt else 0)) ∧
    (∀ d, Balance s b d - (if bool_decide (d = Denom quoted) then fee else 0) <= Balance s' b d) ∧
    (∀ c d, c ≠ a → c ≠ b → Balance s c d <= Balance s' c d).
Proof.
  unfold forwardToken. intros H Hd Ha Hab. inv_ok. destruct r4 as [s2 mid]. inv_ok. injection H as <- <-.
  pose proof (quote_nonneg _ _ _ _ _ _ Hr1) as Hq. eapply warp_transfer_effect in Hr4; [|done..].
  cbn [Amount] in Hr4. destruct Hr4 as (Ho & Hothers & fee & Hfee & Hsender). split; [by rewrite Hr, Hr0|]. exists r1, fee. rewrite coin_IsPositive_spec in *.
  destruct (Z.ltb_spec 0 (Amount r1)) as [Hpos|Hzero].
  - inv_ok. apply String.eqb_eq in Hr4. apply negb_true_iff, Z.ltb_ge in Hr2.
    apply SendCoins_spec in Hr3 as [Ho1 Hb1].
    assert (Hex : calculateExcessIGPFee (GetBalance s a (Denom r1)) (GetBalance s2 a (Denom r1)) r1 (mkCoin denom amt) = Amount r1 - fee).
    { unfold calculateExcessIGPFee, GetBalance. cbn [Denom Amount]. rewrite Hsender, Hb1.
      destruct (String.eqb_spec denom (Denom r1)) as [E|E];
        repeat case_bool_decide; destruct_and?; subst; try tauto; try congruence; lia. }
    rewrite Hex in Hr5.
    assert (Hrefund : outbox r4 = outbox s2 ∧ ∀ c d, Balance r4 c d = Balance s2 c d
      + (if bool_decide (c = b ∧ d = Denom r1) then Amount r1 - fee else 0)
      - (if bool_decide (c = a ∧ d = Denom r1) then Amount r1 - fee else 0)).
    { destruct (Z.ltb_spec 0 (Amount r1 - fee)); [by apply SendCoins_spec in Hr5|]. inv_ok. subst r4. split; [done|].
      intros c d. repeat case_bool_decide; lia. }
    destruct Hrefund as [Ho2 Hb2]. do 3 (split; [done|]). split_and!.
    + by rewrite Ho2, Ho, Ho1.
    + intros d. rewrite Hb2, Hsender, Hb1. repeat case_bool_decide; destruct_and?; subst; try tauto; try congruence; lia.
    + intros d. rewrite Hb2. pose proof (Hothers b d ltac:(done)) as Hg. rewrite Hb1 in Hg.
      repeat case_bool_decide; destruct_and?; subst; try tauto; try congruence; lia.
    + intros c d Hca Hcb. rewrite Hb2. pose proof (Hothers c d Hca) as Hg. rewrite Hb1 in Hg.
      repeat case_bool_decide; destruct_and?; subst; try tauto; try congruence; lia.
  - inv_ok. subst r3 r4. assert (fee = 0) as -> by lia. do 2 (split; [done|]). split; [lia|]. split; [done|]. split_and!.
    + intros d. rewrite Hsender. repeat case_bool_decide; lia.
    + intros d. pose proof (Hothers b d ltac:(done)). case_bool_decide; lia.
    + intros c d Hca _. by apply Hothers.
Qed.

(** ** The claims *)

(** C32: A forward that succeeds sends the spendable balance of the message's
    forwarding address, in the denomination of the token, to the domain and
    recipient that the address was derived from. The forwarding address loses
    exactly that amount, the relayer at most the fee that the query quotes, which
    is within the limit the relayer set, and nobody else loses anything. *)
Theorem forward_accounting s evs msg s' evs' res a b :
  Forward s evs msg = Ok (s', evs', res) →
  AccAddressFromBech32 (fw_ForwardAddr msg) = Some a → AccAddressFromBech32 (fw_Signer msg) = Some b → a ≠ b →
  ∃ recipient tokenID token quoted fee,
    DecodeHexAddress (fw_DestRecipient msg) = Ok recipient ∧ DecodeHexAddress (fw_TokenId msg) = Ok tokenID ∧
    DeriveForwardingAddress (fw_DestDomain msg) recipient tokenID = Ok a ∧
    GetHypToken s (GetInternalId tokenID) = Ok token ∧ BankDenomForToken token = Ok (res_Denom res) ∧
    res_Amount res = SpendableAmount s a (res_Denom res) ∧ 0 < res_Amount res ∧
    outbox s' = outbox s ++ [mkDispatch (fw_DestDomain msg) recipient (ht_Id token) (res_Amount res)] ∧
    query_QuoteForwardingFee s (Some (fw_DestDomain msg, fw_TokenId msg, fw_CustomHookId msg, fw_CustomHookMetadata msg)) = Ok quoted ∧
    0 <= fee <= Amount quoted ∧
    (0 < Amount quoted → Denom (fw_MaxIgpFee msg) = Denom quoted ∧ Amount quoted <= Amount (fw_MaxIgpFee msg)) ∧
    (∀ d, Balance s' a d = Balance s a d - (if bool_decide (d = res_Denom res) then res_Amount res else 0)) ∧
    (∀ d, Balance s b d - (if bool_decide (d = Denom quoted) then fee else 0) <= Balance s' b d) ∧
    (∀ c d, c ≠ a → c ≠ b → Balance s c d <= Balance s' c d).
Proof.
  unfold Forward. intros H Ha Hb Hab. rewrite Ha, Hb in H. cbn [of_option mbind result_bind] in H. inv_ok.
  apply bool_decide_eq_true in Hr2. subst r1. destruct r8 as [s2 mid]. inv_ok. injection H as <- <- <-.
  apply ZkIsm.wrap_error_Ok in Hr8. rewrite coin_IsPositive_spec in Hr5. apply Z.ltb_lt in Hr5. cbn in Hr5.
  eapply forwardToken_effect in Hr8 as (Hroute & quoted & fee & Hq & Hfee & Hmax & Ho & HA & HB & HC); [|done..].
  exists r, r0, r3, quoted, fee. cbn [res_Denom res_Amount Amount]. do 8 (split; [done|]). split; [|done].
  unfold query_QuoteForwardingFee, query_token. cbn [of_option mbind result_bind]. rewrite Hr0. cbn [ZkIsm.wrap_error mbind result_bind].
  rewrite Hr3. cbn [ZkIsm.wrap_error mbind result_bind]. rewrite Hroute. cbn [ZkIsm.wrap_error ensure mbind result_bind].
  rewrite Hr6. cbn [ZkIsm.wrap_error mbind result_bind]. rewrite Hr7. cbn [ZkIsm.wrap_error mbind result_bind]. by rewrite Hq.
Qed.

Definition call_bytes (d : Z) (r t : bytes) : bytes := (repeat 0 DomainOffset ++ be_bytes 4 d) ++ r ++ t.
Definition salt_of (d : Z) (r t : bytes) : bytes := sha256 ([ForwardVersion] ++ sha256 (call_bytes d r t)).

Lemma call_bytes_inj d1 r1 t1 d2 r2 t2 : u32 d1 → u32 d2 → length r1 = length r2 →
  call_bytes d1 r1 t1 = call_bytes d2 r2 t2 → d1 = d2 ∧ r1 = r2 ∧ t1 = t2.
Proof.
  unfold call_bytes. intros H1 H2 Hl E. apply app_inj_1 in E as [E1 E2]; [|by rewrite !length_app, !length_be_bytes].
  apply app_inv_head, be_bytes_inj_u32 in E1; [|done..]. by apply app_inj_1 in E2 as [-> ->].
Qed.

(** C33: A forwarding address commits to one domain, recipient and token: another
    destination with the same address exhibits a collision of SHA-256 or of the
    SDK's module addresses cut to twenty bytes. *)
Theorem forwarding_address_binds d1 r1 t1 d2 r2 t2 a :
  u32 d1 → u32 d2 → DeriveForwardingAddress d1 r1 t1 = Ok a → DeriveForwardingAddress d2 r2 t2 = Ok a →
  (d1 = d2 ∧ r1 = r2 ∧ t1 = t2) ∨
  (call_bytes d1 r1 t1 ≠ call_bytes d2 r2 t2 ∧ sha256 (call_bytes d1 r1 t1) = sha256 (call_bytes d2 r2 t2)) ∨
  ([ForwardVersion] ++ sha256 (call_bytes d1 r1 t1) ≠ [ForwardVersion] ++ sha256 (call_bytes d2 r2 t2) ∧ salt_of d1 r1 t1 = salt_of d2 r2 t2) ∨
  (salt_of d1 r1 t1 ≠ salt_of d2 r2 t2 ∧
    take CosmosAddressLen (address_Module ModuleName (salt_of d1 r1 t1)) = take CosmosAddressLen (address_Module ModuleName (salt_of d2 r2 t2))).
Proof.
  intros H1 H2 E1 E2. unfold DeriveForwardingAddress in E1, E2.
  fold (call_bytes d1 r1 t1) in E1. fold (call_bytes d2 r2 t2) in E2. fold (salt_of d1 r1 t1) in E1. fold (salt_of d2 r2 t2) in E2.
  inv_ok. inv_case. inv_case. rewrite <- E2 in E1. apply Nat.eqb_eq in Hr, Hr1.
  destruct (decide (salt_of d1 r1 t1 = salt_of d2 r2 t2)) as [Es|?]; [|tauto].
  destruct (decide (sha256 (call_bytes d1 r1 t1) = sha256 (call_bytes d2 r2 t2))) as [Ed|Hne].
  2: { right. right. left. split; [|done]. intros [= ?]. done. }
  destruct (decide (call_bytes d1 r1 t1 = call_bytes d2 r2 t2)) as [Ec|?]; [|tauto].
  left. apply call_bytes_inj; [done..|congruence|done].
Qed.
End Keeper.

(** ** A concrete chain

    Balances in a map, one collateral token whose denomination is also that of
    the fee, a quote of 30 and a hook that charges 20 or the limit. *)

Module ForwardRuns.
Import SdkModel.

#[local] Arguments get_balance : simpl never.

Record Chain := mkChain { ch_bank : ledger; ch_out : list Dispatch }.

Definition utia_token : HypToken := mkHypToken (repeat 1 32) HYP_TOKEN_TYPE_COLLATERAL (repeat 2 32) BondDenom.

(** Take coins from an account. *)
Definition debit (bk : ledger) (a : bytes) (c : Coin) : result ledger :=
  if (0 <=? Amount c) && (Amount c <=? get_balance bk a (Denom c))
  then Ok (<[(a, Denom c) := get_balance bk a (Denom c) - Amount c]> bk) else Err "insufficient funds".

Definition remote (denom : string) (s : Chain) (t : HypToken) (sender : bytes) (dom : Z) (rcp : bytes) (amt : Z) (maxFee : Coin) : result (Chain * bytes) :=
  a ← of_option "invalid sender" (match sender with [] => None | _ => Some sender end);
  bk ← debit (ch_bank s) a (mkCoin denom amt);
  bk ← debit bk a (mkCoin (Denom maxFee) (Z.max 0 (Z.min 20 (Amount maxFee))));
  _ ← ensure (0 <=? Amount maxFee) "invalid fee";
  Ok (mkChain bk (ch_out s ++ [mkDispatch dom rcp (ht_Id t) amt]), [7]).

#[export] Instance hyperlane : Hyperlane := {
  GetInternalId a := wrap_u64 (be_decode (drop 24 a));
  IsZeroAddress a := forallb (λ b, b =? 0) a;
  ZkIsm.HexAddress_Compare a b := match bytes_cmp a b with Lt => -1 | Eq => 0 | Gt => 1 end;
  DecodeHexAddress s := _ ← ensure (length s =? 32)%nat "invalid hex address length"; Ok s;
  ZkIsm.router := unit;
  ZkIsm.GetNextSequence r t := Err "no router";
  ZkIsm.HyperlaneMessage := bytes;
  ZkIsm.message_Id m := m;
}.

#[export] Instance keepers : Keepers := {
  chain := Chain;
  Balance s a d := get_balance (ch_bank s) a d;
  SpendableAmount s a d := get_balance (ch_bank s) a d;
  SendCoins s from to c := bk ← move (ch_bank s) from to c; Ok (mkChain bk (ch_out s));
  outbox := ch_out;
  GetHypToken s id := Ok utia_token;
  warp_HasEnrolledRouter s id dom := Ok true;
  warp_GetEnrolledRouter s id dom := Ok (mkRemoteRouter 1000);
  QuoteDispatch s mb hook md dom := Ok [mkCoin BondDenom 30];
  RemoteTransferSynthetic s t sender dom rcp amt hook gas fee meta :=
    remote (String.append "hyperlane/" "token") s t sender dom rcp amt fee;
  RemoteTransferCollateral s t sender dom rcp amt hook gas fee meta := remote (ht_OriginDenom t) s t sender dom rcp amt fee;
  address_Module name key := take 32 (rev key ++ repeat 0 32);
  HexAddress_String a := "token";
  NewZeroAddress := repeat 0 32;
  DecodeEthHex b := Ok b;
}.

Lemma debit_Ok bk a c bk' : debit bk a c = Ok bk' →
  ∀ b d, get_balance bk' b d = get_balance bk b d - (if bool_decide (b = a ∧ d = Denom c) then Amount c else 0).
Proof.
  unfold debit. case_match; [|done]. intros <-%Ok_inj b d. rewrite get_balance_insert.
  case_bool_decide as Hc; [destruct Hc as [-> ->]|]; lia.
Qed.

Lemma remote_spec denom s t sender a dom rcp amt fee s' id : remote denom s t sender dom rcp amt fee = Ok (s', id) →
  AccAddressFromBech32 sender = Some a → transferred_out s a t denom dom rcp amt fee s'.
Proof.
  unfold remote. cbn. intros H Ha. rewrite Ha in H. cbn [of_option mbind result_bind] in H. inv_ok. injection H as <- <-.
  apply Z.leb_le in Hr1. pose proof (debit_Ok _ _ _ _ Hr) as H1. pose proof (debit_Ok _ _ _ _ Hr0) as H2. cbn in *.
  split_and!; [done| |].
  - intros c d Hc. cbn. rewrite H2, H1. repeat case_bool_decide; destruct_and?; try done; lia.
  - exists (Z.max 0 (Z.min 20 (Amount fee))). split; [lia|]. intros d. cbn. rewrite H2, H1.
    repeat case_bool_decide; destruct_and?; try tauto; lia.
Qed.

#[export] Instance keeper_laws : KeeperLaws.
Proof.
  constructor; cbn.
  - intros s from to c s' H. inv_ok. subst s'. split; [done|]. apply (move_transferred _ _ _ _ _ Hr).
  - intros. by eapply (remote_spec (synthetic_denom (ht_Id t))).
  - intros. by eapply (remote_spec (ht_OriginDenom t)).
  - intros s mb hook md dom l [= <-]. by repeat constructor.
  - intros str a. by destruct str; intros [= <-].
Qed.

Definition recipient : bytes := repeat 3 32.
Definition token_id : bytes := repeat 0 31 ++ [9].
Definition fwd_addr : bytes := Eval vm_compute in
  match DeriveForwardingAddress 77 recipient token_id with Ok a => a | _ => [] end.
Definition relayer : bytes := [4; 4].

Definition s0 : @chain keepers := mkChain {[ (fwd_addr, BondDenom) := 500; (relayer, BondDenom) := 100 ]} [].
Definition forward_msg : MsgForward := NewMsgForward relayer fwd_addr 77 recipient token_id (mkCoin BondDenom 40).

Definition forwarded : chain * list Event * MsgForwardResponse :=
  match Forward s0 [] forward_msg with Ok x => x | _ => (s0, [], mkMsgForwardResponse BondDenom 0 BondDenom) end.

(** The relayer gets 10 of the 30 back, and the address is emptied. *)
Example forwarded_balances : outbox forwarded.1.1 = [mkDispatch 77 recipient (ht_Id utia_token) 500] ∧
  get_balance (ch_bank forwarded.1.1) fwd_addr BondDenom = 0 ∧ get_balance (ch_bank forwarded.1.1) relayer BondDenom = 80.
Proof. vm_compute. done. Qed.

Lemma forward_accounting_witness : ∃ recipient tokenID token quoted fee,
  DecodeHexAddress (fw_DestRecipient forward_msg) = Ok recipient ∧ DecodeHexAddress (fw_TokenId forward_msg) = Ok tokenID ∧
  DeriveForwardingAddress (fw_DestDomain forward_msg) recipient tokenID = Ok fwd_addr ∧
  GetHypToken s0 (GetInternalId tokenID) = Ok token ∧ BankDenomForToken token = Ok (res_Denom forwarded.2) ∧
  res_Amount forwarded.2 = SpendableAmount s0 fwd_addr (res_Denom forwarded.2) ∧ 0 < res_Amount forwarded.2 ∧
  outbox forwarded.1.1 = outbox s0 ++ [mkDispatch (fw_DestDomain forward_msg) recipient (ht_Id token) (res_Amount forwarded.2)] ∧
  query_QuoteForwardingFee s0 (Some (fw_DestDomain forward_msg, fw_TokenId forward_msg, fw_CustomHookId forward_msg, fw_CustomHookMetadata forward_msg)) = Ok quoted ∧
  0 <= fee <= Amount quoted ∧
  (0 < Amount quoted → Denom (fw_MaxIgpFee forward_msg) = Denom quoted ∧ Amount quoted <= Amount (fw_MaxIgpFee forward_msg)) ∧
  (∀ d, Balance forwarded.1.1 fwd_addr d = Balance s0 fwd_addr d - (if bool_decide (d = res_Denom forwarded.2) then res_Amount forwarded.2 else 0)) ∧
  (∀ d, Balance s0 relayer d - (if bool_decide (d = Denom quoted) then fee else 0) <= Balance forwarded.1.1 relayer d) ∧
  (∀ c d, c ≠ fwd_addr → c ≠ relayer → Balance s0 c d <= Balance forwarded.1.1 c d).
Proof.
  apply (forward_accounting s0 [] forward_msg forwarded.1.1 forwarded.1.2 forwarded.2 fwd_addr relayer);
    [vm_compute; reflexivity|reflexivity|reflexivity|discriminate].
Defined.

Lemma forwarding_address_binds_witness :
  (77 = 77 ∧ recipient = recipient ∧ token_id = token_id) ∨
  (call_bytes 77 recipient token_id ≠ call_bytes 77 recipient token_id ∧ sha256 (call_bytes 77 recipient token_id) = sha256 (call_bytes 77 recipient token_id)) ∨
  ([ForwardVersion] ++ sha256 (call_bytes 77 recipient token_id) ≠ [ForwardVersion] ++ sha256 (call_bytes 77 recipient token_id) ∧
    salt_of 77 recipient token_id = salt_of 77 recipient token_id) ∨
  (salt_of 77 recipient token_id ≠ salt_of 77 recipient token_id ∧
    take CosmosAddressLen (address_Module ModuleName (salt_of 77 recipient token_id)) = take CosmosAddressLen (address_Module ModuleName (salt_of 77 recipient token_id))).
Proof. apply (forwarding_address_binds 77 recipient token_id 77 recipient token_id fwd_addr); [split; done|split; done|vm_compute; reflexivity..]. Defined.
End ForwardRuns.
End Forwarding.
