(* ===== verification/Valaddr.v ===== *)
(** * x/valaddr: the registry of fibre hosts

    [x/valaddr/types/{keys,msg}.go], [x/valaddr/genesis.go] and
    [x/valaddr/keeper]: validators register the host of their fibre server, and
    the end of every block drops the entries of validators that are gone. *)

From S2P Require Import Prelude Sdk SdkModel.
#[local] Open Scope Z_scope.

Module Valaddr.

(** ** Hosts: [net.SplitHostPort] and [strconv.Atoi] of the standard library *)

Definition colon : Z := 58.
Definition lbracket : Z := 91.
Definition rbracket : Z := 93.

Fixpoint IndexByte (s : bytes) (c : Z) : option nat :=
  match s with
  | [] => None
  | x :: s' => if x =? c then Some O else S <$> IndexByte s' c
  end.

Fixpoint LastIndexByte (s : bytes) (c : Z) : option nat :=
  match s with
  | [] => None
  | x :: s' =>
      match LastIndexByte s' c with
      | Some i => Some (S i)
      | None => if x =? c then Some O else None
      end
  end.

Definition contains (s : bytes) (c : Z) : bool := bool_decide (is_Some (IndexByte s c)).

Definition SplitHostPort (hostport : bytes) : result (bytes * bytes) :=
  i ← of_option "missing port in address" (LastIndexByte hostport colon);
  '(host, j, k) ←
    (if bool_decide (head hostport = Some lbracket) then
       end_ ← of_option "missing ']' in address" (IndexByte hostport rbracket);
       _ ← (if (end_ + 1 =? length hostport)%nat then Err "missing port in address"
            else if (end_ + 1 =? i)%nat then Ok tt
            else if bool_decide (hostport !! (end_ + 1)%nat = Some colon) then Err "too many colons in address"
            else Err "missing port in address");
       Ok (take (end_ - 1) (drop 1 hostport), 1%nat, (end_ + 1)%nat)
     else
       let host := take i hostport in
       _ ← ensure (negb (contains host colon)) "too many colons in address";
       Ok (host, O, O));
  _ ← ensure (negb (contains (drop j hostport) lbracket)) "unexpected '[' in address";
  _ ← ensure (negb (contains (drop k hostport) rbracket)) "unexpected ']' in address";
  Ok (host, drop (i + 1) hostport).

Definition is_digit (c : Z) : bool := (48 <=? c) && (c <=? 57).

Definition digits_value (s : bytes) : Z := fold_left (λ acc c, acc * 10 + (c - 48)) s 0.

(** An optional sign and decimal digits, within 64 bits. *)
Definition Atoi (s : bytes) : result Z :=
  let '(neg, ds) := match s with
    | 43 :: ds => (false, ds)
    | 45 :: ds => (true, ds)
    | _ => (false, s)
    end in
  _ ← ensure (negb (length ds =? 0)%nat && forallb is_digit ds) "invalid syntax";
  let v := if (neg : bool) then - digits_value ds else digits_value ds in
  _ ← ensure ((- two63 <=? v) && (v <? two63)) "value out of range";
  Ok v.

(** ** [types/msg.go] *)

Definition MaxHostLen : nat := 100.
Definition minPort : Z := 1.
Definition maxPort : Z := 65535.

Definition ErrInvalidHostAddress : error := "ErrInvalidHostAddress".
Definition ErrInvalidValidator : error := "ErrInvalidValidator".

(** [errorsmod.Wrap(sentinel, ...)] of a failure. *)
Definition as_error {A} (e : error) (r : result A) : result A := match r with Err _ => Err e | _ => r end.

Definition ValidateHost (host : bytes) : result unit :=
  _ ← ensure (negb (length host =? 0)%nat) ErrInvalidHostAddress;
  _ ← ensure (negb (MaxHostLen <? length host)%nat) ErrInvalidHostAddress;
  '(hostPart, portPart) ← as_error ErrInvalidHostAddress (SplitHostPort host);
  _ ← ensure (negb (length hostPart =? 0)%nat) ErrInvalidHostAddress;
  port ← as_error ErrInvalidHostAddress (Atoi portPart);
  ensure (negb ((port <? minPort) || (maxPort <? port))) ErrInvalidHostAddress.

Record MsgSetFibreProviderInfo := mkMsgSet { ms_Signer : bytes; ms_Host : bytes }.
Record FibreProviderInfo := mkInfo { info_Host : bytes }.

Class ValAddresses := {
  ValAddressFromBech32 : bytes → option bytes;
  ConsAddressFromBech32 : bytes → option bytes;
  ConsAddress_String : bytes → bytes;
}.

(** The protobuf codec of an entry. *)
Class InfoCodec := { marshal : FibreProviderInfo → result bytes; unmarshal : bytes → result FibreProviderInfo }.
Class InfoCodecLaws `{InfoCodec} := { unmarshal_marshal i b : marshal i = Ok b → unmarshal b = Ok i }.

(** ** The staking keeper ([types/expected_keepers.go]) in one block *)

Record Validator := mkValidator {
  v_Jailed : bool;
  v_Bonded : bool;
  v_UnbondingTime : Z;
  v_ConsAddr : result bytes;
}.

(** A lookup by consensus address, with [ErrNoValidatorFound] apart from other
    errors. *)
Inductive lookup_result := Found (v : Validator) | NoValidatorFound | LookupFailed (e : error).

Record Staking := mkStaking {
  GetValidator : bytes → result Validator;
  GetValidatorByConsAddr : bytes → lookup_result;
}.

(** ** Keys and the keeper: [types/keys.go], [keeper/keeper.go] *)

Definition JailedGracePeriod : Z := 7 * 24 * Hour.
Definition FibreProviderInfoPrefix : bytes := [1].
Definition GetFibreProviderInfoKey (consAddr : bytes) : bytes := FibreProviderInfoPrefix ++ consAddr.

Abbreviation Store := (gmap bytes bytes) (only parsing).

Section Keeper.
Context `{VA : ValAddresses} `{IC : InfoCodec}.

Definition MsgSet_ValidateBasic (m : MsgSetFibreProviderInfo) : result unit :=
  _ ← ensure (negb (length (ms_Signer m) =? 0)%nat) ErrInvalidValidator;
  _ ← of_option ErrInvalidValidator (ValAddressFromBech32 (ms_Signer m));
  ValidateHost (ms_Host m).

Definition SetFibreProviderInfo (st : Store) (consAddr : bytes) (info : FibreProviderInfo) : result Store :=
  bz ← marshal info; Ok (<[GetFibreProviderInfoKey consAddr := bz]> st).

Definition GetFibreProviderInfo (st : Store) (consAddr : bytes) : FibreProviderInfo * bool :=
  match st !! GetFibreProviderInfoKey consAddr with
  | None => (mkInfo [], false)
  | Some bz => match unmarshal bz with Ok info => (info, true) | _ => (mkInfo [], false) end
  end.

Definition DeleteFibreProviderInfo (st : Store) (consAddr : bytes) : Store := delete (GetFibreProviderInfoKey consAddr) st.

(** The loop over the entries; the callback may ask to stop. *)
Fixpoint iterate {S : Type} (cb : bytes → FibreProviderInfo → S → S * bool) (l : list (bytes * bytes)) (s : S) : result S :=
  match l with
  | [] => Ok s
  | (key, value) :: l' =>
      info ← unmarshal value;
      let '(s', stop) := cb (drop (length FibreProviderInfoPrefix) key) info s in
      if (stop : bool) then Ok s' else iterate cb l' s'
  end.

Definition IterateFibreProviderInfo {S : Type} (st : Store) (cb : bytes → FibreProviderInfo → S → S * bool) (s : S) : result S :=
  iterate cb (prefix_iter FibreProviderInfoPrefix st) s.

(** Whether a validator that was found is treated as gone. *)
Definition long_jailed (blockTime : Z) (v : Validator) : bool :=
  v_Jailed v && negb (v_Bonded v) && time_After blockTime (v_UnbondingTime v + JailedGracePeriod).

(** The callback of the sweep: the stale addresses and the error so far. *)
Definition collect_stale (sk : Staking) (blockTime : Z) (consAddr : bytes) (_ : FibreProviderInfo)
    (acc : list bytes * option error) : (list bytes * option error) * bool :=
  match GetValidatorByConsAddr sk consAddr with
  | NoValidatorFound => ((acc.1 ++ [consAddr], acc.2), false)
  | LookupFailed e => ((acc.1, Some e), true)
  | Found validator => ((if long_jailed blockTime validator then acc.1 ++ [consAddr] else acc.1, acc.2), false)
  end.

Definition RemoveStaleFibreProviders (sk : Staking) (blockTime : Z) (st : Store) : result Store :=
  '(stale, lookupErr) ← IterateFibreProviderInfo st (collect_stale sk blockTime) ([], None);
  match lookupErr with
  | Some e => Err e
  | None => Ok (fold_left DeleteFibreProviderInfo stale st)
  end.

(** [AppModule.EndBlock]. *)
Definition EndBlock := RemoveStaleFibreProviders.

(** ** The message server and the queries *)

Definition SetFibreProviderInfo_handler (sk : Staking) (st : Store) (msg : MsgSetFibreProviderInfo) : result Store :=
  valAddr ← of_option ErrInvalidValidator (ValAddressFromBech32 (ms_Signer msg));
  validator ← as_error ErrInvalidValidator (GetValidator sk valAddr);
  consAddr ← as_error ErrInvalidValidator (v_ConsAddr validator);
  _ ← ensure (negb (MaxHostLen <? length (ms_Host msg))%nat) ErrInvalidHostAddress;
  _ ← ensure (negb (length (ms_Host msg) =? 0)%nat) ErrInvalidHostAddress;
  SetFibreProviderInfo st consAddr (mkInfo (ms_Host msg)).

Definition query_FibreProviderInfo (st : Store) (req : option bytes) : result (FibreProviderInfo * bool) :=
  addr ← of_option ErrInvalidValidator req;
  consAddr ← of_option ErrInvalidValidator (ConsAddressFromBech32 addr);
  Ok (GetFibreProviderInfo st consAddr).

Definition collect_bonded (sk : Staking) (consAddr : bytes) (info : FibreProviderInfo)
    (providers : list (bytes * FibreProviderInfo)) : list (bytes * FibreProviderInfo) * bool :=
  match GetValidatorByConsAddr sk consAddr with
  | Found validator => if v_Bonded validator then (providers ++ [(ConsAddress_String consAddr, info)], false) else (providers, false)
  | _ => (providers, false)
  end.

Definition AllBondedFibreProviders (sk : Staking) (st : Store) (req : option unit) : result (list (bytes * FibreProviderInfo)) :=
  _ ← of_option ErrInvalidValidator req;
  IterateFibreProviderInfo st (collect_bonded sk) [].
End Keeper.

(** ** Genesis: [genesis.go] *)

Definition GenesisState : Type := unit.
Definition DefaultGenesisState : GenesisState := tt.
Definition ValidateGenesis (data : option GenesisState) : result unit := _ ← of_option "genesis state cannot be nil" data; Ok tt.
Definition InitGenesis (st : Store) (_ : GenesisState) : Store := st.
Definition ExportGenesis (st : Store) : GenesisState := tt.

(** ** Properties of hosts *)

Lemma IndexByte_Some s c i : IndexByte s c = Some i ↔ ∃ a b, s = a ++ c :: b ∧ length a = i ∧ c ∉ a.
Proof.
  revert i. induction s as [|x s IH]; intros i; cbn.
  { split; [done|]. intros ([|] & b & E & _); done. }
  destruct (Z.eqb_spec x c) as [->|Hne].
  - split; [intros [= <-]; exists [], s; split_and!; [done|done|apply not_elem_of_nil]|].
    intros ([|y a] & b & E & <- & Hc); [done|]. injection E as <- ->. apply not_elem_of_cons in Hc as [? _]. done.
  - rewrite fmap_Some. setoid_rewrite IH. split.
    + intros (j & (a & b & -> & Hj & Hc) & ->). exists (x :: a), b. cbn. rewrite Hj, not_elem_of_cons. split_and!; congruence.
    + intros ([|y a] & b & E & <- & Hc); injection E as -> ->; [done|]. apply not_elem_of_cons in Hc as [_ Hc].
      exists (length a). split; [|done]. exists a, b. done.
Qed.

Lemma contains_spec s c : contains s c = false ↔ c ∉ s.
Proof.
  unfold contains. rewrite bool_decide_eq_false, <- eq_None_not_Some. split.
  - intros H Hin. apply list_elem_of_split_l in Hin as (a & b & -> & Ha).
    rewrite (proj2 (IndexByte_Some _ _ (length a))) in H; [done|]. by exists a, b.
  - intros Hin. destruct (IndexByte s c) as [i|] eqn:E; [|done]. apply IndexByte_Some in E as (a & b & -> & _).
    exfalso. apply Hin, elem_of_app. right. left.
Qed.

Lemma LastIndexByte_None s c : LastIndexByte s c = None ↔ c ∉ s.
Proof.
  induction s as [|x s IH]; cbn; [split; [intros; apply not_elem_of_nil|done]|]. rewrite not_elem_of_cons, <- IH.
  destruct (LastIndexByte s c); [split; [done|by intros [_ ?]]|].
  destruct (Z.eqb_spec x c); split; try done; intros [? _]; congruence.
Qed.

Lemma LastIndexByte_Some s c i : LastIndexByte s c = Some i ↔ ∃ a b, s = a ++ c :: b ∧ length a = i ∧ c ∉ b.
Proof.
  revert i. induction s as [|x s IH]; intros i; cbn.
  { split; [done|]. intros ([|] & b & E & _); done. }
  split.
  - destruct (LastIndexByte s c) as [j|] eqn:El.
    + intros [= <-]. destruct (proj1 (IH j) eq_refl) as (a & b & -> & Hj & Hc). exists (x :: a), b. cbn. by rewrite Hj.
    + destruct (Z.eqb_spec x c) as [->|]; [|done]. intros [= <-]. exists [], s. by rewrite <- LastIndexByte_None.
  - intros ([|y a] & b & E & <- & Hc); injection E as -> ->.
    + rewrite (proj2 (LastIndexByte_None b c)) by done. by rewrite Z.eqb_refl.
    + rewrite (proj2 (IH (length a))); [done|]. by exists a, b.
Qed.

(** The two forms of an address: a host without colons, or any host in square
    brackets. *)
Definition host_port (h host port : bytes) : Prop :=
  colon ∉ port ∧ lbracket ∉ port ∧ rbracket ∉ port ∧ lbracket ∉ host ∧ rbracket ∉ host ∧
  ((h = host ++ colon :: port ∧ colon ∉ host) ∨ h = lbracket :: host ++ rbracket :: colon :: port).

Lemma SplitHostPort_sound h host port : SplitHostPort h = Ok (host, port) → host_port h host port.
Proof.
  unfold SplitHostPort. intros H. inv_ok. destruct r0 as [[host' j] k]. inv_ok. injection H as -> <-.
  apply LastIndexByte_Some in Hr as (a & b & Hh & Hi & Hb). apply negb_true_iff, contains_spec in Hr1, Hr2.
  case_bool_decide as Hd.
  - inv_ok. injection Hr0 as Ehost Ej Ek. subst j k. apply IndexByte_Some in Hr as (x & y & Hx & Hend & Hrb).
    repeat (case_match; try done). clear Hr3. apply Nat.eqb_eq in H0.
    destruct x as [|x0 x]; [rewrite Hx in Hd; done|]. assert (x0 = lbracket) as -> by (rewrite Hx in Hd; by injection Hd).
    assert (Hy : y = colon :: b ∧ a = (lbracket :: x) ++ [rbracket]).
    { rewrite Hh in Hx. change ((lbracket :: x) ++ rbracket :: y) with ((lbracket :: x) ++ [rbracket] ++ y) in Hx.
      rewrite app_assoc in Hx. apply app_inj_1 in Hx as [-> E]; [done|]. rewrite length_app. cbn in *. lia. }
    destruct Hy as [-> _]. cbn [length] in Hend. subst r2 r. rewrite Hx in *. clear Hx Hh Hd H.
    assert (E3 : (lbracket :: x) ++ rbracket :: colon :: b = ((lbracket :: x) ++ [rbracket; colon]) ++ b) by by rewrite <- app_assoc.
    assert (drop (length a + 1) ((lbracket :: x) ++ rbracket :: colon :: b) = b) as ->.
    { rewrite E3. apply drop_app_length'. rewrite length_app. cbn. lia. }
    assert (host = x) as -> by (rewrite <- Ehost; cbn; rewrite Nat.sub_0_r; apply take_app_length).
    change (lbracket ∉ x ++ rbracket :: colon :: b) in Hr1. rewrite not_elem_of_app, !not_elem_of_cons in Hr1.
    apply not_elem_of_cons in Hrb as [_ Hrb].
    assert (E2 : (lbracket :: x) ++ rbracket :: colon :: b = ((lbracket :: x) ++ [rbracket]) ++ colon :: b) by by rewrite <- app_assoc.
    rewrite E2, drop_app_length' in Hr2 by (rewrite length_app; cbn; lia). apply not_elem_of_cons in Hr2 as [_ Hr2].
    split_and!; [done|tauto|done|tauto|done|by right].
  - inv_ok. injection Hr0 as Ehost Ej Ek. subst j k. apply negb_true_iff, contains_spec in Hr. rewrite Hh, <- Hi in *.
    rewrite take_app_length in *. subst host. change (lbracket ∉ a ++ colon :: b) in Hr1. change (rbracket ∉ a ++ colon :: b) in Hr2.
    rewrite not_elem_of_app, !not_elem_of_cons in Hr1, Hr2.
    assert (drop (length a + 1) (a ++ colon :: b) = b) as ->.
    { change (colon :: b) with ([colon] ++ b). rewrite app_assoc. apply drop_app_length'. by rewrite length_app. }
    split_and!; [done|tauto|tauto|tauto|tauto|by left].
Qed.

Lemma SplitHostPort_complete h host port : host_port h host port → SplitHostPort h = Ok (host, port).
Proof.
  intros (H1 & H2 & H3 & H4 & H5 & [[-> H6]| ->]); unfold SplitHostPort.
  - rewrite (proj2 (LastIndexByte_Some _ _ (length host))) by by exists host, port. cbn [of_option mbind result_bind].
    rewrite bool_decide_false.
    2: { destruct host as [|x host]; [done|]. cbn. intros [= ->]. apply H4. left. }
    rewrite take_app_length, (proj2 (contains_spec _ _)) by done. cbn [negb ensure mbind result_bind]. rewrite !drop_0.
    rewrite (proj2 (contains_spec _ _)) by (rewrite not_elem_of_app, not_elem_of_cons; done).
    rewrite (proj2 (contains_spec _ _)) by (rewrite not_elem_of_app, not_elem_of_cons; done).
    cbn [negb ensure mbind result_bind]. change (colon :: port) with ([colon] ++ port).
    rewrite app_assoc, drop_app_length' by by rewrite length_app. done.
  - pose (a := (lbracket :: host) ++ [rbracket]).
    assert (Ea : lbracket :: host ++ rbracket :: colon :: port = a ++ colon :: port) by (unfold a; by rewrite <- app_assoc).
    rewrite (proj2 (LastIndexByte_Some _ _ (length a))) by (rewrite Ea; by exists a, port). cbn [of_option mbind result_bind].
    rewrite bool_decide_true by done.
    rewrite (proj2 (IndexByte_Some _ _ (S (length host)))).
    2: { exists (lbracket :: host), (colon :: port). rewrite not_elem_of_cons. done. }
    cbn [of_option mbind result_bind].
    assert (Hla : length a = (S (length host) + 1)%nat) by (unfold a; rewrite length_app; done).
    rewrite Hla, Nat.eqb_refl, Ea, (proj2 (Nat.eqb_neq _ _)) by (rewrite length_app, Hla; cbn; lia). cbn [mbind result_bind].
    rewrite <- Hla, drop_app_length, <- Ea. change (drop 1 (lbracket :: ?l)) with l. rewrite Nat.sub_succ, Nat.sub_0_r, take_app_length.
    rewrite (proj2 (contains_spec (host ++ _) _)) by (rewrite not_elem_of_app, !not_elem_of_cons; done). cbn [negb ensure mbind result_bind].
    rewrite (proj2 (contains_spec (colon :: _) _)) by (rewrite not_elem_of_cons; done). cbn [negb ensure mbind result_bind].
    rewrite Ea. change (colon :: port) with ([colon] ++ port). rewrite app_assoc, drop_app_length' by by rewrite length_app. done.
Qed.

Lemma as_error_Ok {A} e (r : result A) a : as_error e r = Ok a ↔ r = Ok a.
Proof. destruct r; cbn; split; congruence. Qed.

(** C35: A host is accepted exactly when it has at most a hundred bytes and is a
    non-empty host and a decimal port between 1 and 65535, separated by a colon:
    the host has no colon and no square bracket, or stands in one pair of square
    brackets. Nothing else is asked of the host part, which may hold a slash (a
    path, as [host_with_path_accepted] shows), and the port may carry a sign. *)
Theorem host_accepted_iff h :
  ValidateHost h = Ok tt ↔
  (length h <= MaxHostLen)%nat ∧
  ∃ host port n, host_port h host port ∧ host ≠ [] ∧ Atoi port = Ok n ∧ minPort <= n <= maxPort.
Proof.
  split.
  - unfold ValidateHost. intros H. inv_ok. destruct r1 as [host port]. inv_ok. apply as_error_Ok in Hr1, Hr3.
    apply negb_true_iff, Nat.ltb_ge in Hr0. apply negb_true_iff, Nat.eqb_neq in Hr2.
    apply negb_true_iff, orb_false_iff in H as [H1%Z.ltb_ge H2%Z.ltb_ge].
    split; [done|]. exists host, port, r2. split_and!; [by apply SplitHostPort_sound| |done..]. by intros ->.
  - intros [Hl (host & port & n & Hs & Hne & Hp & Hn)]. unfold ValidateHost.
    assert (length h ≠ 0)%nat.
    { destruct Hs as (_ & _ & _ & _ & _ & [[-> _]| ->]); [rewrite length_app|]; cbn; lia. }
    rewrite (proj2 (Nat.eqb_neq _ _)), (proj2 (Nat.ltb_ge _ _)) by done. cbn [negb ensure mbind result_bind].
    rewrite (SplitHostPort_complete _ _ _ Hs). cbn [as_error mbind result_bind].
    rewrite (proj2 (Nat.eqb_neq _ _)) by (by destruct host). cbn [negb ensure mbind result_bind]. rewrite Hp.
    cbn [as_error mbind result_bind]. by rewrite (proj2 (Z.ltb_ge _ _)), (proj2 (Z.ltb_ge _ _)) by lia.
Qed.

(** ** The registry *)

Section Registry.
Context `{VA : ValAddresses} `{IC : InfoCodec} `{ICL : !InfoCodecLaws}.

(** What runs: registrations that passed their stateless validation, with the
    staking state at that time, and the ends of blocks. *)
Inductive action :=
| ASet (sk : Staking) (msg : MsgSetFibreProviderInfo)
| AEndBlock (sk : Staking) (blockTime : Z).

Inductive vstep : Store → action → Store → Prop :=
| vstep_set st sk msg st' :
    MsgSet_ValidateBasic msg = Ok tt → SetFibreProviderInfo_handler sk st msg = Ok st' → vstep st (ASet sk msg) st'
| vstep_end st sk t st' : EndBlock sk t st = Ok st' → vstep st (AEndBlock sk t) st'.

Inductive vrun : list action → Store → Prop :=
| vrun_nil : vrun [] ∅
| vrun_snoc tr st a st' : vrun tr st → vstep st a st' → vrun (tr ++ [a]) st'.

(** *** The specification: a map from consensus addresses to hosts *)

(** The consensus address of the validator that signs a message. *)
Definition signer_cons (sk : Staking) (msg : MsgSetFibreProviderInfo) : option bytes :=
  match ValAddressFromBech32 (ms_Signer msg) with
  | None => None
  | Some valAddr =>
      match GetValidator sk valAddr with
      | Ok v => match v_ConsAddr v with Ok c => Some c | _ => None end
      | _ => None
      end
  end.

(** The validator was removed; or it is jailed, not bonded, and seven days (in
    nanoseconds) have passed since its unbonding time. *)
Definition gone (sk : Staking) (t : Z) (c : bytes) : bool :=
  match GetValidatorByConsAddr sk c with
  | NoValidatorFound => true
  | Found v => bool_decide (v_Jailed v = true ∧ v_Bonded v = false ∧ v_UnbondingTime v + 604800000000000 < t)
  | LookupFailed _ => false
  end.

Definition spec_step (r : gmap bytes bytes) (a : action) : gmap bytes bytes :=
  match a with
  | ASet sk msg => match signer_cons sk msg with Some c => <[c := ms_Host msg]> r | None => r end
  | AEndBlock sk t => filter (λ kv, gone sk t kv.1 = false) r
  end.

Definition registry (tr : list action) : gmap bytes bytes := fold_left spec_step tr ∅.

(** The store holds the encoded entries of the registry under their keys, and
    nothing else; every host passed validation. *)
Record represents (st : Store) (r : gmap bytes bytes) : Prop := {
  rep_entry c h : r !! c = Some h →
    ∃ bz, st !! GetFibreProviderInfoKey c = Some bz ∧ unmarshal bz = Ok (mkInfo h) ∧ ValidateHost h = Ok tt;
  rep_key key : is_Some (st !! key) → ∃ c, key = GetFibreProviderInfoKey c ∧ is_Some (r !! c);
}.

Lemma key_inj c c' : GetFibreProviderInfoKey c = GetFibreProviderInfoKey c' → c = c'.
Proof. by intros [= ->]. Qed.

Lemma visited st r kv : represents st r → kv ∈ prefix_iter FibreProviderInfoPrefix st →
  ∃ c h, kv.1 = GetFibreProviderInfoKey c ∧ r !! c = Some h ∧ unmarshal kv.2 = Ok (mkInfo h) ∧ drop (length FibreProviderInfoPrefix) kv.1 = c.
Proof.
  intros Hr Hin. destruct kv as [key bz]. apply elem_of_prefix_iter in Hin as [Hl _].
  destruct (rep_key _ _ Hr key) as (c & -> & h & Hc); [eauto|]. destruct (rep_entry _ _ Hr _ _ Hc) as (bz' & Hl' & Hu & _).
  exists c, h. assert (bz' = bz) as -> by congruence. done.
Qed.

(** The addresses that the iteration visits are those of the registry. *)
Lemma visited_iff st r c : represents st r →
  c ∈ map (λ kv, drop (length FibreProviderInfoPrefix) kv.1) (prefix_iter FibreProviderInfoPrefix st) ↔ is_Some (r !! c).
Proof.
  intros Hr. rewrite list_elem_of_fmap. split.
  - intros (kv & -> & (c' & h & _ & Hc & _ & E)%(visited _ _ _ Hr)). rewrite E. eauto.
  - intros [h Hc]. destruct (rep_entry _ _ Hr _ _ Hc) as (bz & Hl & _). exists (GetFibreProviderInfoKey c, bz).
    split; [done|]. apply elem_of_prefix_iter. split; [done|]. by apply prefix_app_r.
Qed.

Lemma long_jailed_spec t v :
  long_jailed t v = bool_decide (v_Jailed v = true ∧ v_Bonded v = false ∧ v_UnbondingTime v + 604800000000000 < t).
Proof.
  apply Bool.eq_iff_eq_true. unfold long_jailed, time_After. change JailedGracePeriod with 604800000000000.
  rewrite bool_decide_eq_true, !andb_true_iff, negb_true_iff, Z.ltb_lt. tauto.
Qed.

(** The sweep collects the addresses that are gone, unless a lookup fails. *)
Lemma sweep_collects sk t l acc : (∀ kv, kv ∈ l → is_ok (unmarshal kv.2) = true) →
  ∃ out err, iterate (collect_stale sk t) l (acc, None) = Ok (out, err) ∧
    (err = None ↔ ∀ kv e, kv ∈ l → GetValidatorByConsAddr sk (drop (length FibreProviderInfoPrefix) kv.1) ≠ LookupFailed e) ∧
    (err = None → out = acc ++ List.filter (gone sk t) (map (λ kv, drop (length FibreProviderInfoPrefix) kv.1) l)).
Proof.
  revert acc. induction l as [|[key bz] l IH]; intros acc Hu; cbn [iterate map List.filter].
  { exists acc, None. split_and!; [done|split; [intros _ kv e Hin; by apply elem_of_nil in Hin|done]|]. intros _. by rewrite app_nil_r. }
  specialize (Hu (key, bz) ltac:(left)) as Hkv. cbn in Hkv. destruct (unmarshal bz) as [info| |]; try done. cbn [mbind result_bind fst].
  assert (Hu' : ∀ kv, kv ∈ l → is_ok (unmarshal kv.2) = true) by (intros; apply Hu; by right). clear Hu.
  remember (drop (length FibreProviderInfoPrefix) key) as c eqn:Ec.
  assert (Hgo : ∀ acc' : list bytes, (∀ e, GetValidatorByConsAddr sk c ≠ LookupFailed e) →
    acc' = acc ++ (if gone sk t c then [c] else []) →
    ∃ out err, iterate (collect_stale sk t) l (acc', None) = Ok (out, err) ∧
      (err = None ↔ ∀ kv e, kv ∈ (key, bz) :: l → GetValidatorByConsAddr sk (drop (length FibreProviderInfoPrefix) kv.1) ≠ LookupFailed e) ∧
      (err = None → out = acc ++ (if gone sk t c then c :: List.filter (gone sk t) (map (λ kv, drop (length FibreProviderInfoPrefix) kv.1) l)
        else List.filter (gone sk t) (map (λ kv, drop (length FibreProviderInfoPrefix) kv.1) l)))).
  { intros acc' Hne ->. destruct (IH (acc ++ (if gone sk t c then [c] else [])) Hu') as (out & err & E & Herr & Hout).
    exists out, err. split_and!; [done| |].
    - rewrite Herr. setoid_rewrite elem_of_cons. split; [|by eauto]. intros H kv e [->|Hin]; [cbn [fst]; by rewrite <- Ec|by apply H].
    - intros Hn. rewrite (Hout Hn), <- app_assoc. by destruct (gone sk t c). }
  unfold collect_stale at 1. destruct (GetValidatorByConsAddr sk c) as [v| |e] eqn:Ev; cbn [fst snd].
  - apply Hgo; [done|]. unfold gone. rewrite Ev, <- long_jailed_spec. destruct (long_jailed t v); [done|by rewrite app_nil_r].
  - apply Hgo; [done|]. unfold gone. by rewrite Ev.
  - exists acc, (Some e). split_and!; [done| |done]. split; [done|]. intros H. exfalso. apply (H (key, bz) e); [by left|]. cbn [fst]. by rewrite <- Ec.
Qed.

Lemma visited_decodes st r kv : represents st r → kv ∈ prefix_iter FibreProviderInfoPrefix st → is_ok (unmarshal kv.2) = true.
Proof. intros Hr (c & h & _ & _ & -> & _)%(visited _ _ _ Hr). done. Qed.

Lemma delete_all_lookup l st key : fold_left DeleteFibreProviderInfo l st !! key =
  if bool_decide (key ∈ map GetFibreProviderInfoKey l) then None else st !! key.
Proof.
  revert st. induction l as [|c l IH]; intros st; cbn [fold_left map]; [by rewrite bool_decide_false by apply not_elem_of_nil|].
  rewrite IH. unfold DeleteFibreProviderInfo. destruct (decide (GetFibreProviderInfoKey c = key)) as [<-|Hne].
  - rewrite lookup_delete_eq, (bool_decide_true (_ ∈ _ :: _)) by left. by case_bool_decide.
  - rewrite lookup_delete_ne by done. case_bool_decide as H1.
    + by rewrite bool_decide_true by by right.
    + rewrite bool_decide_false; [done|]. intros [->|?]%elem_of_cons; done.
Qed.

(** A sweep that succeeds has removed exactly the entries that are gone. *)
Lemma sweep_represents sk t st r st' : represents st r → EndBlock sk t st = Ok st' →
  represents st' (filter (λ kv, gone sk t kv.1 = false) r).
Proof.
  intros Hr H. unfold EndBlock, RemoveStaleFibreProviders, IterateFibreProviderInfo in H.
  destruct (sweep_collects sk t (prefix_iter FibreProviderInfoPrefix st) []) as (out & err & E & _ & Hout).
  { intros kv. by apply visited_decodes with r. }
  rewrite E in H. cbn [mbind result_bind] in H. destruct err; [done|]. inv_ok. subst st'. rewrite (Hout eq_refl). clear E Hout.
  assert (Hin : ∀ c, c ∈ List.filter (gone sk t) (map (λ kv, drop (length FibreProviderInfoPrefix) kv.1) (prefix_iter FibreProviderInfoPrefix st))
    ↔ is_Some (r !! c) ∧ gone sk t c = true).
  { intros c. rewrite list_elem_of_In, List.filter_In, <- list_elem_of_In, visited_iff by done. done. }
  assert (Hkey : ∀ c, GetFibreProviderInfoKey c ∈ map GetFibreProviderInfoKey (List.filter (gone sk t)
    (map (λ kv, drop (length FibreProviderInfoPrefix) kv.1) (prefix_iter FibreProviderInfoPrefix st))) ↔ is_Some (r !! c) ∧ gone sk t c = true).
  { intros c. rewrite <- Hin, list_elem_of_fmap. split; [by intros (c' & ->%key_inj & ?)|eauto]. }
  cbn [app]. split.
  - intros c h [Hc Hg]%map_lookup_filter_Some. cbn in Hg. rewrite delete_all_lookup, bool_decide_false; [by apply (rep_entry _ _ Hr)|].
    rewrite Hkey. intros [_ ?]. congruence.
  - intros key. rewrite delete_all_lookup. case_bool_decide as Hd; [by intros [? ?]|]. intros Hs.
    destruct (rep_key _ _ Hr key Hs) as (c & -> & h & Hc). exists c. split; [done|]. exists h. apply map_lookup_filter_Some. split; [done|].
    cbn. destruct (gone sk t c) eqn:Hg; [|done]. exfalso. apply Hd, Hkey. eauto.
Qed.

Lemma set_represents sk st msg r st' : represents st r → MsgSet_ValidateBasic msg = Ok tt →
  SetFibreProviderInfo_handler sk st msg = Ok st' → represents st' (spec_step r (ASet sk msg)).
Proof.
  intros Hr Hv H. unfold SetFibreProviderInfo_handler in H. inv_ok. apply as_error_Ok in Hr1, Hr2.
  cbn [spec_step]. unfold signer_cons. rewrite Hr0, Hr1, Hr2. unfold SetFibreProviderInfo in H. inv_ok. subst st'.
  unfold MsgSet_ValidateBasic in Hv. inv_ok. split.
  - intros c h. rewrite lookup_insert_Some. intros [[<- <-]|[Hne Hc]].
    + exists r5. rewrite lookup_insert_eq. split_and!; [done|by apply unmarshal_marshal|done].
    + rewrite lookup_insert_ne by (intros ?%key_inj; done). by apply (rep_entry _ _ Hr).
  - intros key. rewrite lookup_insert_is_Some. intros [<-|[Hne Hs]].
    + exists r2. rewrite lookup_insert_eq. eauto.
    + destruct (rep_key _ _ Hr key Hs) as (c & -> & Hc). exists c. split; [done|].
      rewrite lookup_insert_ne; [done|]. congruence.
Qed.

Lemma vrun_represents tr st : vrun tr st → represents st (registry tr).
Proof.
  unfold registry. induction 1 as [|tr st a st' Hr IH Hs].
  - split; [intros c h; cbn; by rewrite lookup_empty|]. intros key [? Hk]. by rewrite lookup_empty in Hk.
  - rewrite fold_left_app. cbn [fold_left]. destruct Hs as [st sk msg st' Hv H|st sk t st' H];
      [by eapply set_represents|by eapply sweep_represents].
Qed.

Lemma bonded_collects sk l acc : (∀ kv, kv ∈ l → is_ok (unmarshal kv.2) = true) →
  ∃ out, iterate (collect_bonded sk) l acc = Ok out ∧ ∀ p, p ∈ out ↔ p ∈ acc ∨
    ∃ kv info v, kv ∈ l ∧ unmarshal kv.2 = Ok info ∧ GetValidatorByConsAddr sk (drop (length FibreProviderInfoPrefix) kv.1) = Found v ∧
      v_Bonded v = true ∧ p = (ConsAddress_String (drop (length FibreProviderInfoPrefix) kv.1), info).
Proof.
  revert acc. induction l as [|[key bz] l IH]; intros acc Hu; cbn [iterate].
  { exists acc. split; [done|]. intros p. split; [by left|]. intros [?|(kv & ? & ? & Hin & _)]; [done|by apply elem_of_nil in Hin]. }
  specialize (Hu (key, bz) ltac:(left)) as Hkv. cbn in Hkv. destruct (unmarshal bz) as [info| |] eqn:Eb; try done. cbn [mbind result_bind].
  assert (Hu' : ∀ kv, kv ∈ l → is_ok (unmarshal kv.2) = true) by (intros; apply Hu; by right). clear Hu.
  remember (drop (length FibreProviderInfoPrefix) key) as c eqn:Ec.
  set (new := match GetValidatorByConsAddr sk c with Found v => if v_Bonded v then [(ConsAddress_String c, info)] else [] | _ => [] end).
  assert (collect_bonded sk c info acc = (acc ++ new, false)) as ->.
  { unfold collect_bonded, new. destruct (GetValidatorByConsAddr sk c) as [v| |]; try by rewrite app_nil_r.
    destruct (v_Bonded v); [done|by rewrite app_nil_r]. }
  destruct (IH (acc ++ new) Hu') as (out & -> & Hout). exists out. split; [done|]. intros p. rewrite Hout, elem_of_app.
  assert (Hnew : p ∈ new ↔ ∃ v, GetValidatorByConsAddr sk c = Found v ∧ v_Bonded v = true ∧ p = (ConsAddress_String c, info)).
  { unfold new. destruct (GetValidatorByConsAddr sk c) as [v| |e]; [destruct (v_Bonded v) eqn:Hb|..].
    - rewrite list_elem_of_singleton. split; [intros ->; eauto|]. by intros (v' & [= <-] & _ & ->).
    - rewrite elem_of_nil. split; [done|]. intros (v' & [= <-] & ? & _). congruence.
    - rewrite elem_of_nil. split; [done|]. by intros (v' & ? & _).
    - rewrite elem_of_nil. split; [done|]. by intros (v' & ? & _). }
  rewrite Hnew. setoid_rewrite elem_of_cons. split.
  - intros [[?|(v & ? & ? & ?)]|(kv & i & v & ? & ?)]; [by left| |right; exists kv, i, v; tauto].
    right. exists (key, bz), info, v. cbn [fst snd]. rewrite <- Ec. tauto.
  - intros [?|(kv & i & v & [->|?] & Hk)]; [by left; left| |right; exists kv, i, v; tauto].
    left. right. exists v. cbn [fst snd] in Hk. rewrite <- Ec, Eb in Hk. destruct Hk as (Ei & Hg & Hb & Hp).
    injection Ei as <-. done.
Qed.

(** C34: The module refines a map from consensus addresses to hosts, in which the
    last registration of a validator counts and the end of a block removes
    exactly the validators that staking no longer knows and those that are
    jailed, not bonded and past their unbonding time by more than seven days: lookups answer from the map, every
    host in it is valid, the query for bonded providers lists exactly the bonded
    validators of the map, and a block ends without an error when staking can
    look up the registered validators. *)
Theorem registry_refined tr st : vrun tr st →
  (∀ c, GetFibreProviderInfo st c = match registry tr !! c with Some h => (mkInfo h, true) | None => (mkInfo [], false) end) ∧
  (∀ c h, registry tr !! c = Some h → ValidateHost h = Ok tt) ∧
  (∀ sk, ∃ l, AllBondedFibreProviders sk st (Some tt) = Ok l ∧ ∀ p, p ∈ l ↔ ∃ c h v,
    registry tr !! c = Some h ∧ GetValidatorByConsAddr sk c = Found v ∧ v_Bonded v = true ∧ p = (ConsAddress_String c, mkInfo h)) ∧
  (∀ sk t, (∀ c e, is_Some (registry tr !! c) → GetValidatorByConsAddr sk c ≠ LookupFailed e) → ∃ st', EndBlock sk t st = Ok st').
Proof.
  intros Hr%vrun_represents. split_and!.
  - intros c. unfold GetFibreProviderInfo. destruct (registry tr !! c) as [h|] eqn:Hc.
    + destruct (rep_entry _ _ Hr _ _ Hc) as (bz & -> & -> & _). done.
    + destruct (st !! _) as [bz|] eqn:Hk; [|done]. destruct (rep_key _ _ Hr _ (mk_is_Some _ _ Hk)) as (c' & <-%key_inj & [? ?]). congruence.
  - intros c h Hc. by destruct (rep_entry _ _ Hr _ _ Hc) as (_ & _ & _ & ?).
  - intros sk. destruct (bonded_collects sk (prefix_iter FibreProviderInfoPrefix st) []) as (l & E & Hl).
    { intros kv. by apply visited_decodes with (registry tr). }
    exists l. split; [exact E|]. intros p. rewrite Hl. split.
    + intros [Hp|(kv & i & v & Hin & Hu & Hg & Hb & ->)]; [by apply elem_of_nil in Hp|].
      destruct (visited _ _ _ Hr Hin) as (c & h & _ & Hc & Hu' & Ec). rewrite Ec in *. exists c, h, v.
      assert (i = mkInfo h) as -> by congruence. done.
    + intros (c & h & v & Hc & Hg & Hb & ->). right. destruct (rep_entry _ _ Hr _ _ Hc) as (bz & Hk & Hu & _).
      exists (GetFibreProviderInfoKey c, bz), (mkInfo h), v. split_and!; [|done..]. apply elem_of_prefix_iter.
      split; [done|by apply prefix_app_r].
  - intros sk t Hok. destruct (sweep_collects sk t (prefix_iter FibreProviderInfoPrefix st) []) as (out & err & E & Herr & _).
    { intros kv. by apply visited_decodes with (registry tr). }
    unfold EndBlock, RemoveStaleFibreProviders, IterateFibreProviderInfo. rewrite E. cbn [mbind result_bind].
    rewrite (proj2 Herr); [eauto|]. intros kv e Hin. destruct (visited _ _ _ Hr Hin) as (c & h & _ & Hc & _ & ->). apply Hok. eauto.
Qed.
End Registry.

(** ** A concrete run *)

Module ValaddrRuns.

#[export] Instance val_addresses : ValAddresses := {
  ValAddressFromBech32 s := match s with [] => None | _ => Some s end;
  ConsAddressFromBech32 s := match s with [] => None | _ => Some s end;
  ConsAddress_String a := a;
}.

#[export] Instance info_codec : InfoCodec := { marshal i := Ok (info_Host i); unmarshal b := Ok (mkInfo b) }.

#[export] Instance info_codec_laws : InfoCodecLaws.
Proof. constructor. intros [h] b [= <-]. done. Qed.

(** One validator: bonded, removed, or jailed since its unbonding at time 0. *)
Definition bonded : Validator := mkValidator false true 0 (Ok [6; 6]).
Definition staking (present : bool) : Staking :=
  mkStaking (λ _, Ok bonded) (λ _, if present then Found bonded else NoValidatorFound).

(** The host a.b with port 79, and the address ::1 with port 1. *)
Definition host1 : bytes := [97; 46; 98; 58; 55; 57].
Definition host2 : bytes := [91; 58; 58; 49; 93; 58; 49].

Definition trace : list action :=
  [ASet (staking true) (mkMsgSet [5] host1); AEndBlock (staking true) 100; ASet (staking true) (mkMsgSet [5] host2)].

Definition store : Store := {[ GetFibreProviderInfoKey [6; 6] := host2 ]}.

Lemma run : vrun trace store.
Proof.
  apply (vrun_snoc [ASet (staking true) (mkMsgSet [5] host1); AEndBlock (staking true) 100] {[ GetFibreProviderInfoKey [6; 6] := host1 ]}).
  - apply (vrun_snoc [ASet (staking true) (mkMsgSet [5] host1)] {[ GetFibreProviderInfoKey [6; 6] := host1 ]}).
    + apply (vrun_snoc [] ∅); [apply vrun_nil|]. apply vstep_set; [reflexivity|]. vm_compute. reflexivity.
    + apply vstep_end. vm_compute. reflexivity.
  - apply vstep_set; [reflexivity|]. vm_compute. reflexivity.
Qed.

(** The last registration counts, and a removed validator is swept. *)
Example swept : registry trace !! [6; 6] = Some host2 ∧ EndBlock (staking false) 200 store = Ok ∅.
Proof. vm_compute. done. Qed.

(** A jailed validator is kept for the seven days after its unbonding time. *)
Definition jailed : Staking := mkStaking (λ _, Ok bonded) (λ _, Found (mkValidator true false 0 (Ok [6; 6]))).

Example jailed_kept_for_seven_days :
  EndBlock jailed (7 * 24 * Hour) store = Ok store ∧ EndBlock jailed (7 * 24 * Hour + 1) store = Ok ∅.
Proof. vm_compute. done. Qed.

(** The host example.com/path with port 80 is accepted: only colons and
    brackets are looked at in the host part. *)
Example host_with_path_accepted :
  ValidateHost [101; 120; 97; 109; 112; 108; 101; 46; 99; 111; 109; 47; 112; 97; 116; 104; 58; 56; 48] = Ok tt.
Proof. vm_compute. done. Qed.

Lemma registry_refined_witness :
  (∀ c, GetFibreProviderInfo store c = match registry trace !! c with Some h => (mkInfo h, true) | None => (mkInfo [], false) end) ∧
  (∀ c h, registry trace !! c = Some h → ValidateHost h = Ok tt) ∧
  (∀ sk, ∃ l, AllBondedFibreProviders sk store (Some tt) = Ok l ∧ ∀ p, p ∈ l ↔ ∃ c h v,
    registry trace !! c = Some h ∧ GetValidatorByConsAddr sk c = Found v ∧ v_Bonded v = true ∧ p = (ConsAddress_String c, mkInfo h)) ∧
  (∀ sk t, (∀ c e, is_Some (registry trace !! c) → GetValidatorByConsAddr sk c ≠ LookupFailed e) → ∃ st', EndBlock sk t store = Ok st').
Proof. exact (registry_refined trace store run). Defined.
End ValaddrRuns.
End Valaddr.
